(* ===== verification/_CoqProject ===== *)
-Q . S2P
Prelude.v
Crypto.v
Wire.v
Scanner.v
Lexer.v
Session.v
Startup.v
Credentials.v
CredentialStore.v
Auth.v
Relay.v
ResultSet.v
Tokenizer.v
Cache.v
CacheMiddleware.v
Health.v
Pool.v
Probes.v
Balancer.v
Gateway.v
Coordination.v
RateLimit.v
Tracker.v
Sizing.v
Routing.v
Format.v
Calendar.v
Stores.v
Broadcast.v
Console.v
Mysql.v
Host.v
Rebuild.v
Agent.v
Failover.v
Config.v
Fleet.v
FleetRestart.v
Management.v
Provisioner.v
AgentServer.v
Consensus.v
Streams.v
Upkeep.v
Operations.v
Status.v
Reload.v
Lifecycle.v
Api.v
Ui.v
