(* ===== verification/Prelude.v ===== *)
(** * Pontus: a database proxy, verified

    Pontus sits between PostgreSQL clients and a cluster of servers.  It speaks
    the wire protocol to both, multiplexes many client sessions over few server
    connections, sends reads to replicas and writes to the primary, caches
    replies, limits clients, watches the servers and moves the write role when
    the primary is lost, with the help of an agent on every database host.  This
    library models the parts of its Go sources (under src/server, src/agent and
    src/pkg) that decide those things, and proves what makes them correct.

    ** How the parts interact

    A client connection starts with the startup exchange (Startup); Pontus either
    relays the authentication or performs it itself (Credentials, CredentialStore,
    Auth), and the database asked for is routed (Routing).  Each request is then
    read whole (Relay over Wire), classified (Tokenizer), passed through the rate
    limiter (RateLimit) and the cache (CacheMiddleware over Cache), given a backend
    by a balancing strategy (Balancer) and a connection of that backend by its
    pools (Pool, guarded by the breaker of Health), on which the session is
    replayed (Session, which follows what statements change, read by Lexer); the
    reply is relayed until the scanner (Scanner) sees its end, and the connection
    is kept or given back by the release rule (Session).  Gateway composes this
    into the life of a session and of all sessions together; Coordination holds
    what sessions share.  Beside that the health monitor (Health, Pool), which asks
    the servers themselves (Probes), and the failover manager (Failover, agreeing
    through Consensus) change roles and health, which the balancer reads.  The
    manager promotes and rebuilds nodes through the provisioner (Provisioner),
    which talks to the agents (Agent, and Rebuild for the operation that replaces
    a data directory, both over the host of Host).  Statements are counted and
    throttled by Tracker, pools resized by Sizing.  Console queries are answered by
    Pontus itself (Console over ResultSet); MySQL sessions take the handler of Mysql.
    Config lays configurations over each other and turns them into what a proxy
    runs with, Reload applies a change of them to a running gateway.

    The management plane keeps projects, their proxies and backends, in a store and
    running (Fleet, FleetRestart; Upkeep is what a backend does by itself), hands
    operations to the agents and relays their progress (Operations), reports on
    what runs (Status), and guards all of it (Management, Api).  Log lines and
    statistics go to stores of their own (Broadcast, Stores, over Calendar).
    Ui answers the browsers, AgentServer guards the agents, and Lifecycle starts and
    stops the process.

    ** Files

    - Prelude.v (this file): bytes, fixed-width integers, big-endian fields, the
      error monad [result], Go's slicing and searching of byte strings, decimal
      numbers, the tactics and the hint and rewriting databases of the library.
    - Crypto.v: SHA-256, HMAC, MD5, hexadecimal and base64 as the Go library
      computes them; executable.
    - Wire.v: protocol/message_framer.go, command_reader.go, error_frame.go,
      error_response.go, cancel_key.go, the packet readers of
      postgres_startup.go.  A reader's state is the stream still to come.
    - Scanner.v: protocol/reply_scanner.go, transaction_state.go, await_reply.go
      and PeekTransactionState.  State: the record [replyScanner].
    - Lexer.v: protocol/pin_detect.go, pin_reason.go, set_statement.go.  A
      position in a statement is the suffix from there on.
    - Session.v: the session half of protocol/postgres_handler.go,
      session_state.go, proxy/pooling_mode.go, and the order in which the
      gateway runs them ([exchange]).  State: [SessionState].  The class
      [StatementHolder] is what a replay needs of a connection.
    - Startup.v: protocol/postgres_startup.go, startup_rewrite.go,
      startup_reader.go, client_tls.go, slot_name.go and the relay of the
      authentication.
    - Credentials.v: credentials/verifier.go, scram.go, scram_client.go, md5.go.
    - CredentialStore.v: credentials/file_store.go, query_store.go, cache.go.
    - Auth.v: protocol/sasl.go, client_auth.go, backend_auth.go and
      authenticateClient of proxy/client_auth.go, in the monad [IO] of a
      connection's two byte streams.
    - Relay.v: readRequest, proxyResponse and what they call in proxy/gateway.go,
      copy_in.go, response_capture.go, async_watcher.go.  A peer is a stream cut
      into reads; a call returns, blocks for more input, or runs out of fuel.
    - ResultSet.v: protocol/result_set.go, encoder and decoders.
    - Tokenizer.v: protocol/tokenizer.go, and ClassifyQuery, NormalizeQuery and
      basicNormalize of postgres_handler.go.
    - Cache.v: internal/cache/cache.go.  State: [Manager], two maps.
    - CacheMiddleware.v: proxy/middleware/cache.go and cache_key.go.
    - Health.v: internal/health/circuit_breaker.go, monitor.go.
    - Pool.v: internal/pool/conn.go, driver.go, conn_registry.go, pool_set.go,
      database_limits.go, server.go, reattach.go, replication_status.go.  A
      pooled connection is an instance of [StatementHolder].
    - Probes.v: the queries Pontus asks itself: the health, role, lag, discovery
      and metrics probes of postgres_handler.go, slot_stats.go, and the checks of
      pool/server.go over their answers, in the monad [Probe] of one connection.
    - Balancer.v: internal/balancer, all six strategies.
    - Gateway.v: proxy/session_acquire.go, open_session.go, acquire,
      executeRequest and handleClient of gateway.go.  State: the backends
      ([World]) and the sessions; [gw_step] interleaves them.
    - Coordination.v: modules Pause (the failover pause), Collapse (request
      collapsing and drain) and Registries (cancel_registry.go,
      session_registry.go), as step relations over their atomic actions.
    - RateLimit.v: proxy/middleware/rate_limit.go, tenant_limiters.go.
    - Tracker.v: pkg/observability/tracker.go, throttler.go, dbstats.go.  State:
      shards of statistics, the two maps of the throttler, the history of a database.
    - Sizing.v: pool/pool_stat.go, peer_addr.go, the totals, limits and latency
      average of server.go, and controller.go, the adaptive size of a pool.
    - Routing.v: pkg/config/database.go, admin_console.go, and resolveDatabase.
    - Format.v: integers, instants, durations, addresses and case as the Go library
      prints and reads them.
    - Calendar.v: instants as RFC 3339 texts, how they compare and how they are read.
    - Stores.v: pkg/observability/store/log_store.go and metric_store.go, the reading
      half of tracker.go's store, and the queries of manager/observability.go over
      them.  State: the rows of the tables.  What the driver and JSON do is classes
      with their laws.
    - Broadcast.v: pkg/observability/logs.go.  State: [LogBroadcaster], with the
      contents of its channels; [act] interleaves its callers and its worker.
    - Console.v: proxy/admin_console.go, the whole console over the wire.
    - Mysql.v: protocol/mysql_handler.go.
    - Host.v: a database host: its tree of files, the system calls of package os
      with their failures, the programs an agent runs; the monad [M] that keeps
      every tree passed through, and the rules of [wp].
    - Rebuild.v: agent/infrastructure/replication.go, clusterDir of management.go,
      DetectPostgresDataDir of pkg/system/path.go.
    - Agent.v: agent/infrastructure/pg_host.go, lifecycle.go, maintenance.go,
      management.go, allowlist.go, apt.go, the validator, and the derived figures
      of monitor.go.
    - Failover.v: internal/orchestration/failover_manager.go, rejoin.go,
      follow_primary.go, ownership.go, options.go, and CheckReplicationLag of
      postgres_provisioner.go.
    - Config.v: pkg/config/options.go, failover.go, auth.go, the translation of
      configuration in management/infrastructure/registry/registry.go, setting.go
      and cluster.go; module Ownership is the claim on orchestration.
    - Fleet.v: management/infrastructure: registry.go, state, manager/project.go,
      proxy.go and the half of backend.go that changes backends.  State: [Fleet], with
      every object a location, so that what is shared is shared: arrays under slices,
      configurations under a proxy and its project, contexts under contexts.
    - FleetRestart.v: the invariant of the fleet and its theorems.
    - Management.v: management/middleware/auth.go, manager/auth.go, store/users.go,
      projects.go, pkg/auth, and internal/insights.
    - Provisioner.v: orchestration/postgres_provisioner.go, agent_tls.go,
      NewAgentClient of agent_client.go.
    - AgentServer.v: cmd/agent/main.go, the interceptors and the stream handlers of
      agent/transport/grpc.go.
    - Consensus.v: internal/consensus/node.go, orchestration/raft.go.  The class
      [FSM] is what raft relies on; both state machines are instances.
    - Streams.v: internal/replication/registry.go, proxy/replication.go.
    - Upkeep.v: pool/admin.go, and of pool/server.go the loop of [Start], the agent's
      client and reports, and [Close].
    - Operations.v: the rest of manager/backend.go, the relay of handler/connect.go as
      a step relation of its two goroutines, handler/status_stream.go.
    - Status.v: manager/observability.go and manager/replication.go.
    - Reload.v: NewGateway, reconfigure and UpdateConfig of proxy/gateway.go, tls.go,
      middleware/chain.go.
    - Lifecycle.v: internal/app/app.go, migration.go and service.go, Serve and drain of
      gateway.go, StopAll of registry.go.  State: [disk], what the stores and the older
      files hold.
    - Api.v: the forty procedures as one service: endpoints.go, service_impl.go and the
      names in management.connect.go, over the managers above.
    - Ui.v: management/handler/ui.go.

    Definitions keep the names of the Go functions they translate; where a name
    is taken or not an identifier a prefix or suffix is added, and a comment
    names the original.

    ** What the theorems show

    - Wire (C1): frames are read back as they were written by every reader.  Also
      [error_frames]: the error writers agree with the reader of error texts.
    - Scanner (C2, C3): the end of a reply is found exactly, wherever the network
      cuts it; a refused statement is never taken for success.  Also
      [response_end_spec] and [peek_agrees_with_scanner].
    - Relay (C4, C5): requests are forwarded whole and bounded (seven bytes above the
      configured limit), replies whole, once and alone.  Also
      [notifications_forwarded], whole and in order.  The theorems and examples after
      them show where a request stalls, a reply is cut or a statement is forwarded too
      early.
    - Session (C6 to C8): the tracked state is bounded and well formed; a replay
      rebuilds it; a session is released only when what is tracked is what the client
      last set, by the grammar of SET in module Client; the examples show the SETs the
      tracker does not see.  Also [pin_holds], [replay_statements_once].
    - Gateway (C9, C10): no connection is shared or lost, whatever sessions do and
      backends answer; a session only speaks on a connection of its own identity.
    - Auth and Credentials (C11 to C15): a client is told it is authenticated only
      after a proof; Pontus's two SCRAM roles meet on the wire; what a proof shows;
      the verifier cache is bounded and honest; the startup on a fresh backend returns
      exactly at its last message.  Also [scram_passthrough], [startup_report_roundtrip], [verifier_roundtrip].
    - Startup (C16): the authentication relay is transparent.  Also
      [rewritten_startup], [encryption_negotiation]; of Routing [routing_consistent],
      a session reaches the database its name is routed to and no other, and
      [console_closed].
    - Coordination (C17, C18): no writer sleeps through the end of a failover; what
      collapsed requests share, a failed statement's reply included.  Also
      [cancel_routed], [registry_refines].
    - Console (C19): the console answers every conversation as the protocol asks but
      for two deviations that are written out.  Also [console_refuses].
    - Pool (C20, C21): eviction never touches a pool in use; the checked-out
      count is exact.  Also [idle_demotion_is_final], [reattach_dwell].
    - Balancer (C22): every strategy respects the hint, with one target or many.  Also
      [hash_ring_stable].
    - Probes (C23): what the probes conclude is what the rows of the server say.
      Also [query_rows_exact]; the examples show replies that are misread.
    - Cache (C24) and CacheMiddleware (C25): the index is exact and the size
      bounded in every reachable state; keys identify sessions up to a hash
      collision.  Also [eviction_exact], [served_reply_accounted].
    - ResultSet (C26): what the console sends decodes to its rows.  Also
      [misfit_row_refused], [bind_formats_read].
    - Tokenizer (C27): what is classified as a read.  Also
      [normalize_strips_constants], [classification_case_insensitive],
      [slot_query_safe]; of Lexer [leading_noise_ignored],
      [statements_case_insensitive], [contains_phrase_adjacent].
    - Failover (C28 to C30): when a promotion happens and of which replica (the first
      in configured order that can be reached, lag being constantly zero), how a split
      brain ends, and when promotions exclude each other; the examples after C30 show
      the two interleavings in which they do not.  Also [rejoin_attempts_bounded].
    - Rebuild and Provisioner (C31, C32): however often rebuilds are interrupted
      and wherever, the host holds a whole cluster; a demotion the proxy takes for
      done was done on the node.  Also [rebuild_done_is_standby]; the examples show
      the directories and requests for which a rebuild fails or is not safe.
    - Config (C33): of the serving processes that lock the same file at most one acts on
      the cluster; those without a file to lock all do.  Also [updates_compose],
      [failover_defaults_agree], [health_probe_fits], [statements_always_bounded]; the examples of Ownership show an upgrade after
      which nobody acts and a drain during which two do.
    - Fleet (C34): a restart starts, for every proxy, exactly the backends it lists now,
      after any calls of the API that were stored.  Also [failed_addition_undone] and
      [routing_fixed_at_creation]; the examples show the calls after which what runs,
      what is stored and what is routed to differ.
    - Consensus (C35): nodes that reflect equally many entries agree on what the
      log says last.  Also [proposal_reported].
    - Api (C36): a call of any procedure that changes or causes anything presents the
      static token or an administrator's.  Also, of Management,
      [admitted_calls_authorised], [login_grants_role], [explain_output_not_analysed]; of Status
      [read_eligible_is_routed], [streaming_is_eligible], [slot_created_safely] and
      [status_never_repeats].
    - Operations (C37): the caller of a relayed operation has all of its messages and
      its result (but that of a vacuum) or gave up or was cut off; the relay ends where
      the agent's stream does.  Also [available_versions], [status_stream_current].
    - Lifecycle (C38): a second start changes nothing.  Also [drain_correct].
    - Agent (C39): removing a database touches nothing else and deletes what it
      says.  Also [password_never_initialised], [backup_done_exists]; of AgentServer
      [agent_guarded], an agent answers the holders of its token, over TLS or from its
      own host.
    - Stores (C40): a query of the log answers exactly the entries that satisfy it.
      Also [search_is_literal], [metric_history_refines], [totals_survive_restart]; of
      Calendar [RFC3339_compare] and [parse_RFC3339_format], on which the comparisons
      of texts rest; of Broadcast [log_pipeline] and [subscriber_hears], what is lost
      on the way and when.
    - Tracker: [tracker_invariant], the statistics stay within their bounds and add
      up, [eviction_keeps_recent], [top_queries], [throttled_iff_over_policy],
      [database_totals_exact], [history_bounded]; Ui: [page_served]; Sizing: [adaptive_target_bounded],
      [totals_are_sums], [resize_respects_limits], [latency_between]; Reload:
      [reload_like_restart] and [writes_while_disabled_unseen]; Upkeep:
      [check_cadence].
    - Health: [breaker_refuses]; RateLimit: [limiter_bounded]; Mysql:
      [query_packet_roundtrip], [settings_replayed].
    - Streams: [streams_accounted], replication streams are counted, bounded and
      ended by a failover; [terminated_stream_goes_on] of Status shows the call by
      which one leaves the count and goes on.

    ** Modelling choices

    Bytes and strings are lists of bytes; [int], lengths and instants are
    integers, with wrap-around written out where a conversion can change a value.
    Errors are values of [result] or [option]; a Go panic is an error of its own.
    Locked sections are single steps; what several goroutines do between them is
    a step relation or a list of events over all interleavings.  The order in
    which Go ranges over a map is an argument, and the theorems hold for every
    order.  Loops that are not structural take fuel computed from the length of
    their input; lemmas named with _fuel, _enough, _total or _progress show that
    this is enough, and the theorems are stated for the functions themselves.
    The digest of cache keys and the CRC of the hash ring, random bytes, the
    unicode tables above U+00FF, clocks and the answers of servers, agents and
    the pooling engine are parameters or inputs; raft is a step relation over one
    committed log, which outlives restarts, and JSON a class with its documented round
    trips.  Costs of the balancer, rates of the console and lags in seconds are exact
    numbers instead of floating point.

    On a database host a killed agent is a prefix of the trees its calls pass
    through; what a program does is one step, of which the documented effect is a
    hypothesis; sockets and their lock files are not in the tree; paths are resolved without symbolic links and file modes are left
    out.  Tokens and password hashes are classes with the laws of their libraries.

    ** What is not modelled

    Sockets and deadlines as such, timers (a tick is a step or an argument), metrics,
    traces and log texts; mirroring to shadow backends, which nobody waits for;
    generated code, which only carries messages; the HTTP and RPC transports, which are
    libraries; the SQL of the management store, which keeps one row per key, the maps of
    Fleet and Lifecycle; the command lines of the proxy and its tool, and the sampling of
    a host's metrics; starting, joining and stopping raft nodes, which is raft's; the copy
    of bytes between the two sockets of a replication stream. *)
From Stdlib Require Import ZArith Lia.
From Stdlib Require Import Strings.String Strings.Byte.
From stdpp Require Import base gmap list numbers option.

#[global] Open Scope Z_scope.

(** ** Bytes

    A Go [byte] is a value of the Standard Library's [byte]; a Go [string] and
    a [[]byte] are both a [list byte].  [bval] is the number a byte stands for
    and [byte_of] the conversion [byte(x)], which keeps the low eight bits. *)

Abbreviation byte := Corelib.Init.Byte.byte.
Abbreviation bytes := (list Corelib.Init.Byte.byte).

#[global] Instance byte_eq_decision : EqDecision byte := Strings.Byte.byte_eq_dec.

#[global] Program Instance byte_countable : Countable byte :=
  inj_countable Strings.Byte.to_N Strings.Byte.of_N Strings.Byte.of_to_N.

Definition bval (b : byte) : Z := Z.of_N (Strings.Byte.to_N b).

Definition byte_of (z : Z) : byte :=
  default Corelib.Init.Byte.x00 (Strings.Byte.of_N (Z.to_N (z mod 256))).

(** A string literal as the bytes Go stores for it. *)
Definition bs (s : String.string) : bytes := String.list_byte_of_string s.

(** The byte of a one-character literal. *)
Definition ch (s : String.string) : byte :=
  default Corelib.Init.Byte.x00 (head (bs s)).

Lemma bval_range b : 0 <= bval b < 256.
Proof. destruct b; vm_compute; split; congruence. Qed.

Lemma bval_inj b1 b2 : bval b1 = bval b2 -> b1 = b2.
Proof.
  unfold bval. intros H%N2Z.inj.
  pose proof (Strings.Byte.of_to_N b1) as E1.
  pose proof (Strings.Byte.of_to_N b2) as E2. congruence.
Qed.

Lemma bval_byte_of z : bval (byte_of z) = z mod 256.
Proof.
  unfold bval, byte_of.
  pose proof (Z.mod_pos_bound z 256 ltac:(lia)) as Hb.
  destruct (Strings.Byte.of_N (Z.to_N (z mod 256))) as [b|] eqn:E; simpl.
  - apply Strings.Byte.to_of_N in E. rewrite E. lia.
  - apply Strings.Byte.of_N_None_iff in E. lia.
Qed.

Lemma byte_of_bval b : byte_of (bval b) = b.
Proof.
  apply bval_inj. rewrite bval_byte_of. pose proof (bval_range b).
  by rewrite Z.mod_small.
Qed.

(** ** Fixed-width integers

    Go's [int] is 64 bits wide on every platform Pontus is built for; lengths
    read from the wire are at most [2^32], so sums of a position and a length
    stay far below [2^63] and are plain [Z] additions.  Conversions that can
    change a value are written out. *)

Definition u16 (z : Z) : Z := z mod 2 ^ 16.
Definition u32 (z : Z) : Z := z mod 2 ^ 32.
Definition u64 (z : Z) : Z := z mod 2 ^ 64.
Definition signed (w z : Z) : Z := (z + 2 ^ (w - 1)) mod 2 ^ w - 2 ^ (w - 1).
Definition i16 (z : Z) : Z := signed 16 z.
Definition i32 (z : Z) : Z := signed 32 z.
Definition i64 (z : Z) : Z := signed 64 z.

Lemma signed_id w z : 0 < w -> - 2 ^ (w - 1) <= z < 2 ^ (w - 1) -> signed w z = z.
Proof.
  intros Hw Hz. unfold signed.
  assert (2 ^ w = 2 * 2 ^ (w - 1)) as E.
  { rewrite <- Z.pow_succ_r by lia. f_equal; lia. }
  rewrite Z.mod_small by lia. lia.
Qed.

Lemma signed_range w z : 0 < w -> - 2 ^ (w - 1) <= signed w z < 2 ^ (w - 1).
Proof.
  intros Hw. unfold signed.
  assert (2 ^ w = 2 * 2 ^ (w - 1)) as E.
  { rewrite <- Z.pow_succ_r by lia. f_equal; lia. }
  assert (0 < 2 ^ (w - 1)) by (apply Z.pow_pos_nonneg; lia).
  pose proof (Z.mod_pos_bound (z + 2 ^ (w - 1)) (2 ^ w)). lia.
Qed.

Lemma signed_mod w z : 0 < w -> signed w (z mod 2 ^ w) = signed w z.
Proof.
  intros Hw. unfold signed. f_equal.
  by rewrite Zplus_mod_idemp_l.
Qed.

(** *** Big-endian fields, as [encoding/binary.BigEndian] reads and appends them *)

Definition be_uint16 (a b : byte) : Z := Z.lor (Z.shiftl (bval a) 8) (bval b).

Definition be_uint32 (a b c d : byte) : Z :=
  Z.lor (Z.lor (Z.lor (Z.shiftl (bval a) 24) (Z.shiftl (bval b) 16))
               (Z.shiftl (bval c) 8)) (bval d).

Definition put_uint16 (z : Z) : bytes := [byte_of (Z.shiftr z 8); byte_of z].

Definition put_uint32 (z : Z) : bytes :=
  [byte_of (Z.shiftr z 24); byte_of (Z.shiftr z 16); byte_of (Z.shiftr z 8); byte_of z].

Definition put_uint64 (z : Z) : bytes :=
  put_uint32 (Z.shiftr z 32) ++ put_uint32 z.

Lemma lor_shiftl_add a b n :
  0 <= n -> 0 <= b < 2 ^ n -> Z.lor (Z.shiftl a n) b = a * 2 ^ n + b.
Proof.
  intros Hn Hb. rewrite <- Z.shiftl_mul_pow2 by done.
  assert (Z.land (Z.shiftl a n) b = 0) as Hl.
  { apply Z.bits_inj'. intros i Hi. rewrite Z.land_spec, Z.bits_0.
    destruct (decide (i < n)).
    - by rewrite Z.shiftl_spec_low by lia.
    - destruct (decide (b = 0)) as [->|]; [by rewrite Z.bits_0, andb_false_r|].
      rewrite (Z.bits_above_log2 b i), andb_false_r; [done|lia|].
      apply Z.log2_lt_pow2; [lia|].
      eapply Z.lt_le_trans; [apply Hb|]. apply Z.pow_le_mono_r; lia. }
  by rewrite <- Z.lxor_lor, Z.add_nocarry_lxor.
Qed.

Lemma be_uint16_add a b : be_uint16 a b = bval a * 256 + bval b.
Proof. apply lor_shiftl_add; [lia|]. apply bval_range. Qed.

Lemma be_uint32_add a b c d :
  be_uint32 a b c d = ((bval a * 256 + bval b) * 256 + bval c) * 256 + bval d.
Proof.
  pose proof (bval_range a); pose proof (bval_range b).
  pose proof (bval_range c); pose proof (bval_range d).
  unfold be_uint32.
  rewrite (lor_shiftl_add (bval a) (Z.shiftl (bval b) 16) 24)
    by (rewrite ?Z.shiftl_mul_pow2; lia).
  replace (bval a * 2 ^ 24 + Z.shiftl (bval b) 16)
    with (Z.shiftl (bval a * 256 + bval b) 16)
    by (rewrite !Z.shiftl_mul_pow2 by lia; lia).
  rewrite (lor_shiftl_add _ (Z.shiftl (bval c) 8) 16)
    by (rewrite ?Z.shiftl_mul_pow2; lia).
  replace ((bval a * 256 + bval b) * 2 ^ 16 + Z.shiftl (bval c) 8)
    with (Z.shiftl ((bval a * 256 + bval b) * 256 + bval c) 8)
    by (rewrite !Z.shiftl_mul_pow2 by lia; lia).
  rewrite lor_shiftl_add; lia.
Qed.

Lemma be_uint32_range a b c d : 0 <= be_uint32 a b c d < 2 ^ 32.
Proof.
  rewrite be_uint32_add.
  pose proof (bval_range a); pose proof (bval_range b).
  pose proof (bval_range c); pose proof (bval_range d). lia.
Qed.

Lemma put_uint32_roundtrip z :
  match put_uint32 z with
  | [a; b; c; d] => be_uint32 a b c d = u32 z
  | _ => False
  end.
Proof.
  unfold put_uint32. rewrite be_uint32_add, !bval_byte_of, !Z.shiftr_div_pow2 by lia.
  unfold u32. change (2 ^ 24) with (256 * (256 * 256)). change (2 ^ 16) with (256 * 256).
  change (2 ^ 8) with 256. change (2 ^ 32) with (256 * (256 * (256 * 256))).
  Z.to_euclidean_division_equations. lia.
Qed.

Lemma put_uint16_roundtrip z :
  match put_uint16 z with [a; b] => be_uint16 a b = u16 z | _ => False end.
Proof.
  unfold put_uint16. rewrite be_uint16_add, !bval_byte_of, !Z.shiftr_div_pow2 by lia.
  unfold u16. change (2 ^ 8) with 256. change (2 ^ 16) with (256 * 256).
  Z.to_euclidean_division_equations. lia.
Qed.

(** ** Results

    A Go function returning [(value, error)] is a computation in [result E]:
    [Err e] is the early return with a non-nil error, [Ok v] the normal one. *)

Inductive result (E A : Type) : Type :=
| Err (e : E)
| Ok (a : A).
Arguments Err {E A} e.
Arguments Ok {E A} a.

#[global] Instance result_ret E : MRet (result E) := fun A a => Ok a.
#[global] Instance result_bind E : MBind (result E) :=
  fun A B k m => match m with Err e => Err e | Ok a => k a end.
#[global] Instance result_fmap E : FMap (result E) :=
  fun A B f m => match m with Err e => Err e | Ok a => Ok (f a) end.

Lemma result_bind_ok {E A B} (m : result E A) (k : A -> result E B) b :
  (m ≫= k) = Ok b <-> exists a, m = Ok a /\ k a = Ok b.
Proof. destruct m; simpl; naive_solver. Qed.

(** ** Searching and cutting byte slices *)

(** [bytes.IndexByte] and the package's own [indexByte] and [indexZero]: the
    position of the first [c], [None] where the Go functions return -1. *)
Fixpoint indexByte (b : bytes) (c : byte) : option nat :=
  match b with
  | [] => None
  | x :: r => if decide (x = c) then Some 0%nat else S <$> indexByte r c
  end.

Definition NUL : byte := Corelib.Init.Byte.x00.

(** [bytes.Cut(s, []byte{c})]. *)
Definition cut (s : bytes) (c : byte) : option (bytes * bytes) :=
  match indexByte s c with
  | Some i => Some (take i s, drop (S i) s)
  | None => None
  end.

Lemma indexByte_app l c r :
  c ∉ l -> indexByte (l ++ c :: r) c = Some (length l).
Proof.
  induction l as [|x l IH]; simpl; intros Hc.
  - by rewrite decide_True.
  - rewrite decide_False by set_solver. rewrite IH by set_solver. done.
Qed.

Lemma indexByte_None l c : indexByte l c = None <-> c ∉ l.
Proof.
  induction l as [|x l IH]; simpl; [set_solver|].
  destruct (decide (x = c)) as [->|]; [set_solver|].
  rewrite fmap_None, IH. set_solver.
Qed.

Lemma indexByte_Some l c i :
  indexByte l c = Some i <->
  l = take i l ++ c :: drop (S i) l /\ c ∉ take i l /\ (i < length l)%nat.
Proof.
  revert i; induction l as [|x l IH]; intros i; simpl.
  - split; [done|]. intros (_ & _ & ?); lia.
  - destruct (decide (x = c)) as [->|Hx].
    + split; [intros [= <-]; simpl; split_and!; [done|set_solver|lia]|].
      destruct i; simpl; [done|]. intros (_ & H & _). set_solver.
    + rewrite fmap_Some. split.
      * intros (j & (E & Hn & Hl)%IH & ->). simpl. split_and!; [by f_equal|set_solver|lia].
      * destruct i as [|i]; simpl; [intros ([=] & _); done|].
        intros ([= E] & Hn & Hl). exists i. split; [|done].
        apply IH. split_and!; [done|set_solver|lia].
Qed.

Lemma cut_app l c r : c ∉ l -> cut (l ++ c :: r) c = Some (l, r).
Proof.
  intros H. unfold cut. rewrite indexByte_app by done.
  by rewrite take_app_length, drop_app_ge, (Nat.sub_succ_l), Nat.sub_diag by lia.
Qed.

Lemma cut_Some s c l r : cut s c = Some (l, r) <-> s = l ++ c :: r /\ c ∉ l.
Proof.
  split.
  - unfold cut. destruct (indexByte s c) as [i|] eqn:E; [|done].
    apply indexByte_Some in E as (E & Hn & Hl). intros [= <- <-]. by split.
  - intros [-> H]. by apply cut_app.
Qed.

Lemma cut_length s c l r : cut s c = Some (l, r) -> (length l + length r < length s)%nat.
Proof. intros [-> _]%cut_Some. rewrite length_app. simpl. lia. Qed.

(** ** Go slices

    [slice s lo hi] is [s[lo:hi]]; Go panics outside [0 <= lo <= hi <= len s]
    (for a slice whose capacity is its length), which is [None]. *)
Definition slice {A} (s : list A) (lo hi : Z) : option (list A) :=
  if decide (0 <= lo /\ lo <= hi /\ hi <= Z.of_nat (length s))
  then Some (take (Z.to_nat (hi - lo)) (drop (Z.to_nat lo) s))
  else None.

Definition zlen {A} (s : list A) : Z := Z.of_nat (length s).

Lemma zlen_nonneg {A} (s : list A) : 0 <= zlen s.
Proof. unfold zlen; lia. Qed.

Lemma zlen_app {A} (s t : list A) : zlen (s ++ t) = zlen s + zlen t.
Proof. unfold zlen. rewrite length_app. lia. Qed.

Lemma zlen_cons {A} x (s : list A) : zlen (x :: s) = 1 + zlen s.
Proof. unfold zlen. simpl. lia. Qed.

#[global] Arguments bval : simpl never.
#[global] Arguments byte_of : simpl never.
#[global] Arguments be_uint16 : simpl never.
#[global] Arguments be_uint32 : simpl never.
#[global] Arguments put_uint16 : simpl never.
#[global] Arguments put_uint32 : simpl never.
#[global] Arguments zlen : simpl never.

Lemma put_uint32_be a b c d : put_uint32 (be_uint32 a b c d) = [a; b; c; d].
Proof.
  unfold put_uint32. rewrite be_uint32_add, !Z.shiftr_div_pow2 by lia.
  pose proof (bval_range a); pose proof (bval_range b).
  pose proof (bval_range c); pose proof (bval_range d).
  change (2 ^ 24) with (256 * (256 * 256)). change (2 ^ 16) with (256 * 256).
  change (2 ^ 8) with 256.
  repeat f_equal; apply bval_inj; rewrite bval_byte_of;
    Z.to_euclidean_division_equations; lia.
Qed.

Lemma zlen_nil {A} : zlen (A:=A) [] = 0.
Proof. done. Qed.

(** ** Automation

    [zlen_simpl] pushes [zlen] to the leaves; [zlia] closes the length goals
    that remain. *)
Create HintDb zlen.
#[export] Hint Rewrite @zlen_nil @zlen_cons @zlen_app : zlen.
Ltac zlen_simpl := autorewrite with zlen in *.
Ltac zlia := zlen_simpl; unfold zlen in *; simpl length in *; lia.

(** Closes a decidable closed goal by evaluating its decision procedure. *)
Ltac by_decide :=
  match goal with
  | |- ?P => refine (bool_decide_eq_true_1 P _); vm_compute; reflexivity
  end.

(** [take] and [drop] at a wire-supplied length: clipped to the list first, so
    that evaluating them never counts further than the list. *)
Definition ztake {A} (n : Z) (l : list A) : list A := take (Z.to_nat (Z.min n (zlen l))) l.
Definition zdrop {A} (n : Z) (l : list A) : list A := drop (Z.to_nat (Z.min n (zlen l))) l.

Lemma ztake_take {A} n (l : list A) : ztake n l = take (Z.to_nat n) l.
Proof.
  unfold ztake. destruct (Z.min_spec n (zlen l)) as [[? ->]|[? ->]]; [done|].
  unfold zlen in *. rewrite !take_ge by lia. done.
Qed.

Lemma zdrop_drop {A} n (l : list A) : zdrop n l = drop (Z.to_nat n) l.
Proof.
  unfold zdrop. destruct (Z.min_spec n (zlen l)) as [[? ->]|[? ->]]; [done|].
  unfold zlen in *. rewrite !drop_ge by lia. done.
Qed.

Lemma zdrop_app {A} (l r : list A) : zdrop (zlen l) (l ++ r) = r.
Proof. rewrite zdrop_drop. unfold zlen. by rewrite Nat2Z.id, drop_app_length. Qed.

Lemma ztake_app {A} (l r : list A) : ztake (zlen l) (l ++ r) = l.
Proof. rewrite ztake_take. unfold zlen. by rewrite Nat2Z.id, take_app_length. Qed.

Lemma length_zdrop {A} n (l : list A) : (length (zdrop n l) <= length l)%nat.
Proof. unfold zdrop. rewrite length_drop. lia. Qed.

(** ** Go's [strings.ToLower] and [strings.TrimSpace], compared with ASCII words

    The configuration and startup code lowers and trims a string only to
    compare it with ASCII words.  [ToLower] maps an ASCII capital to its small
    letter and exactly two other code points into ASCII, U+0130 to "i" and
    U+212A to "k"; what it does to the rest stays outside ASCII and cannot
    equal any of the words.  [TrimSpace] strips the encodings of the code
    points [unicode.IsSpace] accepts. *)

Definition ascii_lower_byte (c : byte) : byte :=
  if decide (bval (ch "A") <= bval c <= bval (ch "Z")) then byte_of (bval c + 32) else c.

Fixpoint ToLower_ascii (s : bytes) : bytes :=
  match s with
  | Corelib.Init.Byte.xc4 :: Corelib.Init.Byte.xb0 :: r => ch "i" :: ToLower_ascii r
  | Corelib.Init.Byte.xe2 :: Corelib.Init.Byte.x84 :: Corelib.Init.Byte.xaa :: r =>
      ch "k" :: ToLower_ascii r
  | c :: r => ascii_lower_byte c :: ToLower_ascii r
  | [] => []
  end.

Definition unicode_spaces : list bytes :=
  map (map byte_of)
    ([[9]; [10]; [11]; [12]; [13]; [32]; [194; 133]; [194; 160]; [225; 154; 128]] ++
     map (fun x => [226; 128; x])
       [128; 129; 130; 131; 132; 133; 134; 135; 136; 137; 138; 168; 169; 175] ++
     [[226; 129; 159]; [227; 128; 128]]).

Definition strip_one (s : bytes) : option bytes :=
  head (omap (fun sp => if decide (take (length sp) s = sp) then Some (drop (length sp) s) else None)
             unicode_spaces).

Fixpoint trim_left (fuel : nat) (s : bytes) : bytes :=
  match fuel with
  | O => s
  | S fuel => match strip_one s with Some r => trim_left fuel r | None => s end
  end.

Definition strip_last (s : bytes) : option bytes :=
  head (omap (fun sp => if decide (drop (length s - length sp) s = sp)
                        then Some (take (length s - length sp) s) else None)
             unicode_spaces).

Fixpoint trim_right (fuel : nat) (s : bytes) : bytes :=
  match fuel with
  | O => s
  | S fuel => match strip_last s with Some r => trim_right fuel r | None => s end
  end.

Definition TrimSpace (s : bytes) : bytes :=
  let s := trim_left (length s) s in trim_right (length s) s.

(** ** Decimal integers, as [strconv.ParseInt(s, 10, 64)] reads them

    A syntax error and an out-of-range value are both [None]. *)
Definition digit_value (c : byte) : option Z :=
  if decide (bval (ch "0") <= bval c <= bval (ch "9")) then Some (bval c - bval (ch "0")) else None.

Fixpoint parse_digits (s : bytes) (acc : Z) : option Z :=
  match s with
  | [] => Some acc
  | c :: r => match digit_value c with
              | Some d => parse_digits r (10 * acc + d)
              | None => None
              end
  end.

Definition parse_udec (s : bytes) : option Z :=
  match s with [] => None | _ => parse_digits s 0 end.

Definition ParseInt64 (s : bytes) : option Z :=
  let '(neg, s) :=
    match s with
    | c :: r => if decide (c = ch "+") then (false, r)
                else if decide (c = ch "-") then (true, r) else (false, s)
    | [] => (false, s)
    end in
  n ← parse_udec s;
  let n := if neg : bool then - n else n in
  if decide (- 2 ^ 63 <= n < 2 ^ 63) then Some n else None.

(** The decimal digits of a non-negative number, least significant computed
    first, as [strconv.Itoa] and the loops of the source write them. *)
Fixpoint put_digits (fuel : nat) (n : Z) (acc : bytes) : bytes :=
  match fuel with
  | O => acc
  | S fuel =>
      if decide (n <= 0) then acc
      else put_digits fuel (n / 10) (byte_of (bval (ch "0") + n mod 10) :: acc)
  end.

Lemma digit_value_put d : 0 <= d < 10 -> digit_value (byte_of (bval (ch "0") + d)) = Some d.
Proof.
  intros Hd. unfold digit_value. rewrite bval_byte_of. change (bval (ch "0")) with 48.
  change (bval (ch "9")) with 57. rewrite Z.mod_small, decide_True by lia. f_equal. lia.
Qed.

Lemma parse_put_digits fuel n acc a :
  0 <= n < 10 ^ Z.of_nat fuel ->
  exists k, parse_digits (put_digits fuel n acc) a = parse_digits acc (a * 10 ^ k + n) /\ 0 <= k /\
            (0 < n -> exists d ds, put_digits fuel n acc = d :: ds /\ is_Some (digit_value d)).
Proof.
  revert n acc a. induction fuel as [|fuel IH]; intros n acc a Hn.
  { exists 0. simpl in Hn. assert (n = 0) as -> by lia. simpl. split_and!; [f_equal; lia|lia|lia]. }
  cbn [put_digits]. case_decide.
  { exists 0. assert (n = 0) as -> by lia. split_and!; [f_equal; lia|lia|lia]. }
  destruct (IH (n / 10) (byte_of (bval (ch "0") + n mod 10) :: acc) a) as (k & E & Hk & Hne).
  { rewrite Nat2Z.inj_succ, Z.pow_succ_r in Hn by lia.
    split; [apply Z.div_pos; lia|apply Z.div_lt_upper_bound; lia]. }
  pose proof (Z.mod_pos_bound n 10 ltac:(lia)) as Hm.
  exists (k + 1). split_and!; [|lia|].
  - rewrite E. cbn [parse_digits]. rewrite digit_value_put by done. f_equal.
    rewrite Z.pow_add_r by lia. pose proof (Z.div_mod n 10 ltac:(lia)). lia.
  - intros _. destruct (decide (0 < n / 10)) as [Hp|Hp]; [by apply Hne|].
    replace (n / 10) with 0 in * by (pose proof (Z.div_pos n 10); lia).
    exists (byte_of (bval (ch "0") + n mod 10)), acc. rewrite digit_value_put by done.
    split; [by destruct fuel|done].
Qed.
