(* ===== verification/Crypto.v ===== *)
(** * Digests and encodings of the Go library

    What the credential code uses of [crypto/sha256], [crypto/hmac],
    [crypto/md5], [encoding/base64] and [encoding/hex], written out from their
    published definitions (FIPS 180-4, RFC 2104, RFC 1321, RFC 4648) so that
    everything built on them evaluates. *)
From Stdlib Require Import ZArith Lia Strings.String.
From stdpp Require Import base list numbers option.
From S2P Require Import Prelude.

(** ** Words *)

Definition add32 (x y : Z) : Z := u32 (x + y).
Definition rotr (n x : Z) : Z := Z.lor (Z.shiftr x n) (u32 (Z.shiftl x (32 - n))).
Definition rotl (n x : Z) : Z := Z.lor (u32 (Z.shiftl x n)) (Z.shiftr x (32 - n)).
Definition not32 (x : Z) : Z := 2 ^ 32 - 1 - x.

(** The padding of both digests up to the length field: a one bit, then zeros
    to eight bytes short of a block. *)
Definition pad (message : bytes) : bytes :=
  let zeros := (55 - zlen message) mod 64 in
  message ++ byte_of 128 :: repeat NUL (Z.to_nat zeros).

Fixpoint words_be (s : bytes) : list Z :=
  match s with
  | a :: b :: c :: d :: rest => be_uint32 a b c d :: words_be rest
  | _ => []
  end.

Fixpoint words_le (s : bytes) : list Z :=
  match s with
  | a :: b :: c :: d :: rest => be_uint32 d c b a :: words_le rest
  | _ => []
  end.

Definition put_le32 (z : Z) : bytes := rev (put_uint32 z).

(** ** SHA-256 *)

Definition sha256_K : list Z :=
  [1116352408; 1899447441; 3049323471; 3921009573; 961987163; 1508970993; 2453635748; 2870763221;
   3624381080; 310598401; 607225278; 1426881987; 1925078388; 2162078206; 2614888103; 3248222580;
   3835390401; 4022224774; 264347078; 604807628; 770255983; 1249150122; 1555081692; 1996064986;
   2554220882; 2821834349; 2952996808; 3210313671; 3336571891; 3584528711; 113926993; 338241895;
   666307205; 773529912; 1294757372; 1396182291; 1695183700; 1986661051; 2177026350; 2456956037;
   2730485921; 2820302411; 3259730800; 3345764771; 3516065817; 3600352804; 4094571909; 275423344;
   430227734; 506948616; 659060556; 883997877; 958139571; 1322822218; 1537002063; 1747873779;
   1955562222; 2024104815; 2227730452; 2361852424; 2428436474; 2756734187; 3204031479; 3329325298].

Record sha_state := { sa : Z; sb : Z; sc : Z; sd : Z; se : Z; sf : Z; sg : Z; sh : Z }.

Definition sha256_init : sha_state :=
  {| sa := 1779033703; sb := 3144134277; sc := 1013904242; sd := 2773480762;
     se := 1359893119; sf := 2600822924; sg := 528734635; sh := 1541459225 |}.

Definition small_sigma0 (x : Z) : Z := Z.lxor (Z.lxor (rotr 7 x) (rotr 18 x)) (Z.shiftr x 3).
Definition small_sigma1 (x : Z) : Z := Z.lxor (Z.lxor (rotr 17 x) (rotr 19 x)) (Z.shiftr x 10).
Definition big_sigma0 (x : Z) : Z := Z.lxor (Z.lxor (rotr 2 x) (rotr 13 x)) (rotr 22 x).
Definition big_sigma1 (x : Z) : Z := Z.lxor (Z.lxor (rotr 6 x) (rotr 11 x)) (rotr 25 x).

(** The message schedule; [w] holds the words so far, latest first. *)
Fixpoint schedule (n : nat) (w : list Z) : list Z :=
  match n with
  | O => rev w
  | S n =>
      let at_ i := nth i w 0 in
      schedule n (u32 (small_sigma1 (at_ 1%nat) + at_ 6%nat + small_sigma0 (at_ 14%nat) + at_ 15%nat) :: w)
  end.

Definition sha256_round (s : sha_state) (kw : Z * Z) : sha_state :=
  let choice := Z.lxor (Z.land (se s) (sf s)) (Z.land (not32 (se s)) (sg s)) in
  let t1 := u32 (sh s + big_sigma1 (se s) + choice + fst kw + snd kw) in
  let majority := Z.lxor (Z.lxor (Z.land (sa s) (sb s)) (Z.land (sa s) (sc s))) (Z.land (sb s) (sc s)) in
  let t2 := u32 (big_sigma0 (sa s) + majority) in
  {| sa := add32 t1 t2; sb := sa s; sc := sb s; sd := sc s;
     se := add32 (sd s) t1; sf := se s; sg := sf s; sh := sg s |}.

Definition sha256_block (s : sha_state) (block : bytes) : sha_state :=
  let r := foldl sha256_round s (zip sha256_K (schedule 48 (rev (words_be block)))) in
  {| sa := add32 (sa s) (sa r); sb := add32 (sb s) (sb r); sc := add32 (sc s) (sc r);
     sd := add32 (sd s) (sd r); se := add32 (se s) (se r); sf := add32 (sf s) (sf r);
     sg := add32 (sg s) (sg r); sh := add32 (sh s) (sh r) |}.

(** Blocks of 64 bytes; the fuel is the number of bytes. *)
Fixpoint blocks (fuel : nat) (s : bytes) : list bytes :=
  match fuel, s with
  | S fuel, _ :: _ => take 64 s :: blocks fuel (drop 64 s)
  | _, _ => []
  end.

(** [sha256.Sum256]. *)
Definition sha256 (message : bytes) : bytes :=
  let padded := pad message ++ put_uint64 (8 * zlen message) in
  let s := foldl sha256_block sha256_init (blocks (length padded) padded) in
  put_uint32 (sa s) ++ put_uint32 (sb s) ++ put_uint32 (sc s) ++ put_uint32 (sd s) ++
  put_uint32 (se s) ++ put_uint32 (sf s) ++ put_uint32 (sg s) ++ put_uint32 (sh s).

(** ** HMAC *)

Definition xor_with (x : Z) (s : bytes) : bytes := map (fun b => byte_of (Z.lxor (bval b) x)) s.

(** [hmac.New(sha256.New, key)], one [Write], [Sum]. *)
Definition hmacSHA256 (key message : bytes) : bytes :=
  let key := if decide (64 < length key)%nat then sha256 key else key in
  let key := key ++ repeat NUL (64 - length key) in
  sha256 (xor_with 92 key ++ sha256 (xor_with 54 key ++ message)).

(** ** MD5 *)

Definition md5_K : list Z :=
  [3614090360; 3905402710; 606105819; 3250441966; 4118548399; 1200080426; 2821735955; 4249261313;
   1770035416; 2336552879; 4294925233; 2304563134; 1804603682; 4254626195; 2792965006; 1236535329;
   4129170786; 3225465664; 643717713; 3921069994; 3593408605; 38016083; 3634488961; 3889429448;
   568446438; 3275163606; 4107603335; 1163531501; 2850285829; 4243563512; 1735328473; 2368359562;
   4294588738; 2272392833; 1839030562; 4259657740; 2763975236; 1272893353; 4139469664; 3200236656;
   681279174; 3936430074; 3572445317; 76029189; 3654602809; 3873151461; 530742520; 3299628645;
   4096336452; 1126891415; 2878612391; 4237533241; 1700485571; 2399980690; 4293915773; 2240044497;
   1873313359; 4264355552; 2734768916; 1309151649; 4149444226; 3174756917; 718787259; 3951481745].

Definition md5_shifts : list Z :=
  [7; 12; 17; 22; 7; 12; 17; 22; 7; 12; 17; 22; 7; 12; 17; 22;
   5; 9; 14; 20; 5; 9; 14; 20; 5; 9; 14; 20; 5; 9; 14; 20;
   4; 11; 16; 23; 4; 11; 16; 23; 4; 11; 16; 23; 4; 11; 16; 23;
   6; 10; 15; 21; 6; 10; 15; 21; 6; 10; 15; 21; 6; 10; 15; 21].

Record md5_state := { ma : Z; mb : Z; mc : Z; md : Z }.

(** Round [i] of the 64: the mixing function and the word it takes. *)
Definition md5_mix (i : nat) (b c d : Z) : Z * nat :=
  if decide (i < 16)%nat then (Z.lor (Z.land b c) (Z.land (not32 b) d), i)
  else if decide (i < 32)%nat then (Z.lor (Z.land d b) (Z.land (not32 d) c), ((5 * i + 1) mod 16)%nat)
  else if decide (i < 48)%nat then (Z.lxor (Z.lxor b c) d, ((3 * i + 5) mod 16)%nat)
  else (Z.lxor c (Z.lor b (not32 d)), ((7 * i) mod 16)%nat).

Definition md5_round (words : list Z) (s : md5_state) (i : nat) : md5_state :=
  let '(f, g) := md5_mix i (mb s) (mc s) (md s) in
  let f := u32 (f + ma s + nth i md5_K 0 + nth g words 0) in
  {| ma := md s; mb := add32 (mb s) (rotl (nth i md5_shifts 0) f); mc := mb s; md := mc s |}.

Definition md5_block (s : md5_state) (block : bytes) : md5_state :=
  let r := foldl (md5_round (words_le block)) s (seq 0 64) in
  {| ma := add32 (ma s) (ma r); mb := add32 (mb s) (mb r);
     mc := add32 (mc s) (mc r); md := add32 (md s) (md r) |}.

(** [md5.Sum]. *)
Definition md5 (message : bytes) : bytes :=
  let padded := pad message ++ put_le32 (8 * zlen message) ++ put_le32 (Z.shiftr (8 * zlen message) 32) in
  let s := foldl md5_block {| ma := 1732584193; mb := 4023233417; mc := 2562383102; md := 271733878 |}
                 (blocks (length padded) padded) in
  put_le32 (ma s) ++ put_le32 (mb s) ++ put_le32 (mc s) ++ put_le32 (md s).

(** ** Hexadecimal *)

Definition hex_digit (d : Z) : byte := byte_of (if decide (d < 10) then 48 + d else 87 + d).

(** [hex.EncodeToString]. *)
Fixpoint hex_encode (s : bytes) : bytes :=
  match s with
  | [] => []
  | b :: s => hex_digit (bval b / 16) :: hex_digit (bval b mod 16) :: hex_encode s
  end.

(** ** Base64, [base64.StdEncoding] *)

Definition b64_char (v : Z) : byte :=
  byte_of (if decide (v < 26) then 65 + v
           else if decide (v < 52) then 71 + v
           else if decide (v < 62) then v - 4
           else if decide (v = 62) then 43 else 47).

Definition b64_value (c : byte) : option Z :=
  let z := bval c in
  if decide (65 <= z <= 90) then Some (z - 65)
  else if decide (97 <= z <= 122) then Some (z - 71)
  else if decide (48 <= z <= 57) then Some (z + 4)
  else if decide (z = 43) then Some 62
  else if decide (z = 47) then Some 63
  else None.

Definition PAD : byte := ch "=".

(** [EncodeToString]. *)
Fixpoint b64_encode (s : bytes) : bytes :=
  match s with
  | [] => []
  | [a] => let v := bval a * 16 in [b64_char (v / 64); b64_char (v mod 64); PAD; PAD]
  | [a; b] =>
      let v := (bval a * 256 + bval b) * 4 in
      [b64_char (v / 4096); b64_char (v / 64 mod 64); b64_char (v mod 64); PAD]
  | a :: b :: c :: s =>
      let v := (bval a * 256 + bval b) * 256 + bval c in
      b64_char (v / 262144) :: b64_char (v / 4096 mod 64) :: b64_char (v / 64 mod 64) ::
      b64_char (v mod 64) :: b64_encode s
  end.

(** The quanta, line ends already dropped: padding only in the last one, which
    nothing may follow.  Left-over bits are ignored, as the decoder is not
    strict. *)
Fixpoint b64_quanta (s : bytes) : option bytes :=
  match s with
  | [] => Some []
  | a :: b :: c :: d :: s =>
      va ← b64_value a; vb ← b64_value b;
      match b64_value c with
      | None => if decide (c = PAD /\ d = PAD /\ s = []) then Some [byte_of (va * 4 + vb / 16)] else None
      | Some vc =>
          match b64_value d with
          | None =>
              if decide (d = PAD /\ s = [])
              then Some [byte_of (va * 4 + vb / 16); byte_of (vb mod 16 * 16 + vc / 4)] else None
          | Some vd =>
              rest ← b64_quanta s;
              Some (byte_of (va * 4 + vb / 16) :: byte_of (vb mod 16 * 16 + vc / 4) ::
                    byte_of (vc mod 4 * 64 + vd) :: rest)
          end
      end
  | _ => None
  end.

Definition line_end (c : byte) : bool := bool_decide (c = byte_of 10) || bool_decide (c = byte_of 13).

(** [DecodeString]: [None] is a CorruptInputError. *)
Definition b64_decode (s : bytes) : option bytes := b64_quanta (List.filter (fun c => negb (line_end c)) s).

(** ** Test vectors *)

Example sha256_abc : hex_encode (sha256 (bs "abc")) =
  bs "ba7816bf8f01cfea414140de5dae2223b00361a396177a9cb410ff61f20015ad".
Proof. vm_compute. reflexivity. Qed.

Example sha256_two_blocks : hex_encode (sha256 (bs "abcdbcdecdefdefgefghfghighijhijkijkljklmklmnlmnomnopnopq")) =
  bs "248d6a61d20638b8e5c026930c3e6039a33ce45964ff2167f6ecedd419db06c1".
Proof. vm_compute. reflexivity. Qed.

Example hmac_rfc4231_2 : hex_encode (hmacSHA256 (bs "Jefe") (bs "what do ya want for nothing?")) =
  bs "5bdcc146bf60754e6a042426089575c75a003f089d2739839dec58b964ec3843".
Proof. vm_compute. reflexivity. Qed.

Example md5_abc : hex_encode (md5 (bs "abc")) = bs "900150983cd24fb0d6963f7d28e17f72".
Proof. vm_compute. reflexivity. Qed.

Example b64_foob : b64_encode (bs "foob") = bs "Zm9vYg==".
Proof. vm_compute. reflexivity. Qed.

(** ** Lemmas *)

Lemma sha256_length message : length (sha256 message) = 32%nat.
Proof. reflexivity. Qed.

Lemma hmacSHA256_length key message : length (hmacSHA256 key message) = 32%nat.
Proof. apply sha256_length. Qed.

Lemma md5_length message : length (md5 message) = 16%nat.
Proof. reflexivity. Qed.

#[global] Opaque sha256 md5 hmacSHA256.

Lemma b64_value_char v : 0 <= v < 64 -> b64_value (b64_char v) = Some v.
Proof.
  intros Hv. unfold b64_value, b64_char. rewrite bval_byte_of.
  repeat case_decide; rewrite ?Z.mod_small in * by lia; try lia; f_equal; lia.
Qed.

Lemma b64_value_PAD : b64_value PAD = None.
Proof. reflexivity. Qed.

Lemma b64_char_facts v : 0 <= v < 64 ->
  line_end (b64_char v) = false /\ b64_char v <> ch "," /\ b64_char v <> NUL /\ b64_char v <> ch ":" /\ b64_char v <> ch "$".
Proof.
  intros Hv. assert (forall z c, b64_value c = None -> b64_char z = c -> 0 <= z < 64 -> False) as H.
  { intros z c Hc <- Hz. by rewrite b64_value_char in Hc. }
  unfold line_end. rewrite orb_false_iff, !bool_decide_eq_false.
  split_and!; intros E; refine (H v _ _ E Hv); vm_compute; reflexivity.
Qed.

Definition b64_alphabet (c : byte) : Prop := c = PAD \/ exists v, 0 <= v < 64 /\ c = b64_char v.

Lemma b64_encode_induction (P : bytes -> Prop) :
  P [] -> (forall a, P [a]) -> (forall a b, P [a; b]) -> (forall a b c s, P s -> P (a :: b :: c :: s)) -> forall s, P s.
Proof.
  intros H0 H1 H2 H3. fix IH 1. intros [|a [|b [|c s]]]; [exact H0|apply H1|apply H2|apply H3, IH].
Qed.

Lemma b64_encode_alphabet s : Forall b64_alphabet (b64_encode s).
Proof.
  induction s as [|a|a b|a b c s IH] using b64_encode_induction; cbn [b64_encode];
    repeat (apply Forall_cons_2; [|]); try done; try (by left); right.
  all: pose proof (bval_range a); try pose proof (bval_range b); try pose proof (bval_range c).
  all: eexists; split; [|reflexivity].
  all: Z.to_euclidean_division_equations; lia.
Qed.

Lemma b64_alphabet_facts c : b64_alphabet c ->
  line_end c = false /\ c <> ch "," /\ c <> NUL /\ c <> ch ":" /\ c <> ch "$".
Proof. intros [->|(v & Hv & ->)]; [by vm_compute|by apply b64_char_facts]. Qed.

Lemma b64_encode_no c s : c ∈ [ch ","; NUL; ch ":"; ch "$"] -> c ∉ b64_encode s.
Proof.
  intros Hc Hin. pose proof (b64_encode_alphabet s) as HF. rewrite Forall_forall in HF.
  specialize (HF c ltac:(by apply list_elem_of_In)). apply b64_alphabet_facts in HF as (_ & ? & ? & ? & ?).
  repeat (apply elem_of_cons in Hc as [?|Hc]; [done|]). by apply elem_of_nil in Hc.
Qed.

Lemma b64_quanta_encode s : b64_quanta (b64_encode s) = Some s.
Proof.
  induction s as [|a|a b|a b c s IH] using b64_encode_induction; [done|..]; cbn [b64_encode b64_quanta].
  all: pose proof (bval_range a); try pose proof (bval_range b); try pose proof (bval_range c).
  all: rewrite ?b64_value_char by (Z.to_euclidean_division_equations; lia); cbn [mbind option_bind].
  all: rewrite ?b64_value_PAD, ?decide_True, ?IH by done; cbn [mbind option_bind].
  all: repeat f_equal; apply bval_inj; rewrite bval_byte_of; Z.to_euclidean_division_equations; lia.
Qed.

Lemma b64_decode_encode s : b64_decode (b64_encode s) = Some s.
Proof.
  unfold b64_decode. replace (List.filter _ (b64_encode s)) with (b64_encode s); [apply b64_quanta_encode|].
  pose proof (b64_encode_alphabet s) as HF. induction HF as [|c l Hc _ IH]; [done|]. cbn [List.filter].
  apply b64_alphabet_facts in Hc as [-> _]. cbn [negb]. by f_equal.
Qed.

Lemma length_hex_encode s : length (hex_encode s) = (2 * length s)%nat.
Proof. induction s as [|b s IH]; [done|]. cbn [hex_encode length]. lia. Qed.
