(* ===== verification/Wire.v ===== *)
(** * PostgreSQL wire framing

    The length-prefixed frames every other component reads and writes:
    [message_framer.go], [command_reader.go], [error_frame.go],
    [error_response.go], [cancel_key.go], the packet readers of
    [postgres_startup.go] and the frame builder [appendTagged] of
    [result_set.go].

    An [io.Reader] is the byte stream still to come, ended by EOF: [io.ReadFull]
    hides how the stream is cut into reads, so the rest of the stream is all the
    state a reader has.  A function that hands one frame to [conn.Write] is the
    frame it writes. *)
From Stdlib Require Import ZArith Lia Strings.String.
From stdpp Require Import base gmap list numbers option.
From S2P Require Import Prelude.

(** ** Frames *)

(** [appendTagged]: tag, length covering itself and the body, body. *)
Definition appendTagged (dst : bytes) (tag : byte) (body : bytes) : bytes :=
  dst ++ tag :: put_uint32 (zlen body + 4) ++ body.

#[global] Arguments appendTagged : simpl never.

Definition postgresHeaderSize : Z := 5.

(** [MessageLength]: [None] asks for more bytes. *)
Definition MessageLength (data : bytes) : option Z :=
  match data with
  | _ :: a :: b :: c :: d :: _ =>
      let length := be_uint32 a b c d in
      if length <? 4 then Some (zlen data) else Some (1 + length)
  | _ => None
  end.

(** [messageBody]: the payload of the first message, bounded by its prefix. *)
Definition messageBody (data : bytes) : option bytes :=
  match data with
  | _ :: a :: b :: c :: d :: rest =>
      let length := be_uint32 a b c d in
      if decide (length < 4 \/ 1 + length > zlen data) then None
      else Some (take (Z.to_nat (length - 4)) rest)
  | _ => None
  end.

(** [trimTerminator]. *)
Definition trimTerminator (body : bytes) : bytes :=
  match indexByte body NUL with
  | Some e => take e body
  | None => body
  end.

(** ** Readers *)

Inductive wire_err :=
| io_EOF
| io_ErrUnexpectedEOF
| ErrCommandLength (length : Z)
| ErrStartupLength (length : Z)
| ErrMessageLength (length : Z) (kind : byte)
| ErrNoStartup
| ErrNoStatementName
| ErrNoQuery
| ErrBindNames
| ErrBindParamFormats (count : Z)
| ErrBindParams
| ErrBindParam (size : Z)
| ErrBindResultFormats (count : Z)
| ErrTruncatedCount
| ErrStartupTooShort
| ErrParamNoValue (key : bytes).

(** [io.ReadFull]: EOF when nothing was read, ErrUnexpectedEOF after a part. *)
Definition ReadFull (n : nat) (r : bytes) : result wire_err (bytes * bytes) :=
  if decide (n <= length r)%nat then Ok (take n r, drop n r)
  else if decide (r = []) then Err io_EOF else Err io_ErrUnexpectedEOF.

Definition MaxCommandBytes : Z := 64 * 1024.

(** [ReadCommand]: one typed message of the query phase. *)
Definition ReadCommand (r : bytes) : result wire_err (byte * bytes * bytes) :=
  '(header, r) ← ReadFull 5 r;
  match header with
  | [tag; a; b; c; d] =>
      let length := be_uint32 a b c d in
      if decide (length < 4 \/ length > MaxCommandBytes) then Err (ErrCommandLength length)
      else '(body, r) ← ReadFull (Z.to_nat (length - 4)) r; Ok (tag, body, r)
  | _ => Err io_EOF
  end.

(** [QueryText]. *)
Definition QueryText (body : bytes) : bytes :=
  match indexByte body NUL with
  | Some i => take i body
  | None => body
  end.

Definition sslRequestCode : Z := 80877103.
Definition gssEncRequestCode : Z := 80877104.
Definition cancelRequestCode : Z := 80877102.
Definition maxStartupLen : Z := Z.shiftl 10 10.
Definition maxStartupMsgLen : Z := Z.shiftl 1 20.

Record startupPacket := { sp_raw : bytes; sp_code : Z }.

(** [readStartupPacket]: an untyped packet, its prefix bounded before use. *)
Definition readStartupPacket (r : bytes) : result wire_err (startupPacket * bytes) :=
  '(lenBuf, r) ← ReadFull 4 r;
  match lenBuf with
  | [a; b; c; d] =>
      let length := be_uint32 a b c d in
      if decide (length < 8 \/ length > maxStartupLen) then Err (ErrStartupLength length)
      else
        '(rest, r) ← ReadFull (Z.to_nat (length - 4)) r;
        match rest with
        | e :: f :: g :: h :: _ =>
            Ok ({| sp_raw := lenBuf ++ rest; sp_code := be_uint32 e f g h |}, r)
        | _ => Err io_EOF
        end
  | _ => Err io_EOF
  end.

Record message := { m_kind : byte; m_raw : bytes }.

(** [message.body]. *)
Definition body (m : message) : bytes := drop 5 (m_raw m).

(** [readMessage]: exactly one typed message of the startup phase. *)
Definition readMessage (r : bytes) : result wire_err (message * bytes) :=
  '(head, r) ← ReadFull 5 r;
  match head with
  | [kind; a; b; c; d] =>
      let length := be_uint32 a b c d in
      if decide (length < 4 \/ length > maxStartupMsgLen)
      then Err (ErrMessageLength length kind)
      else
        '(rest, r) ← ReadFull (Z.to_nat (length - 4)) r;
        Ok ({| m_kind := kind; m_raw := head ++ rest |}, r)
  | _ => Err io_EOF
  end.

(** ** Cancellation keys *)

Record CancelKey := { ck_ProcessID : Z; ck_Secret : Z; ck_Raw : bytes }.

Definition cancelKeyLen : nat := 16.

(** [parseCancelKey]: [None] is the nil a short packet gives. *)
Definition parseCancelKey (raw : bytes) : option CancelKey :=
  match raw with
  | _ :: _ :: _ :: _ :: _ :: _ :: _ :: _ ::
    p0 :: p1 :: p2 :: p3 :: s0 :: s1 :: s2 :: s3 :: _ =>
      Some {| ck_ProcessID := be_uint32 p0 p1 p2 p3;
              ck_Secret := be_uint32 s0 s1 s2 s3;
              ck_Raw := take cancelKeyLen raw |}
  | _ => None
  end.

(** [BackendKeyProcessID]. *)
Definition BackendKeyProcessID (payload : bytes) : option Z :=
  match payload with
  | a :: b :: c :: d :: _ :: _ :: _ :: _ :: _ => Some (be_uint32 a b c d)
  | _ => None
  end.

(** ** Error frames *)

(** [appendField]: a field code, its value, the NUL that ends it. *)
Definition appendField (dst : bytes) (tag : byte) (value : bytes) : bytes :=
  dst ++ [tag] ++ value ++ [NUL].

Definition error_fields (severity code message : bytes) : bytes :=
  appendField (appendField (appendField (appendField []
    (ch "S") severity) (ch "V") severity) (ch "C") code) (ch "M") message ++ [NUL].

(** [WritePostgresError]: the error, then the ReadyForQuery a session expects. *)
Definition WritePostgresError (code message : bytes) : bytes :=
  let body := error_fields (bs "ERROR") code message in
  let frame := ch "E" :: put_uint32 (zlen body + 4) ++ body in
  frame ++ ch "Z" :: put_uint32 5 ++ [ch "I"].

(** [WriteStartupError]: the same error before authentication, nothing after. *)
Definition WriteStartupError (code message : bytes) : bytes :=
  let body := error_fields (bs "FATAL") code message in
  ch "E" :: put_uint32 (zlen body + 4) ++ body.

(** [ErrorResponse]: the size is added up before the fields are written. *)
Definition ErrorResponse (severity code message : bytes) : bytes :=
  let fields := [(ch "S", severity); (ch "V", severity); (ch "C", code); (ch "M", message)] in
  let size := foldl (fun acc f => acc + (1 + zlen (snd f) + 1)) (4 + 1) fields in
  foldl (fun out f => out ++ [fst f] ++ snd f ++ [NUL]) (ch "E" :: put_uint32 size) fields
    ++ [NUL].

(** [errorText]'s inner loop: the value of the first ['M'] field. *)
Fixpoint error_message_field (fuel : nat) (body : bytes) : option bytes :=
  match fuel with
  | O => None
  | S fuel =>
      match body with
      | field :: _ :: _ =>
          match cut (drop 1 body) NUL with
          | None => None
          | Some (value, rest) =>
              if decide (field = ch "M") then Some value else error_message_field fuel rest
          end
      | _ => None
      end
  end.

(** [errorText]: scan for an ErrorResponse and read its primary message. *)
Fixpoint errorText (chunk : bytes) : bytes :=
  match chunk with
  | [] => []
  | x :: rest =>
      match chunk with
      | e :: a :: b :: c :: d :: tail =>
          match tail with
          | [] => []
          | _ =>
              let length := be_uint32 a b c d in
              if decide (e <> ch "E" \/ length < 4 \/ 1 + length > zlen chunk)
              then errorText rest
              else
                let body := take (Z.to_nat (length - 4)) tail in
                match error_message_field (S (List.length body)) body with
                | Some value => value
                | None => errorText rest
                end
          end
      | _ => []
      end
  end.

(** ** Reading back what was written *)

Lemma put_uint32_cases z :
  exists a b c d, put_uint32 z = [a; b; c; d] /\ be_uint32 a b c d = u32 z.
Proof.
  pose proof (put_uint32_roundtrip z) as H. unfold put_uint32 in *. eauto 10.
Qed.

Lemma u32_small z : 0 <= z < 2 ^ 32 -> u32 z = z.
Proof. apply Z.mod_small. Qed.

(** A frame, with the four bytes of its prefix exposed. *)
Lemma appendTagged_cases tag payload :
  zlen payload + 4 < 2 ^ 32 ->
  exists a b c d,
    appendTagged [] tag payload = tag :: a :: b :: c :: d :: payload /\
    be_uint32 a b c d = zlen payload + 4.
Proof.
  intros Hl. pose proof (zlen_nonneg payload).
  destruct (put_uint32_cases (zlen payload + 4)) as (a & b & c & d & E & Hv).
  exists a, b, c, d. unfold appendTagged. rewrite E, Hv. simpl.
  split; [done|]. apply u32_small. lia.
Qed.

Lemma appendTagged_dst dst tag payload :
  appendTagged dst tag payload = dst ++ appendTagged [] tag payload.
Proof. done. Qed.

Lemma zlen_appendTagged tag payload : zlen (appendTagged [] tag payload) = zlen payload + 5.
Proof.
  unfold appendTagged. rewrite app_nil_l, zlen_cons, zlen_app. unfold put_uint32, zlen at 1.
  simpl length. lia.
Qed.

Lemma ReadFull_app n l r : length l = n -> ReadFull n (l ++ r) = Ok (l, r).
Proof.
  intros <-. unfold ReadFull. rewrite decide_True by (rewrite length_app; lia).
  by rewrite take_app_length, drop_app_length.
Qed.

Lemma ReadFull_ok n r l r' : ReadFull n r = Ok (l, r') <-> r = l ++ r' /\ length l = n.
Proof.
  split; [|intros [-> H]; by apply ReadFull_app].
  unfold ReadFull. destruct (decide _); [|by destruct (decide _)].
  intros [= <- <-]. rewrite take_drop, length_take. split; [done|lia].
Qed.

Lemma messageBody_app tag payload rest :
  zlen payload + 4 < 2 ^ 32 ->
  messageBody (appendTagged [] tag payload ++ rest) = Some payload.
Proof.
  intros Hl. destruct (appendTagged_cases tag payload Hl) as (a & b & c & d & -> & Hv).
  unfold messageBody. simpl. rewrite Hv. pose proof (zlen_nonneg payload).
  rewrite decide_False.
  - f_equal. replace (Z.to_nat _) with (length payload) by (unfold zlen; lia).
    by rewrite take_app_length.
  - rewrite !zlen_cons, zlen_app. pose proof (zlen_nonneg rest). lia.
Qed.

Lemma MessageLength_app tag payload rest :
  zlen payload + 4 < 2 ^ 32 ->
  MessageLength (appendTagged [] tag payload ++ rest) = Some (zlen (appendTagged [] tag payload)).
Proof.
  intros Hl. rewrite zlen_appendTagged.
  destruct (appendTagged_cases tag payload Hl) as (a & b & c & d & -> & Hv).
  unfold MessageLength. simpl. rewrite Hv. pose proof (zlen_nonneg payload).
  destruct (Z.ltb_spec (zlen payload + 4) 4); [lia|]. f_equal; lia.
Qed.

(** The typed readers of the query phase and of the startup phase agree with
    the frame builder as long as the frame is within their bound. *)
Lemma ReadCommand_app tag payload rest :
  zlen payload + 4 <= MaxCommandBytes ->
  ReadCommand (appendTagged [] tag payload ++ rest) = Ok (tag, payload, rest).
Proof.
  intros Hl. unfold MaxCommandBytes in Hl.
  destruct (appendTagged_cases tag payload ltac:(lia)) as (a & b & c & d & -> & Hv).
  unfold ReadCommand.
  change ((tag :: a :: b :: c :: d :: payload) ++ rest)
    with ([tag; a; b; c; d] ++ (payload ++ rest)).
  rewrite ReadFull_app by done. simpl. rewrite Hv. pose proof (zlen_nonneg payload).
  rewrite decide_False by (unfold MaxCommandBytes; lia).
  rewrite ReadFull_app by (unfold zlen; lia). done.
Qed.

Lemma readMessage_app tag payload rest :
  zlen payload + 4 <= maxStartupMsgLen ->
  readMessage (appendTagged [] tag payload ++ rest)
  = Ok ({| m_kind := tag; m_raw := appendTagged [] tag payload |}, rest).
Proof.
  intros Hl. change maxStartupMsgLen with 1048576 in Hl.
  destruct (appendTagged_cases tag payload ltac:(lia)) as (a & b & c & d & -> & Hv).
  unfold readMessage.
  change ((tag :: a :: b :: c :: d :: payload) ++ rest)
    with ([tag; a; b; c; d] ++ (payload ++ rest)).
  rewrite ReadFull_app by done. simpl. rewrite Hv. pose proof (zlen_nonneg payload).
  rewrite decide_False by (change maxStartupMsgLen with 1048576; lia).
  rewrite ReadFull_app by (unfold zlen; lia). done.
Qed.

Lemma ReadCommand_inv r tag payload r' :
  ReadCommand r = Ok (tag, payload, r') ->
  r = appendTagged [] tag payload ++ r' /\ zlen payload + 4 <= MaxCommandBytes.
Proof.
  unfold ReadCommand. intros ([h r1] & (-> & Hh)%ReadFull_ok & H)%result_bind_ok.
  destruct h as [|t [|a [|b [|c [|d [|]]]]]]; try done.
  destruct (decide _) as [|Hn]; [done|].
  apply result_bind_ok in H as ([p r2] & (-> & Hp)%ReadFull_ok & [= -> -> ->]).
  pose proof (be_uint32_range a b c d).
  assert (zlen payload + 4 = be_uint32 a b c d) as E by (unfold zlen; lia).
  split; [|lia]. unfold appendTagged. by rewrite E, put_uint32_be.
Qed.

Lemma fields_cut field value rest :
  NUL ∉ value ->
  cut (drop 1 (appendField [] field value ++ rest)) NUL = Some (value, rest).
Proof.
  intros Hv. unfold appendField. simpl. rewrite <- app_assoc. simpl. by apply cut_app.
Qed.

Lemma error_message_field_skip fuel field value rest :
  NUL ∉ value -> field <> ch "M" ->
  error_message_field (S fuel) (appendField [] field value ++ rest)
  = error_message_field fuel rest.
Proof.
  intros Hv Hf. cbn [error_message_field].
  rewrite fields_cut by done. unfold appendField. simpl.
  rewrite decide_False by done. by destruct value.
Qed.

Lemma error_message_field_hit fuel value rest :
  NUL ∉ value ->
  error_message_field (S fuel) (appendField [] (ch "M") value ++ rest) = Some value.
Proof.
  intros Hv. cbn [error_message_field].
  rewrite fields_cut by done. unfold appendField. simpl. by destruct value.
Qed.

(** Enough fuel is one more than the bytes left. *)
Lemma error_message_field_fuel f1 f2 payload :
  (length payload < f1)%nat -> (length payload < f2)%nat ->
  error_message_field f1 payload = error_message_field f2 payload.
Proof.
  revert f2 payload. induction f1 as [|f1 IH]; intros [|f2] payload H1 H2; try lia.
  simpl. destruct payload as [|x [|y l]]; [done|done|].
  destruct (cut (drop 1 (x :: y :: l)) NUL) as [[v rest]|] eqn:E; [|done].
  apply cut_length in E. simpl in E. destruct (decide _); [done|].
  apply IH; simpl in *; lia.
Qed.

Lemma error_fields_split severity code msg :
  error_fields severity code msg =
  appendField [] (ch "S") severity ++ appendField [] (ch "V") severity ++
  appendField [] (ch "C") code ++ appendField [] (ch "M") msg ++ [NUL].
Proof. unfold error_fields, appendField. by rewrite <- !app_assoc. Qed.

Lemma error_fields_message severity code msg :
  NUL ∉ severity -> NUL ∉ code -> NUL ∉ msg ->
  error_message_field (S (length (error_fields severity code msg)))
    (error_fields severity code msg) = Some msg.
Proof.
  intros Hs Hc Hm.
  assert (3 <= length (error_fields severity code msg))%nat as Hl
    by (rewrite error_fields_split, !length_app; simpl; lia).
  apply Nat.le_exists_sub in Hl as (n & -> & _). rewrite Nat.add_comm. simpl plus.
  rewrite error_fields_split.
  rewrite error_message_field_skip by (done || by vm_compute).
  rewrite error_message_field_skip by (done || by vm_compute).
  rewrite error_message_field_skip by (done || by vm_compute).
  by apply error_message_field_hit.
Qed.

Lemma ErrorResponse_frame severity code msg :
  ErrorResponse severity code msg = appendTagged [] (ch "E") (error_fields severity code msg).
Proof.
  unfold ErrorResponse, appendTagged. rewrite error_fields_split. unfold appendField.
  cbn [foldl fst snd app].
  assert (4 + 1 + (1 + zlen severity + 1) + (1 + zlen severity + 1) + (1 + zlen code + 1)
          + (1 + zlen msg + 1)
          = zlen (ch "S" :: (severity ++ [NUL]) ++ ch "V" :: (severity ++ [NUL]) ++
                  ch "C" :: (code ++ [NUL]) ++ ch "M" :: (msg ++ [NUL]) ++ [NUL]) + 4) as ->.
  { zlen_simpl. lia. }
  repeat first [rewrite <- app_assoc | progress simpl]. done.
Qed.

Lemma errorText_frame payload rest msg :
  zlen payload + 4 < 2 ^ 32 -> payload <> [] ->
  error_message_field (S (length payload)) payload = Some msg ->
  errorText (appendTagged [] (ch "E") payload ++ rest) = msg.
Proof.
  intros Hl Hne Hm.
  destruct (appendTagged_cases (ch "E") payload Hl) as (a & b & c & d & -> & Hv).
  cbn [errorText app]. rewrite Hv. pose proof (zlen_nonneg payload).
  destruct payload as [|x payload]; [done|]. cbn [app].
  rewrite decide_False.
  - change (x :: payload ++ rest) with ((x :: payload) ++ rest).
    replace (Z.to_nat _) with (length (x :: payload)) by (unfold zlen; lia).
    by rewrite take_app_length, Hm.
  - rewrite !zlen_cons, zlen_app in *. pose proof (zlen_nonneg rest). intros [?|[?|?]]; [done|lia|lia].
Qed.

(** ** Properties *)

(** C1: A frame built by [appendTagged], followed by anything, is measured by
    [MessageLength], opened by [messageBody] and read by both typed readers as
    exactly the tag and payload it was built from, leaving what followed it;
    and conversely whatever [ReadCommand] accepts is such a frame, within the
    bound that protects the allocation. *)
Theorem frame_roundtrip (tag : byte) (payload rest : bytes) :
  zlen payload + 4 <= MaxCommandBytes ->
  let stream := appendTagged [] tag payload ++ rest in
  MessageLength stream = Some (zlen (appendTagged [] tag payload)) /\
  messageBody stream = Some payload /\
  ReadCommand stream = Ok (tag, payload, rest) /\
  readMessage stream = Ok ({| m_kind := tag; m_raw := appendTagged [] tag payload |}, rest) /\
  (forall r tag' payload' r',
     ReadCommand r = Ok (tag', payload', r') ->
     r = appendTagged [] tag' payload' ++ r' /\ zlen payload' + 4 <= MaxCommandBytes).
Proof.
  intros Hl stream. unfold MaxCommandBytes in *. subst stream. split_and!.
  - apply MessageLength_app. lia.
  - apply messageBody_app. lia.
  - by apply ReadCommand_app.
  - apply readMessage_app. change maxStartupMsgLen with 1048576. lia.
  - apply ReadCommand_inv.
Qed.

Lemma frame_roundtrip_witness :
  ReadCommand (appendTagged [] (ch "Q") (bs "SELECT 1") ++ bs "X")
  = Ok (ch "Q", bs "SELECT 1", bs "X").
Proof.
  refine (proj1 (proj2 (proj2 (frame_roundtrip (ch "Q") (bs "SELECT 1") (bs "X") _)))).
  by_decide.
Defined.

(** The three error writers emit one and the same ErrorResponse frame for
    the same severity, [WritePostgresError] alone follows it with
    ReadyForQuery, and [errorText] recovers the message from the frame even
    with more traffic behind it. *)
Theorem error_frames (severity code msg rest : bytes) :
  NUL ∉ severity -> NUL ∉ code -> NUL ∉ msg ->
  2 * zlen severity + zlen code + zlen msg + 13 < 2 ^ 32 ->
  WritePostgresError code msg
    = ErrorResponse (bs "ERROR") code msg ++ appendTagged [] (ch "Z") [ch "I"] /\
  WriteStartupError code msg = ErrorResponse (bs "FATAL") code msg /\
  errorText (ErrorResponse severity code msg ++ rest) = msg.
Proof.
  intros Hs Hc Hm Hl. rewrite !ErrorResponse_frame. split_and!; [done|done|].
  apply errorText_frame.
  - rewrite error_fields_split. unfold appendField.
    zlen_simpl. lia.
  - unfold error_fields. intros [_ H]%app_eq_nil. done.
  - by apply error_fields_message.
Qed.

Lemma error_frames_witness :
  errorText (ErrorResponse (bs "FATAL") (bs "57014") (bs "query timeout") ++ bs "Z") = bs "query timeout".
Proof.
  refine (proj2 (proj2 (error_frames (bs "FATAL") (bs "57014") (bs "query timeout") (bs "Z") _ _ _ _)));
    by_decide.
Defined.
