(* ===== verification/Scanner.v ===== *)
(** * Finding the end of a backend's reply

    [reply_scanner.go]: how the reply to a request ends ([ResponseEndFor]) and
    the scanner that recognises that end across reads which may split a message
    anywhere; [transaction_state.go]; [PostgresHandler.PeekTransactionState];
    and [awaitReply] of [await_reply.go], which drives the scanner. *)
From Stdlib Require Import ZArith Lia Strings.String.
From stdpp Require Import base gmap list numbers option.
From S2P Require Import Prelude Wire.

Inductive TransactionState := StateIdle | StateInTransaction | StateError | StatePartial.

#[global] Instance TransactionState_eq_dec : EqDecision TransactionState.
Proof. solve_decision. Defined.

(** [transactionStatus]. *)
Definition transactionStatus (b : byte) : TransactionState :=
  if decide (b = ch "I") then StateIdle
  else if decide (b = ch "T" \/ b = ch "B") then StateInTransaction
  else if decide (b = ch "E") then StateError
  else StatePartial.

(** ** What ends a reply *)

Definition feParse := ch "P".
Definition feBind := ch "B".
Definition feDescribe := ch "D".
Definition feExecute := ch "E".
Definition feClose := ch "C".
Definition feFunctionCal := ch "F".
Definition feSync := ch "S".
Definition feFlush := ch "H".
Definition feQuery := ch "Q".

Record ResponseEnd := { OnReadyForQuery : bool; Tags : bytes }.

(** [ResponseEnd.awaited]. *)
Definition awaited (r : ResponseEnd) (tag : byte) : bool :=
  if decide (tag = ch "E") then true else bool_decide (tag ∈ Tags r).

(** [terminatorsFor]; the zero byte is "no message seen". *)
Definition terminatorsFor (last describeTarget : byte) : bytes :=
  if decide (last = feParse) then [ch "1"]
  else if decide (last = feBind) then [ch "2"]
  else if decide (last = feDescribe) then
    if decide (describeTarget = ch "S") then [ch "T"; ch "n"] else [ch "T"; ch "n"]
  else if decide (last = feExecute) then [ch "C"; ch "s"; ch "I"]
  else if decide (last = feClose) then [ch "3"]
  else if decide (last = feFunctionCal) then [ch "V"]
  else [].

(** [ResponseEndFor]'s loop over the request; position [i] is the suffix
    [request[i:]], and a message that runs past the buffer ends the walk. *)
Fixpoint response_end_loop (fuel : nat) (request : bytes) (last describeTarget : byte)
  : ResponseEnd :=
  let stop := {| OnReadyForQuery := false; Tags := terminatorsFor last describeTarget |} in
  match fuel with
  | O => stop
  | S fuel =>
      match request with
      | tag :: a :: b :: c :: d :: tail =>
          let length := be_uint32 a b c d in
          if length <? 4 then stop
          else if decide (tag = feSync \/ tag = feQuery)
               then {| OnReadyForQuery := true; Tags := [] |}
          else
            let '(last, describeTarget) :=
              if decide (tag ∈ [feParse; feBind; feExecute; feClose; feFunctionCal])
              then (tag, describeTarget)
              else if decide (tag = feDescribe)
              then (tag, default describeTarget (head tail))
              else (last, describeTarget) in
            response_end_loop fuel (zdrop (length - 4) tail) last describeTarget
      | _ => stop
      end
  end.

Definition ResponseEndFor (request : bytes) : ResponseEnd :=
  response_end_loop (S (length request)) request NUL NUL.

(** ** The scanner *)

Record replyScanner := {
  rs_end : ResponseEnd;
  rs_header : bytes;
  rs_skip : Z;
  rs_wantStatus : bool;
  rs_sawError : bool;
  rs_sawCopyIn : bool
}.

(** [newReplyScanner]. *)
Definition newReplyScanner (e : ResponseEnd) : replyScanner :=
  {| rs_end := e; rs_header := []; rs_skip := 0; rs_wantStatus := false;
     rs_sawError := false; rs_sawCopyIn := false |}.

(** The part of [feed] that runs once a five-byte header is complete.  [None]
    is the malformed length the scanner stops at. *)
Definition on_header (s : replyScanner) (tag a b c d : byte) (done : bool)
  : option (replyScanner * bool) :=
  let length := be_uint32 a b c d in
  if length <? 4 then None
  else
    let skip := length - 4 in
    let sawError := rs_sawError s || bool_decide (tag = ch "E") in
    let sawCopyIn := rs_sawCopyIn s || bool_decide (tag = ch "G") in
    let '(want, done) :=
      if decide (tag = ch "Z") then
        if 0 <? skip then (true, done) else (rs_wantStatus s, true)
      else if negb (OnReadyForQuery (rs_end s)) && awaited (rs_end s) tag
      then (rs_wantStatus s, true)
      else (rs_wantStatus s, done) in
    Some ({| rs_end := rs_end s; rs_header := []; rs_skip := skip; rs_wantStatus := want;
             rs_sawError := sawError; rs_sawCopyIn := sawCopyIn |}, done).

Definition with_header (s : replyScanner) (h : bytes) : replyScanner :=
  {| rs_end := rs_end s; rs_header := h; rs_skip := rs_skip s;
     rs_wantStatus := rs_wantStatus s; rs_sawError := rs_sawError s;
     rs_sawCopyIn := rs_sawCopyIn s |}.

Definition with_skip (s : replyScanner) (n : Z) (want : bool) : replyScanner :=
  {| rs_end := rs_end s; rs_header := rs_header s; rs_skip := n; rs_wantStatus := want;
     rs_sawError := rs_sawError s; rs_sawCopyIn := rs_sawCopyIn s |}.

(** [feed]'s loop.  Every turn but a stale full header consumes a byte, so a
    fuel of one more than the chunk is enough ([feed_loop_total]). *)
Fixpoint feed_loop (fuel : nat) (s : replyScanner) (chunk : bytes)
    (done : bool) (state : TransactionState)
  : option (replyScanner * bool * TransactionState) :=
  match fuel with
  | O => None
  | S fuel =>
      match chunk with
      | [] => Some (s, done, state)
      | c0 :: _ =>
          if 0 <? rs_skip s then
            let n := Z.min (rs_skip s) (zlen chunk) in
            let '(state, done) :=
              if rs_wantStatus s then (transactionStatus c0, true) else (state, done) in
            feed_loop fuel (with_skip s (rs_skip s - n) false)
              (drop (Z.to_nat n) chunk) done state
          else
            let n := Nat.min (5 - length (rs_header s)) (length chunk) in
            let header := rs_header s ++ take n chunk in
            let chunk := drop n chunk in
            match header with
            | tag :: a :: b :: c :: d :: _ =>
                match on_header s tag a b c d done with
                | None => Some (with_header s [], true, state)
                | Some (s, done) => feed_loop fuel s chunk done state
                end
            | _ => Some (with_header s header, done, state)
            end
      end
  end.

(** [feed]. *)
Definition feed (s : replyScanner) (chunk : bytes)
  : option (replyScanner * bool * TransactionState) :=
  feed_loop (S (length chunk)) s chunk false StatePartial.

(** ** One byte at a time

    The reference the loop is compared with: the same scanner fed single
    bytes.  [None] is a malformed length. *)

Abbreviation scan_state := (replyScanner * bool * TransactionState)%type.

Definition scan_byte (st : scan_state) (x : byte) : option scan_state :=
  let '(s, done, state) := st in
  if 0 <? rs_skip s then
    Some (with_skip s (rs_skip s - 1) false,
          done || rs_wantStatus s,
          if rs_wantStatus s then transactionStatus x else state)
  else
    match rs_header s ++ [x] with
    | tag :: a :: b :: c :: d :: _ =>
        '(s, done) ← on_header s tag a b c d done; Some (s, done, state)
    | h => Some (with_header s h, done, state)
    end.

Definition scan_bytes (st : scan_state) (l : bytes) : option scan_state :=
  foldl (fun o x => st ← o; scan_byte st x) (Some st) l.

Definition scanner_wf (s : replyScanner) : Prop :=
  (length (rs_header s) < 5)%nat /\ 0 <= rs_skip s.

Lemma scan_bytes_none l : foldl (fun o x => st ← o; scan_byte st x) None l = None.
Proof. induction l; by simpl. Qed.

Lemma scan_bytes_cons st x l :
  scan_bytes st (x :: l) = st' ← scan_byte st x; scan_bytes st' l.
Proof.
  unfold scan_bytes. simpl. destruct (scan_byte st x); simpl; [done|].
  apply scan_bytes_none.
Qed.

Lemma scan_bytes_app st l1 l2 :
  scan_bytes st (l1 ++ l2) = st' ← scan_bytes st l1; scan_bytes st' l2.
Proof.
  unfold scan_bytes. rewrite foldl_app.
  destruct (foldl _ (Some st) l1); simpl; [done|]. apply scan_bytes_none.
Qed.

Lemma on_header_wf s tag a b c d dn s' done' :
  on_header s tag a b c d dn = Some (s', done') -> scanner_wf s'.
Proof.
  unfold on_header, scanner_wf. destruct (Z.ltb_spec (be_uint32 a b c d) 4); [done|].
  intros. repeat case_match; simplify_eq; simpl; lia.
Qed.

Lemma scan_byte_wf s dn state x s' done' state' :
  scanner_wf s -> scan_byte (s, dn, state) x = Some (s', done', state') -> scanner_wf s'.
Proof.
  unfold scan_byte. intros [Hh Hs]. destruct (Z.ltb_spec 0 (rs_skip s)).
  - intros [= <- _ _]. split; simpl; [done|lia].
  - destruct (rs_header s ++ [x]) as [|t [|a [|b [|c [|d [|]]]]]] eqn:E;
      try (intros [= <- _ _]; split; simpl; lia);
      intros ([s1 d1] & H1 & [= <- _ _])%bind_Some; eauto using on_header_wf.
Qed.

(** A run of body bytes is consumed at once; only its first can be a status. *)
Lemma scan_bytes_skip l s x dn state :
  zlen (x :: l) <= rs_skip s ->
  scan_bytes (s, dn, state) (x :: l) =
  Some (with_skip s (rs_skip s - zlen (x :: l)) false, dn || rs_wantStatus s,
        if rs_wantStatus s then transactionStatus x else state).
Proof.
  revert s x dn state. induction l as [|y l IH]; intros s x dn state Hl;
    rewrite scan_bytes_cons; unfold scan_byte; zlen_simpl.
  - destruct (Z.ltb_spec 0 (rs_skip s)); [done|lia].
  - pose proof (zlen_nonneg l). destruct (Z.ltb_spec 0 (rs_skip s)); [|lia].
    simpl. rewrite IH by (zlen_simpl; simpl; lia). simpl. zlen_simpl. f_equal. f_equal.
    + f_equal; [|by rewrite orb_false_r]. unfold with_skip; simpl. f_equal. lia.
Qed.

(** Bytes that do not complete a header only accumulate in it. *)
Lemma scan_bytes_header l s dn state :
  rs_skip s = 0 -> (length (rs_header s) + length l < 5)%nat ->
  scan_bytes (s, dn, state) l = Some (with_header s (rs_header s ++ l), dn, state).
Proof.
  revert s. induction l as [|x l IH]; intros s Hs Hl.
  - unfold scan_bytes; simpl. rewrite app_nil_r. by destruct s.
  - rewrite scan_bytes_cons. unfold scan_byte. rewrite Hs. simpl.
    destruct (rs_header s ++ [x]) as [|? [|? [|? [|? [|? ?]]]]] eqn:E; simpl;
      try (rewrite IH by (simpl; first [done | apply (f_equal length) in E;
             rewrite length_app in E; simpl in *; lia]); simpl;
           do 3 f_equal; rewrite cons_middle, app_assoc, E; done).
    all: apply (f_equal length) in E; rewrite length_app in E; simpl in *; lia.
Qed.

Lemma on_header_with_header s h tag a b c d dn :
  on_header (with_header s h) tag a b c d dn = on_header s tag a b c d dn.
Proof. done. Qed.

Lemma feed_loop_scan fuel s chunk dn state st' :
  scanner_wf s -> (length chunk < fuel)%nat ->
  scan_bytes (s, dn, state) chunk = Some st' ->
  feed_loop fuel s chunk dn state = Some st'.
Proof.
  revert s chunk dn state. induction fuel as [|fuel IH]; [lia|].
  intros s [|c0 chunk] dn state [Hh Hs] Hf Hscan; [done|].
  cbn [feed_loop]. destruct (Z.ltb_spec 0 (rs_skip s)) as [Hp|Hp].
  - set (n := Z.min _ _). assert (0 < n <= zlen (c0 :: chunk)) as Hn by (subst n; rewrite zlen_cons; pose proof (zlen_nonneg chunk); lia).
    assert (n <= rs_skip s) as Hn' by (subst n; lia). clearbody n.
    rewrite <- (take_drop (Z.to_nat n) (c0 :: chunk)) in Hscan.
    rewrite scan_bytes_app in Hscan. destruct (Z.to_nat n) as [|m] eqn:Em; [lia|].
    cbn [take] in Hscan. rewrite scan_bytes_skip in Hscan.
    2: { zlen_simpl. unfold zlen in *. rewrite length_take. lia. }
    cbn [mbind option_bind] in Hscan.
    assert (zlen (c0 :: take m chunk) = n) as En.
    { zlen_simpl. unfold zlen in *. rewrite length_take. lia. }
    rewrite En in Hscan. destruct (rs_wantStatus s); rewrite ?orb_true_r, ?orb_false_r in Hscan;
      (apply IH; [split; simpl; [done|lia]|rewrite length_drop; simpl in *; lia|done]).
  - assert (rs_skip s = 0) as E0 by lia.
    set (n := Nat.min _ _). assert (0 < n <= length (c0 :: chunk))%nat as Hn by (subst n; simpl in *; lia).
    assert (n = 5 - length (rs_header s) \/ n = length (c0 :: chunk) /\ n < 5 - length (rs_header s))%nat as Hn'
      by (subst n; lia). clearbody n.
    rewrite <- (take_drop n (c0 :: chunk)) in Hscan. rewrite scan_bytes_app in Hscan.
    destruct (decide (length (rs_header s ++ take n (c0 :: chunk)) < 5)%nat) as [Hlt|Hge].
    + assert (n = length (c0 :: chunk)) as En.
      { rewrite length_app, length_take in Hlt. lia. }
      rewrite En in *. rewrite firstn_all in *. rewrite drop_all in Hscan.
      rewrite scan_bytes_header in Hscan by (try done; by rewrite length_app in Hlt).
      simpl in Hscan. injection Hscan as <-.
      destruct (rs_header s ++ c0 :: chunk) as [|? [|? [|? [|? [|? ?]]]]]; try done. simpl in Hlt; lia.
    + assert (length (take n (c0 :: chunk)) = (4 - length (rs_header s)) + 1)%nat as Hlen.
      { rewrite length_app in Hge. rewrite length_take in *. lia. }
      destruct (take n (c0 :: chunk)) as [|? ?] using rev_ind; [simpl in Hlen; lia|].
      rewrite length_app in Hlen; simpl in Hlen.
      rewrite scan_bytes_app, scan_bytes_header in Hscan by (try done; lia).
      cbn [mbind option_bind] in Hscan. rewrite scan_bytes_cons in Hscan.
      unfold scan_byte in Hscan. cbn [with_header rs_skip rs_header] in Hscan.
      rewrite E0 in Hscan. cbn [Z.ltb Z.compare] in Hscan.
      rewrite <- app_assoc in Hscan.
      destruct (rs_header s ++ l ++ [x]) as [|t [|a [|b [|c [|d [|]]]]]] eqn:E;
        try (exfalso; apply (f_equal length) in E; rewrite !length_app in E; simpl in *; lia).
      rewrite on_header_with_header in Hscan.
      destruct (on_header s t a b c d dn) as [[s' done']|] eqn:Eh; [|done].
      simpl in Hscan. apply IH; [by eapply on_header_wf|rewrite length_drop; simpl in *; lia|done].
Qed.

(** [feed] always returns: the fuel it starts with is enough. *)
Lemma feed_loop_total fuel s chunk dn state :
  scanner_wf s -> (length chunk < fuel)%nat ->
  exists s' dn' state', feed_loop fuel s chunk dn state = Some (s', dn', state') /\ scanner_wf s'.
Proof.
  revert s chunk dn state. induction fuel as [|fuel IH]; [lia|].
  intros s [|c0 chunk] dn state [Hh Hs] Hf; [by eexists _, _, _|].
  cbn [feed_loop]. destruct (Z.ltb_spec 0 (rs_skip s)) as [Hp|Hp].
  - set (n := Z.min _ _). assert (0 < n <= rs_skip s) as Hn
      by (subst n; rewrite zlen_cons; pose proof (zlen_nonneg chunk); lia). clearbody n.
    destruct (rs_wantStatus s); apply IH;
      first [split; simpl; lia | rewrite length_drop; simpl in *; lia].
  - set (n := Nat.min _ _). assert (0 < n)%nat as Hn by (subst n; simpl in *; lia). clearbody n.
    destruct (rs_header s ++ _) as [|t [|a [|b [|c [|d l]]]]];
      try (eexists _, _, _; split; [reflexivity|]; split; simpl; [lia|done]).
    destruct (on_header s t a b c d dn) as [[s' dn']|] eqn:Eh.
    + apply IH; [by eapply on_header_wf|rewrite length_drop; simpl in *; lia].
    + eexists _, _, _; split; [reflexivity|]; split; simpl; [lia|done].
Qed.

(** ** The message-level specification *)

Definition frame (m : byte * bytes) : bytes := appendTagged [] (fst m) (snd m).
Definition frames (msgs : list (byte * bytes)) : bytes := concat (map frame msgs).

Lemma frames_app a b : frames (a ++ b) = frames a ++ frames b.
Proof. unfold frames. by rewrite map_app, concat_app. Qed.

Lemma frames_one m : frames [m] = frame m.
Proof. unfold frames. simpl. by rewrite app_nil_r. Qed.
Definition sized (m : byte * bytes) : Prop := zlen (snd m) + 4 < 2 ^ 32.

(** A message that ends the reply: ReadyForQuery always; without a Sync, any
    awaited tag or an ErrorResponse. *)
Definition ends_reply (e : ResponseEnd) (m : byte * bytes) : bool :=
  bool_decide (fst m = ch "Z") || negb (OnReadyForQuery e) && awaited e (fst m).

Definition saw (tag : byte) (msgs : list (byte * bytes)) : bool :=
  existsb (fun m => bool_decide (fst m = tag)) msgs.

Definition boundary (s : replyScanner) : Prop :=
  rs_header s = [] /\ rs_skip s = 0 /\ rs_wantStatus s = false.

Definition note_message (s : replyScanner) (m : byte * bytes) : replyScanner :=
  {| rs_end := rs_end s; rs_header := []; rs_skip := 0; rs_wantStatus := false;
     rs_sawError := rs_sawError s || bool_decide (fst m = ch "E");
     rs_sawCopyIn := rs_sawCopyIn s || bool_decide (fst m = ch "G") |}.

Definition message_status (state : TransactionState) (m : byte * bytes) : TransactionState :=
  match snd m with
  | x :: _ => if decide (fst m = ch "Z") then transactionStatus x else state
  | [] => state
  end.

Lemma scan_frame s dn state m :
  boundary s -> sized m ->
  scan_bytes (s, dn, state) (frame m) =
  Some (note_message s m, dn || ends_reply (rs_end s) m, message_status state m).
Proof.
  intros (Hh & Hk & Hw) Hm. destruct m as [t payload]. unfold sized in Hm. simpl in Hm.
  destruct (appendTagged_cases t payload Hm) as (a & b & c & d & E & Hv).
  unfold frame. simpl fst; simpl snd. rewrite E.
  change (t :: a :: b :: c :: d :: payload) with ([t; a; b; c] ++ d :: payload).
  rewrite scan_bytes_app, scan_bytes_header by (rewrite ?Hh; simpl; done || lia).
  rewrite Hh. cbn [mbind option_bind app]. rewrite scan_bytes_cons.
  unfold scan_byte at 1. cbn [with_header rs_skip rs_header]. rewrite Hk. cbn [Z.ltb Z.compare app].
  rewrite on_header_with_header. unfold on_header. rewrite Hv.
  pose proof (zlen_nonneg payload). destruct (Z.ltb_spec (zlen payload + 4) 4); [lia|].
  replace (zlen payload + 4 - 4) with (zlen payload) by lia.
  destruct payload as [|x payload].
  - cbn. unfold note_message, ends_reply, message_status. simpl. rewrite Hw.
    repeat (case_decide || case_bool_decide); simplify_eq; simpl;
      rewrite ?orb_true_r, ?orb_false_r; try done.
    all: by destruct (negb _ && _); simpl; rewrite ?orb_true_r, ?orb_false_r.
  - destruct (Z.ltb_spec 0 (zlen (x :: payload))); [|zlen_simpl; pose proof (zlen_nonneg payload); lia].
    unfold ends_reply, message_status, note_message. simpl fst; simpl snd.
    rewrite Hw. destruct (decide (t = ch "Z")) as [->|Ht]; cbn [mbind option_bind].
    + rewrite scan_bytes_skip by (simpl; lia). simpl. unfold with_skip. simpl.
      rewrite Z.sub_diag. by rewrite orb_true_r.
    + rewrite (bool_decide_false (t = ch "Z")) by done. simpl orb.
      destruct (negb _ && _); simpl; rewrite scan_bytes_skip by (simpl; lia);
        simpl; unfold with_skip; simpl; by rewrite Z.sub_diag, ?orb_true_r, ?orb_false_r.
Qed.

Lemma note_message_boundary s m : boundary (note_message s m).
Proof. done. Qed.

Lemma scan_frames msgs s dn state :
  boundary s -> Forall sized msgs ->
  exists s', scan_bytes (s, dn, state) (frames msgs) =
    Some (s', dn || existsb (ends_reply (rs_end s)) msgs, foldl message_status state msgs) /\
    boundary s' /\ rs_end s' = rs_end s /\
    rs_sawError s' = rs_sawError s || saw (ch "E") msgs /\
    rs_sawCopyIn s' = rs_sawCopyIn s || saw (ch "G") msgs.
Proof.
  intros Hb Hs. revert s dn state Hb. induction Hs as [|m msgs Hm Hms IH]; intros s dn state Hb.
  - exists s. unfold frames, saw. simpl. rewrite !orb_false_r. by destruct Hb as (? & ? & ?).
  - destruct (IH (note_message s m) (dn || ends_reply (rs_end s) m) (message_status state m)
                 (note_message_boundary s m)) as (s' & E & Hb' & He & Hx & Hg).
    exists s'. unfold frames in *. cbn [map concat]. rewrite scan_bytes_app, scan_frame by done.
    cbn [mbind option_bind]. rewrite E. cbn [existsb saw foldl]. simpl in *.
    rewrite Hx, Hg, He, !orb_assoc. by split_and!.
Qed.

(** The done flag and the state a feed starts from do not influence the
    scanner, and done is only ever added. *)
Lemma scan_byte_acc s dn state x s' dn' state' d0 t0 :
  scan_byte (s, dn, state) x = Some (s', dn', state') ->
  exists dn0 state0, scan_byte (s, d0, t0) x = Some (s', dn0, state0) /\
    exists e, dn' = dn || e /\ dn0 = d0 || e.
Proof.
  unfold scan_byte. destruct (0 <? rs_skip s).
  - intros [= <- <- <-]. eauto 10.
  - destruct (rs_header s ++ [x]) as [|t [|a [|b [|c [|d l]]]]];
      try (intros [= <- <- <-]; eexists _, _; split; [done|]; exists false;
           by rewrite !orb_false_r).
    unfold on_header. destruct (be_uint32 a b c d <? 4); [done|].
    intros H. repeat case_match; simplify_eq/=; eexists _, _; (split; [done|]);
      first [by exists false; rewrite !orb_false_r | by exists true; rewrite !orb_true_r].
Qed.

Lemma scan_bytes_acc l s dn state s' dn' state' d0 t0 :
  scan_bytes (s, dn, state) l = Some (s', dn', state') ->
  exists dn0 state0, scan_bytes (s, d0, t0) l = Some (s', dn0, state0) /\
    exists e, dn' = dn || e /\ dn0 = d0 || e.
Proof.
  revert s dn state d0 t0. induction l as [|x l IH]; intros s dn state d0 t0.
  - intros [= <- <- <-]. eexists _, _; split; [done|]. exists false. by rewrite !orb_false_r.
  - rewrite !scan_bytes_cons. intros ([[s1 d1] t1] & H1 & H2)%bind_Some.
    destruct (scan_byte_acc _ _ _ _ _ _ _ d0 t0 H1) as (d2 & t2 & -> & e1 & -> & ->).
    simpl. destruct (IH _ _ _ (d0 || e1) t2 H2) as (d3 & t3 & -> & e2 & -> & ->).
    eexists _, _; split; [done|]. exists (e1 || e2). by rewrite !orb_assoc.
Qed.

Lemma scan_bytes_wf l s dn state s' dn' state' :
  scanner_wf s -> scan_bytes (s, dn, state) l = Some (s', dn', state') -> scanner_wf s'.
Proof.
  revert s dn state. induction l as [|x l IH]; intros s dn state Hw.
  - by intros [= <- _ _].
  - rewrite scan_bytes_cons. intros ([[s1 d1] t1] & H1 & H2)%bind_Some.
    eauto using scan_byte_wf.
Qed.

(** Feeding the reads of a connection one after another, as the gateway does;
    the flag says whether any of them ended the reply. *)
Fixpoint feed_chunks (s : replyScanner) (chunks : list bytes) : option (replyScanner * bool) :=
  match chunks with
  | [] => Some (s, false)
  | c :: chunks =>
      '(s, dn, _) ← feed s c; '(s, dn') ← feed_chunks s chunks; Some (s, dn || dn')
  end.

Lemma feed_chunks_scan chunks s t0 s' dn state :
  scanner_wf s -> scan_bytes (s, false, t0) (concat chunks) = Some (s', dn, state) ->
  feed_chunks s chunks = Some (s', dn).
Proof.
  revert s t0 dn state. induction chunks as [|c chunks IH]; intros s t0 dn state Hw H.
  - by injection H as -> <- _.
  - simpl in H. rewrite scan_bytes_app in H. apply bind_Some in H as ([[s1 d1] t1] & H1 & H2).
    destruct (scan_bytes_acc _ _ _ _ _ _ _ false StatePartial H1) as (d1' & t1' & H1' & e & -> & ->).
    destruct (scan_bytes_acc _ _ _ _ _ _ _ false t1 H2) as (d2' & t2' & H2' & e' & -> & ->).
    simpl. unfold feed. erewrite feed_loop_scan; [|done|lia|exact H1'].
    cbn [mbind option_bind]. rewrite (IH s1 t1 (false || e') t2'); [done| |done].
    by eapply scan_bytes_wf.
Qed.

Lemma feed_chunks_prefix chunks rest s t0 s' state :
  scanner_wf s -> scan_bytes (s, false, t0) (concat chunks ++ rest) = Some (s', false, state) ->
  exists s1, feed_chunks s chunks = Some (s1, false).
Proof.
  intros Hw. rewrite scan_bytes_app. intros ([[s1 d1] t1] & H1 & H2)%bind_Some.
  exists s1. destruct (scan_bytes_acc _ _ _ _ _ _ _ d1 t1 H2) as (d2 & t2 & _ & e & Hd & _).
  symmetry in Hd. apply orb_false_elim in Hd as [-> _]. by eapply feed_chunks_scan.
Qed.

Lemma newReplyScanner_boundary e : boundary (newReplyScanner e).
Proof. done. Qed.

Lemma boundary_wf s : boundary s -> scanner_wf s.
Proof. intros (Hh & Hk & _). split; rewrite ?Hh, ?Hk; simpl; lia. Qed.

Lemma feed_chunks_frames e msgs chunks :
  Forall sized msgs -> concat chunks = frames msgs ->
  exists s, feed_chunks (newReplyScanner e) chunks = Some (s, existsb (ends_reply e) msgs) /\
    boundary s /\ rs_sawError s = saw (ch "E") msgs /\ rs_sawCopyIn s = saw (ch "G") msgs.
Proof.
  intros Hs Hc.
  destruct (scan_frames msgs (newReplyScanner e) false StatePartial
              (newReplyScanner_boundary e) Hs) as (s & E & Hb & _ & Hx & Hg).
  exists s. rewrite <- Hc in E. split_and!; [|done|done|done].
  eapply feed_chunks_scan; [|exact E]. apply boundary_wf, newReplyScanner_boundary.
Qed.

(** ** [PeekTransactionState] *)

(** The loop of [PostgresHandler.PeekTransactionState]: an unknown status
    leaves the state found so far, and any length moves on by at least one. *)
Fixpoint peek_loop (fuel : nat) (data : bytes) (state : TransactionState) : TransactionState :=
  match fuel with
  | O => state
  | S fuel =>
      match data with
      | msgType :: a :: b :: c :: d :: tail =>
          let length := be_uint32 a b c d in
          let state :=
            match tail with
            | status :: _ =>
                if decide (msgType = ch "Z") then
                  if decide (status = ch "I") then StateIdle
                  else if decide (status = ch "T" \/ status = ch "B") then StateInTransaction
                  else if decide (status = ch "E") then StateError
                  else state
                else state
            | [] => state
            end in
          peek_loop fuel (zdrop (1 + length) data) state
      | _ => state
      end
  end.

Definition PeekTransactionState (data : bytes) : TransactionState :=
  peek_loop (S (length data)) data StatePartial.

(** ** [awaitReply] *)

Inductive await_result :=
| AwaitOk
| AwaitRefused (failure : bytes)
| AwaitReadErr
| AwaitBlocked.

(** [orUnknown]. *)
Definition orUnknown (s : bytes) : bytes := if decide (s = []) then bs "no message" else s.

(** [awaitReply]'s loop: each read is the bytes it returned and whether it
    also returned an error (a deadline, a closed connection); running out of
    reads is a connection that stays silent. *)
Fixpoint await_loop (scan : replyScanner) (failure : bytes) (reads : list (bytes * bool))
  : await_result :=
  match reads with
  | [] => AwaitBlocked
  | (chunk, failed) :: reads =>
      let next := fun scan failure =>
        if failed : bool then AwaitReadErr else await_loop scan failure reads in
      if decide (chunk = []) then next scan failure
      else
        let failure := if decide (failure = []) then errorText chunk else failure in
        match feed scan chunk with
        | None => AwaitBlocked
        | Some (scan, done, _) =>
            if done : bool then
              if rs_sawError scan then AwaitRefused (orUnknown failure) else AwaitOk
            else next scan failure
        end
  end.

Definition awaitReply (reads : list (bytes * bool)) : await_result :=
  await_loop (newReplyScanner {| OnReadyForQuery := true; Tags := [] |}) [] reads.

(** ** Lemmas for the walks over a buffer *)

Lemma frame_length m : (5 <= length (frame m))%nat.
Proof.
  unfold frame. pose proof (zlen_appendTagged (fst m) (snd m)) as H.
  pose proof (zlen_nonneg (snd m)). unfold zlen in *. lia.
Qed.

Definition recognised (m : byte * bytes) : Prop :=
  match snd m with
  | x :: _ => fst m = ch "Z" -> transactionStatus x <> StatePartial
  | [] => fst m <> ch "Z"
  end.

Lemma peek_loop_frame fuel m rest state :
  sized m -> recognised m ->
  peek_loop (S fuel) (frame m ++ rest) state = peek_loop fuel rest (message_status state m).
Proof.
  destruct m as [t payload]. unfold sized, recognised, frame, message_status.
  cbn [fst snd]. intros Hl Hr.
  destruct (appendTagged_cases t payload Hl) as (a & b & c & d & E & Hv). rewrite E.
  cbn [peek_loop app]. rewrite Hv.
  replace (zdrop (1 + (zlen payload + 4)) (t :: a :: b :: c :: d :: payload ++ rest)) with rest.
  2: { change (t :: a :: b :: c :: d :: payload ++ rest)
         with ((t :: a :: b :: c :: d :: payload) ++ rest).
       replace (1 + (zlen payload + 4)) with (zlen (t :: a :: b :: c :: d :: payload))
         by (zlen_simpl; lia). by rewrite zdrop_app. }
  destruct payload as [|x payload]; simpl app; f_equal.
  - destruct rest; [done|]. by rewrite decide_False.
  - destruct (decide (t = ch "Z")); [|done]. specialize (Hr e). unfold transactionStatus in *.
    repeat case_decide; naive_solver.
Qed.

Lemma peek_loop_frames msgs fuel state :
  Forall sized msgs -> Forall recognised msgs -> (length msgs <= fuel)%nat ->
  peek_loop (S fuel) (frames msgs) state = foldl message_status state msgs.
Proof.
  intros Hs Hr. revert fuel state. induction Hs as [|m msgs Hm Hms IH]; intros fuel state Hf; [done|].
  inversion Hr; subst. destruct fuel as [|fuel]; [simpl in Hf; lia|].
  unfold frames in *. cbn [map concat foldl]. rewrite peek_loop_frame by done.
  apply IH; [done|simpl in Hf; lia].
Qed.

Lemma length_frames msgs : (length msgs <= length (frames msgs))%nat.
Proof.
  induction msgs as [|m msgs IH]; [done|]. unfold frames in *. cbn [map concat].
  rewrite length_app. pose proof (frame_length m). simpl. lia.
Qed.

(** The requests [ResponseEndFor] reads: the message types that get a reply,
    and the last of them. *)
Definition replying (m : byte * bytes) : bool :=
  bool_decide (fst m ∈ [feParse; feBind; feExecute; feClose; feFunctionCal; feDescribe]).

Definition last_replying (msgs : list (byte * bytes)) (last : byte) : byte :=
  foldl (fun last m => if replying m then fst m else last) last msgs.

Definition closes_batch (m : byte * bytes) : bool :=
  bool_decide (fst m = feSync \/ fst m = feQuery).

Lemma terminatorsFor_target last t1 t2 : terminatorsFor last t1 = terminatorsFor last t2.
Proof. unfold terminatorsFor. repeat case_decide; done. Qed.

Lemma response_end_loop_frame fuel m rest last target :
  sized m ->
  exists target',
    response_end_loop (S fuel) (frame m ++ rest) last target =
    if closes_batch m then {| OnReadyForQuery := true; Tags := [] |}
    else response_end_loop fuel rest (if replying m then fst m else last) target'.
Proof.
  destruct m as [t payload]. unfold sized, frame, closes_batch, replying. cbn [fst snd]. intros Hl.
  destruct (appendTagged_cases t payload Hl) as (a & b & c & d & E & Hv). rewrite E.
  cbn [response_end_loop app]. rewrite Hv. pose proof (zlen_nonneg payload).
  destruct (Z.ltb_spec (zlen payload + 4) 4); [lia|].
  replace (zlen payload + 4 - 4) with (zlen payload) by lia. rewrite zdrop_app.
  destruct (decide (t = feSync \/ t = feQuery)) as [Hc|Hc];
    [exists NUL; by rewrite bool_decide_true|rewrite bool_decide_false by done].
  destruct (decide (t ∈ [feParse; feBind; feExecute; feClose; feFunctionCal])) as [Ht|Ht];
    [|destruct (decide (t = feDescribe)) as [->|Hd]]; eexists;
    first [rewrite bool_decide_true by set_solver | rewrite bool_decide_false by set_solver]; done.
Qed.

Lemma response_end_loop_frames msgs fuel last target :
  Forall sized msgs -> (length msgs <= fuel)%nat ->
  response_end_loop (S fuel) (frames msgs) last target =
  if existsb closes_batch msgs then {| OnReadyForQuery := true; Tags := [] |}
  else {| OnReadyForQuery := false; Tags := terminatorsFor (last_replying msgs last) NUL |}.
Proof.
  intros Hs. revert fuel last target.
  induction Hs as [|m msgs Hm Hms IH]; intros fuel last target Hf.
  - simpl. f_equal. apply terminatorsFor_target.
  - destruct fuel as [|fuel]; [simpl in Hf; lia|]. unfold frames in *. cbn [map concat].
    destruct (response_end_loop_frame (S fuel) m (concat (map frame msgs)) last target Hm)
      as (target' & ->).
    cbn [existsb]. destruct (closes_batch m); [done|]. apply IH. simpl in Hf; lia.
Qed.

Lemma scan_byte_sawError s dn state x s' dn' state' :
  scan_byte (s, dn, state) x = Some (s', dn', state') ->
  rs_sawError s = true -> rs_sawError s' = true.
Proof.
  unfold scan_byte. destruct (0 <? rs_skip s); [by intros [= <- _ _]|].
  destruct (rs_header s ++ [x]) as [|t [|a [|b [|c [|d l]]]]]; try by intros [= <- _ _].
  unfold on_header. destruct (be_uint32 a b c d <? 4); [done|].
  intros H E. repeat case_match; simplify_eq/=; by rewrite E.
Qed.

Lemma scan_bytes_sawError l s dn state s' dn' state' :
  scan_bytes (s, dn, state) l = Some (s', dn', state') ->
  rs_sawError s = true -> rs_sawError s' = true.
Proof.
  revert s dn state. induction l as [|x l IH]; intros s dn state; [by intros [= <- _ _]|].
  rewrite scan_bytes_cons. intros ([[s1 d1] t1] & H1 & H2)%bind_Some. 
  eauto using scan_byte_sawError.
Qed.

Lemma await_loop_result reads s fail t0 saw_error :
  scanner_wf s -> Forall (fun r => snd r = false) reads ->
  (exists s' st, scan_bytes (s, false, t0) (concat (map fst reads)) = Some (s', true, st)) ->
  (forall p q s1 st1, concat (map fst reads) = p ++ q ->
     scan_bytes (s, false, t0) p = Some (s1, true, st1) -> rs_sawError s1 = saw_error) ->
  exists msg, await_loop s fail reads = if saw_error : bool then AwaitRefused msg else AwaitOk.
Proof.
  intros Hw Hr. revert s fail t0 Hw. induction Hr as [|[c f] reads Hf Hr IH]; intros s fail t0 Hw H Hp.
  - by destruct H as (s' & st & [=]).
  - simpl in Hf; subst f. cbn [await_loop map concat fst] in *.
    destruct (decide (c = [])) as [->|Hc]; [by apply (IH s fail t0)|].
    destruct H as (s' & st & H). rewrite scan_bytes_app in H.
    apply bind_Some in H as ([[s1 d1] t1] & H1 & H2).
    destruct (scan_bytes_acc _ _ _ _ _ _ _ false StatePartial H1) as (d1' & t1' & H1' & e & -> & ->).
    unfold feed. erewrite feed_loop_scan; [|done|lia|exact H1']. simpl orb. destruct e.
    + rewrite (Hp c (concat (map fst reads)) s1 t1 eq_refl H1). destruct saw_error; eauto.
    + apply (IH s1 _ t1); [by eapply scan_bytes_wf| by eauto |].
      intros p q s2 st2 Eq H3. apply (Hp (c ++ p) q s2 st2); [by rewrite <- app_assoc, <- Eq|].
      by rewrite scan_bytes_app, H1.
Qed.

Lemma scan_prefix_done e pre m p q s1 st1 :
  Forall sized (pre ++ [m]) -> Forall (fun x => ends_reply e x = false) pre -> fst m = ch "Z" ->
  frames (pre ++ [m]) = p ++ q ->
  scan_bytes (newReplyScanner e, false, StatePartial) p = Some (s1, true, st1) ->
  rs_sawError s1 = saw (ch "E") pre.
Proof.
  intros [Hs Hm]%Forall_app Hn Ez Eq H. rewrite Forall_singleton in Hm.
  destruct (scan_frames pre (newReplyScanner e) false StatePartial (newReplyScanner_boundary e) Hs)
    as (s0 & E0 & Hb & He & Hx & _).
  assert (existsb (ends_reply e) pre = false) as Ef.
  { clear -Hn. induction Hn as [|x l Hx Hn IH]; [done|]. simpl. by rewrite Hx, IH. }
  simpl in E0. rewrite Ef in E0.
  assert (frames (pre ++ [m]) = frames pre ++ frame m) as Efr.
  { unfold frames. rewrite map_app, concat_app. simpl. by rewrite app_nil_r. }
  rewrite Efr in Eq.
  destruct (app_eq_inv _ _ _ _ Eq) as [(k & E1 & E2)|(k & -> & E2)].
  - (* the prefix ends inside [pre]: nothing there ends the reply *)
    rewrite E1, scan_bytes_app, H in E0. cbn [mbind option_bind] in E0.
    destruct (scan_bytes_acc _ _ _ _ _ _ _ true st1 E0) as (? & ? & _ & e' & Hd & _). done.
  - rewrite scan_bytes_app, E0 in H. cbn [mbind option_bind] in H.
    pose proof (scan_frame s0 false (foldl message_status StatePartial pre) m Hb Hm) as Hz.
    rewrite E2, scan_bytes_app, H in Hz. cbn [mbind option_bind] in Hz.
    simpl in Hx. rewrite <- Hx. destruct (rs_sawError s0) eqn:E.
    + by eapply scan_bytes_sawError.
    + destruct (rs_sawError s1) eqn:E3; [|done].
      pose proof (scan_bytes_sawError _ _ _ _ _ _ _ Hz E3) as Hc. simpl in Hc.
      by rewrite E, Ez in Hc.
Qed.

(** ** Properties *)

(** C2: However the network cuts a reply into reads, the scanner reports the
    end exactly when the ending message arrives: feeding any cut of the frames
    up to and including it reports done, feeding any cut of a prefix of what
    comes before it does not, and the error and COPY flags say precisely
    whether an ErrorResponse or a CopyInResponse was among the messages. *)
Theorem reply_end_detected (e : ResponseEnd) (pre : list (byte * bytes)) (m : byte * bytes)
    (chunks : list bytes) :
  Forall sized (pre ++ [m]) ->
  Forall (fun x => ends_reply e x = false) pre -> ends_reply e m = true ->
  (concat chunks = frames (pre ++ [m]) ->
   exists s, feed_chunks (newReplyScanner e) chunks = Some (s, true) /\
     rs_sawError s = saw (ch "E") (pre ++ [m]) /\ rs_sawCopyIn s = saw (ch "G") (pre ++ [m])) /\
  (concat chunks `prefix_of` frames pre ->
   exists s, feed_chunks (newReplyScanner e) chunks = Some (s, false)).
Proof.
  intros Hs Hn Hm.
  assert (existsb (ends_reply e) pre = false) as Ef.
  { clear -Hn. induction Hn as [|x l Hx Hn IH]; [done|]. simpl. by rewrite Hx, IH. }
  split.
  - intros Hc. destruct (feed_chunks_frames e _ _ Hs Hc) as (s & E & _ & Hx & Hg).
    exists s. rewrite existsb_app, Ef in E. simpl in E. by rewrite Hm in E.
  - intros [rest Hc]. apply Forall_app in Hs as [Hs _].
    destruct (scan_frames pre (newReplyScanner e) false StatePartial
                (newReplyScanner_boundary e) Hs) as (s & E & _).
    simpl in E. rewrite Ef, Hc in E. eapply feed_chunks_prefix; [|exact E].
    apply boundary_wf, newReplyScanner_boundary.
Qed.

Lemma reply_end_detected_witness :
  exists s, feed_chunks (newReplyScanner {| OnReadyForQuery := true; Tags := [] |})
    [take 3 (frames [(ch "C", bs "SELECT 1"); (ch "Z", [ch "I"])]);
     drop 3 (frames [(ch "C", bs "SELECT 1"); (ch "Z", [ch "I"])])] = Some (s, true) /\
    rs_sawError s = saw (ch "E") ([(ch "C", bs "SELECT 1")] ++ [(ch "Z", [ch "I"])]) /\
    rs_sawCopyIn s = saw (ch "G") ([(ch "C", bs "SELECT 1")] ++ [(ch "Z", [ch "I"])]).
Proof.
  refine (proj1 (reply_end_detected {| OnReadyForQuery := true; Tags := [] |}
    [(ch "C", bs "SELECT 1")] (ch "Z", [ch "I"]) _ _ _ _) _).
  - apply List.Forall_forall. intros x [<-|[<-|[]]]; by_decide.
  - apply List.Forall_forall. intros x [<-|[]]. reflexivity.
  - reflexivity.
  - reflexivity.
Defined.

(** On a batch of well-formed frontend messages [ResponseEndFor] waits for
    ReadyForQuery exactly when the batch holds a Sync or a simple query, and
    otherwise for the answers to the last message that gets one. *)
Theorem response_end_spec (msgs : list (byte * bytes)) :
  Forall sized msgs ->
  ResponseEndFor (frames msgs) =
  if existsb closes_batch msgs then {| OnReadyForQuery := true; Tags := [] |}
  else {| OnReadyForQuery := false; Tags := terminatorsFor (last_replying msgs NUL) NUL |}.
Proof.
  intros Hs. apply response_end_loop_frames; [done|]. apply length_frames.
Qed.

Lemma response_end_spec_witness :
  ResponseEndFor (frames [(feParse, bs "s"); (feDescribe, bs "Ss"); (feFlush, [])])
  = {| OnReadyForQuery := false; Tags := [ch "T"; ch "n"] |}.
Proof.
  refine (response_end_spec [(feParse, bs "s"); (feDescribe, bs "Ss"); (feFlush, [])] _).
  apply List.Forall_forall. intros x [<-|[<-|[<-|[]]]]; by_decide.
Defined.

(** A single read of a whole reply gives the scanner and
    [PeekTransactionState] the same transaction state, when every ReadyForQuery
    carries a status PostgreSQL defines. *)
Theorem peek_agrees_with_scanner (e : ResponseEnd) (msgs : list (byte * bytes)) :
  Forall sized msgs -> Forall recognised msgs ->
  exists s dn, feed (newReplyScanner e) (frames msgs)
    = Some (s, dn, PeekTransactionState (frames msgs)).
Proof.
  intros Hs Hr.
  destruct (scan_frames msgs (newReplyScanner e) false StatePartial
              (newReplyScanner_boundary e) Hs) as (s & E & _).
  exists s, (false || existsb (ends_reply (rs_end (newReplyScanner e))) msgs).
  unfold PeekTransactionState. rewrite peek_loop_frames by eauto using length_frames.
  unfold feed. apply feed_loop_scan; [|lia|done]. apply boundary_wf, newReplyScanner_boundary.
Qed.

Lemma peek_agrees_with_scanner_witness :
  exists s dn, feed (newReplyScanner {| OnReadyForQuery := true; Tags := [] |})
    (frames [(ch "E", bs "Sx"); (ch "Z", [ch "E"])]) = Some (s, dn, StateError).
Proof.
  refine (peek_agrees_with_scanner _ [(ch "E", bs "Sx"); (ch "Z", [ch "E"])] _ _);
    apply List.Forall_forall; intros x [<-|[<-|[]]].
  - by_decide.
  - by_decide.
  - intros [=].
  - intros _ [=].
Defined.

(** C3: [awaitReply] never mistakes a refusal for success: on a connection that
    answers a replayed statement with messages up to a ReadyForQuery, in any
    sequence of reads, it returns an error exactly when an ErrorResponse was
    among them. *)
Theorem await_reply_reports_refusal (pre : list (byte * bytes)) (z : bytes)
    (reads : list (bytes * bool)) :
  Forall sized (pre ++ [(ch "Z", z)]) -> Forall (fun m => fst m <> ch "Z") pre ->
  Forall (fun r => snd r = false) reads ->
  concat (map fst reads) = frames (pre ++ [(ch "Z", z)]) ->
  exists msg, awaitReply reads =
    if saw (ch "E") pre then AwaitRefused msg else AwaitOk.
Proof.
  intros Hs Hn Hr Hc. set (e := {| OnReadyForQuery := true; Tags := [] |}).
  assert (Forall (fun x => ends_reply e x = false) pre) as He.
  { eapply Forall_impl; [|exact Hn]. intros x Hx. unfold ends_reply.
    by rewrite bool_decide_false. }
  apply (await_loop_result reads (newReplyScanner e) [] StatePartial).
  - apply boundary_wf, newReplyScanner_boundary.
  - done.
  - rewrite Hc. destruct (scan_frames _ (newReplyScanner e) false StatePartial
                            (newReplyScanner_boundary e) Hs) as (s & E & _).
    rewrite existsb_app in E. simpl in E. rewrite orb_true_r in E. eauto.
  - intros p q s1 st1 Hpq. rewrite Hc in Hpq. by eapply scan_prefix_done.
Qed.

Lemma await_reply_reports_refusal_witness :
  exists msg, awaitReply [(take 4 (frames [(ch "E", bs "Mno"); (ch "Z", [ch "I"])]), false);
      (drop 4 (frames [(ch "E", bs "Mno"); (ch "Z", [ch "I"])]), false)] = AwaitRefused msg.
Proof.
  refine (await_reply_reports_refusal [(ch "E", bs "Mno")] [ch "I"] _ _ _ _ _).
  - apply List.Forall_forall. intros x [<-|[<-|[]]]; by_decide.
  - apply List.Forall_forall. intros x [<-|[]]; by_decide.
  - apply List.Forall_forall. intros x [<-|[<-|[]]]; reflexivity.
  - reflexivity.
Defined.
