(* ===== verification/Lexer.v ===== *)
(** * Reading statements well enough to follow a session

    [pin_detect.go], [pin_reason.go] and [set_statement.go]: the
    allocation-free token walk over a statement, the reasons a statement pins
    or unpins a session, and the parameter a SET assigns.

    A position [i] in a statement [s] is the suffix [s[i:]]: every test the
    code makes is relative to [i], so the suffix is all it depends on. *)
From Stdlib Require Import ZArith Lia Strings.String.
From stdpp Require Import base gmap list numbers option.
From S2P Require Import Prelude.

(** ** Characters *)

Definition TAB : byte := Corelib.Init.Byte.x09.
Definition LF : byte := Corelib.Init.Byte.x0a.
Definition VT : byte := Corelib.Init.Byte.x0b.
Definition FF : byte := Corelib.Init.Byte.x0c.
Definition CR : byte := Corelib.Init.Byte.x0d.

(** [isSpace]. *)
Definition isSpace (b : byte) : bool :=
  bool_decide (b ∈ [ch " "; TAB; LF; CR; VT; FF]).

(** [c += 'a' - 'A'] for an upper-case ASCII letter, the folding step of
    [equalFold] and [lowerASCII]. *)
Definition lower_byte (c : byte) : byte :=
  if decide (bval (ch "A") <= bval c <= bval (ch "Z"))
  then byte_of (bval c + (bval (ch "a") - bval (ch "A"))) else c.

(** [equalFold]: byte for byte, the token folded, the literal as written. *)
Fixpoint equalFold (token lower : bytes) : bool :=
  match token, lower with
  | [], [] => true
  | c :: token, l :: lower => bool_decide (lower_byte c = l) && equalFold token lower
  | _, _ => false
  end.

(** [lowerASCII]. *)
Definition lowerASCII (token : bytes) : bytes := map lower_byte token.

(** ** Comments and tokens *)

Definition startsLineComment (s : bytes) : bool :=
  match s with a :: b :: _ => bool_decide (a = ch "-" /\ b = ch "-") | _ => false end.

Definition startsBlockComment (s : bytes) : bool :=
  match s with a :: b :: _ => bool_decide (a = ch "/" /\ b = ch "*") | _ => false end.

Definition startsComment (s : bytes) : bool := startsLineComment s || startsBlockComment s.

(** [skipBlockComment]: nesting is counted, an unterminated comment swallows
    the rest. *)
Fixpoint skipBlockComment (s : bytes) (depth : Z) : bytes :=
  match s with
  | a :: ((b :: r) as t) =>
      if decide (a = ch "/" /\ b = ch "*") then skipBlockComment r (depth + 1)
      else if decide (a = ch "*" /\ b = ch "/") then
        if decide (depth - 1 = 0) then r else skipBlockComment r (depth - 1)
      else skipBlockComment t depth
  | _ => []
  end.

(** The inner loop of [skipNoise]: up to, not including, the newline. *)
Fixpoint skip_line (s : bytes) : bytes :=
  match s with
  | c :: r => if decide (c = LF) then s else skip_line r
  | [] => []
  end.

(** [skipNoise].  Each turn consumes at least a byte. *)
Fixpoint skip_noise_loop (fuel : nat) (s : bytes) : bytes :=
  match fuel with
  | O => s
  | S fuel =>
      match s with
      | [] => []
      | c :: r =>
          if isSpace c then skip_noise_loop fuel r
          else if startsLineComment s then skip_noise_loop fuel (skip_line s)
          else if startsBlockComment s then skip_noise_loop fuel (skipBlockComment s 0)
          else s
      end
  end.

Definition skipNoise (s : bytes) : bytes := skip_noise_loop (length s) s.

(** The inner loop of [nextToken]: bytes up to whitespace or a comment. *)
Fixpoint token_span (s : bytes) : bytes * bytes :=
  match s with
  | [] => ([], [])
  | c :: r =>
      if isSpace c || startsComment s then ([], s)
      else let '(t, rest) := token_span r in (c :: t, rest)
  end.

(** [bytes.TrimRight(token, ";\x00")]. *)
Fixpoint trim_terminators (token : bytes) : bytes :=
  match token with
  | [] => []
  | c :: r =>
      match trim_terminators r with
      | [] => if decide (c = ch ";" \/ c = NUL) then [] else [c]
      | r' => c :: r'
      end
  end.

(** [nextToken]. *)
Definition nextToken (s : bytes) : bytes * bytes :=
  let '(t, rest) := token_span (skipNoise s) in (trim_terminators t, rest).

(** [containsFold]: a folded substring search. *)
Fixpoint containsFold_loop (s lower : bytes) : bool :=
  if decide (length s < length lower)%nat then false
  else equalFold (take (length lower) s) lower
       || match s with [] => false | _ :: r => containsFold_loop r lower end.

Definition containsFold (s lower : bytes) : bool :=
  if decide (lower = [] \/ (length s < length lower)%nat) then false
  else containsFold_loop s lower.

(** [containsPhrase]'s inner loop: do the next tokens spell the words? *)
Fixpoint phrase_here (candidate : bytes) (words : list bytes) : bool :=
  match words with
  | [] => true
  | w :: words =>
      let '(token, candidate) := nextToken candidate in
      equalFold token w && phrase_here candidate words
  end.

Fixpoint contains_phrase_loop (fuel : nat) (rest : bytes) (words : list bytes) : bool :=
  match fuel with
  | O => false
  | S fuel =>
      match rest with
      | [] => false
      | _ => phrase_here rest words || contains_phrase_loop fuel (snd (nextToken rest)) words
      end
  end.

(** [containsPhrase]. *)
Definition containsPhrase (s : bytes) (words : list bytes) : bool :=
  contains_phrase_loop (length s) s words.

(** ** Pin reasons *)

(** [PinReason] is a [uint16] bit set. *)
Definition PinListen : Z := 1.
Definition PinTempTable : Z := 2.
Definition PinCursor : Z := 4.
Definition PinLock : Z := 8.
Definition PinAdvisoryLock : Z := 16.
Definition PinUntrackedState : Z := 32.
Definition transactionScoped : Z := PinLock.

(** [PinReason.Has]. *)
Definition Has (r other : Z) : bool := negb (Z.land r other =? 0).

(** [PinReason.String]. *)
Definition PinReason_String (r : Z) : bytes :=
  if r =? 0 then bs "none"
  else
    foldl (fun out '(reason, name) =>
      if negb (Has r reason) then out
      else (if decide (out = []) then out else out ++ [ch ","]) ++ name)
      []
      [(PinListen, bs "listen"); (PinTempTable, bs "temp_table"); (PinCursor, bs "hold_cursor");
       (PinLock, bs "lock"); (PinAdvisoryLock, bs "advisory_lock");
       (PinUntrackedState, bs "untracked_state")].

(** [createsTempObject]. *)
Definition createsTempObject (rest : bytes) : bool :=
  let '(token, next) := nextToken rest in
  let '(token, next) :=
    if equalFold token (bs "global") || equalFold token (bs "local")
    then nextToken next else (token, next) in
  if negb (equalFold token (bs "temp")) && negb (equalFold token (bs "temporary")) then false
  else
    let object := fst (nextToken next) in
    equalFold object (bs "table") || equalFold object (bs "sequence")
    || equalFold object (bs "view").

(** [pinReasonFor]. *)
Definition pinReasonFor (query : bytes) : Z :=
  let '(verb, rest) := nextToken query in
  if equalFold verb (bs "listen") then PinListen
  else if equalFold verb (bs "lock") then PinLock
  else if equalFold verb (bs "declare") then
    if containsPhrase rest [bs "with"; bs "hold"] then PinCursor else 0
  else if equalFold verb (bs "create") then
    if createsTempObject rest then PinTempTable else 0
  else if equalFold verb (bs "select") || equalFold verb (bs "with") then
    if containsFold rest (bs "pg_advisory_lock") then PinAdvisoryLock else 0
  else 0.

(** [unpinReasonFor]; [^PinReason(0)] is every bit of the [uint16]. *)
Definition unpinReasonFor (query : bytes) : Z :=
  let '(verb, rest) := nextToken query in
  let next := fst (nextToken rest) in
  if equalFold verb (bs "discard") then
    if equalFold next (bs "all") then 2 ^ 16 - 1
    else if equalFold next (bs "temp") || equalFold next (bs "temporary") then PinTempTable
    else 0
  else if equalFold verb (bs "unlisten") then
    if equalFold next (bs "*") then PinListen else 0
  else if equalFold verb (bs "close") then
    if equalFold next (bs "all") then PinCursor else 0
  else 0.

(** ** SET statements *)

Inductive setScope := scopeSession | scopeTransaction | scopeUnknown | scopeNotSet.

#[global] Instance setScope_eq_dec : EqDecision setScope.
Proof. solve_decision. Defined.

(** [isIdentifier]. *)
Definition ident_byte (c : byte) : bool :=
  bool_decide (bval (ch "a") <= bval c <= bval (ch "z")) ||
  bool_decide (bval (ch "A") <= bval c <= bval (ch "Z")) ||
  bool_decide (bval (ch "0") <= bval c <= bval (ch "9")) ||
  bool_decide (c = ch "_" \/ c = ch "." \/ c = ch "$").

Definition isIdentifier (token : bytes) : bool := forallb ident_byte token.

(** [parseSet]. *)
Definition parseSet (query : bytes) : bytes * setScope :=
  let '(verb, rest) := nextToken query in
  if negb (equalFold verb (bs "set")) then ([], scopeNotSet)
  else
    let '(token, after) := nextToken rest in
    if equalFold token (bs "local") then ([], scopeTransaction)
    else
      let '(token, after) :=
        if equalFold token (bs "session") then nextToken after else (token, after) in
      if equalFold token (bs "transaction") || equalFold token (bs "constraints")
      then ([], scopeTransaction)
      else if equalFold token (bs "authorization") then (bs "session_authorization", scopeSession)
      else if equalFold token (bs "characteristics")
      then (bs "session_characteristics", scopeSession)
      else if equalFold token (bs "role") then (bs "role", scopeSession)
      else if equalFold token (bs "time") then
        if equalFold (fst (nextToken after)) (bs "zone") then (bs "timezone", scopeSession)
        else ([], scopeUnknown)
      else
        let token := match indexByte token (ch "=") with Some i => take i token | None => token end in
        if decide (token = []) then ([], scopeUnknown)
        else if negb (isIdentifier token) then ([], scopeUnknown)
        else (lowerASCII token, scopeSession).

(** ** Every walk makes progress *)

Lemma skipBlockComment_cons2 a b r d :
  skipBlockComment (a :: b :: r) d =
  if decide (a = ch "/" /\ b = ch "*") then skipBlockComment r (d + 1)
  else if decide (a = ch "*" /\ b = ch "/") then
    if decide (d - 1 = 0) then r else skipBlockComment r (d - 1)
  else skipBlockComment (b :: r) d.
Proof. reflexivity. Qed.

Lemma skipBlockComment_length s d : (length (skipBlockComment s d) <= length s)%nat.
Proof.
  remember (length s) as n eqn:En. revert s d En.
  induction n as [n IH] using lt_wf_ind. intros [|a [|b r]] d ->; cbn [skipBlockComment]; [simpl; lia|simpl; lia|].
  pose proof (fun d => IH (length r) ltac:(simpl; lia) r d eq_refl).
  pose proof (fun d => IH (length (b :: r)) ltac:(simpl; lia) (b :: r) d eq_refl) as H2.
  destruct (decide (a = ch "/" /\ b = ch "*")); [specialize (H (d + 1)); simpl in *; lia|].
  destruct (decide (a = ch "*" /\ b = ch "/")); [|specialize (H2 d); simpl in *; lia].
  destruct (decide (d - 1 = 0)); [simpl; lia|]. specialize (H (d - 1)); simpl in *; lia.
Qed.

Lemma skipBlockComment_progress s :
  startsBlockComment s = true -> (length (skipBlockComment s 0) < length s)%nat.
Proof.
  destruct s as [|a [|b r]]; [done|done|]. cbn [startsBlockComment].
  intros H%bool_decide_eq_true. cbn [skipBlockComment]. rewrite decide_True by done.
  pose proof (skipBlockComment_length r (0 + 1)). cbn [length]. lia.
Qed.

Lemma skip_line_length s : (length (skip_line s) <= length s)%nat.
Proof. induction s as [|c s IH]; simpl; [done|]. case_decide; simpl in *; lia. Qed.

Lemma skip_line_progress s :
  startsLineComment s = true -> (length (skip_line s) < length s)%nat.
Proof.
  destruct s as [|a [|b r]]; [done|done|]. cbn [startsLineComment].
  intros [-> ->]%bool_decide_eq_true. cbn [skip_line]. rewrite !decide_False by done.
  pose proof (skip_line_length r). simpl in *. lia.
Qed.

Lemma skip_noise_loop_fuel f1 f2 s :
  (length s <= f1)%nat -> (length s <= f2)%nat -> skip_noise_loop f1 s = skip_noise_loop f2 s.
Proof.
  revert f2 s. induction f1 as [|f1 IH]; intros f2 s H1 H2.
  - destruct s; [|simpl in H1; lia]. by destruct f2.
  - destruct s as [|c r]; [by destruct f2|]. destruct f2 as [|f2]; [simpl in H2; lia|].
    cbn [skip_noise_loop]. destruct (isSpace c); [apply IH; simpl in *; lia|].
    destruct (startsLineComment (c :: r)) eqn:E1.
    { apply skip_line_progress in E1. apply IH; simpl in *; lia. }
    destruct (startsBlockComment (c :: r)) eqn:E2; [|done].
    apply skipBlockComment_progress in E2. apply IH; simpl in *; lia.
Qed.

Lemma skipNoise_unfold s :
  skipNoise s =
  match s with
  | [] => []
  | c :: r =>
      if isSpace c then skipNoise r
      else if startsLineComment s then skipNoise (skip_line s)
      else if startsBlockComment s then skipNoise (skipBlockComment s 0)
      else s
  end.
Proof.
  destruct s as [|c r]; [done|]. unfold skipNoise at 1. cbn [skip_noise_loop length].
  destruct (isSpace c); [done|].
  destruct (startsLineComment (c :: r)) eqn:E1.
  { apply skip_line_progress in E1. apply skip_noise_loop_fuel; simpl in *; lia. }
  destruct (startsBlockComment (c :: r)) eqn:E2; [|done].
  apply skipBlockComment_progress in E2. apply skip_noise_loop_fuel; simpl in *; lia.
Qed.

Lemma skipNoise_spec s :
  (length (skipNoise s) <= length s)%nat /\
  match skipNoise s with
  | [] => True
  | c :: _ => isSpace c = false /\ startsComment (skipNoise s) = false
  end.
Proof.
  remember (length s) as n eqn:En. revert s En.
  induction n as [n IH] using lt_wf_ind. intros s ->. rewrite skipNoise_unfold.
  destruct s as [|c r]; [done|]. destruct (isSpace c) eqn:E0.
  { destruct (IH (length r) ltac:(simpl; lia) r eq_refl). split; [simpl; lia|done]. }
  destruct (startsLineComment (c :: r)) eqn:E1.
  { apply skip_line_progress in E1.
    destruct (IH _ E1 _ eq_refl). split; [lia|done]. }
  destruct (startsBlockComment (c :: r)) eqn:E2.
  { apply skipBlockComment_progress in E2.
    destruct (IH _ E2 _ eq_refl). split; [lia|done]. }
  split; [lia|]. split; [done|]. unfold startsComment. by rewrite E1, E2.
Qed.

Lemma token_span_app s : let '(t, rest) := token_span s in s = t ++ rest.
Proof.
  induction s as [|c r IH]; [done|]. cbn [token_span].
  destruct (isSpace c || _); [done|]. destruct (token_span r) as [t rest]. simpl. by f_equal.
Qed.

(** [nextToken] consumes at least one byte of a non-empty statement. *)
Lemma nextToken_progress s : s <> [] -> (length (snd (nextToken s)) < length s)%nat.
Proof.
  intros Hs. unfold nextToken. destruct (skipNoise_spec s) as [Hl Hc].
  pose proof (token_span_app (skipNoise s)) as Ha.
  destruct (skipNoise s) as [|c r] eqn:E.
  - simpl. destruct s; [done|simpl; lia].
  - destruct Hc as [H1 H2]. cbn [token_span] in *. rewrite H1, H2 in *. simpl orb in *.
    destruct (token_span r) as [t rest]. simpl in *. apply (f_equal length) in Ha.
    simpl in Ha. rewrite length_app in Ha. lia.
Qed.

(** ** The token stream *)

Fixpoint tokens_loop (fuel : nat) (s : bytes) : list bytes :=
  match fuel with
  | O => []
  | S fuel =>
      match s with
      | [] => []
      | _ => fst (nextToken s) :: tokens_loop fuel (snd (nextToken s))
      end
  end.

(** Every token [nextToken] finds, in order. *)
Definition tokens (s : bytes) : list bytes := tokens_loop (length s) s.

Lemma tokens_loop_fuel f1 f2 s :
  (length s <= f1)%nat -> (length s <= f2)%nat -> tokens_loop f1 s = tokens_loop f2 s.
Proof.
  revert f2 s. induction f1 as [|f1 IH]; intros f2 s H1 H2.
  - destruct s; [|simpl in H1; lia]. by destruct f2.
  - destruct s as [|c r]; [by destruct f2|]. destruct f2 as [|f2]; [simpl in H2; lia|].
    cbn [tokens_loop]. f_equal. pose proof (nextToken_progress (c :: r) ltac:(done)).
    apply IH; simpl in *; lia.
Qed.

Lemma tokens_unfold s :
  tokens s = match s with [] => [] | _ => fst (nextToken s) :: tokens (snd (nextToken s)) end.
Proof.
  destruct s as [|c r]; [done|]. unfold tokens at 1. cbn [tokens_loop length]. f_equal.
  pose proof (nextToken_progress (c :: r) ltac:(done)). apply tokens_loop_fuel; simpl in *; lia.
Qed.

Definition spells (ts words : list bytes) : Prop := Forall2 (fun t w => equalFold t w = true) ts words.

Lemma phrase_here_spec words s :
  Forall (fun w => w <> []) words ->
  phrase_here s words = true <-> exists ts l2, tokens s = ts ++ l2 /\ spells ts words.
Proof.
  intros Hw. revert s. induction Hw as [|w words Hw Hws IH]; intros s.
  - split; [|done]. intros _. exists [], (tokens s). by repeat constructor.
  - cbn [phrase_here]. destruct (nextToken s) as [t c] eqn:E. rewrite andb_true_iff, IH.
    rewrite (tokens_unfold s). destruct s as [|x s].
    + vm_compute in E. simplify_eq. split; [destruct w; naive_solver|].
      intros (ts & l2 & H & Hf). inversion Hf; subst. done.
    + rewrite E. simpl. split.
      * intros (H1 & ts & l2 & -> & H2). exists (t :: ts), l2. split; [done|by constructor].
      * intros (ts & l2 & H & Hf). inversion Hf; subst. injection H as -> Ht. eauto.
Qed.

Lemma contains_phrase_spec fuel s words :
  (length s <= fuel)%nat -> Forall (fun w => w <> []) words -> words <> [] ->
  contains_phrase_loop fuel s words = true <->
  exists l1 ts l2, tokens s = l1 ++ ts ++ l2 /\ spells ts words.
Proof.
  intros Hf Hw Hne. revert s Hf. induction fuel as [|fuel IH]; intros s Hf.
  - destruct s; [|simpl in Hf; lia]. split; [done|].
    intros (l1 & ts & l2 & H & Hs). rewrite tokens_unfold in H.
    destruct l1; [|done]. inversion Hs; subst; done.
  - cbn [contains_phrase_loop]. destruct s as [|x s].
    + split; [done|]. intros (l1 & ts & l2 & H & Hs). rewrite tokens_unfold in H.
      destruct l1; [|done]. inversion Hs; subst; done.
    + rewrite orb_true_iff, (phrase_here_spec words) by done.
      pose proof (nextToken_progress (x :: s) ltac:(done)) as Hp.
      rewrite IH by (simpl in *; lia). split.
      * intros [(ts & l2 & H & Hs)|(l1 & ts & l2 & H & Hs)].
        -- exists [], ts, l2. done.
        -- exists (fst (nextToken (x :: s)) :: l1), ts, l2. rewrite tokens_unfold, H. done.
      * intros ([|t l1] & ts & l2 & H & Hs); [left; by exists ts, l2|]. right.
        rewrite tokens_unfold in H. injection H as _ H. by exists l1, ts, l2.
Qed.

(** ** Folding case

    Every walk commutes with lowering the statement, because no byte it looks
    for is a letter. *)

Abbreviation lower := (map lower_byte).

Lemma lower_byte_idem c : lower_byte (lower_byte c) = lower_byte c.
Proof. destruct c; vm_compute; reflexivity. Qed.

(** The punctuation the walks test for is fixed by folding. *)
Definition unlettered (x : byte) : bool :=
  bool_decide (x ∈ [ch "-"; ch "/"; ch "*"; ch ";"; ch "="; NUL; LF]).

Lemma lower_byte_eq c x : unlettered x = true -> lower_byte c = x <-> c = x.
Proof.
  intros Hx. unfold unlettered in Hx. apply bool_decide_eq_true in Hx.
  rewrite !elem_of_cons, elem_of_nil in Hx.
  destruct Hx as [->|[->|[->|[->|[->|[->|[->|[]]]]]]]];
    destruct c; vm_compute; split; congruence.
Qed.

Lemma isSpace_lower c : isSpace (lower_byte c) = isSpace c.
Proof. destruct c; vm_compute; reflexivity. Qed.

Lemma ident_byte_lower c : ident_byte (lower_byte c) = ident_byte c.
Proof. destruct c; vm_compute; reflexivity. Qed.

Lemma decide_lower_pair (a b x y : byte) :
  unlettered x = true -> unlettered y = true ->
  lower_byte a = x /\ lower_byte b = y <-> a = x /\ b = y.
Proof. intros Hx Hy. by rewrite !lower_byte_eq. Qed.

Lemma equalFold_spec t w : equalFold t w = true <-> lower t = w.
Proof.
  revert w. induction t as [|c t IH]; intros [|x w]; simpl; try done.
  rewrite andb_true_iff, bool_decide_eq_true, IH. split; [intros [-> ->]; done|].
  intros [= -> ->]. done.
Qed.

Lemma lower_idem s : lower (lower s) = lower s.
Proof. induction s as [|c s IH]; simpl; [done|]. by rewrite lower_byte_idem, IH. Qed.

Lemma equalFold_lower t w : equalFold (lower t) w = equalFold t w.
Proof.
  apply eq_true_iff_eq. rewrite !equalFold_spec. by rewrite lower_idem.
Qed.

Lemma startsLineComment_lower s : startsLineComment (lower s) = startsLineComment s.
Proof.
  destruct s as [|a [|b r]]; [done|done|]. simpl. apply bool_decide_ext.
  by apply decide_lower_pair.
Qed.

Lemma startsBlockComment_lower s : startsBlockComment (lower s) = startsBlockComment s.
Proof.
  destruct s as [|a [|b r]]; [done|done|]. simpl. apply bool_decide_ext.
  by apply decide_lower_pair.
Qed.

Lemma startsComment_lower s : startsComment (lower s) = startsComment s.
Proof. unfold startsComment. by rewrite startsLineComment_lower, startsBlockComment_lower. Qed.

Lemma skip_line_lower s : skip_line (lower s) = lower (skip_line s).
Proof.
  induction s as [|c s IH]; [done|]. cbn [skip_line map].
  destruct (decide (c = LF)) as [->|Hc]; [by rewrite decide_True|].
  rewrite decide_False; [done|]. by rewrite lower_byte_eq.
Qed.

Lemma skipBlockComment_lower s d : skipBlockComment (lower s) d = lower (skipBlockComment s d).
Proof.
  remember (length s) as n eqn:En. revert s d En.
  induction n as [n IH] using lt_wf_ind. intros [|a [|b r]] d ->; [done|done|].
  cbn [map]. rewrite !skipBlockComment_cons2.
  destruct (decide (a = ch "/" /\ b = ch "*")) as [H|H].
  { rewrite decide_True by (by rewrite decide_lower_pair).
    eapply IH; [|reflexivity]. simpl; lia. }
  rewrite decide_False by (by rewrite decide_lower_pair).
  destruct (decide (a = ch "*" /\ b = ch "/")) as [H'|H'].
  { rewrite decide_True by (by rewrite decide_lower_pair). case_decide; [done|].
    eapply IH; [|reflexivity]. simpl; lia. }
  rewrite decide_False by (by rewrite decide_lower_pair).
  change (lower_byte b :: lower r) with (lower (b :: r)).
  eapply IH; [|reflexivity]. simpl; lia.
Qed.

Lemma skipNoise_lower s : skipNoise (lower s) = lower (skipNoise s).
Proof.
  remember (length s) as n eqn:En. revert s En.
  induction n as [n IH] using lt_wf_ind. intros s ->. destruct s as [|c r]; [done|].
  rewrite (skipNoise_unfold (c :: r)), (skipNoise_unfold (lower (c :: r))). cbn [map].
  rewrite isSpace_lower. destruct (isSpace c).
  { eapply IH; [|reflexivity]. simpl; lia. }
  change (lower_byte c :: lower r) with (lower (c :: r)).
  rewrite startsLineComment_lower, startsBlockComment_lower.
  destruct (startsLineComment (c :: r)) eqn:E1.
  { rewrite skip_line_lower. eapply IH; [|reflexivity]. by apply skip_line_progress. }
  destruct (startsBlockComment (c :: r)) eqn:E2; [|done].
  rewrite skipBlockComment_lower. eapply IH; [|reflexivity]. by apply skipBlockComment_progress.
Qed.

Lemma token_span_lower s :
  token_span (lower s) = (lower (fst (token_span s)), lower (snd (token_span s))).
Proof.
  induction s as [|c r IH]; [done|]. cbn [map token_span].
  change (lower_byte c :: lower r) with (lower (c :: r)).
  rewrite isSpace_lower, startsComment_lower. destruct (isSpace c || _); [done|].
  rewrite IH. by destruct (token_span r).
Qed.

Lemma trim_terminators_lower t : trim_terminators (lower t) = lower (trim_terminators t).
Proof.
  induction t as [|c t IH]; [done|]. cbn [map trim_terminators]. rewrite IH.
  destruct (trim_terminators t); cbn [map]; [|done].
  destruct (decide (c = ch ";" \/ c = NUL)) as [H|H].
  - by rewrite decide_True by (by rewrite !lower_byte_eq).
  - by rewrite decide_False by (by rewrite !lower_byte_eq).
Qed.

Lemma nextToken_lower s :
  nextToken (lower s) = (lower (fst (nextToken s)), lower (snd (nextToken s))).
Proof.
  unfold nextToken. rewrite skipNoise_lower, token_span_lower.
  destruct (token_span (skipNoise s)); simpl. by rewrite trim_terminators_lower.
Qed.

Lemma containsFold_lower s w : containsFold (lower s) w = containsFold s w.
Proof.
  unfold containsFold. rewrite length_map. destruct (decide _); [done|].
  clear. induction s as [|c s IH]; cbn [map containsFold_loop]; [done|].
  cbn [length]. rewrite length_map. destruct (decide _); [done|].
  change (lower_byte c :: lower s) with (lower (c :: s)).
  rewrite firstn_map.
  by rewrite equalFold_lower, IH.
Qed.

Lemma phrase_here_lower ws s : phrase_here (lower s) ws = phrase_here s ws.
Proof.
  revert s. induction ws as [|w ws IH]; intros s; [done|]. cbn [phrase_here].
  rewrite nextToken_lower. destruct (nextToken s). cbn [fst snd].
  by rewrite equalFold_lower, IH.
Qed.

Lemma containsPhrase_lower s ws : containsPhrase (lower s) ws = containsPhrase s ws.
Proof.
  unfold containsPhrase. rewrite length_map. generalize (length s); intros fuel.
  revert s. induction fuel as [|fuel IH]; intros s; [done|]. cbn [contains_phrase_loop].
  rewrite phrase_here_lower, nextToken_lower. cbn [snd]. rewrite IH. by destruct s.
Qed.

Lemma indexByte_lower s x : unlettered x = true -> indexByte (lower s) x = indexByte s x.
Proof.
  intros Hx. induction s as [|c s IH]; [done|]. cbn [map indexByte]. rewrite IH.
  destruct (decide (c = x)) as [H|H].
  - by rewrite decide_True by (by rewrite lower_byte_eq).
  - by rewrite decide_False by (by rewrite lower_byte_eq).
Qed.

Lemma isIdentifier_lower s : isIdentifier (lower s) = isIdentifier s.
Proof.
  unfold isIdentifier. induction s as [|c s IH]; [done|]. simpl. by rewrite ident_byte_lower, IH.
Qed.

Create HintDb fold_case.
#[export] Hint Rewrite nextToken_lower equalFold_lower containsFold_lower containsPhrase_lower
  isIdentifier_lower lower_idem : fold_case.

Lemma createsTempObject_lower s : createsTempObject (lower s) = createsTempObject s.
Proof.
  unfold createsTempObject. rewrite nextToken_lower. destruct (nextToken s) as [t n]. cbn [fst snd].
  rewrite !equalFold_lower. destruct (_ || _).
  - rewrite nextToken_lower. destruct (nextToken n) as [t' n']. cbn [fst snd].
    by autorewrite with fold_case; cbn [fst snd]; autorewrite with fold_case.
  - by autorewrite with fold_case; cbn [fst snd]; autorewrite with fold_case.
Qed.

Lemma pinReasonFor_lower q : pinReasonFor (lower q) = pinReasonFor q.
Proof.
  unfold pinReasonFor. rewrite nextToken_lower. destruct (nextToken q) as [v r]. cbn [fst snd].
  rewrite !equalFold_lower, containsPhrase_lower, containsFold_lower, createsTempObject_lower.
  done.
Qed.

Lemma unpinReasonFor_lower q : unpinReasonFor (lower q) = unpinReasonFor q.
Proof.
  unfold unpinReasonFor. rewrite nextToken_lower. destruct (nextToken q) as [v r]. cbn [fst snd].
  rewrite nextToken_lower. cbn [fst snd]. by rewrite !equalFold_lower.
Qed.

Lemma lowerASCII_lower t : lowerASCII (lower t) = lowerASCII t.
Proof. apply lower_idem. Qed.

Lemma parseSet_lower q : parseSet (lower q) = parseSet q.
Proof.
  unfold parseSet. rewrite nextToken_lower. destruct (nextToken q) as [v r]. cbn [fst snd].
  rewrite equalFold_lower. destruct (negb _); [done|].
  rewrite nextToken_lower. destruct (nextToken r) as [t a]. cbn [fst snd].
  rewrite !equalFold_lower. destruct (equalFold t (bs "local")); [done|].
  assert (exists t' a',
    (if equalFold t (bs "session") then nextToken a else (t, a)) = (t', a') /\
    (if equalFold t (bs "session") then nextToken (lower a) else (lower t, lower a))
      = (lower t', lower a')) as (t' & a' & -> & ->).
  { destruct (equalFold t (bs "session")); [|by eauto].
    rewrite nextToken_lower. destruct (nextToken a) as [x y]; eauto. }
  rewrite nextToken_lower, !equalFold_lower. cbn [fst snd]. rewrite equalFold_lower.
  rewrite indexByte_lower by done.
  assert (match indexByte t' (ch "=") with Some i => take i (lower t') | None => lower t' end
    = lower (match indexByte t' (ch "=") with Some i => take i t' | None => t' end)) as ->
    by (destruct (indexByte t' (ch "=")); [apply firstn_map|done]).
  generalize (match indexByte t' (ch "=") with Some i => take i t' | None => t' end); intros tk.
  rewrite isIdentifier_lower, lowerASCII_lower. by destruct tk.
Qed.

(** ** Noise: whitespace and comments in front of a statement *)

(** The text of a block comment between its delimiters: no bare delimiter, and
    comments nest. *)
Inductive inner : bytes -> Prop :=
| inner_nil : inner []
| inner_char c b : c <> ch "*" -> c <> ch "/" -> inner b -> inner (c :: b)
| inner_star b : head b <> Some (ch "/") -> inner b -> inner (ch "*" :: b)
| inner_slash c b : c <> ch "*" -> inner (c :: b) -> inner (ch "/" :: c :: b)
| inner_nest b1 b2 : inner b1 -> inner b2 ->
    inner (ch "/" :: ch "*" :: b1 ++ ch "*" :: ch "/" :: b2).

Inductive noise : bytes -> Prop :=
| noise_nil : noise []
| noise_space c n : isSpace c = true -> noise n -> noise (c :: n)
| noise_line l n : LF ∉ l -> noise n -> noise (ch "-" :: ch "-" :: l ++ LF :: n)
| noise_block b n : inner b -> noise n ->
    noise (ch "/" :: ch "*" :: b ++ ch "*" :: ch "/" :: n).

Lemma skipBlockComment_char c b r d :
  c <> ch "*" -> c <> ch "/" -> b ++ r <> [] ->
  skipBlockComment (c :: b ++ r) d = skipBlockComment (b ++ r) d.
Proof.
  intros H1 H2 H3. destruct (b ++ r) as [|x l]; [done|].
  rewrite skipBlockComment_cons2, !decide_False by naive_solver. done.
Qed.

Lemma skipBlockComment_inner b d r :
  inner b -> 0 < d ->
  skipBlockComment (b ++ ch "*" :: ch "/" :: r) d =
  if decide (d - 1 = 0) then r else skipBlockComment r (d - 1).
Proof.
  intros Hb. revert d r. induction Hb as [|c b H1 H2 Hb IH|b Hh Hb IH|c b Hc Hb IH|b1 b2 H1 IH1 H2 IH2];
    intros d r Hd.
  - simpl app. rewrite skipBlockComment_cons2, decide_False by (intros [? _]; done).
    by rewrite decide_True.
  - cbn [app]. rewrite skipBlockComment_char; [by apply IH|done|done|]. by destruct b.
  - cbn [app]. destruct (b ++ ch "*" :: ch "/" :: r) as [|x l] eqn:E; [by destruct b|].
    rewrite skipBlockComment_cons2, decide_False by (intros [? _]; done).
    rewrite decide_False; [by rewrite <- E, IH by done|]. intros [_ ->].
    destruct b; simpl in E; [done|]. simpl in Hh. congruence.
  - cbn [app]. rewrite skipBlockComment_cons2, decide_False by naive_solver.
    rewrite decide_False by (intros [? _]; done). by apply IH.
  - cbn [app]. rewrite skipBlockComment_cons2, decide_True by done.
    rewrite <- app_assoc. cbn [app]. rewrite IH1, decide_False by lia.
    replace (d + 1 - 1) with d by lia. by apply IH2.
Qed.

Lemma skipNoise_noise n s : noise n -> skipNoise (n ++ s) = skipNoise s.
Proof.
  induction 1 as [|c n Hc Hn IH|l n Hl Hn IH|b n Hb Hn IH]; [done|..].
  - rewrite skipNoise_unfold. cbn [app]. by rewrite Hc.
  - rewrite skipNoise_unfold. cbn [app isSpace startsLineComment].
    change (isSpace (ch "-")) with false. cbv iota beta.
    rewrite bool_decide_true by done. cbn [skip_line]. rewrite !decide_False by done.
    rewrite <- app_assoc. cbn [app].
    assert (skip_line (l ++ LF :: n ++ s) = LF :: n ++ s) as ->.
    { clear -Hl. induction l as [|c l IH]; cbn [app skip_line]; [by rewrite decide_True|].
      rewrite decide_False by set_solver. apply IH. set_solver. }
    rewrite skipNoise_unfold. by change (isSpace LF) with true.
  - rewrite skipNoise_unfold. cbn [app startsLineComment startsBlockComment].
    change (isSpace (ch "/")) with false. cbv iota beta.
    rewrite bool_decide_false by (intros [? _]; done). rewrite bool_decide_true by done.
    rewrite skipBlockComment_cons2, decide_True by done.
    rewrite <- app_assoc. cbn [app]. rewrite skipBlockComment_inner by (done || lia).
    by rewrite decide_True by lia.
Qed.

(** ** Properties *)

(** Whitespace and comments in front of a statement, nested block comments
    included, change nothing a session depends on: the statement pins, unpins
    and assigns exactly what it would without them. *)
Theorem leading_noise_ignored (n s : bytes) :
  noise n ->
  nextToken (n ++ s) = nextToken s /\
  pinReasonFor (n ++ s) = pinReasonFor s /\
  unpinReasonFor (n ++ s) = unpinReasonFor s /\
  parseSet (n ++ s) = parseSet s.
Proof.
  intros Hn. assert (nextToken (n ++ s) = nextToken s) as E.
  { unfold nextToken. by rewrite skipNoise_noise. }
  unfold pinReasonFor, unpinReasonFor, parseSet. by rewrite E.
Qed.

Lemma leading_noise_ignored_witness :
  pinReasonFor (bs "/*a/*b*/*/" ++ bs "LISTEN events") = PinListen.
Proof.
  refine (proj1 (proj2 (leading_noise_ignored (bs "/*a/*b*/*/") (bs "LISTEN events") _))).
  apply (noise_block (bs "a/*b*/") []); [|constructor].
  apply inner_char; [by_decide|by_decide|].
  apply (inner_nest (bs "b") []); [|constructor]. apply inner_char; [by_decide|by_decide|constructor].
Defined.

(** Statements that differ only in the case of ASCII letters pin, unpin and
    assign the same, and a SET is filed under the same parameter name, so two
    spellings of one setting can never become two entries to replay. *)
Theorem statements_case_insensitive (q1 q2 : bytes) :
  lower q1 = lower q2 ->
  pinReasonFor q1 = pinReasonFor q2 /\
  unpinReasonFor q1 = unpinReasonFor q2 /\
  parseSet q1 = parseSet q2.
Proof.
  intros E. rewrite <- (pinReasonFor_lower q1), <- (unpinReasonFor_lower q1), <- (parseSet_lower q1).
  rewrite E. by rewrite pinReasonFor_lower, unpinReasonFor_lower, parseSet_lower.
Qed.

Lemma statements_case_insensitive_witness :
  parseSet (bs "SET TimeZone='UTC'") = parseSet (bs "set timezone='utc'").
Proof.
  refine (proj2 (proj2 (statements_case_insensitive (bs "SET TimeZone='UTC'")
    (bs "set timezone='utc'") _))).
  reflexivity.
Defined.

(** [containsPhrase] finds a phrase exactly when its words are adjacent
    tokens of the statement, in order and up to case; the walk always ends. *)
Theorem contains_phrase_adjacent (s : bytes) (words : list bytes) :
  words <> [] -> Forall (fun w => w <> []) words ->
  containsPhrase s words = true <->
  exists l1 ts l2, tokens s = l1 ++ ts ++ l2 /\ map lower ts = words.
Proof.
  intros Hne Hw. unfold containsPhrase. rewrite contains_phrase_spec by done.
  assert (forall ts, spells ts words <-> map lower ts = words) as Hsp.
  { clear. intros ts. unfold spells. split.
    - induction 1 as [|t w ts ws Ht Hts IH]; [done|]. apply equalFold_spec in Ht. simpl. congruence.
    - intros <-. induction ts; constructor; [by apply equalFold_spec|done]. }
  by setoid_rewrite Hsp.
Qed.

Lemma contains_phrase_adjacent_witness :
  containsPhrase (bs "c CURSOR WITH /*x*/ Hold FOR SELECT 1") [bs "with"; bs "hold"] = true.
Proof.
  refine (proj2 (contains_phrase_adjacent _ [bs "with"; bs "hold"] _ _) _).
  - done.
  - apply List.Forall_forall. intros x [<-|[<-|[]]]; done.
  - exists [bs "c"; bs "CURSOR"], [bs "WITH"; bs "Hold"], [bs "FOR"; bs "SELECT"; bs "1"].
    split; vm_compute; reflexivity.
Defined.

(** A session-level advisory lock taken with [pg_try_advisory_lock] is not
    recognised: the substring searched for is [pg_advisory_lock]. *)
Example try_advisory_lock_unpinned :
  pinReasonFor (bs "SELECT pg_try_advisory_lock(42)") = 0.
Proof. vm_compute. reflexivity. Qed.
