(* ===== verification/Session.v ===== *)
(** * Session state: tracking it, and moving it to another connection

    The session half of [postgres_handler.go] ([extractQueryBytes],
    [TrackSessionState], [TrackPreparedStatement], [ForgetPreparedStatement],
    the pins and both replays), [session_state.go], [ParseStatementName], the
    release rule of [proxy/pooling_mode.go], and the order in which
    the gateway's request handler runs them around one exchange ([exchange]). *)
From Stdlib Require Import ZArith Lia Strings.String.
From stdpp Require Import base gmap fin_maps list numbers option.
From S2P Require Import Prelude Wire Scanner Lexer.

(** ** State *)

(** [SessionState].  The two credential fields are read only by the backend
    authentication and are not part of this model. *)
Record SessionState := {
  StartupPacket : bytes;
  Replication : bytes;
  Vars : gmap bytes bytes;
  Stmts : gmap bytes bytes;
  TxState : TransactionState;
  User : bytes;
  Database : bytes;
  LastLSN : bytes;
  Pinned : bool;
  BackendKey : bytes;
  PinnedBy : Z
}.

Definition newSessionState : SessionState :=
  {| StartupPacket := []; Replication := []; Vars := ∅; Stmts := ∅; TxState := StateIdle;
     User := []; Database := []; LastLSN := []; Pinned := false; BackendKey := []; PinnedBy := 0 |}.

Definition set_PinnedBy (s : SessionState) (p : Z) : SessionState :=
  {| StartupPacket := StartupPacket s; Replication := Replication s; Vars := Vars s;
     Stmts := Stmts s; TxState := TxState s; User := User s; Database := Database s;
     LastLSN := LastLSN s; Pinned := Pinned s; BackendKey := BackendKey s; PinnedBy := p |}.

Definition set_Vars (s : SessionState) (v : gmap bytes bytes) : SessionState :=
  {| StartupPacket := StartupPacket s; Replication := Replication s; Vars := v;
     Stmts := Stmts s; TxState := TxState s; User := User s; Database := Database s;
     LastLSN := LastLSN s; Pinned := Pinned s; BackendKey := BackendKey s; PinnedBy := PinnedBy s |}.

Definition set_Stmts (s : SessionState) (v : gmap bytes bytes) : SessionState :=
  {| StartupPacket := StartupPacket s; Replication := Replication s; Vars := Vars s;
     Stmts := v; TxState := TxState s; User := User s; Database := Database s;
     LastLSN := LastLSN s; Pinned := Pinned s; BackendKey := BackendKey s; PinnedBy := PinnedBy s |}.

Definition set_TxState (s : SessionState) (t : TransactionState) : SessionState :=
  {| StartupPacket := StartupPacket s; Replication := Replication s; Vars := Vars s;
     Stmts := Stmts s; TxState := t; User := User s; Database := Database s;
     LastLSN := LastLSN s; Pinned := Pinned s; BackendKey := BackendKey s; PinnedBy := PinnedBy s |}.

(** ** Statements inside messages *)

(** [extractQueryBytes]; nil and an empty slice are both []. *)
Definition extractQueryBytes (data : bytes) : bytes :=
  match data with
  | tag :: a :: b :: c :: d :: ((_ :: _) as tail) =>
      let length := be_uint32 a b c d in
      if decide (length < 4 \/ 1 + length > zlen data) then []
      else
        let body := ztake (length - 4) tail in
        if decide (tag = ch "Q") then trimTerminator body
        else if decide (tag = ch "P") then
          match indexByte body NUL with
          | None => []
          | Some nameEnd => trimTerminator (drop (S nameEnd) body)
          end
        else []
  | _ => []
  end.

(** [IsTerminate] and [Cacheable]. *)
Definition IsTerminate (data : bytes) : bool := bool_decide (head data = Some (ch "X")).
Definition Cacheable (data : bytes) : bool := bool_decide (head data = Some (ch "Q")).

(** [ParseStatementName]. *)
Definition ParseStatementName (data : bytes) : bytes :=
  match data with
  | tag :: _ :: _ :: _ :: _ :: ((_ :: _) as tail) =>
      if decide (tag = ch "P") then
        match indexByte tail NUL with
        | Some (S _ as e) => take e tail
        | _ => []
        end
      else []
  | _ => []
  end.

(** ** Tracking *)

Definition maxSessionVars : nat := 64.
Definition maxSessionStmts : nat := 256.

(** [TrackSessionState]. *)
Definition TrackSessionState (state : SessionState) (data : bytes) : SessionState :=
  if decide ((length data < 6)%nat \/ head data <> Some (ch "Q")) then state
  else
    let query := extractQueryBytes data in
    if decide (query = []) then state
    else
      let state := set_PinnedBy state (Z.lor (PinnedBy state) (pinReasonFor query)) in
      let state := set_PinnedBy state (Z.ldiff (PinnedBy state) (unpinReasonFor query)) in
      let '(name, scope) := parseSet query in
      match scope with
      | scopeNotSet | scopeTransaction => state
      | scopeUnknown => set_PinnedBy state (Z.lor (PinnedBy state) PinUntrackedState)
      | scopeSession =>
          if decide (Vars state !! name = None /\ (maxSessionVars <= size (Vars state))%nat)
          then set_PinnedBy state (Z.lor (PinnedBy state) PinUntrackedState)
          else set_Vars state (<[name := query]> (Vars state))
      end.

(** [TrackPreparedStatement]. *)
Definition TrackPreparedStatement (state : SessionState) (data : bytes) : SessionState :=
  if decide ((length data < 6)%nat \/ head data <> Some (ch "P")) then state
  else
    match messageBody data with
    | None => state
    | Some body =>
        match indexByte body NUL with
        | None => state
        | Some nameEnd =>
            let name := take nameEnd body in
            let rest := drop (S nameEnd) body in
            match indexByte rest NUL with
            | None => state
            | Some queryEnd =>
                if decide (Stmts state !! name = None /\ (maxSessionStmts <= size (Stmts state))%nat)
                then set_PinnedBy state (Z.lor (PinnedBy state) PinUntrackedState)
                else set_Stmts state (<[name := take queryEnd rest]> (Stmts state))
            end
        end
    end.

(** [ForgetPreparedStatement]. *)
Definition ForgetPreparedStatement (state : SessionState) (data : bytes) : SessionState :=
  if decide ((length data < 7)%nat \/ head data <> Some (ch "C")) then state
  else
    match messageBody data with
    | Some (k :: ((_ :: _) as rest)) =>
        if decide (k <> ch "S") then state
        else
          match cut rest NUL with
          | None => state
          | Some (name, _) => set_Stmts state (delete name (Stmts state))
          end
    | _ => state
    end.

(** [IsPinned]. *)
Definition IsPinned (state : SessionState) : bool :=
  Pinned state || negb (PinnedBy state =? 0).

(** [ReleaseTransactionPins]. *)
Definition ReleaseTransactionPins (state : SessionState) : SessionState :=
  set_PinnedBy state (Z.ldiff (PinnedBy state) transactionScoped).

(** ** Replaying *)

(** The simple-query message [ReplaySessionState] writes for one statement,
    its length laid out byte by byte. *)
Definition replay_query_message (query : bytes) : bytes :=
  let length := 4 + zlen query + 1 in
  ch "Q" :: [byte_of (Z.shiftr length 24); byte_of (Z.shiftr length 16);
             byte_of (Z.shiftr length 8); byte_of length] ++ query ++ [NUL].

(** The Parse message [ReplayPreparedStatements] writes; no parameter types. *)
Definition replay_parse_message (name query : bytes) : bytes :=
  let length := 4 + zlen name + 1 + zlen query + 1 + 2 in
  ch "P" :: [byte_of (Z.shiftr length 24); byte_of (Z.shiftr length 16);
             byte_of (Z.shiftr length 8); byte_of length]
    ++ name ++ [NUL] ++ query ++ [NUL] ++ [NUL; NUL].

Definition sync_message : bytes := [ch "S"; NUL; NUL; NUL; byte_of 4].

(** [StatementHolder], the interface of [tracker.go] a pooled connection
    offers the protocol: which statements the server has parsed on it.  The law
    is what replaying relies on; the unnamed statement is never recorded. *)
Class StatementHolder (Conn : Type) := {
  HasStatement : Conn -> bytes -> bool;
  AddStatement : Conn -> bytes -> Conn;
  has_add c n m :
    HasStatement (AddStatement c n) m = HasStatement c m || bool_decide (n = m /\ n <> [])
}.

Section Replay.
(** The backend connection: writing a message and awaiting its reply either
    moves the connection on or fails ([conn.Write], [awaitReply]). *)
Context {Conn : Type} (send : Conn -> bytes -> result bytes Conn).

(** [ReplaySessionState]; Go ranges over the map in an arbitrary order, which
    is the list [order]. *)
Fixpoint replay_vars (conn : Conn) (order : list (bytes * bytes)) : result bytes Conn :=
  match order with
  | [] => Ok conn
  | (_, query) :: order => conn ← send conn (replay_query_message query); replay_vars conn order
  end.

Context `{!StatementHolder Conn}.

(** [ReplayPreparedStatements] on a connection that tracks statements. *)
Fixpoint replay_stmts (conn : Conn) (order : list (bytes * bytes)) : result bytes Conn :=
  match order with
  | [] => Ok conn
  | (name, query) :: order =>
      if HasStatement conn name then replay_stmts conn order
      else
        conn ← send conn (replay_parse_message name query ++ sync_message);
        replay_stmts (AddStatement conn name) order
  end.
End Replay.

(** ** Releasing *)

Inductive poolingMode := poolTransaction | poolSession | poolStatement.

#[global] Instance poolingMode_eq_dec : EqDecision poolingMode.
Proof. solve_decision. Defined.

(** [shouldReleaseAt] and [shouldRelease]. *)
Definition shouldReleaseAt (m : poolingMode) (txState : TransactionState) (pinned : bool) : bool :=
  if pinned then false
  else if decide (m = poolSession) then false
  else bool_decide (txState = StateIdle).

Definition shouldRelease (m : poolingMode) (state : SessionState) (pinned : bool) : bool :=
  shouldReleaseAt m (TxState state) pinned.

(** [rejectsTransactions]. *)
Definition rejectsTransactions (m : poolingMode) : bool := bool_decide (m = poolStatement).

(** ** One exchange *)

(** What the gateway does with a client message once it is written to the
    backend: track it in each of the three ways. *)
Definition track_message (state : SessionState) (data : bytes) : SessionState :=
  ForgetPreparedStatement (TrackPreparedStatement (TrackSessionState state data) data) data.

(** And once the reply has ended in transaction state [reply]: lift the
    transaction pins if that closed a transaction, and remember the state. *)
Definition finish_reply (state : SessionState) (reply : TransactionState) : SessionState :=
  let state :=
    if decide (reply = StateIdle /\ TxState state <> StateIdle)
    then ReleaseTransactionPins state else state in
  set_TxState state reply.

(** A request and its reply. *)
Definition exchange (state : SessionState) (msg : bytes * TransactionState) : SessionState :=
  finish_reply (track_message state (fst msg)) (snd msg).

(** ** The invariant of a tracked session *)

Definition var_ok (name query : bytes) : Prop :=
  parseSet query = (name, scopeSession) /\ query <> [] /\ NUL ∉ query /\ zlen query + 5 < 2 ^ 32.

Definition stmt_ok (name query : bytes) : Prop :=
  NUL ∉ name /\ NUL ∉ query /\ zlen name + zlen query + 8 < 2 ^ 32.

Record session_inv (s : SessionState) : Prop := {
  inv_vars_size : (size (Vars s) <= maxSessionVars)%nat;
  inv_stmts_size : (size (Stmts s) <= maxSessionStmts)%nat;
  inv_vars : map_Forall var_ok (Vars s);
  inv_stmts : map_Forall stmt_ok (Stmts s);
  inv_pins : 0 <= PinnedBy s < 2 ^ 16
}.

(** Messages of a size PostgreSQL itself would accept. *)
Definition message_ok (data : bytes) : Prop := zlen data <= 2 ^ 31.

Lemma trimTerminator_spec b :
  NUL ∉ trimTerminator b /\ zlen (trimTerminator b) <= zlen b.
Proof.
  unfold trimTerminator. destruct (indexByte b NUL) as [i|] eqn:E.
  - apply indexByte_Some in E as (_ & Hn & Hl). split; [done|].
    unfold zlen. rewrite length_take. lia.
  - apply indexByte_None in E. split; [done|lia].
Qed.

Lemma trimTerminator_app b rest : NUL ∉ b -> trimTerminator (b ++ NUL :: rest) = b.
Proof. intros H. unfold trimTerminator. by rewrite indexByte_app, take_app_length. Qed.

Lemma zlen_ztake {A} n (l : list A) : zlen (ztake n l) <= zlen l.
Proof. unfold ztake, zlen. rewrite length_take. lia. Qed.

Lemma zlen_drop {A} n (l : list A) : zlen (drop n l) <= zlen l.
Proof. unfold zlen. rewrite length_drop. lia. Qed.

Lemma extractQueryBytes_spec data :
  NUL ∉ extractQueryBytes data /\ zlen (extractQueryBytes data) <= zlen data.
Proof.
  pose proof (zlen_nonneg data) as H0.
  assert (forall P, P -> NUL ∉ (@nil byte) /\ zlen (@nil byte) <= zlen data) as Hnil
    by (split; [set_solver|zlen_simpl; lia]).
  unfold extractQueryBytes.
  destruct data as [|t [|a [|b [|c [|d [|x tl]]]]]]; try (apply (Hnil True I)).
  set (tail := x :: tl) in *.
  destruct (decide _); [by apply (Hnil True)|].
  pose proof (zlen_ztake (be_uint32 a b c d - 4) tail) as Ht.
  set (bd := ztake _ tail) in *.
  assert (zlen tail <= zlen (t :: a :: b :: c :: d :: tail)) as Hd by (zlen_simpl; lia).
  destruct (decide (t = ch "Q")).
  { destruct (trimTerminator_spec bd). split; [done|lia]. }
  destruct (decide (t = ch "P")); [|by apply (Hnil True)].
  destruct (indexByte bd NUL) as [i|]; [|by apply (Hnil True)].
  destruct (trimTerminator_spec (drop (S i) bd)). pose proof (zlen_drop (S i) bd).
  split; [done|lia].
Qed.

Lemma replay_query_frame q :
  replay_query_message q = appendTagged [] (ch "Q") (q ++ [NUL]).
Proof.
  unfold replay_query_message, appendTagged, put_uint32. zlen_simpl.
  replace (4 + zlen q + 1) with (zlen q + (1 + 0) + 4) by lia. done.
Qed.

Lemma replay_parse_frame name q :
  replay_parse_message name q = appendTagged [] (ch "P") (name ++ NUL :: q ++ NUL :: [NUL; NUL]).
Proof.
  unfold replay_parse_message, appendTagged, put_uint32. zlen_simpl.
  replace (4 + zlen name + 1 + zlen q + 1 + 2)
    with (zlen name + (1 + (zlen q + (1 + (1 + (1 + 0))))) + 4) by lia. done.
Qed.

(** What is replayed is read back as the statement that was tracked. *)
Lemma extractQueryBytes_replay q :
  NUL ∉ q -> zlen q + 5 < 2 ^ 32 -> extractQueryBytes (replay_query_message q) = q.
Proof.
  intros Hq Hl. rewrite replay_query_frame.
  destruct (appendTagged_cases (ch "Q") (q ++ [NUL])) as (a & b & c & d & -> & Hv).
  { zlen_simpl. lia. }
  unfold extractQueryBytes.
  destruct (q ++ [NUL]) as [|x tl] eqn:E; [by destruct q|]. rewrite <- E in *.
  rewrite Hv. pose proof (zlen_nonneg q).
  rewrite decide_False by (zlen_simpl; lia). rewrite decide_True by done.
  replace (zlen (q ++ [NUL]) + 4 - 4) with (zlen (q ++ [NUL])) by lia.
  rewrite <- (app_nil_r (q ++ [NUL])) at 2. rewrite ztake_app. by apply trimTerminator_app.
Qed.

Lemma size_insert_bound (m : gmap bytes bytes) k v n :
  ~ (m !! k = None /\ (n <= size m)%nat) -> (size m <= n)%nat -> (size (<[k := v]> m) <= n)%nat.
Proof.
  intros H Hs. destruct (m !! k) eqn:E.
  - rewrite map_size_insert_Some; [done|]. by rewrite E.
  - rewrite map_size_insert_None by done.
    destruct (decide (n <= size m)%nat); [exfalso; auto|lia].
Qed.

Lemma lor_range a b n : 0 <= n -> 0 <= a < 2 ^ n -> 0 <= b < 2 ^ n -> 0 <= Z.lor a b < 2 ^ n.
Proof.
  intros Hn Ha Hb. split; [apply Z.lor_nonneg; lia|].
  destruct (decide (Z.lor a b = 0)) as [->|]; [lia|].
  assert (0 <= Z.lor a b) by (apply Z.lor_nonneg; lia).
  apply Z.log2_lt_pow2; [lia|]. rewrite Z.log2_lor by lia.
  destruct (decide (n = 0)) as [->|]; [assert (a = 0 /\ b = 0) as [-> ->] by lia; done|].
  assert (forall x, 0 <= x < 2 ^ n -> Z.log2 x < n) as Hx.
  { intros x Hx. destruct (decide (x = 0)) as [->|]; [simpl; lia|]. apply Z.log2_lt_pow2; lia. }
  pose proof (Hx a Ha). pose proof (Hx b Hb). lia.
Qed.

Lemma ldiff_range a b n : 0 <= n -> 0 <= a < 2 ^ n -> 0 <= Z.ldiff a b < 2 ^ n.
Proof.
  intros Hn Ha. assert (a = Z.land a (Z.ones n)) as E by (by rewrite Z.land_ones, Z.mod_small).
  assert (Z.ldiff a b = Z.land (Z.ldiff a b) (Z.ones n)) as ->.
  { apply Z.bits_inj'. intros i Hi. rewrite Z.land_spec, Z.ldiff_spec, E, Z.land_spec.
    by destruct (Z.testbit a i), (Z.testbit b i), (Z.testbit (Z.ones n) i). }
  rewrite Z.land_ones by done. apply Z.mod_pos_bound. lia.
Qed.

Lemma pinReasonFor_range q : 0 <= pinReasonFor q < 2 ^ 16.
Proof.
  unfold pinReasonFor. destruct (nextToken q).
  repeat case_match; vm_compute; split; congruence.
Qed.

(** ** Tracking preserves the invariant *)

Ltac session_fields := constructor; simpl; try done.

Lemma inv_set_PinnedBy s p : session_inv s -> 0 <= p < 2 ^ 16 -> session_inv (set_PinnedBy s p).
Proof. intros [] Hp. session_fields. Qed.

Lemma inv_set_TxState s t : session_inv s -> session_inv (set_TxState s t).
Proof. intros []. session_fields. Qed.

Lemma inv_untracked s :
  session_inv s -> session_inv (set_PinnedBy s (Z.lor (PinnedBy s) PinUntrackedState)).
Proof.
  intros Hs. apply inv_set_PinnedBy; [done|]. apply lor_range; [lia|apply Hs|].
  vm_compute; split; congruence.
Qed.

Lemma inv_TrackSessionState s data :
  message_ok data -> session_inv s -> session_inv (TrackSessionState s data).
Proof.
  intros Hd Hs. unfold TrackSessionState. case_decide; [done|].
  destruct (extractQueryBytes_spec data) as [Hnul Hlen].
  set (q := extractQueryBytes data) in *. case_decide as Hq; [done|]. cbv zeta.
  set (s1 := set_PinnedBy (set_PinnedBy _ _) _).
  assert (session_inv s1) as Hs1.
  { apply inv_set_PinnedBy; [apply inv_set_PinnedBy; [done|]|].
    - apply lor_range; [lia|apply Hs|apply pinReasonFor_range].
    - simpl. apply ldiff_range; [lia|]. apply lor_range; [lia|apply Hs|apply pinReasonFor_range]. }
  clearbody s1. destruct (parseSet q) as [name scope] eqn:Ep.
  destruct scope; try done; [|by apply inv_untracked].
  case_decide as Hcap; [by apply inv_untracked|]. destruct Hs1. session_fields.
  - by apply size_insert_bound.
  - apply map_Forall_insert_2; [|done]. split_and!; try done. unfold message_ok in Hd. lia.
Qed.

Lemma messageBody_length data b : messageBody data = Some b -> zlen b + 5 <= zlen data.
Proof.
  destruct data as [|t [|a1 [|a2 [|a3 [|a4 rest]]]]]; try done. unfold messageBody.
  case_decide as H; [done|]. intros [= <-]. zlen_simpl. unfold zlen in *. rewrite length_take. lia.
Qed.

Lemma take_index_length {A} (l : list A) i : zlen (take i l) <= zlen l.
Proof. unfold zlen. rewrite length_take. lia. Qed.

Lemma inv_TrackPreparedStatement s data :
  message_ok data -> session_inv s -> session_inv (TrackPreparedStatement s data).
Proof.
  intros Hd Hs. unfold TrackPreparedStatement. case_decide; [done|].
  destruct (messageBody data) as [b|] eqn:Eb; [|done]. apply messageBody_length in Eb.
  destruct (indexByte b NUL) as [i|] eqn:Ei; [|done]. cbv zeta.
  destruct (indexByte (drop (S i) b) NUL) as [j|] eqn:Ej; [|done].
  case_decide as Hcap; [by apply inv_untracked|]. destruct Hs. session_fields.
  - by apply size_insert_bound.
  - apply map_Forall_insert_2; [|done].
    apply indexByte_Some in Ei as (_ & Hi & Hli), Ej as (_ & Hj & Hlj).
    split_and!; [done|done|]. unfold message_ok in Hd.
    unfold zlen in *. rewrite !length_take in *. rewrite length_drop in *. lia.
Qed.

Lemma inv_ForgetPreparedStatement s data :
  session_inv s -> session_inv (ForgetPreparedStatement s data).
Proof.
  intros Hs. unfold ForgetPreparedStatement. repeat case_match; try done.
  destruct Hs. session_fields.
  - rewrite map_size_delete. case_match; unfold id; lia.
  - by apply map_Forall_delete.
Qed.

Lemma inv_exchange s msg : message_ok (fst msg) -> session_inv s -> session_inv (exchange s msg).
Proof.
  intros Hm Hs. destruct msg as [data reply]. unfold exchange, finish_reply, track_message.
  cbn [fst snd]. apply inv_set_TxState. assert (session_inv (ForgetPreparedStatement
    (TrackPreparedStatement (TrackSessionState s data) data) data)) as H.
  { apply inv_ForgetPreparedStatement, inv_TrackPreparedStatement; [done|].
    by apply inv_TrackSessionState. }
  case_decide; [|done]. apply inv_set_PinnedBy; [done|]. apply ldiff_range; [lia|apply H].
Qed.

Lemma inv_exchanges s msgs :
  Forall (fun m => message_ok (fst m)) msgs -> session_inv s -> session_inv (foldl exchange s msgs).
Proof. intros H. revert s. induction H; simpl; eauto using inv_exchange. Qed.

Lemma inv_new : session_inv newSessionState.
Proof.
  constructor; simpl; [rewrite map_size_empty; lia|rewrite map_size_empty; lia| | |lia];
    apply map_Forall_empty.
Qed.

(** ** Replaying rebuilds the settings *)

Lemma track_replayed s name q :
  var_ok name q -> (size (Vars s) < maxSessionVars)%nat ->
  Vars (TrackSessionState s (replay_query_message q)) = <[name := q]> (Vars s).
Proof.
  intros (Hp & Hne & Hn & Hl) Hs. unfold TrackSessionState.
  rewrite decide_False.
  - rewrite extractQueryBytes_replay, decide_False by done. cbv zeta. rewrite Hp.
    rewrite decide_False by (simpl; lia). done.
  - unfold replay_query_message. simpl. intros [H|H]; [|done].
    rewrite length_app in H. simpl in H. lia.
Qed.

Lemma track_replayed_all (order : list (bytes * bytes)) s :
  Forall (fun e => var_ok (fst e) (snd e)) order ->
  (size (Vars s) + length order <= maxSessionVars)%nat ->
  Vars (foldl (fun s e => TrackSessionState s (replay_query_message (snd e))) s order)
  = foldl (fun m e => <[fst e := snd e]> m) (Vars s) order.
Proof.
  intros H. revert s. induction H as [|[n q] order Hv Ho IH]; intros s Hl; [done|].
  cbn [foldl fst snd length] in *. rewrite IH.
  - rewrite (track_replayed s n q) by (done || lia). done.
  - rewrite (track_replayed s n q) by (done || lia).
    pose proof (map_size_insert n q (Vars s)) as Hsz. case_match; unfold id in Hsz; lia.
Qed.

Lemma foldl_insert_list_to_map (order : list (bytes * bytes)) (m : gmap bytes bytes) :
  NoDup order.*1 -> (forall k, k ∈ order.*1 -> m !! k = None) ->
  foldl (fun m e => <[fst e := snd e]> m) m order = list_to_map order ∪ m.
Proof.
  revert m. induction order as [|[n q] order IH]; intros m Hnd Hm.
  - simpl. by rewrite (left_id_L ∅ (∪)).
  - cbn [foldl fst snd fmap list_fmap] in *. inversion_clear Hnd. rewrite IH; [|done|].
    + simpl. rewrite <- insert_union_l, <- insert_union_r; [done|].
      apply not_elem_of_list_to_map_1. done.
    + intros k Hk. rewrite lookup_insert_ne; [|set_solver]. apply Hm. set_solver.
Qed.

(** Inserting the entries of a map in any order rebuilds it. *)
Lemma foldl_insert_order (m : gmap bytes bytes) order :
  order ≡ₚ map_to_list m -> foldl (fun m kv => <[fst kv := snd kv]> m) ∅ order = m.
Proof.
  intros Ho. assert (NoDup order.*1) as Hnd by (rewrite Ho; apply NoDup_fst_map_to_list).
  rewrite foldl_insert_list_to_map by (done || intros; apply lookup_empty).
  rewrite (right_id_L ∅ (∪)), (list_to_map_proper order (map_to_list m)) by done. apply list_to_map_to_list.
Qed.

(** ** Nothing a client set is lost while the session can move

    What a client set is read off the grammar of PostgreSQL and of its protocol,
    not off the tracker: every SET of a session parameter, in whatever message. *)

Module Client.

Definition QUOTE : byte := Corelib.Init.Byte.x22.

(** A statement as a client writes it: [kw] spells SET in any case, [scoped]
    asks for SESSION.  [Other] is any statement that is not a SET. *)
Inductive statement :=
| Assign (kw : bytes) (scoped : bool) (name op value : bytes)
| AssignQuoted (kw : bytes) (scoped : bool) (name op value : bytes)
| SetTimeZone (kw : bytes) (scoped : bool) (value : bytes)
| SetRole (kw : bytes) (scoped : bool) (value : bytes)
| SetAuthorization (kw value : bytes)
| SetLocal (kw rest : bytes)
| Other (verb rest : bytes).

Definition scope_text (scoped : bool) : bytes := if scoped then bs "SESSION " else [].

Definition text (st : statement) : bytes :=
  match st with
  | Assign kw scoped name op value => kw ++ bs " " ++ scope_text scoped ++ name ++ op ++ value
  | AssignQuoted kw scoped name op value =>
      kw ++ bs " " ++ scope_text scoped ++ [QUOTE] ++ name ++ [QUOTE] ++ op ++ value
  | SetTimeZone kw scoped value => kw ++ bs " " ++ scope_text scoped ++ bs "TIME ZONE " ++ value
  | SetRole kw scoped value => kw ++ bs " " ++ scope_text scoped ++ bs "ROLE " ++ value
  | SetAuthorization kw value => kw ++ bs " SESSION AUTHORIZATION " ++ value
  | SetLocal kw rest => kw ++ bs " LOCAL " ++ rest
  | Other verb rest => verb ++ rest
  end.

(** The parameter a statement sets for the session, names being compared without
    regard to case unless they are quoted. *)
Definition assigned (st : statement) : option bytes :=
  match st with
  | Assign _ _ name _ _ => Some (lower name)
  | AssignQuoted _ _ name _ _ => Some name
  | SetTimeZone _ _ _ => Some (bs "timezone")
  | SetRole _ _ _ => Some (bs "role")
  | SetAuthorization _ _ => Some (bs "session_authorization")
  | SetLocal _ _ | Other _ _ => None
  end.

(** One statement: a semicolon can only end it. *)
Definition single (rest : bytes) : Prop := ch ";" ∉ removelast rest.

Definition operators : list bytes := [bs "="; bs " = "; bs " TO "].

(** Words that do not name a parameter after SET. *)
Definition reserved : list bytes :=
  map bs ["local"; "session"; "transaction"; "constraints"; "authorization"; "characteristics"; "role"; "time"]%string.

(** Statements other than RESET and DISCARD, which unset what was set. *)
Definition statement_ok (st : statement) : Prop :=
  NUL ∉ text st /\
  match st with
  | Assign kw _ name op value =>
      lower kw = bs "set" /\ isIdentifier name = true /\ name <> [] /\ lower name ∉ reserved /\ op ∈ operators /\ single value
  | AssignQuoted kw _ name op value => lower kw = bs "set" /\ op ∈ operators /\ single value
  | SetTimeZone kw _ value | SetRole kw _ value | SetAuthorization kw value | SetLocal kw value =>
      lower kw = bs "set" /\ single value
  | Other verb rest =>
      isIdentifier verb = true /\ verb <> [] /\ lower verb ∉ [bs "set"; bs "reset"; bs "discard"] /\
      (rest = [] \/ rest = bs ";" \/ head rest = Some (ch " ")) /\ single rest
  end.

(** The messages of a request: simple queries, statements to prepare, and
    messages of any other kind. *)
Inductive client_message :=
| Query (st : statement)
| Parse (name : bytes) (st : statement) (types : bytes)
| Message (tag : byte) (body : bytes).

Definition as_message (c : client_message) : byte * bytes :=
  match c with
  | Query st => (ch "Q", text st ++ [NUL])
  | Parse name st types => (ch "P", name ++ NUL :: text st ++ NUL :: types)
  | Message tag body => (tag, body)
  end.

Definition client_message_ok (c : client_message) : Prop :=
  sized (as_message c) /\
  match c with
  | Query st | Parse _ st _ => statement_ok st
  | Message tag _ => tag ∉ [ch "Q"; ch "P"]
  end.

#[global] Instance statement_ok_dec st : Decision (statement_ok st).
Proof. unfold statement_ok, single. destruct st; apply _. Defined.
#[global] Instance client_message_ok_dec c : Decision (client_message_ok c).
Proof. unfold client_message_ok, sized. destruct c; apply _. Defined.

(** The parameter a message sets, counting a prepared SET as sent. *)
Definition sets (c : client_message) : option (bytes * bytes) :=
  match c with
  | Query st | Parse _ st _ => name ← assigned st; Some (name, text st)
  | Message _ _ => None
  end.

Abbreviation request := (list client_message).
Definition request_bytes (r : request) : bytes := frames (map as_message r).

(** Every SET sent, the last one of each parameter kept. *)
Definition note (m : gmap bytes bytes) (c : client_message) : gmap bytes bytes :=
  match sets c with Some (name, q) => <[name := q]> m | None => m end.
Definition settings_sent (rs : list request) : gmap bytes bytes := foldl note ∅ (concat rs).

(** The SETs of a request are simple queries in front of it. *)
Definition sets_lead (r : request) : Prop :=
  match r with
  | Query _ :: rest => Forall (fun c => sets c = None) rest
  | _ => Forall (fun c => sets c = None) r
  end.
#[global] Instance sets_lead_dec r : Decision (sets_lead r).
Proof. unfold sets_lead. destruct r as [|[] ?]; apply _. Defined.
End Client.

(** *** The tracker reads those statements as PostgreSQL does *)



























(** *** Tracking a request *)








Lemma prepared_keeps s data :
  Vars (TrackPreparedStatement s data) = Vars s /\
  TxState (TrackPreparedStatement s data) = TxState s /\
  (PinnedBy (TrackPreparedStatement s data) = PinnedBy s \/
   PinnedBy (TrackPreparedStatement s data) = Z.lor (PinnedBy s) PinUntrackedState).
Proof. unfold TrackPreparedStatement. repeat case_match; simpl; eauto. Qed.

Lemma forget_keeps s data :
  Vars (ForgetPreparedStatement s data) = Vars s /\
  TxState (ForgetPreparedStatement s data) = TxState s /\
  PinnedBy (ForgetPreparedStatement s data) = PinnedBy s.
Proof. unfold ForgetPreparedStatement. repeat case_match; done. Qed.


(** The exchanges of a client's requests, each with the state its reply ended in. *)
Definition exchanges (s : SessionState) (rs : list (Client.request * TransactionState)) : SessionState :=
  foldl exchange s (map (fun x => (Client.request_bytes (fst x), snd x)) rs).




Lemma exchange_keeps_pin s msg bit :
  0 <= bit -> bit <> 3 -> Z.testbit (unpinReasonFor (extractQueryBytes (fst msg))) bit = false ->
  Z.testbit (PinnedBy s) bit = true -> Z.testbit (PinnedBy (exchange s msg)) bit = true.
Proof.
  destruct msg as [data reply]. cbn [fst]. intros Hb H3 Hu Hp. unfold exchange, finish_reply, track_message.
  cbn [fst snd].
  assert (Z.testbit (PinnedBy (TrackSessionState s data)) bit = true) as H1.
  { unfold TrackSessionState. case_decide; [done|]. case_decide; [done|]. cbv zeta.
    destruct (parseSet _) as [n []]; repeat case_decide; cbn [PinnedBy set_PinnedBy set_Vars];
      by rewrite ?Z.lor_spec, Z.ldiff_spec, Z.lor_spec, Hp, Hu. }
  destruct (prepared_keeps (TrackSessionState s data) data) as (_ & _ & H2).
  destruct (forget_keeps (TrackPreparedStatement (TrackSessionState s data) data) data) as (_ & _ & H4).
  assert (Z.testbit (PinnedBy (ForgetPreparedStatement
    (TrackPreparedStatement (TrackSessionState s data) data) data)) bit = true) as H5.
  { rewrite H4. destruct H2 as [->| ->]; [done|]. by rewrite Z.lor_spec, H1. }
  case_decide; cbn [PinnedBy set_TxState ReleaseTransactionPins set_PinnedBy]; [|done].
  rewrite Z.ldiff_spec, H5. change transactionScoped with (2 ^ 3). rewrite Z.pow2_bits_false by lia. done.
Qed.

(** ** Prepared statements *)

Section Statements.
Context {Conn : Type} `{!StatementHolder Conn} (send : Conn -> bytes -> result bytes Conn).
(** Talking to the server does not change what the connection remembers. *)
Context (send_keeps : forall c m c' n, send c m = Ok c' -> HasStatement c' n = HasStatement c n).

Lemma replay_stmts_mono order c c' n :
  replay_stmts send c order = Ok c' -> HasStatement c n = true -> HasStatement c' n = true.
Proof using send_keeps.
  revert c. induction order as [|[name q] order IH]; intros c; simpl; [by intros [= ->]|].
  destruct (HasStatement c name); [by apply IH|].
  intros (c1 & H1 & H2)%result_bind_ok Hn. apply (IH _ H2).
  rewrite has_add, (send_keeps _ _ _ _ H1), Hn. done.
Qed.

Lemma replay_stmts_has order c c' n q :
  replay_stmts send c order = Ok c' -> (n, q) ∈ order -> n <> [] -> HasStatement c' n = true.
Proof using send_keeps.
  revert c. induction order as [|[name q'] order IH]; intros c; simpl; [set_solver|].
  intros H [Heq|Hin]%elem_of_cons Hne.
  - injection Heq as -> ->. destruct (HasStatement c name) eqn:E; [by eapply replay_stmts_mono|].
    apply result_bind_ok in H as (c1 & H1 & H2). eapply replay_stmts_mono; [exact H2|].
    rewrite has_add, bool_decide_true by done. by rewrite orb_true_r.
  - destruct (HasStatement c name); [by eapply IH|].
    apply result_bind_ok in H as (c1 & H1 & H2). by eapply IH.
Qed.

Lemma replay_stmts_noop order c :
  Forall (fun e => HasStatement c (fst e) = true) order -> replay_stmts send c order = Ok c.
Proof using.
  induction 1 as [|[name q] order H Ho IH]; [done|]. simpl in *. by rewrite H.
Qed.
End Statements.

(** A connection as the pool keeps it, reduced to the set it remembers. *)
#[global, program] Instance gset_holder : StatementHolder (gset bytes) := {
  HasStatement c n := bool_decide (n ∈ c);
  AddStatement c n := if decide (n = []) then c else {[n]} ∪ c
}.
Next Obligation.
  intros c n m. simpl. case_decide as Hn.
  - by rewrite (bool_decide_false (n = m /\ _)), orb_false_r by naive_solver.
  - apply eq_true_iff_eq. rewrite orb_true_iff, !bool_decide_eq_true. set_solver.
Qed.

(** ** Properties *)

(** C6: Whatever a client sends, the tracked session stays within its bounds:
    at most 64 settings and 256 prepared statements, every setting filed under
    the name its statement assigns and replayable as sent, and the pin set a
    [uint16]. *)
Theorem tracked_session_invariant (msgs : list (bytes * TransactionState)) :
  Forall (fun m => message_ok (fst m)) msgs ->
  session_inv (foldl exchange newSessionState msgs).
Proof. intros H. apply inv_exchanges; [done|apply inv_new]. Qed.

Lemma tracked_session_invariant_witness :
  session_inv (foldl exchange newSessionState
    [(replay_query_message (bs "SET search_path=public"), StateIdle);
     (replay_parse_message (bs "s1") (bs "SELECT $1"), StateIdle)]).
Proof.
  refine (tracked_session_invariant [(replay_query_message (bs "SET search_path=public"), StateIdle);
     (replay_parse_message (bs "s1") (bs "SELECT $1"), StateIdle)] _).
  apply List.Forall_forall. intros x [<-|[<-|[]]]; by_decide.
Defined.

(** C7: Replaying a tracked session writes messages which, read by the same
    tracker in whatever order the map was walked, rebuild exactly the settings
    the session held. *)
Theorem replay_rebuilds_settings (s : SessionState) (order : list (bytes * bytes)) :
  session_inv s -> order ≡ₚ map_to_list (Vars s) ->
  Vars (foldl (fun st e => TrackSessionState st (replay_query_message (snd e)))
          newSessionState order) = Vars s.
Proof.
  intros Hs Ho. rewrite track_replayed_all.
  - change (Vars newSessionState) with (∅ : gmap bytes bytes). by apply foldl_insert_order.
  - rewrite Ho. eapply Forall_impl; [|apply map_Forall_to_list, Hs]. by intros [].
  - simpl. rewrite map_size_empty, Ho, length_map_to_list. apply Hs.
Qed.

Lemma replay_rebuilds_settings_witness :
  Vars (foldl (fun st e => TrackSessionState st (replay_query_message (snd e))) newSessionState
    [(bs "work_mem", bs "SET work_mem='1MB'")]) = {[bs "work_mem" := bs "SET work_mem='1MB'"]}.
Proof.
  refine (replay_rebuilds_settings
    (set_Vars newSessionState {[bs "work_mem" := bs "SET work_mem='1MB'"]}) _ _ _).
  - constructor; cbn [Vars Stmts PinnedBy set_Vars newSessionState].
    + vm_compute. lia.
    + vm_compute. lia.
    + apply map_Forall_singleton. split_and!; by_decide.
    + apply map_Forall_empty.
    + lia.
  - reflexivity.
Defined.


Definition set_stmt (name value : string) : Client.statement := Client.Assign (bs "SET") false (bs name) (bs "=") (bs value).


(** Where the provisos fail the session is given up all the same, and what the
    client sent last is not what is tracked.  A SET that is prepared, as drivers
    that use the extended protocol send it; a SET behind another message; and a
    SET behind another statement of a batch, which is filed under the first. *)
Definition lost (rs : list (Client.request * TransactionState)) : bool :=
  let s := exchanges newSessionState rs in
  shouldRelease poolTransaction s (IsPinned s) && negb (bool_decide (Vars s = Client.settings_sent (map fst rs))).

Example prepared_set_lost :
  lost [([Client.Parse [] (set_stmt "search_path" "tenant_a") [NUL; NUL]; Client.Message (ch "S") []], StateIdle)] = true.
Proof. vm_compute. reflexivity. Qed.

Example pipelined_set_lost :
  lost [([Client.Query (Client.Other (bs "SELECT") (bs " 1")); Client.Query (set_stmt "search_path" "tenant_a")], StateIdle)] = true.
Proof. vm_compute. reflexivity. Qed.

(** The batch is filed whole under its first parameter; the later SET of the
    second is filed apart, and the order of the replay decides which wins. *)
Example batched_set_filed_under_first :
  Vars (foldl exchange newSessionState
    [(replay_query_message (bs "SET a=1; SET b=2"), StateIdle); (replay_query_message (bs "SET b=3"), StateIdle)])
  = {[bs "a" := bs "SET a=1; SET b=2"; bs "b" := bs "SET b=3"]}.
Proof. by_decide. Qed.

(** RESET and ROLLBACK undo a SET on the server and not here. *)
Example undone_settings_kept :
  Vars (foldl exchange newSessionState
    [(replay_query_message (bs "SET a=1"), StateIdle); (replay_query_message (bs "RESET a"), StateIdle);
     (replay_query_message (bs "BEGIN"), StateInTransaction); (replay_query_message (bs "SET b=1"), StateInTransaction);
     (replay_query_message (bs "ROLLBACK"), StateIdle)])
  = {[bs "a" := bs "SET a=1"; bs "b" := bs "SET b=1"]}.
Proof. by_decide. Qed.

(** A pin holds until something that lifts it: a session that took a
    reason other than a lock keeps its connection, in every pooling mode, as
    long as no later statement lifts that reason. *)
Theorem pin_holds (mode : poolingMode) (s : SessionState) (bit : Z)
    (msgs : list (bytes * TransactionState)) :
  0 <= bit -> bit <> 3 -> Z.testbit (PinnedBy s) bit = true ->
  Forall (fun m => Z.testbit (unpinReasonFor (extractQueryBytes (fst m))) bit = false) msgs ->
  let s' := foldl exchange s msgs in
  Z.testbit (PinnedBy s') bit = true /\ shouldRelease mode s' (IsPinned s') = false.
Proof.
  intros Hb H3 Hp Hm s'. assert (Z.testbit (PinnedBy s') bit = true) as Hp'.
  { subst s'. revert s Hp. induction Hm as [|m msgs Hm Hms IH]; intros s Hp; [done|].
    apply IH. by apply exchange_keeps_pin. }
  split; [done|]. unfold shouldRelease, shouldReleaseAt, IsPinned.
  destruct (Z.eqb_spec (PinnedBy s') 0) as [E|E]; [by rewrite E, Z.bits_0 in Hp'|].
  by rewrite orb_true_r.
Qed.

Lemma pin_holds_witness :
  shouldRelease poolTransaction
    (foldl exchange (set_PinnedBy newSessionState PinListen)
       [(replay_query_message (bs "SELECT 1"), StateIdle)])
    (IsPinned (foldl exchange (set_PinnedBy newSessionState PinListen)
       [(replay_query_message (bs "SELECT 1"), StateIdle)])) = false.
Proof.
  refine (proj2 (pin_holds poolTransaction (set_PinnedBy newSessionState PinListen) 0
    [(replay_query_message (bs "SELECT 1"), StateIdle)] _ _ _ _)); try done.
  apply List.Forall_forall. intros x [<-|[]]; reflexivity.
Defined.

(** After a successful replay the connection carries every named statement
    of the session, and replaying again sends nothing: a name the server
    already has is never parsed twice. *)
Theorem replay_statements_once {Conn : Type} `{!StatementHolder Conn}
    (send : Conn -> bytes -> result bytes Conn) (c c' : Conn) (order : list (bytes * bytes)) :
  (forall c m c1 n, send c m = Ok c1 -> HasStatement c1 n = HasStatement c n) ->
  Forall (fun e => fst e <> []) order ->
  replay_stmts send c order = Ok c' ->
  Forall (fun e => HasStatement c' (fst e) = true) order /\ replay_stmts send c' order = Ok c'.
Proof.
  intros Hk Hn H.
  assert (Forall (fun e => HasStatement c' (fst e) = true) order) as Hh.
  { apply List.Forall_forall. intros [n q] Hin. rewrite List.Forall_forall in Hn.
    eapply replay_stmts_has; [done|done|by apply list_elem_of_In|]. by apply (Hn (n, q)). }
  split; [done|]. by apply replay_stmts_noop.
Qed.

Lemma replay_statements_once_witness :
  replay_stmts (Conn:=gset bytes) (fun c _ => Ok c) {[bs "s1"; bs "s2"]}
    [(bs "s1", bs "SELECT 1"); (bs "s2", bs "SELECT 2")] = Ok {[bs "s1"; bs "s2"]}.
Proof.
  refine (proj2 (replay_statements_once (Conn:=gset bytes) (fun c _ => Ok c) {[bs "s1"]}
    {[bs "s1"; bs "s2"]} [(bs "s1", bs "SELECT 1"); (bs "s2", bs "SELECT 2")] _ _ _)).
  - by intros c m c1 n [= ->].
  - apply List.Forall_forall. intros x [<-|[<-|[]]]; done.
  - vm_compute. reflexivity.
Defined.

(** DISCARD ALL resets every setting on the server, but the tracked settings
    survive it and would be replayed onto the next connection. *)
Example discard_all_keeps_settings :
  Vars (foldl exchange newSessionState
    [(replay_query_message (bs "SET search_path=tenant_a"), StateIdle);
     (replay_query_message (bs "DISCARD ALL"), StateIdle)])
  = {[bs "search_path" := bs "SET search_path=tenant_a"]}.
Proof. by_decide. Qed.

(** A LOCK outside a transaction block, which the server refuses, still pins
    the session: the reply leaves it idle, and it was idle before. *)
Example refused_lock_pins :
  IsPinned (exchange newSessionState (replay_query_message (bs "LOCK TABLE t"), StateIdle)) = true.
Proof. vm_compute. reflexivity. Qed.
