(* ===== verification/Startup.v ===== *)
(** * The startup phase

    [postgres_startup.go], [startup_rewrite.go], [startup_reader.go], the
    client half of [client_tls.go], [PostgresHandler.ReadStartup] and
    [readClientStartup], and the name whitelists of [slot_name.go]. *)
From Stdlib Require Import ZArith Lia Strings.String.
From stdpp Require Import base gmap list numbers option.
From S2P Require Import Prelude Wire Scanner Session.

(** ** Startup parameters *)

(** [extractStartupParams]'s loop: key, value, repeat; a later value of the
    same key wins, an empty key or a missing value ends it. *)
Fixpoint startup_params_loop (fuel : nat) (payload : bytes) (user database replication : bytes)
  : bytes * bytes * bytes :=
  match fuel with
  | O => (user, database, replication)
  | S fuel =>
      match cut payload NUL with
      | None | Some ([], _) => (user, database, replication)
      | Some (key, payload) =>
          match cut payload NUL with
          | None => (user, database, replication)
          | Some (value, payload) =>
              if decide (key = bs "user") then
                startup_params_loop fuel payload value database replication
              else if decide (key = bs "database") then
                startup_params_loop fuel payload user value replication
              else if decide (key = bs "replication") then
                startup_params_loop fuel payload user database value
              else startup_params_loop fuel payload user database replication
          end
      end
  end.

Definition extractStartupParams (raw : bytes) : bytes * bytes * bytes :=
  if decide (length raw <= 8)%nat then ([], [], [])
  else startup_params_loop (length raw) (drop 8 raw) [] [] [].

(** [RewriteStartupDatabase]'s loop over the parameters. *)
Fixpoint rewrite_loop (fuel : nat) (payload database out : bytes) (replaced : bool)
  : result wire_err (bytes * bool) :=
  match fuel with
  | O => Ok (out, replaced)
  | S fuel =>
      match cut payload NUL with
      | None | Some ([], _) => Ok (out, replaced)
      | Some (key, payload) =>
          match cut payload NUL with
          | None => Err (ErrParamNoValue key)
          | Some (value, payload) =>
              let '(value, replaced) :=
                if decide (key = bs "database") then (database, true) else (value, replaced) in
              rewrite_loop fuel payload database
                (out ++ key ++ [NUL] ++ value ++ [NUL]) replaced
          end
      end
  end.

(** [RewriteStartupDatabase]. *)
Definition RewriteStartupDatabase (raw database : bytes) : result wire_err bytes :=
  if decide (length raw <= 8)%nat then Err ErrStartupTooShort
  else
    '(out, replaced) ← rewrite_loop (length raw) (drop 8 raw) database (take 4 (drop 4 raw)) false;
    let out := if replaced : bool then out
               else out ++ bs "database" ++ [NUL] ++ database ++ [NUL] in
    let out := out ++ [NUL] in
    Ok (put_uint32 (zlen out + 4) ++ out).

(** [IsReplication]. *)
Definition IsReplication (value : bytes) : bool :=
  negb (bool_decide (ToLower_ascii (TrimSpace value)
                     ∈ [[]; bs "false"; bs "off"; bs "no"; bs "0"])).

(** ** The client's opening packets *)

(** A client connection: what it will still send, and what was written to it. *)
Record ClientConn := { cc_in : bytes; cc_out : bytes }.

Definition cc_write (c : ClientConn) (b : bytes) : ClientConn :=
  {| cc_in := cc_in c; cc_out := cc_out c ++ b |}.

Definition cc_read (c : ClientConn) (rest : bytes) : ClientConn :=
  {| cc_in := rest; cc_out := cc_out c |}.

Section Negotiation.
(** The configured certificate: [None] when there is none, otherwise the TLS
    handshake of [crypto/tls], from the raw stream to the decrypted one. *)
Context (ClientTLS : option (bytes -> result wire_err bytes)).

(** [negotiateTLS]. *)
Definition negotiateTLS (client : ClientConn) : result wire_err ClientConn :=
  match ClientTLS with
  | None => Ok (cc_write client [ch "N"])
  | Some handshake =>
      let client := cc_write client [ch "S"] in
      rest ← handshake (cc_in client); Ok (cc_read client rest)
  end.

(** [readClientStartup]: [n] packets are read at most; the code allows two. *)
Fixpoint read_client_startup_loop (n : nat) (client : ClientConn)
  : result wire_err (startupPacket * ClientConn) :=
  match n with
  | O => Err ErrNoStartup
  | S n =>
      '(pkt, rest) ← readStartupPacket (cc_in client);
      let client := cc_read client rest in
      if decide (sp_code pkt = sslRequestCode) then
        client ← negotiateTLS client; read_client_startup_loop n client
      else if decide (sp_code pkt = gssEncRequestCode) then
        read_client_startup_loop n (cc_write client [ch "N"])
      else Ok (pkt, client)
  end.

Definition readClientStartup (client : ClientConn) : result wire_err (startupPacket * ClientConn) :=
  read_client_startup_loop 2 client.

(** What [ReadStartup] hands back. *)
Inductive StartupRequest :=
| StartCancel (key : option CancelKey)
| StartReplicationRequested
| StartSession (raw user database replication : bytes).

(** [ReadStartup]: the session fields it fills in and the request. *)
Definition ReadStartup (client : ClientConn) (state : SessionState)
  : result wire_err (StartupRequest * SessionState * ClientConn) :=
  '(pkt, client) ← readClientStartup client;
  let '(user, database, replication) := extractStartupParams (sp_raw pkt) in
  let database := if decide (database = []) then user else database in
  let state' packet :=
    {| StartupPacket := packet; Replication := replication; Vars := Vars state;
       Stmts := Stmts state; TxState := TxState state; User := user; Database := database;
       LastLSN := LastLSN state; Pinned := Pinned state; BackendKey := BackendKey state;
       PinnedBy := PinnedBy state |} in
  if decide (sp_code pkt = cancelRequestCode)
  then Ok (StartCancel (parseCancelKey (sp_raw pkt)), state' (StartupPacket state), client)
  else if IsReplication replication
  then Ok (StartReplicationRequested, state' (sp_raw pkt), client)
  else Ok (StartSession (sp_raw pkt) user database replication,
           state' (StartupPacket state), client).
End Negotiation.

(** ** Relaying authentication *)

(** [authRequest]. *)
Definition authRequest (m : message) : Z * bool :=
  match body m with
  | a :: b :: c :: d :: _ =>
      if decide (m_kind m = ch "R") then
        let subtype := be_uint32 a b c d in
        (subtype, bool_decide (subtype ∈ [2; 3; 5; 7; 8; 9; 10; 11]))
      else (0, false)
  | _ => (0, false)
  end.

Inductive relay_result :=
| RelayOk
| RelayServerRead (e : wire_err)
| RelayRejected
| RelayClientRead (e : wire_err).

Record relay_state := {
  r_server : bytes;      (* what the server will still send *)
  r_client : bytes;      (* what the client will still send *)
  r_to_client : bytes;   (* forwarded to the client *)
  r_to_server : bytes;   (* forwarded to the server *)
  r_key : bytes          (* [state.BackendKey] *)
}.

(** [relayAuth], on connections whose writes succeed.  Each turn consumes a
    message of at least five bytes from the server. *)
Fixpoint relay_loop (fuel : nat) (s : relay_state) : relay_state * relay_result :=
  match fuel with
  | O => (s, RelayServerRead io_EOF)
  | S fuel =>
      match readMessage (r_server s) with
      | Err e => (s, RelayServerRead e)
      | Ok (msg, server) =>
          let s := {| r_server := server; r_client := r_client s;
                      r_to_client := r_to_client s ++ m_raw msg;
                      r_to_server := r_to_server s; r_key := r_key s |} in
          if decide (m_kind msg = ch "K") then
            relay_loop fuel {| r_server := r_server s; r_client := r_client s;
              r_to_client := r_to_client s; r_to_server := r_to_server s;
              r_key := drop 5 (m_raw msg) |}
          else if decide (m_kind msg = ch "Z") then (s, RelayOk)
          else if decide (m_kind msg = ch "E") then (s, RelayRejected)
          else if decide (m_kind msg = ch "R") then
            if snd (authRequest msg) then
              match readMessage (r_client s) with
              | Err e => (s, RelayClientRead e)
              | Ok (reply, client) =>
                  relay_loop fuel {| r_server := r_server s; r_client := client;
                    r_to_client := r_to_client s; r_to_server := r_to_server s ++ m_raw reply;
                    r_key := r_key s |}
              end
            else relay_loop fuel s
          else relay_loop fuel s
      end
  end.

Definition relayAuth (s : relay_state) : relay_state * relay_result :=
  relay_loop (S (length (r_server s))) s.

(** ** Names assembled into statements *)

Definition maxSlotNameLen : nat := 63.

Inductive name_err := NameEmpty | NameTooLong | NameChar.

Definition slot_byte (c : byte) : bool :=
  bool_decide (bval (ch "a") <= bval c <= bval (ch "z")) ||
  bool_decide (bval (ch "0") <= bval c <= bval (ch "9")) || bool_decide (c = ch "_").

Definition plugin_byte (c : byte) : bool :=
  slot_byte c || bool_decide (bval (ch "A") <= bval c <= bval (ch "Z")).

(** [ValidateSlotName]; a byte outside ASCII is part of a rune the whitelist
    refuses, so testing bytes and testing runes agree. *)
Definition ValidateSlotName (name : bytes) : result name_err unit :=
  if decide (name = []) then Err NameEmpty
  else if decide (maxSlotNameLen < length name)%nat then Err NameTooLong
  else if forallb slot_byte name then Ok tt else Err NameChar.

(** [ValidateOutputPlugin]. *)
Definition ValidateOutputPlugin (name : bytes) : result name_err unit :=
  if decide (name = []) then Err NameEmpty
  else if decide (maxSlotNameLen < length name)%nat then Err NameTooLong
  else if forallb plugin_byte name then Ok tt else Err NameChar.

(** The statements the whitelist protects, built with [fmt.Sprintf] by
    [CreateReplicationSlot] and [CreateLogicalReplicationSlot]. *)
Definition physical_slot_query (slotName : bytes) : result name_err bytes :=
  _ ← ValidateSlotName slotName;
  Ok (bs "SELECT pg_create_physical_replication_slot('" ++ slotName ++ bs "')").

Definition logical_slot_query (slotName plugin : bytes) : result name_err bytes :=
  _ ← ValidateSlotName slotName;
  _ ← ValidateOutputPlugin plugin;
  Ok (bs "SELECT pg_create_logical_replication_slot('" ++ slotName ++ bs "', '" ++ plugin
      ++ bs "')").

(** ** Startup packets as lists of parameters *)

Abbreviation params := (list (bytes * bytes)).

Definition param_bytes (kv : bytes * bytes) : bytes := fst kv ++ NUL :: snd kv ++ [NUL].
Definition params_bytes (kvs : params) : bytes := concat (map param_bytes kvs).

Definition startup_packet (version : bytes) (kvs : params) : bytes :=
  let out := version ++ params_bytes kvs ++ [NUL] in put_uint32 (zlen out + 4) ++ out.

#[global] Arguments startup_packet : simpl never.

Definition param_ok (kv : bytes * bytes) : Prop :=
  fst kv <> [] /\ NUL ∉ fst kv /\ NUL ∉ snd kv.

(** The value a parameter ends up with: the last one given. *)
Definition last_param (key : bytes) (kvs : params) (init : bytes) : bytes :=
  foldl (fun acc kv => if decide (fst kv = key) then snd kv else acc) init kvs.

(** The parameters after routing to another database: every "database" is
    replaced, and one is added when there was none. *)
Definition rewrite_params (kvs : params) (database : bytes) : params :=
  map (fun kv => if decide (fst kv = bs "database") then (fst kv, database) else kv) kvs ++
  (if existsb (fun kv => bool_decide (fst kv = bs "database")) kvs then []
   else [(bs "database", database)]).

Lemma param_cut_key kv rest :
  param_ok kv -> cut (param_bytes kv ++ rest) NUL = Some (fst kv, snd kv ++ NUL :: rest).
Proof.
  intros (_ & Hk & _). unfold param_bytes. rewrite <- app_assoc. cbn [app].
  rewrite <- app_assoc. by apply cut_app.
Qed.

Lemma startup_params_step fuel kv rest u d r :
  param_ok kv ->
  startup_params_loop (S fuel) (param_bytes kv ++ rest) u d r =
  startup_params_loop fuel rest
    (if decide (fst kv = bs "user") then snd kv else u)
    (if decide (fst kv = bs "database") then snd kv else d)
    (if decide (fst kv = bs "replication") then snd kv else r).
Proof.
  intros Hok. cbn [startup_params_loop]. rewrite param_cut_key by done.
  destruct kv as [k v]. destruct Hok as (Hk & _ & Hv). cbn [fst snd] in *.
  destruct k as [|x k]; [done|]. rewrite cut_app by done.
  set (key := x :: k). clearbody key.
  destruct (decide (key = bs "user")) as [->|]; [by rewrite !decide_False by done|].
  destruct (decide (key = bs "database")) as [->|]; [by rewrite !decide_False by done|].
  by destruct (decide (key = bs "replication")) as [->|].
Qed.

Lemma startup_params_end fuel u d r rest :
  startup_params_loop (S fuel) (NUL :: rest) u d r = (u, d, r).
Proof. done. Qed.

Lemma startup_params_all kvs fuel u d r rest :
  Forall param_ok kvs -> (length kvs <= fuel)%nat ->
  startup_params_loop (S fuel) (params_bytes kvs ++ NUL :: rest) u d r =
  (last_param (bs "user") kvs u, last_param (bs "database") kvs d,
   last_param (bs "replication") kvs r).
Proof.
  intros H. revert fuel u d r. induction H as [|kv kvs Hkv Hkvs IH]; intros fuel u d r Hf; [done|].
  destruct fuel as [|fuel]; [simpl in Hf; lia|].
  unfold params_bytes in *. cbn [map concat]. rewrite <- app_assoc, startup_params_step by done.
  rewrite IH by (simpl in Hf; lia). done.
Qed.

Lemma rewrite_loop_step fuel kv rest db out rep :
  param_ok kv ->
  rewrite_loop (S fuel) (param_bytes kv ++ rest) db out rep =
  rewrite_loop fuel rest db
    (out ++ param_bytes (if decide (fst kv = bs "database") then (fst kv, db) else kv))
    (rep || bool_decide (fst kv = bs "database")).
Proof.
  intros Hok. cbn [rewrite_loop]. rewrite param_cut_key by done.
  destruct kv as [k v]. destruct Hok as (Hk & _ & Hv). cbn [fst snd] in *.
  destruct k as [|x k]; [done|]. rewrite cut_app by done.
  set (key := x :: k). clearbody key. unfold param_bytes.
  destruct (decide (key = bs "database")) as [E|E].
  - rewrite bool_decide_true, orb_true_r by done. done.
  - rewrite bool_decide_false, orb_false_r by done. done.
Qed.

Lemma rewrite_loop_all kvs fuel db out rep rest :
  Forall param_ok kvs -> (length kvs <= fuel)%nat ->
  rewrite_loop (S fuel) (params_bytes kvs ++ NUL :: rest) db out rep =
  Ok (out ++ params_bytes (map (fun kv => if decide (fst kv = bs "database")
                                         then (fst kv, db) else kv) kvs),
      rep || existsb (fun kv => bool_decide (fst kv = bs "database")) kvs).
Proof.
  intros H. revert fuel out rep. induction H as [|kv kvs Hkv Hkvs IH]; intros fuel out rep Hf.
  - unfold params_bytes. simpl. by rewrite app_nil_r, orb_false_r.
  - destruct fuel as [|fuel]; [simpl in Hf; lia|].
    unfold params_bytes in *. cbn [map concat existsb].
    rewrite <- app_assoc, rewrite_loop_step by done.
    rewrite IH by (simpl in Hf; lia). by rewrite <- !app_assoc, orb_assoc.
Qed.

Lemma length_params kvs : (length kvs <= length (params_bytes kvs))%nat.
Proof.
  induction kvs as [|kv kvs IH]; [done|]. unfold params_bytes in *. cbn [map concat length].
  rewrite length_app. unfold param_bytes at 1. rewrite length_app. simpl. lia.
Qed.

Lemma startup_packet_split version kvs :
  length version = 4%nat ->
  (8 < length (startup_packet version kvs))%nat /\
  take 4 (drop 4 (startup_packet version kvs)) = version /\
  drop 8 (startup_packet version kvs) = params_bytes kvs ++ [NUL].
Proof.
  intros Hv. unfold startup_packet.
  destruct (put_uint32_cases (zlen (version ++ params_bytes kvs ++ [NUL]) + 4))
    as (a & b & c & d & -> & _).
  destruct version as [|v1 [|v2 [|v3 [|v4 [|]]]]]; try done. simpl.
  rewrite length_app. simpl. split; [lia|done].
Qed.

Lemma extractStartupParams_packet version kvs :
  length version = 4%nat -> Forall param_ok kvs ->
  extractStartupParams (startup_packet version kvs) =
  (last_param (bs "user") kvs [], last_param (bs "database") kvs [],
   last_param (bs "replication") kvs []).
Proof.
  intros Hv Hk. destruct (startup_packet_split version kvs Hv) as (Hl & _ & Hd).
  unfold extractStartupParams. rewrite decide_False by lia. rewrite Hd.
  destruct (length (startup_packet version kvs)) as [|n] eqn:E; [lia|].
  apply startup_params_all; [done|]. pose proof (length_params kvs).
  apply (f_equal length) in Hd. rewrite length_drop, length_app, E in Hd.
  change (length [NUL]) with 1%nat in Hd. lia.
Qed.

Lemma last_param_rewrite key kvs db init :
  last_param key (rewrite_params kvs db) init =
  if decide (key = bs "database") then db else last_param key kvs init.
Proof.
  unfold last_param, rewrite_params. rewrite foldl_app.
  set (f := fun (acc : bytes) (kv : bytes * bytes) => if decide (fst kv = key) then snd kv else acc).
  set (g := fun kv : bytes * bytes => if decide (fst kv = bs "database") then (fst kv, db) else kv).
  destruct (decide (key = bs "database")) as [->|Hk].
  - assert (forall l i, foldl f i (map g l) =
      if existsb (fun kv => bool_decide (fst kv = bs "database")) l then db else i) as H.
    { intros l. induction l as [|[k v] l IH]; intros i; [done|]. cbn [map foldl existsb fst].
      rewrite IH. unfold f, g. cbn [fst snd].
      destruct (decide (k = bs "database")) as [->|Hn]; cbn [fst snd].
      - rewrite decide_True, bool_decide_true by done. simpl. by destruct (existsb _ l).
      - by rewrite decide_False, bool_decide_false by done. }
    rewrite H. destruct (existsb _ kvs); [done|]. simpl. unfold f. by rewrite decide_True.
  - assert (forall l i, foldl f i (map g l) = foldl f i l) as H.
    { intros l. induction l as [|[k v] l IH]; intros i; [done|]. cbn [map foldl].
      rewrite IH. f_equal. unfold f, g. cbn [fst snd].
      destruct (decide (k = bs "database")) as [->|Hn]; [|done]. cbn [fst snd].
      by rewrite !decide_False by done. }
    rewrite H. destruct (existsb _ kvs); [done|]. simpl. unfold f at 1. cbn [fst].
    by rewrite decide_False by done.
Qed.

Lemma params_bytes_app a b : params_bytes (a ++ b) = params_bytes a ++ params_bytes b.
Proof. unfold params_bytes. by rewrite map_app, concat_app. Qed.

Lemma RewriteStartupDatabase_packet version kvs db :
  length version = 4%nat -> Forall param_ok kvs ->
  RewriteStartupDatabase (startup_packet version kvs) db =
  Ok (startup_packet version (rewrite_params kvs db)).
Proof.
  intros Hv Hk. destruct (startup_packet_split version kvs Hv) as (Hl & Hver & Hd).
  unfold RewriteStartupDatabase. rewrite decide_False by lia. rewrite Hd, Hver.
  destruct (length (startup_packet version kvs)) as [|n] eqn:E; [lia|].
  rewrite rewrite_loop_all; [|done|].
  - cbn [mbind result_bind orb]. unfold startup_packet, rewrite_params.
    rewrite params_bytes_app. destruct (existsb _ kvs).
    + change (params_bytes []) with (@nil byte). by rewrite app_nil_r, <- !app_assoc.
    + change (params_bytes [(bs "database", db)])
        with ((bs "database" ++ [NUL] ++ db ++ [NUL]) ++ []).
      by rewrite app_nil_r, <- !app_assoc.
  - pose proof (length_params kvs). apply (f_equal length) in Hd.
    rewrite length_drop, length_app, E in Hd. change (length [NUL]) with 1%nat in Hd. lia.
Qed.

(** ** Reading the opening packets *)

Lemma readStartupPacket_app b rest :
  8 <= zlen b + 4 <= maxStartupLen ->
  exists code, readStartupPacket ((put_uint32 (zlen b + 4) ++ b) ++ rest) =
    Ok ({| sp_raw := put_uint32 (zlen b + 4) ++ b; sp_code := code |}, rest) /\
    (forall z tail, b = put_uint32 z ++ tail -> code = u32 z).
Proof.
  intros Hb. change maxStartupLen with 10240 in Hb.
  destruct (put_uint32_cases (zlen b + 4)) as (x0 & x1 & x2 & x3 & E & Hv).
  rewrite u32_small in Hv by lia.
  destruct b as [|e [|f [|g [|h b]]]]; try (exfalso; unfold zlen in Hb; simpl in Hb; lia).
  exists (be_uint32 e f g h). rewrite E. split.
  - unfold readStartupPacket. rewrite <- app_assoc, ReadFull_app by done.
    cbn [mbind result_bind]. rewrite Hv.
    rewrite decide_False by (change maxStartupLen with 10240; lia).
    rewrite ReadFull_app by (unfold zlen; simpl; lia). done.
  - intros z tail Hz. destruct (put_uint32_cases z) as (y0 & y1 & y2 & y3 & Ez & Hz').
    rewrite Ez in Hz. injection Hz as -> -> -> -> ->. done.
Qed.

(** An eight-byte SSLRequest or GSSENCRequest. *)
Definition request_packet (code : Z) : bytes := put_uint32 8 ++ put_uint32 code.

Lemma readStartupPacket_request code rest :
  0 <= code < 2 ^ 32 ->
  readStartupPacket (request_packet code ++ rest) =
  Ok ({| sp_raw := request_packet code; sp_code := code |}, rest).
Proof.
  intros Hc. destruct (readStartupPacket_app (put_uint32 code) rest) as (c & H & Hcode).
  { change (zlen (put_uint32 code)) with 4. change maxStartupLen with 10240. lia. }
  rewrite (Hcode code []) in H by (by rewrite app_nil_r). rewrite u32_small in H by done.
  exact H.
Qed.

Definition is_encryption_request (code : Z) : Prop :=
  code = sslRequestCode \/ code = gssEncRequestCode.

Lemma declined_request n code rest out :
  is_encryption_request code ->
  read_client_startup_loop None (S n) {| cc_in := request_packet code ++ rest; cc_out := out |} =
  read_client_startup_loop None n {| cc_in := rest; cc_out := out ++ [ch "N"] |}.
Proof.
  intros Hc. cbn [read_client_startup_loop cc_in].
  rewrite readStartupPacket_request by (destruct Hc as [->| ->]; vm_compute; split; congruence).
  cbn [mbind result_bind sp_code]. destruct Hc as [->| ->]; done.
Qed.

Lemma accepted_startup n b rest out :
  8 <= zlen b + 4 <= maxStartupLen ->
  (forall code tail, is_encryption_request code -> b <> put_uint32 code ++ tail) ->
  exists code,
    read_client_startup_loop None (S n)
      {| cc_in := (put_uint32 (zlen b + 4) ++ b) ++ rest; cc_out := out |} =
    Ok ({| sp_raw := put_uint32 (zlen b + 4) ++ b; sp_code := code |},
        {| cc_in := rest; cc_out := out |}).
Proof.
  intros Hb Hn. destruct b as [|e [|f [|g [|h b]]]];
    try (exfalso; unfold zlen in Hb; simpl in Hb; lia).
  destruct (readStartupPacket_app (e :: f :: g :: h :: b) rest Hb) as (code & H & Hcode).
  exists code. cbn [read_client_startup_loop cc_in]. rewrite H. cbn [mbind result_bind sp_code].
  assert (code = be_uint32 e f g h) as Ec.
  { rewrite (Hcode (be_uint32 e f g h) b) by (by rewrite put_uint32_be).
    apply u32_small, be_uint32_range. }
  assert (forall c, is_encryption_request c -> code <> c) as Hne.
  { intros c Hc ->. apply (Hn _ b Hc). rewrite Ec. by rewrite put_uint32_be. }
  rewrite !decide_False by (apply Hne; by (left + right)). done.
Qed.

(** ** The authentication relay, message by message *)

Definition wants_reply (m : byte * bytes) : bool :=
  snd (authRequest {| m_kind := fst m; m_raw := frame m |}).

Definition startup_sized (m : byte * bytes) : Prop := zlen (snd m) + 4 <= maxStartupMsgLen.

Definition last_key (msgs : list (byte * bytes)) (init : bytes) : bytes :=
  foldl (fun k m => if decide (fst m = ch "K") then snd m else k) init msgs.

Lemma readMessage_frame m rest :
  startup_sized m ->
  readMessage (frame m ++ rest) = Ok ({| m_kind := fst m; m_raw := frame m |}, rest).
Proof. intros H. by apply readMessage_app. Qed.

Lemma frames_cons m msgs : frames (m :: msgs) = frame m ++ frames msgs.
Proof. done. Qed.

Lemma relay_loop_spec msgs fuel t replies srest crest tc ts key :
  Forall startup_sized (msgs ++ [t]) -> Forall startup_sized replies ->
  Forall (fun m => fst m <> ch "Z" /\ fst m <> ch "E") msgs ->
  fst t = ch "Z" \/ fst t = ch "E" ->
  length replies = length (List.filter wants_reply msgs) ->
  (length msgs < fuel)%nat ->
  relay_loop fuel {| r_server := frames (msgs ++ [t]) ++ srest; r_client := frames replies ++ crest;
                     r_to_client := tc; r_to_server := ts; r_key := key |} =
  ({| r_server := srest; r_client := crest; r_to_client := tc ++ frames (msgs ++ [t]);
      r_to_server := ts ++ frames replies; r_key := last_key msgs key |},
   if decide (fst t = ch "Z") then RelayOk else RelayRejected).
Proof.
  revert fuel replies tc ts key. induction msgs as [|m msgs IH];
    intros fuel replies tc ts key Hs Hr Hn Ht Hl Hf; (destruct fuel as [|fuel]; [lia|]).
  - destruct replies; [|done]. cbn [app] in *. inversion Hs; subst.
    unfold frames. cbn [map concat app]. cbn [relay_loop r_server].
    rewrite !app_nil_r, readMessage_frame by done. cbn [m_kind m_raw].
    destruct Ht as [->| ->]; done.
  - cbn [app] in *. inversion Hs; inversion Hn as [|?? [Hz He] Hn']; subst.
    rewrite !frames_cons. cbn [relay_loop r_server].
    rewrite <- app_assoc, readMessage_frame by done. cbn [m_kind m_raw r_client r_to_client r_to_server r_key].
    rewrite !(app_assoc tc). cbn [List.filter] in Hl. unfold last_key. cbn [foldl].
    destruct (decide (fst m = ch "K")) as [Ek|Ek].
    { rewrite IH; try done; [|simpl in Hf; lia].
      unfold wants_reply, authRequest in Hl. cbn [m_kind] in Hl. rewrite Ek in Hl.
      destruct (body _) as [|? [|? [|? [|? ?]]]]; done. }
    rewrite !(decide_False (P := fst m = ch "Z")), (decide_False (P := fst m = ch "E")) by done.
    unfold wants_reply in Hl. destruct (decide (fst m = ch "R")) as [Er|Er].
    + destruct (authRequest _).2 eqn:Ea; [|rewrite IH; try done; simpl in Hf; lia].
      destruct replies as [|r replies]; [done|]. inversion Hr; subst.
      rewrite !frames_cons, <- app_assoc, readMessage_frame by done. cbn [m_raw].
      injection Hl as Hl. rewrite IH; try done; [by rewrite <- !app_assoc|simpl in Hf; lia].
    + assert ((authRequest {| m_kind := fst m; m_raw := frame m |}).2 = false) as Ea.
      { unfold authRequest. cbn [m_kind].
        destruct (body _) as [|? [|? [|? [|? ?]]]]; try done. by rewrite decide_False. }
      rewrite Ea in Hl. rewrite IH; try done. simpl in Hf; lia.
Qed.

(** ** Properties *)

(** Routing a session to another database rewrites the startup packet so
    that the backend is asked for exactly that database, whether the client
    named one, named several or named none; every other parameter, in
    particular the user and the replication mode, is what the client sent. *)
Theorem rewritten_startup (version database : bytes) (kvs : params) :
  length version = 4%nat -> Forall param_ok kvs -> NUL ∉ database ->
  exists raw',
    RewriteStartupDatabase (startup_packet version kvs) database = Ok raw' /\
    raw' = startup_packet version (rewrite_params kvs database) /\
    extractStartupParams raw' =
      (fst (fst (extractStartupParams (startup_packet version kvs))), database,
       snd (extractStartupParams (startup_packet version kvs))).
Proof.
  intros Hv Hk Hd. eexists. split; [by apply RewriteStartupDatabase_packet|]. split; [done|].
  rewrite !extractStartupParams_packet; [|done|done|done|].
  - rewrite !last_param_rewrite. by rewrite decide_False, decide_True, decide_False by done.
  - apply Forall_app. split.
    + apply Forall_map. eapply Forall_impl; [|exact Hk]. intros [k v] (H1 & H2 & H3).
      simpl. case_decide; by split_and!.
    + destruct (existsb _ kvs); [constructor|]. apply Forall_singleton.
      split_and!; [done| by_decide |done].
Qed.

Lemma rewritten_startup_witness :
  exists raw',
    RewriteStartupDatabase
      (startup_packet (put_uint32 196608) [(bs "user", bs "ann"); (bs "database", bs "app")])
      (bs "app_prod") = Ok raw' /\
    raw' = startup_packet (put_uint32 196608)
             (rewrite_params [(bs "user", bs "ann"); (bs "database", bs "app")] (bs "app_prod")) /\
    extractStartupParams raw' = (bs "ann", bs "app_prod", []).
Proof.
  refine (rewritten_startup (put_uint32 196608) (bs "app_prod")
    [(bs "user", bs "ann"); (bs "database", bs "app")] _ _ _).
  - reflexivity.
  - apply List.Forall_forall. intros x [<-|[<-|[]]]; split_and!; by_decide.
  - by_decide.
Defined.

(** The startup packet a client sends once encryption is settled. *)
Definition plain_startup (b : bytes) : Prop :=
  8 <= zlen b + 4 <= maxStartupLen /\
  forall code tail, is_encryption_request code -> b <> put_uint32 code ++ tail.

(** Without a certificate, a client that asks for encryption is answered
    'N' once and its next packet is then taken as the startup packet, byte for
    byte; a client that asks for nothing is not answered at all; and a client
    that asks twice, once for TLS and once for GSSAPI in either order, is never
    admitted, whatever it sends next. *)
Theorem encryption_negotiation (b rest : bytes) :
  plain_startup b ->
  (exists code,
    readClientStartup None {| cc_in := (put_uint32 (zlen b + 4) ++ b) ++ rest; cc_out := [] |} =
    Ok ({| sp_raw := put_uint32 (zlen b + 4) ++ b; sp_code := code |},
        {| cc_in := rest; cc_out := [] |})) /\
  (forall req, is_encryption_request req -> exists code,
    readClientStartup None
      {| cc_in := request_packet req ++ (put_uint32 (zlen b + 4) ++ b) ++ rest; cc_out := [] |} =
    Ok ({| sp_raw := put_uint32 (zlen b + 4) ++ b; sp_code := code |},
        {| cc_in := rest; cc_out := [ch "N"] |})) /\
  (forall req req', is_encryption_request req -> is_encryption_request req' ->
    readClientStartup None
      {| cc_in := request_packet req ++ request_packet req' ++ (put_uint32 (zlen b + 4) ++ b) ++ rest;
         cc_out := [] |} = Err ErrNoStartup).
Proof.
  intros [Hb Hn]. unfold readClientStartup. split_and!.
  - by apply accepted_startup.
  - intros req Hr. rewrite declined_request by done. by apply accepted_startup.
  - intros req req' Hr Hr'. by rewrite !declined_request by done.
Qed.

Definition ann_startup : bytes := put_uint32 196608 ++ bs "user" ++ [NUL] ++ bs "ann" ++ [NUL; NUL].

Lemma encryption_negotiation_witness :
  exists code,
    readClientStartup None
      {| cc_in := request_packet gssEncRequestCode
                  ++ (put_uint32 (zlen ann_startup + 4) ++ ann_startup) ++ [];
         cc_out := [] |} =
    Ok ({| sp_raw := put_uint32 (zlen ann_startup + 4) ++ ann_startup; sp_code := code |},
        {| cc_in := []; cc_out := [ch "N"] |}).
Proof.
  refine (proj1 (proj2 (encryption_negotiation ann_startup [] _)) gssEncRequestCode _).
  - split; [by_decide|]. intros code tail [->| ->]; vm_compute; congruence.
  - right; reflexivity.
Defined.

(** C16: The authentication relay is transparent.  Whatever exchange the server
    conducts, every message it sends reaches the client and every reply the
    client owes reaches the server, verbatim, in order and nothing else; the
    relay stops at the first ReadyForQuery or ErrorResponse, consuming nothing
    beyond it, succeeds exactly on ReadyForQuery, and remembers the last
    BackendKeyData it saw. *)
Theorem relay_transparent (msgs replies : list (byte * bytes)) (t : byte * bytes)
    (srest crest key : bytes) :
  Forall startup_sized (msgs ++ [t]) -> Forall startup_sized replies ->
  Forall (fun m => fst m <> ch "Z" /\ fst m <> ch "E") msgs ->
  fst t = ch "Z" \/ fst t = ch "E" ->
  length replies = length (List.filter wants_reply msgs) ->
  let '(s, res) :=
    relayAuth {| r_server := frames (msgs ++ [t]) ++ srest; r_client := frames replies ++ crest;
                 r_to_client := []; r_to_server := []; r_key := key |} in
  r_to_client s = frames (msgs ++ [t]) /\ r_to_server s = frames replies /\
  r_server s = srest /\ r_client s = crest /\ r_key s = last_key msgs key /\
  (res = RelayOk <-> fst t = ch "Z").
Proof.
  intros Hs Hr Hn Ht Hl. unfold relayAuth.
  rewrite relay_loop_spec; try done.
  - split_and!; try done. case_decide; naive_solver.
  - cbn [r_server]. rewrite length_app. pose proof (length_frames (msgs ++ [t])) as H.
    rewrite length_app in H. simpl in H. lia.
Qed.

(** SCRAM: two server challenges, two client answers, then the session's key. *)
Definition scram_messages : list (byte * bytes) :=
  [(ch "R", put_uint32 10 ++ bs "SCRAM-SHA-256" ++ [NUL; NUL]); (ch "R", put_uint32 11 ++ bs "r=x");
   (ch "R", put_uint32 12 ++ bs "v=y"); (ch "R", put_uint32 0);
   (ch "K", put_uint32 7 ++ put_uint32 9)].

Definition scram_replies : list (byte * bytes) :=
  [(ch "p", bs "SCRAM-SHA-256"); (ch "p", bs "c=biws")].

Lemma relay_transparent_witness :
  let '(s, res) :=
    relayAuth {| r_server := frames (scram_messages ++ [(ch "Z", bs "I")]) ++ bs "next";
                 r_client := frames scram_replies ++ bs "query";
                 r_to_client := []; r_to_server := []; r_key := [] |} in
  r_to_client s = frames (scram_messages ++ [(ch "Z", bs "I")]) /\
  r_to_server s = frames scram_replies /\ r_server s = bs "next" /\ r_client s = bs "query" /\
  r_key s = put_uint32 7 ++ put_uint32 9 /\ (res = RelayOk <-> ch "Z" = ch "Z").
Proof.
  refine (relay_transparent scram_messages scram_replies (ch "Z", bs "I") (bs "next") (bs "query")
    [] _ _ _ _ _); try reflexivity.
  - apply List.Forall_forall. intros x Hx. repeat destruct Hx as [<-|Hx]; by_decide || done.
  - apply List.Forall_forall. intros x Hx. repeat destruct Hx as [<-|Hx]; by_decide || done.
  - apply List.Forall_forall. intros x Hx.
    repeat destruct Hx as [<-|Hx]; first [split; by_decide | done].
  - left; reflexivity.
Defined.
