(* ===== verification/Credentials.v ===== *)
(** * Password verifiers, SCRAM-SHA-256 and MD5

    Package [credentials]: the stored verifiers ([verifier.go]), both halves of
    the SCRAM exchange ([scram.go], [scram_client.go]), the MD5 exchange
    ([md5.go]), the bounded cache of verifiers ([cache.go]) and the two stores
    behind it ([file_store.go], [query_store.go]).

    Random bytes are inputs; an error of the random source is [None]. *)
From Stdlib Require Import ZArith Lia Strings.String.
From stdpp Require Import base gmap list numbers option.
From S2P Require Import Prelude Crypto.
#[local] Open Scope Z_scope.

(** ** Strings *)

(** [strings.HasPrefix]. *)
Definition HasPrefix (s p : bytes) : bool := bool_decide (take (length p) s = p).

(** [strings.Split] at one byte; never empty. *)
Fixpoint split_on (c : byte) (s : bytes) : list bytes :=
  match s with
  | [] => [[]]
  | x :: r =>
      if decide (x = c) then [] :: split_on c r
      else match split_on c r with f :: fs => (x :: f) :: fs | [] => [[x]] end
  end.

(** [strings.LastIndex], for a non-empty [sub]. *)
Fixpoint lastIndex (sub s : bytes) : option nat :=
  match s with
  | [] => None
  | _ :: r =>
      match lastIndex sub r with
      | Some i => Some (S i)
      | None => if HasPrefix s sub then Some 0%nat else None
      end
  end.

(** [strconv.Itoa] of a non-negative number below [10^20]. *)
Definition Itoa (n : Z) : bytes := if decide (n = 0) then [ch "0"] else put_digits 20 n [].

(** ** Verifiers *)

Inductive Method := MethodSCRAM | MethodMD5 | MethodNone.

#[global] Instance Method_eq_dec : EqDecision Method.
Proof. solve_decision. Defined.

Record SCRAMVerifier := { Iterations : Z; Salt : bytes; StoredKey : bytes; ServerKey : bytes }.

(** [SCRAM] is a pointer; [None] is nil. *)
Record Verifier := { v_Method : Method; v_MD5 : bytes; v_SCRAM : option SCRAMVerifier }.

Inductive cred_err :=
| ErrUnknownUser | ErrUnsupportedVerifier | ErrAuthFailed | ErrChannelBindingUnsupported
| ErrProtocol | ErrQuotedName | ErrPermissions | ErrOther.

#[global] Instance cred_err_eq_dec : EqDecision cred_err.
Proof. solve_decision. Defined.

Definition isHex (s : bytes) : bool :=
  forallb (fun c => let z := bval c in
    bool_decide (48 <= z <= 57) || bool_decide (97 <= z <= 102) || bool_decide (65 <= z <= 70)) s.

Definition or_err {E A} (e : E) (o : option A) : result E A :=
  match o with Some a => Ok a | None => Err e end.

(** [parseSCRAM]. *)
Definition parseSCRAM (body : bytes) : result cred_err SCRAMVerifier :=
  '(saltPart, keyPart) ← or_err ErrUnsupportedVerifier (cut body (ch "$"));
  '(iterText, saltB64) ← or_err ErrUnsupportedVerifier (cut saltPart (ch ":"));
  iterations ← or_err ErrUnsupportedVerifier (ParseInt64 iterText);
  if decide (iterations <= 0) then Err ErrUnsupportedVerifier
  else
    '(storedB64, serverB64) ← or_err ErrUnsupportedVerifier (cut keyPart (ch ":"));
    salt ← or_err ErrUnsupportedVerifier (b64_decode saltB64);
    storedKey ← or_err ErrUnsupportedVerifier (b64_decode storedB64);
    serverKey ← or_err ErrUnsupportedVerifier (b64_decode serverB64);
    if decide (length storedKey <> 32%nat \/ length serverKey <> 32%nat) then Err ErrUnsupportedVerifier
    else Ok {| Iterations := iterations; Salt := salt; StoredKey := storedKey; ServerKey := serverKey |}.

Definition scram_prefix : bytes := bs "SCRAM-SHA-256$".

(** [ParseVerifier]. *)
Definition ParseVerifier (stored : bytes) : result cred_err Verifier :=
  let stored := TrimSpace stored in
  if decide (stored = []) then Ok {| v_Method := MethodNone; v_MD5 := []; v_SCRAM := None |}
  else if HasPrefix stored scram_prefix then
    scram ← parseSCRAM (drop (length scram_prefix) stored);
    Ok {| v_Method := MethodSCRAM; v_MD5 := []; v_SCRAM := Some scram |}
  else if HasPrefix stored (bs "md5") && bool_decide (length stored = 35%nat) then
    let hash := drop 3 stored in
    if negb (isHex hash) then Err ErrUnsupportedVerifier
    else Ok {| v_Method := MethodMD5; v_MD5 := hash; v_SCRAM := None |}
  else Err ErrUnsupportedVerifier.

(** How PostgreSQL prints a SCRAM verifier, [pg_authid.rolpassword]. *)
Definition print_SCRAM (v : SCRAMVerifier) : bytes :=
  scram_prefix ++ Itoa (Iterations v) ++ ch ":" :: b64_encode (Salt v) ++ ch "$" ::
  b64_encode (StoredKey v) ++ ch ":" :: b64_encode (ServerKey v).

(** ** SCRAM messages *)

(** [attr]. *)
Fixpoint attr_fields (fields : list bytes) (key : byte) : option bytes :=
  match fields with
  | [] => None
  | field :: rest =>
      match field with
      | k :: e :: value => if decide (k = key /\ e = ch "=") then Some value else attr_fields rest key
      | _ => attr_fields rest key
      end
  end.

Definition attr (message : bytes) (key : byte) : result cred_err bytes :=
  or_err ErrProtocol (attr_fields (split_on (ch ",") message) key).

(** [splitGS2]: [strings.SplitN(clientFirst, ",", 3)]. *)
Definition splitGS2 (clientFirst : bytes) : result cred_err (bytes * bytes) :=
  '(flag, rest) ← or_err ErrProtocol (cut clientFirst (ch ","));
  '(_, bare) ← or_err ErrProtocol (cut rest (ch ","));
  Ok (flag, bare).

(** [cutProof]. *)
Definition cutProof (clientFinal : bytes) : result cred_err (bytes * bytes) :=
  idx ← or_err ErrProtocol (lastIndex (bs ",p=") clientFinal);
  Ok (take idx clientFinal, drop (idx + 3) clientFinal).

(** [checkBinding]. *)
Definition checkBinding (binding : bytes) : result cred_err unit :=
  if decide (binding = bs "biws" \/ binding = bs "eSws") then Ok tt
  else if decide (binding = []) then Err ErrProtocol
  else Err ErrChannelBindingUnsupported.

(** [xorBytes]: an index beyond [b] panics, which is [None]. *)
Fixpoint xorBytes (a b : bytes) : option bytes :=
  match a, b with
  | [], _ => Some []
  | x :: a, y :: b => cons (byte_of (Z.lxor (bval x) (bval y))) <$> xorBytes a b
  | _ :: _, [] => None
  end.

Definition nonceBytes : nat := 18.

(** [newNonce]. *)
Definition newNonce (raw : option bytes) : result cred_err bytes :=
  match raw with Some raw => Ok (b64_encode raw) | None => Err ErrAuthFailed end.

(** ** The server's half *)

Record ScramServer := {
  ss_verifier : SCRAMVerifier; ss_clientFirstBare : bytes; ss_serverFirst : bytes; ss_nonce : bytes;
  ss_clientKey : option bytes
}.

(** [NewScramServer]. *)
Definition NewScramServer (verifier : option SCRAMVerifier) : result cred_err ScramServer :=
  match verifier with
  | None => Err ErrAuthFailed
  | Some v => Ok {| ss_verifier := v; ss_clientFirstBare := []; ss_serverFirst := []; ss_nonce := [];
                    ss_clientKey := None |}
  end.

(** [Begin]: the server-first message and the exchange it starts. *)
Definition Begin (s : ScramServer) (raw : option bytes) (clientFirst : bytes) : result cred_err (bytes * ScramServer) :=
  '(gs2, bare) ← splitGS2 clientFirst;
  if HasPrefix gs2 (bs "p=") then Err ErrChannelBindingUnsupported
  else
    clientNonce ← attr bare (ch "r");
    if decide (clientNonce = []) then Err ErrProtocol
    else
      serverNonce ← newNonce raw;
      let nonce := clientNonce ++ serverNonce in
      let serverFirst := bs "r=" ++ nonce ++ bs ",s=" ++ b64_encode (Salt (ss_verifier s)) ++ bs ",i=" ++
                         Itoa (Iterations (ss_verifier s)) in
      Ok (serverFirst, {| ss_verifier := ss_verifier s; ss_clientFirstBare := bare; ss_serverFirst := serverFirst;
                          ss_nonce := nonce; ss_clientKey := ss_clientKey s |}).

Definition set_clientKey (s : ScramServer) (k : bytes) : ScramServer :=
  {| ss_verifier := ss_verifier s; ss_clientFirstBare := ss_clientFirstBare s;
     ss_serverFirst := ss_serverFirst s; ss_nonce := ss_nonce s; ss_clientKey := Some k |}.

(** [Finish]: the server-final message and the server with the recovered key. *)
Definition Finish (s : ScramServer) (clientFinal : bytes) : result cred_err (bytes * ScramServer) :=
  if decide (ss_serverFirst s = []) then Err ErrProtocol
  else
    '(withoutProof, proofB64) ← cutProof clientFinal;
    gotNonce ← attr withoutProof (ch "r");
    if decide (gotNonce <> ss_nonce s) then Err ErrAuthFailed
    else
      binding ← attr withoutProof (ch "c");
      _ ← checkBinding binding;
      match b64_decode proofB64 with
      | Some proof =>
          if decide (length proof <> 32%nat) then Err ErrProtocol
          else
            let authMessage := ss_clientFirstBare s ++ bs "," ++ ss_serverFirst s ++ bs "," ++ withoutProof in
            let clientSignature := hmacSHA256 (StoredKey (ss_verifier s)) authMessage in
            match xorBytes proof clientSignature with
            | None => Err ErrOther        (* a panic; the lengths are equal *)
            | Some clientKey =>
                if decide (sha256 clientKey <> StoredKey (ss_verifier s)) then Err ErrAuthFailed
                else
                  let serverSignature := hmacSHA256 (ServerKey (ss_verifier s)) authMessage in
                  Ok (bs "v=" ++ b64_encode serverSignature, set_clientKey s clientKey)
            end
      | None => Err ErrProtocol
      end.

(** ** The client's half *)

Record ScramClient := {
  sl_user : bytes; sl_clientKey : bytes; sl_storedKey : bytes;
  sl_nonce : bytes; sl_firstBare : bytes; sl_authMsg : bytes
}.

(** [NewScramClient]. *)
Definition NewScramClient (user clientKey : bytes) : result cred_err ScramClient :=
  if decide (length clientKey <> 32%nat) then Err ErrAuthFailed
  else Ok {| sl_user := user; sl_clientKey := clientKey; sl_storedKey := sha256 clientKey;
             sl_nonce := []; sl_firstBare := []; sl_authMsg := [] |}.

(** [saslPrep]. *)
Fixpoint saslPrep (user : bytes) : bytes :=
  match user with
  | [] => []
  | c :: user =>
      (if decide (c = ch "=") then bs "=3D" else if decide (c = ch ",") then bs "=2C" else [c]) ++ saslPrep user
  end.

(** [First]. *)
Definition First (c : ScramClient) (raw : option bytes) : result cred_err (bytes * ScramClient) :=
  nonce ← newNonce raw;
  let firstBare := bs "n=" ++ saslPrep (sl_user c) ++ bs ",r=" ++ nonce in
  Ok (bs "n,," ++ firstBare,
      {| sl_user := sl_user c; sl_clientKey := sl_clientKey c; sl_storedKey := sl_storedKey c;
         sl_nonce := nonce; sl_firstBare := firstBare; sl_authMsg := sl_authMsg c |}).

(** [Final]. *)
Definition Final (c : ScramClient) (serverFirst : bytes) : result cred_err (bytes * ScramClient) :=
  if decide (sl_firstBare c = []) then Err ErrProtocol
  else
    combined ← attr serverFirst (ch "r");
    if decide ((length combined <= length (sl_nonce c))%nat \/ take (length (sl_nonce c)) combined <> sl_nonce c)
    then Err ErrAuthFailed
    else
      _ ← attr serverFirst (ch "s");
      iterText ← attr serverFirst (ch "i");
      match ParseInt64 iterText with
      | Some iterations =>
          if decide (iterations <= 0) then Err ErrProtocol
          else
            let withoutProof := bs "c=biws,r=" ++ combined in
            let authMsg := sl_firstBare c ++ bs "," ++ serverFirst ++ bs "," ++ withoutProof in
            match xorBytes (sl_clientKey c) (hmacSHA256 (sl_storedKey c) authMsg) with
            | None => Err ErrOther        (* a panic; the lengths are equal *)
            | Some proof =>
                Ok (withoutProof ++ bs ",p=" ++ b64_encode proof,
                    {| sl_user := sl_user c; sl_clientKey := sl_clientKey c; sl_storedKey := sl_storedKey c;
                       sl_nonce := sl_nonce c; sl_firstBare := sl_firstBare c; sl_authMsg := authMsg |})
            end
      | None => Err ErrProtocol
      end.

(** [VerifyServer]. *)
Definition VerifyServer (c : ScramClient) (serverFinal serverKey : bytes) : result cred_err unit :=
  if decide (sl_authMsg c = []) then Err ErrProtocol
  else
    match attr serverFinal (ch "v") with
    | Err e => match attr serverFinal (ch "e") with Ok _ => Err ErrAuthFailed | Err _ => Err e end
    | Ok got =>
        match b64_decode got with
        | None => Err ErrProtocol
        | Some decoded =>
            if decide (decoded <> hmacSHA256 serverKey (sl_authMsg c)) then Err ErrAuthFailed else Ok tt
        end
    end.

(** ** MD5 *)

(** [MD5Response]. *)
Definition MD5Response (storedHex salt : bytes) : bytes := bs "md5" ++ hex_encode (md5 (storedHex ++ salt)).

(** [VerifyMD5]. *)
Definition VerifyMD5 (verifier : Verifier) (salt response : bytes) : result cred_err unit :=
  if decide (v_Method verifier <> MethodMD5) then Err ErrAuthFailed
  else if decide (response <> MD5Response (v_MD5 verifier) salt) then Err ErrAuthFailed
  else Ok tt.

(** ** Lemmas on strings *)

Lemma split_on_none c l : c ∉ l -> split_on c l = [l].
Proof.
  induction l as [|x l IH]; intros Hc; [done|]. cbn [split_on].
  rewrite decide_False by set_solver. by rewrite IH by set_solver.
Qed.

Lemma split_on_app c l r : c ∉ l -> split_on c (l ++ c :: r) = l :: split_on c r.
Proof.
  induction l as [|x l IH]; intros Hc; cbn [split_on app]; [by rewrite decide_True|].
  rewrite decide_False by set_solver. by rewrite IH by set_solver.
Qed.


Definition is_digit (c : byte) : Prop := is_Some (digit_value c).

Lemma put_digits_digits fuel n acc : Forall is_digit acc -> Forall is_digit (put_digits fuel n acc).
Proof.
  revert n acc. induction fuel as [|fuel IH]; intros n acc Ha; [done|]. cbn [put_digits].
  case_decide; [done|]. apply IH. constructor; [|done]. unfold is_digit.
  rewrite digit_value_put; [done|]. apply Z.mod_pos_bound. lia.
Qed.

Lemma Itoa_digits n : Forall is_digit (Itoa n).
Proof. unfold Itoa. case_decide; [by repeat econstructor|by apply put_digits_digits]. Qed.

Lemma Itoa_no c n : digit_value c = None -> c ∉ Itoa n.
Proof.
  intros Hc Hin. pose proof (Itoa_digits n) as HF. rewrite Forall_forall in HF.
  destruct (HF c ltac:(by apply list_elem_of_In)) as [? ?]. congruence.
Qed.

Lemma ParseInt64_Itoa n : 0 < n < 2 ^ 63 -> ParseInt64 (Itoa n) = Some n.
Proof.
  intros Hn. unfold Itoa. rewrite decide_False by lia.
  destruct (parse_put_digits 20 n [] 0 ltac:(lia)) as (k & E & Hk & Hne).
  destruct (Hne ltac:(lia)) as (d & ds & Ed & Hd). unfold ParseInt64. rewrite Ed in *.
  rewrite (decide_False (P := d = ch "+")) by (intros ->; by destruct Hd).
  rewrite (decide_False (P := d = ch "-")) by (intros ->; by destruct Hd).
  unfold parse_udec. rewrite E. cbn. by rewrite decide_True by lia.
Qed.

(** *** [TrimSpace] leaves a string alone whose first and last bytes begin and
    end no space. *)
Definition plain_head (c : byte) : bool :=
  forallb (fun sp => match sp with x :: _ => negb (bool_decide (x = c)) | [] => false end) unicode_spaces.
Definition plain_last (c : byte) : bool :=
  forallb (fun sp => match list.last sp with Some x => negb (bool_decide (x = c)) | None => false end) unicode_spaces.

Lemma omap_nil_iff {A B} (f : A -> option B) l : (forall x, x ∈ l -> f x = None) -> omap f l = [].
Proof.
  induction l as [|x l IH]; intros H; [done|]. cbn. rewrite H by (by left). apply IH.
  intros y Hy. apply H. by right.
Qed.

Lemma strip_one_plain c s : plain_head c = true -> strip_one (c :: s) = None.
Proof.
  intros Hc. unfold strip_one. rewrite omap_nil_iff; [done|]. intros sp Hsp.
  rewrite decide_False; [done|]. intros E.
  assert (forallb (fun sp => match sp with x :: _ => negb (bool_decide (x = c)) | [] => false end) unicode_spaces = true)
    as Hall by exact Hc.
  rewrite forallb_forall in Hall. specialize (Hall sp ltac:(by apply list_elem_of_In)).
  destruct sp as [|x sp]; [done|]. cbn in E. injection E as -> _. by rewrite bool_decide_true in Hall.
Qed.

Lemma strip_last_plain c s : plain_last c = true -> strip_last (s ++ [c]) = None.
Proof.
  intros Hc. unfold strip_last. rewrite omap_nil_iff; [done|]. intros sp Hsp.
  rewrite decide_False; [done|]. intros E.
  assert (forallb (fun sp => match list.last sp with Some x => negb (bool_decide (x = c)) | None => false end) unicode_spaces = true)
    as Hall by exact Hc.
  rewrite forallb_forall in Hall. specialize (Hall sp ltac:(by apply list_elem_of_In)).
  destruct sp as [|x0 sp0] eqn:Esp; [done|].
  rewrite <- E in Hall. rewrite drop_app_le in Hall by (rewrite length_app; cbn; lia).
  rewrite last_snoc in Hall. by rewrite bool_decide_true in Hall.
Qed.

Lemma TrimSpace_plain c s d : plain_head c = true -> plain_last d = true -> TrimSpace (c :: s ++ [d]) = c :: s ++ [d].
Proof.
  intros Hc Hd. unfold TrimSpace.
  assert (forall fuel, trim_left fuel (c :: s ++ [d]) = c :: s ++ [d]) as El.
  { intros [|fuel]; cbn [trim_left]; [done|]. by rewrite strip_one_plain. }
  assert (forall fuel, trim_right fuel (c :: s ++ [d]) = c :: s ++ [d]) as Er.
  { intros [|fuel]; cbn [trim_right]; [done|]. change (c :: s ++ [d]) with ((c :: s) ++ [d]).
    by rewrite strip_last_plain. }
  by rewrite El, Er.
Qed.

(** ** Lemmas on SCRAM messages *)

Lemma attr_here key value rest :
  key <> ch "," -> ch "," ∉ value -> attr (key :: ch "=" :: value ++ ch "," :: rest) key = Ok value.
Proof.
  intros Hk Hv. unfold attr. change (key :: ch "=" :: value ++ ch "," :: rest) with ((key :: ch "=" :: value) ++ ch "," :: rest).
  rewrite split_on_app by (rewrite !not_elem_of_cons; split_and!; [congruence|discriminate|done]).
  cbn [attr_fields]. by rewrite decide_True.
Qed.

Lemma attr_last key value : key <> ch "," -> ch "," ∉ value -> attr (key :: ch "=" :: value) key = Ok value.
Proof.
  intros Hk Hv. unfold attr.
  rewrite split_on_none by (rewrite !not_elem_of_cons; split_and!; [congruence|discriminate|done]).
  cbn [attr_fields]. by rewrite decide_True.
Qed.

(** A field with another letter is passed over. *)
Lemma attr_skip k value rest key :
  k <> key -> k <> ch "," -> ch "," ∉ value -> attr (k :: ch "=" :: value ++ ch "," :: rest) key = attr rest key.
Proof.
  intros Hne Hk Hv. unfold attr. change (k :: ch "=" :: value ++ ch "," :: rest) with ((k :: ch "=" :: value) ++ ch "," :: rest).
  rewrite split_on_app by (rewrite !not_elem_of_cons; split_and!; [congruence|discriminate|done]).
  cbn [attr_fields]. by rewrite decide_False by tauto.
Qed.

Lemma saslPrep_no_comma user : ch "," ∉ saslPrep user.
Proof.
  induction user as [|c user IH]; cbn [saslPrep]; [by intros ?%elem_of_nil|].
  rewrite elem_of_app. intros [H|H]; [|done]. repeat case_decide; [..|set_solver].
  all: by vm_compute in H; repeat (apply elem_of_cons in H as [?|H]; [done|]); apply elem_of_nil in H.
Qed.

Lemma HasPrefix_app p s : HasPrefix (p ++ s) p = true.
Proof. unfold HasPrefix. by rewrite take_app_length, bool_decide_true. Qed.

(** The proof is what follows the last [,p=]. *)
Lemma lastIndex_none sub c s : head sub = Some c -> c ∉ s -> lastIndex sub s = None.
Proof.
  intros Hs. induction s as [|x s IH]; intros Hc; [done|]. cbn [lastIndex]. rewrite IH by set_solver.
  unfold HasPrefix. rewrite bool_decide_false; [done|]. intros E. destruct sub as [|y sub]; [done|].
  cbn in Hs, E. injection Hs as ->. injection E as -> _. set_solver.
Qed.

Lemma lastIndex_app sub c l r : head sub = Some c -> c ∉ tail sub -> c ∉ r -> lastIndex sub (l ++ sub ++ r) = Some (length l).
Proof.
  intros Hs Ht Hr. induction l as [|x l IH]; cbn [app lastIndex length].
  - destruct sub as [|y sub]; [done|]. cbn in Hs, Ht. injection Hs as ->. cbn [app lastIndex].
    rewrite (lastIndex_none _ c) by (cbn; set_solver).
    change (c :: sub ++ r) with ((c :: sub) ++ r). by rewrite HasPrefix_app.
  - by rewrite IH.
Qed.

Lemma cutProof_app l r : ch "," ∉ r -> cutProof (l ++ bs ",p=" ++ r) = Ok (l, r).
Proof.
  intros Hr. unfold cutProof. rewrite (lastIndex_app _ (ch ",")); [|done|by vm_compute; set_solver|done]. cbn [or_err mbind result_bind].
  rewrite take_app_length. rewrite drop_app_ge by lia. replace (length l + 3 - length l)%nat with 3%nat by lia. done.
Qed.

(** Exclusive or undoes itself. *)
Lemma xorBytes_total a b : length a = length b -> exists c, xorBytes a b = Some c /\ length c = length a.
Proof.
  revert b. induction a as [|x a IH]; intros [|y b] Hl; try done; [by exists []|].
  injection Hl as Hl. destruct (IH b Hl) as (c & E & Hc). cbn [xorBytes]. rewrite E. cbn. eexists. split; [done|].
  cbn. by f_equal.
Qed.

Lemma xor_range x y : 0 <= Z.lxor (bval x) (bval y) < 256.
Proof.
  pose proof (bval_range x); pose proof (bval_range y). split; [apply Z.lxor_nonneg; lia|].
  destruct (decide (Z.lxor (bval x) (bval y) = 0)) as [->|Hne]; [lia|].
  apply (Z.log2_lt_cancel _ 256). change (Z.log2 256) with 8.
  eapply Z.le_lt_trans; [apply Z.log2_lxor; lia|].
  apply Z.max_lub_lt.
  - destruct (decide (bval x = 0)) as [->|]; [done|]. apply Z.log2_lt_pow2; lia.
  - destruct (decide (bval y = 0)) as [->|]; [done|]. apply Z.log2_lt_pow2; lia.
Qed.

Lemma xorBytes_involutive a b c : xorBytes a b = Some c -> length b = length a -> xorBytes c b = Some a.
Proof.
  revert b c. induction a as [|x a IH]; intros b c; cbn [xorBytes]; [by intros [= <-]|].
  destruct b as [|y b]; [done|]. intros (c' & E & ->)%fmap_Some Hl. injection Hl as Hl.
  cbn [xorBytes]. rewrite (IH _ _ E Hl). cbn. f_equal. f_equal. apply bval_inj.
  rewrite !bval_byte_of. pose proof (xor_range x y). rewrite (Z.mod_small (Z.lxor (bval x) (bval y))) by done.
  rewrite Z.lxor_assoc, Z.lxor_nilpotent, Z.lxor_0_r. pose proof (bval_range x). by apply Z.mod_small.
Qed.

(** ** One half against the other *)

(** A client holding [key] run against a server holding [v]: the key the server
    recovered, when both sides are satisfied. *)
Definition scram_exchange (v : SCRAMVerifier) (user key raw_client raw_server : bytes) : result cred_err (option bytes) :=
  c ← NewScramClient user key;
  '(first, c) ← First c (Some raw_client);
  s ← NewScramServer (Some v);
  '(challenge, s) ← Begin s (Some raw_server) first;
  '(final, c) ← Final c challenge;
  '(verdict, s) ← Finish s final;
  _ ← VerifyServer c verdict (ServerKey v);
  Ok (ss_clientKey s).

Lemma b64_encode_nonempty s : s <> [] -> b64_encode s <> [].
Proof. by destruct s as [|a [|b [|c s]]]. Qed.

(** What the server answers to a client-first message of ours. *)
Lemma Begin_First v user nonce raw :
  nonce <> [] -> ch "," ∉ nonce ->
  let s0 := {| ss_verifier := v; ss_clientFirstBare := []; ss_serverFirst := []; ss_nonce := []; ss_clientKey := None |} in
  let bare := bs "n=" ++ saslPrep user ++ bs ",r=" ++ nonce in
  let combined := nonce ++ b64_encode raw in
  let challenge := bs "r=" ++ combined ++ bs ",s=" ++ b64_encode (Salt v) ++ bs ",i=" ++ Itoa (Iterations v) in
  Begin s0 (Some raw) (bs "n,," ++ bare) =
  Ok (challenge, {| ss_verifier := v; ss_clientFirstBare := bare; ss_serverFirst := challenge;
                    ss_nonce := combined; ss_clientKey := None |}).
Proof.
  intros Hne Hc s0 bare combined challenge. unfold Begin, splitGS2.
  replace (cut (bs "n,," ++ bare) (ch ",")) with (Some (bs "n", ch "," :: bare))
    by (symmetry; apply (cut_app (bs "n") (ch ",") (ch "," :: bare)); by vm_compute; set_solver).
  cbn [or_err mbind result_bind].
  replace (cut (ch "," :: bare) (ch ",")) with (Some ([] : bytes, bare))
    by (symmetry; apply (cut_app [] (ch ",") bare); set_solver).
  cbn [or_err mbind result_bind]. replace (HasPrefix (bs "n") (bs "p=")) with false by reflexivity.
  replace (attr bare (ch "r")) with (Ok (E := cred_err) nonce).
  2:{ symmetry. change bare with (ch "n" :: ch "=" :: saslPrep user ++ ch "," :: ch "r" :: ch "=" :: nonce).
      rewrite attr_skip; [by apply attr_last|done|done|apply saslPrep_no_comma]. }
  cbn [or_err mbind result_bind]. by rewrite decide_False.
Qed.

Lemma challenge_attrs (combined salt iters : bytes) :
  ch "," ∉ combined -> ch "," ∉ salt -> ch "," ∉ iters ->
  let challenge := bs "r=" ++ combined ++ bs ",s=" ++ salt ++ bs ",i=" ++ iters in
  attr challenge (ch "r") = Ok combined /\ attr challenge (ch "s") = Ok salt /\ attr challenge (ch "i") = Ok iters.
Proof.
  intros H1 H2 H3 challenge.
  change challenge with (ch "r" :: ch "=" :: combined ++ ch "," :: ch "s" :: ch "=" :: salt ++ ch "," :: ch "i" :: ch "=" :: iters).
  split_and!; [by apply attr_here|by rewrite attr_skip, attr_here|].
  by rewrite attr_skip, attr_skip, attr_last.
Qed.

Lemma final_attrs (combined : bytes) :
  ch "," ∉ combined ->
  attr (bs "c=biws,r=" ++ combined) (ch "r") = Ok combined /\ attr (bs "c=biws,r=" ++ combined) (ch "c") = Ok (bs "biws").
Proof.
  intros H. change (bs "c=biws,r=" ++ combined) with (ch "c" :: ch "=" :: bs "biws" ++ ch "," :: ch "r" :: ch "=" :: combined).
  split; [rewrite attr_skip; [by apply attr_last|done|done|]|apply attr_here; [done|]].
  all: vm_compute; set_solver.
Qed.

(** The client's answer to a challenge that extends its nonce. *)
Lemma Final_ok c challenge combined salt iters proof :
  sl_firstBare c <> [] -> attr challenge (ch "r") = Ok combined -> attr challenge (ch "s") = Ok salt ->
  attr challenge (ch "i") = Ok (Itoa iters) -> 0 < iters < 2 ^ 63 ->
  (length (sl_nonce c) < length combined)%nat -> take (length (sl_nonce c)) combined = sl_nonce c ->
  let auth := sl_firstBare c ++ bs "," ++ challenge ++ bs "," ++ bs "c=biws,r=" ++ combined in
  xorBytes (sl_clientKey c) (hmacSHA256 (sl_storedKey c) auth) = Some proof ->
  Final c challenge =
  Ok ((bs "c=biws,r=" ++ combined) ++ bs ",p=" ++ b64_encode proof,
      {| sl_user := sl_user c; sl_clientKey := sl_clientKey c; sl_storedKey := sl_storedKey c;
         sl_nonce := sl_nonce c; sl_firstBare := sl_firstBare c; sl_authMsg := auth |}).
Proof.
  intros Hb Hr Hs Hi Hit Hlen Htake auth Ex. unfold Final. rewrite decide_False by done.
  rewrite Hr. cbn [mbind result_bind]. rewrite decide_False by (intros [?|?]; [lia|done]).
  rewrite Hs, Hi. cbn [mbind result_bind]. rewrite ParseInt64_Itoa, decide_False by lia.
  cbv zeta. fold auth. by rewrite Ex.
Qed.

(** The server's verdict on a proof made from a preimage of the stored key. *)
Lemma Finish_ok s w proof key :
  ss_serverFirst s <> [] -> attr w (ch "r") = Ok (ss_nonce s) -> attr w (ch "c") = Ok (bs "biws") ->
  length key = 32%nat -> sha256 key = StoredKey (ss_verifier s) ->
  let auth := ss_clientFirstBare s ++ bs "," ++ ss_serverFirst s ++ bs "," ++ w in
  xorBytes key (hmacSHA256 (StoredKey (ss_verifier s)) auth) = Some proof ->
  Finish s (w ++ bs ",p=" ++ b64_encode proof) =
  Ok (bs "v=" ++ b64_encode (hmacSHA256 (ServerKey (ss_verifier s)) auth), set_clientKey s key).
Proof.
  intros Hf Hr Hc Hl Hk auth Ex. unfold Finish. rewrite decide_False by done.
  rewrite cutProof_app by (apply b64_encode_no; by vm_compute; left). cbn [mbind result_bind].
  rewrite Hr. cbn [mbind result_bind]. rewrite decide_False by tauto. rewrite Hc. cbn [mbind result_bind].
  unfold checkBinding. rewrite decide_True by (by left). cbn [mbind result_bind].
  assert (length proof = 32%nat) as Hp.
  { destruct (xorBytes_total key (hmacSHA256 (StoredKey (ss_verifier s)) auth)) as (p & E & ?);
      [by rewrite hmacSHA256_length|congruence]. }
  rewrite b64_decode_encode, decide_False by lia. cbv zeta. fold auth.
  rewrite (xorBytes_involutive _ _ _ Ex) by (by rewrite hmacSHA256_length).
  by rewrite decide_False by tauto.
Qed.

Lemma VerifyServer_ok c serverKey :
  sl_authMsg c <> [] -> VerifyServer c (bs "v=" ++ b64_encode (hmacSHA256 serverKey (sl_authMsg c))) serverKey = Ok tt.
Proof.
  intros Ha. unfold VerifyServer. rewrite decide_False by done.
  generalize (hmacSHA256 serverKey (sl_authMsg c)). intros sig.
  change (bs "v=" ++ b64_encode sig) with (ch "v" :: ch "=" :: b64_encode sig).
  rewrite attr_last; [|done|apply b64_encode_no; by vm_compute; left].
  by rewrite b64_decode_encode, decide_False by tauto.
Qed.

Lemma scram_exchange_ok v user key raw_client raw_server :
  length key = 32%nat -> sha256 key = StoredKey v -> 0 < Iterations v < 2 ^ 63 ->
  raw_client <> [] -> raw_server <> [] ->
  scram_exchange v user key raw_client raw_server = Ok (Some key).
Proof.
  intros Hlen Hkey Hit Hc Hs. unfold scram_exchange, NewScramClient. rewrite decide_False by lia.
  cbn [mbind result_bind First newNonce sl_user NewScramServer].
  assert (forall r, ch "," ∉ b64_encode r) as Hno by (intros r; apply b64_encode_no; by vm_compute; left).
  pose proof (b64_encode_nonempty raw_client Hc) as Hnn. pose proof (Hno raw_client) as Hn.
  revert Hnn Hn. generalize (b64_encode raw_client). intros nonce Hnn Hn.
  rewrite Begin_First by done. cbn [mbind result_bind sl_clientKey sl_storedKey].
  assert (ch "," ∉ nonce ++ b64_encode raw_server) as Hcomb by (rewrite elem_of_app; specialize (Hno raw_server); tauto).
  destruct (challenge_attrs (nonce ++ b64_encode raw_server) (b64_encode (Salt v)) (Itoa (Iterations v)))
    as (Ar & As & Ai); [done|apply Hno|by apply Itoa_no|].
  revert Ar As Ai. generalize (bs "r=" ++ (nonce ++ b64_encode raw_server) ++ bs ",s=" ++
    b64_encode (Salt v) ++ bs ",i=" ++ Itoa (Iterations v)). intros challenge Ar As Ai.
  assert (challenge <> []) as Hch by (intros ->; assert (attr [] (ch "r") = Err ErrProtocol) by reflexivity; congruence).
  assert (bs "n=" ++ saslPrep user ++ bs ",r=" ++ nonce <> []) as Hbare by done. revert Hbare.
  generalize (bs "n=" ++ saslPrep user ++ bs ",r=" ++ nonce). intros bare Hbare.
  destruct (xorBytes_total key (hmacSHA256 (sha256 key) (bare ++ bs "," ++ challenge ++ bs "," ++ bs "c=biws,r=" ++
    (nonce ++ b64_encode raw_server)))) as (proof & Ex & _); [by rewrite hmacSHA256_length|].
  erewrite Final_ok; [|done|exact Ar|exact As|exact Ai|done| | |exact Ex]; cbn [sl_nonce].
  2:{ rewrite length_app. pose proof (b64_encode_nonempty raw_server Hs).
      destruct (b64_encode raw_server); [done|cbn; lia]. }
  2:{ by rewrite take_app_length. }
  cbn [mbind result_bind]. destruct (final_attrs _ Hcomb) as [Fr Fc].
  rewrite (Finish_ok _ _ proof key); [|done|exact Fr|exact Fc|done|done|cbn; by rewrite <- Hkey].
  cbn [mbind result_bind ss_clientFirstBare ss_serverFirst ss_verifier]. 
  pose proof (VerifyServer_ok
    {| sl_user := user; sl_clientKey := key; sl_storedKey := sha256 key; sl_nonce := nonce; sl_firstBare := bare;
       sl_authMsg := bare ++ bs "," ++ challenge ++ bs "," ++ bs "c=biws,r=" ++ nonce ++ b64_encode raw_server |}
    (ServerKey v)) as Hv. cbn [sl_authMsg] in Hv. cbn [sl_user sl_clientKey sl_storedKey sl_nonce sl_firstBare].
  rewrite Hv; [done|by destruct bare].
Qed.

(** What an accepted proof establishes. *)
Lemma Finish_accepts s clientFinal verdict s' :
  Finish s clientFinal = Ok (verdict, s') ->
  exists withoutProof proof key,
    cutProof clientFinal = Ok (withoutProof, proof) /\ attr withoutProof (ch "r") = Ok (ss_nonce s) /\
    (attr withoutProof (ch "c") = Ok (bs "biws") \/ attr withoutProof (ch "c") = Ok (bs "eSws")) /\
    ss_clientKey s' = Some key /\ length key = 32%nat /\ sha256 key = StoredKey (ss_verifier s).
Proof.
  unfold Finish. case_decide as Hd0; [done|]. intros ([w p] & Hcut & H)%result_bind_ok.
  apply result_bind_ok in H as (got & Hr & H). case_decide as Hnonce; [done|]. subst got.
  apply result_bind_ok in H as (binding & Hb & H). apply result_bind_ok in H as ([] & Hcb & H).
  destruct (b64_decode p) as [proof|]; [|done]. case_decide as Hl; [done|].
  cbv zeta in H. set (sig := hmacSHA256 _ _) in H. destruct (xorBytes_total proof sig) as (key & Ex & Hk).
  { subst sig. by rewrite hmacSHA256_length. }
  rewrite Ex in H. case_decide as Hs; [done|]. injection H as <- <-.
  exists w, p, key. split_and!; [done|done| |done|lia|done].
  unfold checkBinding in Hcb. case_decide as Hd; [|by case_decide]. destruct Hd as [->| ->]; [by left|by right].
Qed.

(** Whatever a client did to convince Pontus, the key recovered from its proof
    opens the backend: an exchange in which Pontus plays the client with that key,
    under any user name and any nonces, against a server holding the same verifier
    succeeds on both sides, and that server recovers the very same key.  So one
    authentication by the client is worth any number of backend connections. *)
Theorem scram_passthrough s clientFinal verdict s' user raw_client raw_server :
  Finish s clientFinal = Ok (verdict, s') -> 0 < Iterations (ss_verifier s) < 2 ^ 63 ->
  raw_client <> [] -> raw_server <> [] ->
  exists key, ss_clientKey s' = Some key /\
    scram_exchange (ss_verifier s) user key raw_client raw_server = Ok (Some key).
Proof.
  intros (w & p & key & _ & _ & _ & Hk & Hl & Hs)%Finish_accepts Hit Hc Hr.
  exists key. split; [done|]. by apply scram_exchange_ok.
Qed.

Definition alice_key : bytes := repeat (byte_of 7) 32.
Definition alice : SCRAMVerifier :=
  {| Iterations := 4096; Salt := bs "salt"; StoredKey := sha256 alice_key; ServerKey := repeat (byte_of 9) 32 |}.

(** An exchange up to the client's last message. *)
Definition alice_server : ScramServer * bytes :=
  match (c ← NewScramClient (bs "al,ice") alice_key;
         '(first, c) ← First c (Some (bs "client nonce"));
         s ← NewScramServer (Some alice);
         '(challenge, s) ← Begin s (Some (bs "server nonce")) first;
         '(final, c) ← Final c challenge; Ok (s, final)) with
  | Ok r => r
  | Err _ => ({| ss_verifier := alice; ss_clientFirstBare := []; ss_serverFirst := []; ss_nonce := []; ss_clientKey := None |}, [])
  end.

Definition ok_or {E A} (d : A) (r : result E A) : A := match r with Ok a => a | Err _ => d end.

Definition alice_done : bytes * ScramServer :=
  ok_or ([], fst alice_server) (Finish (fst alice_server) (snd alice_server)).

Lemma alice_accepted : Finish (fst alice_server) (snd alice_server) = Ok (fst alice_done, snd alice_done).
Proof. vm_compute. reflexivity. Qed.

Lemma alice_recovered : ss_clientKey (snd alice_done) = Some alice_key.
Proof. vm_compute. reflexivity. Qed.

Lemma alice_verifier : StoredKey (ss_verifier (fst alice_server)) = sha256 alice_key.
Proof. vm_compute. reflexivity. Qed.

Lemma alice_iterations : 0 < Iterations (ss_verifier (fst alice_server)) < 2 ^ 63.
Proof. vm_compute. split; reflexivity. Qed.

#[global] Opaque alice_done alice_server alice_key.

Lemma scram_passthrough_witness :
  exists key, ss_clientKey (snd alice_done) = Some key /\
    scram_exchange (ss_verifier (fst alice_server)) (bs "al,ice") key (bs "again") (bs "and again") = Ok (Some key).
Proof.
  refine (scram_passthrough (fst alice_server) (snd alice_server) (fst alice_done) (snd alice_done)
            (bs "al,ice") (bs "again") (bs "and again") alice_accepted alice_iterations _ _); discriminate.
Defined.

(** C13: Nothing but a preimage of the stored key is accepted, and only in the
    exchange it was made for.  When Pontus accepts a client's last message it
    quotes the nonce of this exchange, it claims no channel binding, and the key
    recovered from it hashes to the stored key, so for a verifier made from some
    key it is that key or a SHA-256 collision; presented to any other exchange
    whose nonce differs, the same message is refused. *)
Theorem scram_sound s clientFinal verdict s' ck :
  Finish s clientFinal = Ok (verdict, s') -> StoredKey (ss_verifier s) = sha256 ck ->
  (exists key, ss_clientKey s' = Some key /\ length key = 32%nat /\ (key = ck \/ key <> ck /\ sha256 key = sha256 ck)) /\
  (exists withoutProof proof, cutProof clientFinal = Ok (withoutProof, proof) /\
     attr withoutProof (ch "r") = Ok (ss_nonce s) /\
     (attr withoutProof (ch "c") = Ok (bs "biws") \/ attr withoutProof (ch "c") = Ok (bs "eSws"))) /\
  (forall t, ss_serverFirst t <> [] -> ss_nonce t <> ss_nonce s -> Finish t clientFinal = Err ErrAuthFailed).
Proof.
  intros (w & p & key & Hcut & Hr & Hc & Hk & Hl & Hs)%Finish_accepts Hck. split_and!.
  - exists key. split_and!; [done|done|]. destruct (decide (key = ck)) as [->|]; [by left|right]. split; [done|congruence].
  - by exists w, p.
  - intros t Ht Hn. unfold Finish. rewrite decide_False by done. rewrite Hcut. cbn [mbind result_bind].
    rewrite Hr. cbn [mbind result_bind]. by rewrite decide_True by congruence.
Qed.

Lemma scram_sound_witness :
  exists key, ss_clientKey (snd alice_done) = Some key /\ length key = 32%nat /\
    (key = alice_key \/ key <> alice_key /\ sha256 key = sha256 alice_key).
Proof.
  refine (proj1 (scram_sound (fst alice_server) (snd alice_server) (fst alice_done) (snd alice_done) alice_key
                   alice_accepted alice_verifier)).
Defined.

(** The channel-binding attribute is checked against the two acceptable headers
    and not against the header the client opened with. *)
Example binding_not_compared_with_header :
  match (c ← NewScramClient (bs "alice") alice_key;
         '(first, c) ← First c (Some (bs "client nonce"));
         s ← NewScramServer (Some alice);
         '(challenge, s) ← Begin s (Some (bs "server nonce")) (bs "y" ++ drop 1 first);
         '(final, c) ← Final c challenge;
         '(_, s) ← Finish s final; Ok (ss_clientKey s)) with
  | Ok (Some k) => bool_decide (k = alice_key)
  | _ => false
  end = true.
Proof. vm_compute. reflexivity. Qed.

(** ** Verifiers: reading back what PostgreSQL prints *)

Definition verifier_ok (v : SCRAMVerifier) : Prop :=
  0 < Iterations v < 2 ^ 63 /\ length (StoredKey v) = 32%nat /\ length (ServerKey v) = 32%nat.

Lemma parseSCRAM_print v :
  verifier_ok v -> parseSCRAM (drop (length scram_prefix) (print_SCRAM v)) = Ok v.
Proof.
  intros (Hi & Hs & Hk). unfold print_SCRAM. rewrite drop_app_length. unfold parseSCRAM.
  assert (forall c, c ∈ [ch ","; NUL; ch ":"; ch "$"] -> forall x, c ∉ b64_encode x) as Hno
    by (intros c Hc x; by apply b64_encode_no).
  replace (Itoa (Iterations v) ++ ch ":" :: b64_encode (Salt v) ++ ch "$" :: b64_encode (StoredKey v) ++ ch ":" :: b64_encode (ServerKey v))
    with ((Itoa (Iterations v) ++ ch ":" :: b64_encode (Salt v)) ++ ch "$" :: b64_encode (StoredKey v) ++ ch ":" :: b64_encode (ServerKey v))
    by (by rewrite <- app_assoc).
  rewrite cut_app.
  2:{ rewrite elem_of_app, elem_of_cons. intros [H|[H|H]]; [by apply Itoa_no in H|done|].
      revert H. apply Hno. vm_compute. set_solver. }
  cbn [or_err mbind result_bind]. rewrite (cut_app (Itoa (Iterations v))) by (by apply Itoa_no).
  cbn [or_err mbind result_bind]. rewrite ParseInt64_Itoa by done. cbn [or_err mbind result_bind].
  rewrite decide_False by lia. rewrite cut_app by (apply Hno; vm_compute; set_solver).
  cbn [or_err mbind result_bind]. rewrite !b64_decode_encode. cbn [or_err mbind result_bind].
  rewrite decide_False by lia. by destruct v.
Qed.

Lemma b64_encode_last k : (length k mod 3)%nat = 2%nat -> exists s, b64_encode k = s ++ [PAD].
Proof.
  induction k as [|a|a b|a b c s IH] using b64_encode_induction; intros Hm; try done.
  - cbn [b64_encode]. eexists [_; _; _]. reflexivity.
  - destruct IH as [t Ht].
    { cbn [length] in Hm. replace (S (S (S (length s)))) with (length s + 1 * 3)%nat in Hm by lia.
      by rewrite Nat.Div0.mod_add in Hm. }
    cbn [b64_encode]. rewrite Ht. by eexists (_ :: _ :: _ :: _ :: t).
Qed.

(** Reading a verifier as PostgreSQL prints it gives back exactly its parts,
    surrounding white space included; an MD5 verifier likewise; an empty value is
    a role without a password; and anything that is neither, a plain password
    beginning with md5 included, is refused. *)
Theorem verifier_roundtrip v hash stored :
  verifier_ok v -> length hash = 32%nat -> isHex hash = true ->
  ParseVerifier (print_SCRAM v) = Ok {| v_Method := MethodSCRAM; v_MD5 := []; v_SCRAM := Some v |} /\
  ParseVerifier (bs "md5" ++ hash) = Ok {| v_Method := MethodMD5; v_MD5 := hash; v_SCRAM := None |} /\
  (TrimSpace stored = [] -> ParseVerifier stored = Ok {| v_Method := MethodNone; v_MD5 := []; v_SCRAM := None |}) /\
  (TrimSpace stored <> [] -> HasPrefix (TrimSpace stored) scram_prefix = false ->
   HasPrefix (TrimSpace stored) (bs "md5") = false \/ length (TrimSpace stored) <> 35%nat \/
     isHex (drop 3 (TrimSpace stored)) = false ->
   ParseVerifier stored = Err ErrUnsupportedVerifier).
Proof.
  intros Hv Hl Hh. split_and!.
  - destruct (b64_encode_last (ServerKey v)) as [t Ht]; [by rewrite (proj2 (proj2 Hv))|].
    assert (TrimSpace (print_SCRAM v) = print_SCRAM v) as Et.
    { unfold print_SCRAM. rewrite Ht.
      match goal with |- TrimSpace ?x = _ => assert (exists s, x = ch "S" :: s ++ [PAD]) as [s ->] end.
      { rewrite !app_comm_cons, !app_assoc. eexists. reflexivity. }
      by apply TrimSpace_plain. }
    unfold ParseVerifier. rewrite Et. rewrite decide_False by done. cbv zeta.
    replace (HasPrefix (print_SCRAM v) scram_prefix) with true by (symmetry; apply HasPrefix_app).
    by rewrite parseSCRAM_print.
  - assert (exists s c, bs "md5" ++ hash = ch "m" :: s ++ [c] /\ plain_last c = true) as (s & c & E & Hc).
    { destruct hash as [|c hash _] using rev_ind; [done|]. exists (bs "d5" ++ hash), c.
      split; [by rewrite <- app_assoc|]. unfold isHex in Hh. rewrite forallb_app in Hh.
      apply andb_true_iff in Hh as [_ Hc]. cbn in Hc. rewrite andb_true_r in Hc. revert Hc. clear.
      destruct c; vm_compute; done. }
    unfold ParseVerifier. rewrite E, TrimSpace_plain, <- E by done. rewrite decide_False by done. cbv zeta.
    replace (HasPrefix (bs "md5" ++ hash) scram_prefix) with false
      by (symmetry; apply bool_decide_eq_false; by destruct hash).
    rewrite HasPrefix_app. rewrite bool_decide_true by (rewrite length_app, Hl; done). cbn [andb].
    change 3%nat with (length (bs "md5")). by rewrite drop_app_length, Hh.
  - intros E. unfold ParseVerifier. rewrite E. by rewrite decide_True.
  - intros Hne Hp Hm. unfold ParseVerifier. rewrite decide_False by done. cbv zeta. rewrite Hp.
    destruct (HasPrefix (TrimSpace stored) (bs "md5")); [|done]. cbn [andb].
    case_bool_decide; [|done]. destruct Hm as [?|[?|Hm]]; [done|done|]. by rewrite Hm.
Qed.

Lemma verifier_roundtrip_witness :
  ParseVerifier (print_SCRAM alice) = Ok {| v_Method := MethodSCRAM; v_MD5 := []; v_SCRAM := Some alice |}.
Proof.
  refine (proj1 (verifier_roundtrip alice (bs "0123456789abcdef0123456789ABCDEF") [] _ _ _)).
  - repeat split; vm_compute; reflexivity.
  - reflexivity.
  - reflexivity.
Defined.
