(* ===== verification/CredentialStore.v ===== *)
(** * Where verifiers come from, and how long they are remembered

    [file_store.go], [query_store.go] and [cache.go] of package [credentials].
    A store answers one question, the verifier of a role; the cache wraps any
    store, bounded because the role name is chosen by whoever can reach the
    port. *)
From Stdlib Require Import ZArith Lia Strings.String.
From stdpp Require Import base gmap list numbers option.
From S2P Require Import Prelude Crypto Credentials.
#[local] Open Scope Z_scope.

(** ** The file store *)

Definition dquote : byte := byte_of 34.

(** [splitName]. *)
Definition splitName (line : bytes) : result cred_err (bytes * bytes) :=
  match line with
  | q :: inner =>
      if decide (q = dquote) then
        match indexByte inner dquote with
        | None => Err ErrQuotedName
        | Some closing => Ok (take closing inner, drop (S closing) inner)
        end
      else
        let '(name, rest) := default (line, []) (cut line (ch " ")) in
        match cut name (byte_of 9) with
        | Some (tabbed, tabRest) => Ok (tabbed, tabRest ++ ch " " :: rest)
        | None => Ok (name, rest)
        end
  | [] => Ok ([], [])
  end.

(** [parseLine]: [None] is a line that says nothing. *)
Definition parseLine (raw : bytes) : result cred_err (option (bytes * Verifier)) :=
  let line := TrimSpace raw in
  if decide (line = []) then Ok None
  else if HasPrefix line (bs "#") then Ok None
  else
    '(name, rest) ← splitName line;
    verifier ← ParseVerifier (TrimSpace rest);
    Ok (Some (name, verifier)).

Definition MaxScanTokenSize : Z := 64 * 1024.

(** [bufio.Scanner] by lines: an end of line is dropped with the carriage return
    before it, and so is an empty last line. *)
Definition drop_cr (line : bytes) : bytes :=
  match rev line with c :: r => if decide (c = byte_of 13) then rev r else line | [] => line end.

Definition raw_lines (content : bytes) : list bytes :=
  let ls := split_on (byte_of 10) content in
  match rev ls with [] :: r => rev r | _ => ls end.

(** [Reload]'s loop; a line that fills the scanner's buffer ends it. *)
Fixpoint load_lines (ls : list bytes) (users : gmap bytes Verifier) : result cred_err (gmap bytes Verifier) :=
  match ls with
  | [] => Ok users
  | raw :: ls =>
      if decide (MaxScanTokenSize <= zlen raw) then Err ErrOther
      else
        parsed ← parseLine (drop_cr raw);
        load_lines ls (match parsed with Some (name, v) => <[name := v]> users | None => users end)
  end.

(** [Reload]: [file] is the mode and the content, if the file could be opened. *)
Definition Reload (users : gmap bytes Verifier) (file : option (Z * bytes)) : result cred_err unit * gmap bytes Verifier :=
  match file with
  | None => (Err ErrOther, users)
  | Some (mode, content) =>
      if decide (Z.land mode 63 <> 0) then (Err ErrPermissions, users)
      else match load_lines (raw_lines content) ∅ with
           | Err e => (Err e, users)
           | Ok loaded => (Ok tt, loaded)
           end
  end.

(** [FileStore.Lookup]. *)
Definition file_Lookup (users : gmap bytes Verifier) (user : bytes) : result cred_err Verifier :=
  or_err ErrUnknownUser (users !! user).

(** ** The query store *)

Inductive row := NoRows | ScanErr | Row (name stored : bytes).

(** [QueryStore.Lookup]: [answer] is what the query returned for that name as
    its bound parameter. *)
Definition query_Lookup (answer : bytes -> row) (user : bytes) : result cred_err Verifier :=
  match answer user with
  | NoRows => Err ErrUnknownUser
  | ScanErr => Err ErrOther
  | Row name stored => if decide (name <> user) then Err ErrOther else ParseVerifier stored
  end.

(** ** The cache *)

Definition DefaultTTL : Z := 5 * 60 * 1000000000.
Definition DefaultNegativeTTL : Z := 30 * 1000000000.
Definition DefaultMaxEntries : Z := 1024.

Record entry := { en_answer : result cred_err Verifier; en_expires : Z }.

Record Cache := { ca_ttl : Z; ca_negativeTTL : Z; ca_maxEntries : Z; ca_entries : gmap bytes entry }.

Definition with_entries (c : Cache) (m : gmap bytes entry) : Cache :=
  {| ca_ttl := ca_ttl c; ca_negativeTTL := ca_negativeTTL c; ca_maxEntries := ca_maxEntries c; ca_entries := m |}.

(** [NewCache]. *)
Definition NewCache (ttl negativeTTL maxEntries : Z) : Cache :=
  {| ca_ttl := if decide (ttl <= 0) then DefaultTTL else ttl;
     ca_negativeTTL := if decide (negativeTTL <= 0) then DefaultNegativeTTL else negativeTTL;
     ca_maxEntries := if decide (maxEntries <= 0) then DefaultMaxEntries else maxEntries;
     ca_entries := ∅ |}.

(** [get]. *)
Definition cache_get (c : Cache) (now : Z) (user : bytes) : option (result cred_err Verifier) * Cache :=
  match ca_entries c !! user with
  | None => (None, c)
  | Some found =>
      if decide (en_expires found < now) then (None, with_entries c (delete user (ca_entries c)))
      else (Some (en_answer found), c)
  end.

(** [evictLocked]'s second loop, in the order Go ranges over the map. *)
Fixpoint soonest (entries : gmap bytes entry) (order : list bytes) (best : option (bytes * Z)) : option bytes :=
  match order with
  | [] => fst <$> best
  | user :: order =>
      match entries !! user with
      | None => soonest entries order best
      | Some e =>
          match best with
          | None => soonest entries order (Some (user, en_expires e))
          | Some (_, s) => if decide (en_expires e < s) then soonest entries order (Some (user, en_expires e))
                           else soonest entries order best
          end
      end
  end.

(** [evictLocked]; with nothing found the code deletes the empty name. *)
Definition cache_evictLocked (c : Cache) (now : Z) (order : list bytes) : Cache :=
  let live := filter (fun p : bytes * entry => now <= en_expires (snd p)) (ca_entries c) in
  if decide (Z.of_nat (size live) < ca_maxEntries c) then with_entries c live
  else with_entries c (delete (default [] (soonest live order None)) live).

(** [put]. *)
Definition cache_put (c : Cache) (now : Z) (order : list bytes) (user : bytes) (e : entry) : Cache :=
  let c := if decide (ca_maxEntries c <= Z.of_nat (size (ca_entries c))) then cache_evictLocked c now order else c in
  with_entries c (<[user := e]> (ca_entries c)).

(** [expiryFor]. *)
Definition expiryFor (c : Cache) (now : Z) (answer : result cred_err Verifier) : Z :=
  match answer with Err _ => now + ca_negativeTTL c | Ok _ => now + ca_ttl c end.

(** Whether an answer is remembered at all. *)
Definition cacheable (answer : result cred_err Verifier) : bool :=
  match answer with
  | Ok _ => true
  | Err e => bool_decide (e = ErrUnknownUser) || bool_decide (e = ErrUnsupportedVerifier)
  end.

(** What follows an answer of the inner store in [Lookup]; [now1] is the clock
    in [expiryFor], [now2] in [evictLocked]. *)
Definition remember (c : Cache) (now1 now2 : Z) (order : list bytes) (user : bytes) (answer : result cred_err Verifier) : Cache :=
  if negb (cacheable answer) then c
  else cache_put c now2 order user {| en_answer := answer; en_expires := expiryFor c now1 answer |}.

(** [Lookup], with nothing else running; [inner] is the wrapped store. *)
Definition cache_Lookup (inner : bytes -> result cred_err Verifier) (c : Cache) (now now1 now2 : Z) (order : list bytes)
    (user : bytes) : result cred_err Verifier * Cache :=
  let '(cached, c) := cache_get c now user in
  match cached with
  | Some answer => (answer, c)
  | None => let answer := inner user in (answer, remember c now1 now2 order user answer)
  end.

(** [Forget], [Flush] and [Len]. *)
Definition Forget (c : Cache) (user : bytes) : Cache := with_entries c (delete user (ca_entries c)).
Definition Flush (c : Cache) : Cache := with_entries c ∅.
Definition cache_Len (c : Cache) : Z := Z.of_nat (size (ca_entries c)).

(** ** Any number of sessions

    [get] and what follows the store's answer are separate locked sections, so
    the sessions' lookups interleave between them. *)

Inductive cache_event :=
| CGet (now : Z) (user : bytes)
| CAnswer (asked now1 now2 : Z) (order : list bytes) (user : bytes) (answer : result cred_err Verifier)
| CForget (user : bytes)
| CFlush.

Definition cache_apply (c : Cache) (e : cache_event) : Cache :=
  match e with
  | CGet now user => snd (cache_get c now user)
  | CAnswer _ now1 now2 order user answer => remember c now1 now2 order user answer
  | CForget user => Forget c user
  | CFlush => Flush c
  end.

Definition cache_run (ttl negativeTTL maxEntries : Z) (es : list cache_event) : Cache :=
  foldl cache_apply (NewCache ttl negativeTTL maxEntries) es.

(** Go ranges over every key of the map, in some order. *)
Fixpoint ranges_all (c : Cache) (es : list cache_event) : Prop :=
  match es with
  | [] => True
  | e :: rest =>
      match e with
      | CAnswer _ _ _ order _ _ => forall k, is_Some (ca_entries c !! k) -> k ∈ order
      | _ => True
      end /\ ranges_all (cache_apply c e) rest
  end.

(** ** Lemmas *)

Lemma soonest_found entries order best :
  (forall u s, best = Some (u, s) -> is_Some (entries !! u)) ->
  match soonest entries order best with
  | Some u => is_Some (entries !! u)
  | None => best = None /\ forall u, u ∈ order -> entries !! u = None
  end.
Proof.
  revert best. induction order as [|u order IH]; intros best Hb; cbn [soonest].
  { destruct best as [[u s]|]; cbn; [by eapply Hb|]. split; [done|]. by intros u ?%elem_of_nil. }
  destruct (entries !! u) as [e|] eqn:Eu.
  - assert (match soonest entries order (Some (u, en_expires e)) with
      | Some u => is_Some (entries !! u) | None => False end) as Hu.
    { specialize (IH (Some (u, en_expires e)) ltac:(naive_solver)).
      destruct (soonest entries order (Some (u, en_expires e))); [done|by destruct IH]. }
    destruct best as [[b s]|].
    + case_decide.
      * destruct (soonest entries order (Some (u, en_expires e))); done.
      * specialize (IH (Some (b, s)) Hb). destruct (soonest entries order (Some (b, s))); [done|by destruct IH].
    + destruct (soonest entries order (Some (u, en_expires e))); done.
  - specialize (IH best Hb). destruct (soonest entries order best); [done|]. destruct IH as [-> IH]. split; [done|].
    intros v [->|Hv]%elem_of_cons; [done|by apply IH].
Qed.

Lemma live_lookup (now : Z) (m : gmap bytes entry) (u : bytes) (e : entry) :
  filter (fun p : bytes * entry => now <= en_expires (snd p)) m !! u = Some e <-> m !! u = Some e /\ now <= en_expires e.
Proof. by rewrite map_lookup_filter_Some. Qed.

Lemma live_size (now : Z) (m : gmap bytes entry) : (size (filter (fun p : bytes * entry => (now <= en_expires (snd p))%Z) m) <= size m)%nat.
Proof. apply map_subseteq_size, map_filter_subseteq. Qed.

(** Eviction keeps a part of the map, and less than the bound of it. *)
Lemma evict_spec c now order :
  0 < ca_maxEntries c -> Z.of_nat (size (ca_entries c)) <= ca_maxEntries c ->
  (forall k, is_Some (ca_entries c !! k) -> k ∈ order) ->
  (forall u e, ca_entries (cache_evictLocked c now order) !! u = Some e -> ca_entries c !! u = Some e) /\
  Z.of_nat (size (ca_entries (cache_evictLocked c now order))) < ca_maxEntries c.
Proof.
  intros Hpos Hsz Hall. unfold cache_evictLocked. case_decide as Hd; cbn [with_entries ca_entries].
  { split; [|done]. by intros u e [? _]%live_lookup. }
  split; [intros u e; rewrite lookup_delete_Some, live_lookup; tauto|].
  set (live := filter _ _) in *. pose proof (live_size now (ca_entries c)) as Hls. fold live in Hls.
  pose proof (soonest_found live order None ltac:(done)) as Hs.
  destruct (soonest live order None) as [u|]; cbn [default from_option id].
  - destruct Hs as [e He]. rewrite map_size_delete_Some by eauto.
    assert (size live <> 0%nat) by (eapply map_size_ne_0_lookup_2; eauto). lia.
  - destruct Hs as [_ Hs]. assert (live = ∅) as ->.
    { apply map_empty. intros u. destruct (live !! u) as [e|] eqn:E; [|done].
      rewrite (Hs u) in E; [done|]. apply Hall. exists e. by apply live_lookup in E as [? _]. }
    rewrite delete_empty, map_size_empty. lia.
Qed.

(** What an event does to the answer remembered for [user]. *)
Definition settles (user : bytes) (e : cache_event) : bool :=
  match e with
  | CAnswer _ _ _ _ u answer => bool_decide (u = user) && cacheable answer
  | CForget u => bool_decide (u = user)
  | CFlush => true
  | CGet _ _ => false
  end.

(** The latest event about [user] in the history is the store's answer [answer],
    dated [now1]. *)
Definition last_answer (es : list cache_event) (user : bytes) (answer : result cred_err Verifier) (now1 : Z) : Prop :=
  exists before asked now2 order after,
    es = before ++ CAnswer asked now1 now2 order user answer :: after /\ cacheable answer = true /\
    Forall (fun e => settles user e = false) after.

Lemma last_answer_snoc es user answer now1 e :
  last_answer es user answer now1 -> settles user e = false -> last_answer (es ++ [e]) user answer now1.
Proof.
  intros (before & asked & now2 & order & after & -> & Hc & HF) He.
  exists before, asked, now2, order, (after ++ [e]). split; [by rewrite <- app_assoc|]. split; [done|].
  apply Forall_app. split; [done|]. by repeat constructor.
Qed.

Record cache_inv (c0 : Cache) (es : list cache_event) (c : Cache) : Prop := {
  ci_same : ca_ttl c = ca_ttl c0 /\ ca_negativeTTL c = ca_negativeTTL c0 /\ ca_maxEntries c = ca_maxEntries c0;
  ci_bound : Z.of_nat (size (ca_entries c)) <= ca_maxEntries c;
  ci_entry : forall user e, ca_entries c !! user = Some e ->
    exists now1, last_answer es user (en_answer e) now1 /\ en_expires e = expiryFor c0 now1 (en_answer e)
}.

(** Keeping a part of the map keeps the invariant. *)
Lemma cache_inv_part c0 es c e m :
  cache_inv c0 es c -> (size m <= size (ca_entries c))%nat ->
  (forall user x, m !! user = Some x -> ca_entries c !! user = Some x /\ settles user e = false) ->
  cache_inv c0 (es ++ [e]) (with_entries c m).
Proof.
  intros [Hs Hb He] Hsz Hm. split; cbn; [done|lia|]. intros user x [Hx Hn]%Hm.
  destruct (He user x Hx) as (now1 & Hl & Hex). exists now1. split; [by apply last_answer_snoc|done].
Qed.

Lemma cache_inv_id c0 es c e :
  cache_inv c0 es c -> (forall user, is_Some (ca_entries c !! user) -> settles user e = false) -> cache_inv c0 (es ++ [e]) c.
Proof.
  intros Hi Hn. assert (c = with_entries c (ca_entries c)) as -> by (by destruct c).
  apply cache_inv_part; [done|done|]. intros user x Hx. split; [done|]. apply Hn. by exists x.
Qed.

Lemma size_delete_le {A} (m : gmap bytes A) k : (size (delete k m) <= size m)%nat.
Proof. apply map_subseteq_size, delete_subseteq. Qed.

Lemma cache_inv_step c0 es c e :
  0 < ca_maxEntries c0 -> ranges_all c [e] -> cache_inv c0 es c -> cache_inv c0 (es ++ [e]) (cache_apply c e).
Proof.
  intros Hpos [Hr _] Hi. destruct e as [now user|asked now1 now2 order user answer|user|]; cbn [cache_apply].
  - unfold cache_get. destruct (ca_entries c !! user) as [found|]; [|by apply cache_inv_id].
    case_decide; cbn [snd]; [|by apply cache_inv_id].
    apply cache_inv_part; [done|apply size_delete_le|]. intros u x [_ ?]%lookup_delete_Some. done.
  - unfold remember. destruct (cacheable answer) eqn:Hc; cbn [negb].
    2:{ apply cache_inv_id; [done|]. intros u _. cbn. by rewrite Hc, andb_false_r. }
    pose proof Hi as [Hs Hb He].
    set (c1 := if decide (ca_maxEntries c <= Z.of_nat (size (ca_entries c))) then cache_evictLocked c now2 order else c).
    assert ((forall u x, ca_entries c1 !! u = Some x -> ca_entries c !! u = Some x) /\
            Z.of_nat (size (ca_entries c1)) < ca_maxEntries c /\ ca_ttl c1 = ca_ttl c /\
            ca_negativeTTL c1 = ca_negativeTTL c /\ ca_maxEntries c1 = ca_maxEntries c) as (Hsub & Hlt & E1 & E2 & E3).
    { subst c1. case_decide; [|split_and!; [done|lia|done|done|done]].
      destruct (evict_spec c now2 order) as [H1 H2]; [by destruct Hs as (_ & _ & ->)|done|done|].
      split_and!; [done|done|..]; unfold cache_evictLocked; by case_decide. }
    unfold cache_put. fold c1. split; cbn [with_entries ca_ttl ca_negativeTTL ca_maxEntries ca_entries].
    + rewrite E1, E2, E3. done.
    + rewrite map_size_insert, E3. destruct (ca_entries c1 !! user); unfold id; lia.
    + intros u x [[<- <-]|[Hne Hx]]%lookup_insert_Some.
      * exists now1. split; [exists es, asked, now2, order, []; by split_and!|].
        unfold expiryFor. cbn. destruct Hs as (-> & -> & _). done.
      * apply Hsub, He in Hx as (n1 & Hl & Hex). exists n1. split; [|done].
        apply last_answer_snoc; [done|]. cbn. by rewrite bool_decide_false.
  - apply cache_inv_part; [done|apply size_delete_le|]. intros u x [Hne Hx]%lookup_delete_Some. split; [done|].
    cbn. by rewrite bool_decide_false.
  - apply cache_inv_part; [done|cbn; rewrite map_size_empty; lia|]. by intros u x ?%lookup_empty_Some.
Qed.

Lemma ranges_all_snoc c es e : ranges_all c (es ++ [e]) <-> ranges_all c es /\ ranges_all (foldl cache_apply c es) [e].
Proof.
  revert c. induction es as [|x es IH]; intros c; cbn [app foldl]; [cbn [ranges_all]; tauto|].
  cbn [ranges_all]. rewrite IH. cbn [ranges_all]. tauto.
Qed.

Lemma cache_inv_run c0 es :
  0 < ca_maxEntries c0 -> ca_entries c0 = ∅ -> ranges_all c0 es -> cache_inv c0 es (foldl cache_apply c0 es).
Proof.
  intros Hpos He. induction es as [|e es IH] using rev_ind; intros Hr.
  - split; cbn; [done|rewrite He, map_size_empty; lia|]. rewrite He. by intros u x ?%lookup_empty_Some.
  - apply ranges_all_snoc in Hr as [Hr1 Hr2]. rewrite foldl_app. cbn [foldl]. apply cache_inv_step; auto.
Qed.

(** C14: The memory of verifiers is bounded and honest.  However many role names
    are tried and however the lookups of different sessions interleave, it never
    holds more than its bound; and what it answers for a role is the latest
    definite answer the store gave for that very role, not forgotten or flushed
    since, and no older than the time such an answer is trusted: a found verifier
    for the positive, an unknown role or unusable verifier for the negative
    time to live.  A failure to reach the store is never remembered. *)
Theorem cached_answers_honest ttl negativeTTL maxEntries es now user :
  let c0 := NewCache ttl negativeTTL maxEntries in
  ranges_all c0 es ->
  let c := cache_run ttl negativeTTL maxEntries es in
  cache_Len c <= ca_maxEntries c0 /\
  (forall answer, fst (cache_get c now user) = Some answer ->
     exists now1, last_answer es user answer now1 /\ now <= expiryFor c0 now1 answer /\
       (answer = Err ErrUnknownUser \/ answer = Err ErrUnsupportedVerifier \/ exists v, answer = Ok v)).
Proof.
  intros c0 Hr c. assert (0 < ca_maxEntries c0) as Hpos.
  { cbn. case_decide; [done|lia]. }
  destruct (cache_inv_run c0 es Hpos eq_refl Hr) as [Hs Hb He]. split.
  { unfold cache_Len, c, cache_run. fold c0. destruct Hs as (_ & _ & <-). done. }
  intros answer. unfold cache_get. destruct (ca_entries c !! user) as [found|] eqn:Ef; [|done].
  case_decide as Hd; [done|]. cbn [fst]. intros [= <-]. destruct (He user found Ef) as (now1 & Hl & Hx).
  exists now1. split_and!; [done|lia|]. destruct Hl as (_ & _ & _ & _ & _ & _ & Hc & _).
  destruct (en_answer found) as [[]|v]; cbn in Hc; eauto; done.
Qed.

Lemma cached_answers_honest_witness :
  exists now1, last_answer [CAnswer 1 2 3 [] (bs "mallory") (Err ErrUnknownUser)] (bs "mallory") (Err ErrUnknownUser) now1.
Proof.
  destruct (cached_answers_honest 0 0 0 [CAnswer 1 2 3 [] (bs "mallory") (Err ErrUnknownUser)] 5 (bs "mallory"))
    as [_ H].
  - split; [|exact I]. intros k [e He]. discriminate He.
  - destruct (H (Err ErrUnknownUser)) as (now1 & Hl & _); [vm_compute; reflexivity|]. by exists now1.
Defined.

(** ** The file store: all of a file or nothing of it *)

Lemma Reload_all_or_nothing users file :
  match Reload users file with
  | (Err _, users') => users' = users
  | (Ok _, users') => exists mode content, file = Some (mode, content) /\ Z.land mode 63 = 0 /\
                        load_lines (raw_lines content) ∅ = Ok users'
  end.
Proof.
  unfold Reload. destruct file as [[mode content]|]; [|done]. case_decide as Hm; [done|].
  destruct (load_lines (raw_lines content) ∅) as [e|loaded] eqn:E; [done|]. by exists mode, content.
Qed.

(** The last line of the documented format, a role without a password followed
    by a comment, is refused, and with it the whole file. *)
Example documented_comment_refused :
  parseLine (bs "carol                       # no password") = Err ErrUnsupportedVerifier.
Proof. vm_compute. reflexivity. Qed.

Example documented_file_refused :
  fst (Reload ∅ (Some (384, bs "carol                       # no password"))) = Err ErrUnsupportedVerifier.
Proof. vm_compute. reflexivity. Qed.

(** A quoted name may contain spaces. *)
Example quoted_name_read :
  splitName (dquote :: bs "reporting user" ++ dquote :: bs "  md5") = Ok (bs "reporting user", bs "  md5").
Proof. vm_compute. reflexivity. Qed.

(** The query store never answers for another role than the one it was asked. *)
Lemma query_Lookup_own answer user v :
  query_Lookup answer user = Ok v -> exists stored, answer user = Row user stored /\ ParseVerifier stored = Ok v.
Proof.
  unfold query_Lookup. destruct (answer user) as [| |name stored]; try done. case_decide as H; [done|].
  subst name. intros Hp. by exists stored.
Qed.
