(* ===== verification/Auth.v ===== *)
(** * Authentication on the wire

    [protocol/sasl.go], [protocol/client_auth.go], [protocol/backend_auth.go]
    and [proxy/client_auth.go]: the messages that carry the exchanges of
    Credentials.v, Pontus in the server's role toward a client and in the
    client's role toward a backend, and the end of the startup phase.

    A connection is what the peer will still send and what was written to it
    ([ClientConn]); writes succeed.  Every function is a computation that may
    fail and leaves the connection as it then is, so that what was written before
    a failure is part of its result. *)
From Stdlib Require Import ZArith Lia Strings.String.
From stdpp Require Import base gmap list numbers option.
From S2P Require Import Prelude Wire Scanner Lexer Session Startup Crypto Credentials.
#[local] Open Scope Z_scope.

(** ** Computations on a connection *)

Inductive auth_err :=
| AE_read (e : wire_err)
| AE_length (length : Z)
| AE_unexpected (tag : byte)
| AE_truncated
| AE_refused (text : bytes)
| AE_cred (e : cred_err)
| AE_state (type : Z)
| ErrUnsupportedAuth
| ErrAuthRejected
| ErrWrongIdentity
| OutOfFuel.

Definition IO (A : Type) : Type := ClientConn -> result auth_err A * ClientConn.

#[global] Instance IO_ret : MRet IO := fun A a c => (Ok a, c).
#[global] Instance IO_bind : MBind IO :=
  fun A B k m c => match m c with (Ok a, c) => k a c | (Err e, c) => (Err e, c) end.

Definition fail {A} (e : auth_err) : IO A := fun c => (Err e, c).
Definition lift {A} (r : result cred_err A) : IO A :=
  fun c => (match r with Ok a => Ok a | Err e => Err (AE_cred e) end, c).

Lemma IO_bind_ok {A B} (m : IO A) (k : A -> IO B) c b c' :
  (m ≫= k) c = (Ok b, c') <-> exists a c1, m c = (Ok a, c1) /\ k a c1 = (Ok b, c').
Proof. unfold mbind, IO_bind. destruct (m c) as [[e|a] c1]; naive_solver. Qed.

(** ** Messages *)

Definition authOK : Z := 0.
Definition authCleartextPassword : Z := 3.
Definition authMD5Password : Z := 5.
Definition authSASL : Z := 10.
Definition authSASLContinue : Z := 11.
Definition authSASLFinal : Z := 12.
Definition saslMechanismSCRAM : bytes := bs "SCRAM-SHA-256".
Definition maxAuthMessage : Z := 64 * 1024.

(** [writeTagged]. *)
Definition writeTagged (tag : byte) (body : bytes) : IO unit :=
  fun c => (Ok tt, cc_write c (appendTagged [] tag body)).

(** [readTagged]. *)
Definition readTagged : IO (byte * bytes) := fun c =>
  match ReadFull 5 (cc_in c) with
  | Err e => (Err (AE_read e), cc_read c [])
  | Ok ([tag; x1; x2; x3; x4], rest) =>
      let length := be_uint32 x1 x2 x3 x4 in
      if decide (length < 4 \/ length > maxAuthMessage) then (Err (AE_length length), cc_read c rest)
      else match ReadFull (Z.to_nat (length - 4)) rest with
           | Err e => (Err (AE_read e), cc_read c [])
           | Ok (body, rest) => (Ok (tag, body), cc_read c rest)
           end
  | Ok _ => (Err AE_truncated, c)
  end.

Definition WriteAuthSASL : IO unit := writeTagged (ch "R") (put_uint32 authSASL ++ saslMechanismSCRAM ++ [NUL; NUL]).
Definition WriteAuthSASLContinue (data : bytes) : IO unit := writeTagged (ch "R") (put_uint32 authSASLContinue ++ data).
Definition WriteAuthSASLFinal (data : bytes) : IO unit := writeTagged (ch "R") (put_uint32 authSASLFinal ++ data).
Definition WriteAuthMD5 (salt : bytes) : IO unit := writeTagged (ch "R") (put_uint32 authMD5Password ++ salt).
Definition WriteAuthOK : IO unit := writeTagged (ch "R") (put_uint32 authOK).
Definition WritePasswordMessage (response : bytes) : IO unit := writeTagged (ch "p") (response ++ [NUL]).
Definition WriteSASLInitialResponse (mechanism clientFirst : bytes) : IO unit :=
  writeTagged (ch "p") (mechanism ++ NUL :: put_uint32 (u32 (zlen clientFirst)) ++ clientFirst).
Definition WriteSASLResponse (data : bytes) : IO unit := writeTagged (ch "p") data.

(** [ReadPasswordMessage]. *)
Definition ReadPasswordMessage : IO bytes :=
  '(tag, body) ← readTagged;
  if decide (tag <> ch "p") then fail (AE_unexpected tag)
  else mret (match indexByte body NUL with Some n => take n body | None => body end).

(** [errorFields]: severity, code and message, the last of each. *)
Fixpoint error_fields_loop (fuel : nat) (body severity code message : bytes) : bytes * bytes * bytes :=
  match fuel with
  | O => (severity, code, message)
  | S fuel =>
      match body with
      | [] => (severity, code, message)
      | field :: rest =>
          if decide (field = NUL) then (severity, code, message)
          else match cut rest NUL with
               | None => (severity, code, message)
               | Some (value, rest) =>
                   if decide (field = ch "S") then error_fields_loop fuel rest value code message
                   else if decide (field = ch "C") then error_fields_loop fuel rest severity value message
                   else if decide (field = ch "M") then error_fields_loop fuel rest severity code value
                   else error_fields_loop fuel rest severity code message
               end
      end
  end.

Definition errorFields (body : bytes) : bytes :=
  let '(severity, code, message) := error_fields_loop (length body) body [] [] [] in
  severity ++ ch " " :: code ++ bs ": " ++ message.

Record AuthRequest := { ar_Type : Z; ar_Salt : bytes; ar_Mechanisms : list bytes; ar_Data : bytes }.

(** The list of mechanisms, up to the empty one. *)
Fixpoint mechanisms (fuel : nat) (rest : bytes) : list bytes :=
  match fuel with
  | O => []
  | S fuel =>
      match cut rest NUL with
      | Some (x :: name, rest) => (x :: name) :: mechanisms fuel rest
      | _ => []
      end
  end.

(** [ReadAuthRequest]. *)
Definition ReadAuthRequest : IO AuthRequest :=
  '(tag, body) ← readTagged;
  if decide (tag = ch "E") then fail (AE_refused (errorFields body))
  else if decide (tag <> ch "R") then fail (AE_unexpected tag)
  else match body with
       | x1 :: x2 :: x3 :: x4 :: rest =>
           let type := i32 (be_uint32 x1 x2 x3 x4) in
           if decide (type = authMD5Password) then
             if decide (length rest < 4)%nat then fail AE_truncated
             else mret {| ar_Type := type; ar_Salt := take 4 rest; ar_Mechanisms := []; ar_Data := [] |}
           else if decide (type = authSASL) then
             mret {| ar_Type := type; ar_Salt := []; ar_Mechanisms := mechanisms (length rest) rest; ar_Data := [] |}
           else if decide (type = authSASLContinue \/ type = authSASLFinal) then
             mret {| ar_Type := type; ar_Salt := []; ar_Mechanisms := []; ar_Data := rest |}
           else mret {| ar_Type := type; ar_Salt := []; ar_Mechanisms := []; ar_Data := [] |}
       | _ => fail AE_truncated
       end.

(** [ReadSASLResponse]. *)
Definition ReadSASLResponse (initial : bool) : IO (bytes * bytes) :=
  '(tag, body) ← readTagged;
  if decide (tag <> ch "p") then fail (AE_unexpected tag)
  else if negb initial then mret ([], body)
  else match cut body NUL with
       | None => fail AE_truncated
       | Some (mechanism, x1 :: x2 :: x3 :: x4 :: rest) =>
           let length := i32 (be_uint32 x1 x2 x3 x4) in
           if decide (length < 0 \/ length > zlen rest) then fail AE_truncated
           else mret (mechanism, ztake length rest)
       | Some _ => fail AE_truncated
       end.

(** ** Toward the client *)

(** [authenticateMD5]; [salt] is the fresh challenge. *)
Definition authenticateMD5 (salt : option bytes) (verifier : Verifier) : IO unit :=
  match salt with
  | None => fail (AE_cred ErrAuthFailed)
  | Some salt =>
      _ ← WriteAuthMD5 salt;
      response ← ReadPasswordMessage;
      match VerifyMD5 verifier salt response with
      | Err _ => fail ErrAuthRejected
      | Ok _ => WriteAuthOK
      end
  end.

(** [authenticateSCRAM]; [raw] is the server's nonce. *)
Definition authenticateSCRAM (raw : option bytes) (verifier : option SCRAMVerifier) : IO (option bytes) :=
  server ← lift (NewScramServer verifier);
  _ ← WriteAuthSASL;
  '(mechanism, clientFirst) ← ReadSASLResponse true;
  if decide (mechanism <> saslMechanismSCRAM) then fail ErrUnsupportedAuth
  else
    '(serverFirst, server) ← lift (Begin server raw clientFirst);
    _ ← WriteAuthSASLContinue serverFirst;
    '(_, clientFinal) ← ReadSASLResponse false;
    match Finish server clientFinal with
    | Err _ => fail ErrAuthRejected
    | Ok (serverFinal, server) =>
        _ ← WriteAuthSASLFinal serverFinal;
        _ ← WriteAuthOK;
        mret (ss_clientKey server)
    end.

(** [AuthenticateClient]: the key recovered, [None] for MD5. *)
Definition AuthenticateClient (raw salt : option bytes) (verifier : Verifier) : IO (option bytes) :=
  match v_Method verifier with
  | MethodSCRAM => authenticateSCRAM raw (v_SCRAM verifier)
  | MethodMD5 => _ ← authenticateMD5 salt verifier; mret None
  | MethodNone => fail ErrAuthRejected
  end.

(** ** Toward the backend *)

(** [writeStartup]; [params] are the further parameters in map order. *)
Definition writeStartup (user database : bytes) (params : list (bytes * bytes)) : IO unit := fun c =>
  let extra := List.filter (fun kv => negb (bool_decide (fst kv = bs "user") || bool_decide (fst kv = bs "database"))) params in
  let body := put_uint32 196608 ++
    params_bytes ((bs "user", user) :: (if decide (database <> []) then [(bs "database", database)] else []) ++ extra) ++ [NUL] in
  (Ok tt, cc_write c (put_uint32 (u32 (zlen body + 4)) ++ body)).

(** [runSASL]; [raw] is Pontus's nonce. *)
Definition runSASL (raw : option bytes) (scram : ScramClient) (offer : AuthRequest) (serverKey : bytes) : IO unit :=
  if decide (saslMechanismSCRAM ∉ ar_Mechanisms offer) then fail ErrUnsupportedAuth
  else
    '(clientFirst, scram) ← lift (First scram raw);
    _ ← WriteSASLInitialResponse saslMechanismSCRAM clientFirst;
    challenge ← ReadAuthRequest;
    if decide (ar_Type challenge <> authSASLContinue) then fail (AE_state (ar_Type challenge))
    else
      '(clientFinal, scram) ← lift (Final scram (ar_Data challenge));
      _ ← WriteSASLResponse clientFinal;
      final ← ReadAuthRequest;
      if decide (ar_Type final <> authSASLFinal) then fail (AE_state (ar_Type final))
      else lift (VerifyServer scram (ar_Data final) serverKey).

(** [AuthenticateBackend]'s loop: [raw n] is the nonce of the [n]th exchange.
    A SCRAM verifier without its parts would be a nil dereference. *)
Fixpoint backend_loop (fuel n : nat) (user : bytes) (clientKey : option bytes) (verifier : Verifier) (raw : nat -> option bytes)
  : IO unit :=
  match fuel with
  | O => fail OutOfFuel
  | S fuel =>
      req ← ReadAuthRequest;
      if decide (ar_Type req = authOK) then mret tt
      else if decide (ar_Type req = authSASL) then
        if decide (v_Method verifier <> MethodSCRAM) then fail ErrUnsupportedAuth
        else
          scram ← lift (NewScramClient user (default [] clientKey));
          match v_SCRAM verifier with
          | None => fail AE_truncated
          | Some v =>
              _ ← runSASL (raw n) scram req (ServerKey v);
              backend_loop fuel (S n) user clientKey verifier raw
          end
      else if decide (ar_Type req = authCleartextPassword) then fail ErrUnsupportedAuth
      else if decide (ar_Type req = authMD5Password) then
        if decide (v_Method verifier <> MethodMD5) then fail ErrUnsupportedAuth
        else
          _ ← WritePasswordMessage (MD5Response (v_MD5 verifier) (ar_Salt req));
          backend_loop fuel n user clientKey verifier raw
      else fail ErrUnsupportedAuth
  end.

(** [AuthenticateBackend]: every turn reads a message of at least five bytes. *)
Definition AuthenticateBackend (user database : bytes) (clientKey : option bytes) (verifier : Verifier)
    (params : list (bytes * bytes)) (raw : nat -> option bytes) : IO unit := fun c =>
  (_ ← writeStartup user database params;
   backend_loop (S (length (cc_in c))) 0 user clientKey verifier raw) c.

(** ** The end of the startup phase *)

Record Startup_ := { st_Params : gmap bytes bytes; st_BackendKey : bytes }.

(** [splitCString] is [cut] at the NUL. *)
Fixpoint ready_loop (fuel : nat) (out : Startup_) : IO Startup_ :=
  match fuel with
  | O => fail OutOfFuel
  | S fuel =>
      '(tag, body) ← readTagged;
      if decide (tag = ch "S") then
        match cut body NUL with
        | None => ready_loop fuel out
        | Some (key, rest) =>
            let value := match cut rest NUL with Some (v, _) => v | None => [] end in
            ready_loop fuel {| st_Params := <[key := value]> (st_Params out); st_BackendKey := st_BackendKey out |}
        end
      else if decide (tag = ch "K") then
        ready_loop fuel {| st_Params := st_Params out; st_BackendKey := body |}
      else if decide (tag = ch "Z") then mret out
      else if decide (tag = ch "E") then fail (AE_refused (errorFields body))
      else ready_loop fuel out
  end.

(** [WaitForReady]. *)
Definition WaitForReady : IO Startup_ := fun c =>
  ready_loop (S (length (cc_in c))) {| st_Params := ∅; st_BackendKey := [] |} c.

(** [CompleteClientStartup]; [order] is how the parameters were ranged over. *)
Definition status_frame (kv : bytes * bytes) : byte * bytes := (ch "S", fst kv ++ NUL :: snd kv ++ [NUL]).

Definition CompleteClientStartup (order : list (bytes * bytes)) (startup : Startup_) : IO unit := fun c =>
  (Ok tt, cc_write c (frames (map status_frame order ++
     (if decide (st_BackendKey startup <> []) then [(ch "K", st_BackendKey startup)] else []) ++ [(ch "Z", [ch "I"])]))).

(** ** The gateway's client authentication *)

(** [authenticateClient] of the gateway: [lookup] is the credential store's
    answer, [render] the text of an error. *)
Definition authenticateClient (lookup : result cred_err Verifier) (render : auth_err -> bytes) (raw salt : option bytes)
  : IO (option bytes * Verifier) := fun c =>
  let rejected c := (Err ErrAuthRejected, cc_write c (WriteStartupError (bs "28P01") (bs "password authentication failed"))) in
  match lookup with
  | Err _ => rejected c
  | Ok verifier =>
      match AuthenticateClient raw salt verifier c with
      | (Ok clientKey, c) => (Ok (clientKey, verifier), c)
      | (Err ErrUnsupportedAuth, c) => (Err ErrUnsupportedAuth, cc_write c (WriteStartupError (bs "0A000") (render ErrUnsupportedAuth)))
      | (Err _, c) => rejected c
      end
  end.

(** ** What a computation reads and writes *)

(** [m] consumes a prefix of its input, appends whole messages to its output and
    neither drops nor rewrites anything. *)
Definition extends (c c' : ClientConn) (ms : list (byte * bytes)) : Prop :=
  cc_out c' = cc_out c ++ frames ms /\ exists used, cc_in c = used ++ cc_in c'.

Lemma extends_refl c : extends c c [].
Proof. split; [by rewrite app_nil_r|by exists []]. Qed.

Lemma extends_trans c1 c2 c3 ms1 ms2 : extends c1 c2 ms1 -> extends c2 c3 ms2 -> extends c1 c3 (ms1 ++ ms2).
Proof.
  intros [O1 [u1 I1]] [O2 [u2 I2]]. split.
  - rewrite O2, O1, <- app_assoc. unfold frames. by rewrite map_app, concat_app.
  - exists (u1 ++ u2). by rewrite I1, I2, app_assoc.
Qed.

Lemma writeTagged_extends tag body c : exists c', writeTagged tag body c = (Ok tt, c') /\ extends c c' [(tag, body)] /\ cc_in c' = cc_in c.
Proof.
  eexists. split; [done|]. split; [split; [|by exists []]|done].
  unfold frames, frame, cc_write. cbn. by rewrite app_nil_r.
Qed.

Lemma readTagged_extends c r c' : readTagged c = (r, c') -> extends c c' [].
Proof.
  unfold readTagged, extends. rewrite app_nil_r. destruct (ReadFull 5 (cc_in c)) as [e|[h rest]] eqn:E.
  { intros [= <- <-]. cbn. split; [done|]. exists (cc_in c). by rewrite app_nil_r. }
  apply ReadFull_ok in E as [E Hh]. destruct h as [|t [|a [|b [|x [|d [|]]]]]]; try done. cbv zeta.
  case_decide; [intros [= <- <-]; cbn; split; [done|by eexists]|].
  destruct (ReadFull _ rest) as [e|[bd rest']] eqn:E2.
  { intros [= <- <-]. cbn. split; [done|]. exists (cc_in c). by rewrite app_nil_r. }
  apply ReadFull_ok in E2 as [-> _]. intros [= <- <-]. cbn. split; [done|].
  exists ([t; a; b; x; d] ++ bd). by rewrite E, app_assoc.
Qed.

Lemma readTagged_ok c tag body c' :
  readTagged c = (Ok (tag, body), c') ->
  cc_in c = appendTagged [] tag body ++ cc_in c' /\ zlen body + 4 <= maxAuthMessage /\ cc_out c' = cc_out c.
Proof.
  unfold readTagged. destruct (ReadFull 5 (cc_in c)) as [e|[h rest]] eqn:E; [done|].
  apply ReadFull_ok in E as [E Hh]. destruct h as [|t [|a [|b [|x [|d [|]]]]]]; try done. cbv zeta.
  case_decide as Hl; [done|]. destruct (ReadFull _ rest) as [e|[bd rest']] eqn:E2; [done|].
  apply ReadFull_ok in E2 as [-> Hb]. intros [= <- <- <-]. cbn [cc_in cc_out cc_read].
  assert (zlen bd + 4 = be_uint32 a b x d) as Ez by (unfold zlen; lia).
  split_and!; [|lia|done]. rewrite E. unfold appendTagged. by rewrite Ez, put_uint32_be.
Qed.

Lemma readTagged_frame tag body c rest :
  cc_in c = appendTagged [] tag body ++ rest -> zlen body + 4 <= maxAuthMessage ->
  readTagged c = (Ok (tag, body), cc_read c rest).
Proof.
  intros E Hl. unfold readTagged. change maxAuthMessage with 65536 in *.
  destruct (appendTagged_cases tag body ltac:(lia)) as (a & b & x & d & Et & Hv).
  rewrite E, Et. change ((tag :: a :: b :: x :: d :: body) ++ rest) with ([tag; a; b; x; d] ++ (body ++ rest)).
  rewrite ReadFull_app by done. cbv zeta. rewrite Hv. pose proof (zlen_nonneg body).
  rewrite decide_False by lia. by rewrite ReadFull_app by (unfold zlen; lia).
Qed.

(** A bind runs its parts in order; the tactic splits a computation's run. *)
Lemma IO_bind_run {A B} (m : IO A) (k : A -> IO B) c r c' :
  (m ≫= k) c = (r, c') ->
  (exists a c1, m c = (Ok a, c1) /\ k a c1 = (r, c')) \/ (exists e, m c = (Err e, c') /\ r = Err e).
Proof. unfold mbind, IO_bind. destruct (m c) as [[e|a] c1]; naive_solver. Qed.

Ltac run H :=
  let a := fresh "a" in let c := fresh "c" in let E := fresh "E" in let e := fresh "e" in
  apply IO_bind_run in H as [(a & c & E & H)|(e & E & ->)].

Ltac pure_run := repeat (case_match || case_decide); unfold fail, mret, IO_ret in *; simplify_eq.

Lemma ReadSASLResponse_run initial c r c' :
  ReadSASLResponse initial c = (r, c') ->
  extends c c' [] /\
  forall mechanism data, r = Ok (mechanism, data) ->
    exists body, cc_in c = frame (ch "p", body) ++ cc_in c' /\ (initial = false -> data = body).
Proof.
  unfold ReadSASLResponse. intros H. run H.
  - destruct a as [tag body]. pose proof (readTagged_extends _ _ _ E) as Hx. apply readTagged_ok in E as (E & _ & _).
    case_decide as Ht; [by pure_run|]. subst tag.
    assert (c' = c0) as ->; [by pure_run|]. split; [done|]. intros mechanism data ->. exists body. split; [done|].
    intros ->. by pure_run.
  - split; [by eapply readTagged_extends|]. done.
Qed.

Lemma ReadPasswordMessage_run c r c' :
  ReadPasswordMessage c = (r, c') ->
  extends c c' [] /\
  forall response, r = Ok response -> exists body, cc_in c = frame (ch "p", body) ++ cc_in c' /\
    response = (match indexByte body NUL with Some n => take n body | None => body end).
Proof.
  unfold ReadPasswordMessage. intros H. run H.
  - destruct a as [tag body]. pose proof (readTagged_extends _ _ _ E) as Hx. apply readTagged_ok in E as (E & _ & _).
    case_decide as Ht; [by pure_run|]. subst tag.
    unfold mret, IO_ret in H. simplify_eq. split; [done|]. intros response [= <-]. by exists body.
  - split; [by eapply readTagged_extends|]. done.
Qed.

Lemma Begin_ok s raw first challenge s' :
  Begin s raw first = Ok (challenge, s') ->
  ss_verifier s' = ss_verifier s /\ exists clientNonce nonce, raw = Some nonce /\ clientNonce <> [] /\
    ss_nonce s' = clientNonce ++ b64_encode nonce.
Proof.
  unfold Begin. intros ([g b] & _ & H)%result_bind_ok. destruct (HasPrefix _ _); [done|].
  apply result_bind_ok in H as (n & _ & H). case_decide; [done|].
  apply result_bind_ok in H as (sn & Hn & H). unfold newNonce in Hn. destruct raw as [raw|]; [|done].
  injection Hn as <-. injection H as <- <-. split; [done|]. by eexists _, _.
Qed.

(** An exchange that ended in an accepted proof: the server's part of it. *)
Definition scram_proved (sv : SCRAMVerifier) (raw : option bytes) (clientFinal : bytes) (key : option bytes) : Prop :=
  exists server verdict server' clientNonce nonce k,
    raw = Some nonce /\ ss_verifier server = sv /\ ss_nonce server = clientNonce ++ b64_encode nonce /\
    Finish server clientFinal = Ok (verdict, server') /\ key = Some k /\ ss_clientKey server' = key /\
    length k = 32%nat /\ sha256 k = StoredKey sv.

Definition ok_frame : byte * bytes := (ch "R", put_uint32 authOK).

(** What a run of the client's authentication may have done. *)
Definition authenticated (c c' : ClientConn) (r : result auth_err (option bytes)) (P : option bytes -> Prop) : Prop :=
  exists ms, extends c c' ms /\
    match r with
    | Err _ => ok_frame ∉ ms
    | Ok key => P key /\ exists ms', ms = ms' ++ [ok_frame] /\ ok_frame ∉ ms'
    end.

Lemma authenticated_prefix c c1 c' ms r P :
  extends c c1 ms -> ok_frame ∉ ms -> authenticated c1 c' r P -> authenticated c c' r P.
Proof.
  intros X N (ms2 & X2 & H). exists (ms ++ ms2). split; [by eapply extends_trans|]. destruct r as [e|key].
  - rewrite elem_of_app. tauto.
  - destruct H as (HP & ms' & -> & N'). split; [done|]. exists (ms ++ ms'). split; [by rewrite app_assoc|].
    rewrite elem_of_app. tauto.
Qed.

Lemma authenticated_err c e P : authenticated c c (Err e) P.
Proof. exists []. split; [apply extends_refl|apply not_elem_of_nil]. Qed.

(** Writing a message other than AuthenticationOk and going on. *)
Lemma authenticated_write tag body (k : unit -> IO (option bytes)) c r c' P :
  ok_frame <> (tag, body) -> (writeTagged tag body ≫= k) c = (r, c') ->
  (forall c1, cc_in c1 = cc_in c -> k tt c1 = (r, c') -> authenticated c1 c' r P) -> authenticated c c' r P.
Proof.
  intros N H Hk. destruct (writeTagged_extends tag body c) as (c1 & W & X & I).
  unfold mbind, IO_bind in H. rewrite W in H. apply (authenticated_prefix _ _ _ _ _ _ X); [|by apply Hk].
  rewrite list_elem_of_singleton. done.
Qed.

Lemma authenticateSCRAM_run raw ov c r c' :
  authenticateSCRAM raw ov c = (r, c') ->
  authenticated c c' r (fun key => exists sv first final, ov = Some sv /\
    cc_in c = frame (ch "p", first) ++ frame (ch "p", final) ++ cc_in c' /\ scram_proved sv raw final key).
Proof.
  unfold authenticateSCRAM. destruct ov as [sv|].
  2:{ intros H. run H; [done|]. injection E as <- <-. apply authenticated_err. }
  intros H. run H; [|done]. unfold lift in E. injection E as <- <-.
  eapply authenticated_write; [|exact H|]; [discriminate|]. clear H. intros c1 I1 H. rewrite <- I1. clear c I1.
  run H; apply ReadSASLResponse_run in E as [X R]; (eapply authenticated_prefix; [exact X|apply not_elem_of_nil|]);
    [|apply authenticated_err].
  destruct a as [mechanism first]. destruct (R _ _ eq_refl) as (b1 & -> & _). clear R X.
  case_decide; [injection H as <- <-; apply authenticated_err|].
  run H; unfold lift in E; destruct (Begin _ raw first) as [er|[challenge server]] eqn:EB; simplify_eq;
    [|apply authenticated_err].
  apply Begin_ok in EB as (Ev & cn & nonce & -> & Hcn & En). cbn in Ev.
  eapply authenticated_write; [|exact H|]; [by vm_compute|]. clear H. intros c2 I2 H. rewrite <- I2. clear I2.
  run H; apply ReadSASLResponse_run in E as [X R]; (eapply authenticated_prefix; [exact X|apply not_elem_of_nil|]);
    [|apply authenticated_err].
  destruct a as [m final]. destruct (R _ _ eq_refl) as (b2 & I3 & Eb). specialize (Eb eq_refl) as <-. clear R X.
  destruct (Finish server final) as [e|[verdict server']] eqn:EF; [injection H as <- <-; apply authenticated_err|].
  eapply authenticated_write; [|exact H|]; [by vm_compute|]. clear H. intros c4 I4 H.
  destruct (writeTagged_extends (ch "R") (put_uint32 authOK) c4) as (c5 & W5 & X5 & I5).
  run H; unfold WriteAuthOK in E; rewrite W5 in E; [|done]. injection E as <- <-. injection H as <- <-.
  exists [ok_frame]. split; [done|]. split; [|exists []; split; [done|apply not_elem_of_nil]].
  exists sv, b1, final. split_and!; [done|by rewrite I3, I5, I4|].
  pose proof (Finish_accepts _ _ _ _ EF) as (w & p & k & _ & _ & _ & Hk & Hl & Hs).
  exists server, verdict, server', cn, nonce, k. rewrite <- Ev. by split_and!.
Qed.

Lemma IO_bind_assoc {A B C} (m : IO A) (k : A -> IO B) (h : B -> IO C) c :
  ((m ≫= k) ≫= h) c = (m ≫= fun a => k a ≫= h) c.
Proof. unfold mbind, IO_bind. by destruct (m c) as [[e|a] c1]. Qed.

Lemma authenticateMD5_run salt v c r c' :
  (_ ← authenticateMD5 salt v; mret None) c = (r, c') ->
  authenticated c c' r (fun key => key = None /\ exists s body, salt = Some s /\ cc_in c = frame (ch "p", body) ++ cc_in c' /\
    MD5Response (v_MD5 v) s = match indexByte body NUL with Some n => take n body | None => body end).
Proof.
  unfold authenticateMD5. destruct salt as [s|].
  2:{ intros H. run H; [done|]. injection E as <- <-. apply authenticated_err. }
  intros H. rewrite IO_bind_assoc in H.
  eapply authenticated_write; [|exact H|]; [by vm_compute|]. clear H. intros c1 <- H.
  rewrite IO_bind_assoc in H. run H; apply ReadPasswordMessage_run in E as [X R];
    (eapply authenticated_prefix; [exact X|apply not_elem_of_nil|]); [|apply authenticated_err].
  destruct (R _ eq_refl) as (body & I & Er). clear R X.
  destruct (VerifyMD5 v s a) as [e|[]] eqn:EV; [injection H as <- <-; apply authenticated_err|].
  destruct (writeTagged_extends (ch "R") (put_uint32 authOK) c0) as (c5 & W5 & X5 & I5).
  run H; unfold WriteAuthOK in E; rewrite W5 in E; [|done]. injection E as <- <-. injection H as <- <-.
  exists [ok_frame]. split; [done|]. split; [|exists []; split; [done|apply not_elem_of_nil]]. split; [done|].
  exists s, body. split_and!; [done|by rewrite I, I5|].
  unfold VerifyMD5 in EV. repeat case_decide; congruence.
Qed.

(** C11: A client is told it is authenticated in exactly one way.  Whatever bytes
    it sends, the messages written to it contain AuthenticationOk if and only if
    the result is success, and then it is the last of them; success under a SCRAM
    verifier means its two messages were an opening and a proof that [Finish]
    accepts in an exchange whose nonce carries the fresh random value, and the key
    returned hashes to the stored key; success under an MD5 verifier means its
    message was the response to the fresh salt; and a role without a password never
    succeeds. *)
Theorem auth_ok_only_after_proof raw salt v c r c' :
  AuthenticateClient raw salt v c = (r, c') ->
  authenticated c c' r (fun key =>
    (v_Method v = MethodSCRAM /\ exists sv first final, v_SCRAM v = Some sv /\
       cc_in c = frame (ch "p", first) ++ frame (ch "p", final) ++ cc_in c' /\ scram_proved sv raw final key) \/
    (v_Method v = MethodMD5 /\ key = None /\ exists s body, salt = Some s /\ cc_in c = frame (ch "p", body) ++ cc_in c' /\
       MD5Response (v_MD5 v) s = match indexByte body NUL with Some n => take n body | None => body end)).
Proof.
  unfold AuthenticateClient. destruct (v_Method v) eqn:Em; intros H.
  - apply authenticateSCRAM_run in H as (ms & X & H). exists ms. split; [done|]. destruct r; [done|].
    destruct H as [H1 H2]. split; [left; split; [done|exact H1]|done].
  - apply authenticateMD5_run in H as (ms & X & H). exists ms. split; [done|]. destruct r; [done|].
    destruct H as [[H1 H1'] H2]. split; [right; split; [done|split; [done|exact H1']]|done].
  - injection H as <- <-. apply authenticated_err.
Qed.

Definition alice_first : bytes := bs "n,,n=al=2Cice,r=" ++ b64_encode (bs "client nonce").
Definition alice_V : Verifier := {| v_Method := MethodSCRAM; v_MD5 := []; v_SCRAM := Some alice |}.
Definition alice_conn : ClientConn :=
  {| cc_in := frame (ch "p", saslMechanismSCRAM ++ NUL :: put_uint32 (zlen alice_first) ++ alice_first) ++
              frame (ch "p", snd alice_server); cc_out := [] |}.
Definition alice_run := AuthenticateClient (Some (bs "server nonce")) None alice_V alice_conn.

Lemma alice_run_ok : fst alice_run = Ok (Some alice_key).
Proof. vm_compute. reflexivity. Qed.

Lemma auth_ok_only_after_proof_witness :
  fst alice_run = Ok (Some alice_key) /\
  authenticated alice_conn (snd alice_run) (fst alice_run) (fun key =>
    (v_Method alice_V = MethodSCRAM /\ exists sv first final, v_SCRAM alice_V = Some sv /\
       cc_in alice_conn = frame (ch "p", first) ++ frame (ch "p", final) ++ cc_in (snd alice_run) /\
       scram_proved sv (Some (bs "server nonce")) final key) \/
    (v_Method alice_V = MethodMD5 /\ key = None /\ exists s body, None = Some s /\
       cc_in alice_conn = frame (ch "p", body) ++ cc_in (snd alice_run) /\
       MD5Response (v_MD5 alice_V) s = match indexByte body NUL with Some n => take n body | None => body end)).
Proof.
  split; [exact alice_run_ok|].
  refine (auth_ok_only_after_proof (Some (bs "server nonce")) None alice_V alice_conn (fst alice_run) (snd alice_run) _).
  exact (surjective_pairing alice_run).
Defined.

(** ** The loops end *)

(** A computation that never runs out of fuel and never gains input. *)
Definition tame {A} (m : IO A) : Prop :=
  forall c, fst (m c) <> Err OutOfFuel /\ (length (cc_in (snd (m c))) <= length (cc_in c))%nat.

Create HintDb tame.

Lemma tame_ret {A} (a : A) : tame (mret a).
Proof. by intros c. Qed.

Lemma tame_fail {A} e : e <> OutOfFuel -> tame (@fail A e).
Proof. intros H c. split; [intros [= ]; done|done]. Qed.

Lemma tame_lift {A} (r : result cred_err A) : tame (lift r).
Proof. intros c. unfold lift. by destruct r. Qed.

Lemma tame_bind {A B} (m : IO A) (k : A -> IO B) : tame m -> (forall a, tame (k a)) -> tame (m ≫= k).
Proof.
  intros Hm Hk c. unfold mbind, IO_bind. specialize (Hm c). destruct (m c) as [[e|a] c1]; cbn in *.
  - split; [intros [= ->]; tauto|tauto].
  - destruct (Hk a c1). split; [done|lia].
Qed.

Lemma tame_write tag body : tame (writeTagged tag body).
Proof. by intros c. Qed.

Lemma tame_read : tame readTagged.
Proof.
  intros c. destruct (readTagged c) as [r c'] eqn:E. cbn. split.
  - revert E. unfold readTagged. repeat (case_match || case_decide); intros; simplify_eq; done.
  - apply readTagged_extends in E as [_ [used ->]]. rewrite length_app. lia.
Qed.
#[export] Hint Resolve tame_ret tame_lift tame_write tame_read : tame.

Ltac tame :=
  repeat first
    [ solve [auto with tame] | apply tame_fail; discriminate | apply tame_bind; [|intros ?]
    | progress case_decide | case_match ].

Lemma tame_ReadAuthRequest : tame ReadAuthRequest.
Proof. unfold ReadAuthRequest. tame. Qed.
#[export] Hint Resolve tame_ReadAuthRequest : tame.

Lemma tame_runSASL raw scram offer key : tame (runSASL raw scram offer key).
Proof. unfold runSASL, WriteSASLInitialResponse, WriteSASLResponse. tame. Qed.
#[export] Hint Resolve tame_runSASL : tame.

Lemma ReadAuthRequest_consumes c req c' : ReadAuthRequest c = (Ok req, c') -> (length (cc_in c') < length (cc_in c))%nat.
Proof.
  unfold ReadAuthRequest. intros ([tag body] & c1 & E & H)%IO_bind_ok. apply readTagged_ok in E as (E & _ & _).
  assert (c' = c1) as ->; [by pure_run|]. rewrite E, length_app.
  pose proof (zlen_appendTagged tag body). unfold zlen in *. lia.
Qed.

(** [m] and [m'] agree on [c], and not because both ran out of fuel. *)
Definition settled {A} (m m' : IO A) (c : ClientConn) : Prop := fst (m c) <> Err OutOfFuel /\ m' c = m c.

Lemma settled_tame {A} (m : IO A) c : tame m -> settled m m c.
Proof. intros H. split; [apply H|done]. Qed.

Lemma settled_bind {A B} (m : IO A) (k k' : A -> IO B) c :
  tame m -> (forall a c1, m c = (Ok a, c1) -> settled (k a) (k' a) c1) -> settled (m ≫= k) (m ≫= k') c.
Proof.
  intros Hm Hk. unfold settled, mbind, IO_bind. specialize (Hm c). destruct (m c) as [[e|a] c1]; cbn in *.
  - split; [intros [= ->]; tauto|done].
  - by apply Hk.
Qed.

Lemma backend_loop_fuel fuel fuel' n user key v raw c :
  (length (cc_in c) < fuel)%nat -> (fuel <= fuel')%nat ->
  settled (backend_loop fuel n user key v raw) (backend_loop fuel' n user key v raw) c.
Proof.
  revert fuel' n c. induction fuel as [|fuel IH]; intros fuel' n c Hc Hf; [lia|]. destruct fuel' as [|fuel']; [lia|].
  cbn [backend_loop]. apply settled_bind; [auto with tame|]. intros req c1 E%ReadAuthRequest_consumes.
  case_decide; [apply settled_tame; tame|]. case_decide.
  - case_decide; [apply settled_tame; tame|]. apply settled_bind; [auto with tame|]. intros scram c2 E2.
    destruct (v_SCRAM v); [|apply settled_tame; tame]. apply settled_bind; [auto with tame|].
    intros [] c3 E3. apply IH. pose proof (proj2 (tame_runSASL (raw n) scram req (ServerKey s) c2)) as Hr.
    rewrite E3 in Hr. cbn in Hr. unfold lift in E2. injection E2 as _ <-. all: lia.
  - case_decide; [apply settled_tame; tame|]. case_decide; [|apply settled_tame; tame].
    case_decide; [apply settled_tame; tame|]. apply settled_bind; [unfold WritePasswordMessage; auto with tame|].
    intros [] c2 [= <-]. apply IH; cbn; lia.
Qed.

Lemma ready_loop_fuel fuel fuel' out c :
  (length (cc_in c) < fuel)%nat -> (fuel <= fuel')%nat -> settled (ready_loop fuel out) (ready_loop fuel' out) c.
Proof.
  revert fuel' out c. induction fuel as [|fuel IH]; intros fuel' out c Hc Hf; [lia|]. destruct fuel' as [|fuel']; [lia|].
  cbn [ready_loop]. apply settled_bind; [auto with tame|]. intros [tag body] c1 (E & _ & _)%readTagged_ok.
  assert (length (cc_in c1) < fuel)%nat as Hc1.
  { rewrite E, length_app in Hc. pose proof (zlen_appendTagged tag body). unfold zlen in *. lia. }
  repeat (case_decide || case_match); first [apply IH; solve [lia]|apply settled_tame; tame].
Qed.

(** ** A backend's startup, from the packet to ReadyForQuery *)

(** What [authenticateFreshBackend] of the gateway runs on a new connection. *)
Definition backend_startup (user database : bytes) (clientKey : option bytes) (verifier : Verifier)
    (params : list (bytes * bytes)) (raw : nat -> option bytes) : IO Startup_ :=
  _ ← AuthenticateBackend user database clientKey verifier params raw; WaitForReady.

(** What a backend may say between accepting a user and the end of startup. *)
Inductive told := Status (key value : bytes) | Key (body : bytes) | Said (tag : byte) (body : bytes).
Inductive verdict := Ready (status : byte) | Refused (body : bytes).

Definition told_message (t : told) : byte * bytes :=
  match t with Status k v => status_frame (k, v) | Key body => (ch "K", body) | Said tag body => (tag, body) end.
Definition verdict_message (e : verdict) : byte * bytes :=
  match e with Ready status => (ch "Z", [status]) | Refused body => (ch "E", body) end.

Definition auth_sized (m : byte * bytes) : Prop := zlen (snd m) + 4 <= maxAuthMessage.
Definition told_ok (t : told) : Prop :=
  auth_sized (told_message t) /\
  match t with
  | Status k v => NUL ∉ k /\ NUL ∉ v
  | Key _ => True
  | Said tag _ => tag ∉ [ch "S"; ch "K"; ch "Z"; ch "E"]
  end.

#[global] Instance told_ok_dec t : Decision (told_ok t).
Proof. unfold told_ok, auth_sized. destruct t; apply _. Defined.
#[global] Instance auth_sized_dec m : Decision (auth_sized m).
Proof. unfold auth_sized. apply _. Defined.

(** The last value of every parameter, and the last key. *)
Definition report (out : Startup_) (t : told) : Startup_ :=
  match t with
  | Status k v => {| st_Params := <[k := v]> (st_Params out); st_BackendKey := st_BackendKey out |}
  | Key body => {| st_Params := st_Params out; st_BackendKey := body |}
  | Said _ _ => out
  end.

Definition md5_request (salt : bytes) : byte * bytes := (ch "R", put_uint32 authMD5Password ++ salt).
Definition startup_stream (salts : list bytes) (said : list told) (e : verdict) : list (byte * bytes) :=
  map md5_request salts ++ ok_frame :: map told_message said ++ [verdict_message e].

Lemma ready_loop_told said e fuel out c rest :
  Forall told_ok said -> auth_sized (verdict_message e) ->
  cc_in c = frames (map told_message said ++ [verdict_message e]) ++ rest ->
  ready_loop (length said + S fuel) out c =
  (match e with Ready _ => Ok (foldl report out said) | Refused body => Err (AE_refused (errorFields body)) end, cc_read c rest).
Proof.
  intros Hok He. revert out c. induction Hok as [|t said [Hsz Ht] _ IH]; intros out c Hc; cbn [map app length Nat.add foldl ready_loop] in *;
    rewrite frames_cons, <- app_assoc in Hc; unfold mbind, IO_bind.
  - unfold frame in Hc. erewrite readTagged_frame; [|exact Hc|done]. cbn [frames map concat app].
    destruct e; cbn [verdict_message fst snd]; done.
  - unfold frame in Hc. erewrite readTagged_frame; [|exact Hc|done].
    specialize (fun out => IH out (cc_read c (frames (map told_message said ++ [verdict_message e]) ++ rest)) eq_refl).
    destruct t as [k v|body|tag body]; cbn [told_message status_frame fst snd] in *.
    + rewrite decide_True by done. rewrite cut_app by tauto. rewrite (cut_app v NUL []) by tauto. by rewrite IH.
    + rewrite decide_False, decide_True by done. by rewrite IH.
    + rewrite !decide_False by set_solver. by rewrite IH.
Qed.

Lemma read_md5_request salt c rest :
  length salt = 4%nat -> cc_in c = frame (md5_request salt) ++ rest ->
  ReadAuthRequest c =
  (Ok {| ar_Type := authMD5Password; ar_Salt := salt; ar_Mechanisms := []; ar_Data := [] |}, cc_read c rest).
Proof.
  intros Hl Hc. unfold ReadAuthRequest, mbind, IO_bind.
  erewrite readTagged_frame; [|exact Hc|unfold md5_request; cbn [snd]; unfold zlen; rewrite length_app, Hl; vm_compute; discriminate].
  cbn [md5_request fst]. rewrite decide_False by done. rewrite decide_False by (intros Hx; apply Hx; done).
  by destruct salt as [|a [|b [|x [|y [|]]]]].
Qed.

Lemma read_auth_ok c rest :
  cc_in c = frame ok_frame ++ rest ->
  ReadAuthRequest c = (Ok {| ar_Type := authOK; ar_Salt := []; ar_Mechanisms := []; ar_Data := [] |}, cc_read c rest).
Proof. intros Hc. unfold ReadAuthRequest, mbind, IO_bind. erewrite readTagged_frame; [|exact Hc|vm_compute; discriminate]. reflexivity. Qed.

(** The answers to the challenges, in their order. *)
Definition md5_answers (v : Verifier) (salts : list bytes) : list (byte * bytes) :=
  map (fun salt => (ch "p", MD5Response (v_MD5 v) salt ++ [NUL])) salts.

Lemma backend_loop_md5 salts fuel n user key v raw c rest :
  v_Method v = MethodMD5 \/ salts = [] -> Forall (fun s => length s = 4%nat) salts ->
  cc_in c = frames (map md5_request salts ++ [ok_frame]) ++ rest ->
  backend_loop (length salts + S fuel) n user key v raw c =
  (Ok tt, {| cc_in := rest; cc_out := cc_out c ++ frames (md5_answers v salts) |}).
Proof.
  intros Hv Hok. revert c. induction Hok as [|salt salts Hs _ IH]; intros c Hc;
    cbn [map app length Nat.add backend_loop md5_answers] in *; rewrite frames_cons, <- app_assoc in Hc; unfold mbind at 1, IO_bind at 1.
  - erewrite read_auth_ok by exact Hc. cbn [ar_Type]. rewrite decide_True by done. unfold frames. cbn. rewrite app_nil_r. done.
  - destruct Hv as [Hv|]; [|done]. erewrite read_md5_request; [|done|exact Hc]. cbn [ar_Type ar_Salt].
    rewrite !(decide_False (P := authMD5Password = _)) by done. rewrite (decide_True (P := authMD5Password = authMD5Password)) by done.
    rewrite decide_False by (intros Hx; by apply Hx). unfold mbind at 1, IO_bind at 1, WritePasswordMessage, writeTagged.
    rewrite IH; [|by left|reflexivity]. f_equal. f_equal. cbn [cc_out cc_write cc_read].
    unfold frames, frame. cbn [map concat fst snd]. by rewrite <- app_assoc.
Qed.

(** A computation that succeeds has no use for what comes after: more input
    changes nothing and is left unread. *)
Definition with_more (c : ClientConn) (more : bytes) : ClientConn := {| cc_in := cc_in c ++ more; cc_out := cc_out c |}.
Definition stable {A} (m : IO A) : Prop :=
  forall c a c' more, m c = (Ok a, c') -> m (with_more c more) = (Ok a, with_more c' more).

Create HintDb stable.

Lemma stable_ret {A} (a : A) : stable (mret a).
Proof. by intros c x c' more [= <- <-]. Qed.
Lemma stable_fail {A} e : stable (@fail A e).
Proof. by intros c a c' more. Qed.
Lemma stable_lift {A} (r : result cred_err A) : stable (lift r).
Proof. intros c a c' more. unfold lift. destruct r; [done|]. by intros [= <- <-]. Qed.
Lemma stable_write tag body : stable (writeTagged tag body).
Proof. by intros c a c' more [= <- <-]. Qed.
Lemma stable_read : stable readTagged.
Proof.
  intros c [tag body] c' more (E & Hl & Ho)%readTagged_ok.
  rewrite (readTagged_frame tag body (with_more c more) (cc_in c' ++ more)); [|cbn; by rewrite E, app_assoc|done].
  f_equal. unfold with_more, cc_read. cbn. by rewrite Ho.
Qed.
Lemma stable_bind {A B} (m : IO A) (k : A -> IO B) : stable m -> (forall a, stable (k a)) -> stable (m ≫= k).
Proof.
  intros Hm Hk c b c' more (a & c1 & E & H)%IO_bind_ok. apply IO_bind_ok. exists a, (with_more c1 more).
  split; [by apply Hm|by apply Hk].
Qed.
#[export] Hint Resolve stable_ret stable_fail stable_lift stable_write stable_read : stable.

Ltac stable :=
  repeat first [ solve [auto with stable] | apply stable_bind; [|intros ?] | progress case_decide | case_match ].

Lemma stable_ReadAuthRequest : stable ReadAuthRequest.
Proof. unfold ReadAuthRequest. stable. Qed.
#[export] Hint Resolve stable_ReadAuthRequest : stable.
Lemma stable_runSASL raw scram offer key : stable (runSASL raw scram offer key).
Proof. unfold runSASL, WriteSASLInitialResponse, WriteSASLResponse. stable. Qed.
#[export] Hint Resolve stable_runSASL : stable.
Lemma stable_backend_loop fuel : forall n user key v raw, stable (backend_loop fuel n user key v raw).
Proof. induction fuel as [|fuel IH]; intros n user key v raw; cbn [backend_loop]; unfold WritePasswordMessage; stable; apply IH. Qed.
Lemma stable_ready_loop fuel : forall out, stable (ready_loop fuel out).
Proof. induction fuel as [|fuel IH]; intros out; cbn [ready_loop]; stable; apply IH. Qed.

Lemma stable_AuthenticateBackend user database key v params raw : stable (AuthenticateBackend user database key v params raw).
Proof.
  intros c [] c' more. unfold AuthenticateBackend, mbind, IO_bind, writeStartup. cbv zeta.
  set (packet := put_uint32 _ ++ _).
  pose proof (backend_loop_fuel (S (length (cc_in c))) (S (length (cc_in (with_more c more)))) 0 user key v raw (cc_write c packet)) as [_ E].
  { cbn. lia. }
  { cbn. rewrite length_app. lia. }
  rewrite <- E. apply (stable_backend_loop _ _ _ _ _ _ (cc_write c packet)).
Qed.

Lemma stable_WaitForReady : stable WaitForReady.
Proof.
  intros c st c' more. unfold WaitForReady.
  pose proof (ready_loop_fuel (S (length (cc_in c))) (S (length (cc_in (with_more c more))))
    {| st_Params := ∅; st_BackendKey := [] |} c) as [_ E]; [lia|cbn; rewrite length_app; lia|].
  rewrite <- E. apply stable_ready_loop.
Qed.

(** The packet a backend is sent first. *)
Definition startup_packet (user database : bytes) (params : list (bytes * bytes)) : bytes :=
  cc_out (snd (writeStartup user database params {| cc_in := []; cc_out := [] |})).

Lemma length_frames_ge msgs : (length msgs <= length (frames msgs))%nat.
Proof. pose proof (length_frames msgs). lia. Qed.

Lemma backend_startup_stream user database key v params raw salts said e rest out :
  v_Method v = MethodMD5 \/ salts = [] -> Forall (fun s => length s = 4%nat) salts ->
  Forall told_ok said -> auth_sized (verdict_message e) ->
  backend_startup user database key v params raw {| cc_in := frames (startup_stream salts said e) ++ rest; cc_out := out |} =
  (match e with
   | Ready _ => Ok (foldl report {| st_Params := ∅; st_BackendKey := [] |} said)
   | Refused body => Err (AE_refused (errorFields body))
   end,
   {| cc_in := rest; cc_out := out ++ startup_packet user database params ++ frames (md5_answers v salts) |}).
Proof.
  intros Hv Hs Hsaid He. unfold backend_startup, AuthenticateBackend, mbind, IO_bind.
  unfold startup_packet, writeStartup. cbv zeta. set (packet := put_uint32 _ ++ _). cbn [snd cc_out cc_write app].
  set (c := {| cc_in := frames _ ++ rest; cc_out := out |}).
  assert (cc_in c = frames (map md5_request salts ++ [ok_frame]) ++ frames (map told_message said ++ [verdict_message e]) ++ rest) as Hc.
  { subst c. cbn [cc_in]. unfold startup_stream. by rewrite app_assoc, <- frames_app, <- app_assoc. }
  pose proof (backend_loop_md5 salts (length (cc_in c) - length salts) 0 user key v raw (cc_write c packet) _ Hv Hs Hc) as E.
  replace (length salts + S (length (cc_in c) - length salts))%nat with (S (length (cc_in c))) in E.
  2: { rewrite Hc, length_app. pose proof (length_frames_ge (map md5_request salts ++ [ok_frame])) as Hg.
       rewrite length_app, length_map in Hg. lia. }
  rewrite E. clear E. cbv beta iota. set (c' := {| cc_in := frames (map told_message said ++ _) ++ rest; cc_out := _ |}).
  unfold WaitForReady.
  pose proof (ready_loop_told said e (length (cc_in c') - length said) {| st_Params := ∅; st_BackendKey := [] |} c' rest Hsaid He eq_refl) as E.
  replace (length said + S (length (cc_in c') - length said))%nat with (S (length (cc_in c'))) in E.
  2: { subst c'. cbn [cc_in]. rewrite length_app. pose proof (length_frames_ge (map told_message said ++ [verdict_message e])) as Hg.
       rewrite length_app, length_map in Hg. lia. }
  rewrite E. subst c'. cbn. by rewrite <- app_assoc.
Qed.

(** C15: A backend's startup ends exactly where the backend ends it.  A backend
    that asks for the password any number of times, accepts, tells Pontus any
    parameters, keys and notices, and then says ReadyForQuery or refuses, is sent
    the startup packet and one answer per challenge, in order, and nothing else;
    every message up to the verdict is read and nothing behind it; ReadyForQuery
    gives the last value of every parameter and the last key, an ErrorResponse the
    backend's own error.  Both loops return there and not before: of any stream of
    that kind that breaks off early, wherever it does, the startup fails.  (The
    SCRAM exchange is C12's; a backend that keeps talking is waited for.) *)
Theorem backend_startup_exact user database key v params raw salts said e rest out :
  v_Method v = MethodMD5 \/ salts = [] -> Forall (fun s => length s = 4%nat) salts ->
  Forall told_ok said -> auth_sized (verdict_message e) ->
  let stream := frames (startup_stream salts said e) in
  backend_startup user database key v params raw {| cc_in := stream ++ rest; cc_out := out |} =
    (match e with
     | Ready _ => Ok (foldl report {| st_Params := ∅; st_BackendKey := [] |} said)
     | Refused body => Err (AE_refused (errorFields body))
     end,
     {| cc_in := rest; cc_out := out ++ startup_packet user database params ++ frames (md5_answers v salts) |}) /\
  forall cut, (cut < length stream)%nat ->
    exists err c', backend_startup user database key v params raw {| cc_in := take cut stream; cc_out := out |} = (Err err, c').
Proof.
  intros Hv Hs Hsaid He stream. split; [by apply backend_startup_stream|]. intros cut Hcut.
  destruct (backend_startup user database key v params raw {| cc_in := take cut stream; cc_out := out |}) as [[err|st] c'] eqn:E; [by eexists _, _|].
  exfalso. assert (stable (backend_startup user database key v params raw)) as Hst
    by (apply stable_bind; [apply stable_AuthenticateBackend|intros _; apply stable_WaitForReady]).
  apply (Hst _ _ _ (drop cut stream)) in E. unfold with_more in E. cbn [cc_in cc_out] in E. rewrite take_drop in E.
  pose proof (backend_startup_stream user database key v params raw salts said e [] out Hv Hs Hsaid He) as E2.
  rewrite app_nil_r in E2. fold stream in E2. rewrite E2 in E. injection E as _ Hin _.
  symmetry in Hin. apply app_eq_nil in Hin as [_ Hd]. apply (f_equal length) in Hd. rewrite length_drop in Hd. cbn in Hd. lia.
Qed.

Definition md5_V : Verifier := {| v_Method := MethodMD5; v_MD5 := bs "0123456789abcdef0123456789abcdef"; v_SCRAM := None |}.
Definition told_sample : list told :=
  [Status (bs "TimeZone") (bs "GMT"); Said (ch "N") (bs "hello"); Status (bs "TimeZone") (bs "UTC"); Key (put_uint32 7 ++ put_uint32 9)].

Lemma backend_startup_exact_witness :
  fst (backend_startup (bs "ann") (bs "app") None md5_V [] (fun _ => None)
    {| cc_in := frames (startup_stream [bs "salt"] told_sample (Ready (ch "I"))) ++ bs "later"; cc_out := [] |}) =
  Ok {| st_Params := {[bs "TimeZone" := bs "UTC"]}; st_BackendKey := put_uint32 7 ++ put_uint32 9 |}.
Proof.
  pose proof (proj1 (backend_startup_exact (bs "ann") (bs "app") None md5_V [] (fun _ => None) [bs "salt"] told_sample
    (Ready (ch "I")) (bs "later") [] ltac:(by left) ltac:(repeat constructor) ltac:(by_decide) ltac:(by_decide))) as E.
  rewrite E. cbn [fst foldl told_sample report st_Params st_BackendKey]. reflexivity.
Defined.

(** ** The end of startup is read as it was written *)

Definition status_ok (kv : bytes * bytes) : Prop :=
  NUL ∉ fst kv /\ NUL ∉ snd kv /\ zlen (fst kv) + zlen (snd kv) + 6 <= maxAuthMessage.

Lemma ready_loop_status kvs fuel out key c rest :
  Forall status_ok kvs -> cc_in c = frames (map status_frame kvs) ++ rest ->
  ready_loop (length kvs + fuel) {| st_Params := out; st_BackendKey := key |} c =
  ready_loop fuel {| st_Params := foldl (fun m kv => <[fst kv := snd kv]> m) out kvs; st_BackendKey := key |} (cc_read c rest).
Proof.
  intros Hok. revert out c. induction Hok as [|[k v] kvs (Hk & Hv & Hl) Hok IH]; intros out c Hc; cbn [map] in Hc.
  { cbn in Hc. destruct c as [i o]. cbn in Hc. by subst i. }
  rewrite frames_cons, <- app_assoc in Hc. cbn [fst snd] in *.
  cbn [length Nat.add ready_loop]. unfold mbind, IO_bind, frame in *. cbn [fst snd status_frame] in Hc.
  erewrite readTagged_frame; [|exact Hc|unfold zlen in *; rewrite ?length_app; cbn [length]; rewrite ?length_app; cbn [length]; lia].
  rewrite decide_True by done. rewrite cut_app by done.
  rewrite (cut_app v NUL []) by done. cbn [st_Params st_BackendKey]. by rewrite IH.
Qed.

Lemma ready_loop_end (key : bytes) fuel out c rest :
  zlen key + 4 <= maxAuthMessage -> st_BackendKey out = [] ->
  cc_in c = frames ((if decide (key <> []) then [(ch "K", key)] else []) ++ [(ch "Z", [ch "I"])]) ++ rest ->
  ready_loop (S (S fuel)) out c = (Ok {| st_Params := st_Params out; st_BackendKey := key |}, cc_read c rest).
Proof.
  intros Hl Hk Hc.
  assert (forall fuel out c, cc_in c = frames [(ch "Z", [ch "I"])] ++ rest ->
            ready_loop (S fuel) out c = (Ok out, cc_read c rest)) as Hz.
  { clear. intros fuel out c Hc. cbn [ready_loop]. unfold mbind, IO_bind.
    erewrite readTagged_frame; [|rewrite Hc; unfold frames; cbn; by rewrite app_nil_r|vm_compute; discriminate].
    done. }
  case_decide as Hd.
  - cbn [app] in Hc. rewrite frames_cons, <- app_assoc in Hc. remember (S fuel) as f eqn:Ef. cbn [ready_loop]. unfold mbind at 1, IO_bind at 1.
    erewrite readTagged_frame; [|exact Hc|done]. rewrite decide_False by done. rewrite decide_True by done.
    subst f. by rewrite Hz.
  - subst key. rewrite (Hz (S fuel)) by done. destruct out. cbn in *. by subst.
Qed.

(** What Pontus tells its client at the end of startup is what the backend
    told Pontus: any sequence in which the parameters are ranged over, written
    with the key and ReadyForQuery and read back, gives exactly the parameters and
    the key that were recorded, and leaves what follows unread. *)
Theorem startup_report_roundtrip order startup rest :
  order ≡ₚ map_to_list (st_Params startup) ->
  map_Forall (fun k v => status_ok (k, v)) (st_Params startup) -> zlen (st_BackendKey startup) + 4 <= maxAuthMessage ->
  exists wrote,
    CompleteClientStartup order startup {| cc_in := []; cc_out := [] |} = (Ok tt, {| cc_in := []; cc_out := wrote |}) /\
    WaitForReady {| cc_in := wrote ++ rest; cc_out := [] |} = (Ok startup, {| cc_in := rest; cc_out := [] |}).
Proof.
  intros Hp Hok Hk. eexists. split; [done|]. cbn [app cc_out cc_write].
  assert (Forall status_ok order) as HF.
  { apply list.Forall_forall. intros [k v] Hin. rewrite Hp in Hin. apply elem_of_map_to_list in Hin. by apply Hok. }
  unfold WaitForReady. cbn [cc_in]. rewrite frames_app, <- app_assoc.
  match goal with |- context [frames (?k ++ [_])] => set (tail := k ++ [(ch "Z", [ch "I"])]) end.
  pose proof (length_frames (map status_frame order)) as L1. pose proof (length_frames tail) as L2.
  rewrite length_map in L1. assert (1 <= length tail)%nat as L3 by (subst tail; rewrite length_app; cbn; lia).
  rewrite !length_app.
  replace (S _) with (length order + S (S (length (frames (map status_frame order)) - length order + (length (frames tail) - 1) + length rest)))%nat by lia.
  erewrite ready_loop_status; [|done|done]. erewrite ready_loop_end; [|done|done|done].
  cbn [st_Params st_BackendKey cc_read cc_out]. rewrite (foldl_insert_order (st_Params startup)) by done. by destruct startup.
Qed.

Definition sample_startup : Startup_ :=
  {| st_Params := {[ bs "server_version" := bs "16.2"; bs "client_encoding" := bs "UTF8" ]}; st_BackendKey := bs "8 bytes." |}.

Lemma startup_report_roundtrip_witness :
  exists wrote,
    CompleteClientStartup (map_to_list (st_Params sample_startup)) sample_startup {| cc_in := []; cc_out := [] |}
      = (Ok tt, {| cc_in := []; cc_out := wrote |}) /\
    WaitForReady {| cc_in := wrote ++ bs "next"; cc_out := [] |} = (Ok sample_startup, {| cc_in := bs "next"; cc_out := [] |}).
Proof.
  refine (startup_report_roundtrip (map_to_list (st_Params sample_startup)) sample_startup (bs "next") _ _ _).
  - reflexivity.
  - apply map_Forall_to_list. vm_compute. repeat constructor; try discriminate; set_unfold; intuition discriminate.
  - vm_compute. discriminate.
Defined.

(** ** Both ends of the exchange on the wire *)

Lemma zlen_b64_encode s : zlen (b64_encode s) <= 2 * zlen s + 4.
Proof.
  induction s as [|a|a b|a b c s IH] using b64_encode_induction; cbn [b64_encode]; cbv zeta; unfold zlen in *; cbn [length]; lia.
Qed.

Lemma zlen_saslPrep s : zlen (saslPrep s) <= 3 * zlen s.
Proof.
  induction s as [|a s IH]; [done|]. cbn [saslPrep]. rewrite zlen_app, zlen_cons.
  assert (zlen (if decide (a = ch "=") then bs "=3D" else if decide (a = ch ",") then bs "=2C" else [a]) <= 3)
    by (repeat case_decide; vm_compute; discriminate). lia.
Qed.

Lemma length_put_digits fuel n acc : (length (put_digits fuel n acc) <= fuel + length acc)%nat.
Proof.
  revert n acc. induction fuel as [|fuel IH]; intros n acc; cbn [put_digits]; [lia|].
  case_decide; [cbn; lia|]. etransitivity; [apply IH|]. cbn. lia.
Qed.

Lemma zlen_Itoa n : zlen (Itoa n) <= 20.
Proof.
  unfold Itoa. case_decide; [vm_compute; discriminate|]. pose proof (length_put_digits 20 n []). unfold zlen. cbn in *. lia.
Qed.

Lemma read_initial mechanism first c rest :
  NUL ∉ mechanism -> zlen mechanism + zlen first + 9 <= maxAuthMessage ->
  cc_in c = frame (ch "p", mechanism ++ NUL :: put_uint32 (u32 (zlen first)) ++ first) ++ rest ->
  ReadSASLResponse true c = (Ok (mechanism, first), cc_read c rest).
Proof.
  intros Hn Hl Hc. change maxAuthMessage with 65536 in Hl. pose proof (zlen_nonneg first). pose proof (zlen_nonneg mechanism).
  unfold ReadSASLResponse, mbind, IO_bind. destruct (put_uint32_cases (u32 (zlen first))) as (x1 & x2 & x3 & x4 & Ep & Ev).
  rewrite Ep in Hc.
  erewrite readTagged_frame; [|exact Hc|].
  2:{ change maxAuthMessage with 65536. cbn [app fst snd]. zlen_simpl. lia. }
  rewrite decide_False by (intros Hx; apply Hx; done). cbn [negb snd]. rewrite cut_app by done. cbn [app].
  rewrite Ev, !u32_small by (rewrite ?u32_small; lia). unfold i32. rewrite signed_id by lia.
  rewrite decide_False by lia. rewrite ztake_take. unfold zlen. by rewrite Nat2Z.id, take_ge by lia.
Qed.

Lemma read_subsequent data c rest :
  zlen data + 4 <= maxAuthMessage -> cc_in c = frame (ch "p", data) ++ rest ->
  ReadSASLResponse false c = (Ok ([], data), cc_read c rest).
Proof.
  intros Hl Hc. unfold ReadSASLResponse, mbind, IO_bind. erewrite readTagged_frame; [|exact Hc|done]. done.
Qed.

(** An authentication message that carries data, or nothing Pontus looks at. *)
Lemma read_auth_request type data c rest :
  0 <= type < 2 ^ 31 -> type <> authMD5Password -> type <> authSASL -> zlen data + 8 <= maxAuthMessage ->
  cc_in c = frame (ch "R", put_uint32 type ++ data) ++ rest ->
  exists req, ReadAuthRequest c = (Ok req, cc_read c rest) /\ ar_Type req = type /\
    (type = authSASLContinue \/ type = authSASLFinal -> ar_Data req = data).
Proof.
  intros Ht H1 H2 Hl Hc. unfold ReadAuthRequest, mbind, IO_bind.
  destruct (put_uint32_cases type) as (x1 & x2 & x3 & x4 & Ep & Ev). rewrite Ep in Hc.
  erewrite readTagged_frame; [|exact Hc|cbn [fst snd]; zlia]. rewrite decide_False by done. rewrite decide_False by (intros Hx; apply Hx; done).
  cbn [app snd]. rewrite Ev, u32_small by lia. unfold i32. rewrite signed_id by lia.
  rewrite decide_False by done. rewrite decide_False by done. case_decide; eexists; (split; [reflexivity|]); split; done || tauto.
Qed.

Lemma read_sasl_offer c rest :
  cc_in c = frame (ch "R", put_uint32 authSASL ++ saslMechanismSCRAM ++ [NUL; NUL]) ++ rest ->
  ReadAuthRequest c = (Ok {| ar_Type := authSASL; ar_Salt := []; ar_Mechanisms := [saslMechanismSCRAM]; ar_Data := [] |}, cc_read c rest).
Proof.
  intros Hc. unfold ReadAuthRequest, mbind, IO_bind. erewrite readTagged_frame; [|exact Hc|vm_compute; discriminate]. reflexivity.
Qed.

Lemma xorBytes_length a b r : xorBytes a b = Some r -> length r = length a.
Proof.
  revert b r. induction a as [|x a IH]; intros [|y b] r; cbn [xorBytes]; try (by intros [= <-]); try done.
  destruct (xorBytes a b) eqn:E; [|done]. intros [= <-]. cbn. by rewrite (IH _ _ E).
Qed.

Lemma Final_shape c challenge combined final c' :
  Final c challenge = Ok (final, c') -> attr challenge (ch "r") = Ok combined ->
  exists proof, length proof = length (sl_clientKey c) /\ final = (bs "c=biws,r=" ++ combined) ++ bs ",p=" ++ b64_encode proof.
Proof.
  intros H Hr. unfold Final in H. case_decide; [done|]. rewrite Hr in H. cbn [mbind result_bind] in H.
  case_decide; [done|]. apply result_bind_ok in H as (? & _ & H). apply result_bind_ok in H as (it & _ & H).
  destruct (ParseInt64 it); [|done]. case_decide; [done|]. cbv zeta in H.
  destruct (xorBytes _ _) as [proof|] eqn:Ex; [|done]. injection H as <- _. exists proof. split; [by eapply xorBytes_length|done].
Qed.

Lemma Finish_shape s final verdict s' :
  Finish s final = Ok (verdict, s') -> exists sig, length sig = 32%nat /\ verdict = bs "v=" ++ b64_encode sig.
Proof.
  intros H. unfold Finish in H. case_decide; [done|]. apply result_bind_ok in H as ([w p] & _ & H).
  apply result_bind_ok in H as (? & _ & H). case_decide; [done|]. apply result_bind_ok in H as (? & _ & H).
  apply result_bind_ok in H as (? & _ & H). destruct (b64_decode p); [|done]. case_decide; [done|]. cbv zeta in H.
  destruct (xorBytes _ _); [|done]. case_decide; [done|]. injection H as <- _. eexists. split; [|done]. apply hmacSHA256_length.
Qed.

(** The messages of an exchange that goes through, and that none is too long. *)
Lemma scram_exchange_messages v user key raw_client raw_server :
  length key = 32%nat -> sha256 key = StoredKey v -> 0 < Iterations v < 2 ^ 63 ->
  raw_client <> [] -> raw_server <> [] ->
  zlen user <= 4096 -> zlen raw_client <= 4096 -> zlen raw_server <= 4096 -> zlen (Salt v) <= 4096 ->
  exists c0 first c1 s0 challenge s1 final c2 verdict s2,
    NewScramClient user key = Ok c0 /\ First c0 (Some raw_client) = Ok (first, c1) /\
    NewScramServer (Some v) = Ok s0 /\ Begin s0 (Some raw_server) first = Ok (challenge, s1) /\
    Final c1 challenge = Ok (final, c2) /\ Finish s1 final = Ok (verdict, s2) /\
    VerifyServer c2 verdict (ServerKey v) = Ok tt /\ ss_clientKey s2 = Some key /\
    zlen first <= 40000 /\ zlen challenge <= 40000 /\ zlen final <= 40000 /\ zlen verdict <= 40000.
Proof.
  intros Hlen Hkey Hit Hc Hs Bu Bc Bs Bv. pose proof (scram_exchange_ok v user key raw_client raw_server Hlen Hkey Hit Hc Hs) as H.
  unfold scram_exchange in H. apply result_bind_ok in H as (c0 & E0 & H).
  apply result_bind_ok in H as ([first c1] & E1 & H). apply result_bind_ok in H as (s0 & E2 & H).
  apply result_bind_ok in H as ([challenge s1] & E3 & H). apply result_bind_ok in H as ([final c2] & E4 & H).
  apply result_bind_ok in H as ([verdict s2] & E5 & H). apply result_bind_ok in H as ([] & E6 & [= H]).
  exists c0, first, c1, s0, challenge, s1, final, c2, verdict, s2. 
  assert (sl_user c0 = user /\ sl_clientKey c0 = key) as [Eu Ek].
  { unfold NewScramClient in E0. case_decide; [done|]. by injection E0 as <-. }
  pose proof (zlen_saslPrep user). pose proof (zlen_b64_encode raw_client). pose proof (zlen_b64_encode raw_server).
  pose proof (zlen_b64_encode (Salt v)). pose proof (zlen_Itoa (Iterations v)).
  assert (forall r, ch "," ∉ b64_encode r) as Hno by (intros r; apply b64_encode_no; by vm_compute; left).
  assert (first = bs "n,," ++ bs "n=" ++ saslPrep user ++ bs ",r=" ++ b64_encode raw_client /\ sl_clientKey c1 = key) as [F1 F2].
  { unfold First in E1. cbn [newNonce mbind result_bind] in E1. rewrite <- Eu. split; [congruence|].
    injection E1 as _ <-. by rewrite <- Ek. }
  pose proof E3 as F3. injection E2 as <-. rewrite F1 in F3.
  rewrite (Begin_First v user) in F3 by (apply b64_encode_nonempty || apply Hno; done).
  apply (f_equal (fun r => match r with Ok (x, _) => x | Err _ => [] end)) in F3. cbv beta iota in F3.
  destruct (challenge_attrs (b64_encode raw_client ++ b64_encode raw_server) (b64_encode (Salt v)) (Itoa (Iterations v)))
    as (Ar & _ & _); [rewrite elem_of_app; pose proof (Hno raw_client); pose proof (Hno raw_server); tauto|apply Hno|by apply Itoa_no|].
  assert (exists proof, length proof = 32%nat /\ final = (bs "c=biws,r=" ++ b64_encode raw_client ++ b64_encode raw_server) ++ bs ",p=" ++ b64_encode proof)
    as (proof & Lp & F4).
  { rewrite <- F3 in E4. destruct (Final_shape _ _ _ _ _ E4 Ar) as (proof & Lp & ->).
    exists proof. split; [|done]. by rewrite Lp, F2. }
  assert (exists sig, length sig = 32%nat /\ verdict = bs "v=" ++ b64_encode sig) as (sig & Lg & F5).
  { by eapply Finish_shape. }
  pose proof (zlen_b64_encode proof). pose proof (zlen_b64_encode sig). unfold zlen in *.
  split_and!; [done..| | | |]; [rewrite F1|rewrite <- F3|rewrite F4|rewrite F5];
    rewrite ?length_app; change (length (bs "n,,")) with 3%nat; change (length (bs "n=")) with 2%nat;
    change (length (bs ",r=")) with 3%nat; change (length (bs "r=")) with 2%nat; change (length (bs ",s=")) with 3%nat;
    change (length (bs ",i=")) with 3%nat; change (length (bs "c=biws,r=")) with 9%nat; change (length (bs ",p=")) with 3%nat;
    change (length (bs "v=")) with 2%nat; lia.
Qed.

(** What Pontus sends as the server, given the answers it receives. *)
Lemma server_run v raw s0 first challenge s1 final verdict s2 :
  NewScramServer (Some v) = Ok s0 -> Begin s0 (Some raw) first = Ok (challenge, s1) ->
  Finish s1 final = Ok (verdict, s2) -> zlen first <= 40000 -> zlen final <= 40000 ->
  authenticateSCRAM (Some raw) (Some v)
    {| cc_in := frames [(ch "p", saslMechanismSCRAM ++ NUL :: put_uint32 (u32 (zlen first)) ++ first); (ch "p", final)]; cc_out := [] |} =
  (Ok (ss_clientKey s2),
   {| cc_in := []; cc_out := frames [(ch "R", put_uint32 authSASL ++ saslMechanismSCRAM ++ [NUL; NUL]);
                                     (ch "R", put_uint32 authSASLContinue ++ challenge);
                                     (ch "R", put_uint32 authSASLFinal ++ verdict); ok_frame] |}).
Proof.
  intros E0 E1 E2 L1 L2. unfold authenticateSCRAM. rewrite E0. unfold mbind, IO_bind, lift at 1.
  unfold WriteAuthSASL, writeTagged at 1. cbn [cc_write cc_in cc_out].
  rewrite frames_cons, frames_one.
  rewrite (read_initial saslMechanismSCRAM first _ (frame (ch "p", final))); [| | |reflexivity];
    [|vm_compute; set_unfold; intuition discriminate|change (zlen saslMechanismSCRAM) with 13; change maxAuthMessage with 65536; lia].
  rewrite decide_False by (intros Hx; by apply Hx). rewrite E1. unfold lift, WriteAuthSASLContinue, writeTagged at 1.
  cbn [cc_write cc_read cc_in cc_out].
  rewrite (read_subsequent final _ []); [|change maxAuthMessage with 65536; lia|cbn [cc_in]; by rewrite app_nil_r].
  rewrite E2. unfold WriteAuthSASLFinal, WriteAuthOK, writeTagged, mret, IO_ret, cc_write, cc_read. cbn [cc_in cc_out].
  f_equal. f_equal. unfold frames. cbn [map concat]. rewrite !app_nil_r, <- !app_assoc. done.
Qed.

(** What Pontus sends as the client, given the answers it receives. *)
Lemma runSASL_run serverKey raw c0 first c1 challenge final c2 verdict offer rest out :
  saslMechanismSCRAM ∈ ar_Mechanisms offer ->
  First c0 (Some raw) = Ok (first, c1) -> Final c1 challenge = Ok (final, c2) ->
  VerifyServer c2 verdict serverKey = Ok tt -> zlen challenge <= 40000 -> zlen verdict <= 40000 ->
  runSASL (Some raw) c0 offer serverKey
    {| cc_in := frame (ch "R", put_uint32 authSASLContinue ++ challenge) ++
                frame (ch "R", put_uint32 authSASLFinal ++ verdict) ++ rest; cc_out := out |} =
  (Ok tt, {| cc_in := rest; cc_out := out ++ frames [(ch "p", saslMechanismSCRAM ++ NUL :: put_uint32 (u32 (zlen first)) ++ first); (ch "p", final)] |}).
Proof.
  intros Hm E1 E2 E3 L1 L2. unfold runSASL. rewrite decide_False by tauto. unfold mbind, IO_bind. rewrite E1. unfold lift at 1.
  unfold WriteSASLInitialResponse, writeTagged at 1. unfold cc_write. cbn [cc_in cc_out].
  destruct (read_auth_request authSASLContinue challenge
    {| cc_in := frame (ch "R", put_uint32 authSASLContinue ++ challenge) ++ frame (ch "R", put_uint32 authSASLFinal ++ verdict) ++ rest;
       cc_out := out ++ appendTagged [] (ch "p") (saslMechanismSCRAM ++ NUL :: put_uint32 (u32 (zlen first)) ++ first) |}
    (frame (ch "R", put_uint32 authSASLFinal ++ verdict) ++ rest))
    as (r1 & R1 & T1 & D1); [done|done|done|change maxAuthMessage with 65536; lia|done|].
  rewrite R1, decide_False by (intros Hx; by apply Hx). rewrite D1 by (by left). rewrite E2. unfold lift at 1.
  unfold WriteSASLResponse, writeTagged at 1. unfold cc_write, cc_read. cbn [cc_in cc_out].
  match goal with |- context [ReadAuthRequest ?c] =>
    destruct (read_auth_request authSASLFinal verdict c rest) as (r2 & R2 & T2 & D2);
      [done|done|done|change maxAuthMessage with 65536; lia|done|] end.
  rewrite R2, decide_False by (intros Hx; by apply Hx). rewrite D2 by (by right). rewrite E3. unfold lift, cc_read. cbn [cc_in cc_out].
  f_equal. f_equal. unfold frames, frame. cbn [map concat fst snd]. by rewrite app_nil_r, <- app_assoc.
Qed.

Lemma client_run v raw fuel n user c0 key first c1 challenge final c2 verdict out :
  NewScramClient user key = Ok c0 -> First c0 (Some raw) = Ok (first, c1) -> Final c1 challenge = Ok (final, c2) ->
  VerifyServer c2 verdict (ServerKey v) = Ok tt -> zlen challenge <= 40000 -> zlen verdict <= 40000 ->
  backend_loop (S (S fuel)) n user (Some key) {| v_Method := MethodSCRAM; v_MD5 := []; v_SCRAM := Some v |} (fun _ => Some raw)
    {| cc_in := frames [(ch "R", put_uint32 authSASL ++ saslMechanismSCRAM ++ [NUL; NUL]);
                        (ch "R", put_uint32 authSASLContinue ++ challenge);
                        (ch "R", put_uint32 authSASLFinal ++ verdict); ok_frame]; cc_out := out |} =
  (Ok tt, {| cc_in := []; cc_out := out ++ frames [(ch "p", saslMechanismSCRAM ++ NUL :: put_uint32 (u32 (zlen first)) ++ first); (ch "p", final)] |}).
Proof.
  intros E0 E1 E2 E3 L1 L2. cbn [backend_loop]. unfold mbind, IO_bind. rewrite 3!frames_cons.
  erewrite read_sasl_offer by reflexivity. rewrite decide_False by done. rewrite decide_True by done.
  rewrite decide_False by (intros Hx; by apply Hx). cbn [v_SCRAM from_option id]. rewrite E0. unfold lift at 1.
  unfold cc_read at 1. cbn [cc_out].
  erewrite runSASL_run; [|cbn; set_solver|exact E1|exact E2|exact E3|done|done].
  match goal with |- context [ReadAuthRequest ?c] =>
    destruct (read_auth_request authOK [] c []) as (r2 & R2 & T2 & D2); [done|done|done|done|done|] end.
  rewrite R2, decide_True by done. done.
Qed.

(** C12: The two halves of Pontus's SCRAM meet on the wire.  For a verifier made
    from a key there are messages such that the server role, fed the client
    role's, writes exactly what the client role is fed, and conversely; both
    succeed, everything sent is consumed, and the server role ends with the key.
    So a backend that holds the verifier, or another Pontus, accepts the
    connections Pontus opens with a recovered key. *)
Theorem wire_mutual_authentication v user database key params raw_client raw_server :
  length key = 32%nat -> sha256 key = StoredKey v -> 0 < Iterations v < 2 ^ 63 ->
  raw_client <> [] -> raw_server <> [] ->
  zlen user <= 4096 -> zlen raw_client <= 4096 -> zlen raw_server <= 4096 -> zlen (Salt v) <= 4096 ->
  let V := {| v_Method := MethodSCRAM; v_MD5 := []; v_SCRAM := Some v |} in
  exists from_client from_server startup,
    AuthenticateClient (Some raw_server) None V {| cc_in := from_client; cc_out := [] |}
      = (Ok (Some key), {| cc_in := []; cc_out := from_server |}) /\
    AuthenticateBackend user database (Some key) V params (fun _ => Some raw_client) {| cc_in := from_server; cc_out := [] |}
      = (Ok tt, {| cc_in := []; cc_out := startup ++ from_client |}) /\
    writeStartup user database params {| cc_in := []; cc_out := [] |} = (Ok tt, {| cc_in := []; cc_out := startup |}).
Proof.
  intros Hlen Hkey Hit Hc Hs Bu Bc Bs Bv V.
  destruct (scram_exchange_messages v user key raw_client raw_server)
    as (c0 & first & c1 & s0 & challenge & s1 & final & c2 & verdict & s2 & E0 & E1 & E2 & E3 & E4 & E5 & E6 & Hk & L1 & L2 & L3 & L4);
    [done..|].
  eexists _, _, _. split_and!.
  - unfold AuthenticateClient, V. cbn [v_Method v_SCRAM]. rewrite <- Hk. by eapply server_run.
  - unfold AuthenticateBackend, mbind, IO_bind, writeStartup, cc_write. cbn [cc_in cc_out app].
    rewrite frames_cons, length_app.
    match goal with |- backend_loop (S (?a + ?b)) _ _ _ _ _ _ = _ =>
      replace (S (a + b)) with (S (S (a + b - 1))) by (pose proof (zlen_appendTagged (ch "R") (put_uint32 authSASL ++ saslMechanismSCRAM ++ [NUL; NUL])); unfold frame, zlen in *; cbn [fst snd]; lia) end.
    rewrite <- frames_cons. by eapply client_run.
  - done.
Qed.

Lemma wire_mutual_authentication_witness :
  exists from_client from_server startup,
    AuthenticateClient (Some (bs "server nonce")) None alice_V {| cc_in := from_client; cc_out := [] |}
      = (Ok (Some alice_key), {| cc_in := []; cc_out := from_server |}) /\
    AuthenticateBackend (bs "alice") (bs "app") (Some alice_key) alice_V [] (fun _ => Some (bs "client nonce"))
      {| cc_in := from_server; cc_out := [] |} = (Ok tt, {| cc_in := []; cc_out := startup ++ from_client |}) /\
    writeStartup (bs "alice") (bs "app") [] {| cc_in := []; cc_out := [] |} = (Ok tt, {| cc_in := []; cc_out := startup |}).
Proof.
  refine (wire_mutual_authentication alice (bs "alice") (bs "app") alice_key [] (bs "client nonce") (bs "server nonce")
            _ _ _ _ _ _ _ _ _); try discriminate; try reflexivity; try (vm_compute; discriminate).
  vm_compute. split; reflexivity.
Defined.

(** ** Two behaviours the comments rule out *)

(** A backend that asks for nothing is accepted without having shown that it
    holds the verifier, whatever the credential. *)
Theorem silent_backend_accepted user database key v params raw :
  fst (AuthenticateBackend user database key v params raw {| cc_in := frames [ok_frame]; cc_out := [] |}) = Ok tt.
Proof.
  unfold AuthenticateBackend, mbind at 1, IO_bind at 1, writeStartup. cbv zeta. rewrite frames_one.
  cbn [cc_in backend_loop]. unfold mbind, IO_bind.
  match goal with |- context [ReadAuthRequest ?c] =>
    destruct (read_auth_request authOK [] c []) as (r & R & T & _); [done|done|done|done|cbn [cc_write cc_in]; by rewrite app_nil_r|] end.
  rewrite R, decide_True by done. done.
Qed.

(** The first thing a client sees tells a role with a verifier from an unknown
    one: the challenge is sent only to the former. *)
Example unknown_user_distinguishable :
  let first lookup := head (cc_out (snd (authenticateClient lookup (fun _ => []) (Some (bs "server nonce")) None {| cc_in := []; cc_out := [] |}))) in
  first (Err ErrUnknownUser) = Some (ch "E") /\ first (Ok alice_V) = Some (ch "R").
Proof. vm_compute. done. Qed.
