(* ===== verification/Relay.v ===== *)
(** * Relaying requests and replies

    [proxy/gateway.go] ([readRequest], [trailingNeed], [readWholeMessage],
    [proxyResponse] and its two paths), [proxy/response_capture.go],
    [proxy/copy_in.go] and [proxy/async_watcher.go]: how a client's bytes become
    whole messages, how a reply is streamed back and captured, how COPY data is
    forwarded, and how unprompted messages reach an idle client.

    A connection being read is the chunks its peer's bytes arrive in and whether
    the peer then closes; a read that finds neither blocks, which is an outcome of
    its own here. *)
From Stdlib Require Import ZArith Lia Strings.String.
From stdpp Require Import base gmap list numbers option.
From S2P Require Import Prelude Wire Scanner Session.
#[local] Open Scope Z_scope.

(** ** Reading *)

Record Peer := { chunks : list bytes; closed : bool }.

Inductive outcome (A : Type) := Blocks | OutOfFuel | Returns (a : A).
Arguments Blocks {A}.
Arguments OutOfFuel {A}.
Arguments Returns {A} _.

(** [Read] into a buffer of [size] bytes; the flag is an error. *)
Definition Read (size : nat) (p : Peer) : outcome (bytes * bool * Peer) :=
  match chunks p with
  | [] => if closed p then Returns ([], true, p) else Blocks
  | c :: cs =>
      if decide (length c <= size)%nat then Returns (c, false, {| chunks := cs; closed := closed p |})
      else Returns (take size c, false, {| chunks := drop size c :: cs; closed := closed p |})
  end.

(** The first [n] bytes of the chunks, or all of them. *)
Fixpoint take_chunks (n : nat) (cs : list bytes) : bytes * list bytes :=
  match cs with
  | [] => ([], [])
  | c :: cs =>
      if decide (n <= length c)%nat then (take n c, drop n c :: cs)
      else let '(got, rest) := take_chunks (n - length c) cs in (c ++ got, rest)
  end.

(** [io.ReadFull]: the bytes read, whether it fell short at the end of the
    stream, and the peer after it. *)
Definition peer_ReadFull (n : nat) (p : Peer) : outcome (bytes * bool * Peer) :=
  let '(got, rest) := take_chunks n (chunks p) in
  if decide (length got = n) then Returns (got, false, {| chunks := rest; closed := closed p |})
  else if closed p then Returns (got, true, {| chunks := rest; closed := true |}) else Blocks.

(** ** Whole messages *)

Definition Framer : Type := bytes -> option Z.

(** [trailingNeed]. *)
Fixpoint trailing_need_loop (fuel : nat) (framer : Framer) (data : bytes) : Z :=
  match fuel with
  | O => 0
  | S fuel =>
      match data with
      | [] => 0
      | _ =>
          match framer data with
          | None => 1
          | Some total =>
              if decide (total > zlen data) then total - zlen data
              else trailing_need_loop fuel framer (zdrop total data)
          end
      end
  end.

Definition trailingNeed (framer : Framer) (data : bytes) : Z := trailing_need_loop (length data) framer data.

Definition postgresHeaderProbe : Z := 8.
Definition defaultMaxMessageBytes : Z := Z.shiftl 64 20.

Inductive read_err := ErrTooLarge (claimed limit : Z) | ErrRead.

(** [readWholeMessage]'s loop. *)
Fixpoint whole_loop (fuel : nat) (framer : Framer) (max : Z) (data : bytes) (p : Peer)
  : outcome (bytes * option read_err * Peer) :=
  match fuel with
  | O => OutOfFuel
  | S fuel =>
      let need := trailingNeed framer data in
      if decide (need = 0) then Returns (data, None, p)
      else if decide (zlen data + need > max) then Returns (data, Some (ErrTooLarge (zlen data + need) max), p)
      else
        let need := if decide (need = 1) then postgresHeaderProbe else need in
        match peer_ReadFull (Z.to_nat need) p with
        | Blocks => Blocks
        | OutOfFuel => OutOfFuel
        | Returns (got, short, p) =>
            let data := data ++ got in
            if short : bool then
              if decide (trailingNeed framer data = 0) then Returns (data, None, p) else Returns (data, Some ErrRead, p)
            else whole_loop fuel framer max data p
        end
  end.

(** Every turn reads at least a byte. *)
Definition readWholeMessage (framer : Framer) (max : Z) (first : bytes) (p : Peer) : outcome (bytes * option read_err * Peer) :=
  whole_loop (S (length (concat (chunks p)))) framer max first p.

(** [readRequest]; [framer] is absent for a protocol that cannot frame. *)
Definition readRequest (framer : option Framer) (max : Z) (buf : nat) (p : Peer) : outcome (bytes * option read_err * Peer) :=
  match Read buf p with
  | Blocks => Blocks
  | OutOfFuel => OutOfFuel
  | Returns (data, err, p) =>
      if decide (err = true \/ data = []) then Returns (data, if err then Some ErrRead else None, p)
      else match framer with
           | None => Returns (data, None, p)
           | Some framer =>
               if decide (trailingNeed framer data = 0) then Returns (data, None, p)
               else readWholeMessage framer max data p
           end
  end.

(** [endsCopyIn]. *)
Fixpoint ends_copy_loop (fuel : nat) (data : bytes) : bool :=
  match fuel with
  | O => false
  | S fuel =>
      match data with
      | [] => false
      | tag :: _ =>
          match MessageLength data with
          | None => false
          | Some total =>
              if decide (total > zlen data) then false
              else if decide (tag = ch "c" \/ tag = ch "f") then true
              else ends_copy_loop fuel (zdrop total data)
          end
      end
  end.

Definition endsCopyIn (data : bytes) : bool := ends_copy_loop (length data) data.

(** [copyPump.relay]: what reaches the backend, and whether it ended in error.
    [stopping] says at which read the pump is found stopping, if it is: whatever
    that read returned is then dropped.  Writes to the backend succeed. *)
Fixpoint copy_relay (fuel : nat) (max : Z) (buf : nat) (stopping : option nat) (p : Peer) (sent : bytes)
  : outcome (bytes * option read_err) :=
  match fuel with
  | O => OutOfFuel
  | S fuel =>
      if decide (stopping = Some O) then Returns (sent, None)
      else
        match readRequest (Some MessageLength) max buf p with
        | Blocks => Blocks
        | OutOfFuel => OutOfFuel
        | Returns (data, err, p) =>
            if decide (data <> [] /\ endsCopyIn data = true) then Returns (sent ++ data, None)
            else match err with
                 | Some e => Returns (sent ++ data, Some e)
                 | None => copy_relay fuel max buf (pred <$> stopping) p (sent ++ data)
                 end
        end
  end.

(** ** Capturing a reply *)

Definition defaultMaxCaptureBytes : Z := Z.shiftl 8 20.

Record responseCapture := { rc_buf : bytes; rc_limit : Z; rc_overflowed : bool }.

(** [newResponseCapture]. *)
Definition newResponseCapture (buf : bytes) (limit : Z) : responseCapture :=
  {| rc_buf := buf; rc_limit := if decide (limit <= 0) then defaultMaxCaptureBytes else limit; rc_overflowed := false |}.

(** [Write]; a nil capture is [None]. *)
Definition capture_Write (c : option responseCapture) (chunk : bytes) : option responseCapture :=
  match c with
  | None => None
  | Some c =>
      if rc_overflowed c then Some c
      else if decide (zlen (rc_buf c) + zlen chunk > rc_limit c)
           then Some {| rc_buf := []; rc_limit := rc_limit c; rc_overflowed := true |}
           else Some {| rc_buf := rc_buf c ++ chunk; rc_limit := rc_limit c; rc_overflowed := false |}
  end.

(** [Bytes], nil being empty, and [Err], [true] for [errCaptureTooLarge]. *)
Definition capture_Bytes (c : option responseCapture) : bytes :=
  match c with Some c => if rc_overflowed c then [] else rc_buf c | None => [] end.
Definition capture_Err (c : option responseCapture) : bool :=
  match c with Some c => rc_overflowed c | None => false end.

(** ** Streaming a reply *)

(** [bytes.Contains]. *)
Fixpoint Contains (s sub : bytes) : bool :=
  bool_decide (take (length sub) s = sub) || match s with [] => false | _ :: s => Contains s sub end.

(** [IsReadOnlyError]. *)
Definition IsReadOnlyError (data : bytes) : bool :=
  if decide (length data < 5)%nat then false
  else if decide (head data <> Some (ch "E")) then false else Contains data (bs "25006").

(** [midSequenceState]. *)
Definition midSequenceState (state : TransactionState) (e : ResponseEnd) : TransactionState :=
  if OnReadyForQuery e then state else StateInTransaction.

(** One read of the backend, and how writing it to the client went. *)
Record server_read := { sr_data : bytes; sr_err : bool; sr_write_ok : bool }.

Inductive reply_err := ErrClientWrite | ErrServerRead | ErrCopyPump | ErrSetDeadline.

(** What the loop leaves behind: the result, what the client was sent, the
    capture, [failed] when it was set, and the reads not made. *)
Record reply_result := {
  rr_state : TransactionState; rr_readonly : bool; rr_err : option reply_err;
  rr_client : bytes; rr_sent : Z; rr_capture : option responseCapture; rr_failed : option bool;
  rr_unread : list server_read
}.

(** The loop of [proxyResponseFastPath] ([capturing = false]) and of
    [proxyResponseWithCapture]: they differ in the capture and in the test for a
    read-only error.  [pump_err] is what [copyPump.stop] reports, if a COPY was
    started.  With no read left to make, the loop blocks. *)
Fixpoint reply_loop (capturing : bool) (pump_err : bool) (e : ResponseEnd) (scan : replyScanner) (reads : list server_read)
    (client : bytes) (sent : Z) (capture : option responseCapture) (readonly : bool) : outcome reply_result :=
  match reads with
  | [] => Blocks
  | r :: reads =>
      if decide (sr_data r <> []) then
        let capture := if capturing then capture_Write capture (sr_data r) else capture in
        let sent := sent + zlen (sr_data r) in
        if negb (sr_write_ok r) then
          Returns {| rr_state := StateError; rr_readonly := false; rr_err := Some ErrClientWrite; rr_client := client;
                     rr_sent := sent; rr_capture := capture; rr_failed := None; rr_unread := reads |}
        else
          let client := client ++ sr_data r in
          let readonly := readonly || (capturing && IsReadOnlyError (sr_data r)) in
          match feed scan (sr_data r) with
          | None => OutOfFuel
          | Some (scan, finished, state) =>
              if finished : bool then
                if rs_sawCopyIn scan && pump_err then
                  Returns {| rr_state := StateError; rr_readonly := readonly; rr_err := Some ErrCopyPump; rr_client := client;
                             rr_sent := sent; rr_capture := capture; rr_failed := None; rr_unread := reads |}
                else
                  Returns {| rr_state := midSequenceState state e; rr_readonly := readonly; rr_err := None; rr_client := client;
                             rr_sent := sent; rr_capture := capture; rr_failed := Some (rs_sawError scan); rr_unread := reads |}
              else if sr_err r then
                Returns {| rr_state := StateError; rr_readonly := readonly; rr_err := Some ErrServerRead; rr_client := client;
                           rr_sent := sent; rr_capture := capture; rr_failed := None; rr_unread := reads |}
              else reply_loop capturing pump_err e scan reads client sent capture readonly
          end
      else if sr_err r then
        Returns {| rr_state := StateError; rr_readonly := readonly; rr_err := Some ErrServerRead; rr_client := client;
                   rr_sent := sent; rr_capture := capture; rr_failed := None; rr_unread := reads |}
      else reply_loop capturing pump_err e scan reads client sent capture readonly
  end.

Definition proxyResponseFastPath (pump_err : bool) (e : ResponseEnd) (reads : list server_read) : outcome reply_result :=
  reply_loop false pump_err e (newReplyScanner e) reads [] 0 None false.
Definition proxyResponseWithCapture (pump_err : bool) (capture : option responseCapture) (e : ResponseEnd) (reads : list server_read)
  : outcome reply_result :=
  reply_loop true pump_err e (newReplyScanner e) reads [] 0 capture false.

(** [proxyResponse]; [deadline] says whether the read deadline could be set. *)
Definition proxyResponse (deadline pump_err : bool) (capture : option responseCapture) (readOnly : bool) (e : ResponseEnd)
    (reads : list server_read) : outcome reply_result :=
  if negb deadline then
    Returns {| rr_state := StateError; rr_readonly := false; rr_err := Some ErrSetDeadline; rr_client := []; rr_sent := 0;
               rr_capture := capture; rr_failed := None; rr_unread := reads |}
  else if readOnly && bool_decide (capture = None) then proxyResponseFastPath pump_err e reads
  else proxyResponseWithCapture pump_err capture e reads.

(** ** Unprompted messages *)

Definition asyncTags : bytes := [ch "A"; ch "N"; ch "S"].
Definition isAsyncTag (tag : byte) : bool := bool_decide (tag ∈ asyncTags).

Inductive watch_end := WatchStopped | WatchUnexpected | WatchRead.

(** [run] and [forward]: [quiet n] says that the [n]th wait found nothing, and
    [stop_at] at which turn the session wants its connection back.  The result is
    why it ended, what the client was sent, and what is left of the backend's
    bytes. *)
Fixpoint watch_loop (fuel n : nat) (stop_at : nat) (quiet : nat -> bool) (server sent : bytes)
  : option (watch_end * bytes * bytes) :=
  match fuel with
  | O => None
  | S fuel =>
      if decide (stop_at <= n)%nat then Some (WatchStopped, sent, server)
      else if quiet n then watch_loop fuel (S n) stop_at quiet server sent
      else
        match ReadFull 5 server with
        | Err _ => Some (WatchRead, sent, [])
        | Ok ([tag; x1; x2; x3; x4] as header, rest) =>
            if negb (isAsyncTag tag) then Some (WatchUnexpected, sent, rest)
            else
              let length := be_uint32 x1 x2 x3 x4 in
              if decide (length < 4) then Some (WatchUnexpected, sent, rest)
              else
                match ReadFull (Z.to_nat (length - 4)) rest with
                | Err _ => Some (WatchRead, sent, [])
                | Ok (body, rest) => watch_loop fuel (S n) stop_at quiet rest (sent ++ header ++ body)
                end
        | Ok _ => None
        end
  end.

(** A turn beyond the one that stops is never made. *)
Definition watchAsync (stop_at : nat) (quiet : nat -> bool) (server : bytes) : option (watch_end * bytes * bytes) :=
  watch_loop (S stop_at) 0 stop_at quiet server [].

(** ** Framing *)

Lemma MessageLength_positive data total : MessageLength data = Some total -> 0 < total.
Proof.
  unfold MessageLength. destruct data as [|t [|a [|b [|c [|d rest]]]]]; try done.
  destruct (Z.ltb_spec (be_uint32 a b c d) 4); intros [= <-]; zlen_simpl; pose proof (zlen_nonneg rest); lia.
Qed.

Lemma trailing_need_fuel f1 f2 data :
  (length data <= f1)%nat -> (length data <= f2)%nat ->
  trailing_need_loop f1 MessageLength data = trailing_need_loop f2 MessageLength data.
Proof.
  revert f2 data. induction f1 as [|f1 IH]; intros [|f2] [|x data] H1 H2; try done; try (cbn in *; lia).
  cbn [trailing_need_loop]. destruct (MessageLength (x :: data)) as [total|] eqn:E; [|done].
  apply MessageLength_positive in E. case_decide; [done|].
  assert (length (zdrop total (x :: data)) < length (x :: data))%nat.
  { rewrite zdrop_drop, length_drop. cbn [length]. lia. }
  apply IH; cbn [length] in *; lia.
Qed.

Lemma trailingNeed_frame m rest : sized m -> trailingNeed MessageLength (frame m ++ rest) = trailingNeed MessageLength rest.
Proof.
  intros Hm. unfold trailingNeed. pose proof (zlen_appendTagged (fst m) (snd m)) as Hz.
  destruct (length (frame m ++ rest)) as [|n] eqn:En.
  { rewrite length_app in En. unfold frame, zlen in *. lia. }
  cbn [trailing_need_loop]. destruct (frame m ++ rest) as [|x l] eqn:E; [done|]. rewrite <- E in *.
  unfold frame. rewrite MessageLength_app by done.
  rewrite decide_False by (unfold zlen; rewrite length_app; lia).
  rewrite zdrop_app. apply trailing_need_fuel; [|done].
  rewrite length_app in En. unfold frame, zlen in *. lia.
Qed.

Lemma trailingNeed_frames msgs : Forall sized msgs -> trailingNeed MessageLength (frames msgs) = 0.
Proof. induction 1 as [|m msgs Hm _ IH]; [done|]. change (frames (m :: msgs)) with (frame m ++ frames msgs). by rewrite trailingNeed_frame. Qed.

Lemma trailingNeed_short data : data <> [] -> (length data < 5)%nat -> trailingNeed MessageLength data = 1.
Proof.
  intros Hn Hl. destruct data as [|a [|b [|c [|d [|]]]]]; try done. cbn in Hl. lia.
Qed.

(** Part of one message, its header included. *)
Lemma trailingNeed_part m part rest :
  sized m -> frame m = part ++ rest -> rest <> [] -> (5 <= length part)%nat ->
  trailingNeed MessageLength part = zlen rest.
Proof.
  intros Hm E Hr Hl. unfold trailingNeed. destruct part as [|x part]; [cbn in Hl; lia|].
  cbn [length trailing_need_loop].
  assert (MessageLength (x :: part) = Some (zlen (frame m))) as ->.
  { pose proof (MessageLength_app (fst m) (snd m) [] Hm) as HM. rewrite app_nil_r in HM. unfold frame in E. rewrite E in HM.
    destruct part as [|a [|b [|c [|d part]]]]; try (cbn in Hl; lia). unfold MessageLength in *. cbn [app] in HM.
    destruct (be_uint32 a b c d <? 4) eqn:E4; [|by rewrite HM; unfold frame; rewrite E].
    exfalso. pose proof (appendTagged_cases (fst m) (snd m) Hm) as (a' & b' & c' & d' & E' & Hv).
    rewrite E' in E. injection E as _ -> -> -> -> _. rewrite Hv in E4. pose proof (zlen_nonneg (snd m)). lia. }
  rewrite E, zlen_app. destruct rest as [|y rest]; [done|]. rewrite (zlen_cons y). pose proof (zlen_nonneg rest).
  rewrite decide_True by lia. lia.
Qed.

Lemma trailingNeed_zero_prefix msgs data :
  Forall sized msgs -> data `prefix_of` frames msgs -> trailingNeed MessageLength data = 0 ->
  exists k, (k <= length msgs)%nat /\ data = frames (take k msgs).
Proof.
  intros Hs. revert data. induction Hs as [|m msgs Hm Hs IH]; intros data Hp Hz.
  { destruct Hp as [r Hp]. exists 0%nat. split; [cbn; lia|]. destruct data; [done|]. cbn in Hp. discriminate. }
  destruct data as [|x0 data0] eqn:Ed; [exists 0%nat; split; [lia|done]|]. rewrite <- Ed in *. assert (data <> []) as Hd by (by rewrite Ed).
  clear x0 data0 Ed. change (frames (m :: msgs)) with (frame m ++ frames msgs) in Hp.
  destruct Hp as [r Hp]. destruct (decide (length (frame m) <= length data)%nat) as [Hle|Hlt].
  - assert (exists data', data = frame m ++ data' /\ frames msgs = data' ++ r) as (data' & -> & Hp').
    { exists (drop (length (frame m)) data). split.
      - rewrite <- (take_drop (length (frame m)) data) at 1. f_equal.
        apply (f_equal (take (length (frame m)))) in Hp. rewrite take_app_length in Hp.
        by rewrite take_app_le in Hp.
      - apply (f_equal (drop (length (frame m)))) in Hp. rewrite drop_app_length in Hp. by rewrite drop_app_le in Hp. }
    rewrite trailingNeed_frame in Hz by done. destruct (IH data') as (k & Hk & ->); [by exists r|done|].
    exists (S k). cbn [length take]. split; [lia|done].
  - exfalso. destruct (decide (length data < 5)%nat) as [H5|H5].
    { by rewrite trailingNeed_short in Hz. }
    assert (frame m = data ++ drop (length data) (frame m)) as E.
    { rewrite <- (take_drop (length data) (frame m)) at 1. f_equal.
      apply (f_equal (take (length data))) in Hp. rewrite take_app_length in Hp. rewrite take_app_le in Hp by lia. done. }
    rewrite (trailingNeed_part m data (drop (length data) (frame m))) in Hz; [|done|done| |lia].
    + unfold zlen in Hz. rewrite length_drop in Hz. lia.
    + intros En. apply (f_equal length) in En. rewrite length_drop in En. cbn in En. lia.
Qed.

(** ** What is read is what was sent *)

Lemma take_chunks_concat n cs got rest : take_chunks n cs = (got, rest) -> concat cs = got ++ concat rest.
Proof.
  revert n got rest. induction cs as [|c cs IH]; intros n got rest; cbn [take_chunks].
  { by intros [= <- <-]. }
  case_decide.
  - intros [= <- <-]. cbn. by rewrite app_assoc, take_drop.
  - destruct (take_chunks (n - length c) cs) as [g r] eqn:E. intros [= <- <-]. cbn. by rewrite (IH _ _ _ E), app_assoc.
Qed.

Lemma take_chunks_length n cs got rest :
  take_chunks n cs = (got, rest) -> length got = Nat.min n (length (concat cs)).
Proof.
  revert n got rest. induction cs as [|c cs IH]; intros n got rest; cbn [take_chunks concat].
  { intros [= <- <-]. cbn. lia. }
  rewrite length_app. case_decide.
  - intros [= <- <-]. rewrite length_take. lia.
  - destruct (take_chunks (n - length c) cs) as [g r] eqn:E. intros [= <- <-]. rewrite length_app, (IH _ _ _ E). lia.
Qed.

Lemma peer_ReadFull_concat n p got short p' :
  peer_ReadFull n p = Returns (got, short, p') ->
  concat (chunks p) = got ++ concat (chunks p') /\ (length got <= n)%nat /\ (short = false -> length got = n).
Proof.
  unfold peer_ReadFull. destruct (take_chunks n (chunks p)) as [g r] eqn:E.
  pose proof (take_chunks_concat _ _ _ _ E). pose proof (take_chunks_length _ _ _ _ E).
  case_decide; [intros [= <- <- <-]; cbn; split_and!; [done|lia|done]|].
  destruct (closed p); [|done]. intros [= <- <- <-]. cbn. split_and!; [done|lia|done].
Qed.

(** Enough bytes on the way: the read returns exactly them. *)
Lemma peer_ReadFull_ok p l rest :
  concat (chunks p) = l ++ rest ->
  exists p', peer_ReadFull (length l) p = Returns (l, false, p') /\ concat (chunks p') = rest /\ closed p' = closed p.
Proof.
  intros H. unfold peer_ReadFull. destruct (take_chunks (length l) (chunks p)) as [g r] eqn:E.
  pose proof (take_chunks_concat _ _ _ _ E) as Hc. pose proof (take_chunks_length _ _ _ _ E) as Hl.
  rewrite H, length_app in Hl. rewrite decide_True by lia.
  rewrite H in Hc. apply app_inj_1 in Hc as [-> Hr]; [|lia]. by eexists.
Qed.

Lemma peer_ReadFull_blocks n p : closed p = false -> (length (concat (chunks p)) < n)%nat -> peer_ReadFull n p = Blocks.
Proof.
  intros Hc Hl. unfold peer_ReadFull. destruct (take_chunks n (chunks p)) as [g r] eqn:E.
  pose proof (take_chunks_length _ _ _ _ E). rewrite decide_False by lia. by rewrite Hc.
Qed.

Lemma trailing_need_nonneg fuel data : 0 <= trailing_need_loop fuel MessageLength data.
Proof.
  revert data. induction fuel as [|fuel IH]; intros data; cbn [trailing_need_loop]; [done|].
  destruct data; [done|]. destruct (MessageLength _); [|done]. case_decide; [lia|apply IH].
Qed.

(** One turn of the assembly: how much it asks for. *)
Definition ask (need : Z) : Z := if decide (need = 1) then postgresHeaderProbe else need.

Lemma ask_range need : 0 < need -> 1 <= ask need <= need + 7.
Proof. unfold ask, postgresHeaderProbe. case_decide; lia. Qed.

Lemma whole_loop_spec fuel max data p :
  (length (concat (chunks p)) < fuel)%nat ->
  match whole_loop fuel MessageLength max data p with
  | OutOfFuel => False
  | Blocks => True
  | Returns (data', err, p') =>
      data ++ concat (chunks p) = data' ++ concat (chunks p') /\
      (err = None -> trailingNeed MessageLength data' = 0) /\
      zlen data' <= Z.max (zlen data) (max + 7)
  end.
Proof.
  revert data p. induction fuel as [|fuel IH]; intros data p Hf; [lia|]. cbn [whole_loop]. cbv zeta.
  case_decide as Hz; [split_and!; [done|done|lia]|].
  case_decide as Hm; [split_and!; [done|done|lia]|]. fold (ask (trailingNeed MessageLength data)).
  assert (0 < trailingNeed MessageLength data) as Hp by (pose proof (trailing_need_nonneg (length data) data); unfold trailingNeed in *; lia).
  pose proof (ask_range _ Hp) as Ha.
  destruct (peer_ReadFull _ p) as [| |[[got short] p1]] eqn:E; [done| |].
  { unfold peer_ReadFull in E. destruct (take_chunks _ _). case_decide; [done|]. by destruct (closed p). }
  apply peer_ReadFull_concat in E as (Ec & El & Es).
  assert (zlen (data ++ got) <= Z.max (zlen data) (max + 7)) as Hb by (rewrite zlen_app; unfold zlen in *; lia).
  destruct short.
  - case_decide; (split_and!; [by rewrite <- app_assoc, Ec|done|lia]).
  - specialize (Es eq_refl). assert (length (concat (chunks p1)) < fuel)%nat as Hf1.
    { rewrite Ec, length_app in Hf. lia. }
    specialize (IH (data ++ got) p1 Hf1). destruct (whole_loop fuel _ _ _ p1) as [| |[[d e] p2]]; [done|done|].
    destruct IH as (I1 & I2 & I3). split_and!; [|done|lia]. by rewrite <- I1, <- app_assoc, Ec.
Qed.

Lemma Read_concat size p data err p' :
  Read size p = Returns (data, err, p') -> concat (chunks p) = data ++ concat (chunks p') /\ (length data <= size)%nat /\
  (err = true -> data = []).
Proof.
  unfold Read. destruct (chunks p) as [|c cs] eqn:E.
  - destruct (closed p); [|done]. intros [= <- <- <-]. rewrite E. split_and!; [done|cbn; lia|done].
  - case_decide; intros [= <- <- <-]; cbn; (split_and!; [|try rewrite length_take; lia|done]); [done|by rewrite app_assoc, take_drop].
Qed.

Lemma readRequest_spec max buf p :
  match readRequest (Some MessageLength) max buf p with
  | OutOfFuel => False
  | Blocks => True
  | Returns (data, err, p') =>
      concat (chunks p) = data ++ concat (chunks p') /\
      (err = None -> trailingNeed MessageLength data = 0) /\
      zlen data <= Z.max (Z.of_nat buf) (max + 7)
  end.
Proof.
  unfold readRequest. destruct (Read buf p) as [| |[[d e] p1]] eqn:E; [done| |].
  { unfold Read in E. repeat case_match; done. }
  apply Read_concat in E as (Ec & El & Ee). case_decide as Hd.
  { assert (d = []) as -> by (destruct Hd; auto). split_and!; [done|done|rewrite zlen_nil; lia]. }
  case_decide; [split_and!; [done|done|unfold zlen; lia]|].
  pose proof (whole_loop_spec (S (length (concat (chunks p1)))) max d p1 ltac:(lia)) as H1. unfold readWholeMessage.
  destruct (whole_loop _ _ _ _ p1) as [| |[[d' e'] p2]]; [done|done|].
  destruct H1 as (H1 & H2 & H3). split_and!; [by rewrite Ec|done|unfold zlen in *; lia].
Qed.

(** C4: What is forwarded is whole messages, in order, and bounded.  When a client
    sends a sequence of messages, in whatever pieces they arrive, every read of a
    request that succeeds returns some number of them complete and leaves exactly
    the others; and the assembly always comes to an end or waits for the client.
    A read that needs no assembly returns at most the buffer; an assembled request
    may exceed the configured bound by up to seven bytes, because the bound is
    tested with the one byte a split header is known to lack and eight are then
    read ([request_past_bound] below reaches it). *)
Theorem requests_are_whole max buf p msgs :
  Forall sized msgs -> concat (chunks p) = frames msgs ->
  readRequest (Some MessageLength) max buf p <> OutOfFuel /\
  forall data p', readRequest (Some MessageLength) max buf p = Returns (data, None, p') ->
    zlen data <= Z.max (Z.of_nat buf) (max + 7) /\
    exists k, (k <= length msgs)%nat /\ data = frames (take k msgs) /\ concat (chunks p') = frames (drop k msgs).
Proof.
  intros Hs Hc. pose proof (readRequest_spec max buf p) as H. split; [by intros E; rewrite E in H|].
  intros data p' E. rewrite E in H. destruct H as (H1 & H2 & H3). split; [done|].
  destruct (trailingNeed_zero_prefix msgs data Hs) as (k & Hk & ->); [eexists; by rewrite <- Hc|by apply H2|].
  exists k. split_and!; [done|done|]. rewrite Hc in H1. rewrite <- (take_drop k msgs) in H1 at 1.
  rewrite frames_app in H1. by apply app_inv_head in H1.
Qed.

Definition two_requests : list (byte * bytes) := [(ch "Q", bs "SELECT 1" ++ [NUL]); (ch "S", [])].

(** The first message arrives in two pieces, the second with the later one. *)
Definition split_peer : Peer :=
  {| chunks := [take 9 (frames two_requests); drop 9 (frames two_requests)]; closed := false |}.

Lemma requests_are_whole_witness :
  readRequest (Some MessageLength) 100 32 split_peer =
    Returns (frames (take 1 two_requests), None, {| chunks := [frames (drop 1 two_requests)]; closed := false |}) /\
  exists k, (k <= 2)%nat /\ frames (take 1 two_requests) = frames (take k two_requests) /\
    frames (drop 1 two_requests) ++ [] = frames (drop k two_requests).
Proof.
  assert (readRequest (Some MessageLength) 100 32 split_peer =
    Returns (frames (take 1 two_requests), None, {| chunks := [frames (drop 1 two_requests)]; closed := false |})) as E
    by (vm_compute; reflexivity).
  split; [exact E|].
  refine (proj2 (proj2 (requests_are_whole 100 32 split_peer two_requests _ _) _ _ E)).
  - repeat constructor.
  - reflexivity.
Defined.

(** The bound is overrun by seven bytes: a bound of five, four bytes of a header,
    and a message of twelve bytes is assembled and returned. *)
Example request_past_bound :
  let m := frame (ch "Q", bs "BEGIN;" ++ [NUL]) in
  readRequest (Some MessageLength) 5 4 {| chunks := [take 4 m; drop 4 m]; closed := false |} =
    Returns (m, None, {| chunks := [[]]; closed := false |}) /\
  zlen m = 5 + 7.
Proof. vm_compute. split; reflexivity. Qed.

(** A first read that ends in the middle of a message's body, with at least two
    bytes of it to come, is completed by exactly the rest of that message however
    it arrives. *)
Theorem long_statement_assembled m cut cs rest max buf :
  sized m -> (5 <= cut)%nat -> (cut + 2 <= length (frame m))%nat -> (cut <= buf)%nat -> zlen (frame m) <= max ->
  concat cs = drop cut (frame m) ++ rest ->
  exists p', readRequest (Some MessageLength) max buf {| chunks := take cut (frame m) :: cs; closed := false |} =
    Returns (frame m, None, p') /\ concat (chunks p') = rest.
Proof.
  intros Hm H5 H2 Hb Hmax Hc. unfold readRequest, Read. cbn [chunks closed].
  assert (length (take cut (frame m)) = cut) as Hl by (rewrite length_take; lia).
  rewrite decide_True by lia. rewrite decide_False by (intros [?|E]; [done|]; rewrite E in Hl; cbn in Hl; lia).
  assert (trailingNeed MessageLength (take cut (frame m)) = zlen (drop cut (frame m))) as Hn.
  { apply (trailingNeed_part m); [done|by rewrite take_drop| |lia].
    intros E. apply (f_equal length) in E. rewrite length_drop in E. cbn in E. lia. }
  assert (zlen (drop cut (frame m)) >= 2) as H22 by (unfold zlen; rewrite length_drop; lia).
  rewrite decide_False by lia. unfold readWholeMessage. cbn [chunks].
  destruct (length (concat cs)) as [|fuel] eqn:Ef.
  { rewrite Hc, length_app, length_drop in Ef. lia. }
  cbn [whole_loop]. cbv zeta. rewrite Hn. rewrite decide_False by lia.
  assert (zlen (take cut (frame m)) + zlen (drop cut (frame m)) = zlen (frame m)) as Hz by (rewrite <- zlen_app; by rewrite take_drop).
  rewrite decide_False by lia. rewrite (decide_False (P := zlen (drop cut (frame m)) = 1)) by lia.
  replace (Z.to_nat (zlen (drop cut (frame m)))) with (length (drop cut (frame m))) by (unfold zlen; lia).
  destruct (peer_ReadFull_ok {| chunks := cs; closed := false |} (drop cut (frame m)) rest Hc) as (p' & -> & Hr & _).
  rewrite take_drop. replace (trailingNeed MessageLength (frame m)) with 0.
  2:{ rewrite <- (app_nil_r (frame m)), trailingNeed_frame by done. done. }
  rewrite decide_True by done. by exists p'.
Qed.

(** A first read that ends inside a header, or one byte short of a message's end,
    makes the assembly wait for eight bytes: if the client sends the rest of its
    message and waits for the answer, and fewer than eight were missing, the
    assembly never returns although the whole message has arrived. *)
Theorem split_request_stalls m cut cs max buf :
  sized m -> (0 < cut < length (frame m))%nat -> (cut < 5 \/ S cut = length (frame m))%nat ->
  (length (frame m) < cut + 8)%nat -> (cut <= buf)%nat -> Z.of_nat cut < max ->
  concat cs = drop cut (frame m) ->
  readRequest (Some MessageLength) max buf {| chunks := take cut (frame m) :: cs; closed := false |} = Blocks.
Proof.
  intros Hm Hcut Hcase H8 Hb Hmax Hc. unfold readRequest, Read. cbn [chunks closed].
  assert (length (take cut (frame m)) = cut) as Hl by (rewrite length_take; lia).
  rewrite decide_True by lia. rewrite decide_False by (intros [?|E]; [done|]; rewrite E in Hl; cbn in Hl; lia).
  assert (trailingNeed MessageLength (take cut (frame m)) = 1) as Hn.
  { destruct (decide (cut < 5)%nat) as [Hs|Hs].
    - apply trailingNeed_short; [|lia]. intros E. rewrite E in Hl. cbn in Hl. lia.
    - erewrite (trailingNeed_part m _ (drop cut (frame m))); [|done|by rewrite take_drop| |lia].
      + unfold zlen. rewrite length_drop. lia.
      + intros E. apply (f_equal length) in E. rewrite length_drop in E. cbn in E. lia. }
  rewrite decide_False by lia. unfold readWholeMessage. cbn [whole_loop chunks]. cbv zeta. rewrite Hn.
  rewrite decide_False by lia. rewrite decide_False by (unfold zlen; rewrite Hl; lia). rewrite decide_True by done.
  rewrite peer_ReadFull_blocks; [done|done|]. cbn [chunks]. rewrite Hc, length_drop. change (Z.to_nat postgresHeaderProbe) with 8%nat. lia.
Qed.

(** A Sync whose last byte comes in a second segment. *)
Example sync_stalls :
  readRequest (Some MessageLength) 100 32 {| chunks := [take 4 sync_message; drop 4 sync_message]; closed := false |} = Blocks.
Proof. vm_compute. reflexivity. Qed.

(** A statement sent in the same segment as the end of a COPY goes with it. *)
Example copy_forwards_next_statement :
  copy_relay 3 1000 100 None {| chunks := [frames [(ch "c", []); (ch "Q", bs "SELECT 1" ++ [NUL])]]; closed := false |} [] =
  Returns (frames [(ch "c", []); (ch "Q", bs "SELECT 1" ++ [NUL])], None).
Proof. vm_compute. reflexivity. Qed.

(** ** Replies *)

Definition ok_read (data : bytes) : server_read := {| sr_data := data; sr_err := false; sr_write_ok := true |}.

Lemma feed_scan s c t s' dn state :
  scanner_wf s -> scan_bytes (s, false, t) c = Some (s', dn, state) -> exists state', feed s c = Some (s', dn, state').
Proof.
  intros Hw H. destruct (scan_bytes_acc _ _ _ _ _ _ _ false StatePartial H) as (dn' & t' & H' & e & -> & ->).
  exists t'. unfold feed. apply feed_loop_scan; [done|lia|done].
Qed.

(** The last byte of a reply is the status of its ReadyForQuery. *)
Lemma scan_last_byte s t q x s0 dn t0 :
  scan_bytes (s, false, t) q = Some (s0, dn, t0) -> 0 < rs_skip s0 -> rs_wantStatus s0 = true ->
  scan_bytes (s, false, t) (q ++ [x]) = Some (with_skip s0 (rs_skip s0 - 1) false, true, transactionStatus x).
Proof.
  intros H Hk Hw. rewrite scan_bytes_app, H. cbn [mbind option_bind]. rewrite scan_bytes_cons. unfold scan_byte.
  destruct (Z.ltb_spec 0 (rs_skip s0)); [|lia]. rewrite Hw, orb_true_r. done.
Qed.

Lemma reply_loop_status capturing pump e cs more x : forall s t q s0 t0 client sent capture ro,
  scanner_wf s -> Forall (fun c => c <> []) cs -> concat cs = q ++ [x] ->
  scan_bytes (s, false, t) q = Some (s0, false, t0) -> 0 < rs_skip s0 -> rs_wantStatus s0 = true ->
  rs_sawCopyIn s0 && pump = false ->
  reply_loop capturing pump e s (map ok_read cs ++ more) client sent capture ro =
  Returns {| rr_state := midSequenceState (transactionStatus x) e;
             rr_readonly := ro || (capturing && existsb IsReadOnlyError cs); rr_err := None;
             rr_client := client ++ q ++ [x]; rr_sent := sent + zlen (q ++ [x]);
             rr_capture := if capturing then foldl capture_Write capture cs else capture;
             rr_failed := Some (rs_sawError s0); rr_unread := more |}.
Proof.
  induction cs as [|c cs IH]; intros s t q s0 t0 client sent capture ro Hw Hne Hc Hq Hk Hs Hp.
  { cbn in Hc. by destruct q. }
  apply Forall_cons_iff in Hne as [Hc0 Hne]. cbn [map app reply_loop ok_read sr_data sr_err sr_write_ok].
  rewrite decide_True by done. cbv zeta. cbn [negb]. cbn [concat] in Hc.
  destruct (decide (concat cs = [])) as [Hn|Hn].
  - assert (cs = []) as ->. { destruct cs as [|c1 cs]; [done|]. cbn in Hn. inversion Hne; subst. by destruct c1. }
    rewrite app_nil_r in Hc. subst c.
    pose proof (scan_last_byte s StatePartial q x s0) as HL.
    destruct (scan_bytes_acc _ _ _ _ _ _ _ false StatePartial Hq) as (d1 & t1 & H1 & e1 & Hd1 & ->).
    cbn in Hd1. subst e1. specialize (HL _ _ H1 Hk Hs).
    unfold feed. erewrite feed_loop_scan; [|exact Hw|lia|exact HL].
    cbn [with_skip rs_sawCopyIn rs_sawError]. rewrite Hp. cbn [map foldl existsb]. rewrite orb_false_r. done.
  - assert (exists q', q = c ++ q' /\ concat cs = q' ++ [x]) as (q' & -> & Hc').
    { destruct (concat cs) as [|y l _] eqn:E using rev_ind; [done|]. rewrite app_assoc in Hc.
      apply app_inj_tail in Hc as [<- ->]. by eexists. }
    rewrite scan_bytes_app in Hq. apply bind_Some in Hq as ([[s1 d1] t1] & H1 & H2).
    destruct (scan_bytes_acc _ _ _ _ _ _ _ false t1 H2) as (d2 & t2 & H2' & e2 & Hd & _).
    symmetry in Hd. apply orb_false_elim in Hd as [-> ->].
    destruct (feed_scan _ _ _ _ _ _ Hw H1) as (st' & ->).
    rewrite (IH s1 t1 q' s0 t0); [|by eapply scan_bytes_wf|done|done|done|done|done|done].
    cbn [existsb foldl]. f_equal. f_equal.
    + destruct ro, capturing, (IsReadOnlyError c); done.
    + by rewrite <- !app_assoc.
    + rewrite !zlen_app. lia.
    + by destruct capturing.
Qed.

(** Capturing keeps a reply that fits and nothing of one that does not. *)
Lemma capture_reply limit cs buf :
  0 < limit -> zlen buf <= limit ->
  foldl capture_Write (Some {| rc_buf := buf; rc_limit := limit; rc_overflowed := false |}) cs =
  Some (if decide (zlen buf + zlen (concat cs) <= limit)
        then {| rc_buf := buf ++ concat cs; rc_limit := limit; rc_overflowed := false |}
        else {| rc_buf := []; rc_limit := limit; rc_overflowed := true |}).
Proof.
  intros Hl. revert buf. induction cs as [|c cs IH]; intros buf Hb; cbn [foldl concat].
  { rewrite zlen_nil, decide_True by lia. by rewrite app_nil_r. }
  cbn [capture_Write rc_overflowed rc_buf rc_limit]. rewrite zlen_app. pose proof (zlen_nonneg (concat cs)). case_decide as Ho.
  - rewrite decide_False by lia. clear. induction cs as [|c cs IH]; [done|]. cbn [foldl capture_Write rc_overflowed]. done.
  - rewrite IH by (rewrite zlen_app; lia). rewrite zlen_app, Z.add_assoc. by rewrite app_assoc.
Qed.

Lemma scan_before_status s t pre status :
  boundary s -> Forall sized pre ->
  exists s0 t0, scan_bytes (s, false, t) (frames pre ++ [ch "Z"; NUL; NUL; NUL; byte_of 5]) =
      Some (s0, existsb (ends_reply (rs_end s)) pre, t0) /\ rs_skip s0 = 1 /\ rs_wantStatus s0 = true /\
    rs_sawError s0 = rs_sawError s || saw (ch "E") pre /\ rs_sawCopyIn s0 = rs_sawCopyIn s || saw (ch "G") pre /\
    frame (ch "Z", [status]) = [ch "Z"; NUL; NUL; NUL; byte_of 5] ++ [status].
Proof.
  intros Hb Hs. destruct (scan_frames pre s false t Hb Hs) as (s1 & E & (B1 & B2 & B3) & _ & Hx & Hg).
  rewrite scan_bytes_app, E. cbn [mbind option_bind]. destruct s1 as [e1 h1 k1 w1 x1 g1]. cbn in *. subst.
  eexists _, _. split_and!; [reflexivity|done|done|cbn; by rewrite ?orb_false_r|cbn; by rewrite ?orb_false_r|reflexivity].
Qed.

(** C5: A reply reaches the client whole, once, and alone.  However the backend's
    bytes are cut into reads, a reply that ends with ReadyForQuery is forwarded
    byte for byte, on either path, and the loop stops exactly at its end: no later
    read is touched, the session's state is the status of that ReadyForQuery, the
    failure flag says whether an ErrorResponse was among the messages, and the
    capture holds the whole reply if it fits its limit and otherwise nothing and
    is marked unusable. *)
Theorem reply_relayed capturing pre status cs more limit :
  Forall sized pre -> Forall (fun m => fst m <> ch "Z") pre -> saw (ch "G") pre = false ->
  Forall (fun c => c <> []) cs -> concat cs = frames (pre ++ [(ch "Z", [status])]) ->
  let e := {| OnReadyForQuery := true; Tags := [] |} in
  let reply := frames (pre ++ [(ch "Z", [status])]) in
  exists rr,
    (if capturing : bool then proxyResponseWithCapture false (Some (newResponseCapture [] limit)) e (map ok_read cs ++ more)
     else proxyResponseFastPath false e (map ok_read cs ++ more)) = Returns rr /\
    rr_err rr = None /\ rr_client rr = reply /\ rr_sent rr = zlen reply /\ rr_unread rr = more /\
    rr_state rr = transactionStatus status /\ rr_failed rr = Some (saw (ch "E") pre) /\
    (capturing = true ->
     let fits := bool_decide (zlen reply <= (if decide (limit <= 0) then defaultMaxCaptureBytes else limit)) in
     capture_Bytes (rr_capture rr) = (if fits then reply else []) /\ capture_Err (rr_capture rr) = negb fits).
Proof.
  intros Hs Hz Hg Hne Hc e reply.
  destruct (scan_before_status (newReplyScanner e) StatePartial pre status (newReplyScanner_boundary e) Hs)
    as (s0 & t0 & E & Hk & Hw & Hx & Hgg & Hf).
  assert (existsb (ends_reply e) pre = false) as Hends.
  { clear -Hz. induction Hz as [|m pre Hm _ IH]; [done|]. cbn [existsb]. rewrite IH. unfold ends_reply. cbn.
    by rewrite bool_decide_false. }
  cbn [rs_end newReplyScanner] in E. rewrite Hends in E. rewrite frames_app, frames_one, Hf, app_assoc in Hc.
  pose proof (reply_loop_status capturing false e cs more status (newReplyScanner e) StatePartial _ s0 t0 [] 0
    (if capturing then Some (newResponseCapture [] limit) else None) false
    (boundary_wf _ (newReplyScanner_boundary e)) Hne Hc E ltac:(lia) Hw) as HL.
  rewrite andb_false_r in HL. specialize (HL eq_refl). cbn [app] in HL. rewrite <- Hc in HL.
  assert (concat cs = reply) as Hr by (subst reply; rewrite frames_app, frames_one, Hf, app_assoc; done).
  rewrite Hr in HL. cbn in Hx.
  destruct capturing; unfold proxyResponseWithCapture, proxyResponseFastPath; rewrite HL; eexists; (split; [reflexivity|]);
    cbn [rr_err rr_client rr_sent rr_unread rr_state rr_failed rr_capture]; (split_and!; [done|done|lia|done|done|by rewrite Hx|]); [|done].
  intros _. unfold newResponseCapture. set (lim := if decide (limit <= 0) then _ else limit).
  assert (0 < lim) as Hlim by (subst lim; case_decide; [vm_compute; done|lia]).
  rewrite capture_reply by (rewrite ?zlen_nil; lia). rewrite zlen_nil, Hr. cbn [app].
  cbv zeta. case_decide as Hd; [rewrite bool_decide_true by lia|rewrite bool_decide_false by lia]; done.
Qed.

Definition sample_reply : list (byte * bytes) := [(ch "D", bs "row"); (ch "C", bs "SELECT 1" ++ [NUL])].

Lemma reply_relayed_witness :
  exists rr, proxyResponseWithCapture false (Some (newResponseCapture [] 1000)) {| OnReadyForQuery := true; Tags := [] |}
    (map ok_read [take 7 (frames (sample_reply ++ [(ch "Z", [ch "I"])])); drop 7 (frames (sample_reply ++ [(ch "Z", [ch "I"])]))] ++ [ok_read (bs "later")])
      = Returns rr /\
    rr_err rr = None /\ rr_client rr = frames (sample_reply ++ [(ch "Z", [ch "I"])]) /\
    rr_sent rr = zlen (frames (sample_reply ++ [(ch "Z", [ch "I"])])) /\ rr_unread rr = [ok_read (bs "later")] /\
    rr_state rr = StateIdle /\ rr_failed rr = Some false /\
    (true = true ->
     let fits := bool_decide (zlen (frames (sample_reply ++ [(ch "Z", [ch "I"])])) <= 1000) in
     capture_Bytes (rr_capture rr) = (if fits then frames (sample_reply ++ [(ch "Z", [ch "I"])]) else []) /\
     capture_Err (rr_capture rr) = negb fits).
Proof.
  refine (reply_relayed true sample_reply (ch "I") [take 7 (frames (sample_reply ++ [(ch "Z", [ch "I"])]));
    drop 7 (frames (sample_reply ++ [(ch "Z", [ch "I"])]))] [ok_read (bs "later")] 1000 _ _ _ _ _).
  - repeat constructor.
  - repeat constructor; discriminate.
  - reflexivity.
  - repeat constructor; vm_compute; discriminate.
  - reflexivity.
Defined.

(** A reply that ends at the answer to the client's last message is taken to end
    at that answer's header: what comes of its body in a later read is neither
    forwarded nor read, and stands at the front of the next reply. *)
Example flushed_reply_truncated :
  let e := {| OnReadyForQuery := false; Tags := [ch "T"] |} in
  let reply := frame (ch "T", bs "row description") in
  match proxyResponseFastPath false e (map ok_read [take 8 reply; drop 8 reply]) with
  | Returns rr => rr_err rr = None /\ rr_client rr = take 8 reply /\ rr_unread rr = [ok_read (drop 8 reply)]
  | _ => False
  end.
Proof. vm_compute. repeat split; reflexivity. Qed.

(** ** Unprompted messages *)

Definition async_ok (m : byte * bytes) : Prop := isAsyncTag (fst m) = true /\ sized m.

Lemma read_frame m rest :
  sized m -> exists x1 x2 x3 x4, ReadFull 5 (frame m ++ rest) = Ok ([fst m; x1; x2; x3; x4], snd m ++ rest) /\
    be_uint32 x1 x2 x3 x4 = zlen (snd m) + 4 /\ frame m = [fst m; x1; x2; x3; x4] ++ snd m.
Proof.
  intros Hm. destruct (appendTagged_cases (fst m) (snd m) Hm) as (a & b & c & d & E & Hv). unfold frame. rewrite E.
  exists a, b, c, d. split_and!; [|done|done].
  change ((fst m :: a :: b :: c :: d :: snd m) ++ rest) with ([fst m; a; b; c; d] ++ (snd m ++ rest)). by apply ReadFull_app.
Qed.

(** How many of the turns [n ..< n + count] find a message. *)
Definition arrivals (quiet : nat -> bool) (n count : nat) : nat := length (List.filter (fun k => negb (quiet k)) (seq n count)).

Lemma watch_loop_spec count : forall n fuel quiet msgs rest sent,
  Forall async_ok msgs -> (count < fuel)%nat -> (arrivals quiet n count <= length msgs)%nat ->
  watch_loop fuel n (n + count) quiet (frames msgs ++ rest) sent =
  Some (WatchStopped, sent ++ frames (take (arrivals quiet n count) msgs), frames (drop (arrivals quiet n count) msgs) ++ rest).
Proof.
  induction count as [|count IH]; intros n fuel quiet msgs rest sent Hm Hf Ha; (destruct fuel as [|fuel]; [lia|]); cbn [watch_loop].
  { rewrite decide_True by lia. unfold arrivals. cbn. by rewrite app_nil_r. }
  rewrite decide_False by lia. replace (n + S count)%nat with (S n + count)%nat by lia.
  unfold arrivals in *. cbn [seq List.filter] in *. destruct (quiet n); cbn [negb length] in *.
  { by apply IH; [|lia|]. }
  destruct msgs as [|m msgs]; [cbn in Ha; lia|]. apply Forall_cons_iff in Hm as [[Hm Hs] Hms].
  change (frames (m :: msgs)) with (frame m ++ frames msgs). rewrite <- app_assoc.
  destruct (read_frame m (frames msgs ++ rest) Hs) as (x1 & x2 & x3 & x4 & -> & Hv & Hfr).
  rewrite Hm. cbn [negb]. cbv zeta. rewrite Hv. pose proof (zlen_nonneg (snd m)). rewrite decide_False by lia.
  rewrite ReadFull_app by (unfold zlen; lia). rewrite <- Hfr. rewrite IH by (done || cbn in *; lia).
  cbn [take drop]. change (frames (m :: ?l)) with (frame m ++ frames l). by rewrite <- app_assoc.
Qed.

(** While a listening session is idle its client is sent whole notifications
    and nothing else, and taking the connection back loses none: after any number
    of waits, those that found a message have forwarded exactly as many, in order,
    and the backend's stream stands at the start of the next. *)
Theorem notifications_forwarded quiet stop_at msgs rest :
  Forall async_ok msgs -> (arrivals quiet 0 stop_at <= length msgs)%nat ->
  watchAsync stop_at quiet (frames msgs ++ rest) =
  Some (WatchStopped, frames (take (arrivals quiet 0 stop_at) msgs), frames (drop (arrivals quiet 0 stop_at) msgs) ++ rest).
Proof. intros Hm Ha. unfold watchAsync. by rewrite (watch_loop_spec stop_at 0) by (done || lia). Qed.

Lemma notifications_forwarded_witness :
  watchAsync 3 (fun n => Nat.eqb n 1) (frames [(ch "A", bs "one"); (ch "N", bs "two")] ++ []) =
  Some (WatchStopped, frames [(ch "A", bs "one"); (ch "N", bs "two")], frames [] ++ []).
Proof.
  refine (notifications_forwarded (fun n => Nat.eqb n 1) 3 [(ch "A", bs "one"); (ch "N", bs "two")] [] _ _).
  - repeat constructor.
  - vm_compute. lia.
Defined.

(** A message the watcher does not forward has lost its header by then: the
    session's own reader is left at its body. *)
Example unexpected_message_loses_header :
  watchAsync 3 (fun _ => false) (frame (ch "Z", bs "I")) = Some (WatchUnexpected, [], bs "I").
Proof. vm_compute. reflexivity. Qed.
