(* ===== verification/ResultSet.v ===== *)
(** * Result sets Pontus answers itself

    [result_set.go]: the encoder of the administration console's replies in
    both query protocols, and the decoders of the client messages that ask for
    them. *)
From Stdlib Require Import ZArith Lia Strings.String.
From stdpp Require Import base gmap list numbers option.
From S2P Require Import Prelude Wire Scanner.

(** ** Columns and rows *)

Definition oidInt8 : Z := 20.
Definition oidText : Z := 25.

Record Column := { Name : bytes; OID : Z }.

Definition TextColumn (name : bytes) : Column := {| Name := name; OID := oidText |}.
Definition NumericColumn (name : bytes) : Column := {| Name := name; OID := oidInt8 |}.

Inductive rs_err :=
| RowWidth (columns values : nat)
| IndexPanic.                       (* [r.columns[i]] out of range *)

Record ResultSet := {
  rs_columns : list Column;
  rs_rows : list (list bytes);
  rs_err_seen : option rs_err
}.

Definition NewResultSet (columns : list Column) : ResultSet :=
  {| rs_columns := columns; rs_rows := []; rs_err_seen := None |}.

(** [Row]: the first mismatch is remembered and reported by [Send]. *)
Definition Row (r : ResultSet) (values : list bytes) : ResultSet :=
  if decide (length values <> length (rs_columns r)) then
    {| rs_columns := rs_columns r; rs_rows := rs_rows r;
       rs_err_seen := match rs_err_seen r with
                      | None => Some (RowWidth (length (rs_columns r)) (length values))
                      | Some e => Some e
                      end |}
  else {| rs_columns := rs_columns r; rs_rows := rs_rows r ++ [values];
          rs_err_seen := rs_err_seen r |}.

(** ** Encoding *)

Definition formatText : Z := 0.
Definition formatBinary : Z := 1.
Definition txIdle : byte := ch "I".

(** [formatFor]. *)
Definition formatFor (formats : list Z) (column : nat) : Z :=
  match formats with
  | [] => formatText
  | [f] => f
  | _ => match formats !! column with Some f => f | None => formatText end
  end.

(** [appendValue]. *)
Definition appendValue (dst : bytes) (column : Column) (value : bytes) (format : Z) : bytes :=
  if decide (format <> formatBinary) then dst ++ put_uint32 (zlen value) ++ value
  else if decide (OID column <> oidInt8) then dst ++ put_uint32 (zlen value) ++ value
  else match ParseInt64 value with
       | None => dst ++ put_uint32 (2 ^ 32 - 1)
       | Some n => dst ++ put_uint32 8 ++ put_uint64 (u64 n)
       end.

(** [appendRows]'s inner loop, from column [i] on. *)
Fixpoint append_values (columns : list Column) (formats : list Z) (i : nat) (values : list bytes)
    (dst : bytes) : result rs_err bytes :=
  match values with
  | [] => Ok dst
  | v :: values =>
      match columns !! i with
      | None => Err IndexPanic
      | Some c => append_values columns formats (S i) values
                    (appendValue dst c v (formatFor formats i))
      end
  end.

Fixpoint append_rows (columns : list Column) (formats : list Z) (rows : list (list bytes))
    (dst : bytes) : result rs_err bytes :=
  match rows with
  | [] => Ok dst
  | values :: rows =>
      body ← append_values columns formats 0 values (put_uint16 (zlen values));
      append_rows columns formats rows (appendTagged dst (ch "D") body)
  end.

Definition appendRows (r : ResultSet) (dst : bytes) (formats : list Z) : result rs_err bytes :=
  append_rows (rs_columns r) formats (rs_rows r) dst.

(** [typeSize]. *)
Definition typeSize (oid : Z) : Z := if decide (oid = oidInt8) then 8 else -1.

(** [appendRowDescription]'s loop. *)
Fixpoint append_columns (formats : list Z) (i : nat) (columns : list Column) (dst : bytes) : bytes :=
  match columns with
  | [] => dst
  | c :: columns =>
      append_columns formats (S i) columns
        (dst ++ Name c ++ [NUL] ++ put_uint32 0 ++ put_uint16 0 ++ put_uint32 (OID c)
             ++ put_uint16 (u16 (typeSize (OID c))) ++ put_uint32 4294967295
             ++ put_uint16 (u16 (formatFor formats i)))
  end.

Definition appendRowDescription (dst : bytes) (columns : list Column) (formats : list Z) : bytes :=
  appendTagged dst (ch "T") (append_columns formats 0 columns (put_uint16 (zlen columns))).

(** [appendInt]: the array holds twenty digits, enough for any [int]. *)
Definition appendInt (dst : bytes) (n : Z) : bytes :=
  if decide (n = 0) then dst ++ [ch "0"] else dst ++ put_digits 20 n [].

Definition commandTag (verb : bytes) (rows : Z) : bytes :=
  appendInt (verb ++ [ch " "]) rows ++ [NUL].

(** [Send], [Description] and [SendRows]: the bytes handed to [w.Write]. *)
Definition Send (r : ResultSet) : result rs_err bytes :=
  match rs_err_seen r with
  | Some e => Err e
  | None =>
      out ← appendRows r (appendRowDescription [] (rs_columns r) []) [];
      let out := appendTagged out (ch "C") (commandTag (bs "SELECT") (zlen (rs_rows r))) in
      Ok (appendTagged out (ch "Z") [txIdle])
  end.

Definition Description (r : ResultSet) (formats : list Z) : result rs_err bytes :=
  match rs_err_seen r with
  | Some e => Err e
  | None => Ok (appendRowDescription [] (rs_columns r) formats)
  end.

Definition SendRows (r : ResultSet) (formats : list Z) : result rs_err bytes :=
  match rs_err_seen r with
  | Some e => Err e
  | None =>
      out ← appendRows r [] formats;
      Ok (appendTagged out (ch "C") (commandTag (bs "SELECT") (zlen (rs_rows r))))
  end.

Definition WriteCommandComplete (tag : bytes) : bytes :=
  appendTagged (appendTagged [] (ch "C") (tag ++ [NUL])) (ch "Z") [txIdle].

Definition WriteEmptyQuery : bytes :=
  appendTagged (appendTagged [] (ch "I") []) (ch "Z") [txIdle].

Definition TagParseComplete : byte := ch "1".
Definition TagBindComplete : byte := ch "2".
Definition TagCloseComplete : byte := ch "3".
Definition TagNoData : byte := ch "n".

Definition WriteAck (tag : byte) : bytes := appendTagged [] tag [].

Definition WriteReadyForQuery : bytes := appendTagged [] (ch "Z") [txIdle].

Fixpoint append_oids (count : nat) (dst : bytes) : bytes :=
  match count with O => dst | S n => append_oids n (dst ++ put_uint32 oidText) end.

Definition WriteParameterDescription (count : Z) : bytes :=
  appendTagged [] (ch "t") (append_oids (Z.to_nat count) (put_uint16 (u16 count))).

Definition WriteCommandTag (tag : bytes) : bytes := appendTagged [] (ch "C") (tag ++ [NUL]).

(** ** Decoding *)

Record ParseMessage := { pm_Name : bytes; pm_Query : bytes }.

Inductive decode_err :=
| NoStatementName
| NoQuery
| TruncatedNames
| TruncatedCount
| MissingFormats (count : Z)
| TruncatedParameters
| MissingParameter (size : Z)
| GoPanic.   (* a run-time panic: slice bounds or make with a negative length *)

Definition DecodeParse (body : bytes) : result decode_err ParseMessage :=
  match cut body NUL with
  | None => Err NoStatementName
  | Some (name, rest) =>
      match cut rest NUL with
      | None => Err NoQuery
      | Some (query, _) => Ok {| pm_Name := name; pm_Query := query |}
      end
  end.

Definition DescribeTarget (body : bytes) : byte :=
  match body with [] => NUL | c :: _ => c end.

Definition readInt16 (b : bytes) : result decode_err (Z * bytes) :=
  match b with
  | x :: y :: rest => Ok (i16 (be_uint16 x y), rest)
  | _ => Err TruncatedCount
  end.

(** [for range count] over the parameter values: a negative count runs zero
    times. *)
Fixpoint skip_parameters (count : nat) (rest : bytes) : result decode_err bytes :=
  match count with
  | O => Ok rest
  | S count =>
      match rest with
      | a :: b :: c :: d :: rest =>
          let size := i32 (be_uint32 a b c d) in
          if decide (size < 0) then skip_parameters count rest
          else if decide (zlen rest < size) then Err (MissingParameter size)
          else skip_parameters count (drop (Z.to_nat size) rest)
      | _ => Err TruncatedParameters
      end
  end.

Fixpoint read_formats (count : nat) (rest : bytes) : list Z :=
  match count, rest with
  | S count, x :: y :: rest => i16 (be_uint16 x y) :: read_formats count rest
  | _, _ => []
  end.

Definition skip_name (rest : bytes) : result decode_err bytes :=
  match cut rest NUL with None => Err TruncatedNames | Some (_, rest) => Ok rest end.

(** [DecodeBindResultFormats]. *)
Definition DecodeBindResultFormats (body : bytes) : result decode_err (list Z) :=
  rest ← skip_name body;
  rest ← skip_name rest;
  '(count, rest) ← readInt16 rest;
  if decide (zlen rest < count * 2) then Err (MissingFormats count)
  else
    rest ← match slice rest (count * 2) (zlen rest) with
           | Some rest => Ok rest
           | None => Err GoPanic
           end;
    '(count, rest) ← readInt16 rest;
    rest ← skip_parameters (Z.to_nat count) rest;
    '(count, rest) ← readInt16 rest;
    if decide (zlen rest < count * 2) then Err (MissingFormats count)
    else if decide (count < 0) then Err GoPanic
    else Ok (read_formats (Z.to_nat count) rest).

(** ** What a client reads

    The reference reader of a driver: the columns as RowDescription declares
    them, and the values of a DataRow decoded by that declaration. *)

Record FieldDescription := { fd_name : bytes; fd_oid : Z; fd_format : Z }.

Inductive client_value := VNull | VText (v : bytes) | VInt8 (n : Z).

Definition read_field (b : bytes) : option (FieldDescription * bytes) :=
  '(name, rest) ← cut b NUL;
  match rest with
  | _ :: _ :: _ :: _ :: _ :: _ :: o1 :: o2 :: o3 :: o4 :: _ :: _ :: _ :: _ :: _ :: _ :: f1 :: f2 :: rest =>
      Some ({| fd_name := name; fd_oid := be_uint32 o1 o2 o3 o4; fd_format := i16 (be_uint16 f1 f2) |},
            rest)
  | _ => None
  end.

Fixpoint read_fields (n : nat) (b : bytes) : option (list FieldDescription) :=
  match n with
  | O => if decide (b = []) then Some [] else None
  | S n => '(f, b) ← read_field b; fs ← read_fields n b; Some (f :: fs)
  end.

Definition read_description (b : bytes) : option (list FieldDescription) :=
  match b with x :: y :: b => read_fields (Z.to_nat (be_uint16 x y)) b | _ => None end.

Definition client_decode (f : FieldDescription) (v : bytes) : option client_value :=
  if decide (fd_format f = 1 /\ fd_oid f = 20) then
    match v with
    | [a; b; c; d; e; g; h; i] => Some (VInt8 (i64 (be_uint32 a b c d * 2 ^ 32 + be_uint32 e g h i)))
    | _ => None
    end
  else Some (VText v).

Fixpoint read_values (fs : list FieldDescription) (b : bytes) : option (list client_value) :=
  match fs with
  | [] => if decide (b = []) then Some [] else None
  | f :: fs =>
      match b with
      | x :: y :: z :: w :: b =>
          let n := be_uint32 x y z w in
          if decide (n = 2 ^ 32 - 1) then vs ← read_values fs b; Some (VNull :: vs)
          else if decide (zlen b < n) then None
          else v ← client_decode f (ztake n b); vs ← read_values fs (zdrop n b); Some (v :: vs)
      | _ => None
      end
  end.

Definition read_row (fs : list FieldDescription) (b : bytes) : option (list client_value) :=
  match b with
  | x :: y :: b => if decide (be_uint16 x y = zlen fs) then read_values fs b else None
  | _ => None
  end.

(** What the driver should end up with for a column, format code and value. *)
Definition meant (c : Column) (format : Z) (value : bytes) : client_value :=
  if decide (format = formatBinary /\ OID c = oidInt8) then
    match ParseInt64 value with Some n => VInt8 n | None => VNull end
  else VText value.

Fixpoint meant_row (formats : list Z) (i : nat) (columns : list Column) (values : list bytes)
  : list client_value :=
  match columns, values with
  | c :: columns, v :: values => meant c (formatFor formats i) v :: meant_row formats (S i) columns values
  | _, _ => []
  end.

Fixpoint declared (formats : list Z) (i : nat) (columns : list Column) : list FieldDescription :=
  match columns with
  | [] => []
  | c :: columns => {| fd_name := Name c; fd_oid := OID c; fd_format := formatFor formats i |}
                    :: declared formats (S i) columns
  end.

Definition column_ok (c : Column) : Prop := NUL ∉ Name c /\ 0 <= OID c < 2 ^ 32.
Definition int16_ok (z : Z) : Prop := - 2 ^ 15 <= z < 2 ^ 15.
Definition value_ok (v : bytes) : Prop := zlen v < 2 ^ 31.

Definition row_body (columns : list Column) (formats : list Z) (values : list bytes)
  : result rs_err bytes :=
  append_values columns formats 0 values (put_uint16 (zlen values)).

(** ** Lemmas on the encoder *)

Lemma put_uint16_cases z :
  exists a b, put_uint16 z = [a; b] /\ be_uint16 a b = u16 z.
Proof. pose proof (put_uint16_roundtrip z) as H. unfold put_uint16 in *. eauto. Qed.

Lemma u16_signed z : int16_ok z -> i16 (u16 (u16 z)) = z.
Proof.
  intros H. unfold i16, u16. rewrite !signed_mod by lia. apply signed_id; [lia|]. exact H.
Qed.

Lemma formatFor_ok formats i : Forall int16_ok formats -> int16_ok (formatFor formats i).
Proof.
  intros H. unfold formatFor. destruct formats as [|f [|g fs]].
  - done.
  - by inversion H.
  - destruct (_ !! i) eqn:E; [|done]. by eapply (Forall_lookup_1 _ _ _ _ H).
Qed.

Lemma put_uint64_read n :
  - 2 ^ 63 <= n < 2 ^ 63 ->
  exists a b c d e g h i, put_uint64 (u64 n) = [a; b; c; d; e; g; h; i] /\
    i64 (be_uint32 a b c d * 2 ^ 32 + be_uint32 e g h i) = n.
Proof.
  intros Hn. unfold put_uint64.
  destruct (put_uint32_cases (Z.shiftr (u64 n) 32)) as (a & b & c & d & E1 & V1).
  destruct (put_uint32_cases (u64 n)) as (e & g & h & i & E2 & V2).
  rewrite E1, E2. exists a, b, c, d, e, g, h, i. split; [done|].
  rewrite V1, V2. unfold u64, u32. rewrite Z.shiftr_div_pow2 by lia.
  pose proof (Z.mod_pos_bound n (2 ^ 64) ltac:(lia)) as Hm.
  rewrite (Z.mod_small (_ / _)).
  - rewrite <- (signed_id 64 n) at 3 by lia. rewrite <- (signed_mod 64 n) by lia.
    unfold i64. f_equal. pose proof (Z.div_mod (n mod 2 ^ 64) (2 ^ 32) ltac:(lia)). lia.
  - split; [apply Z.div_pos; lia|apply Z.div_lt_upper_bound; lia].
Qed.

Lemma ParseInt64_range v n : ParseInt64 v = Some n -> - 2 ^ 63 <= n < 2 ^ 63.
Proof.
  unfold ParseInt64. intros H.
  repeat (case_match || case_decide || apply bind_Some in H as (? & ? & H)); by simplify_eq/=.
Qed.

Lemma appendValue_dst dst c v f : appendValue dst c v f = dst ++ appendValue [] c v f.
Proof. unfold appendValue. repeat case_decide; repeat case_match; done. Qed.

(** One value, encoded under a column's format and read back through that
    column's declaration. *)
Lemma read_values_step fs c v fmt rest :
  value_ok v ->
  read_values ({| fd_name := Name c; fd_oid := OID c; fd_format := fmt |} :: fs)
    (appendValue [] c v fmt ++ rest) =
  (vs ← read_values fs rest; Some (meant c fmt v :: vs)).
Proof.
  intros Hv. unfold value_ok in Hv. pose proof (zlen_nonneg v) as Hp.
  assert (forall w, 0 <= zlen w < 2 ^ 31 ->
    read_values ({| fd_name := Name c; fd_oid := OID c; fd_format := fmt |} :: fs)
      ((put_uint32 (zlen w) ++ w) ++ rest) =
    (v ← client_decode {| fd_name := Name c; fd_oid := OID c; fd_format := fmt |} w;
     vs ← read_values fs rest; Some (v :: vs))) as Hw.
  { intros w Hw. destruct (put_uint32_cases (zlen w)) as (x & y & z & u & -> & V).
    cbn [read_values app]. rewrite V, u32_small by lia.
    rewrite decide_False, decide_False by (rewrite ?zlen_app; pose proof (zlen_nonneg rest); lia).
    by rewrite ztake_app, zdrop_app. }
  unfold appendValue, meant, formatBinary.
  destruct (decide (fmt <> 1)) as [Hf|Hf]; [|destruct (decide (OID c <> oidInt8)) as [Ho|Ho]].
  - rewrite app_nil_l, Hw by lia. unfold client_decode. cbn [fd_format fd_oid].
    by rewrite !decide_False by naive_solver.
  - rewrite app_nil_l, Hw by lia. unfold client_decode. cbn [fd_format fd_oid].
    by rewrite !decide_False by naive_solver.
  - apply dec_stable in Hf. apply dec_stable in Ho.
    rewrite (decide_True (P := _ /\ _)) by done.
    destruct (ParseInt64 v) as [n|] eqn:En.
    + apply ParseInt64_range, put_uint64_read in En as (a & b & c' & d & e & g & h & i & E & V).
      rewrite app_nil_l. change 8 with (zlen [a; b; c'; d; e; g; h; i]). rewrite E, Hw by done.
      unfold client_decode. cbn [fd_format fd_oid]. rewrite decide_True by done. by rewrite V.
    + rewrite app_nil_l. destruct (put_uint32_cases (2 ^ 32 - 1)) as (x & y & z & u & -> & V).
      cbn [read_values app]. rewrite V. by rewrite decide_True.
Qed.

(** A row, from column [i] on. *)
Lemma append_values_read formats suf : forall pre values dst,
  length values = length suf -> Forall value_ok values ->
  exists b, append_values (pre ++ suf) formats (length pre) values dst = Ok (dst ++ b) /\
            read_values (declared formats (length pre) suf) b =
            Some (meant_row formats (length pre) suf values).
Proof.
  induction suf as [|c suf IH]; intros pre values dst Hl Hv; destruct values as [|v values]; try done.
  - exists []. simpl. by rewrite app_nil_r.
  - inversion Hv; subst. cbn [append_values].
    rewrite list_lookup_middle by done.
    destruct (IH (pre ++ [c]) values (appendValue dst c v (formatFor formats (length pre))))
      as (b & E & R); [by injection Hl|done|].
    rewrite <- app_assoc in E. rewrite length_app, Nat.add_1_r in E, R. cbn [app] in E.
    exists (appendValue [] c v (formatFor formats (length pre)) ++ b). split.
    + rewrite E. rewrite (appendValue_dst dst). by rewrite app_assoc.
    + cbn [declared meant_row]. rewrite read_values_step, R by done. done.
Qed.

Lemma read_field_step c fmt rest :
  column_ok c -> int16_ok fmt ->
  read_field ((Name c ++ [NUL] ++ put_uint32 0 ++ put_uint16 0 ++ put_uint32 (OID c)
     ++ put_uint16 (u16 (typeSize (OID c))) ++ put_uint32 4294967295
     ++ put_uint16 (u16 fmt)) ++ rest) =
  Some ({| fd_name := Name c; fd_oid := OID c; fd_format := fmt |}, rest).
Proof.
  intros [Hn Ho] Hf. unfold read_field. rewrite <- app_assoc. cbn [app].
  rewrite cut_app by done. cbn [mbind option_bind].
  destruct (put_uint32_cases 0) as (? & ? & ? & ? & -> & _).
  destruct (put_uint16_cases 0) as (? & ? & -> & _).
  destruct (put_uint32_cases (OID c)) as (? & ? & ? & ? & -> & VO).
  destruct (put_uint16_cases (u16 (typeSize (OID c)))) as (? & ? & -> & _).
  destruct (put_uint32_cases 4294967295) as (? & ? & ? & ? & -> & _).
  destruct (put_uint16_cases (u16 fmt)) as (? & ? & -> & VF).
  cbn [app]. rewrite VO, VF, u16_signed, u32_small by done. done.
Qed.

Lemma append_columns_read formats columns : forall i dst,
  Forall column_ok columns -> Forall int16_ok formats ->
  exists b, append_columns formats i columns dst = dst ++ b /\
            read_fields (length columns) b = Some (declared formats i columns).
Proof.
  induction columns as [|c columns IH]; intros i dst Hc Hf.
  - exists []. by rewrite app_nil_r.
  - inversion Hc; subst. cbn [append_columns].
    destruct (IH (S i) (dst ++ (Name c ++ [NUL] ++ put_uint32 0 ++ put_uint16 0 ++ put_uint32 (OID c)
             ++ put_uint16 (u16 (typeSize (OID c))) ++ put_uint32 4294967295
             ++ put_uint16 (u16 (formatFor formats i))))) as (b & E & R); [done|done|].
    eexists. split; [rewrite E, <- app_assoc; reflexivity|].
    cbn [length read_fields declared].
    rewrite read_field_step by (done || by apply formatFor_ok).
    cbn [mbind option_bind]. by rewrite R.
Qed.

Lemma length_declared formats columns : forall i, length (declared formats i columns) = length columns.
Proof. induction columns; intros; simpl; auto. Qed.

Lemma append_rows_frames columns formats rows :
  zlen columns < 2 ^ 16 ->
  Forall (fun row => length row = length columns /\ Forall value_ok row) rows ->
  exists ds, (forall dst, append_rows columns formats rows dst =
                          Ok (dst ++ frames (map (pair (ch "D")) ds))) /\
             mapM (read_row (declared formats 0 columns)) ds =
             Some (map (meant_row formats 0 columns) rows).
Proof.
  intros Hc. induction rows as [|row rows IH]; intros Hr.
  - exists []. split; [|done]. intros dst. unfold frames. simpl. by rewrite app_nil_r.
  - inversion Hr as [|?? [Hl Hv] Hr']; subst.
    destruct (append_values_read formats columns [] row (put_uint16 (zlen row)) Hl Hv) as (b & E & R).
    cbn [app length] in E, R. destruct (IH Hr') as (ds & E2 & R2).
    exists ((put_uint16 (zlen row) ++ b) :: ds). split.
    + intros dst. cbn [append_rows]. rewrite E. cbn [mbind result_bind]. rewrite E2, appendTagged_dst. unfold frames. cbn [map concat]. by rewrite <- app_assoc.
    + cbn [mapM map]. rewrite R2. destruct (put_uint16_cases (zlen row)) as (x & y & -> & V).
      cbn [app read_row]. rewrite V.
      assert (zlen row = zlen columns) as Ez by (unfold zlen; lia).
      unfold u16. rewrite Z.mod_small by (pose proof (zlen_nonneg columns); lia).
      rewrite decide_True by (unfold zlen; rewrite length_declared; lia). by rewrite R.
Qed.

Lemma appendRowDescription_read columns formats :
  Forall column_ok columns -> Forall int16_ok formats -> zlen columns < 2 ^ 16 ->
  exists b, appendRowDescription [] columns formats = frame (ch "T", b) /\
            read_description b = Some (declared formats 0 columns).
Proof.
  intros Hc Hf Hl. unfold appendRowDescription, frame. cbn [fst snd].
  destruct (append_columns_read formats columns 0 (put_uint16 (zlen columns)) Hc Hf) as (b & -> & R).
  eexists; split; [done|]. destruct (put_uint16_cases (zlen columns)) as (x & y & -> & V).
  cbn [app read_description]. rewrite V. unfold u16. pose proof (zlen_nonneg columns).
  rewrite Z.mod_small by lia. unfold zlen. by rewrite Nat2Z.id.
Qed.

(** A set assembled row by row holds exactly the rows that fit. *)
Lemma foldl_Row r rows :
  rs_columns (foldl Row r rows) = rs_columns r /\
  rs_rows (foldl Row r rows) =
    rs_rows r ++ filter (fun row => length row = length (rs_columns r)) rows /\
  (rs_err_seen (foldl Row r rows) = None <->
   rs_err_seen r = None /\ Forall (fun row => length row = length (rs_columns r)) rows).
Proof.
  revert r. induction rows as [|row rows IH]; intros r.
  - simpl. rewrite app_nil_r. naive_solver.
  - cbn [foldl]. destruct (IH (Row r row)) as (E1 & E2 & E3). rewrite E1, E2, E3. clear.
    unfold Row. rewrite filter_cons, Forall_cons_iff.
    destruct (decide (length row <> length (rs_columns r))) as [Hn|Hn]; cbn [rs_columns rs_rows rs_err_seen].
    + rewrite decide_False by done. split_and!; [done..|]. destruct (rs_err_seen r); naive_solver.
    + apply dec_stable in Hn. rewrite decide_True by done. split_and!; [done|by rewrite <- app_assoc|naive_solver].
Qed.

Lemma commandTag_reads verb n :
  0 <= n < 2 ^ 63 ->
  exists digits, commandTag verb n = verb ++ [ch " "] ++ digits ++ [NUL] /\ parse_udec digits = Some n.
Proof.
  intros Hn. unfold commandTag, appendInt. case_decide; subst.
  - exists [ch "0"]. by rewrite <- !app_assoc.
  - exists (put_digits 20 n []). rewrite <- !app_assoc. split; [done|].
    destruct (parse_put_digits 20 n [] 0) as (k & E & _ & Hd).
    { assert (2 ^ 63 <= 10 ^ Z.of_nat 20) by (vm_compute; congruence). lia. }
    destruct Hd as (d & ds & Ed & _); [lia|]. rewrite Ed in *. unfold parse_udec. rewrite E.
    cbn [parse_digits]. f_equal; lia.
Qed.

Lemma appendTagged_frames dst msgs tag b :
  appendTagged (dst ++ frames msgs) tag b = dst ++ frames (msgs ++ [(tag, b)]).
Proof. by rewrite appendTagged_dst, frames_app, frames_one, <- app_assoc. Qed.

Lemma meant_row_text columns : forall i values,
  length values = length columns -> meant_row [] i columns values = map VText values.
Proof.
  induction columns as [|c columns IH]; intros i [|v values] H; try done.
  cbn [meant_row map]. by rewrite IH by (by injection H).
Qed.

Lemma set_of_rows columns rows :
  let r := foldl Row (NewResultSet columns) rows in
  rs_columns r = columns /\
  (Forall (fun row => length row = length columns) rows -> rs_rows r = rows /\ rs_err_seen r = None) /\
  (~ Forall (fun row => length row = length columns) rows -> exists e, rs_err_seen r = Some e).
Proof.
  intros r. destruct (foldl_Row (NewResultSet columns) rows) as (E1 & E2 & E3).
  fold r in E1, E2, E3. cbn [NewResultSet rs_columns rs_rows rs_err_seen app] in *.
  split_and!; [done| |].
  - intros H. split; [|naive_solver]. rewrite E2. clear -H.
    induction H; [done|]. by rewrite filter_cons, decide_True, IHForall by done.
  - intros H. destruct (rs_err_seen r); [eauto|]. naive_solver.
Qed.

(** ** Properties *)

(** C26: Whatever result formats the client bound, the RowDescription it is
    sent and the DataRows that follow agree: a driver that decodes each row by
    the declared type and format gets back the rows the console produced, an
    int8 as its number when binary was asked for (NULL where the text is no
    number) and every other value as its text, followed by a CommandComplete
    that counts the rows and, for a simple query, ReadyForQuery. *)
Theorem result_set_roundtrip (columns : list Column) (rows : list (list bytes)) (formats : list Z) :
  Forall column_ok columns -> zlen columns < 2 ^ 16 -> zlen rows < 2 ^ 63 ->
  Forall int16_ok formats ->
  Forall (fun row => length row = length columns /\ Forall value_ok row) rows ->
  let r := foldl Row (NewResultSet columns) rows in
  exists desc desc0 ds ds0 digits,
    let complete := (ch "C", bs "SELECT " ++ digits ++ [NUL]) in
    Description r formats = Ok (frame (ch "T", desc)) /\
    SendRows r formats = Ok (frames (map (pair (ch "D")) ds ++ [complete])) /\
    Send r = Ok (frames ([(ch "T", desc0)] ++ map (pair (ch "D")) ds0 ++
                         [complete; (ch "Z", [txIdle])])) /\
    read_description desc = Some (declared formats 0 columns) /\
    mapM (read_row (declared formats 0 columns)) ds = Some (map (meant_row formats 0 columns) rows) /\
    read_description desc0 = Some (declared [] 0 columns) /\
    mapM (read_row (declared [] 0 columns)) ds0 = Some (map (map VText) rows) /\
    parse_udec digits = Some (zlen rows).
Proof.
  intros Hc Hl Hn Hf Hr r.
  destruct (set_of_rows columns rows) as (Ec & Hok & _). fold r in Ec, Hok.
  destruct Hok as [Er Ee]; [eapply Forall_impl; [|exact Hr]; naive_solver|].
  destruct (commandTag_reads (bs "SELECT") (zlen rows)) as (digits & Et & Vt);
    [pose proof (zlen_nonneg rows); lia|].
  destruct (append_rows_frames columns formats rows Hl Hr) as (ds & E1 & R1).
  destruct (append_rows_frames columns [] rows Hl Hr) as (ds0 & E0 & R0).
  destruct (appendRowDescription_read columns formats Hc Hf Hl) as (desc & D1 & RD1).
  destruct (appendRowDescription_read columns [] Hc (Forall_nil_2 _) Hl) as (desc0 & D0 & RD0).
  exists desc, desc0, ds, ds0, digits. cbn zeta.
  unfold Description, SendRows, Send, appendRows. rewrite Ee, Ec, Er, D1, D0, E1, E0, Et.
  cbn [mbind result_bind]. split_and!; try done.
  - by rewrite (appendTagged_frames []).
  - rewrite !appendTagged_frames, (frames_app [_]), frames_one, <- app_assoc. done.
  - rewrite R0. f_equal. clear -Hr. induction Hr as [|row rows [Hw _] _ IH]; [done|].
    cbn [map]. by rewrite IH, meant_row_text.
Qed.

Definition pool_columns : list Column := [TextColumn (bs "name"); NumericColumn (bs "size")].
Definition pool_rows : list (list bytes) := [[bs "app"; bs "25"]; [bs "etl"; bs "many"]].

Lemma result_set_roundtrip_witness :
  let r := foldl Row (NewResultSet pool_columns) pool_rows in
  exists desc desc0 ds ds0 digits,
    let complete := (ch "C", bs "SELECT " ++ digits ++ [NUL]) in
    Description r [0; 1] = Ok (frame (ch "T", desc)) /\
    SendRows r [0; 1] = Ok (frames (map (pair (ch "D")) ds ++ [complete])) /\
    Send r = Ok (frames ([(ch "T", desc0)] ++ map (pair (ch "D")) ds0 ++
                         [complete; (ch "Z", [txIdle])])) /\
    read_description desc = Some (declared [0; 1] 0 pool_columns) /\
    mapM (read_row (declared [0; 1] 0 pool_columns)) ds =
      Some [[VText (bs "app"); VInt8 25]; [VText (bs "etl"); VNull]] /\
    read_description desc0 = Some (declared [] 0 pool_columns) /\
    mapM (read_row (declared [] 0 pool_columns)) ds0 =
      Some [[VText (bs "app"); VText (bs "25")]; [VText (bs "etl"); VText (bs "many")]] /\
    parse_udec digits = Some 2.
Proof.
  refine (result_set_roundtrip pool_columns pool_rows [0; 1] _ _ _ _ _).
  - apply List.Forall_forall. intros x Hx. repeat destruct Hx as [<-|Hx];
      first [done | split; by_decide].
  - reflexivity.
  - reflexivity.
  - apply List.Forall_forall. intros x Hx. repeat destruct Hx as [<-|Hx]; first [done | split; by_decide].
  - apply List.Forall_forall. intros x Hx. repeat destruct Hx as [<-|Hx]; first [done | idtac].
    all: split; [reflexivity|]; apply List.Forall_forall; intros y Hy;
      repeat destruct Hy as [<-|Hy]; first [done | by_decide].
Defined.

(** A row of the wrong width never reaches the client as a corrupt
    stream: once one was added, nothing of the set is written in either
    protocol, whatever rows came before or after it. *)
Theorem misfit_row_refused (columns : list Column) (before after : list (list bytes)) (row : list bytes)
    (formats : list Z) :
  length row <> length columns ->
  let r := foldl Row (NewResultSet columns) (before ++ row :: after) in
  exists e, Send r = Err e /\ SendRows r formats = Err e /\ Description r formats = Err e.
Proof.
  intros Hw r. destruct (set_of_rows columns (before ++ row :: after)) as (_ & _ & H).
  destruct H as [e He].
  { intros Hall. apply Forall_app in Hall as [_ Hall]. by inversion Hall. }
  exists e. fold r in He. unfold Send, SendRows, Description. by rewrite He.
Qed.

Lemma misfit_row_refused_witness :
  let r := foldl Row (NewResultSet pool_columns) (pool_rows ++ [bs "x"] :: []) in
  exists e, Send r = Err e /\ SendRows r [1] = Err e /\ Description r [1] = Err e.
Proof. refine (misfit_row_refused pool_columns pool_rows [] [bs "x"] [1] _). by_decide. Defined.

(** ** Bind messages as a client writes them *)

Definition bind_parameter (v : option bytes) : bytes :=
  match v with None => put_uint32 (2 ^ 32 - 1) | Some v => put_uint32 (zlen v) ++ v end.

Definition int16s (zs : list Z) : bytes := concat (map (fun z => put_uint16 (u16 z)) zs).

Definition bind_body (portal statement : bytes) (parameter_formats : list Z)
    (parameters : list (option bytes)) (result_formats : list Z) : bytes :=
  portal ++ NUL :: statement ++ NUL ::
  put_uint16 (zlen parameter_formats) ++ int16s parameter_formats ++
  put_uint16 (zlen parameters) ++ concat (map bind_parameter parameters) ++
  put_uint16 (zlen result_formats) ++ int16s result_formats.

Definition parameter_ok (v : option bytes) : Prop :=
  match v with None => True | Some v => value_ok v end.

Lemma readInt16_put z rest : int16_ok z -> readInt16 (put_uint16 z ++ rest) = Ok (z, rest).
Proof.
  intros H. destruct (put_uint16_cases z) as (x & y & -> & V). cbn [app readInt16]. rewrite V.
  unfold i16, u16. by rewrite signed_mod, signed_id by (exact H || lia).
Qed.

Lemma zlen_int16s zs : zlen (int16s zs) = 2 * zlen zs.
Proof.
  induction zs as [|z zs IH]; [done|]. unfold int16s in *. cbn [map concat].
  rewrite zlen_app, IH, zlen_cons. unfold put_uint16. rewrite !zlen_cons, zlen_nil. lia.
Qed.

Lemma read_formats_int16s zs : Forall int16_ok zs -> read_formats (length zs) (int16s zs) = zs.
Proof.
  induction 1 as [|z zs Hz _ IH]; [done|]. unfold int16s in *. cbn [map concat length].
  destruct (put_uint16_cases (u16 z)) as (x & y & -> & V). cbn [app read_formats].
  by rewrite V, IH, u16_signed.
Qed.

Lemma skip_parameters_all ps rest :
  Forall parameter_ok ps ->
  skip_parameters (length ps) (concat (map bind_parameter ps) ++ rest) = Ok rest.
Proof.
  induction 1 as [|p ps Hp _ IH]; [done|]. cbn [length map concat skip_parameters].
  destruct p as [v|]; cbn [bind_parameter parameter_ok] in *.
  - destruct (put_uint32_cases (zlen v)) as (a & b & c & d & -> & V). cbn [app].
    unfold value_ok in Hp. pose proof (zlen_nonneg v). rewrite V, u32_small by lia.
    unfold i32. rewrite signed_id by lia. rewrite <- app_assoc.
    rewrite decide_False by lia. rewrite decide_False by (rewrite zlen_app; pose proof (zlen_nonneg (concat (map bind_parameter ps) ++ rest)); lia).
    rewrite <- zdrop_drop, zdrop_app. apply IH.
  - destruct (put_uint32_cases (2 ^ 32 - 1)) as (a & b & c & d & -> & V). cbn [app].
    rewrite V. change (i32 (u32 (2 ^ 32 - 1))) with (-1). by rewrite decide_True.
Qed.

Lemma slice_tail {A} (l r : list A) n : zlen l = n -> slice (l ++ r) n (zlen (l ++ r)) = Some r.
Proof.
  intros <-. unfold slice. pose proof (zlen_nonneg l). pose proof (zlen_nonneg r).
  rewrite zlen_app, decide_True by (unfold zlen in *; rewrite length_app; lia).
  f_equal. unfold zlen. rewrite Nat2Z.id, drop_app_length, take_ge; [done|lia].
Qed.

(** The result formats a client asks for in a Bind are read exactly,
    whatever the names, parameter formats, parameter values and NULLs in front
    of them; but a Bind that announces a negative number of parameter formats
    is not refused: it panics, whatever follows. *)
Theorem bind_formats_read (portal statement : bytes) (pfs rfs : list Z) (ps : list (option bytes))
    (rest : bytes) (count : Z) :
  NUL ∉ portal -> NUL ∉ statement ->
  zlen pfs < 2 ^ 15 -> zlen ps < 2 ^ 15 -> zlen rfs < 2 ^ 15 ->
  Forall int16_ok rfs -> Forall parameter_ok ps -> - 2 ^ 15 <= count < 0 ->
  DecodeBindResultFormats (bind_body portal statement pfs ps rfs) = Ok rfs /\
  DecodeBindResultFormats (portal ++ NUL :: statement ++ NUL :: put_uint16 (u16 count) ++ rest) =
    Err GoPanic.
Proof.
  intros Hp Hs Hpf Hps Hrf Hr Ho Hc.
  pose proof (zlen_nonneg pfs); pose proof (zlen_nonneg ps); pose proof (zlen_nonneg rfs).
  unfold DecodeBindResultFormats, bind_body, skip_name. split.
  - rewrite cut_app by done. cbn [mbind result_bind]. rewrite cut_app by done. cbn [mbind result_bind].
    rewrite readInt16_put by (unfold int16_ok; lia). cbn [mbind result_bind].
    rewrite decide_False by (rewrite zlen_app, zlen_int16s; pose proof (zlen_nonneg
      (put_uint16 (zlen ps) ++ concat (map bind_parameter ps) ++ put_uint16 (zlen rfs) ++ int16s rfs)); lia).
    rewrite slice_tail by (rewrite zlen_int16s; lia). cbn [mbind result_bind].
    rewrite readInt16_put by (unfold int16_ok; lia). cbn [mbind result_bind].
    replace (Z.to_nat (zlen ps)) with (length ps) by (unfold zlen; lia).
    rewrite skip_parameters_all by done. cbn [mbind result_bind].
    rewrite readInt16_put by (unfold int16_ok; lia). cbn [mbind result_bind].
    rewrite !decide_False by (rewrite ?zlen_int16s; lia).
    replace (Z.to_nat (zlen rfs)) with (length rfs) by (unfold zlen; lia).
    by rewrite read_formats_int16s.
  - rewrite cut_app by done. cbn [mbind result_bind]. rewrite cut_app by done. cbn [mbind result_bind].
    destruct (put_uint16_cases (u16 count)) as (x & y & -> & V). cbn [app readInt16]. rewrite V.
    rewrite u16_signed by (unfold int16_ok; lia). cbn [mbind result_bind].
    pose proof (zlen_nonneg rest). rewrite decide_False by lia.
    unfold slice. rewrite decide_False by lia. done.
Qed.

Lemma bind_formats_read_witness :
  DecodeBindResultFormats
    (bind_body [] (bs "s1") [1] [Some (bs "42"); None] [0; 1; -3]) = Ok [0; 1; -3] /\
  DecodeBindResultFormats ([] ++ NUL :: bs "s1" ++ NUL :: put_uint16 (u16 (-1)) ++ bs "rest") = Err GoPanic.
Proof.
  refine (bind_formats_read [] (bs "s1") [1] [0; 1; -3] [Some (bs "42"); None] (bs "rest") (-1)
    _ _ _ _ _ _ _ _); try by_decide.
  apply List.Forall_forall. intros x Hx. repeat destruct Hx as [<-|Hx]; first [by_decide | exact I | done].
Defined.

Lemma DecodeParse_app name query rest :
  NUL ∉ name -> NUL ∉ query ->
  DecodeParse (name ++ NUL :: query ++ NUL :: rest) = Ok {| pm_Name := name; pm_Query := query |}.
Proof. intros Hn Hq. unfold DecodeParse. rewrite cut_app by done. by rewrite cut_app by done. Qed.
