(* ===== verification/Tokenizer.v ===== *)
(** * The SQL tokenizer and the query classifier

    [tokenizer.go], and [ClassifyQuery], [NormalizeQuery] and [basicNormalize]
    of [postgres_handler.go].  Classification decides which backend may run a
    statement and what its write evicts from the cache.

    Runes up to U+00FF are classified here as package [unicode] classifies
    them.  Its tables above that are parameters of the section ([high_letter],
    [high_digit], and [high_lower] for [unicode.ToLower]): the theorems hold
    for every choice of them. *)
From Stdlib Require Import ZArith Lia Strings.String.
From stdpp Require Import base gmap list numbers option.
From S2P Require Import Prelude Wire Scanner Session Startup.

(** ** UTF-8, as [unicode/utf8] decodes and encodes it *)

Definition RuneError : Z := 65533.

Definition cont (lo hi : Z) (b : byte) : bool := bool_decide (lo <= bval b <= hi).

Definition decode_two (b0 : byte) (r : bytes) : Z * nat :=
  match r with
  | b1 :: _ =>
      if cont 128 191 b1
      then (Z.lor (Z.shiftl (Z.land (bval b0) 31) 6) (Z.land (bval b1) 63), 2%nat)
      else (RuneError, 1%nat)
  | [] => (RuneError, 1%nat)
  end.

Definition decode_three (lo hi : Z) (b0 : byte) (r : bytes) : Z * nat :=
  match r with
  | b1 :: b2 :: _ =>
      if cont lo hi b1 && cont 128 191 b2
      then (Z.lor (Z.lor (Z.shiftl (Z.land (bval b0) 15) 12) (Z.shiftl (Z.land (bval b1) 63) 6))
                  (Z.land (bval b2) 63), 3%nat)
      else (RuneError, 1%nat)
  | _ => (RuneError, 1%nat)
  end.

Definition decode_four (lo hi : Z) (b0 : byte) (r : bytes) : Z * nat :=
  match r with
  | b1 :: b2 :: b3 :: _ =>
      if cont lo hi b1 && cont 128 191 b2 && cont 128 191 b3
      then (Z.lor (Z.lor (Z.lor (Z.shiftl (Z.land (bval b0) 7) 18)
                                (Z.shiftl (Z.land (bval b1) 63) 12))
                         (Z.shiftl (Z.land (bval b2) 63) 6))
                  (Z.land (bval b3) 63), 4%nat)
      else (RuneError, 1%nat)
  | _ => (RuneError, 1%nat)
  end.

(** [utf8.DecodeRuneInString]: the rune and its width; an invalid sequence is
    [RuneError] of width one. *)
Definition DecodeRune (s : bytes) : Z * nat :=
  match s with
  | [] => (RuneError, 0%nat)
  | b0 :: r =>
      let c := bval b0 in
      if decide (c < 128) then (c, 1%nat)
      else if decide (c < 194) then (RuneError, 1%nat)
      else if decide (c < 224) then decode_two b0 r
      else if decide (c = 224) then decode_three 160 191 b0 r
      else if decide (c = 237) then decode_three 128 159 b0 r
      else if decide (c < 240) then decode_three 128 191 b0 r
      else if decide (c = 240) then decode_four 144 191 b0 r
      else if decide (c < 244) then decode_four 128 191 b0 r
      else if decide (c = 244) then decode_four 128 143 b0 r
      else (RuneError, 1%nat)
  end.

(** [utf8.AppendRune]; surrogates and values past U+10FFFF encode [RuneError]. *)
Definition EncodeRune (r : Z) : bytes :=
  if decide (0 <= r <= 127) then [byte_of r]
  else if decide (0 <= r <= 2047) then
    [byte_of (Z.lor 192 (Z.shiftr r 6)); byte_of (Z.lor 128 (Z.land r 63))]
  else if decide (r < 0 \/ r > 1114111 \/ 55296 <= r <= 57343) then map byte_of [239; 191; 189]
  else if decide (r <= 65535) then
    [byte_of (Z.lor 224 (Z.shiftr r 12)); byte_of (Z.lor 128 (Z.land (Z.shiftr r 6) 63));
     byte_of (Z.lor 128 (Z.land r 63))]
  else
    [byte_of (Z.lor 240 (Z.shiftr r 18)); byte_of (Z.lor 128 (Z.land (Z.shiftr r 12) 63));
     byte_of (Z.lor 128 (Z.land (Z.shiftr r 6) 63)); byte_of (Z.lor 128 (Z.land r 63))].

(** The conversion [[]rune(s)]. *)
Fixpoint runes_loop (fuel : nat) (s : bytes) : list Z :=
  match fuel, s with
  | S fuel, _ :: _ => let '(r, size) := DecodeRune s in r :: runes_loop fuel (drop size s)
  | _, _ => []
  end.

Definition runes (s : bytes) : list Z := runes_loop (length s) s.

(** ** Tokens *)

Inductive TokenType :=
| TokenUnknown | TokenKeyword | TokenIdentifier | TokenLiteral | TokenOperator | TokenPunctuation.

#[global] Instance TokenType_eq_dec : EqDecision TokenType.
Proof. solve_decision. Defined.

Record Token := { Type_ : TokenType; Value : bytes }.

#[global] Instance Token_eq_dec : EqDecision Token.
Proof. solve_decision. Defined.

Definition quote : byte := ch "'".

(** [skipQuoted] and [unescapeQuoted], on the text after the opening quote:
    what is left past the closing one, and the value with the escapes
    resolved. *)
Fixpoint skipQuoted (q : bytes) : bytes :=
  match q with
  | [] => []
  | c :: r =>
      if decide (c = quote) then
        match r with
        | d :: r' => if decide (d = quote) then skipQuoted r' else r
        | [] => []
        end
      else skipQuoted r
  end.

Fixpoint unescapeQuoted (q : bytes) : bytes :=
  match q with
  | [] => []
  | c :: r =>
      if decide (c = quote) then
        match r with
        | d :: r' => if decide (d = quote) then quote :: unescapeQuoted r' else []
        | [] => []
        end
      else c :: unescapeQuoted r
  end.

(** [readQuoted]: the value and the rest of the query. *)
Definition readQuoted (q : bytes) : bytes * bytes :=
  match indexByte q quote with
  | None => (q, [])
  | Some i =>
      if decide (head (drop (S i) q) = Some quote) then (unescapeQuoted q, skipQuoted q)
      else (take i q, drop (S i) q)
  end.

Definition maxKeywordLen : nat := 16.

Definition keywordList : list bytes := map bs
  ["SELECT"; "INSERT"; "UPDATE"; "DELETE"; "TRUNCATE"; "MERGE";
   "CREATE"; "DROP"; "ALTER"; "GRANT"; "REVOKE"; "COMMENT";
   "SHOW"; "DESCRIBE"; "DESC"; "EXPLAIN"; "ANALYZE"; "VACUUM";
   "CALL"; "DO"; "COPY"; "REFRESH"; "REINDEX"; "CLUSTER";
   "FROM"; "WHERE"; "JOIN"; "ON"; "INTO"; "TABLE"; "VALUES"; "SET";
   "GROUP"; "BY"; "ORDER"; "LIMIT"; "OFFSET"; "HAVING"; "WITH"; "AS";
   "RETURNING"; "USING"; "ONLY";
   "BEGIN"; "COMMIT"; "ROLLBACK"; "START"; "TRANSACTION"; "SAVEPOINT";
   "FOR"; "SHARE"; "SKIP"; "LOCKED"; "NOWAIT"; "LOCK";
   "UNION"; "INTERSECT"; "EXCEPT"; "OR"; "AND"; "NOT"; "IN"; "EXISTS"]%string.

Definition upper_byte (c : byte) : byte :=
  if decide (bval (ch "a") <= bval c <= bval (ch "z")) then byte_of (bval c - 32) else c.

(** [keywordOf]. *)
Definition keywordOf (word : bytes) : option bytes :=
  if decide (length word = 0 \/ maxKeywordLen < length word)%nat then None
  else let folded := map upper_byte word in
       if decide (folded ∈ keywordList) then Some folded else None.

(** [isKeyword]. *)
Definition isKeyword (s : bytes) : bool := bool_decide (s ∈ keywordList).

(** [unicode.IsSpace]: the Latin-1 spaces and the [White_Space] property. *)
Definition IsSpace (r : Z) : bool :=
  bool_decide (9 <= r <= 13 \/ r = 32 \/ r = 133 \/ r = 160 \/ r = 5760 \/ 8192 <= r <= 8202 \/
               r = 8232 \/ r = 8233 \/ r = 8239 \/ r = 8287 \/ r = 12288).

Section Unicode.
(** The tables of package [unicode] above U+00FF. *)
Context (high_letter high_digit : Z -> bool) (high_lower : Z -> Z).

Definition IsLetter (r : Z) : bool :=
  if decide (r <= 255) then
    bool_decide (65 <= r <= 90 \/ 97 <= r <= 122 \/ r = 170 \/ r = 181 \/ r = 186 \/
                 192 <= r <= 214 \/ 216 <= r <= 246 \/ 248 <= r <= 255)
  else high_letter r.

Definition IsDigit (r : Z) : bool :=
  if decide (r <= 255) then bool_decide (48 <= r <= 57) else high_digit r.

Definition word_rune (r : Z) : bool :=
  IsLetter r || IsDigit r || bool_decide (r = 95) || bool_decide (r = 46).

Definition number_rune (r : Z) : bool := IsDigit r || bool_decide (r = 46).

(** The two scanning loops: the longest prefix whose runes satisfy [p]. *)
Fixpoint span_runes (p : Z -> bool) (fuel : nat) (q : bytes) : bytes * bytes :=
  match fuel, q with
  | S fuel, _ :: _ =>
      let '(r, w) := DecodeRune q in
      if p r then let '(word, rest) := span_runes p fuel (drop w q) in (take w q ++ word, rest)
      else ([], q)
  | _, _ => ([], q)
  end.

(** [Tokenize], the whole sequence. *)
Fixpoint tokenize_loop (fuel : nat) (q : bytes) : list Token :=
  match fuel, q with
  | S fuel, c :: tail =>
      let '(r, size) := DecodeRune q in
      if IsSpace r then tokenize_loop fuel (drop size q)
      else if IsLetter r || bool_decide (r = 95) then
        let '(word, rest) := span_runes word_rune (length q) (drop size q) in
        let word := take size q ++ word in
        match keywordOf word with
        | Some keyword => {| Type_ := TokenKeyword; Value := keyword |} :: tokenize_loop fuel rest
        | None => {| Type_ := TokenIdentifier; Value := word |} :: tokenize_loop fuel rest
        end
      else if decide (r = bval quote) then
        let '(value, rest) := readQuoted tail in
        {| Type_ := TokenLiteral; Value := value |} :: tokenize_loop fuel rest
      else if IsDigit r then
        let '(word, rest) := span_runes number_rune (length q) (drop size q) in
        {| Type_ := TokenLiteral; Value := take size q ++ word |} :: tokenize_loop fuel rest
      else
        {| Type_ := TokenPunctuation; Value := take size q |} :: tokenize_loop fuel (drop size q)
  | _, _ => []
  end.

Definition Tokenize (q : bytes) : list Token := tokenize_loop (length q) q.

(** ** Classification *)

(** [strings.ToLower]: per byte for ASCII, per rune otherwise. *)
Definition lower_rune (r : Z) : Z :=
  if decide (65 <= r <= 90) then r + 32
  else if decide (r <= 191) then r
  else if decide (r <= 222 /\ r <> 215) then r + 32
  else if decide (r <= 255) then r
  else high_lower r.

Definition ToLower (s : bytes) : bytes :=
  if forallb (fun c => bool_decide (bval c < 128)) s then map ascii_lower_byte s
  else concat (map (fun r => EncodeRune (lower_rune r)) (runes s)).

(** [strings.Trim] of the double quote. *)
Fixpoint trim_quotes_left (s : bytes) : bytes :=
  match s with
  | c :: r => if decide (bval c = 34) then trim_quotes_left r else s
  | [] => []
  end.

Definition trim_quotes (s : bytes) : bytes :=
  rev (trim_quotes_left (rev (trim_quotes_left s))).

Record QueryInfo := { ReadOnly : bool; InTransaction : bool; AffectedTables : list bytes }.

Definition read_keywords : list bytes :=
  map bs ["SELECT"; "SHOW"; "DESCRIBE"; "DESC"; "EXPLAIN"; "WITH"]%string.
Definition begin_keywords : list bytes := map bs ["BEGIN"; "START"]%string.
Definition write_keywords : list bytes := map bs
  ["INSERT"; "DELETE"; "TRUNCATE"; "MERGE"; "DROP"; "ALTER"; "GRANT";
   "REVOKE"; "CREATE"; "COMMENT"; "COPY"; "CALL"; "DO"; "VACUUM";
   "REFRESH"; "REINDEX"; "CLUSTER"; "LOCK"]%string.
Definition table_keywords : list bytes :=
  map bs ["FROM"; "JOIN"; "UPDATE"; "INTO"; "TABLE"; "ONLY"]%string.

(** The variables of [ClassifyQuery]'s loop. *)
Record classify_state := {
  cs_write : bool; cs_read : bool; cs_begin : bool; cs_last : bytes; cs_tables : list bytes
}.

(** One turn of the loop. *)
Definition classify_token (s : classify_state) (t : Token) : classify_state :=
  if decide (Type_ t = TokenKeyword) then
    let v := Value t in
    let upd w r b :=
      {| cs_write := w; cs_read := r; cs_begin := b; cs_last := v; cs_tables := cs_tables s |} in
    if decide (v ∈ read_keywords) then upd (cs_write s) true (cs_begin s)
    else if decide (v ∈ begin_keywords) then upd (cs_write s) (cs_read s) true
    else if decide (v = bs "FOR") then upd (cs_write s) (cs_read s) (cs_begin s)
    else if decide (v = bs "UPDATE" \/ v = bs "SHARE") then
      if decide (cs_last s = bs "FOR") then upd true (cs_read s) (cs_begin s)
      else if decide (v = bs "UPDATE") then upd true (cs_read s) (cs_begin s)
      else upd (cs_write s) (cs_read s) (cs_begin s)
    else if decide (v ∈ write_keywords) then upd true (cs_read s) (cs_begin s)
    else upd (cs_write s) (cs_read s) (cs_begin s)
  else if decide (Type_ t <> TokenIdentifier) then s
  else if decide (cs_last s ∈ table_keywords) then
    {| cs_write := cs_write s; cs_read := cs_read s; cs_begin := cs_begin s; cs_last := cs_last s;
       cs_tables := cs_tables s ++ [ToLower (trim_quotes (Value t))] |}
  else s.

(** The de-duplication at the end, which keeps first occurrences. *)
Fixpoint unique_tables (seen : list bytes) (ts : list bytes) : list bytes :=
  match ts with
  | [] => []
  | t :: ts => if decide (t ∈ seen) then unique_tables seen ts
               else t :: unique_tables (t :: seen) ts
  end.

Definition classify_tokens (ts : list Token) : classify_state :=
  foldl classify_token
    {| cs_write := false; cs_read := false; cs_begin := false; cs_last := []; cs_tables := [] |} ts.

(** [ClassifyQuery]. *)
Definition ClassifyQuery (data : bytes) : QueryInfo :=
  let query := extractQueryBytes data in
  if decide (query = []) then {| ReadOnly := false; InTransaction := false; AffectedTables := [] |}
  else
    let s := classify_tokens (Tokenize query) in
    {| ReadOnly := cs_read s && negb (cs_write s); InTransaction := cs_begin s;
       AffectedTables := if decide (1 < length (cs_tables s))%nat
                         then unique_tables [] (cs_tables s) else cs_tables s |}.
End Unicode.

(** ** Normalisation *)

Definition isIdentStart (r : Z) : bool :=
  bool_decide (r = 95 \/ 97 <= r <= 122 \/ 65 <= r <= 90 \/ r > 127).

Definition isIdentPart (r : Z) : bool :=
  isIdentStart r || bool_decide (48 <= r <= 57) || bool_decide (r = 36).

(** Past the closing quote of a literal, [''] being an escaped quote. *)
Fixpoint skip_literal (rs : list Z) : list Z :=
  match rs with
  | [] => []
  | r :: rs' =>
      if decide (r = 39) then
        match rs' with
        | d :: rs'' => if decide (d = 39) then skip_literal rs'' else rs'
        | [] => []
        end
      else skip_literal rs'
  end.

Fixpoint span (p : Z -> bool) (rs : list Z) : list Z * list Z :=
  match rs with
  | r :: rs' => if p r then let '(a, b) := span p rs' in (r :: a, b) else ([], rs)
  | [] => ([], [])
  end.

(** [basicNormalize]'s loop over the runes that are left. *)
Fixpoint normalize_loop (fuel : nat) (rs : list Z) : list Z :=
  match fuel, rs with
  | S fuel, r :: rs' =>
      if decide (r = 39) then 63 :: normalize_loop fuel (skip_literal rs')
      else if decide (r = 34) then
        let '(name, rest) := span (fun r => negb (bool_decide (r = 34))) rs' in
        (34 :: name ++ [34]) ++ normalize_loop fuel (drop 1 rest)
      else if isIdentStart r then
        let '(name, rest) := span isIdentPart rs in name ++ normalize_loop fuel rest
      else if decide (48 <= r <= 57) then
        let '(_, rest) := span (fun r => bool_decide (48 <= r <= 57 \/ r = 46)) rs in
        63 :: normalize_loop fuel rest
      else r :: normalize_loop fuel rs'
  | _, _ => []
  end.

Definition basicNormalize (q : bytes) : bytes :=
  let rs := runes q in concat (map EncodeRune (normalize_loop (length rs) rs)).

(** [NormalizeQuery]. *)
Definition NormalizeQuery (data : bytes) : bytes :=
  let query := extractQueryBytes data in
  if decide (query = []) then [] else basicNormalize query.

(** ** Lemmas: progress of the scanning loops *)

Lemma DecodeRune_width c r : (1 <= snd (DecodeRune (c :: r)) <= length (c :: r))%nat.
Proof.
  unfold DecodeRune, decode_two, decode_three, decode_four. simpl length.
  repeat case_decide; repeat case_match; simpl; lia.
Qed.

Lemma DecodeRune_ascii c r : bval c < 128 -> DecodeRune (c :: r) = (bval c, 1%nat).
Proof. intros H. unfold DecodeRune. by rewrite decide_True. Qed.

Lemma length_span_runes p fuel q : (length (snd (span_runes p fuel q)) <= length q)%nat.
Proof.
  revert q. induction fuel as [|fuel IH]; intros [|c q]; try done.
  cbn [span_runes]. pose proof (DecodeRune_width c q) as Hw.
  destruct (DecodeRune (c :: q)) as [r w]. cbn [snd] in Hw.
  destruct (p r); [|done]. specialize (IH (drop w (c :: q))).
  destruct (span_runes p fuel (drop w (c :: q))) as [word rest]. cbn [snd] in *.
  rewrite length_drop in IH. lia.
Qed.

Lemma length_skipQuoted q : (length (skipQuoted q) <= length q)%nat.
Proof.
  induction q as [q IH] using (induction_ltof1 _ length). unfold ltof in IH.
  destruct q as [|c [|d r]]; cbn [skipQuoted].
  - done.
  - case_decide; simpl; lia.
  - destruct (decide (c = quote)).
    + destruct (decide (d = quote)); simpl; [|lia]. specialize (IH r). simpl in IH. lia.
    + specialize (IH (d :: r)). simpl length in *. cbn [skipQuoted] in IH. lia.
Qed.

Lemma length_readQuoted q : (length (snd (readQuoted q)) <= length q)%nat.
Proof.
  unfold readQuoted. destruct (indexByte q quote); [|simpl; lia].
  case_decide; cbn [snd]; [apply length_skipQuoted|]. rewrite length_drop. lia.
Qed.

Section UnicodeLemmas.
Context (high_letter high_digit : Z -> bool) (high_lower : Z -> Z).
Local Abbreviation tokens := (tokenize_loop high_letter high_digit).
Local Abbreviation classify := (classify_token high_lower).

(** One token at a time: the loop's fuel never runs out. *)
Lemma tokenize_fuel f1 f2 q :
  (length q <= f1)%nat -> (length q <= f2)%nat -> tokens f1 q = tokens f2 q.
Proof.
  revert f2 q. induction f1 as [|f1 IH]; intros f2 [|c q] H1 H2; try (by destruct f2); try (simpl in H1; lia).
  destruct f2 as [|f2]; [simpl in H2; lia|]. cbn [tokenize_loop].
  pose proof (DecodeRune_width c q) as Hw. destruct (DecodeRune (c :: q)) as [r w]. cbn [snd] in Hw.
  simpl in H1, H2. assert (forall rest, (length rest <= length q)%nat -> tokens f1 rest = tokens f2 rest) as Hstep.
  { intros rest Hr. apply IH; lia. }
  assert (length (drop w (c :: q)) <= length q)%nat as Hd by (rewrite length_drop; simpl; lia).
  assert (forall p fuel, length (snd (span_runes p fuel (drop w (c :: q)))) <= length q)%nat as Hs.
  { intros p fuel. etransitivity; [apply length_span_runes|done]. }
  destruct (IsSpace r); [by apply Hstep|].
  destruct (IsLetter high_letter r || _).
  { specialize (Hs (word_rune high_letter high_digit) (length (c :: q))).
    destruct (span_runes _ _ _) as [word rest]. rewrite Hstep by done. done. }
  case_decide.
  { pose proof (length_readQuoted q) as Hq. destruct (readQuoted q) as [v rest].
    by rewrite Hstep. }
  destruct (IsDigit high_digit r).
  { specialize (Hs (number_rune high_digit) (length (c :: q))).
    destruct (span_runes _ _ _) as [word rest]. by rewrite Hstep. }
  by rewrite Hstep.
Qed.

(** *** Classification, keyword by keyword *)

Definition is_kw (t : Token) (ws : list bytes) : Prop := Type_ t = TokenKeyword /\ Value t ∈ ws.

(** The keyword that governs the next token. *)
Definition governing (ts : list Token) : bytes :=
  foldl (fun k t => if decide (Type_ t = TokenKeyword) then Value t else k) [] ts.

(** A keyword that makes the statement a write at its place. *)
Definition write_at (pre : list Token) (t : Token) : Prop :=
  is_kw t (bs "UPDATE" :: write_keywords) \/
  (is_kw t [bs "SHARE"] /\ governing pre = bs "FOR").

Definition writes (ts : list Token) : Prop :=
  exists pre t post, ts = pre ++ t :: post /\ write_at pre t.

Definition reads (ts : list Token) : Prop := exists t, t ∈ ts /\ is_kw t read_keywords.
Definition begins (ts : list Token) : Prop := exists t, t ∈ ts /\ is_kw t begin_keywords.

Definition names_table (ts : list Token) (table : bytes) : Prop :=
  exists pre t post, ts = pre ++ t :: post /\ Type_ t = TokenIdentifier /\
    governing pre ∈ table_keywords /\ table = ToLower high_lower (trim_quotes (Value t)).

Record classified (ts : list Token) (s : classify_state) : Prop := {
  cl_last : cs_last s = governing ts;
  cl_write : cs_write s = true <-> writes ts;
  cl_read : cs_read s = true <-> reads ts;
  cl_begin : cs_begin s = true <-> begins ts;
  cl_tables : forall table, table ∈ cs_tables s <-> names_table ts table
}.

Lemma split_snoc {A} (P : list A -> A -> Prop) ts t :
  (exists pre x post, ts ++ [t] = pre ++ x :: post /\ P pre x) <->
  (exists pre x post, ts = pre ++ x :: post /\ P pre x) \/ P ts t.
Proof.
  split.
  - intros (pre & x & post & E & H). destruct post as [|y post] using rev_ind.
    + apply app_inj_tail in E as [-> ->]. by right.
    + left. clear IHpost. exists pre, x, post. split; [|done].
      rewrite app_comm_cons, app_assoc in E. by apply app_inj_tail in E as [-> _].
  - intros [(pre & x & post & -> & H)|H].
    + exists pre, x, (post ++ [t]). by rewrite <- app_assoc.
    + exists ts, t, []. done.
Qed.

Lemma writes_snoc ts t : writes (ts ++ [t]) <-> writes ts \/ write_at ts t.
Proof. apply split_snoc. Qed.

Lemma names_snoc ts t table :
  names_table (ts ++ [t]) table <->
  names_table ts table \/
  (Type_ t = TokenIdentifier /\ governing ts ∈ table_keywords /\
   table = ToLower high_lower (trim_quotes (Value t))).
Proof.
  apply (split_snoc (fun pre t => Type_ t = TokenIdentifier /\
    governing pre ∈ table_keywords /\ table = ToLower high_lower (trim_quotes (Value t)))).
Qed.

Lemma in_snoc (ts : list Token) t P :
  (exists x, x ∈ ts ++ [t] /\ P x) <-> (exists x, x ∈ ts /\ P x) \/ P t.
Proof. set_solver. Qed.

Lemma governing_snoc ts t :
  governing (ts ++ [t]) = if decide (Type_ t = TokenKeyword) then Value t else governing ts.
Proof. unfold governing. by rewrite foldl_app. Qed.

(** The keyword groups the switch tells apart do not overlap. *)
Lemma keyword_groups :
  Forall (fun v => v ∉ begin_keywords /\ v ∉ bs "SHARE" :: bs "UPDATE" :: write_keywords) read_keywords /\
  Forall (fun v => v ∉ bs "SHARE" :: bs "UPDATE" :: write_keywords) begin_keywords /\
  bs "FOR" ∉ bs "SHARE" :: bs "UPDATE" :: write_keywords /\ bs "SHARE" ∉ bs "UPDATE" :: write_keywords.
Proof. by_decide. Qed.

Lemma classify_keyword s t :
  Type_ t = TokenKeyword ->
  (cs_write (classify s t) = true <->
   cs_write s = true \/ is_kw t (bs "UPDATE" :: write_keywords) \/
   (is_kw t [bs "SHARE"] /\ cs_last s = bs "FOR")) /\
  (cs_read (classify s t) = true <-> cs_read s = true \/ is_kw t read_keywords) /\
  (cs_begin (classify s t) = true <-> cs_begin s = true \/ is_kw t begin_keywords) /\
  cs_last (classify s t) = Value t /\ cs_tables (classify s t) = cs_tables s.
Proof.
  intros Ht. destruct keyword_groups as (Hr & Hb & Hf & Hs).
  rewrite List.Forall_forall in Hr, Hb. unfold is_kw, classify_token. rewrite decide_True by done.
  generalize (Value t) as v. intros v.
  specialize (Hr v). specialize (Hb v). rewrite <- list_elem_of_In in Hr, Hb.
  rewrite list_elem_of_singleton.
  revert Hr Hb Hf Hs. rewrite !not_elem_of_cons. rewrite elem_of_cons.
  generalize read_keywords begin_keywords write_keywords (bs "SHARE") (bs "UPDATE") (bs "FOR").
  intros R B W SH UP FO Hr Hb Hf Hs.
  destruct (decide (v ∈ R)); [|destruct (decide (v ∈ B)); [|destruct (decide (v = FO));
    [subst v|destruct (decide (v = UP \/ v = SH)) as [[->| ->]|];
      [destruct (decide (cs_last s = FO)); [|rewrite decide_True by done]|
       destruct (decide (cs_last s = FO)); [|rewrite decide_False by tauto]|
       destruct (decide (v ∈ W))]]]];
    cbn [cs_write cs_read cs_begin cs_last cs_tables]; split_and!; try tauto.
  all: intuition congruence.
Qed.

Lemma classify_other s t :
  Type_ t <> TokenKeyword ->
  cs_write (classify s t) = cs_write s /\ cs_read (classify s t) = cs_read s /\
  cs_begin (classify s t) = cs_begin s /\ cs_last (classify s t) = cs_last s /\
  (forall table, table ∈ cs_tables (classify s t) <->
     table ∈ cs_tables s \/ (Type_ t = TokenIdentifier /\ cs_last s ∈ table_keywords /\
       table = ToLower high_lower (trim_quotes (Value t)))).
Proof.
  intros Ht. unfold classify_token. rewrite decide_False by done.
  repeat case_decide; cbn [cs_write cs_read cs_begin cs_last cs_tables];
    split_and!; try done; intros; rewrite ?elem_of_app, ?list_elem_of_singleton; naive_solver.
Qed.

Lemma classify_tokens_spec ts : classified ts (classify_tokens high_lower ts).
Proof.
  unfold classify_tokens. induction ts as [|t ts IH] using rev_ind.
  { split; simpl; try done; unfold writes, reads, begins, names_table; split; try done.
    - intros ([|] & ? & ? & ? & _); done.
    - intros (? & []%elem_of_nil & _).
    - intros (? & []%elem_of_nil & _).
    - intros []%elem_of_nil.
    - intros ([|] & ? & ? & ? & _); done. }
  rewrite foldl_app. cbn [foldl].
  set (s := foldl _ _ ts) in *. clearbody s. destruct IH as [El Ew Er Eb Et].
  destruct (decide (Type_ t = TokenKeyword)) as [Ht|Ht].
  - destruct (classify_keyword s t Ht) as (Hw & Hr & Hb & Hl & Htb). split.
    + by rewrite Hl, governing_snoc, decide_True.
    + rewrite Hw, writes_snoc, Ew, El. done.
    + unfold reads. by rewrite Hr, in_snoc, Er.
    + unfold begins. by rewrite Hb, in_snoc, Eb.
    + intros table. rewrite Htb, names_snoc, Et, Ht. naive_solver.
  - destruct (classify_other s t Ht) as (Hw & Hr & Hb & Hl & Htb). split.
    + by rewrite Hl, governing_snoc, decide_False.
    + rewrite Hw, writes_snoc, Ew. unfold write_at, is_kw. naive_solver.
    + unfold reads. rewrite Hr, in_snoc, Er. unfold reads, is_kw. naive_solver.
    + unfold begins. rewrite Hb, in_snoc, Eb. unfold begins, is_kw. naive_solver.
    + intros table. by rewrite Htb, names_snoc, Et, El.
Qed.

Lemma unique_tables_spec ts : forall seen,
  NoDup (unique_tables seen ts) /\
  forall t, t ∈ unique_tables seen ts <-> t ∈ ts /\ t ∉ seen.
Proof.
  induction ts as [|t ts IH]; intros seen; cbn [unique_tables].
  { split; [constructor|]. set_solver. }
  destruct (decide (t ∈ seen)) as [Hs|Hs].
  - destruct (IH seen) as [Hn He]. split; [done|]. set_solver.
  - destruct (IH (t :: seen)) as [Hn He]. split.
    + constructor; [|done]. rewrite He. set_solver.
    + intros x. rewrite elem_of_cons, He. destruct (decide (x = t)); set_solver.
Qed.

Lemma ClassifyQuery_tables ts :
  let t := if decide (1 < length ts)%nat then unique_tables [] ts else ts in
  NoDup t /\ forall x, x ∈ t <-> x ∈ ts.
Proof.
  cbn zeta. case_decide.
  - destruct (unique_tables_spec ts []) as [Hn He]. split; [done|]. set_solver.
  - split; [|done]. destruct ts as [|a [|b ts]]; simpl in *; try lia; repeat constructor. set_solver.
Qed.
End UnicodeLemmas.

(** ** ASCII case *)

Abbreviation lower := (map ascii_lower_byte).
Definition ascii (q : bytes) : Prop := Forall (fun c => bval c < 128) q.

Lemma ascii_lower_ascii c : bval c < 128 -> bval (ascii_lower_byte c) < 128.
Proof. destruct c; vm_compute; congruence. Qed.

Lemma ascii_lower_quote c : bval c < 128 -> ascii_lower_byte c = quote <-> c = quote.
Proof. destruct c; vm_compute; split; congruence. Qed.

Lemma upper_lower c : upper_byte (ascii_lower_byte c) = upper_byte c.
Proof. destruct c; reflexivity. Qed.

Lemma ascii_lower_idem c : ascii_lower_byte (ascii_lower_byte c) = ascii_lower_byte c.
Proof. destruct c; reflexivity. Qed.

Lemma ascii_map_lower q : ascii q -> ascii (lower q).
Proof. intros H. apply Forall_map. eapply Forall_impl; [|exact H]. apply ascii_lower_ascii. Qed.

Lemma ascii_drop n q : ascii q -> ascii (drop n q).
Proof. apply Forall_drop. Qed.

Lemma keywordOf_lower w : keywordOf (lower w) = keywordOf w.
Proof.
  unfold keywordOf. rewrite length_map, map_map.
  by erewrite map_ext by (intros; apply upper_lower).
Qed.

Section Case.
Context (high_letter high_digit : Z -> bool) (high_lower : Z -> Z).

Lemma space_lower c : bval c < 128 -> IsSpace (bval (ascii_lower_byte c)) = IsSpace (bval c).
Proof. destruct c; vm_compute; congruence. Qed.

Lemma letter_lower c :
  bval c < 128 -> IsLetter high_letter (bval (ascii_lower_byte c)) = IsLetter high_letter (bval c).
Proof. destruct c; vm_compute; congruence. Qed.

Lemma digit_lower c :
  bval c < 128 -> IsDigit high_digit (bval (ascii_lower_byte c)) = IsDigit high_digit (bval c).
Proof. destruct c; vm_compute; congruence. Qed.

Lemma mark_lower c x :
  bval c < 128 -> x = 95 \/ x = 46 \/ x = bval quote -> bval (ascii_lower_byte c) = x <-> bval c = x.
Proof. intros Hc [-> | [-> | ->]]; destruct c; vm_compute; split; congruence. Qed.

Definition case_blind (p : Z -> bool) : Prop :=
  forall c, bval c < 128 -> p (bval (ascii_lower_byte c)) = p (bval c).

Lemma word_rune_blind : case_blind (word_rune high_letter high_digit).
Proof.
  intros c Hc. unfold word_rune. rewrite letter_lower, digit_lower by done.
  f_equal; [f_equal|]; apply bool_decide_ext, mark_lower; tauto.
Qed.

Lemma number_rune_blind : case_blind (number_rune high_digit).
Proof.
  intros c Hc. unfold number_rune. rewrite digit_lower by done.
  f_equal; apply bool_decide_ext, mark_lower; tauto.
Qed.

Lemma span_runes_lower p fuel q :
  case_blind p -> ascii q ->
  span_runes p fuel (lower q) = (lower (fst (span_runes p fuel q)), lower (snd (span_runes p fuel q))) /\
  ascii (snd (span_runes p fuel q)) /\ ascii (fst (span_runes p fuel q)).
Proof.
  intros Hp. revert q. induction fuel as [|fuel IH]; intros [|c q] Hq; try done.
  { split_and!; [done|done|constructor]. }
  inversion Hq; subst. cbn [span_runes map].
  rewrite !DecodeRune_ascii by (done || by apply ascii_lower_ascii). rewrite Hp by done.
  destruct (p (bval c)); [|by split_and!; [|done|constructor]].
  cbn [drop take]. rewrite ?drop_0, ?take_0. destruct (IH q) as (E & Ha & Hb); [done|]. rewrite E.
  destruct (span_runes p fuel q) as [w rest]. cbn [fst snd] in *. split_and!; [done|done|].
  by constructor.
Qed.

Lemma indexByte_quote_lower q : ascii q -> indexByte (lower q) quote = indexByte q quote.
Proof.
  induction 1 as [|c q Hc _ IH]; [done|]. cbn [map indexByte]. rewrite IH.
  pose proof (ascii_lower_quote c Hc). destruct (decide (c = quote)); [rewrite decide_True|rewrite decide_False]; tauto.
Qed.

Lemma skipQuoted_lower q : ascii q -> skipQuoted (lower q) = lower (skipQuoted q) /\ ascii (skipQuoted q).
Proof.
  induction q as [q IH] using (induction_ltof1 _ length). unfold ltof in IH. intros Hq.
  destruct q as [|c q]; [done|]. inversion Hq as [|?? Hc Hq']; subst. cbn [map skipQuoted].
  pose proof (ascii_lower_quote c Hc).
  destruct (decide (c = quote)); [rewrite decide_True by tauto|rewrite decide_False by tauto].
  - destruct q as [|d q]; [done|]. inversion Hq' as [|?? Hd Hq'']; subst. cbn [map].
    pose proof (ascii_lower_quote d Hd).
    destruct (decide (d = quote)); [rewrite decide_True by tauto|rewrite decide_False by tauto].
    + apply IH; [simpl; lia|done].
    + by split.
  - apply IH; [simpl; lia|done].
Qed.

Lemma head_lower q : ascii q -> head (lower q) = Some quote <-> head q = Some quote.
Proof.
  intros Hq. destruct q as [|c q]; [done|]. inversion Hq as [|?? Hc]; subst. cbn [map head].
  pose proof (ascii_lower_quote c Hc). split; intros [= E]; f_equal; by apply (ascii_lower_quote c Hc).
Qed.

Lemma readQuoted_lower q :
  ascii q -> snd (readQuoted (lower q)) = lower (snd (readQuoted q)) /\ ascii (snd (readQuoted q)).
Proof.
  intros Hq. unfold readQuoted. rewrite indexByte_quote_lower by done.
  destruct (indexByte q quote) as [i|]; [|by split; [|constructor]]. rewrite skipn_map.
  pose proof (head_lower (drop (S i) q) (ascii_drop _ _ Hq)).
  destruct (decide (head (drop (S i) q) = Some quote)); [rewrite decide_True by tauto|rewrite decide_False by tauto].
  - by apply skipQuoted_lower.
  - split; [done|]. by apply ascii_drop.
Qed.

(** Two tokens that a classification cannot tell apart. *)
Definition same_token (t1 t2 : Token) : Prop :=
  Type_ t1 = Type_ t2 /\
  (Type_ t1 = TokenKeyword -> Value t1 = Value t2) /\
  (Type_ t1 = TokenIdentifier -> ascii (Value t2) /\ Value t1 = lower (Value t2)).

Lemma tokenize_lower fuel q :
  ascii q ->
  Forall2 same_token (tokenize_loop high_letter high_digit fuel (lower q))
                     (tokenize_loop high_letter high_digit fuel q).
Proof.
  revert q. induction fuel as [|fuel IH]; intros [|c q] Hq; try constructor.
  inversion Hq as [|?? Hc Hq']; subst. cbn [tokenize_loop map].
  rewrite !DecodeRune_ascii by (done || by apply ascii_lower_ascii).
  rewrite space_lower, letter_lower, digit_lower by done. cbn [drop take]. rewrite ?drop_0, ?take_0.
  destruct (IsSpace (bval c)); [by apply IH|].
  rewrite (bool_decide_ext _ (bval c = 95)) by (apply mark_lower; tauto).
  destruct (IsLetter high_letter (bval c) || _).
  { change (ascii_lower_byte c :: lower q) with (lower (c :: q)). rewrite length_map.
    destruct (span_runes_lower _ (length (c :: q)) q word_rune_blind Hq') as (E & Ha & Hb). rewrite E.
    destruct (span_runes _ _ q) as [w rest]. cbn [fst snd] in *.
    change ([ascii_lower_byte c] ++ lower w) with (lower ([c] ++ w)). rewrite keywordOf_lower.
    destruct (keywordOf ([c] ++ w)) as [k|]; constructor; try (by apply IH); (split; [done|]); split; try done.
    intros _. split; [|done]. by constructor. }
  pose proof (mark_lower c (bval quote) Hc ltac:(tauto)).
  destruct (decide (bval c = bval quote)); [rewrite decide_True by tauto|rewrite decide_False by tauto].
  { destruct (readQuoted_lower q Hq') as [E Ha].
    destruct (readQuoted (lower q)), (readQuoted q). cbn [snd] in *. subst.
    constructor; [|by apply IH]. by split_and!. }
  destruct (IsDigit high_digit (bval c)).
  { change (ascii_lower_byte c :: lower q) with (lower (c :: q)). rewrite length_map.
    destruct (span_runes_lower _ (length (c :: q)) q number_rune_blind Hq') as (E & Ha & Hb). rewrite E.
    destruct (span_runes _ _ q) as [w rest]. cbn [fst snd] in *.
    constructor; [|by apply IH]. by split_and!. }
  constructor; [|by apply IH]. by split_and!.
Qed.

Lemma trim_quotes_left_lower s : ascii s -> trim_quotes_left (lower s) = lower (trim_quotes_left s).
Proof.
  induction 1 as [|c s Hc _ IH]; [done|]. cbn [map trim_quotes_left].
  assert (bval (ascii_lower_byte c) = 34 <-> bval c = 34) by (destruct c; vm_compute; split; congruence).
  destruct (decide (bval c = 34)); [rewrite decide_True by tauto|rewrite decide_False by tauto]; done.
Qed.

Lemma ascii_trim_left s : ascii s -> ascii (trim_quotes_left s).
Proof. induction 1; [constructor|]. cbn [trim_quotes_left]. case_decide; [done|]. by constructor. Qed.

Lemma ascii_rev s : ascii s -> ascii (rev s).
Proof. unfold ascii. rewrite !List.Forall_forall. intros H x Hx. apply H, in_rev, Hx. Qed.

Lemma ToLower_ascii_bytes s : ascii s -> ToLower high_lower s = lower s.
Proof.
  intros H. unfold ToLower. rewrite (proj2 (forallb_forall _ s)); [done|].
  unfold ascii in H. rewrite List.Forall_forall in H. intros x Hx. by apply bool_decide_true, H.
Qed.

Lemma table_name_lower s :
  ascii s -> ToLower high_lower (trim_quotes (lower s)) = ToLower high_lower (trim_quotes s).
Proof.
  intros H. unfold trim_quotes. rewrite trim_quotes_left_lower by done.
  rewrite <- map_rev, trim_quotes_left_lower by (by apply ascii_rev, ascii_trim_left).
  rewrite <- map_rev. set (t := rev _).
  assert (ascii t) as Ht by (by apply ascii_rev, ascii_trim_left, ascii_rev, ascii_trim_left).
  rewrite !ToLower_ascii_bytes by (done || by apply ascii_map_lower).
  rewrite map_map. apply map_ext. apply ascii_lower_idem.
Qed.

Lemma classify_same s t1 t2 :
  same_token t1 t2 -> classify_token high_lower s t1 = classify_token high_lower s t2.
Proof.
  intros (Et & Ek & Ei). unfold classify_token. rewrite <- Et.
  destruct (decide (Type_ t1 = TokenKeyword)) as [E|E]; [by rewrite Ek|].
  destruct (decide (Type_ t1 <> TokenIdentifier)) as [|E2]; [done|].
  apply dec_stable in E2. destruct (Ei E2) as [Ha ->]. by rewrite table_name_lower.
Qed.

Lemma classify_tokens_same ts1 ts2 :
  Forall2 same_token ts1 ts2 -> classify_tokens high_lower ts1 = classify_tokens high_lower ts2.
Proof.
  unfold classify_tokens. generalize
    {| cs_write := false; cs_read := false; cs_begin := false; cs_last := []; cs_tables := [] |}.
  intros s H. revert s. induction H as [|t1 t2 ts1 ts2 Ht _ IH]; intros s; [done|].
  cbn [foldl]. rewrite (classify_same _ t1 t2) by done. apply IH.
Qed.
End Case.

(** ** One token at a time *)

Section Steps.
Context (high_letter high_digit : Z -> bool).
Local Abbreviation Tok := (Tokenize high_letter high_digit).
Local Abbreviation wordy := (fun c => word_rune high_letter high_digit (bval c)).

Lemma tokenize_loop_enough fuel q :
  (length q <= fuel)%nat -> tokenize_loop high_letter high_digit fuel q = Tok q.
Proof. intros H. by apply tokenize_fuel. Qed.

Lemma Tokenize_space c q : bval c < 128 -> IsSpace (bval c) = true -> Tok (c :: q) = Tok q.
Proof.
  intros Hc Hs. unfold Tokenize at 1. cbn [length tokenize_loop].
  rewrite DecodeRune_ascii, Hs by done. cbn [drop]. by rewrite drop_0.
Qed.

Lemma span_runes_ascii p w q fuel :
  ascii w -> Forall (fun c => p (bval c) = true) w ->
  match q with [] => True | c :: _ => bval c < 128 /\ p (bval c) = false end ->
  (length w < fuel)%nat -> span_runes p fuel (w ++ q) = (w, q).
Proof.
  intros Hw. revert fuel. induction Hw as [|c w Hc _ IH]; intros fuel Hp Hq Hf;
    (destruct fuel as [|fuel]; [simpl in Hf; lia|]).
  - destruct q as [|c q]; [done|]. cbn [app span_runes]. destruct Hq as [Hc Hpc].
    by rewrite DecodeRune_ascii, Hpc by done.
  - inversion Hp as [|?? Hpc Hp']; subst. cbn [app span_runes].
    rewrite DecodeRune_ascii, Hpc by done. cbn [drop take]. rewrite drop_0, take_0.
    rewrite IH; [done|done|done|simpl in Hf; lia].
Qed.

Lemma Tokenize_word c w q :
  bval c < 128 -> ascii w -> IsSpace (bval c) = false ->
  IsLetter high_letter (bval c) || bool_decide (bval c = 95) = true ->
  Forall (fun c => wordy c = true) w ->
  match q with [] => True | d :: _ => bval d < 128 /\ wordy d = false end ->
  Tok (c :: w ++ q) =
  match keywordOf (c :: w) with
  | Some k => {| Type_ := TokenKeyword; Value := k |}
  | None => {| Type_ := TokenIdentifier; Value := c :: w |}
  end :: Tok q.
Proof.
  intros Hc Hw Hs Hl Hp Hq. unfold Tokenize at 1. cbn [length tokenize_loop].
  rewrite DecodeRune_ascii, Hs, Hl by done. cbn [drop take]. rewrite drop_0, take_0.
  rewrite span_runes_ascii by (done || rewrite length_app; lia).
  change ([c] ++ w) with (c :: w).
  rewrite tokenize_loop_enough by (rewrite length_app; lia).
  by destruct (keywordOf (c :: w)).
Qed.

Lemma Tokenize_punct c q :
  bval c < 128 -> IsSpace (bval c) = false -> IsLetter high_letter (bval c) = false ->
  bval c <> 95 -> c <> quote -> IsDigit high_digit (bval c) = false ->
  Tok (c :: q) = {| Type_ := TokenPunctuation; Value := [c] |} :: Tok q.
Proof.
  intros Hc Hs Hl Hu Hq Hd. unfold Tokenize at 1. cbn [length tokenize_loop].
  rewrite DecodeRune_ascii, Hs, Hl, bool_decide_false, Hd by done. cbn [orb].
  rewrite decide_False by (intros E; by apply Hq, bval_inj).
  cbn [drop take]. rewrite drop_0, take_0. by rewrite tokenize_loop_enough.
Qed.

Lemma Tokenize_literal v q :
  quote ∉ v -> head q <> Some quote ->
  Tok (quote :: v ++ quote :: q) = {| Type_ := TokenLiteral; Value := v |} :: Tok q.
Proof.
  intros Hv Hq. unfold Tokenize at 1. cbn [length tokenize_loop].
  rewrite DecodeRune_ascii by done.
  change (IsSpace (bval quote)) with false.
  change (IsLetter high_letter (bval quote) || bool_decide (bval quote = 95)) with false.
  cbn iota. rewrite decide_True by done. unfold readQuoted.
  rewrite indexByte_app by done. rewrite drop_app_ge, Nat.sub_succ_l, Nat.sub_diag by lia.
  cbn [drop]. rewrite drop_0, decide_False by done. rewrite take_app_length.
  rewrite tokenize_loop_enough; [done|]. rewrite length_app. simpl. lia.
Qed.

Lemma slot_byte_quote v : forallb slot_byte v = true -> quote ∉ v.
Proof.
  intros H Hq. rewrite forallb_forall in H. apply list_elem_of_In in Hq. by specialize (H _ Hq).
Qed.

Lemma plugin_byte_quote v : forallb plugin_byte v = true -> quote ∉ v.
Proof.
  intros H Hq. rewrite forallb_forall in H. apply list_elem_of_In in Hq. by specialize (H _ Hq).
Qed.

Lemma ValidateSlotName_quote v : ValidateSlotName v = Ok tt -> quote ∉ v.
Proof.
  unfold ValidateSlotName. repeat case_decide; try done.
  destruct (forallb slot_byte v) eqn:E; [|done]. intros _. by apply slot_byte_quote.
Qed.

Lemma ValidateOutputPlugin_quote v : ValidateOutputPlugin v = Ok tt -> quote ∉ v.
Proof.
  unfold ValidateOutputPlugin. repeat case_decide; try done.
  destruct (forallb plugin_byte v) eqn:E; [|done]. intros _. by apply plugin_byte_quote.
Qed.

(** A call of a function on literals, as the builders write it. *)
Lemma Tokenize_call fn q :
  (fn = bs "pg_create_physical_replication_slot" \/ fn = bs "pg_create_logical_replication_slot") ->
  Tok (bs "SELECT " ++ fn ++ ch "(" :: q) =
  {| Type_ := TokenKeyword; Value := bs "SELECT" |} ::
  {| Type_ := TokenIdentifier; Value := fn |} ::
  {| Type_ := TokenPunctuation; Value := bs "(" |} :: Tok q.
Proof.
  intros Hfn.
  assert (forall w, forallb (fun c => bool_decide (bval c < 128) && wordy c) w = true ->
            ascii w /\ Forall (fun c => wordy c = true) w) as Hb.
  { intros w H. unfold ascii. rewrite !List.Forall_forall, forallb_forall in *.
    split; intros x Hx; specialize (H _ Hx); apply andb_true_iff in H as [? ?]; [by eapply bool_decide_eq_true|done]. }
  change (bs "SELECT ") with (ch "S" :: bs "ELECT" ++ [ch " "]).
  cbn [app]. rewrite <- app_assoc.
  rewrite Tokenize_word; [|done|by apply Hb; vm_compute|done|done|by apply Hb; vm_compute|by vm_compute].
  change (keywordOf (ch "S" :: bs "ELECT")) with (Some (bs "SELECT")). cbn [app].
  rewrite Tokenize_space by done. f_equal.
  destruct Hfn as [-> | ->]; [change (bs "pg_create_physical_replication_slot")
     with (ch "p" :: bs "g_create_physical_replication_slot")|
     change (bs "pg_create_logical_replication_slot")
     with (ch "p" :: bs "g_create_logical_replication_slot")];
  cbn [app]; (rewrite Tokenize_word; [|done|by apply Hb; vm_compute|done|done|by apply Hb; vm_compute|by vm_compute]);
  (rewrite Tokenize_punct; [done..|]); done.
Qed.
End Steps.

(** ** Queries as segments *)

Inductive segment :=
| SLiteral (v : list Z)            (* a quoted constant with this value *)
| SNumber (d : Z) (ds : list Z)    (* a numeric constant *)
| SName (v : list Z)               (* a double-quoted name *)
| SIdent (r : Z) (rs : list Z)     (* a word *)
| SOther (r : Z).

Definition escape (v : list Z) : list Z :=
  concat (map (fun r => if decide (r = 39) then [39; 39] else [r]) v).

Definition render_segment (s : segment) : list Z :=
  match s with
  | SLiteral v => 39 :: escape v ++ [39]
  | SNumber d ds => d :: ds
  | SName v => 34 :: v ++ [34]
  | SIdent r rs => r :: rs
  | SOther r => [r]
  end.

Definition render (ss : list segment) : list Z := concat (map render_segment ss).

Definition normal_segment (s : segment) : list Z :=
  match s with SLiteral _ | SNumber _ _ => [63] | _ => render_segment s end.

Definition digit_or_dot (r : Z) : bool := bool_decide (48 <= r <= 57 \/ r = 46).

(** What may follow a run of runes that satisfy [p]. *)
Definition stops (p : Z -> bool) (next : option Z) : bool :=
  match next with Some r => negb (p r) | None => true end.

(** A segment that the text after it does not extend. *)
Definition segment_ok (s : segment) (next : option Z) : Prop :=
  match s with
  | SLiteral _ => next <> Some 39
  | SNumber d ds => 48 <= d <= 57 /\ Forall (fun r => digit_or_dot r = true) ds /\
                    stops digit_or_dot next = true
  | SName v => 34 ∉ v
  | SIdent r rs => isIdentStart r = true /\ Forall (fun r => isIdentPart r = true) rs /\
                   stops isIdentPart next = true
  | SOther r => r <> 39 /\ r <> 34 /\ isIdentStart r = false /\ ~ (48 <= r <= 57)
  end.

Fixpoint segments_ok (ss : list segment) : Prop :=
  match ss with [] => True | s :: ss => segment_ok s (head (render ss)) /\ segments_ok ss end.

#[global] Instance segment_ok_dec s next : Decision (segment_ok s next).
Proof. destruct s; cbn [segment_ok]; apply _. Defined.

#[global] Instance segments_ok_dec ss : Decision (segments_ok ss).
Proof. induction ss; cbn [segments_ok]; apply _. Defined.

(** The same text but for the values of the constants. *)
Definition same_but_constants (s1 s2 : segment) : Prop :=
  match s1, s2 with
  | SLiteral _, SLiteral _ | SNumber _ _, SNumber _ _
  | SLiteral _, SNumber _ _ | SNumber _ _, SLiteral _ => True
  | _, _ => s1 = s2
  end.

Lemma span_stop p l rest :
  Forall (fun r => p r = true) l -> stops p (head rest) = true ->
  span p (l ++ rest) = (l, rest).
Proof.
  induction 1 as [|r l Hr _ IH]; intros Hh; cbn [app].
  - destruct rest as [|r rest]; [done|]. cbn [span]. apply negb_true_iff in Hh. by rewrite Hh.
  - cbn [span]. by rewrite Hr, IH.
Qed.

Lemma skip_literal_escape v rest :
  head rest <> Some 39 -> skip_literal (escape v ++ 39 :: rest) = rest.
Proof.
  intros Hr. induction v as [|r v IH]; unfold escape in *; cbn [map concat app].
  - cbn [skip_literal]. destruct rest as [|d rest]; [done|]. rewrite decide_True, decide_False by naive_solver. done.
  - destruct (decide (r = 39)) as [->|Hn]; cbn [app skip_literal].
    + by rewrite !decide_True by done.
    + by rewrite decide_False.
Qed.

Lemma normalize_segment fuel s rest :
  segment_ok s (head rest) ->
  normalize_loop (S fuel) (render_segment s ++ rest) = normal_segment s ++ normalize_loop fuel rest.
Proof.
  destruct s as [v|d ds|v|r rs|r]; cbn [segment_ok]; intros H; cbn [render_segment app normalize_loop].
  - rewrite decide_True by done. rewrite <- app_assoc. cbn [app]. by rewrite skip_literal_escape.
  - destruct H as (Hd & Hds & Hn). rewrite !decide_False by lia.
    assert (isIdentStart d = false) as -> by (apply bool_decide_false; lia).
    rewrite decide_True by lia. rewrite app_comm_cons.
    change (fun r => bool_decide (48 <= r <= 57 \/ r = 46)) with digit_or_dot.
    rewrite span_stop; [done| |done]. constructor; [|done]. apply bool_decide_true. lia.
  - rewrite decide_False, decide_True by done. rewrite <- app_assoc. cbn [app].
    rewrite span_stop.
    + cbn [normal_segment render_segment drop]. by rewrite drop_0.
    + apply List.Forall_forall. intros x Hx%list_elem_of_In. apply negb_true_iff, bool_decide_false.
      intros ->. done.
    + done.
  - destruct H as (Hs & Hp & Hn).
    assert (r <> 39 /\ r <> 34) as [H1 H2].
    { apply bool_decide_eq_true in Hs. lia. }
    rewrite !decide_False, Hs by done. rewrite app_comm_cons, span_stop; [done| |done].
    constructor; [|done]. unfold isIdentPart. by rewrite Hs.
  - destruct H as (H1 & H2 & Hs & Hd). by rewrite !decide_False, Hs by done.
Qed.

Lemma length_render_segment s : (1 <= length (render_segment s))%nat.
Proof. destruct s; simpl; lia. Qed.

Lemma normalize_segments ss fuel :
  segments_ok ss -> (length (render ss) <= fuel)%nat ->
  normalize_loop fuel (render ss) = concat (map normal_segment ss).
Proof.
  revert fuel. induction ss as [|s ss IH]; intros fuel Ho Hf; [by destruct fuel|].
  destruct Ho as [Hs Ho]. unfold render in *. cbn [map concat] in *.
  pose proof (length_render_segment s). rewrite length_app in Hf.
  destruct fuel as [|fuel]; [lia|]. rewrite normalize_segment by done.
  by rewrite IH by (done || lia).
Qed.

Lemma basicNormalize_segments q ss :
  runes q = render ss -> segments_ok ss ->
  basicNormalize q = concat (map EncodeRune (concat (map normal_segment ss))).
Proof. intros Hq Ho. unfold basicNormalize. rewrite Hq. by rewrite normalize_segments. Qed.

(** ** Properties *)

Definition query_frame (q : bytes) : bytes := frame (ch "Q", q ++ [NUL]).

Lemma extractQueryBytes_frame q :
  NUL ∉ q -> zlen q + 5 < 2 ^ 32 -> extractQueryBytes (query_frame q) = q.
Proof.
  intros Hq Hl. unfold query_frame, frame. cbn [fst snd]. rewrite <- replay_query_frame.
  by apply extractQueryBytes_replay.
Qed.

(** C27: A statement is sent to a replica only if it reads and nothing in it
    writes: it is classified read-only exactly when some token is a reading
    keyword and no token, wherever it stands, is a writing one (UPDATE, FOR
    SHARE and the DDL and DML verbs); the tables it is recorded under are,
    without repetition, exactly the names its FROM, JOIN, INTO, UPDATE, TABLE
    and ONLY govern.  Tokens are those [Tokenize] makes: for it an apostrophe in
    a quoted name or in a comment opens a literal, and what follows is no token. *)
Theorem classification (high_letter high_digit : Z -> bool) (high_lower : Z -> Z) (data : bytes) :
  extractQueryBytes data <> [] ->
  let ts := Tokenize high_letter high_digit (extractQueryBytes data) in
  let info := ClassifyQuery high_letter high_digit high_lower data in
  (ReadOnly info = true <-> reads ts /\ ~ writes ts) /\
  (InTransaction info = true <-> begins ts) /\
  NoDup (AffectedTables info) /\
  (forall table, table ∈ AffectedTables info <-> names_table high_lower ts table).
Proof.
  intros Hq ts info. unfold info, ClassifyQuery. rewrite decide_False by done. fold ts.
  destruct (classify_tokens_spec high_lower ts) as [_ Hw Hr Hb Ht].
  cbn [ReadOnly InTransaction AffectedTables].
  destruct (ClassifyQuery_tables (cs_tables (classify_tokens high_lower ts))) as [Hn He].
  split_and!; [|done|done|intros table; by rewrite He, Ht].
  rewrite andb_true_iff, negb_true_iff, Hr, <- Hw.
  destruct (cs_write _); naive_solver.
Qed.

Definition no_rune (r : Z) : bool := false.
Definition same_rune (r : Z) : Z := r.

Definition insert_select : bytes :=
  query_frame (bs "INSERT INTO Public.Audit SELECT * FROM orders, orders JOIN lines ON 1 = 1").

Lemma classification_witness :
  let ts := Tokenize no_rune no_rune (extractQueryBytes insert_select) in
  let info := ClassifyQuery no_rune no_rune same_rune insert_select in
  (ReadOnly info = true <-> reads ts /\ ~ writes ts) /\
  (InTransaction info = true <-> begins ts) /\
  NoDup (AffectedTables info) /\
  (forall table, table ∈ AffectedTables info <-> names_table same_rune ts table).
Proof. refine (classification no_rune no_rune same_rune insert_select _). by_decide. Defined.

(** The classification of that statement, evaluated. *)
Example insert_select_info :
  ClassifyQuery no_rune no_rune same_rune insert_select =
  {| ReadOnly := false; InTransaction := false;
     AffectedTables := [bs "public.audit"; bs "orders"; bs "lines"] |}.
Proof. reflexivity. Qed.

(** A quote inside a double-quoted name opens a literal for the tokenizer but
    not for the server, so the DROP behind it is not seen. *)
Example quoted_name_hides_write :
  ReadOnly (ClassifyQuery no_rune no_rune same_rune
    (query_frame (bs "SELECT " ++ [byte_of 34] ++ bs "it's" ++ [byte_of 34] ++ bs "; DROP TABLE users"))) = true.
Proof. reflexivity. Qed.

(** Upper- and lower-case spellings of a statement are classified alike:
    two ASCII statements that differ only in letter case get the same answer,
    table names included. *)
Theorem classification_case_insensitive (high_letter high_digit : Z -> bool) (high_lower : Z -> Z)
    (q1 q2 : bytes) :
  ascii q1 -> ascii q2 -> map ascii_lower_byte q1 = map ascii_lower_byte q2 ->
  NUL ∉ q1 -> NUL ∉ q2 -> zlen q1 + 5 < 2 ^ 32 ->
  ClassifyQuery high_letter high_digit high_lower (query_frame q1) =
  ClassifyQuery high_letter high_digit high_lower (query_frame q2).
Proof.
  intros H1 H2 E N1 N2 L1.
  assert (length q1 = length q2) as El by (rewrite <- (length_map ascii_lower_byte q1), E; apply length_map).
  assert (zlen q2 + 5 < 2 ^ 32) by (unfold zlen in *; lia).
  unfold ClassifyQuery. rewrite !extractQueryBytes_frame by done.
  destruct q1 as [|c1 q1], q2 as [|c2 q2]; try done. rewrite !decide_False by done.
  unfold Tokenize. rewrite El.
  rewrite <- (classify_tokens_same high_lower _ _ (tokenize_lower high_letter high_digit _ _ H1)).
  rewrite <- (classify_tokens_same high_lower _ _ (tokenize_lower high_letter high_digit _ _ H2)).
  by rewrite E.
Qed.

Lemma classification_case_insensitive_witness :
  ClassifyQuery no_rune no_rune same_rune (query_frame (bs "select * from Orders for UPDATE")) =
  ClassifyQuery no_rune no_rune same_rune (query_frame (bs "SELECT * FROM orders FOR update")).
Proof.
  refine (classification_case_insensitive no_rune no_rune same_rune
    (bs "select * from Orders for UPDATE") (bs "SELECT * FROM orders FOR update") _ _ _ _ _ _);
    by_decide.
Defined.

(** A slot or plugin name that passes the whitelist cannot leave its
    literal: the statement built from it is one call on exactly those names,
    nothing of them being read as SQL. *)
Theorem slot_query_safe (high_letter high_digit : Z -> bool) (slot plugin : bytes) :
  ValidateSlotName slot = Ok tt -> ValidateOutputPlugin plugin = Ok tt ->
  let kw v := {| Type_ := TokenKeyword; Value := bs v |} in
  let id v := {| Type_ := TokenIdentifier; Value := bs v |} in
  let p v := {| Type_ := TokenPunctuation; Value := bs v |} in
  let lit v := {| Type_ := TokenLiteral; Value := v |} in
  exists q1 q2,
    physical_slot_query slot = Ok q1 /\ logical_slot_query slot plugin = Ok q2 /\
    Tokenize high_letter high_digit q1 =
      [kw "SELECT"; id "pg_create_physical_replication_slot"; p "("; lit slot; p ")"]%string /\
    Tokenize high_letter high_digit q2 =
      [kw "SELECT"; id "pg_create_logical_replication_slot"; p "("; lit slot; p ","; lit plugin;
       p ")"]%string.
Proof.
  intros Hs Hp. cbn zeta. unfold physical_slot_query, logical_slot_query. rewrite Hs, Hp.
  cbn [mbind result_bind]. eexists _, _. split_and!; [done|done| |].
  - change (bs "SELECT pg_create_physical_replication_slot('")
      with (bs "SELECT " ++ bs "pg_create_physical_replication_slot" ++ [ch "("; quote]).
    rewrite <- !app_assoc. cbn [app]. rewrite Tokenize_call by (by left).
    change (bs "')") with [quote; ch ")"].
    rewrite Tokenize_literal by (done || by apply ValidateSlotName_quote). done.
  - change (bs "SELECT pg_create_logical_replication_slot('")
      with (bs "SELECT " ++ bs "pg_create_logical_replication_slot" ++ [ch "("; quote]).
    rewrite <- !app_assoc. cbn [app]. rewrite Tokenize_call by (by right).
    change (bs "', '" ++ plugin ++ bs "')")
      with (quote :: ch "," :: ch " " :: quote :: plugin ++ quote :: [ch ")"]).
    rewrite Tokenize_literal by (done || by apply ValidateSlotName_quote).
    rewrite Tokenize_punct, Tokenize_space by done.
    rewrite Tokenize_literal by (done || by apply ValidateOutputPlugin_quote). done.
Qed.

Lemma slot_query_safe_witness :
  let kw v := {| Type_ := TokenKeyword; Value := bs v |} in
  let id v := {| Type_ := TokenIdentifier; Value := bs v |} in
  let p v := {| Type_ := TokenPunctuation; Value := bs v |} in
  let lit v := {| Type_ := TokenLiteral; Value := v |} in
  exists q1 q2,
    physical_slot_query (bs "standby_1") = Ok q1 /\
    logical_slot_query (bs "standby_1") (bs "pgoutput") = Ok q2 /\
    Tokenize no_rune no_rune q1 =
      [kw "SELECT"; id "pg_create_physical_replication_slot"; p "("; lit (bs "standby_1"); p ")"]%string /\
    Tokenize no_rune no_rune q2 =
      [kw "SELECT"; id "pg_create_logical_replication_slot"; p "("; lit (bs "standby_1"); p ",";
       lit (bs "pgoutput"); p ")"]%string.
Proof. refine (slot_query_safe no_rune no_rune (bs "standby_1") (bs "pgoutput") _ _); reflexivity. Defined.

(** Normalisation removes the constants and nothing else: a query keeps
    every word, quoted name (their digits included) and mark, each constant
    becomes one question mark, so queries that differ only in their constants
    share one normal form. *)
Theorem normalize_strips_constants (q1 q2 : bytes) (ss1 ss2 : list segment) :
  runes q1 = render ss1 -> runes q2 = render ss2 ->
  segments_ok ss1 -> segments_ok ss2 -> Forall2 same_but_constants ss1 ss2 ->
  basicNormalize q1 = concat (map EncodeRune (concat (map normal_segment ss1))) /\
  basicNormalize q1 = basicNormalize q2.
Proof.
  intros E1 E2 O1 O2 H. rewrite (basicNormalize_segments q1 ss1), (basicNormalize_segments q2 ss2) by done.
  split; [done|]. f_equal. f_equal. f_equal. clear -H.
  induction H as [|s1 s2 ss1 ss2 Hs _ IH]; [done|]. cbn [map]. rewrite IH. f_equal.
  destruct s1, s2; simpl in Hs; try done; by simplify_eq.
Qed.

Definition tenant_segments (value : segment) : list segment :=
  let word s := match map bval (bs s) with r :: rs => SIdent r rs | [] => SOther 32 end in
  [word "select"; SOther 32; word "t1_x"; SOther 32; word "where"; SOther 32; word "a"; SOther 61; value]%string.

Lemma normalize_strips_constants_witness :
  basicNormalize (bs "select t1_x where a='o''k'") =
    concat (map EncodeRune (concat (map normal_segment
      (tenant_segments (SLiteral (map bval (bs "o'k"))))))) /\
  basicNormalize (bs "select t1_x where a='o''k'") = basicNormalize (bs "select t1_x where a=12.5").
Proof.
  refine (normalize_strips_constants (bs "select t1_x where a='o''k'") (bs "select t1_x where a=12.5")
    (tenant_segments (SLiteral (map bval (bs "o'k"))))
    (tenant_segments (SNumber 49 (map bval (bs "2.5")))) _ _ _ _ _).
  - reflexivity.
  - reflexivity.
  - by_decide.
  - by_decide.
  - repeat constructor.
Defined.
