(* ===== verification/Cache.v ===== *)
(** * The result cache

    [cache.go]: the [Manager] with its two maps.  What is served, stored and
    evicted is decided by the middleware, modelled in CacheMiddleware.v.

    An instant is a number of nanoseconds counted from Go's zero [time.Time],
    so [IsZero] is the comparison with 0.  The order in which Go ranges over a
    map is unspecified: every loop over a map takes the order it happened to
    use as an argument, and the theorems hold for all of them. *)
From Stdlib Require Import ZArith Lia Strings.String Sorting.Permutation.
From stdpp Require Import base gmap list numbers option sorting.
From S2P Require Import Prelude Wire Scanner Session Tokenizer.

(** ** The manager *)

Definition DefaultMaxSize : Z := 10000.

Record Item := { it_Value : bytes; it_Expiration : Z; it_StaleUntil : Z; it_Tables : list bytes }.

Record Manager := {
  items : gmap bytes Item;
  tables : gmap bytes (gset bytes);
  maxSize : Z;
  hits : Z; misses : Z; evicted : Z
}.

Definition set_items (m : Manager) (i : gmap bytes Item) : Manager :=
  {| items := i; tables := tables m; maxSize := maxSize m; hits := hits m; misses := misses m;
     evicted := evicted m |}.

Definition set_tables (m : Manager) (t : gmap bytes (gset bytes)) : Manager :=
  {| items := items m; tables := t; maxSize := maxSize m; hits := hits m; misses := misses m;
     evicted := evicted m |}.

Definition count_evicted (m : Manager) : Manager :=
  {| items := items m; tables := tables m; maxSize := maxSize m; hits := hits m;
     misses := misses m; evicted := evicted m + 1 |}.

Definition count_hit (m : Manager) : Manager :=
  {| items := items m; tables := tables m; maxSize := maxSize m; hits := hits m + 1;
     misses := misses m; evicted := evicted m |}.

Definition count_miss (m : Manager) : Manager :=
  {| items := items m; tables := tables m; maxSize := maxSize m; hits := hits m;
     misses := misses m + 1; evicted := evicted m |}.

(** [NewManagerWithSize] and [NewManager]. *)
Definition NewManagerWithSize (max : Z) : Manager :=
  {| items := ∅; tables := ∅; maxSize := if decide (max <= 0) then DefaultMaxSize else max;
     hits := 0; misses := 0; evicted := 0 |}.

Definition NewManager : Manager := NewManagerWithSize DefaultMaxSize.

(** [Get]: the value, whether it is a hit, whether it needs a refresh. *)
Definition Get (m : Manager) (now : Z) (key : bytes) : (bytes * bool * bool) * Manager :=
  match items m !! key with
  | None => (([], false, false), count_miss m)
  | Some item =>
      if decide (it_Expiration item < now) then
        if decide (now < it_StaleUntil item) then ((it_Value item, true, true), count_hit m)
        else (([], false, false), count_miss m)
      else ((it_Value item, true, false), count_hit m)
  end.

(** [unindex]. *)
Fixpoint unindex_loop (key : bytes) (ts : list bytes) (index : gmap bytes (gset bytes))
  : gmap bytes (gset bytes) :=
  match ts with
  | [] => index
  | table :: ts =>
      match index !! table with
      | None => unindex_loop key ts index
      | Some keys =>
          let keys := keys ∖ {[key]} in
          unindex_loop key ts
            (if decide (keys = ∅) then delete table index else <[table := keys]> index)
      end
  end.

Definition unindex (m : Manager) (key : bytes) (ts : list bytes) : Manager :=
  set_tables m (unindex_loop key ts (tables m)).

(** [unindex] followed by [delete(m.items, key)]. *)
Definition drop_item (m : Manager) (key : bytes) (ts : list bytes) : Manager :=
  let m := unindex m key ts in set_items m (delete key (items m)).

(** [evictLocked]'s two loops over the items: the first entry past its stale
    window, then the one closest to expiry. *)
Fixpoint find_expired (its : gmap bytes Item) (now : Z) (order : list bytes) : option (bytes * Item) :=
  match order with
  | [] => None
  | key :: order =>
      match its !! key with
      | Some item => if decide (it_StaleUntil item < now) then Some (key, item)
                     else find_expired its now order
      | None => find_expired its now order
      end
  end.

Fixpoint find_oldest (its : gmap bytes Item) (order : list bytes) (oldestKey : bytes) (oldest : Z)
  : bytes * Z :=
  match order with
  | [] => (oldestKey, oldest)
  | key :: order =>
      match its !! key with
      | Some item =>
          if decide (oldest = 0 \/ it_Expiration item < oldest)
          then find_oldest its order key (it_Expiration item)
          else find_oldest its order oldestKey oldest
      | None => find_oldest its order oldestKey oldest
      end
  end.

(** [evictLocked]. *)
Definition evictLocked (m : Manager) (now : Z) (order1 order2 : list bytes) : Manager :=
  match find_expired (items m) now order1 with
  | Some (key, item) => count_evicted (drop_item m key (it_Tables item))
  | None =>
      let '(oldestKey, _) := find_oldest (items m) order2 [] 0 in
      if decide (oldestKey <> []) then
        let ts := match items m !! oldestKey with Some item => it_Tables item | None => [] end in
        count_evicted (drop_item m oldestKey ts)
      else m
  end.

(** [Set]'s loop over the tables of the new entry. *)
Fixpoint index_loop (key : bytes) (ts : list bytes) (index : gmap bytes (gset bytes))
  : gmap bytes (gset bytes) :=
  match ts with
  | [] => index
  | table :: ts =>
      let keys := default ∅ (index !! table) in
      index_loop key ts (<[table := {[key]} ∪ keys]> index)
  end.

(** [Set]; [order1] and [order2] are the orders of the two loops an eviction
    runs, [now1] and [now2] the two readings of the clock. *)
Definition Set_ (m : Manager) (now1 now2 : Z) (order1 order2 : list bytes)
    (key value : bytes) (ttl : Z) (ts : list bytes) : Manager :=
  let m := match items m !! key with Some old => unindex m key (it_Tables old) | None => m end in
  let m := if decide (maxSize m <= Z.of_nat (size (items m)))
           then evictLocked m now1 order1 order2 else m in
  let m := set_items m
    (<[key := {| it_Value := value; it_Expiration := now2 + ttl;
                 it_StaleUntil := now2 + i64 (ttl * 2); it_Tables := ts |}]> (items m)) in
  set_tables m (index_loop key ts (tables m)).

(** [Invalidate]'s inner loop over one table's keys. *)
Fixpoint drop_keys (m : Manager) (keys : list bytes) : Manager :=
  match keys with
  | [] => m
  | key :: keys =>
      match items m !! key with
      | Some item => drop_keys (drop_item m key (it_Tables item)) keys
      | None => drop_keys m keys
      end
  end.

(** [Invalidate]; [order] is how each table's key set was ranged over.  The
    loop deletes the current key from the set it ranges over, which Go allows
    and which does not hide the other keys. *)
Fixpoint Invalidate (order : gset bytes -> list bytes) (m : Manager) (ts : list bytes) : Manager :=
  match ts with
  | [] => m
  | table :: ts =>
      match tables m !! table with
      | None => Invalidate order m ts
      | Some keys =>
          let m := drop_keys m (order keys) in
          Invalidate order (set_tables m (delete table (tables m))) ts
      end
  end.

(** [Cleanup]. *)
Fixpoint Cleanup (m : Manager) (now : Z) (order : list bytes) : Manager :=
  match order with
  | [] => m
  | key :: order =>
      match items m !! key with
      | Some item =>
          if decide (it_StaleUntil item < now) then Cleanup (drop_item m key (it_Tables item)) now order
          else Cleanup m now order
      | None => Cleanup m now order
      end
  end.

(** [Stats]. *)
Definition Stats (m : Manager) : Z * Z * Z := (hits m, misses m, Z.of_nat (size (items m))).

(** ** The invariant: the table index is exact *)

Definition indexed (m : Manager) : Prop :=
  forall table keys, tables m !! table = Some keys ->
    keys <> ∅ /\
    forall key, key ∈ keys <-> exists item, items m !! key = Some item /\ table ∈ it_Tables item.

Definition covered (m : Manager) : Prop :=
  forall key item table, items m !! key = Some item -> table ∈ it_Tables item ->
    exists keys, tables m !! table = Some keys /\ key ∈ keys.

(** Read as one statement: who is filed under a table. *)
Definition filed (index : gmap bytes (gset bytes)) (table key : bytes) : Prop :=
  exists keys, index !! table = Some keys /\ key ∈ keys.

Definition no_empty (index : gmap bytes (gset bytes)) : Prop :=
  forall table, index !! table <> Some ∅.

Definition index_exact (m : Manager) : Prop :=
  no_empty (tables m) /\
  forall table key, filed (tables m) table key <->
    exists item, items m !! key = Some item /\ table ∈ it_Tables item.

Lemma index_exact_iff m : index_exact m <-> indexed m /\ covered m.
Proof.
  unfold index_exact, indexed, covered, filed, no_empty. split.
  - intros [Hn Hf]. split; [|naive_solver].
    intros table keys Hk. split; [by intros ->; apply (Hn table)|]. intros key.
    specialize (Hf table key). rewrite <- Hf. rewrite Hk. naive_solver.
  - intros [Hi Hc]. split.
    + intros table Ht. by apply Hi in Ht as [? _].
    + intros table key. split; [|naive_solver].
      intros (keys & Hk & He). by apply (Hi _ _ Hk).
Qed.

(** *** What the two index loops do *)

Lemma filed_insert index t K table k :
  filed (<[t := K]> index) table k <-> (table = t /\ k ∈ K) \/ (table <> t /\ filed index table k).
Proof. unfold filed. setoid_rewrite lookup_insert_Some. naive_solver. Qed.

Lemma filed_delete index t table k :
  filed (delete t index) table k <-> table <> t /\ filed index table k.
Proof. unfold filed. setoid_rewrite lookup_delete_Some. naive_solver. Qed.

Lemma filed_at index t keys k : index !! t = Some keys -> filed index t k <-> k ∈ keys.
Proof. intros E. unfold filed. rewrite E. naive_solver. Qed.

Lemma filed_none index t k : index !! t = None -> ~ filed index t k.
Proof. intros E (? & ? & _). congruence. Qed.

Lemma no_empty_insert index t K : K <> ∅ -> no_empty index -> no_empty (<[t := K]> index).
Proof. intros HK Hn table. rewrite lookup_insert_Some. intros [[_ ?]|[_ ?]]; [done|by eapply Hn]. Qed.

Lemma no_empty_delete index t : no_empty index -> no_empty (delete t index).
Proof. intros Hn table. rewrite lookup_delete_Some. intros [_ ?]. by eapply Hn. Qed.

(** One turn of [unindex]. *)
Lemma unindex_one index t keys key :
  index !! t = Some keys -> no_empty index ->
  let keys' := keys ∖ {[key]} in
  let index' := if decide (keys' = ∅) then delete t index else <[t := keys']> index in
  no_empty index' /\
  forall table k, filed index' table k <-> filed index table k /\ ~ (k = key /\ table = t).
Proof.
  intros Et Hn keys' index'. pose proof (fun k => filed_at index t keys k Et) as Hat.
  assert (forall k, k ∈ keys' <-> k ∈ keys /\ k <> key) as Hk' by set_solver.
  unfold index'. case_decide as He; (split; [auto using no_empty_delete, no_empty_insert|]); intros table k.
  - rewrite filed_delete. destruct (decide (table = t)) as [->|]; [|tauto].
    specialize (Hk' k). rewrite He in Hk'. rewrite Hat. set_solver.
  - rewrite filed_insert, Hk'. destruct (decide (table = t)) as [->|]; [|tauto].
    rewrite Hat. tauto.
Qed.

Lemma unindex_loop_spec key ts : forall index,
  no_empty index ->
  no_empty (unindex_loop key ts index) /\
  forall table k, filed (unindex_loop key ts index) table k <->
    filed index table k /\ ~ (k = key /\ table ∈ ts).
Proof.
  induction ts as [|t ts IH]; intros index Hn; cbn [unindex_loop].
  { split; [done|]. intros. rewrite elem_of_nil. tauto. }
  destruct (index !! t) as [keys|] eqn:Et.
  - destruct (unindex_one index t keys key Et Hn) as [Hn' Hf'].
    destruct (IH _ Hn') as [Hn2 Hf2]. split; [done|].
    intros table k. rewrite Hf2, Hf', elem_of_cons. tauto.
  - destruct (IH index Hn) as [Hn2 Hf2]. split; [done|]. intros table k. rewrite Hf2, elem_of_cons.
    pose proof (filed_none index t k Et). split; [|tauto]. intros [Hf Hne]. split; [done|].
    intros [-> [->|?]]; tauto.
Qed.

Lemma index_loop_spec key ts : forall index,
  no_empty index ->
  no_empty (index_loop key ts index) /\
  forall table k, filed (index_loop key ts index) table k <->
    filed index table k \/ (k = key /\ table ∈ ts).
Proof.
  induction ts as [|t ts IH]; intros index Hn; cbn [index_loop]; cbv zeta.
  { split; [done|]. intros. rewrite elem_of_nil. tauto. }
  set (keys := default ∅ (index !! t)).
  destruct (IH (<[t := {[key]} ∪ keys]> index)) as [Hn2 Hf2].
  { apply no_empty_insert; [set_solver|done]. }
  split; [done|]. intros table k. rewrite Hf2, elem_of_cons, filed_insert, elem_of_union, elem_of_singleton.
  enough (k ∈ keys <-> filed index t k) as -> by (destruct (decide (table = t)) as [->|]; tauto).
  unfold keys. destruct (index !! t) eqn:Et; [by rewrite filed_at|].
  pose proof (filed_none index t k Et). set_solver.
Qed.

(** *** Every operation keeps the index exact *)

Lemma drop_item_spec m key item :
  index_exact m -> items m !! key = Some item ->
  index_exact (drop_item m key (it_Tables item)) /\
  items (drop_item m key (it_Tables item)) = delete key (items m) /\
  maxSize (drop_item m key (it_Tables item)) = maxSize m.
Proof.
  intros [Hn Hf] Hi. unfold drop_item, unindex, index_exact. cbn [items tables set_items set_tables maxSize].
  destruct (unindex_loop_spec key (it_Tables item) (tables m) Hn) as [Hn' Hf'].
  split_and!; try done. intros table k. rewrite Hf', Hf. setoid_rewrite lookup_delete_Some.
  destruct (decide (k = key)) as [->|]; [|naive_solver]. rewrite Hi. naive_solver.
Qed.

Lemma count_evicted_exact m : index_exact m -> index_exact (count_evicted m).
Proof. done. Qed.

(** An entry that is about to be replaced is filed nowhere. *)
Definition exact_but (m : Manager) (key : bytes) : Prop :=
  no_empty (tables m) /\
  forall table k, filed (tables m) table k <->
    k <> key /\ exists item, items m !! k = Some item /\ table ∈ it_Tables item.

Lemma exact_but_absent m key : index_exact m -> items m !! key = None -> exact_but m key.
Proof.
  intros [Hn Hf] Hi. split; [done|]. intros table k. rewrite Hf.
  split; [|tauto]. intros (item & E & ?). split; [|eauto]. congruence.
Qed.

Lemma exact_but_unindex m key item :
  index_exact m -> items m !! key = Some item -> exact_but (unindex m key (it_Tables item)) key.
Proof.
  intros [Hn Hf] Hi. destruct (unindex_loop_spec key (it_Tables item) (tables m) Hn) as [Hn' Hf'].
  split; [done|]. intros table k. unfold unindex. cbn [tables items set_tables]. rewrite Hf', Hf.
  destruct (decide (k = key)) as [->|]; [|naive_solver]. rewrite Hi. naive_solver.
Qed.

Lemma drop_item_exact_but m key k' item :
  exact_but m key -> items m !! k' = Some item ->
  exact_but (drop_item m k' (it_Tables item)) key.
Proof.
  intros [Hn Hf] Hi. unfold drop_item, unindex, exact_but. cbn [items tables set_items set_tables].
  destruct (unindex_loop_spec k' (it_Tables item) (tables m) Hn) as [Hn' Hf'].
  split; [done|]. intros table k. rewrite Hf', Hf. setoid_rewrite lookup_delete_Some.
  destruct (decide (k = k')) as [->|]; [|naive_solver]. rewrite Hi. naive_solver.
Qed.

Lemma find_expired_Some its now order key item :
  find_expired its now order = Some (key, item) -> its !! key = Some item /\ it_StaleUntil item < now.
Proof.
  induction order as [|k order IH]; cbn [find_expired]; [done|].
  destruct (its !! k) eqn:E; [|done]. case_decide; [|done]. intros [= <- <-]. done.
Qed.

(** The search for the entry closest to expiry, once it holds a candidate with
    a non-zero expiry. *)
Lemma find_oldest_spec its order : forall k0 t0,
  (forall k item, its !! k = Some item -> it_Expiration item <> 0) ->
  (t0 = 0 \/ exists item, its !! k0 = Some item /\ it_Expiration item = t0) ->
  let '(k, t) := find_oldest its order k0 t0 in
  (t0 = 0 /\ t = 0 /\ k = k0 /\ Forall (fun x => its !! x = None) order) \/
  (exists item, its !! k = Some item /\ it_Expiration item = t /\
    (t0 <> 0 -> t <= t0) /\
    forall x item', x ∈ order -> its !! x = Some item' -> t <= it_Expiration item').
Proof.
  induction order as [|x order IH]; intros k0 t0 Hz H0; cbn [find_oldest].
  { destruct H0 as [->|(item & E & <-)]; [left; by split_and!|].
    right. exists item. split_and!; try done. set_solver. }
  destruct (its !! x) as [item|] eqn:Ex.
  - pose proof (Hz _ _ Ex) as Hne.
    case_decide as Hd.
    + specialize (IH x (it_Expiration item) Hz). destruct (find_oldest _ _ _ _) as [k t].
      destruct IH as [(? & _)|(it & Ek & Et & Hle & Hall)]; [right; eauto|done|].
      right. exists it. specialize (Hle Hne). split_and!; try done.
      * intros. destruct Hd as [->|?]; [done|]. lia.
      * intros y item' [->|Hy]%elem_of_cons Ey; [|eauto]. by simplify_eq.
    + specialize (IH k0 t0 Hz H0). destruct (find_oldest _ _ _ _) as [k t].
      destruct IH as [(-> & _)|(it & Ek & Et & Hle & Hall)]; [exfalso; apply Hd; by left|].
      right. exists it. split_and!; try done.
      intros y item' [->|Hy]%elem_of_cons Ey; [|eauto].
      assert (item' = item) as -> by congruence.
      assert (t0 <> 0) by (intros ->; apply Hd; by left). specialize (Hle ltac:(done)).
      assert (~ it_Expiration item < t0) by tauto. lia.
  - specialize (IH k0 t0 Hz H0). destruct (find_oldest _ _ _ _) as [k t].
    destruct IH as [(-> & -> & -> & Hall)|(it & Ek & Et & Hle & Hall)]; [left; by split_and!; try constructor|].
    right. exists it. split_and!; try done. intros y item' [->|Hy]%elem_of_cons Ey; [|eauto]. congruence.
Qed.

Lemma find_oldest_some its order : forall k0 t0,
  is_Some (its !! k0) -> is_Some (its !! fst (find_oldest its order k0 t0)).
Proof.
  induction order as [|x order IH]; intros k0 t0 H0; cbn [find_oldest]; [done|].
  destruct (its !! x) eqn:Ex; [|by apply IH]. case_decide; apply IH; eauto.
Qed.

Lemma find_oldest_found its order :
  (exists x, x ∈ order /\ is_Some (its !! x)) ->
  is_Some (its !! fst (find_oldest its order [] 0)).
Proof.
  induction order as [|x order IH]; intros (y & Hy & Hs); [set_solver|]. cbn [find_oldest].
  destruct (its !! x) as [item|] eqn:Ex.
  - rewrite decide_True by (by left). apply find_oldest_some. eauto.
  - apply IH. exists y. split; [|done]. apply elem_of_cons in Hy as [->|?]; [|done].
    rewrite Ex in Hs. by destruct Hs.
Qed.

(** An iteration order lists the keys of the map. *)
Definition ranges_over (order : list bytes) (its : gmap bytes Item) : Prop :=
  forall key, key ∈ order <-> is_Some (its !! key).

Lemma evictLocked_cases m now o1 o2 :
  (exists key item, items m !! key = Some item /\
     evictLocked m now o1 o2 = count_evicted (drop_item m key (it_Tables item))) \/
  (evictLocked m now o1 o2 = m /\
   (ranges_over o2 (items m) -> items m = ∅ \/ is_Some (items m !! []))).
Proof.
  unfold evictLocked. destruct (find_expired _ _ _) as [[key item]|] eqn:Ef.
  { apply find_expired_Some in Ef as [? _]. left; eauto. }
  destruct (find_oldest _ _ _ _) as [k t] eqn:Eo. case_decide as Hk.
  - assert (items m !! k = None \/ is_Some (items m !! k)) as [Hn|[item Hi]] by (destruct (items m !! k); eauto).
    + exfalso. assert (forall k0 t0, k0 = [] \/ is_Some (items m !! k0) ->
        fst (find_oldest (items m) o2 k0 t0) = [] \/
        is_Some (items m !! fst (find_oldest (items m) o2 k0 t0))) as H.
      { clear. induction o2 as [|x o2 IH]; intros k0 t0 H0; cbn [find_oldest]; [done|].
        destruct (items m !! x) eqn:E; [|by apply IH]. case_decide; apply IH; eauto. }
      specialize (H [] 0 (or_introl eq_refl)). rewrite Eo in H. simpl in H. rewrite Hn in H.
      destruct H as [?|[? ?]]; done.
    + left. exists k, item. by rewrite Hi.
  - right. split; [done|]. intros Hr. subst k.
    destruct (decide (items m = ∅)) as [|Hne]; [by left|right].
    apply map_choose in Hne as (x & item & Hx).
    pose proof (find_oldest_found (items m) o2) as H. rewrite Eo in H. apply H.
    exists x. split; [|eauto]. apply Hr. eauto.
Qed.

(** The eviction of one entry keeps the rest of [Set]'s precondition. *)
Lemma evictLocked_spec m now o1 o2 key :
  exact_but m key ->
  exact_but (evictLocked m now o1 o2) key /\
  maxSize (evictLocked m now o1 o2) = maxSize m /\
  (forall k item, items (evictLocked m now o1 o2) !! k = Some item -> items m !! k = Some item) /\
  (ranges_over o2 (items m) -> items m !! [] = None ->
   items m <> ∅ -> S (size (items (evictLocked m now o1 o2))) = size (items m)).
Proof.
  intros He. destruct (evictLocked_cases m now o1 o2) as [(k & item & Hi & ->)|[-> Hr]].
  - split_and!; [by apply (drop_item_exact_but m key k item)|done| |].
    + intros k' item'. cbn. rewrite lookup_delete_Some. naive_solver.
    + intros _ _ _. cbn. rewrite map_size_delete, Hi. unfold id.
      assert (size (items m) <> 0%nat); [|lia].
      rewrite map_size_non_empty_iff. intros E. rewrite E, lookup_empty in Hi. done.
  - split_and!; try done. intros Ho Hn Hne. destruct (Hr Ho) as [?|[? ?]]; [done|congruence].
Qed.

Lemma insert_exact m key item :
  exact_but m key ->
  index_exact (set_tables (set_items m (<[key := item]> (items m)))
                 (index_loop key (it_Tables item) (tables m))).
Proof.
  intros [Hn Hf]. destruct (index_loop_spec key (it_Tables item) (tables m) Hn) as [Hn' Hf'].
  split; [done|]. intros table k. cbn [items tables set_items set_tables]. rewrite Hf', Hf.
  setoid_rewrite lookup_insert_Some. destruct (decide (k = key)) as [->|]; naive_solver.
Qed.

Definition bounded (m : Manager) : Prop :=
  Z.of_nat (size (items m)) <= maxSize m /\ 0 < maxSize m /\ items m !! [] = None.

(** [Set], in the steps of the code. *)
Definition before_evict (m : Manager) (key : bytes) : Manager :=
  match items m !! key with Some old => unindex m key (it_Tables old) | None => m end.

Definition after_evict (m : Manager) (now : Z) (o1 o2 : list bytes) (key : bytes) : Manager :=
  let m := before_evict m key in
  if decide (maxSize m <= Z.of_nat (size (items m))) then evictLocked m now o1 o2 else m.

Definition new_item (now : Z) (value : bytes) (ttl : Z) (ts : list bytes) : Item :=
  {| it_Value := value; it_Expiration := now + ttl; it_StaleUntil := now + i64 (ttl * 2);
     it_Tables := ts |}.

Lemma Set_unfold m n1 n2 o1 o2 key value ttl ts :
  Set_ m n1 n2 o1 o2 key value ttl ts =
  let m1 := after_evict m n1 o1 o2 key in
  set_tables (set_items m1 (<[key := new_item n2 value ttl ts]> (items m1)))
             (index_loop key ts (tables m1)).
Proof. done. Qed.

Lemma before_evict_items m key : items (before_evict m key) = items m /\ maxSize (before_evict m key) = maxSize m.
Proof. unfold before_evict. by destruct (items m !! key). Qed.

Lemma after_evict_spec m now o1 o2 key :
  index_exact m ->
  exact_but (after_evict m now o1 o2 key) key /\
  maxSize (after_evict m now o1 o2 key) = maxSize m /\
  (forall k item, items (after_evict m now o1 o2 key) !! k = Some item -> items m !! k = Some item) /\
  (bounded m -> ranges_over o2 (items m) ->
   Z.of_nat (size (items (after_evict m now o1 o2 key))) < maxSize m).
Proof.
  intros He. destruct (before_evict_items m key) as [Ei Em].
  assert (exact_but (before_evict m key) key) as Hb.
  { unfold before_evict. destruct (items m !! key) eqn:E; [by apply exact_but_unindex|by apply exact_but_absent]. }
  unfold after_evict. cbv zeta. rewrite Ei, Em. case_decide as Hd.
  - destruct (evictLocked_spec (before_evict m key) now o1 o2 key Hb) as (H1 & H2 & H3 & H4).
    rewrite Ei, Em in *. split_and!; try done.
    intros (Hs & Hp & Hnil) Ho. assert (items m <> ∅) as Hne.
    { intros E. rewrite E in *. rewrite map_size_empty in Hd. lia. }
    specialize (H4 Ho Hnil Hne). lia.
  - split_and!; try done; [by rewrite Ei|]. intros (Hs & Hp & _) _. rewrite Ei. lia.
Qed.

Lemma Set_exact m n1 n2 o1 o2 key value ttl ts :
  index_exact m -> index_exact (Set_ m n1 n2 o1 o2 key value ttl ts).
Proof.
  intros He. rewrite Set_unfold. cbv zeta.
  change ts with (it_Tables (new_item n2 value ttl ts)) at 2.
  apply insert_exact. by apply after_evict_spec.
Qed.

Lemma Set_bounded m n1 n2 o1 o2 key value ttl ts :
  index_exact m -> bounded m -> ranges_over o2 (items m) -> key <> [] ->
  bounded (Set_ m n1 n2 o1 o2 key value ttl ts).
Proof.
  intros He Hb Ho Hk. destruct (after_evict_spec m n1 o1 o2 key He) as (_ & Em & Hsub & Hs).
  specialize (Hs Hb Ho). rewrite Set_unfold. cbv zeta. destruct Hb as (Hb & Hp & Hnil).
  unfold bounded. cbn [items set_items set_tables maxSize]. rewrite Em. split_and!; [|done|].
  - set (its := items (after_evict m n1 o1 o2 key)) in *.
    assert (size (<[key := new_item n2 value ttl ts]> its) <= S (size its))%nat; [|lia].
    rewrite map_size_insert. destruct (its !! key); unfold id; lia.
  - rewrite lookup_insert_None. split; [|done].
    destruct (items (after_evict m n1 o1 o2 key) !! []) eqn:E; [|done]. apply Hsub in E. congruence.
Qed.

(** [Invalidate] and [Cleanup] only ever drop entries. *)
Definition survives (m m' : Manager) (P : bytes -> Item -> Prop) : Prop :=
  index_exact m' /\ maxSize m' = maxSize m /\
  forall k item, items m' !! k = Some item <-> items m !! k = Some item /\ P k item.

Lemma drop_keys_survives keys : forall m,
  index_exact m -> survives m (drop_keys m keys) (fun k _ => k ∉ keys).
Proof.
  induction keys as [|key keys IH]; intros m He; cbn [drop_keys].
  { split_and!; [done..|]. set_solver. }
  destruct (items m !! key) as [item|] eqn:Ei.
  - destruct (drop_item_spec m key item He Ei) as (He' & E' & Em').
    destruct (IH _ He') as (H1 & H2 & H3). split_and!; [done|congruence|].
    intros k it. rewrite H3, E', lookup_delete_Some, not_elem_of_cons. naive_solver.
  - destruct (IH _ He) as (H1 & H2 & H3). split_and!; [done|congruence|].
    intros k it. rewrite H3, not_elem_of_cons. split; [|tauto]. intros [? ?]. split_and!; try done. congruence.
Qed.

Lemma delete_table_exact m table :
  index_exact m -> (forall k, ~ filed (tables m) table k) ->
  index_exact (set_tables m (delete table (tables m))).
Proof.
  intros [Hn Hf] Hno. split; [by apply no_empty_delete|].
  intros t k. cbn [items tables set_tables]. rewrite filed_delete, <- Hf.
  split; [tauto|]. intros H. split; [|done]. intros ->. by eapply Hno.
Qed.

Lemma Invalidate_survives order ts : forall m,
  (forall X k, k ∈ order X <-> k ∈ X) -> index_exact m ->
  survives m (Invalidate order m ts) (fun _ item => forall t, t ∈ ts -> t ∉ it_Tables item).
Proof.
  induction ts as [|table ts IH]; intros m Ho He; cbn [Invalidate].
  { split_and!; [done..|]. set_solver. }
  destruct (tables m !! table) as [keys|] eqn:Et; cbv zeta.
  - destruct (drop_keys_survives (order keys) m He) as (H1 & H2 & H3).
    assert (forall k item, items m !! k = Some item -> k ∉ order keys <-> table ∉ it_Tables item) as Hk.
    { intros k item Hi. rewrite Ho, <- (filed_at (tables m) table keys k Et).
      destruct He as [_ Hf]. rewrite Hf, Hi. naive_solver. }
    destruct (IH (set_tables (drop_keys m (order keys)) (delete table (tables (drop_keys m (order keys))))))
      as (I1 & I2 & I3); [done| |].
    { apply delete_table_exact; [done|]. intros k Hf. destruct H1 as [_ Hf1]. rewrite Hf1 in Hf.
      destruct Hf as (item & Hi & Ht). apply H3 in Hi as [Hi Hn]. by apply (Hk _ _ Hi) in Hn. }
    split_and!; [done|by rewrite I2|]. intros k item. rewrite I3. cbn [items set_tables]. rewrite H3.
    setoid_rewrite elem_of_cons. specialize (Hk k item). naive_solver.
  - destruct (IH m Ho He) as (I1 & I2 & I3). split_and!; [done..|]. intros k item. rewrite I3.
    split; [|set_solver]. intros [Hi Hn]. split; [done|]. intros t [->|?]%elem_of_cons; [|by apply Hn].
    intros Ht. destruct He as [_ Hf]. apply (filed_none (tables m) table k Et), Hf. eauto.
Qed.

Lemma Cleanup_survives now order : forall m,
  index_exact m ->
  survives m (Cleanup m now order) (fun k item => k ∈ order -> now <= it_StaleUntil item).
Proof.
  induction order as [|key order IH]; intros m He; cbn [Cleanup].
  { split_and!; [done..|]. set_solver. }
  destruct (items m !! key) as [item|] eqn:Ei; [case_decide as Hd|].
  - destruct (drop_item_spec m key item He Ei) as (He' & E' & Em').
    destruct (IH _ He') as (H1 & H2 & H3). split_and!; [done|congruence|].
    intros k it. rewrite H3, E', lookup_delete_Some, elem_of_cons.
    split; [naive_solver|]. intros [Hi Hl]. split_and!; [|done|auto]. intros ->. simplify_eq.
    specialize (Hl (or_introl eq_refl)). lia.
  - destruct (IH _ He) as (H1 & H2 & H3). split_and!; [done..|].
    intros k it. rewrite H3, elem_of_cons. split; [|naive_solver].
    intros [Hi Hl]. split; [done|]. intros [->|?]; [|auto]. simplify_eq. lia.
  - destruct (IH _ He) as (H1 & H2 & H3). split_and!; [done..|].
    intros k it. rewrite H3, elem_of_cons. split; [|naive_solver].
    intros [Hi Hl]. split; [done|]. intros [->|?]; [|auto]. congruence.
Qed.

Lemma survives_bounded m m' P : survives m m' P -> bounded m -> bounded m'.
Proof.
  intros (_ & Em & H) (Hb & Hp & Hn). unfold bounded. rewrite Em. split_and!; [|done|].
  - assert (items m' ⊆ items m) as Hs%map_subseteq_size; [|lia].
    apply map_subseteq_spec. intros k item Hi. by apply H.
  - destruct (items m' !! []) eqn:E; [|done]. apply H in E as [E _]. congruence.
Qed.

(** ** Operations in any order *)

Inductive cache_step : Manager -> Manager -> Prop :=
| step_get m now key : cache_step m (snd (Get m now key))
| step_set m n1 n2 o1 o2 key value ttl ts :
    key <> [] -> ranges_over o1 (items m) -> ranges_over o2 (items m) ->
    cache_step m (Set_ m n1 n2 o1 o2 key value ttl ts)
| step_invalidate m order ts :
    (forall X k, k ∈ order X <-> k ∈ X) -> cache_step m (Invalidate order m ts)
| step_cleanup m now order : ranges_over order (items m) -> cache_step m (Cleanup m now order).

Lemma Get_items m now key :
  items (snd (Get m now key)) = items m /\ tables (snd (Get m now key)) = tables m /\
  maxSize (snd (Get m now key)) = maxSize m.
Proof. unfold Get. destruct (items m !! key); repeat case_decide; done. Qed.

Lemma cache_step_keeps m m' :
  cache_step m m' -> index_exact m /\ bounded m -> index_exact m' /\ bounded m' /\ maxSize m' = maxSize m.
Proof.
  intros Hs [He Hb]. destruct Hs as [m now key|m n1 n2 o1 o2 key value ttl ts Hk H1 H2|m order ts Ho|m now order Ho].
  - destruct (Get_items m now key) as (E1 & E2 & E3). unfold index_exact, bounded in *. rewrite E1, E2, E3. tauto.
  - split_and!; [by apply Set_exact|by apply Set_bounded|]. by apply after_evict_spec.
  - pose proof (Invalidate_survives order ts m Ho He) as H. split_and!; [apply H|by eapply survives_bounded|apply H].
  - pose proof (Cleanup_survives now order m He) as H. split_and!; [apply H|by eapply survives_bounded|apply H].
Qed.

Lemma new_manager_ok max : index_exact (NewManagerWithSize max) /\ bounded (NewManagerWithSize max).
Proof.
  unfold index_exact, bounded, filed, no_empty, NewManagerWithSize. cbn [items tables maxSize].
  split; [split|].
  - intros table. by rewrite lookup_empty.
  - intros table key. rewrite lookup_empty. setoid_rewrite lookup_empty. naive_solver.
  - rewrite map_size_empty, lookup_empty. split_and!; [|case_decide; [done|lia]|done]. case_decide; [done|lia].
Qed.

Lemma cache_reachable max m :
  rtc cache_step (NewManagerWithSize max) m ->
  index_exact m /\ bounded m /\ maxSize m = maxSize (NewManagerWithSize max).
Proof.
  intros Hr. destruct (new_manager_ok max) as [He Hb]. revert He Hb.
  induction Hr as [m|m m1 m2 Hs _ IH]; intros He Hb; [done|].
  destruct (cache_step_keeps m m1 Hs (conj He Hb)) as (He1 & Hb1 & Em1).
  destruct (IH He1 Hb1) as (? & ? & ?). split_and!; [done..|congruence].
Qed.

(** ** Properties of the manager *)

(** C24: Whatever sequence of reads, stores, invalidations and cleanups a cache
    goes through, and however Go orders its map iterations, the table index is
    exact (a key is filed under a table precisely when its entry reads that
    table, no set is left empty) and the cache never holds more entries than
    its configured bound.  Nothing is stored under the empty key, which [evictLocked]
    takes for none found and the middleware never uses. *)
Theorem cache_invariant (max : Z) (m : Manager) :
  rtc cache_step (NewManagerWithSize max) m ->
  indexed m /\ covered m /\ Z.of_nat (size (items m)) <= maxSize m /\
  maxSize m = (if decide (max <= 0) then DefaultMaxSize else max).
Proof.
  intros Hr. destruct (cache_reachable max m Hr) as (He & Hb & Em).
  apply index_exact_iff in He as [? ?]. destruct Hb as (? & _). by split_and!.
Qed.

Definition cache_max_1 : Manager := NewManagerWithSize 1.
Definition cache_after : Manager :=
  Set_ (Set_ cache_max_1 100 100 [] [] (bs "k1") (bs "v1") 10 [bs "orders"])
       101 101 [bs "k1"] [bs "k1"] (bs "k2") (bs "v2") 10 [bs "orders"; bs "lines"].

Lemma ranges_over_empty : ranges_over [] (∅ : gmap bytes Item).
Proof. intros k. rewrite lookup_empty. split; [set_solver|intros []; done]. Defined.

Lemma ranges_over_singleton k item : ranges_over [k] {[k := item]}.
Proof.
  intros x. rewrite list_elem_of_singleton. split; [intros ->; rewrite lookup_singleton_eq; eauto|].
  intros [? H]. by apply lookup_singleton_Some in H as [-> _].
Qed.

Lemma cache_invariant_witness :
  indexed cache_after /\ covered cache_after /\ Z.of_nat (size (items cache_after)) <= maxSize cache_after /\
  maxSize cache_after = 1.
Proof.
  refine (cache_invariant 1 cache_after _).
  eapply rtc_l; [apply (step_set cache_max_1 100 100 [] [] (bs "k1") (bs "v1") 10 [bs "orders"]);
    [by_decide|apply ranges_over_empty..]|].
  apply rtc_once. apply (step_set _ 101 101 [bs "k1"] [bs "k1"] (bs "k2") (bs "v2") 10);
    [by_decide|apply ranges_over_singleton..].
Defined.

(** A write evicts exactly what it must: after [Invalidate] an entry is
    still there if and only if it was there and reads none of the written
    tables; after [Cleanup] if and only if it was there and its stale window
    is not over. *)
Theorem eviction_exact (max now : Z) (m : Manager) (order : gset bytes -> list bytes)
    (keys written : list bytes) (key : bytes) (item : Item) :
  rtc cache_step (NewManagerWithSize max) m ->
  (forall X k, k ∈ order X <-> k ∈ X) -> ranges_over keys (items m) ->
  (items (Invalidate order m written) !! key = Some item <->
   items m !! key = Some item /\ forall t, t ∈ written -> t ∉ it_Tables item) /\
  (items (Cleanup m now keys) !! key = Some item <->
   items m !! key = Some item /\ now <= it_StaleUntil item).
Proof.
  intros Hr Ho Hk. destruct (cache_reachable max m Hr) as (He & _ & _).
  split; [by apply Invalidate_survives|].
  destruct (Cleanup_survives now keys m He) as (_ & _ & ->).
  split; intros [Hi Hs]; (split; [done|]); [|done]. apply Hs, Hk. eauto.
Qed.

Lemma eviction_exact_witness :
  (items (Invalidate elements cache_after [bs "lines"]) !! bs "k2" =
     Some (new_item 101 (bs "v2") 10 [bs "orders"; bs "lines"]) <->
   items cache_after !! bs "k2" = Some (new_item 101 (bs "v2") 10 [bs "orders"; bs "lines"]) /\
   forall t, t ∈ [bs "lines"] -> t ∉ [bs "orders"; bs "lines"]) /\
  (items (Cleanup cache_after 200 [bs "k2"]) !! bs "k2" =
     Some (new_item 101 (bs "v2") 10 [bs "orders"; bs "lines"]) <->
   items cache_after !! bs "k2" = Some (new_item 101 (bs "v2") 10 [bs "orders"; bs "lines"]) /\
   200 <= 121).
Proof.
  refine (eviction_exact 1 200 cache_after elements [bs "k2"] [bs "lines"] (bs "k2")
    (new_item 101 (bs "v2") 10 [bs "orders"; bs "lines"]) _ _ _).
  - eapply rtc_l; [apply (step_set cache_max_1 100 100 [] [] (bs "k1") (bs "v1") 10 [bs "orders"]);
      [by_decide|apply ranges_over_empty..]|].
    apply rtc_once. apply (step_set _ 101 101 [bs "k1"] [bs "k1"] (bs "k2") (bs "v2") 10);
      [by_decide|apply ranges_over_singleton..].
  - intros X k. apply elem_of_elements.
  - apply ranges_over_singleton.
Defined.

(** With the empty key closest to expiry, nothing is evicted and the bound is
    exceeded. *)
Example empty_key_never_evicted :
  size (items (Set_ (Set_ cache_max_1 100 100 [] [] [] (bs "v1") 10 [])
                    101 101 [[]] [[]] (bs "k2") (bs "v2") 10 [])) = 2%nat.
Proof. vm_compute. reflexivity. Qed.
