(* ===== verification/CacheMiddleware.v ===== *)
(** * The cache middleware

    [middleware/cache.go] and [middleware/cache_key.go]: the key a reply is
    stored under, when a request is answered from the cache, when its reply is
    stored, when it evicts, and the background refresh of stale entries.

    The hash is a parameter; nothing is assumed of it.  What the next handler
    did with a request (whether it failed, what it relayed to the client,
    whether the reply was an error) is an input of [Handle]. *)
From Stdlib Require Import ZArith Lia Strings.String Sorting.Sorted Sorting.Permutation.
From stdpp Require Import base gmap list numbers option sorting.
From S2P Require Import Prelude Wire Scanner Session Tokenizer ResultSet Cache.

(** ** Go's order on strings *)

Fixpoint bytes_leb (a b : bytes) : bool :=
  match a, b with
  | [], _ => true
  | _ :: _, [] => false
  | x :: a, y :: b =>
      if decide (bval x < bval y) then true
      else if decide (x = y) then bytes_leb a b else false
  end.

Definition bytes_le (a b : bytes) : Prop := bytes_leb a b = true.

#[global] Instance bytes_le_dec : RelDecision bytes_le.
Proof. intros a b. unfold bytes_le. apply _. Defined.

#[global] Instance bytes_le_total : Total bytes_le.
Proof.
  intros a. induction a as [|x a IH]; intros [|y b]; unfold bytes_le in *; simpl; auto.
  destruct (decide (x = y)) as [->|Hne]; [rewrite !(decide_False (P := bval y < bval y)), !decide_True by (done || lia); auto|].
  assert (bval x <> bval y) by (intros E; by apply Hne, bval_inj).
  destruct (decide (bval x < bval y)); [by left|right]. by rewrite decide_True by lia.
Qed.

#[global] Instance bytes_le_trans : Transitive bytes_le.
Proof.
  intros a. induction a as [|x a IH]; intros [|y b] [|z c]; unfold bytes_le in *; simpl; auto; try done.
  repeat case_decide; subst; try done; try lia. apply IH.
Qed.

#[global] Instance bytes_le_antisymm : AntiSymm (=) bytes_le.
Proof.
  intros a. induction a as [|x a IH]; intros [|y b]; unfold bytes_le in *; simpl; try done.
  repeat case_decide; subst; try done; try lia. intros. f_equal. by apply IH.
Qed.

(** ** The key *)

Record CacheSession := {
  cs_Backend : option bytes;          (* the backend's address *)
  cs_State : option SessionState;
  cs_Data : bytes;
  cs_Normalized : bytes;
  cs_QueryInfo : QueryInfo
}.

(** One length-prefixed part, as [write] hashes it. *)
Definition key_part (part : bytes) : bytes := put_uint64 (u64 (zlen part)) ++ part.

(** The parts hashed, in order; [order] is how the variables were ranged over. *)
Definition key_parts (order : list bytes) (s : CacheSession) : list bytes :=
  default [] (cs_Backend s) ::
  match cs_State s with
  | Some st =>
      Database st :: User st ::
      concat (map (fun k => [k; default [] (Vars st !! k)]) (merge_sort bytes_le order))
  | None => [[]; []]
  end ++ [cs_Data s].

Definition key_preimage (order : list bytes) (s : CacheSession) : bytes :=
  concat (map key_part (key_parts order s)).

Definition inTransaction (s : CacheSession) : bool :=
  match cs_State s with
  | Some st => bool_decide (TxState st <> StateIdle /\ TxState st <> StatePartial)
  | None => false
  end.

(** What the next handler reports. *)
Record Reply := { rp_err : bool; rp_capture : bytes; rp_failed : bool }.

Record CacheConfig := { cc_Enabled : bool; cc_TTL : Z }.

Inductive Outcome :=
| Forwarded                            (* the request went to the backend *)
| Served (v : bytes) (refresh : bool)  (* answered from the cache *)
| WriteFailed.                         (* the client is gone *)

Definition maxConcurrentRefreshes : nat := 8.
Definition maxRefreshBytes : Z := Z.shiftl 8 20.

Section Middleware.
Context (sum256 : bytes -> bytes) (cfg : CacheConfig).

(** [CacheKey]. *)
Definition CacheKey (order : list bytes) (s : CacheSession) : bytes :=
  sum256 (key_preimage order s).

(** The run-time facts of one request: clock readings, the orders of the map
    iterations, whether the write to the client succeeded, what [next] did. *)
Record Ambient := {
  am_now : Z; am_now1 : Z; am_now2 : Z;
  am_vars : list bytes; am_order1 : list bytes; am_order2 : list bytes;
  am_sets : gset bytes -> list bytes;
  am_client_ok : bool; am_reply : Reply
}.

(** [Cache.Handle], with a manager configured. *)
Definition Handle (m : Manager) (s : CacheSession) (a : Ambient) : Outcome * Manager :=
  if negb (cc_Enabled cfg) || bool_decide (cs_Normalized s = []) then (Forwarded, m)
  else if negb (Cacheable (cs_Data s)) then (Forwarded, m)
  else if negb (ReadOnly (cs_QueryInfo s)) then
    if negb (rp_err (am_reply a)) && bool_decide (0 < zlen (AffectedTables (cs_QueryInfo s)))
    then (Forwarded, Invalidate (am_sets a) m (AffectedTables (cs_QueryInfo s)))
    else (Forwarded, m)
  else if InTransaction (cs_QueryInfo s) || inTransaction s then (Forwarded, m)
  else
    let key := CacheKey (am_vars a) s in
    let '((cached, hit, needsRevalidate), m) := Get m (am_now a) key in
    if hit : bool then
      if am_client_ok a then (Served cached needsRevalidate, m) else (WriteFailed, m)
    else
      let r := am_reply a in
      if negb (rp_err r) && negb (rp_failed r) && bool_decide (0 < zlen (rp_capture r))
      then (Forwarded, Set_ m (am_now1 a) (am_now2 a) (am_order1 a) (am_order2 a) key
                            (rp_capture r) (cc_TTL cfg) (AffectedTables (cs_QueryInfo s)))
      else (Forwarded, m).

(** [backgroundRefresh]'s read loop: each read returns bytes and whether it
    failed; [None] is a return without storing. *)
Fixpoint refresh_loop (reads : list (bytes * bool)) (capture : bytes) : option bytes :=
  match reads with
  | [] => None
  | (chunk, err) :: reads =>
      if decide (chunk <> []) then
        if decide (maxRefreshBytes < zlen capture + zlen chunk) then None
        else
          let capture := capture ++ chunk in
          if decide (PeekTransactionState chunk <> StatePartial) then Some capture
          else if err : bool then None else refresh_loop reads capture
      else if err : bool then None else refresh_loop reads capture
  end.

(** [backgroundRefresh] for an entry, once it holds a replayed connection. *)
Definition backgroundRefresh (m : Manager) (key : bytes) (ts : list bytes)
    (reads : list (bytes * bool)) (a : Ambient) : Manager :=
  match refresh_loop reads [] with
  | Some capture =>
      if decide (0 < zlen capture)
      then Set_ m (am_now1 a) (am_now2 a) (am_order1 a) (am_order2 a) key capture (cc_TTL cfg) ts
      else m
  | None => m
  end.
End Middleware.

(** ** Admission of background refreshes: [revalidate] *)

Record Refreshes := { refreshing : gset bytes; slots : nat }.

Definition revalidate (r : Refreshes) (key : bytes) (has_backend : bool) : bool * Refreshes :=
  if negb has_backend then (false, r)
  else if decide (key ∈ refreshing r) then (false, r)
  else if decide (slots r < maxConcurrentRefreshes)%nat then
    (true, {| refreshing := {[key]} ∪ refreshing r; slots := S (slots r) |})
  else (false, r).

(** The deferred release when the refresh returns. *)
Definition refresh_done (r : Refreshes) (key : bytes) : Refreshes :=
  {| refreshing := refreshing r ∖ {[key]}; slots := pred (slots r) |}.

(** ** The key is an injective encoding of what the answer depends on *)

Lemma put_uint64_inj n1 n2 :
  0 <= n1 < 2 ^ 63 -> 0 <= n2 < 2 ^ 63 -> put_uint64 (u64 n1) = put_uint64 (u64 n2) -> n1 = n2.
Proof.
  intros H1 H2 E.
  destruct (put_uint64_read n1) as (a & b & c & d & e & f & g & h & E1 & V1); [lia|].
  destruct (put_uint64_read n2) as (a' & b' & c' & d' & e' & f' & g' & h' & E2 & V2); [lia|].
  rewrite E1, E2 in E. by simplify_eq.
Qed.

Definition part_ok (p : bytes) : Prop := zlen p < 2 ^ 63.

Lemma key_part_app_inj p1 p2 r1 r2 :
  part_ok p1 -> part_ok p2 -> key_part p1 ++ r1 = key_part p2 ++ r2 -> p1 = p2 /\ r1 = r2.
Proof.
  intros H1 H2. unfold key_part, part_ok in *. rewrite <- !app_assoc. intros E.
  apply app_inj_1 in E as [Ea E]; [|done].
  apply put_uint64_inj in Ea; [|pose proof (zlen_nonneg p1); lia|pose proof (zlen_nonneg p2); lia].
  apply app_inj_1 in E as [-> ->]; [done|]. unfold zlen in Ea. lia.
Qed.

Lemma key_parts_inj l1 l2 :
  Forall part_ok l1 -> Forall part_ok l2 ->
  concat (map key_part l1) = concat (map key_part l2) -> l1 = l2.
Proof.
  intros H1. revert l2. induction H1 as [|p l1 Hp _ IH]; intros l2 H2 E.
  - destruct l2 as [|q l2]; [done|]. simpl in E. unfold key_part, put_uint64, put_uint32 in E. done.
  - destruct H2 as [|q l2 Hq H2]; [simpl in E; unfold key_part, put_uint64, put_uint32 in E; done|].
    cbn [map concat] in E. apply key_part_app_inj in E as [-> E]; [|done|done]. f_equal. by apply IH.
Qed.

(** Everything that can change the answer to a query. *)
Record Identity := {
  id_backend : bytes; id_database : bytes; id_user : bytes; id_vars : gmap bytes bytes; id_data : bytes
}.

Definition session_state (s : CacheSession) : SessionState := default newSessionState (cs_State s).

Definition identity (s : CacheSession) : Identity :=
  {| id_backend := default [] (cs_Backend s); id_database := Database (session_state s);
     id_user := User (session_state s); id_vars := Vars (session_state s); id_data := cs_Data s |}.

(** The variables were ranged over in this order. *)
Definition ranges_vars (order : list bytes) (s : CacheSession) : Prop :=
  NoDup order /\ forall k, k ∈ order <-> is_Some (Vars (session_state s) !! k).

Definition vars_parts (vars : gmap bytes bytes) (keys : list bytes) : list bytes :=
  concat (map (fun k => [k; default [] (vars !! k)]) keys).

Lemma key_parts_identity order s :
  ranges_vars order s ->
  key_parts order s =
  id_backend (identity s) :: id_database (identity s) :: id_user (identity s) ::
  vars_parts (id_vars (identity s)) (merge_sort bytes_le order) ++ [id_data (identity s)].
Proof.
  intros [_ Hr]. unfold key_parts, identity, vars_parts, session_state in *.
  destruct (cs_State s) as [st|]; [done|]. cbn in *.
  destruct order as [|k order]; [done|]. exfalso.
  assert (is_Some ((∅ : gmap bytes bytes) !! k)) as [? H] by (apply Hr; set_solver).
  by rewrite lookup_empty in H.
Qed.

Lemma vars_parts_inj v1 v2 ks1 : forall ks2,
  vars_parts v1 ks1 = vars_parts v2 ks2 ->
  ks1 = ks2 /\ Forall (fun k => default [] (v1 !! k) = default [] (v2 !! k)) ks1.
Proof.
  induction ks1 as [|k1 ks1 IH]; intros [|k2 ks2] E; try done.
  unfold vars_parts in E. cbn [map concat app] in E. injection E as -> Ev E.
  apply IH in E as [-> Hf]. split; [done|]. by constructor.
Qed.

Lemma vars_equal (v1 v2 : gmap bytes bytes) ks o1 o2 :
  (forall k, k ∈ o1 <-> is_Some (v1 !! k)) -> (forall k, k ∈ o2 <-> is_Some (v2 !! k)) ->
  ks ≡ₚ o1 -> ks ≡ₚ o2 -> Forall (fun k => default [] (v1 !! k) = default [] (v2 !! k)) ks ->
  v1 = v2.
Proof.
  intros H1 H2 P1 P2 Hf. rewrite List.Forall_forall in Hf. apply map_eq. intros k.
  assert (k ∈ ks <-> is_Some (v1 !! k)) as Hk1 by (rewrite <- H1; by rewrite P1).
  assert (k ∈ ks <-> is_Some (v2 !! k)) as Hk2 by (rewrite <- H2; by rewrite P2).
  destruct (v1 !! k) as [x|] eqn:E1, (v2 !! k) as [y|] eqn:E2; try done.
  - f_equal. specialize (Hf k). rewrite E1, E2 in Hf. apply Hf, list_elem_of_In, Hk1. eauto.
  - exfalso. destruct Hk2 as [Hk2 _]. destruct Hk2 as [? ?]; [apply Hk1; eauto|done].
  - exfalso. destruct Hk1 as [Hk1 _]. destruct Hk1 as [? ?]; [apply Hk2; eauto|done].
Qed.

Lemma sorted_keys_unique o1 o2 : o1 ≡ₚ o2 -> merge_sort bytes_le o1 = merge_sort bytes_le o2.
Proof.
  intros H. apply (Sorted_unique bytes_le); [apply Sorted_merge_sort; apply _..|].
  by rewrite !merge_sort_Permutation.
Qed.

Lemma same_identity_same_parts o1 o2 s1 s2 :
  ranges_vars o1 s1 -> ranges_vars o2 s2 -> identity s1 = identity s2 -> key_parts o1 s1 = key_parts o2 s2.
Proof.
  intros H1 H2 E. rewrite (key_parts_identity o1 s1 H1), (key_parts_identity o2 s2 H2), E.
  rewrite (sorted_keys_unique o1 o2); [done|]. destruct H1 as [N1 H1], H2 as [N2 H2].
  apply NoDup_Permutation; [done..|]. intros k. rewrite H1, H2.
  assert (Vars (session_state s1) = Vars (session_state s2)) as -> by apply (f_equal id_vars E). done.
Qed.

Lemma same_parts_same_identity o1 o2 s1 s2 :
  ranges_vars o1 s1 -> ranges_vars o2 s2 -> key_parts o1 s1 = key_parts o2 s2 -> identity s1 = identity s2.
Proof.
  intros H1 H2. rewrite (key_parts_identity o1 s1 H1), (key_parts_identity o2 s2 H2). intros E.
  injection E as Eb Ed Eu E. apply app_inj_tail in E as [Ev Edat].
  apply vars_parts_inj in Ev as [Ek Hf].
  assert (id_vars (identity s1) = id_vars (identity s2)) as Evars.
  { destruct H1 as [_ H1], H2 as [_ H2].
    eapply (vars_equal _ _ (merge_sort bytes_le o1) o1 o2); [done|done|apply merge_sort_Permutation| |done].
    rewrite Ek. apply merge_sort_Permutation. }
  unfold identity in *. cbn [id_backend id_database id_user id_vars id_data] in *. by f_equal.
Qed.

(** ** Where a cached reply comes from *)

Section Provenance.
Context (sum256 : bytes -> bytes) (cfg : CacheConfig).

(** Requests, background refreshes started by an earlier stale hit of the
    session [s], and the janitor, in the order they reach the cache. *)
Inductive Event :=
| Request (s : CacheSession) (a : Ambient)
| Refresh (s : CacheSession) (reads : list (bytes * bool)) (a : Ambient)
| Janitor (now : Z) (order : list bytes).

Definition apply_event (m : Manager) (e : Event) : Manager :=
  match e with
  | Request s a => snd (Handle sum256 cfg m s a)
  | Refresh s reads a =>
      backgroundRefresh cfg m (CacheKey sum256 (am_vars a) s) (AffectedTables (cs_QueryInfo s)) reads a
  | Janitor now order => Cleanup m now order
  end.

Definition run_cache (max : Z) (es : list Event) : Manager :=
  foldl apply_event (NewManagerWithSize max) es.

Definition ambient_ok (a : Ambient) : Prop := forall X k, k ∈ am_sets a X <-> k ∈ X.

Definition event_ok (e : Event) : Prop :=
  match e with Request _ a | Refresh _ _ a => ambient_ok a | Janitor _ _ => True end.

(** A request the middleware looks at, and one it may answer itself. *)
Definition seen_by_cache (s : CacheSession) : Prop :=
  cc_Enabled cfg = true /\ cs_Normalized s <> [] /\ Cacheable (cs_Data s) = true.

Definition eligible (s : CacheSession) : Prop :=
  seen_by_cache s /\ ReadOnly (cs_QueryInfo s) = true /\
  InTransaction (cs_QueryInfo s) = false /\ inTransaction s = false.

Definition stores (e : Event) (key : bytes) (item : Item) : Prop :=
  match e with
  | Request s a =>
      eligible s /\ key = CacheKey sum256 (am_vars a) s /\
      rp_err (am_reply a) = false /\ rp_failed (am_reply a) = false /\
      item = new_item (am_now2 a) (rp_capture (am_reply a)) (cc_TTL cfg) (AffectedTables (cs_QueryInfo s))
  | Refresh s reads a =>
      key = CacheKey sum256 (am_vars a) s /\
      exists capture, refresh_loop reads [] = Some capture /\
        item = new_item (am_now2 a) capture (cc_TTL cfg) (AffectedTables (cs_QueryInfo s))
  | Janitor _ _ => False
  end.

(** A write, relayed without error through the simple protocol, that touches
    one of the tables. *)
Definition evicts (e : Event) (ts : list bytes) : Prop :=
  match e with
  | Request s a =>
      seen_by_cache s /\ ReadOnly (cs_QueryInfo s) = false /\ rp_err (am_reply a) = false /\
      exists t, t ∈ AffectedTables (cs_QueryInfo s) /\ t ∈ ts
  | _ => False
  end.

Definition traced (es : list Event) (key : bytes) (item : Item) : Prop :=
  exists pre e post, es = pre ++ e :: post /\ stores e key item /\
    Forall (fun e' => ~ evicts e' (it_Tables item)) post.

(** What one event does to the entries. *)
Lemma Handle_effect m s a :
  ambient_ok a -> index_exact m ->
  index_exact (snd (Handle sum256 cfg m s a)) /\
  forall k item, items (snd (Handle sum256 cfg m s a)) !! k = Some item ->
    stores (Request s a) k item \/
    (items m !! k = Some item /\ ~ evicts (Request s a) (it_Tables item)).
Proof.
  intros Ha He. cbn [stores evicts]. unfold Handle, eligible, seen_by_cache.
  destruct (cc_Enabled cfg); cbn [negb orb]; [|split; [done|]; naive_solver].
  case_bool_decide as Hnorm; [split; [done|]; naive_solver|].
  destruct (Cacheable (cs_Data s)); cbn [negb]; [|split; [done|]; naive_solver].
  destruct (ReadOnly (cs_QueryInfo s)); cbn [negb].
  - destruct (InTransaction (cs_QueryInfo s)); [split; [done|]; naive_solver|].
    destruct (inTransaction s); cbn [orb]; [split; [done|]; naive_solver|].
    destruct (Get_items m (am_now a) (CacheKey sum256 (am_vars a) s)) as (Gi & Gt & _).
    destruct (Get m _ _) as [[[cached hit] nr] m1]. cbn [snd] in Gi, Gt.
    assert (index_exact m1) as He1 by (unfold index_exact; rewrite Gi, Gt; exact He).
    destruct hit; [destruct (am_client_ok a); (split; [done|]); cbn [snd]; rewrite Gi; naive_solver|].
    destruct (rp_err (am_reply a)); cbn [negb andb]; [split; [done|]; cbn [snd]; rewrite Gi; naive_solver|].
    destruct (rp_failed (am_reply a)); cbn [negb andb]; [split; [done|]; cbn [snd]; rewrite Gi; naive_solver|].
    case_bool_decide; [|split; [done|]; cbn [snd]; rewrite Gi; naive_solver].
    cbn [snd]. split; [by apply Set_exact|]. intros k item. rewrite Set_unfold. cbv zeta. cbn.
    rewrite lookup_insert_Some. intros [[<- <-]|[_ Hi]]; [left; by split_and!|right].
    split; [|naive_solver]. destruct (after_evict_spec m1 (am_now1 a) (am_order1 a) (am_order2 a)
      (CacheKey sum256 (am_vars a) s) He1) as (_ & _ & Hsub & _). rewrite <- Gi. by apply Hsub.
  - destruct (rp_err (am_reply a)); cbn [negb andb]; [split; [done|]; naive_solver|].
    case_bool_decide as Hl; cbn [snd].
    + destruct (Invalidate_survives (am_sets a) (AffectedTables (cs_QueryInfo s)) m Ha He) as (H1 & _ & H3).
      split; [done|]. intros k item [Hi Hno]%H3. right. split; [done|]. naive_solver.
    + split; [done|]. intros k item Hi. right. split; [done|].
      destruct (AffectedTables (cs_QueryInfo s)) as [|t ts]; [set_solver|].
      exfalso. apply Hl. rewrite zlen_cons. pose proof (zlen_nonneg ts). lia.
Qed.

Lemma event_effect m e :
  event_ok e -> index_exact m ->
  index_exact (apply_event m e) /\
  forall k item, items (apply_event m e) !! k = Some item ->
    stores e k item \/ (items m !! k = Some item /\ ~ evicts e (it_Tables item)).
Proof.
  intros Ho He. destruct e as [s a|s reads a|now order]; cbn [apply_event event_ok] in *.
  - by apply Handle_effect.
  - unfold backgroundRefresh. destruct (refresh_loop reads []) as [capture|] eqn:El; [|naive_solver].
    case_decide; [|naive_solver]. split; [by apply Set_exact|].
    intros k item. rewrite Set_unfold. cbv zeta. cbn [items set_items set_tables].
    rewrite lookup_insert_Some. intros [[<- <-]|[_ Hi]]; [left; cbn [stores]; eauto|right].
    split; [|naive_solver]. by eapply after_evict_spec.
  - destruct (Cleanup_survives now order m He) as (H1 & _ & H3). split; [done|].
    intros k item [Hi _]%H3. right. split; [done|]. naive_solver.
Qed.

Lemma run_cache_traced max es :
  Forall event_ok es ->
  index_exact (run_cache max es) /\
  forall k item, items (run_cache max es) !! k = Some item -> traced es k item.
Proof.
  unfold run_cache. induction es as [|e es IH] using rev_ind; intros Ho.
  { split; [apply new_manager_ok|]. intros k item. cbn. by rewrite lookup_empty. }
  apply Forall_app in Ho as [Ho He]. inversion He; subst. destruct (IH Ho) as [Hx Ht].
  rewrite foldl_app. cbn [foldl]. destruct (event_effect _ e ltac:(done) Hx) as [Hx' Hi]. split; [done|].
  intros k item [Hs|[Hk Hn]]%Hi.
  - exists es, e, []. split_and!; [done|done|constructor].
  - apply Ht in Hk as (pre & e0 & post & -> & Hs & Hf). exists pre, e0, (post ++ [e]).
    rewrite <- app_assoc. split_and!; [done|done|]. apply Forall_app. split; [done|by constructor].
Qed.
End Provenance.

(** ** Properties *)

(** C25: A stored reply is never reused across identities.  The key depends
    only on the backend, database, user, session variables and the bytes
    executed, not on the order Go ranges over the variables; and two sessions
    that share a key either agree on all of these or exhibit two different
    inputs with the same SHA-256. *)
Theorem cache_key_identity (sum256 : bytes -> bytes) (o1 o2 : list bytes) (s1 s2 : CacheSession) :
  ranges_vars o1 s1 -> ranges_vars o2 s2 ->
  Forall part_ok (key_parts o1 s1) -> Forall part_ok (key_parts o2 s2) ->
  (identity s1 = identity s2 -> CacheKey sum256 o1 s1 = CacheKey sum256 o2 s2) /\
  (CacheKey sum256 o1 s1 = CacheKey sum256 o2 s2 ->
   identity s1 = identity s2 \/
   exists x y, x <> y /\ sum256 x = sum256 y).
Proof.
  intros H1 H2 P1 P2. unfold CacheKey, key_preimage. split.
  - intros E. by rewrite (same_identity_same_parts o1 o2 s1 s2).
  - intros E. destruct (decide (concat (map key_part (key_parts o1 s1)) =
                                concat (map key_part (key_parts o2 s2)))) as [Ep|Hne]; [left|right; eauto].
    apply (same_parts_same_identity o1 o2); [done..|]. by apply key_parts_inj.
Qed.

#[global] Instance part_ok_dec p : Decision (part_ok p).
Proof. unfold part_ok. apply _. Defined.

Definition ann_state : SessionState :=
  {| StartupPacket := []; Replication := [];
     Vars := <[bs "search_path" := bs "a"]> {[bs "role" := bs "SET role = ann"]}; Stmts := ∅;
     TxState := StateIdle; User := bs "ann"; Database := bs "app"; LastLSN := []; Pinned := false;
     BackendKey := []; PinnedBy := 0 |}.

Definition orders_info : QueryInfo :=
  {| ReadOnly := true; InTransaction := false; AffectedTables := [bs "orders"] |}.

Definition ann_session : CacheSession :=
  {| cs_Backend := Some (bs "10.0.0.1:5432"); cs_State := Some ann_state;
     cs_Data := query_frame (bs "SELECT * FROM orders"); cs_Normalized := bs "SELECT * FROM orders";
     cs_QueryInfo := orders_info |}.

Lemma cache_key_identity_witness :
  (identity ann_session = identity ann_session ->
   CacheKey id [bs "role"; bs "search_path"] ann_session = CacheKey id [bs "search_path"; bs "role"] ann_session) /\
  (CacheKey id [bs "role"; bs "search_path"] ann_session = CacheKey id [bs "search_path"; bs "role"] ann_session ->
   identity ann_session = identity ann_session \/ exists x y : bytes, x <> y /\ id x = id y).
Proof.
  assert (forall order, order ≡ₚ [bs "role"; bs "search_path"] -> ranges_vars order ann_session) as Hr.
  { intros order Hp. split; [rewrite Hp; by_decide|]. intros k. rewrite Hp, <- elem_of_dom.
    assert (dom (Vars ann_state) = {[bs "role"; bs "search_path"]}) as E by by_decide.
    change (Vars (session_state ann_session)) with (Vars ann_state). rewrite E. set_solver. }
  refine (cache_key_identity id [bs "role"; bs "search_path"] [bs "search_path"; bs "role"]
    ann_session ann_session _ _ _ _).
  - apply Hr. reflexivity.
  - apply Hr. apply perm_swap.
  - by_decide.
  - by_decide.
Defined.

(** What the cache answers is accounted for.  After any history of
    requests, background refreshes and cleanups, a request is answered from the
    cache only if it is a read in the simple protocol outside a transaction,
    and then with the reply some earlier event stored under the same key: a
    successful request whose own reply was no error, or a refresh; no write to
    a table that reply reads was relayed since; and its stale window is still
    open, a refresh being asked for exactly once the entry has expired. *)
Theorem served_reply_accounted (sum256 : bytes -> bytes) (cfg : CacheConfig) (max : Z)
    (es : list Event) (s : CacheSession) (a : Ambient) (v : bytes) (refresh : bool) :
  Forall event_ok es ->
  fst (Handle sum256 cfg (run_cache sum256 cfg max es) s a) = Served v refresh ->
  eligible cfg s /\
  exists item, v = it_Value item /\ traced sum256 cfg es (CacheKey sum256 (am_vars a) s) item /\
    (am_now a <= it_Expiration item \/ am_now a < it_StaleUntil item) /\
    (refresh = true <-> it_Expiration item < am_now a).
Proof.
  intros Ho. destruct (run_cache_traced sum256 cfg max es Ho) as [_ Ht].
  set (m := run_cache sum256 cfg max es) in *. clearbody m. unfold Handle, eligible, seen_by_cache.
  destruct (cc_Enabled cfg); cbn [negb orb]; [|done].
  case_bool_decide as Hnorm; [done|].
  destruct (Cacheable (cs_Data s)); cbn [negb]; [|done].
  destruct (ReadOnly (cs_QueryInfo s)); cbn [negb]; [|by destruct (_ && _)].
  destruct (InTransaction (cs_QueryInfo s)); [done|]. destruct (inTransaction s); [done|]. cbn [orb].
  unfold Get. destruct (items m !! _) as [item|] eqn:Ei; [|by destruct (_ && _)].
  destruct (decide (it_Expiration item < am_now a)) as [He|He];
    [destruct (decide (am_now a < it_StaleUntil item)) as [Hs|Hs]|];
    [|by destruct (_ && _)|]; (destruct (am_client_ok a); [|done]); cbn [fst]; intros [= <- <-];
    (split; [by split_and!|]); exists item; (split_and!; [done|by apply Ht| |]).
  - by right.
  - by split.
  - left. lia.
  - by split.
Qed.

Definition first_reply : bytes := frame (ch "C", bs "SELECT 1") ++ frame (ch "Z", bs "I").

Definition ambient (now : Z) (r : Reply) : Ambient :=
  {| am_now := now; am_now1 := now; am_now2 := now; am_vars := [bs "role"; bs "search_path"];
     am_order1 := []; am_order2 := []; am_sets := elements; am_client_ok := true; am_reply := r |}.

Definition ok_reply : Reply := {| rp_err := false; rp_capture := first_reply; rp_failed := false |}.

Definition ten_seconds : CacheConfig := {| cc_Enabled := true; cc_TTL := 10 |}.

Lemma served_reply_accounted_witness :
  eligible ten_seconds ann_session /\
  exists item, first_reply = it_Value item /\
    traced id ten_seconds [Request ann_session (ambient 100 ok_reply)]
      (CacheKey id [bs "role"; bs "search_path"] ann_session) item /\
    (115 <= it_Expiration item \/ 115 < it_StaleUntil item) /\
    (true = true <-> it_Expiration item < 115).
Proof.
  refine (served_reply_accounted id ten_seconds 100 [Request ann_session (ambient 100 ok_reply)]
    ann_session (ambient 115 ok_reply) first_reply true _ _).
  - constructor; [|constructor]. intros X k. apply elem_of_elements.
  - vm_compute. reflexivity.
Defined.

(** ** Where the cache keeps a reply it should not *)

Definition orders_write (data : bytes) : CacheSession :=
  {| cs_Backend := Some (bs "10.0.0.1:5432"); cs_State := Some ann_state; cs_Data := data;
     cs_Normalized := bs "UPDATE orders SET x = ?";
     cs_QueryInfo := {| ReadOnly := false; InTransaction := false; AffectedTables := [bs "orders"] |} |}.

(** A write through the extended protocol evicts nothing: the reply stored
    before it is served after it. *)
Example extended_write_keeps_entries :
  fst (Handle id ten_seconds
    (run_cache id ten_seconds 100
       [Request ann_session (ambient 100 ok_reply);
        Request (orders_write (frame (ch "P", NUL :: bs "UPDATE orders SET x = 1" ++ [NUL; NUL; NUL])))
                (ambient 101 ok_reply)])
    ann_session (ambient 102 ok_reply)) = Served first_reply false.
Proof. vm_compute. reflexivity. Qed.

Definition error_reply : bytes := frame (ch "E", bs "Mdeadlock" ++ [NUL; NUL]) ++ frame (ch "Z", bs "I").

(** A background refresh stores the backend's error, and it is then served. *)
Example refresh_stores_error :
  fst (Handle id ten_seconds
    (run_cache id ten_seconds 100
       [Request ann_session (ambient 100 ok_reply);
        Refresh ann_session [(error_reply, false)] (ambient 116 ok_reply)])
    ann_session (ambient 117 ok_reply)) = Served error_reply false.
Proof. vm_compute. reflexivity. Qed.

(** Concurrent refreshes are deduplicated and bounded. *)
Lemma revalidate_bounded r key b started r' :
  (size (refreshing r) = slots r)%nat -> (slots r <= maxConcurrentRefreshes)%nat ->
  revalidate r key b = (started, r') ->
  (size (refreshing r') = slots r')%nat /\ (slots r' <= maxConcurrentRefreshes)%nat /\
  (started = true -> key ∉ refreshing r /\ key ∈ refreshing r').
Proof.
  intros Hs Hb. unfold revalidate. destruct b; [|by intros [= <- <-]]. cbn [negb].
  repeat case_decide; intros [= <- <-]; try done. cbn [refreshing slots]. split_and!.
  - rewrite size_union, size_singleton; [lia|set_solver].
  - unfold maxConcurrentRefreshes in *. lia.
  - set_solver.
Qed.
