(* ===== verification/Health.v ===== *)
(** * The circuit breaker and the liveness monitor

    [health/circuit_breaker.go] and [health/monitor.go].  The breaker guards
    the dialling of one backend; [Call] holds its lock only while it admits a
    call and while it records the outcome, so the calls of several sessions
    interleave between the two.  A history is any sequence of admissions and
    outcomes. *)
From Stdlib Require Import ZArith Lia Strings.String.
From stdpp Require Import base list numbers option.
From S2P Require Import Prelude.

(** ** The breaker *)

Inductive State := StateClosed | StateOpen | StateHalfOpen.

#[global] Instance State_eq_dec : EqDecision State.
Proof. solve_decision. Defined.

Record CircuitBreaker := {
  cb_state : State; cb_failures : Z; cb_threshold : Z; cb_resetTimeout : Z; cb_lastFailure : Z
}.

Definition with_state (cb : CircuitBreaker) (s : State) : CircuitBreaker :=
  {| cb_state := s; cb_failures := cb_failures cb; cb_threshold := cb_threshold cb;
     cb_resetTimeout := cb_resetTimeout cb; cb_lastFailure := cb_lastFailure cb |}.

(** [NewCircuitBreaker]; the zero [time.Time] is 0. *)
Definition NewCircuitBreaker (threshold resetTimeout : Z) : CircuitBreaker :=
  {| cb_state := StateClosed; cb_failures := 0; cb_threshold := threshold;
     cb_resetTimeout := resetTimeout; cb_lastFailure := 0 |}.

(** [canCall]. *)
Definition canCall (cb : CircuitBreaker) (now : Z) : bool * CircuitBreaker :=
  match cb_state cb with
  | StateClosed => (true, cb)
  | StateOpen =>
      if decide (now - cb_lastFailure cb > cb_resetTimeout cb)
      then (true, with_state cb StateHalfOpen) else (false, cb)
  | StateHalfOpen => (true, cb)
  end.

(** [recordFailure]. *)
Definition recordFailure (cb : CircuitBreaker) (now : Z) : CircuitBreaker :=
  let cb := {| cb_state := cb_state cb; cb_failures := cb_failures cb;
               cb_threshold := cb_threshold cb; cb_resetTimeout := cb_resetTimeout cb;
               cb_lastFailure := now |} in
  if decide (cb_state cb = StateHalfOpen) then with_state cb StateOpen
  else
    let cb := {| cb_state := cb_state cb; cb_failures := cb_failures cb + 1;
                 cb_threshold := cb_threshold cb; cb_resetTimeout := cb_resetTimeout cb;
                 cb_lastFailure := cb_lastFailure cb |} in
    if decide (cb_threshold cb <= cb_failures cb) then with_state cb StateOpen else cb.

(** [recordSuccess]. *)
Definition recordSuccess (cb : CircuitBreaker) : CircuitBreaker :=
  {| cb_state := StateClosed; cb_failures := 0; cb_threshold := cb_threshold cb;
     cb_resetTimeout := cb_resetTimeout cb; cb_lastFailure := cb_lastFailure cb |}.

(** [CircuitBreaker.State]. *)
Definition State_String (s : State) : bytes :=
  match s with
  | StateClosed => bs "Closed" | StateOpen => bs "Open" | StateHalfOpen => bs "Half-Open"
  end.

Inductive call_result (E : Type) := CallOpen | CallErr (e : E) | CallOk.
Arguments CallOpen {E}.
Arguments CallErr {E} e.
Arguments CallOk {E}.

(** [Call], with nothing else running: [fn] is what the function returned and
    [done_at] when. *)
Definition Call {E} (cb : CircuitBreaker) (now done_at : Z) (fn : option E)
  : call_result E * CircuitBreaker :=
  let '(ok, cb) := canCall cb now in
  if negb ok then (CallOpen, cb)
  else match fn with
       | Some e => (CallErr e, recordFailure cb done_at)
       | None => (CallOk, recordSuccess cb)
       end.

(** ** Interleaved calls *)

Inductive cb_event := Begin (now : Z) | Failed (now : Z) | Succeeded.

Definition cb_step (cb : CircuitBreaker) (e : cb_event) : CircuitBreaker :=
  match e with
  | Begin now => snd (canCall cb now)
  | Failed now => recordFailure cb now
  | Succeeded => recordSuccess cb
  end.

Definition cb_run (threshold resetTimeout : Z) (es : list cb_event) : CircuitBreaker :=
  foldl cb_step (NewCircuitBreaker threshold resetTimeout) es.

(** The failures since the last success, latest first. *)
Fixpoint recent_failures (rev_es : list cb_event) : list Z :=
  match rev_es with
  | [] | Succeeded :: _ => []
  | Failed now :: es => now :: recent_failures es
  | Begin _ :: es => recent_failures es
  end.

Definition failures_since (es : list cb_event) : list Z := recent_failures (rev es).

Lemma failures_snoc es e :
  failures_since (es ++ [e]) =
  match e with Succeeded => [] | Failed now => now :: failures_since es | Begin _ => failures_since es end.
Proof. unfold failures_since. rewrite rev_app_distr. by destruct e. Qed.

(** What the breaker knows of its history. *)
Record cb_knows (threshold resetTimeout : Z) (es : list cb_event) (cb : CircuitBreaker) : Prop := {
  k_threshold : cb_threshold cb = threshold;
  k_reset : cb_resetTimeout cb = resetTimeout;
  k_count : 0 <= cb_failures cb <= zlen (failures_since es);
  k_closed : cb_state cb = StateClosed <-> cb_failures cb < threshold;
  k_closed_count : cb_state cb = StateClosed -> cb_failures cb = zlen (failures_since es);
  k_last : cb_state cb <> StateClosed -> head (failures_since es) = Some (cb_lastFailure cb)
}.

Lemma cb_knows_step threshold reset es cb e :
  0 < threshold -> cb_knows threshold reset es cb -> cb_knows threshold reset (es ++ [e]) (cb_step cb e).
Proof.
  intros Ht [Et Er Ec Ek Eq El]. destruct e as [now|now|]; cbn [cb_step].
  - assert (forall s, cb_state cb <> StateClosed -> s <> StateClosed ->
      cb_knows threshold reset (es ++ [Begin now]) (with_state cb s)) as Hw.
    { intros s Hc Hs. split; rewrite ?failures_snoc; cbn; auto; [|done].
      split; [done|]. intros Hl%Ek. done. }
    assert (cb_knows threshold reset (es ++ [Begin now]) cb) as Hsame
      by (split; rewrite ?failures_snoc; auto).
    unfold canCall. destruct (cb_state cb) eqn:Es; [done| |done].
    case_decide; [|done]. by apply Hw.
  - unfold recordFailure. cbn [cb_state]. case_decide as Hh.
    + split; rewrite ?failures_snoc; cbn; auto; try done.
      * rewrite zlen_cons. lia.
      * split; [done|]. intros Hl. rewrite Hh in Ek. apply Ek in Hl. done.
    + cbn [cb_threshold cb_failures]. case_decide as Hd; split; rewrite ?failures_snoc; cbn; auto; try done;
        rewrite ?zlen_cons; try lia.
      * split; [done|lia].
      * split; [lia|]. intros _. apply Ek. lia.
      * intros Hs. specialize (Eq Hs). lia.
  - unfold recordSuccess. split; rewrite ?failures_snoc; cbn; auto; done.
Qed.

Lemma cb_run_knows threshold reset es :
  0 < threshold -> cb_knows threshold reset es (cb_run threshold reset es).
Proof.
  intros Ht. unfold cb_run. induction es as [|e es IH] using rev_ind.
  - split; cbn; auto; done || lia.
  - rewrite foldl_app. cbn [foldl]. by apply cb_knows_step.
Qed.

(** ** The monitor *)

(** [checkOne]: [reachable] is whether the TCP connection opened. *)
Definition checkOne (reachable healthy : bool) : bool := if reachable then healthy else false.

(** [checkAll] over the backends' current health. *)
Definition checkAll (reachable : list bool) (healthy : list bool) : list bool :=
  zip_with checkOne reachable healthy.

(** ** Properties *)

(** The breaker keeps failing fast and nothing more.  However the calls of
    different sessions interleave, a call is refused only when at least
    [threshold] calls have failed since the last success and the latest of
    those failures is no older than the reset timeout; and once a failure has
    brought their number to the threshold, every call until the timeout has
    passed is refused. *)
Theorem breaker_refuses (threshold resetTimeout now : Z) (es : list cb_event) :
  0 < threshold ->
  (fst (canCall (cb_run threshold resetTimeout es) now) = false ->
   threshold <= zlen (failures_since es) /\
   exists last, head (failures_since es) = Some last /\ now - last <= resetTimeout) /\
  (forall t, threshold <= zlen (failures_since (es ++ [Failed t])) -> now - t <= resetTimeout ->
   fst (canCall (cb_run threshold resetTimeout (es ++ [Failed t])) now) = false).
Proof.
  intros Ht. split.
  - destruct (cb_run_knows threshold resetTimeout es Ht) as [Et Er Ec Ek Eq El].
    unfold canCall. destruct (cb_state _) eqn:Es; try done. case_decide as Hd; [done|]. intros _. split.
    + destruct (decide (threshold <= cb_failures (cb_run threshold resetTimeout es))); [lia|].
      assert (StateOpen = StateClosed) by (apply Ek; lia). done.
    + eexists. split; [by apply El|]. lia.
  - intros t Hc Hn. destruct (cb_run_knows threshold resetTimeout (es ++ [Failed t]) Ht) as [Et Er Ec Ek Eq El].
    set (cb := cb_run threshold resetTimeout (es ++ [Failed t])) in *.
    assert (cb_state cb = StateOpen) as Es.
    { destruct (cb_state cb) eqn:E; [|done|].
      - assert (cb_failures cb < threshold) by (by apply Ek).
        assert (cb_failures cb = zlen (failures_since (es ++ [Failed t]))) by (by apply Eq). lia.
      - exfalso. unfold cb, cb_run in E. rewrite foldl_app in E. cbn [foldl cb_step] in E.
        unfold recordFailure in E. repeat case_decide; done. }
    rewrite Es in El. specialize (El ltac:(done)). rewrite failures_snoc in El. injection El as El.
    unfold canCall. rewrite Es, decide_False; [done|]. rewrite <- El. lia.
Qed.

Lemma breaker_refuses_witness :
  (fst (canCall (cb_run 2 30 [Begin 1; Begin 2; Failed 3; Failed 4]) 10) = false ->
   2 <= zlen (failures_since [Begin 1; Begin 2; Failed 3; Failed 4]) /\
   exists last, head (failures_since [Begin 1; Begin 2; Failed 3; Failed 4]) = Some last /\
     10 - last <= 30) /\
  (forall t, 2 <= zlen (failures_since ([Begin 1; Begin 2; Failed 3; Failed 4] ++ [Failed t])) ->
   10 - t <= 30 ->
   fst (canCall (cb_run 2 30 ([Begin 1; Begin 2; Failed 3; Failed 4] ++ [Failed t])) 10) = false).
Proof. refine (breaker_refuses 2 30 10 [Begin 1; Begin 2; Failed 3; Failed 4] _). lia. Defined.

(** A success of a call admitted before the breaker opened closes it again at
    once, in the middle of the reset timeout. *)
Example late_success_closes :
  cb_state (cb_run 2 30 [Begin 1; Begin 1; Begin 1; Failed 2; Failed 2; Succeeded]) = StateClosed.
Proof. reflexivity. Qed.
