(* ===== verification/Pool.v ===== *)
(** * Backend connection pools

    Package [pool]: a backend connection and what is remembered about it
    ([conn.go], [driver.go], [conn_registry.go]), the pools of one backend by
    identity ([pool_set.go], [database_limits.go]), and the backend itself
    ([server.go], [reattach.go], [replication_status.go]).

    The pooling engine of package gpool is not part of the repository: a core
    is an abstract value with the counters [Stat] reports. *)
From Stdlib Require Import ZArith Lia Strings.String.
From stdpp Require Import base gmap list numbers option.
From S2P Require Import Prelude Wire Scanner Session Health.

(** ** One connection *)

Record Conn := {
  c_useCount : Z; c_lastUsed : Z; c_createdAt : Z;
  c_broken : bool; c_dirty : bool; c_busy : bool; c_ready : bool;
  c_user : bytes; c_database : bytes;
  c_stmts : gset bytes
}.

(** [NewConn]. *)
Definition NewConn (now : Z) : Conn :=
  {| c_useCount := 0; c_lastUsed := now; c_createdAt := now; c_broken := false; c_dirty := false;
     c_busy := false; c_ready := false; c_user := []; c_database := []; c_stmts := ∅ |}.

Definition set_flags (c : Conn) (broken dirty busy ready : bool) : Conn :=
  {| c_useCount := c_useCount c; c_lastUsed := c_lastUsed c; c_createdAt := c_createdAt c;
     c_broken := broken; c_dirty := dirty; c_busy := busy; c_ready := ready;
     c_user := c_user c; c_database := c_database c; c_stmts := c_stmts c |}.

Definition MarkBroken (c : Conn) : Conn := set_flags c true (c_dirty c) (c_busy c) (c_ready c).
Definition MarkDirty (c : Conn) : Conn := set_flags c (c_broken c) true (c_busy c) (c_ready c).
Definition markClean (c : Conn) : Conn := set_flags c (c_broken c) false (c_busy c) (c_ready c).
Definition MarkReady (c : Conn) : Conn := set_flags c (c_broken c) (c_dirty c) (c_busy c) true.
Definition set_busy (c : Conn) (b : bool) : Conn := set_flags c (c_broken c) (c_dirty c) b (c_ready c).

(** [IncUseCount]. *)
Definition IncUseCount (c : Conn) (now : Z) : Conn :=
  {| c_useCount := c_useCount c + 1; c_lastUsed := now; c_createdAt := c_createdAt c;
     c_broken := c_broken c; c_dirty := c_dirty c; c_busy := c_busy c; c_ready := c_ready c;
     c_user := c_user c; c_database := c_database c; c_stmts := c_stmts c |}.

(** [Read] and [Write]: an error of the socket is remembered. *)
Definition after_io (c : Conn) (err : bool) : Conn := if err then MarkBroken c else c.

Definition SetIdentity (c : Conn) (user database : bytes) : Conn :=
  {| c_useCount := c_useCount c; c_lastUsed := c_lastUsed c; c_createdAt := c_createdAt c;
     c_broken := c_broken c; c_dirty := c_dirty c; c_busy := c_busy c; c_ready := c_ready c;
     c_user := user; c_database := database; c_stmts := c_stmts c |}.

(** [BelongsTo]. *)
Definition BelongsTo (c : Conn) (user database : bytes) : bool :=
  if decide (c_user c = [] /\ c_database c = []) then true
  else bool_decide (c_user c = user /\ c_database c = database).

Definition set_stmts (c : Conn) (s : gset bytes) : Conn :=
  {| c_useCount := c_useCount c; c_lastUsed := c_lastUsed c; c_createdAt := c_createdAt c;
     c_broken := c_broken c; c_dirty := c_dirty c; c_busy := c_busy c; c_ready := c_ready c;
     c_user := c_user c; c_database := c_database c; c_stmts := s |}.

Definition forgetStatements (c : Conn) : Conn := set_stmts c ∅.

Definition conn_HasStatement (c : Conn) (name : bytes) : bool := bool_decide (name ∈ c_stmts c).

Definition conn_AddStatement (c : Conn) (name : bytes) : Conn :=
  if decide (name = []) then c else set_stmts c ({[name]} ∪ c_stmts c).

(** A pooled connection is a [StatementHolder], which is what the replay of
    prepared statements is proved against. *)
#[global, program] Instance Conn_holder : StatementHolder Conn := {
  HasStatement := conn_HasStatement;
  AddStatement := conn_AddStatement
}.
Next Obligation.
  intros c n m. unfold conn_HasStatement, conn_AddStatement. case_decide as Hn.
  - rewrite (bool_decide_false (n = m /\ n <> [])), orb_false_r by tauto. done.
  - cbn [set_stmts c_stmts].
    destruct (decide (m ∈ c_stmts c)) as [Hm|Hm].
    + rewrite !bool_decide_true by set_solver. done.
    + rewrite (bool_decide_false (m ∈ c_stmts c)) by done. cbn [orb].
      apply bool_decide_ext. set_solver.
Qed.

(** [state]: what the administration console reports. *)
Definition conn_state (c : Conn) : bytes :=
  if c_broken c then bs "close_needed"
  else if negb (c_ready c) then bs "login"
  else if c_busy c then bs "active" else bs "idle".

(** *** The driver's judgements *)

Definition Dead (c : option Conn) : bool :=
  match c with None => true | Some c => c_broken c end.

Definition Ready (c : Conn) : bool := c_ready c.
Definition NeedsCleanup (c : Conn) : bool := c_dirty c.

Definition resetQuery : bytes := bs "DISCARD ALL".

(** [Recyclable]: [exec] is how the backend answered a statement ([true] for no
    error), on a connection whose deadline could be set. *)
Definition Recyclable (exec : bytes -> bool) (has_handler : bool) (c : Conn) : bool * Conn :=
  if Dead (Some c) then (false, c)
  else if negb has_handler then (false, c)
  else if negb (exec (bs "ROLLBACK")) then (false, c)
  else if negb (exec resetQuery) then (false, c)
  else (true, markClean (forgetStatements c)).

(** ** Ceilings *)

Definition backendConnMultiplier : Z := 4.
Definition maxIdentityPools : Z := 256.
Definition identityPoolTTL : Z := 5 * 60 * 1000000000.

(** [backendConnCeiling]: an [int32] product. *)
Definition backendConnCeiling (perIdentity : Z) : Z :=
  if decide (perIdentity <= 0) then 0 else i32 (perIdentity * backendConnMultiplier).

(** [ceilingFor] and [limitFor]. *)
Definition ceilingFor (configured limit : Z) : Z :=
  if decide (0 < limit /\ limit < configured) then limit else configured.

Definition limitFor (limits : option (bytes -> Z)) (database : bytes) : Z :=
  match limits with None => 0 | Some f => f database end.

(** ** The pools of a backend, by identity *)

Record identity := { id_user : bytes; id_db : bytes }.

#[global] Instance identity_eq_dec : EqDecision identity.
Proof. solve_decision. Defined.

#[global, program] Instance identity_countable : Countable identity :=
  inj_countable' (fun i => (id_user i, id_db i)) (fun p => {| id_user := p.1; id_db := p.2 |}) _.
Next Obligation. by intros []. Qed.

Definition identity_String (i : identity) : bytes :=
  if decide (id_user i = [] /\ id_db i = []) then bs "system"
  else id_user i ++ bs "@" ++ id_db i.

Inductive pool_err :=
| ErrPoolClosed
| ErrBackendAtCapacity
| ErrNewCore
| ErrDraining
| ErrPoolExhausted
| ErrCircuitOpen
| ErrAcquire.

Section PoolSet.
(** The engine's core and the counters its [Stat] reports. *)
Context {Core : Type} (TotalConnections ActiveConnections : Core -> Z).

Record poolEntry := { pe_core : Core; pe_lastUsed : Z }.

Record poolSet := {
  ps_pools : gmap identity poolEntry;
  ps_closed_cores : list Core;          (* every core [Close] was called on *)
  ps_maxTotal : Z; ps_maxPools : Z; ps_idleTTL : Z;
  ps_closed : bool
}.

Definition newPoolSet (maxTotal maxPools idleTTL : Z) : poolSet :=
  {| ps_pools := ∅; ps_closed_cores := []; ps_maxTotal := maxTotal; ps_maxPools := maxPools;
     ps_idleTTL := idleTTL; ps_closed := false |}.

Definition set_pools (s : poolSet) (p : gmap identity poolEntry) (gone : list Core) : poolSet :=
  {| ps_pools := p; ps_closed_cores := ps_closed_cores s ++ gone; ps_maxTotal := ps_maxTotal s;
     ps_maxPools := ps_maxPools s; ps_idleTTL := ps_idleTTL s; ps_closed := ps_closed s |}.

(** [totalLocked]: an [int32] sum. *)
Definition totalLocked (s : poolSet) : Z :=
  map_fold (fun _ e acc => i32 (acc + i32 (TotalConnections (pe_core e)))) 0 (ps_pools s).

(** [evictIdlestLocked]'s search, over the order Go ranged in. *)
Fixpoint idlest (pools : gmap identity poolEntry) (order : list identity)
    (best : option (identity * Z)) : option (identity * Z) :=
  match order with
  | [] => best
  | id :: order =>
      match pools !! id with
      | None => idlest pools order best
      | Some e =>
          if decide (0 < ActiveConnections (pe_core e)) then idlest pools order best
          else match best with
               | Some (_, oldest) =>
                   if decide (pe_lastUsed e < oldest) then idlest pools order (Some (id, pe_lastUsed e))
                   else idlest pools order best
               | None => idlest pools order (Some (id, pe_lastUsed e))
               end
      end
  end.

Definition close_pool (s : poolSet) (id : identity) : poolSet :=
  set_pools s (delete id (ps_pools s))
    (match ps_pools s !! id with Some e => [pe_core e] | None => [] end).

(** [evictIdlestLocked]. *)
Definition evictIdlestLocked (s : poolSet) (order : list identity) : bool * poolSet :=
  match idlest (ps_pools s) order None with
  | None => (false, s)
  | Some (victim, _) => (true, close_pool s victim)
  end.

(** [reapLocked]. *)
Fixpoint reap_loop (s : poolSet) (cutoff : Z) (order : list identity) : poolSet :=
  match order with
  | [] => s
  | id :: order =>
      match ps_pools s !! id with
      | None => reap_loop s cutoff order
      | Some e =>
          if decide (cutoff < pe_lastUsed e) then reap_loop s cutoff order
          else if decide (0 < ActiveConnections (pe_core e)) then reap_loop s cutoff order
          else reap_loop (close_pool s id) cutoff order
      end
  end.

Definition reapLocked (s : poolSet) (now : Z) (order : list identity) : poolSet :=
  if decide (ps_idleTTL s <= 0) then s else reap_loop s (now - ps_idleTTL s) order.

(** [ensureRoomLocked]. *)
Definition ensureRoomLocked (s : poolSet) (order : list identity) : result pool_err unit * poolSet :=
  if decide (ps_maxTotal s <= 0 \/ totalLocked s < ps_maxTotal s) then (Ok tt, s)
  else
    let '(freed, s) := evictIdlestLocked s order in
    if freed : bool then (Ok tt, s) else (Err ErrBackendAtCapacity, s).

(** [get]: [o1], [o2] and [o3] are the iteration orders of the loops it may
    run, [newCore] what building a pool for this identity gave. *)
Definition get (s : poolSet) (now : Z) (o1 o2 o3 : list identity) (id : identity)
    (newCore : option Core) : result pool_err Core * poolSet :=
  if ps_closed s then (Err ErrPoolClosed, s)
  else
    match ps_pools s !! id with
    | Some e =>
        (Ok (pe_core e),
         set_pools s (<[id := {| pe_core := pe_core e; pe_lastUsed := now |}]> (ps_pools s)) [])
    | None =>
        let s := reapLocked s now o1 in
        let '(ok, s) :=
          if decide (ps_maxPools s <= Z.of_nat (size (ps_pools s)))
          then evictIdlestLocked s o2 else (true, s) in
        if negb ok then (Err ErrBackendAtCapacity, s)
        else
          let '(room, s) := ensureRoomLocked s o3 in
          match room with
          | Err e => (Err e, s)
          | Ok _ =>
              match newCore with
              | None => (Err ErrNewCore, s)
              | Some core =>
                  (Ok core, set_pools s (<[id := {| pe_core := core; pe_lastUsed := now |}]> (ps_pools s)) [])
              end
          end
    end.

(** [close]. *)
Definition close (s : poolSet) : poolSet :=
  {| ps_pools := ∅; ps_closed_cores := ps_closed_cores s ++ map (fun e => pe_core e.2) (map_to_list (ps_pools s));
     ps_maxTotal := ps_maxTotal s; ps_maxPools := ps_maxPools s; ps_idleTTL := ps_idleTTL s;
     ps_closed := true |}.

Definition count (s : poolSet) : Z := Z.of_nat (size (ps_pools s)).
End PoolSet.

Arguments poolEntry : clear implicits.
Arguments poolSet : clear implicits.

(** ** Replication state of a backend *)

Inductive Role := RolePrimary | RoleReplica.

#[global] Instance Role_eq_dec : EqDecision Role.
Proof. solve_decision. Defined.

Record replicationStatus := {
  inRecovery : bool; replayAge : Z; caughtUp : bool; streaming : bool
}.

Definition status_role (s : replicationStatus) : Role :=
  if inRecovery s then RoleReplica else RolePrimary.

(** [lag]. *)
Definition lag (s : replicationStatus) : Z :=
  if negb (inRecovery s) then 0
  else if streaming s && caughtUp s then 0
  else if decide (replayAge s < 0) then 0
  else replayAge s.

Definition DefaultReattachInterval : Z := 60 * 1000000000.

(** [SetAutoReattach]. *)
Definition SetAutoReattach (enabled : bool) (dwell : Z) : bool * Z :=
  (enabled, if decide (dwell <= 0) then DefaultReattachInterval else dwell).

(** The three atomics of [reattach.go]. *)
Record Reattach := { replicating : bool; replicatingSince : Z; stoppedReplicating : bool }.

Definition newReattach : Reattach :=
  {| replicating := false; replicatingSince := 0; stoppedReplicating := false |}.

(** [setReplicating]. *)
Definition setReplicating (r : Reattach) (now : Z) (streaming : bool) : Reattach :=
  if negb streaming then
    {| replicating := false; replicatingSince := 0; stoppedReplicating := true |}
  else if replicating r then r
  else {| replicating := true; replicatingSince := now; stoppedReplicating := stoppedReplicating r |}.

(** [IsReplicating]. *)
Definition IsReplicating (role : Role) (policy : bool * Z) (r : Reattach) (now : Z) : bool :=
  if decide (role <> RoleReplica) then true
  else
    let '(enabled, dwell) := policy in
    if negb enabled then true
    else if negb (replicating r) then false
    else if negb (stoppedReplicating r) then true
    else if decide (replicatingSince r = 0) then false
    else bool_decide (dwell <= now - replicatingSince r).

(** ** The backend *)

Record Server := {
  sv_role : Role; sv_healthy : bool; sv_lastHealthy : option Z; sv_draining : bool;
  sv_checkedOut : Z; sv_breaker : CircuitBreaker; sv_lag : Z; sv_reattach : Reattach;
  sv_conns : gmap positive Conn     (* the connections handed out, by reference *)
}.

Definition with_draining (p : Server) (d : bool) : Server :=
  {| sv_role := sv_role p; sv_healthy := sv_healthy p; sv_lastHealthy := sv_lastHealthy p;
     sv_draining := d; sv_checkedOut := sv_checkedOut p; sv_breaker := sv_breaker p;
     sv_lag := sv_lag p; sv_reattach := sv_reattach p; sv_conns := sv_conns p |}.

Definition SetDraining := with_draining.

Definition with_breaker (p : Server) (b : CircuitBreaker) : Server :=
  {| sv_role := sv_role p; sv_healthy := sv_healthy p; sv_lastHealthy := sv_lastHealthy p;
     sv_draining := sv_draining p; sv_checkedOut := sv_checkedOut p; sv_breaker := b;
     sv_lag := sv_lag p; sv_reattach := sv_reattach p; sv_conns := sv_conns p |}.

Definition with_conn (p : Server) (ref : positive) (c : Conn) (delta : Z) : Server :=
  {| sv_role := sv_role p; sv_healthy := sv_healthy p; sv_lastHealthy := sv_lastHealthy p;
     sv_draining := sv_draining p; sv_checkedOut := sv_checkedOut p + delta;
     sv_breaker := sv_breaker p; sv_lag := sv_lag p; sv_reattach := sv_reattach p;
     sv_conns := <[ref := c]> (sv_conns p) |}.

Definition SetHealthy (p : Server) (now : Z) (healthy : bool) : Server :=
  {| sv_role := sv_role p; sv_healthy := healthy;
     sv_lastHealthy := if healthy && negb (sv_healthy p) then Some now else sv_lastHealthy p;
     sv_draining := sv_draining p; sv_checkedOut := sv_checkedOut p; sv_breaker := sv_breaker p;
     sv_lag := sv_lag p; sv_reattach := sv_reattach p; sv_conns := sv_conns p |}.

(** [setRole]: a demoted primary drains. *)
Definition setRole (p : Server) (role : Role) : Server :=
  let old := sv_role p in
  let p := {| sv_role := role; sv_healthy := sv_healthy p; sv_lastHealthy := sv_lastHealthy p;
              sv_draining := sv_draining p; sv_checkedOut := sv_checkedOut p;
              sv_breaker := sv_breaker p; sv_lag := sv_lag p; sv_reattach := sv_reattach p;
              sv_conns := sv_conns p |} in
  if decide (old = RolePrimary /\ role = RoleReplica) then SetDraining p true else p.

(** What the pool and the engine did with an acquisition. *)
Inductive engine_answer :=
| PoolRefused (e : pool_err)                       (* [pools.get] *)
| EngineErr (exhausted : bool)                     (* [core.Acquire] *)
| EngineConn (ref : positive) (c : Conn).

(** [AcquireFor]. *)
Definition AcquireFor (p : Server) (now done_at : Z) (answer : engine_answer)
  : result pool_err positive * Server :=
  if sv_draining p then (Err ErrDraining, p)
  else
    match answer with
    | PoolRefused e => (Err e, p)
    | EngineErr exhausted =>
        let '(r, b) := Call (sv_breaker p) now done_at (Some tt) in
        (Err match r with
             | CallOpen => ErrCircuitOpen
             | _ => if exhausted : bool then ErrPoolExhausted else ErrAcquire
             end, with_breaker p b)
    | EngineConn ref c =>
        let '(r, b) := Call (E := unit) (sv_breaker p) now done_at None in
        match r with
        | CallOpen => (Err ErrCircuitOpen, with_breaker p b)
        | _ => (Ok ref, with_conn (with_breaker p b) ref (set_busy (IncUseCount c done_at) true) 1)
        end
    end.

(** [Release] of a connection of this backend. *)
Definition Release (p : Server) (ref : positive) : Server :=
  match sv_conns p !! ref with
  | None => p      (* not a pooled connection: it is only closed *)
  | Some c =>
      let c := set_busy c false in
      let c := if sv_draining p then MarkBroken c else c in
      let p := with_conn p ref c (-1) in
      if sv_draining p && bool_decide (sv_checkedOut p = 0) then SetDraining p false else p
  end.

(** [deepCheckAdmin]: [answer] is the row of the status query, if it came. *)
Definition deepCheckAdmin (p : Server) (now : Z) (answer : option replicationStatus) : bool * Server :=
  match answer with
  | None => (false, SetHealthy p now false)
  | Some status =>
      let p := SetHealthy p now true in
      let p := {| sv_role := sv_role p; sv_healthy := sv_healthy p; sv_lastHealthy := sv_lastHealthy p;
                  sv_draining := sv_draining p; sv_checkedOut := sv_checkedOut p;
                  sv_breaker := sv_breaker p; sv_lag := lag status;
                  sv_reattach := setReplicating (sv_reattach p) now
                                   (negb (inRecovery status) || streaming status);
                  sv_conns := sv_conns p |} in
      (true, if decide (sv_role p <> status_role status) then setRole p (status_role status) else p)
  end.

(** ** Lemmas on the pool set *)

Section PoolSetLemmas.
Context {Core : Type} (Total Active : Core -> Z).
Implicit Types (s : poolSet Core) (pools : gmap identity (poolEntry Core)).

Definition ranges_ids (order : list identity) pools : Prop :=
  forall id, id ∈ order <-> is_Some (pools !! id).

Definition in_use (e : poolEntry Core) : Prop := 0 < Active (pe_core e).

Lemma idlest_some pools order : forall best,
  match best with Some (v, _) => exists e, pools !! v = Some e /\ ~ in_use e | None => True end ->
  match idlest Active pools order best with
  | Some (v, _) => exists e, pools !! v = Some e /\ ~ in_use e
  | None => best = None /\ forall id e, id ∈ order -> pools !! id = Some e -> in_use e
  end.
Proof.
  induction order as [|id order IH]; intros best Hb; cbn [idlest].
  { destruct best as [[v t]|]; [done|]. split; [done|]. set_solver. }
  destruct (pools !! id) as [e|] eqn:E.
  - destruct (decide (0 < Active (pe_core e))) as [Ha|Ha].
    + specialize (IH best Hb). destruct (idlest _ _ _ _) as [[v t]|]; [done|].
      destruct IH as [-> IH]. split; [done|]. intros x ex [->|Hx]%elem_of_cons Ex; [|by eapply IH].
      by simplify_eq.
    + assert (exists e, pools !! id = Some e /\ ~ in_use e) as Hv by eauto.
      assert (forall t, match idlest Active pools order (Some (id, t)) with
              | Some (v, _) => exists e, pools !! v = Some e /\ ~ in_use e | None => False end) as Hn.
      { intros t. specialize (IH (Some (id, t)) Hv). destruct (idlest _ _ _ _) as [[v t']|]; [done|]. by destruct IH. }
      destruct best as [[v oldest]|].
      * case_decide.
        -- specialize (Hn (pe_lastUsed e)). destruct (idlest _ _ _ _) as [[? ?]|]; done.
        -- specialize (IH (Some (v, oldest)) Hb). destruct (idlest _ _ _ _) as [[? ?]|]; [done|]. by destruct IH.
      * specialize (Hn (pe_lastUsed e)). destruct (idlest _ _ _ _) as [[? ?]|]; done.
  - specialize (IH best Hb). destruct (idlest _ _ _ _) as [[v t]|]; [done|].
    destruct IH as [-> IH]. split; [done|]. intros x ex [->|Hx]%elem_of_cons Ex; [congruence|by eapply IH].
Qed.

(** [s'] came from [s] by closing pools that were not in use. *)
Record shed s s' : Prop := {
  sh_sub : forall id e, ps_pools s' !! id = Some e -> ps_pools s !! id = Some e;
  sh_keep : forall id e, ps_pools s !! id = Some e -> in_use e -> ps_pools s' !! id = Some e;
  sh_closed : exists gone, ps_closed_cores s' = ps_closed_cores s ++ gone /\
    forall c, c ∈ gone -> exists id e, ps_pools s !! id = Some e /\ pe_core e = c /\ ~ in_use e;
  sh_max : ps_maxPools s' = ps_maxPools s
}.

Lemma shed_refl s : shed s s.
Proof. split; auto. exists []. split; [by rewrite app_nil_r|]. set_solver. Qed.

Lemma shed_trans s1 s2 s3 : shed s1 s2 -> shed s2 s3 -> shed s1 s3.
Proof.
  intros [A1 A2 (g1 & E1 & C1) A4] [B1 B2 (g2 & E2 & C2) B4]. split; eauto; [|congruence].
  exists (g1 ++ g2). split; [by rewrite E2, E1, app_assoc|].
  intros c [Hc|Hc]%elem_of_app; [by apply C1|].
  destruct (C2 c Hc) as (id & e & H1 & H2 & H3). eauto 10.
Qed.

Lemma shed_close_pool s id e :
  ps_pools s !! id = Some e -> ~ in_use e -> shed s (close_pool s id).
Proof.
  intros Hi Hu. unfold close_pool. split; cbn [ps_pools ps_closed_cores ps_maxPools set_pools].
  - intros x ex. rewrite lookup_delete_Some. tauto.
  - intros x ex Hx Hux. rewrite lookup_delete_Some. split; [|done]. intros <-. congruence.
  - rewrite Hi. exists [pe_core e]. split; [done|]. intros c ->%list_elem_of_singleton. eauto.
  - done.
Qed.

Lemma evictIdlest_shed s order :
  shed s (snd (evictIdlestLocked Active s order)) /\
  (fst (evictIdlestLocked Active s order) = true ->
   S (size (ps_pools (snd (evictIdlestLocked Active s order)))) = size (ps_pools s)) /\
  (fst (evictIdlestLocked Active s order) = false -> ranges_ids order (ps_pools s) ->
   forall id e, ps_pools s !! id = Some e -> in_use e).
Proof.
  unfold evictIdlestLocked. pose proof (idlest_some (ps_pools s) order None I) as H.
  destruct (idlest _ _ _ _) as [[v t]|]; cbn [fst snd].
  - destruct H as (e & He & Hu). split_and!; [by eapply shed_close_pool| |done]. intros _. cbn.
    rewrite map_size_delete, He. unfold id.
    assert (size (ps_pools s) <> 0%nat); [|lia].
    rewrite map_size_non_empty_iff. intros E. rewrite E, lookup_empty in He. done.
  - destruct H as [_ H]. split_and!; [apply shed_refl|done|]. intros _ Hr i e Hi. eapply H; [|done]. apply Hr. eauto.
Qed.

Lemma reap_shed cutoff order : forall s, shed s (reap_loop Active s cutoff order).
Proof.
  induction order as [|id order IH]; intros s; cbn [reap_loop]; [apply shed_refl|].
  destruct (ps_pools s !! id) as [e|] eqn:E; [|apply IH]. case_decide; [apply IH|].
  case_decide as Hu; [apply IH|]. eapply shed_trans; [by eapply shed_close_pool|apply IH].
Qed.

Lemma reapLocked_shed s now order : shed s (reapLocked Active s now order).
Proof. unfold reapLocked. case_decide; [apply shed_refl|apply reap_shed]. Qed.

Lemma ensureRoom_shed s order :
  shed s (snd (ensureRoomLocked Total Active s order)) /\
  (forall e, fst (ensureRoomLocked Total Active s order) = Err e ->
     e = ErrBackendAtCapacity /\ snd (ensureRoomLocked Total Active s order) = s /\
     (ranges_ids order (ps_pools s) -> forall id e, ps_pools s !! id = Some e -> in_use e)).
Proof.
  unfold ensureRoomLocked. case_decide; [split; [apply shed_refl|done]|].
  destruct (evictIdlest_shed s order) as (H1 & _ & H3).
  unfold evictIdlestLocked in *. destruct (idlest _ _ _ _) as [[v t]|]; cbn [fst snd] in *; (split; [done|]); [done|].
  intros e [= <-]. eauto.
Qed.

Lemma shed_size s s' : shed s s' -> (size (ps_pools s') <= size (ps_pools s))%nat.
Proof. intros [H _ _ _]. apply map_subseteq_size, map_subseteq_spec, H. Qed.

Definition within (s : poolSet Core) : Prop :=
  0 < ps_maxPools s /\ Z.of_nat (size (ps_pools s)) <= ps_maxPools s.

(** [get] up to the point where it builds a pool: [s1] is what is left. *)
Lemma get_new s now o1 o2 o3 id newCore :
  ps_closed s = false -> ps_pools s !! id = None -> within s ->
  exists s1, shed s s1 /\ Z.of_nat (size (ps_pools s1)) < ps_maxPools s1 + 0 /\
    get Total Active s now o1 o2 o3 id newCore =
    match newCore with
    | None => (Err ErrNewCore, s1)
    | Some core => (Ok core, set_pools s1 (<[id := {| pe_core := core; pe_lastUsed := now |}]> (ps_pools s1)) [])
    end \/
  (shed s s1 /\ get Total Active s now o1 o2 o3 id newCore = (Err ErrBackendAtCapacity, s1)).
Proof.
  intros Hc Hi [Hp Hs]. unfold get. rewrite Hc, Hi.
  pose proof (reapLocked_shed s now o1) as Hr. set (sr := reapLocked Active s now o1) in *. cbv zeta.
  assert (exists ok s2, (if decide (ps_maxPools sr <= Z.of_nat (size (ps_pools sr)))
            then evictIdlestLocked Active sr o2 else (true, sr)) = (ok, s2) /\ shed s s2 /\
            (ok = true -> Z.of_nat (size (ps_pools s2)) < ps_maxPools s2)) as (ok & s2 & E & Hsh & Hok).
  { case_decide as Hd.
    - destruct (evictIdlest_shed sr o2) as (H1 & H2 & _).
      destruct (evictIdlestLocked Active sr o2) as [ok s2]. cbn [fst snd] in *.
      exists ok, s2. split_and!; [done|by eapply shed_trans|]. intros ->. specialize (H2 eq_refl).
      pose proof (shed_size _ _ Hr). rewrite (sh_max _ _ H1), (sh_max _ _ Hr). lia.
    - exists true, sr. split_and!; [done|done|lia]. }
  rewrite E. destruct ok; cbn [negb]; [|eauto 10].
  destruct (ensureRoom_shed s2 o3) as [H1 H2].
  destruct (ensureRoomLocked Total Active s2 o3) as [[e|[]] s3]; cbn [fst snd] in *.
  - destruct (H2 e eq_refl) as (-> & -> & _). eauto 10.
  - exists s3. left. split; [by eapply shed_trans|]. pose proof (shed_size _ _ H1). specialize (Hok eq_refl).
    split; [rewrite (sh_max _ _ H1); lia|done].
Qed.
End PoolSetLemmas.

(** ** Checkouts *)

(** A backend and who holds its connections. *)
Definition sv_state : Type := Server * gset positive.

Inductive sv_step : sv_state -> sv_state -> Prop :=
| sv_acquire p held now done_at answer ref p' :
    AcquireFor p now done_at answer = (Ok ref, p') -> ref ∉ held ->
    sv_step (p, held) (p', {[ref]} ∪ held)
| sv_acquire_failed p held now done_at answer e p' :
    AcquireFor p now done_at answer = (Err e, p') -> sv_step (p, held) (p', held)
| sv_release p held ref :
    ref ∈ held -> sv_step (p, held) (Release p ref, held ∖ {[ref]})
| sv_check p held now answer :
    sv_step (p, held) (snd (deepCheckAdmin p now answer), held)
| sv_role_change p held role : sv_step (p, held) (setRole p role, held)
| sv_health p held now b : sv_step (p, held) (SetHealthy p now b, held).

(** The fields a health check or role change leaves alone. *)
Lemma deepCheckAdmin_keeps p now answer :
  let p' := snd (deepCheckAdmin p now answer) in
  sv_checkedOut p' = sv_checkedOut p /\ sv_conns p' = sv_conns p /\
  (sv_draining p = true -> sv_draining p' = true).
Proof.
  unfold deepCheckAdmin. destruct answer as [st|]; [|done]. cbn [snd].
  case_decide; [|done]. unfold setRole. case_decide; done.
Qed.

Lemma setRole_keeps p role :
  sv_checkedOut (setRole p role) = sv_checkedOut p /\ sv_conns (setRole p role) = sv_conns p /\
  (sv_draining p = true -> sv_draining (setRole p role) = true).
Proof. unfold setRole. case_decide; done. Qed.

Lemma AcquireFor_cases p now done_at answer r p' :
  AcquireFor p now done_at answer = (r, p') ->
  match r with
  | Err _ => sv_checkedOut p' = sv_checkedOut p /\ sv_conns p' = sv_conns p
  | Ok ref => sv_draining p = false /\ sv_checkedOut p' = sv_checkedOut p + 1 /\
              exists c, sv_conns p' = <[ref := c]> (sv_conns p) /\ c_busy c = true
  end /\ sv_draining p' = sv_draining p.
Proof.
  unfold AcquireFor. destruct (sv_draining p) eqn:Ed; [intros [= <- <-]; by rewrite Ed|].
  destruct answer as [e|exh|ref c].
  - intros [= <- <-]. by rewrite Ed.
  - destruct (Call _ _ _ _) as [[| |] b]; intros [= <- <-]; by rewrite <- Ed.
  - destruct (Call _ _ _ _) as [[| |] b]; intros [= <- <-]; rewrite <- Ed; try done.
    + split; [|done]. split_and!; [done..|]. eexists. split; [done|done].
    + split; [|done]. split_and!; [done..|]. eexists. split; [done|done].
Qed.

(** The engine's contract, as the backend keeps it: what is counted is held. *)
Definition accounted (st : sv_state) : Prop :=
  let '(p, held) := st in
  sv_checkedOut p = Z.of_nat (size held) /\
  forall ref, ref ∈ held -> exists c, sv_conns p !! ref = Some c /\ c_busy c = true.

Lemma Release_keeps p ref c :
  sv_conns p !! ref = Some c ->
  sv_checkedOut (Release p ref) = sv_checkedOut p - 1 /\
  (forall r, r <> ref -> sv_conns (Release p ref) !! r = sv_conns p !! r) /\
  sv_draining (Release p ref) = (sv_draining p && negb (bool_decide (sv_checkedOut p = 1))).
Proof.
  intros E. unfold Release. rewrite E. cbn [sv_draining with_conn sv_checkedOut].
  rewrite (bool_decide_ext (sv_checkedOut p + -1 = 0) (sv_checkedOut p = 1)) by lia.
  destruct (sv_draining p) eqn:Ed, (bool_decide (sv_checkedOut p = 1)); cbn; rewrite ?Ed, ?Z.add_opp_r;
    (split_and!; [done| |done]); intros r Hr; by rewrite lookup_insert_ne.
Qed.

Lemma accounted_step st st' : sv_step st st' -> accounted st -> accounted st'.
Proof.
  intros Hs. destruct Hs as [p held now d answer ref p' H Hr|p held now d answer e p' H|p held ref Hr|
    p held now answer|p held role|p held now b]; intros [Hc Hb]; unfold accounted.
  - apply AcquireFor_cases in H as [(_ & Hc' & c & Ei & Hbusy) _]. rewrite Hc', Hc, Ei. split.
    + rewrite size_union, size_singleton by set_solver. lia.
    + intros r [->%elem_of_singleton|Hin]%elem_of_union; [exists c; by rewrite lookup_insert_eq|].
      rewrite lookup_insert_ne by set_solver. by apply Hb.
  - apply AcquireFor_cases in H as [(Hc' & Ei) _]. rewrite Hc', Ei. done.
  - destruct (Hb ref Hr) as (c & Ec & _). destruct (Release_keeps p ref c Ec) as (H1 & H2 & _). split.
    + rewrite H1, Hc, size_difference by set_solver. rewrite size_singleton.
      assert (size held <> 0%nat) by (apply size_non_empty_iff; set_solver). lia.
    + intros r [Hin Hne]%elem_of_difference. rewrite H2 by set_solver. by apply Hb.
  - destruct (deepCheckAdmin_keeps p now answer) as (H1 & H2 & _). rewrite H1, H2. done.
  - destruct (setRole_keeps p role) as (H1 & H2 & _). rewrite H1, H2. done.
  - done.
Qed.

Definition newServer (role : Role) : Server :=
  {| sv_role := role; sv_healthy := true; sv_lastHealthy := None; sv_draining := false;
     sv_checkedOut := 0; sv_breaker := NewCircuitBreaker 5 (30 * 1000000000); sv_lag := 0;
     sv_reattach := newReattach; sv_conns := ∅ |}.

Lemma accounted_reachable role st : rtc sv_step (newServer role, ∅) st -> accounted st.
Proof.
  intros H. assert (accounted (newServer role, ∅)) as H0 by (split; [done|set_solver]).
  induction H as [st|st1 st2 st3 Hs _ IH]; [done|]. apply IH. by eapply accounted_step.
Qed.

(** Draining with nothing checked out. *)
Definition stuck (st : sv_state) : Prop := sv_draining (fst st) = true /\ snd st = ∅.

Lemma stuck_step st st' : sv_step st st' -> stuck st -> stuck st'.
Proof.
  intros Hs [Hd Hh]. destruct Hs as [p held now d answer ref p' H Hr|p held now d answer e p' H|p held ref Hr|
    p held now answer|p held role|p held now b]; cbn [fst snd] in *; subst.
  - apply AcquireFor_cases in H as [(Hf & _) _]. congruence.
  - apply AcquireFor_cases in H as [_ Hd']. split; [|done]. cbn [fst]. congruence.
  - set_solver.
  - split; [by apply deepCheckAdmin_keeps|done].
  - split; [by apply setRole_keeps|done].
  - done.
Qed.

(** ** Observations of the replication stream *)

Definition observe (obs : list (Z * bool)) : Reattach :=
  foldl (fun r o => setReplicating r (fst o) (snd o)) newReattach obs.

(** The streaming run that is still going on: the first observation of it. *)
Fixpoint run_start (rev_obs : list (Z * bool)) (start : option Z) : option Z :=
  match rev_obs with
  | (t, true) :: obs => run_start obs (Some t)
  | _ => start
  end.

Definition ever_stopped (obs : list (Z * bool)) : bool := existsb (fun o => negb (snd o)) obs.

Lemma run_start_snoc obs t b :
  run_start (rev (obs ++ [(t, b)])) None =
  if b then match run_start (rev obs) None with Some s => Some s | None => Some t end else None.
Proof.
  rewrite rev_app_distr. cbn [rev app run_start]. destruct b; [|done].
  generalize (rev obs) as ro. intros ro. revert t. induction ro as [|[t' []] ro IH]; intros t; cbn [run_start]; [done| |done].
  rewrite !IH. by destruct (run_start ro None).
Qed.

Lemma observe_spec obs :
  replicating (observe obs) = bool_decide (is_Some (run_start (rev obs) None)) /\
  (forall s, run_start (rev obs) None = Some s -> replicatingSince (observe obs) = s) /\
  stoppedReplicating (observe obs) = ever_stopped obs.
Proof.
  unfold observe, ever_stopped. induction obs as [|[t b] obs IH] using rev_ind; [done|].
  rewrite foldl_app, existsb_app, run_start_snoc. cbn [foldl fst snd existsb].
  destruct IH as (H1 & H2 & H3). set (r := foldl _ _ obs) in *. unfold setReplicating.
  destruct b; cbn [negb].
  - rewrite !orb_false_r. destruct (run_start (rev obs) None) as [s|] eqn:E.
    + rewrite bool_decide_true in H1 by eauto. rewrite H1. by rewrite bool_decide_true by eauto.
    + rewrite bool_decide_false in H1 by (intros [? ?]; done). rewrite H1. cbn.
      split_and!; [done| |done]. by intros s [= <-].
  - cbn. rewrite orb_true_r. done.
Qed.

(** ** Properties *)

(** C20: Taking a pool for an identity never costs another identity a live
    session: whatever is evicted to make room had nothing checked out, every
    pool in use is kept with the same core, the number of pools stays within
    its bound, and the pool returned is the one filed under that identity, the
    existing one when there was one. *)
Theorem pool_get_safe {Core : Type} (Total Active : Core -> Z) (s s' : poolSet Core) (now : Z)
    (o1 o2 o3 : list identity) (id : identity) (newCore : option Core) (r : result pool_err Core) :
  within s -> get Total Active s now o1 o2 o3 id newCore = (r, s') ->
  within s' /\
  (forall i e, ps_pools s !! i = Some e -> in_use Active e ->
     exists e', ps_pools s' !! i = Some e' /\ pe_core e' = pe_core e) /\
  (exists gone, ps_closed_cores s' = ps_closed_cores s ++ gone /\
     forall c, c ∈ gone -> exists i e, ps_pools s !! i = Some e /\ pe_core e = c /\ ~ in_use Active e) /\
  (forall c, r = Ok c -> exists e, ps_pools s' !! id = Some e /\ pe_core e = c /\
     forall e0, ps_pools s !! id = Some e0 -> pe_core e0 = c).
Proof.
  intros Hw. destruct (ps_closed s) eqn:Hcl.
  { unfold get. rewrite Hcl. intros [= <- <-]. split_and!; [done|eauto| |done]. exists [].
    split; [by rewrite app_nil_r|set_solver]. }
  destruct (ps_pools s !! id) as [e|] eqn:Ei.
  { unfold get. rewrite Hcl, Ei. intros [= <- <-]. destruct Hw as [Hp Hs].
    unfold within. cbn [ps_pools set_pools ps_maxPools ps_closed_cores]. split_and!; [done| | | |].
    - rewrite map_size_insert, Ei. unfold Datatypes.id. done.
    - intros i e' Hi _. destruct (decide (i = id)) as [->|]; [|rewrite lookup_insert_ne by done; eauto].
      rewrite lookup_insert_eq. simplify_eq. eauto.
    - exists []. split; [done|set_solver].
    - intros c [= <-]. rewrite lookup_insert_eq. eexists. split_and!; [done|done|]. naive_solver. }
  destruct (get_new Total Active s now o1 o2 o3 id newCore Hcl Ei Hw) as (s1 & [(Hsh & Hsz & E)|[Hsh E]]); rewrite E.
  - assert (ps_pools s1 !! id = None) as E1.
    { destruct (ps_pools s1 !! id) eqn:X; [|done]. apply (sh_sub _ _ _ Hsh) in X. congruence. }
    destruct Hw as [Hp Hs]. pose proof (sh_max _ _ _ Hsh) as Hm.
    destruct newCore as [core|]; intros [= <- <-]; unfold within;
      cbn [ps_pools set_pools ps_maxPools ps_closed_cores]; rewrite ?app_nil_r.
    + split_and!; [lia| | |by apply Hsh|].
      * rewrite map_size_insert, E1. lia.
      * intros i e Hi Hu. exists e. split; [|done].
        rewrite lookup_insert_ne by congruence. by apply (sh_keep _ _ _ Hsh).
      * intros c [= <-]. rewrite lookup_insert_eq. eexists. split_and!; [done|done|congruence].
    + split_and!; [lia|lia| |by apply Hsh|done].
      intros i e Hi Hu. exists e. split; [|done]. by apply (sh_keep _ _ _ Hsh).
  - intros [= <- <-]. destruct Hw as [Hp Hs]. pose proof (sh_max _ _ _ Hsh). pose proof (shed_size _ _ _ Hsh).
    unfold within. split_and!; [lia|lia| |by apply Hsh|done].
    intros i e Hi Hu. exists e. split; [|done]. by apply (sh_keep _ _ _ Hsh).
Qed.

(** A core as its two counters. *)
Definition core2 : Type := Z * Z.
Definition ann_app : identity := {| id_user := bs "ann"; id_db := bs "app" |}.
Definition bob_app : identity := {| id_user := bs "bob"; id_db := bs "app" |}.
Definition one_pool : poolSet core2 :=
  {| ps_pools := {[ann_app := {| pe_core := (2, 0); pe_lastUsed := 5 |}]}; ps_closed_cores := [];
     ps_maxTotal := 40; ps_maxPools := 1; ps_idleTTL := 0; ps_closed := false |}.

Lemma pool_get_safe_witness :
  let '(r, s') := get fst snd one_pool 10 [] [ann_app] [] bob_app (Some (0, 0)) in
  within s' /\
  (forall i e, ps_pools one_pool !! i = Some e -> in_use snd e ->
     exists e', ps_pools s' !! i = Some e' /\ pe_core e' = pe_core e) /\
  (exists gone, ps_closed_cores s' = ps_closed_cores one_pool ++ gone /\
     forall c, c ∈ gone -> exists i e, ps_pools one_pool !! i = Some e /\ pe_core e = c /\ ~ in_use snd e) /\
  (forall c, r = Ok c -> exists e, ps_pools s' !! bob_app = Some e /\ pe_core e = c /\
     forall e0, ps_pools one_pool !! bob_app = Some e0 -> pe_core e0 = c).
Proof.
  refine (pool_get_safe fst snd one_pool (snd (get fst snd one_pool 10 [] [ann_app] [] bob_app (Some (0, 0))))
    10 [] [ann_app] [] bob_app (Some (0, 0)) _ _ _).
  - split; by_decide.
  - reflexivity.
Defined.

(** The ceiling of a backend is only looked at when a pool is built: pools that
    exist keep growing past it, and a pool is built at the ceiling as soon as
    some idle pool could be closed, even one that holds no connection. *)
Definition two_pools : poolSet core2 :=
  {| ps_pools := <[bob_app := {| pe_core := (30, 30); pe_lastUsed := 5 |}]>
                 {[ann_app := {| pe_core := (30, 30); pe_lastUsed := 5 |}]};
     ps_closed_cores := []; ps_maxTotal := 40; ps_maxPools := 256; ps_idleTTL := 0; ps_closed := false |}.

Example ceiling_not_checked_for_existing_pools :
  totalLocked fst two_pools = 60 /\
  fst (get fst snd two_pools 10 [] [] [] ann_app None) = Ok (30, 30).
Proof. vm_compute. split; reflexivity. Qed.

Definition empty_idle_pool : poolSet core2 :=
  {| ps_pools := <[bob_app := {| pe_core := (0, 0); pe_lastUsed := 5 |}]>
                 {[ann_app := {| pe_core := (40, 40); pe_lastUsed := 5 |}]};
     ps_closed_cores := []; ps_maxTotal := 40; ps_maxPools := 256; ps_idleTTL := 0; ps_closed := false |}.

Example closing_an_empty_pool_makes_no_room :
  let '(r, s) := ensureRoomLocked fst snd empty_idle_pool [ann_app; bob_app] in
  r = Ok tt /\ totalLocked fst s = 40.
Proof. vm_compute. split; reflexivity. Qed.

(** C21: The number a backend reports as checked out, which the balancer
    weighs it by and draining waits on, is exactly the number of connections
    held, through any interleaving of acquisitions, releases, health checks and
    role changes, and every connection held is marked busy. *)
Theorem checkout_accounting (role : Role) (p : Server) (held : gset positive) :
  rtc sv_step (newServer role, ∅) (p, held) ->
  sv_checkedOut p = Z.of_nat (size held) /\
  (forall ref, ref ∈ held -> exists c, sv_conns p !! ref = Some c /\ c_busy c = true) /\
  (sv_draining p = true -> forall now done_at answer, fst (AcquireFor p now done_at answer) = Err ErrDraining).
Proof.
  intros H. apply accounted_reachable in H as [H1 H2]. split_and!; [done..|].
  intros Hd now d answer. unfold AcquireFor. by rewrite Hd.
Qed.

Definition acquired : Server :=
  snd (AcquireFor (newServer RolePrimary) 1 2 (EngineConn 1 (MarkReady (NewConn 1)))).

Lemma checkout_accounting_witness :
  sv_checkedOut (setRole acquired RoleReplica) = 1 /\
  (forall ref, ref ∈ ({[1%positive]} ∪ ∅ : gset positive) ->
     exists c, sv_conns (setRole acquired RoleReplica) !! ref = Some c /\ c_busy c = true) /\
  (true = true -> forall now done_at answer,
     fst (AcquireFor (setRole acquired RoleReplica) now done_at answer) = Err ErrDraining).
Proof.
  refine (checkout_accounting RolePrimary (setRole acquired RoleReplica) ({[1%positive]} ∪ ∅) _).
  eapply rtc_l; [apply (sv_acquire _ _ 1 2 (EngineConn 1 (MarkReady (NewConn 1)))); [reflexivity|set_solver]|].
  apply rtc_once. apply sv_role_change.
Defined.

(** A primary demoted while nobody holds one of its connections never
    serves again: draining only ends when a connection is released, and no
    connection is handed out while draining.  Every later acquisition is
    refused, whatever happens, a promotion back to primary included. *)
Theorem idle_demotion_is_final (p p' : Server) (held' : gset positive) :
  sv_role p = RolePrimary ->
  rtc sv_step (setRole p RoleReplica, ∅) (p', held') ->
  held' = ∅ /\ sv_draining p' = true /\
  forall now done_at answer, fst (AcquireFor p' now done_at answer) = Err ErrDraining.
Proof.
  intros Hr H. assert (stuck (setRole p RoleReplica, ∅)) as H0.
  { split; [|done]. unfold setRole. by rewrite decide_True by done. }
  assert (stuck (p', held')) as [Hd Hh].
  { remember (p', held') as st' eqn:E. clear E.
    induction H as [st|st1 st2 st3 Hs _ IH]; [done|]. apply IH. by eapply stuck_step. }
  cbn [fst snd] in *. split_and!; [done..|]. intros now d answer. unfold AcquireFor. by rewrite Hd.
Qed.

Lemma idle_demotion_is_final_witness :
  (∅ : gset positive) = ∅ /\ true = true /\
  forall now done_at answer,
    fst (AcquireFor (setRole (setRole (newServer RolePrimary) RoleReplica) RolePrimary) now done_at answer) =
    Err ErrDraining.
Proof.
  refine (idle_demotion_is_final (newServer RolePrimary)
    (setRole (setRole (newServer RolePrimary) RoleReplica) RolePrimary) ∅ _ _).
  - reflexivity.
  - apply rtc_once. apply sv_role_change.
Defined.

(** A replica that lost its stream is not read from until it has streamed
    without interruption for the dwell interval.  Over any observations, with
    the policy enabled, it is fit to serve reads exactly when a streaming run
    is going on and either the stream never stopped before or the first
    observation of this run is at least the interval old. *)
Theorem reattach_dwell (obs : list (Z * bool)) (dwell now : Z) :
  Forall (fun o => 0 < fst o) obs ->
  (IsReplicating RoleReplica (true, dwell) (observe obs) now = true <->
   exists start, run_start (rev obs) None = Some start /\
     (ever_stopped obs = false \/ dwell <= now - start)) /\
  IsReplicating RolePrimary (true, dwell) (observe obs) now = true.
Proof.
  intros Hpos. destruct (observe_spec obs) as (H1 & H2 & H3).
  assert (forall start, run_start (rev obs) None = Some start -> start <> 0) as Hne.
  { intros start Hs. assert (forall ro st, Forall (fun o : Z * bool => 0 < fst o) ro ->
      match st with Some x => 0 < x | None => True end ->
      match run_start ro st with Some x => 0 < x | None => True end) as Hr.
    { induction ro as [|[t []] ro IH]; intros st Hf Hst; cbn [run_start]; [done| |done].
      inversion Hf; subst. by apply IH. }
    specialize (Hr (rev obs) None). rewrite Hs in Hr.
    assert (0 < start); [|lia]. apply Hr; [|done]. rewrite List.Forall_forall in *.
    intros x Hx. apply Hpos, in_rev, Hx. }
  split; [|done]. unfold IsReplicating. rewrite decide_False by (by intros []). cbn [negb].
  rewrite H1, H3. destruct (run_start (rev obs) None) as [start|] eqn:E.
  - rewrite bool_decide_true by eauto. cbn [negb]. specialize (H2 _ eq_refl). specialize (Hne _ eq_refl).
    rewrite H2. destruct (ever_stopped obs); cbn [negb].
    + rewrite decide_False by done. rewrite bool_decide_eq_true. naive_solver.
    + naive_solver.
  - rewrite bool_decide_false by (intros [? ?]; done). cbn [negb]. naive_solver.
Qed.

Lemma reattach_dwell_witness :
  (IsReplicating RoleReplica (true, 60) (observe [(1, true); (5, false); (9, true); (20, true)]) 70 = true <->
   exists start, run_start (rev [(1, true); (5, false); (9, true); (20, true)]) None = Some start /\
     (ever_stopped [(1, true); (5, false); (9, true); (20, true)] = false \/ 60 <= 70 - start)) /\
  IsReplicating RolePrimary (true, 60) (observe [(1, true); (5, false); (9, true); (20, true)]) 70 = true.
Proof.
  refine (reattach_dwell [(1, true); (5, false); (9, true); (20, true)] 60 70 _).
  apply List.Forall_forall. intros x Hx. repeat destruct Hx as [<-|Hx]; first [by_decide | done].
Defined.

(** A connection recycled for the next client carries nothing of the last. *)
Lemma Recyclable_clean exec has_handler c c' :
  Recyclable exec has_handler c = (true, c') ->
  exec (bs "ROLLBACK") = true /\ exec resetQuery = true /\ NeedsCleanup c' = false /\
  (forall n, HasStatement c' n = false) /\ Dead (Some c') = false.
Proof.
  unfold Recyclable. destruct (Dead (Some c)) eqn:Ed; [done|]. destruct has_handler; [|done].
  destruct (exec (bs "ROLLBACK")); [|done]. destruct (exec resetQuery); [|done].
  intros [= <-]. split_and!; try done.
Qed.

(** A per-database rule only ever lowers a ceiling. *)
Lemma ceilingFor_min configured limit :
  0 < configured -> ceilingFor configured limit = if decide (0 < limit) then Z.min configured limit else configured.
Proof. intros H. unfold ceilingFor. repeat case_decide; lia. Qed.

(** The breaker counts every failed acquisition: five clients that waited in
    vain for a connection of a busy pool open it, and the next one is refused
    although the backend never failed to answer. *)
Example exhausted_waits_open_breaker :
  let wait p now := snd (AcquireFor p now (now + 5) (EngineErr true)) in
  let p := wait (wait (wait (wait (wait (newServer RolePrimary) 1) 2) 3) 4) 5 in
  fst (AcquireFor p 20 21 (EngineConn 1 (NewConn 0))) = Err ErrCircuitOpen /\ sv_healthy p = true.
Proof. vm_compute. done. Qed.
