(* ===== verification/Probes.v ===== *)
(** * Probes: the statements Pontus runs itself on a server connection

    protocol/postgres_handler.go from [DeepCheck] to [queryInt64],
    protocol/slot_stats.go, and [deepCheck] of pool/server.go, which runs them.

    A connection is a script ([conn]): whether each write succeeds and what each
    read returns.  A probe is a computation in the monad [Probe], which passes the
    connection on, so that what a probe leaves unread is what the next one reads.
    A probe that needs a read the script does not have is [Waiting].

    The scalar probes look at every read on its own, from its first byte
    ([scan_read]); [querySimple] joins the reads first.  [query_rows_exact] shows
    the second returns the reply's rows wherever the reads are cut,
    [probes_agree_with_rows] that the first agree with it when every read holds
    whole messages, and the examples after them what happens when one does not. *)
From Stdlib Require Import ZArith Lia Strings.String.
From stdpp Require Import base gmap list numbers option.
From S2P Require Import Prelude Wire Scanner Startup Health Pool.

(** ** Connections *)

Inductive read := Data (b : bytes) | Failed.

Record conn := { cn_writes : list bool; cn_reads : list read; cn_sent : list bytes }.

Inductive probe_err :=
| PWrite                       (* [conn.Write] failed *)
| PRead                        (* [conn.Read] failed *)
| PRefused (text : bytes)      (* an ErrorResponse *)
| PName (e : name_err)         (* a slot or plugin name was not accepted *)
| PContext.                    (* the context was done *)

Inductive outcome (A : Type) := Waiting | Finished (r : result probe_err A) (c : conn).
Arguments Waiting {A}.
Arguments Finished {A} r c.

Definition Probe (A : Type) := conn -> outcome A.

#[global] Instance Probe_ret : MRet Probe := fun A a c => Finished (Ok a) c.
#[global] Instance Probe_bind : MBind Probe := fun A B k m c =>
  match m c with
  | Waiting => Waiting
  | Finished (Err e) c => Finished (Err e) c
  | Finished (Ok a) c => k a c
  end.

Definition fail {A} (e : probe_err) : Probe A := fun c => Finished (Err e) c.

Definition blocked {A} : Probe A := fun _ => Waiting.

(** A call whose error the caller inspects. *)
Definition attempt {A} (m : Probe A) : Probe (result probe_err A) := fun c =>
  match m c with Waiting => Waiting | Finished r c => Finished (Ok r) c end.

Definition with_reads (c : conn) (reads : list read) : conn :=
  {| cn_writes := cn_writes c; cn_reads := reads; cn_sent := cn_sent c |}.

Definition conn_Write (p : bytes) : Probe unit := fun c =>
  match cn_writes c with
  | [] => Waiting
  | true :: w => Finished (Ok tt) {| cn_writes := w; cn_reads := cn_reads c; cn_sent := cn_sent c ++ [p] |}
  | false :: w => Finished (Err PWrite) {| cn_writes := w; cn_reads := cn_reads c; cn_sent := cn_sent c |}
  end.

(** The payload every probe assembles: a Query message. *)
Definition query_payload (query : bytes) : bytes :=
  ch "Q" :: put_uint32 (4 + zlen query + 1) ++ query ++ [NUL].

(** ** Reading a reply one read at a time

    [visit] is the body of the loop before the header is measured, on the bytes
    from the current message to the end of the read; [Stop] is a return. *)

Inductive verdict (St R : Type) := Next (s : St) | Stop (s : St) (r : R).
Arguments Next {St R} s.
Arguments Stop {St R} s r.

Section Loop.
Context {St A : Type} (visit : St -> bytes -> verdict St (result probe_err A)).

Fixpoint scan_read (fuel : nat) (s : St) (data : bytes) : verdict St (result probe_err A) :=
  match fuel with
  | O => Next s
  | S fuel =>
      match data with
      | [] => Next s
      | _ =>
          match visit s data with
          | Stop s r => Stop s r
          | Next s =>
              match data with
              | _ :: a :: b :: c :: d :: _ =>
                  scan_read fuel s (zdrop (1 + be_uint32 a b c d) data)
              | _ => Next s
              end
          end
      end
  end.

Fixpoint probe_loop (s : St) (reads : list read) : option (result probe_err A * St * list read) :=
  match reads with
  | [] => None
  | Failed :: reads => Some (Err PRead, s, reads)
  | Data data :: reads =>
      match scan_read (length data) s data with
      | Stop s r => Some (r, s, reads)
      | Next s => probe_loop s reads
      end
  end.

Definition read_reply (s : St) : Probe A := fun c =>
  match probe_loop s (cn_reads c) with
  | None => Waiting
  | Some (r, _, reads) => Finished r (with_reads c reads)
  end.

(** The loops of [CollectMetrics] and [queryInt64] test for a whole header first. *)
Definition framed : St -> bytes -> verdict St (result probe_err A) := fun s data =>
  match data with
  | _ :: _ :: _ :: _ :: _ :: _ => visit s data
  | _ => Next s
  end.

End Loop.

Definition tag_of (data : bytes) : byte := default NUL (head data).

(** [buf[i+11]], where the value of the first column of a DataRow starts. *)
Definition first_byte (data : bytes) : option byte := data !! 11%nat.

(** The value of the first column of the DataRow at the front of [data], where
    the read holds all of it: [i+11 < n && colLen > 0 && i+11+colLen <= n], of
    which the first condition follows from the others. *)
Definition first_column (data : bytes) : option bytes :=
  match drop 7 data with
  | a :: b :: c :: d :: rest =>
      let colLen := be_uint32 a b c d in
      if decide (0 < colLen /\ colLen <= zlen rest) then Some (ztake colLen rest) else None
  | _ => None
  end.

(** ** [fmt.Sscanf] with one verb

    Leading white space is skipped, except that a line break is an error; the
    longest prefix that looks like a number is converted, the rest ignored. *)

Fixpoint skip_space (fuel : nat) (s : bytes) : option bytes :=
  match fuel with
  | O => Some s
  | S fuel =>
      match s with
      | [] => Some []
      | c :: _ =>
          if decide (bval c = 10) then None
          else match strip_one s with Some r => skip_space fuel r | None => Some s end
      end
  end.

Definition is_digit (c : byte) : bool := bool_decide (is_Some (digit_value c)).

Fixpoint span_digits (s : bytes) : bytes * bytes :=
  match s with
  | c :: r => if is_digit c then let '(ds, rest) := span_digits r in (c :: ds, rest) else ([], s)
  | [] => ([], [])
  end.

Definition accept_sign (s : bytes) : bytes * bytes :=
  match s with
  | c :: r => if decide (c = ch "+" \/ c = ch "-") then ([c], r) else ([], s)
  | [] => ([], [])
  end.

(** The verb d into an int64. *)
Definition Sscanf_d (s : bytes) : option Z :=
  s ← skip_space (length s) s;
  let '(sign, s) := accept_sign s in
  ParseInt64 (sign ++ fst (span_digits s)).

(** The verb f: a decimal, as the exact number [dec_m] times ten to [dec_e].
    Hexadecimal, infinite and not-a-number forms, which PostgreSQL does not send for
    an interval's seconds, are not numbers here. *)
Record decimal := { dec_m : Z; dec_e : Z }.

Definition scan_exponent (s : bytes) : option Z :=
  match s with
  | c :: r =>
      if decide (c = ch "e" \/ c = ch "E") then
        let '(sign, r) := accept_sign r in
        n ← parse_udec (fst (span_digits r));
        Some (if decide (sign = [ch "-"]) then - n else n)
      else Some 0
  | [] => Some 0
  end.

Definition Sscanf_f (s : bytes) : option decimal :=
  s ← skip_space (length s) s;
  let '(sign, s) := accept_sign s in
  let '(whole, s) := span_digits s in
  let '(frac, s) := match s with
                    | c :: r => if decide (c = ch ".") then span_digits r else ([], s)
                    | [] => ([], [])
                    end in
  m ← parse_udec (whole ++ frac);
  e ← scan_exponent s;
  Some {| dec_m := if decide (sign = [ch "-"]) then - m else m; dec_e := e - zlen frac |}.

(** [time.Duration(lag * float64(time.Second))], truncated towards zero; of the exact
    decimal, where the code has the nearest float64. *)
Definition seconds (d : decimal) : Z :=
  let e := dec_e d + 9 in
  if decide (0 <= e) then dec_m d * 10 ^ e else Z.quot (dec_m d) (10 ^ (- e)).

(** ** The probes *)

Definition execute_visit (s : unit) (data : bytes) : verdict unit (result probe_err unit) :=
  if decide (tag_of data = ch "E") then Stop s (Err (PRefused data))
  else if decide (tag_of data = ch "Z") then Stop s (Ok tt)
  else Next s.

Definition Execute (query : bytes) : Probe unit :=
  _ ← conn_Write (query_payload query);
  read_reply execute_visit tt.

Definition DeepCheck : Probe unit := Execute (bs "SELECT 1").

Definition read_only_query : bytes := bs "SELECT pg_is_in_recovery()".

Definition flag_visit (isRecovery : bool) (data : bytes) : verdict bool (result probe_err bool) :=
  let isRecovery :=
    if decide (tag_of data = ch "D" /\ first_byte data = Some (ch "t")) then true else isRecovery in
  if decide (tag_of data = ch "Z") then Stop isRecovery (Ok isRecovery) else Next isRecovery.

Definition IsReadOnly : Probe bool :=
  _ ← conn_Write (query_payload read_only_query);
  read_reply flag_visit false.

Definition replication_lag_query : bytes :=
  bs "SELECT CASE WHEN pg_is_in_recovery() THEN COALESCE(EXTRACT(EPOCH FROM (now() - pg_last_xact_replay_timestamp())), 0) ELSE 0 END".

Definition lag_visit (d : decimal) (data : bytes) : verdict decimal (result probe_err Z) :=
  let d := if decide (tag_of data = ch "D")
           then match first_column data with Some v => default d (Sscanf_f v) | None => d end
           else d in
  if decide (tag_of data = ch "Z") then Stop d (Ok (seconds d)) else Next d.

Definition GetReplicationLag : Probe Z :=
  _ ← conn_Write (query_payload replication_lag_query);
  read_reply lag_visit {| dec_m := 0; dec_e := 0 |}.

Definition CreateReplicationSlot (slotName : bytes) : Probe unit :=
  match physical_slot_query slotName with
  | Err e => fail (PName e)
  | Ok query =>
      _ ← conn_Write (query_payload query);
      read_reply execute_visit tt
  end.

Definition CreateLogicalReplicationSlot (slotName plugin : bytes) : Probe unit :=
  match logical_slot_query slotName plugin with
  | Err e => fail (PName e)
  | Ok query => Execute query
  end.

Definition topology_query : bytes := bs "SELECT client_addr FROM pg_stat_replication".

Definition topology_visit (replicas : list bytes) (data : bytes)
  : verdict (list bytes) (result probe_err (list bytes)) :=
  let replicas := if decide (tag_of data = ch "D")
                  then match first_column data with
                       | Some addr => if decide (addr <> []) then replicas ++ [addr] else replicas
                       | None => replicas
                       end
                  else replicas in
  if decide (tag_of data = ch "Z") then Stop replicas (Ok replicas)
  else if decide (tag_of data = ch "E") then Stop replicas (Err (PRefused data))
  else Next replicas.

Definition DiscoverTopology : Probe (list bytes) :=
  _ ← conn_Write (query_payload topology_query);
  read_reply topology_visit [].

Definition lsn_query : bytes := bs "SELECT pg_current_wal_lsn()".

Definition lsn_visit (lsn : bytes) (data : bytes) : verdict bytes (result probe_err bytes) :=
  let lsn := if decide (tag_of data = ch "D") then default lsn (first_column data) else lsn in
  if decide (tag_of data = ch "Z") then Stop lsn (Ok lsn) else Next lsn.

Definition GetCurrentLSN : Probe bytes :=
  _ ← conn_Write (query_payload lsn_query);
  read_reply lsn_visit [].

(** [WaitLSN]: one round asks once; [ticks] is what the select after each
    unsuccessful round sees, a tick of the timer or the end of the context. *)
Definition wait_query (targetLSN : bytes) : bytes :=
  bs "SELECT pg_last_wal_replay_lsn() >= '" ++ targetLSN ++ bs "'::pg_lsn".

Fixpoint wait_rounds (targetLSN : bytes) (ticks : list bool) : Probe unit :=
  _ ← conn_Write (query_payload (wait_query targetLSN));
  mbind (M := Probe) (fun caughtUp : bool =>
  if caughtUp then mret tt
  else match ticks with
       | [] => blocked
       | false :: _ => fail PContext
       | true :: ticks => wait_rounds targetLSN ticks
       end) (read_reply flag_visit false).

Definition WaitLSN (targetLSN : bytes) (ticks : list bool) : Probe unit :=
  if decide (targetLSN = []) then mret tt else wait_rounds targetLSN ticks.

(** *** [CollectMetrics] *)

(** [CacheHitRatio] is the exact fraction instead of a float32. *)
Record DatabaseMetrics := {
  IsRecovery : bool; ActiveBackends : Z; MaxBackends : Z; TransactionsCommitted : Z;
  TransactionsRolledBack : Z; BlocksRead : Z; BlocksHit : Z; Conflicts : Z; Deadlocks : Z;
  CacheHitRatio : Z * Z; ReplicationLagBytes : Z
}.

Definition no_metrics : DatabaseMetrics :=
  {| IsRecovery := false; ActiveBackends := 0; MaxBackends := 0; TransactionsCommitted := 0;
     TransactionsRolledBack := 0; BlocksRead := 0; BlocksHit := 0; Conflicts := 0; Deadlocks := 0;
     CacheHitRatio := (0, 1); ReplicationLagBytes := 0 |}.

(** The switch on the column, and the three fields set outside the loop. *)
Definition set_column (col : nat) (v : Z) (m : DatabaseMetrics) : DatabaseMetrics :=
  let pick (i : nat) (old : Z) := if decide (col = i) then v else old in
  {| IsRecovery := IsRecovery m; ActiveBackends := pick 0%nat (ActiveBackends m);
     MaxBackends := pick 1%nat (MaxBackends m);
     TransactionsCommitted := pick 2%nat (TransactionsCommitted m);
     TransactionsRolledBack := pick 3%nat (TransactionsRolledBack m);
     BlocksRead := pick 4%nat (BlocksRead m); BlocksHit := pick 5%nat (BlocksHit m);
     Conflicts := pick 6%nat (Conflicts m); Deadlocks := pick 7%nat (Deadlocks m);
     CacheHitRatio := CacheHitRatio m; ReplicationLagBytes := ReplicationLagBytes m |}.

Definition set_derived (recovery : bool) (ratio : Z * Z) (lagBytes : Z) (m : DatabaseMetrics)
  : DatabaseMetrics :=
  {| IsRecovery := recovery; ActiveBackends := ActiveBackends m; MaxBackends := MaxBackends m;
     TransactionsCommitted := TransactionsCommitted m;
     TransactionsRolledBack := TransactionsRolledBack m; BlocksRead := BlocksRead m;
     BlocksHit := BlocksHit m; Conflicts := Conflicts m; Deadlocks := Deadlocks m;
     CacheHitRatio := ratio; ReplicationLagBytes := lagBytes |}.

Definition metrics_query : bytes := bs "
		SELECT 
			(SELECT count(*) FROM pg_stat_activity),
			(SELECT setting::int FROM pg_settings WHERE name = 'max_connections'),
			sum(xact_commit), 
			sum(xact_rollback), 
			sum(blks_read), 
			sum(blks_hit), 
			sum(conflicts), 
			sum(deadlocks)
		FROM pg_stat_database
	".

(** The loop over the columns; [rest] is what the message and the read both
    hold from the current position on. *)
Fixpoint metric_columns (n col : nat) (rest : bytes) (m : DatabaseMetrics) : DatabaseMetrics :=
  match n with
  | O => m
  | S n =>
      match rest with
      | a :: b :: c :: d :: rest =>
          let colLen := i32 (be_uint32 a b c d) in
          if decide (0 < colLen /\ colLen <= zlen rest)
          then metric_columns n (S col) (zdrop colLen rest)
                 (set_column col (default 0 (Sscanf_d (ztake colLen rest))) m)
          else metric_columns n (S col) rest m
      | _ => m
      end
  end.

Definition framed_length (data : bytes) : Z :=
  match data with _ :: a :: b :: c :: d :: _ => 1 + be_uint32 a b c d | _ => 0 end.

Definition metrics_visit (m : DatabaseMetrics) (data : bytes)
  : verdict DatabaseMetrics (result probe_err DatabaseMetrics) :=
  let m := if decide (tag_of data = ch "D")
           then metric_columns 8 0 (drop 7 (ztake (framed_length data) data)) m else m in
  if decide (tag_of data = ch "Z") then Stop m (Ok m)
  else if decide (tag_of data = ch "E") then Stop m (Err (PRefused (ztake (framed_length data) data)))
  else Next m.

(** [queryInt64] writes its target as it reads, so the target is part of the
    answer whatever the error. *)
Definition int64_visit (target : Z) (data : bytes) : verdict Z (result probe_err unit) :=
  let target := if decide (tag_of data = ch "D")
                then match first_column data with
                     | Some v => default target (Sscanf_d v)
                     | None => target
                     end
                else target in
  if decide (tag_of data = ch "Z") then Stop target (Ok tt)
  else if decide (tag_of data = ch "E") then Stop target (Err (PRefused (ztake (framed_length data) data)))
  else Next target.

Definition queryInt64 (query : bytes) (target : Z) : Probe (result probe_err unit * Z) := fun c =>
  match conn_Write (query_payload query) c with
  | Waiting => Waiting
  | Finished (Err e) c => Finished (Ok (Err e, target)) c
  | Finished (Ok _) c =>
      match probe_loop (framed int64_visit) target (cn_reads c) with
      | None => Waiting
      | Some (r, target, reads) => Finished (Ok (r, target)) (with_reads c reads)
      end
  end.

Definition lag_bytes_query : bytes :=
  bs "SELECT pg_wal_lsn_diff(pg_last_wal_receive_lsn(), pg_last_wal_replay_lsn())".

Definition cache_hit_ratio (m : DatabaseMetrics) : Z * Z :=
  let total := i64 (BlocksHit m + BlocksRead m) in
  if decide (0 < total) then (BlocksHit m, total) else CacheHitRatio m.

Definition CollectMetrics : Probe DatabaseMetrics :=
  recovery ← attempt IsReadOnly;
  let isRecovery := match recovery with Ok b => b | Err _ => false end in
  _ ← conn_Write (query_payload metrics_query);
  m ← read_reply (framed metrics_visit) (set_derived isRecovery (0, 1) 0 no_metrics);
  let ratio := cache_hit_ratio m in
  if isRecovery then
    answer ← queryInt64 lag_bytes_query (ReplicationLagBytes m);
    mret (set_derived isRecovery ratio (snd answer) m)
  else mret (set_derived isRecovery ratio (ReplicationLagBytes m) m).

(** ** slot_stats.go *)

(** [parseDataRow]. *)
Fixpoint parse_columns (count : nat) (rest : bytes) : option (list bytes) :=
  match count with
  | O => Some []
  | S count =>
      match rest with
      | a :: b :: c :: d :: rest =>
          let size := i32 (be_uint32 a b c d) in
          if decide (size < 0) then cons [] <$> parse_columns count rest
          else if decide (zlen rest < size) then None
          else cons (ztake size rest) <$> parse_columns count (zdrop size rest)
      | _ => None
      end
  end.

Definition parseDataRow (body : bytes) (cols : Z) : option (list bytes) :=
  match body with
  | a :: b :: rest =>
      let count := be_uint16 a b in
      if decide (count < cols) then None else parse_columns (Z.to_nat count) rest
  | _ => None
  end.

(** [errorMessageText]. *)
Fixpoint error_text_loop (fuel : nat) (body : bytes) : bytes :=
  match fuel with
  | O => bs "unknown error"
  | S fuel =>
      match body with
      | [] => bs "unknown error"
      | tag :: rest =>
          if decide (tag = NUL) then bs "unknown error"
          else
            let '(value, rest) := default (rest, []) (cut rest NUL) in
            if decide (tag = ch "M") then value else error_text_loop fuel rest
      end
  end.

Definition errorMessageText (body : bytes) : bytes := error_text_loop (S (length body)) body.

(** [querySimple]: the bytes not yet framed, the rows and the last error text. *)
Record simple_state := { ss_pending : bytes; ss_rows : list (list bytes); ss_err : bytes }.

Definition on_message (cols : Z) (s : simple_state) (msgType : byte) (body : bytes)
  : verdict simple_state (result probe_err (list (list bytes))) :=
  if decide (msgType = ch "D") then
    Next {| ss_pending := ss_pending s; ss_err := ss_err s;
            ss_rows := match parseDataRow body cols with
                       | Some row => ss_rows s ++ [row]
                       | None => ss_rows s
                       end |}
  else if decide (msgType = ch "E") then
    Next {| ss_pending := ss_pending s; ss_rows := ss_rows s; ss_err := errorMessageText body |}
  else if decide (msgType = ch "Z") then
    Stop s (if decide (ss_err s <> []) then Err (PRefused (ss_err s)) else Ok (ss_rows s))
  else Next s.

Fixpoint take_messages (fuel : nat) (cols : Z) (s : simple_state)
  : verdict simple_state (result probe_err (list (list bytes))) :=
  match fuel with
  | O => Next s
  | S fuel =>
      match ss_pending s with
      | msgType :: a :: b :: c :: d :: rest =>
          let msgLen := be_uint32 a b c d in
          if decide (msgLen < 4 \/ zlen (ss_pending s) < msgLen + 1) then Next s
          else
            let body := ztake (msgLen - 4) rest in
            let s := {| ss_pending := zdrop (msgLen - 4) rest; ss_rows := ss_rows s; ss_err := ss_err s |} in
            match on_message cols s msgType body with
            | Stop s r => Stop s r
            | Next s => take_messages fuel cols s
            end
      | _ => Next s
      end
  end.

(** [ctx k] is whether the context is done before the read numbered [k]. *)
Fixpoint simple_loop (cols : Z) (ctx : nat -> bool) (k : nat) (s : simple_state) (reads : list read)
  : option (result probe_err (list (list bytes)) * list read) :=
  if ctx k then Some (Err PContext, reads)
  else
    match reads with
    | [] => None
    | Failed :: reads => Some (Err PRead, reads)
    | Data b :: reads =>
        let pending := ss_pending s ++ b in
        match take_messages (length pending) cols
                {| ss_pending := pending; ss_rows := ss_rows s; ss_err := ss_err s |} with
        | Stop _ r => Some (r, reads)
        | Next s => simple_loop cols ctx (S k) s reads
        end
    end.

Definition simple_reply (ctx : nat -> bool) (cols : Z) : Probe (list (list bytes)) := fun c =>
  match simple_loop cols ctx 0 {| ss_pending := []; ss_rows := []; ss_err := [] |} (cn_reads c) with
  | None => Waiting
  | Some (r, reads) => Finished r (with_reads c reads)
  end.

Definition querySimple (ctx : nat -> bool) (query : bytes) (cols : Z) : Probe (list (list bytes)) :=
  _ ← conn_Write (query_payload query);
  simple_reply ctx cols.

Record SlotStat := {
  slot_Name : bytes; slot_Plugin : bytes; slot_SlotType : bytes; slot_Active : bool;
  slot_Database : bytes; slot_ConfirmedLSN : bytes; slot_RetainedBytes : Z
}.

Definition slotStatsQuery : bytes :=
  bs "SELECT slot_name, coalesce(plugin,''), slot_type, active, " ++
  bs "coalesce(database,''), coalesce(confirmed_flush_lsn::text,''), " ++
  bs "coalesce(pg_wal_lsn_diff(pg_current_wal_lsn(), restart_lsn)::bigint, 0) " ++
  bs "FROM pg_replication_slots".

(** The value [strconv.ParseInt] returns beside an error it has, for the text of
    a bigint: zero without a number, the bound past the range. *)
Definition parse_or_bound (s : bytes) : Z :=
  let '(sign, digits) := accept_sign s in
  match parse_udec digits with
  | None => 0
  | Some n => Z.max (- 2 ^ 63) (Z.min (2 ^ 63 - 1) (if decide (sign = [ch "-"]) then - n else n))
  end.

(** A row of the inventory; [None] where indexing the row would panic. *)
Definition slot_of_row (row : list bytes) : option SlotStat :=
  name ← row !! 0%nat; plugin ← row !! 1%nat; type ← row !! 2%nat; active ← row !! 3%nat;
  database ← row !! 4%nat; confirmed ← row !! 5%nat; retained ← row !! 6%nat;
  Some {| slot_Name := name; slot_Plugin := plugin; slot_SlotType := type;
          slot_Active := bool_decide (active = bs "t") || bool_decide (active = bs "true");
          slot_Database := database; slot_ConfirmedLSN := confirmed;
          slot_RetainedBytes := parse_or_bound retained |}.

Definition QuerySlotStats (ctx : nat -> bool) : Probe (option (list SlotStat)) :=
  rows ← querySimple ctx slotStatsQuery 7;
  mret (mapM slot_of_row rows).

(** ** [StartReplication]

    The retained startup packet goes to the server, then the authentication is
    relayed; [None] where nothing was retained or the packet was not written. *)
Definition StartReplication (StartupPacket : bytes) (writes : bool) (s : relay_state)
  : option (relay_state * relay_result) :=
  if decide (StartupPacket = []) then None
  else if negb writes then None
  else Some (relayAuth {| r_server := r_server s; r_client := r_client s; r_to_client := r_to_client s;
                          r_to_server := r_to_server s ++ StartupPacket; r_key := r_key s |}).

(** ** [deepCheck] of pool/server.go

    [admin] is the answer over the administrative session where one is
    configured, [system] the connection of the system pool where one could be
    acquired.  The answer is the verdict, the backend, the metrics stored and
    whether the connection was marked broken; [None] while a probe waits. *)
Definition set_lag (p : Server) (ns : Z) : Server :=
  {| sv_role := sv_role p; sv_healthy := sv_healthy p; sv_lastHealthy := sv_lastHealthy p;
     sv_draining := sv_draining p; sv_checkedOut := sv_checkedOut p; sv_breaker := sv_breaker p;
     sv_lag := ns; sv_reattach := sv_reattach p; sv_conns := sv_conns p |}.

Definition pooled_check (p : Server) (now : Z) : Probe (bool * Server * option DatabaseMetrics * bool) :=
  alive ← attempt DeepCheck;
  match alive with
  | Err _ => mret (false, SetHealthy p now false, None, true)
  | Ok _ =>
      let p := SetHealthy p now true in
      readOnly ← attempt IsReadOnly;
      let p := match readOnly with
               | Ok isReadOnly =>
                   let newRole := if isReadOnly : bool then RoleReplica else RolePrimary in
                   if decide (newRole <> sv_role p) then setRole p newRole else p
               | Err _ => p
               end in
      lag ← attempt GetReplicationLag;
      let p := match lag with Ok ns => set_lag p ns | Err _ => p end in
      metrics ← attempt CollectMetrics;
      mret (true, p, match metrics with Ok m => Some m | Err _ => None end, false)
  end.

Definition deepCheck (p : Server) (now : Z) (admin : option (option replicationStatus))
    (system : option conn) : option (bool * Server * option DatabaseMetrics * bool) :=
  match admin with
  | Some answer => let '(ok, p) := deepCheckAdmin p now answer in Some (ok, p, None, false)
  | None =>
      match system with
      | None => Some (false, SetHealthy p now false, None, false)
      | Some c =>
          match pooled_check p now c with
          | Finished (Ok r) _ => Some r
          | _ => None
          end
      end
  end.

(** ** Replies as lists of messages

    [rows_of] is what [querySimple] promises: the rows of the DataRows of the
    reply that have enough columns; [refusal] the text of its last error. *)

Definition rows_of (cols : Z) (msgs : list (byte * bytes)) : list (list bytes) :=
  omap (fun m => if decide (fst m = ch "D") then parseDataRow (snd m) cols else None) msgs.

Definition refusal (e : bytes) (msgs : list (byte * bytes)) : bytes :=
  foldl (fun e m => if decide (fst m = ch "E") then errorMessageText (snd m) else e) e msgs.

Definition answer_of (cols : Z) (msgs : list (byte * bytes)) : result probe_err (list (list bytes)) :=
  if decide (refusal [] msgs <> []) then Err (PRefused (refusal [] msgs)) else Ok (rows_of cols msgs).

Definition not_ready (m : byte * bytes) : Prop := fst m <> ch "Z".

(** [p] is the beginning of a message, or nothing. *)
Definition begun (p : bytes) (m : byte * bytes) : Prop := exists q, p ++ q = frame m /\ q <> [].

Lemma rows_of_app cols a b : rows_of cols (a ++ b) = rows_of cols a ++ rows_of cols b.
Proof. apply omap_app. Qed.

Lemma refusal_app e a b : refusal e (a ++ b) = refusal (refusal e a) b.
Proof. apply foldl_app. Qed.

Lemma frames_prefix msgs l r :
  l ++ r = frames msgs ->
  exists before after p, msgs = before ++ after /\ l = frames before ++ p /\ p ++ r = frames after /\
    (after = [] \/ exists m t, after = m :: t /\ begun p m).
Proof.
  revert l. induction msgs as [|m msgs IH]; intros l E.
  { apply app_eq_nil in E as [-> ->]. exists [], [], []. naive_solver. }
  rewrite frames_cons in E.
  destruct (decide (length l < length (frame m))%nat) as [Hl|Hl].
  - exists [], (m :: msgs), l. split_and!; [done|done|by rewrite frames_cons|right].
    exists m, msgs. split; [done|]. exists (drop (length l) (frame m)).
    split; [|intros H%(f_equal length); rewrite length_drop, length_nil in H; lia].
    rewrite <- (take_drop (length l) (frame m)) at 2. f_equal.
    apply (f_equal (take (length l))) in E. rewrite take_app_length in E.
    by rewrite take_app_le in E by lia.
  - assert (l = frame m ++ drop (length (frame m)) l) as El.
    { rewrite <- (take_drop (length (frame m)) l) at 1. f_equal.
      apply (f_equal (take (length (frame m)))) in E.
      by rewrite take_app_length, take_app_le in E by lia. }
    rewrite El, <- app_assoc in E. apply app_inv_head in E.
    destruct (IH _ E) as (b & a & p & -> & Ed & Ep & Ha).
    exists (m :: b), a, p. split_and!; [done| |done|done].
    by rewrite frames_cons, <- app_assoc, <- Ed.
Qed.

Lemma begun_length p m : begun p m -> (length p < length (frame m))%nat.
Proof.
  intros (q & <- & Hq). rewrite length_app. destruct q; [done|]. simpl. lia.
Qed.

(** A message not yet whole is left pending. *)
Lemma take_messages_begun fuel cols p m rows err :
  sized m -> begun p m ->
  let s := {| ss_pending := p; ss_rows := rows; ss_err := err |} in
  take_messages fuel cols s = Next s.
Proof.
  intros Hm (q & E & Hq) s. subst s. destruct fuel as [|fuel]; [done|].
  cbn [take_messages ss_pending].
  destruct m as [t payload]. unfold frame in E. cbn [fst snd] in E.
  destruct (appendTagged_cases t payload Hm) as (a & b & c & d & Ef & Hv). rewrite Ef in E.
  destruct p as [|x0 [|x1 [|x2 [|x3 [|x4 p]]]]]; [done..|].
  cbn [app] in E. injection E as -> -> -> -> -> E. cbv zeta. rewrite Hv, decide_True; [done|right].
  rewrite <- E, zlen_app. destruct q; [done|]. zlia.
Qed.

Lemma take_messages_step fuel cols t payload rest rows err :
  sized (t, payload) ->
  take_messages (S fuel) cols
    {| ss_pending := frame (t, payload) ++ rest; ss_rows := rows; ss_err := err |} =
  match on_message cols {| ss_pending := rest; ss_rows := rows; ss_err := err |} t payload with
  | Stop s r => Stop s r
  | Next s => take_messages fuel cols s
  end.
Proof.
  intros Hm. unfold frame. cbn [fst snd take_messages ss_pending].
  destruct (appendTagged_cases t payload Hm) as (a & b & c & d & -> & Hv). cbn [app]. cbv zeta.
  rewrite Hv, decide_False.
  - replace (zlen payload + 4 - 4) with (zlen payload) by lia. by rewrite ztake_app, zdrop_app.
  - pose proof (zlen_nonneg payload). pose proof (zlen_nonneg rest). zlen_simpl. lia.
Qed.

Lemma on_message_next cols p rows err t payload :
  t <> ch "Z" ->
  on_message cols {| ss_pending := p; ss_rows := rows; ss_err := err |} t payload =
  Next {| ss_pending := p; ss_rows := rows ++ rows_of cols [(t, payload)];
          ss_err := refusal err [(t, payload)] |}.
Proof.
  intros Ht. unfold on_message, rows_of, refusal. simpl.
  destruct (decide (t = ch "D")) as [->|]; [|destruct (decide (t = ch "E")) as [->|]].
  - rewrite decide_False by done. destruct (parseDataRow payload cols); simpl; by rewrite ?app_nil_r.
  - by rewrite app_nil_r.
  - rewrite decide_False by done. by rewrite app_nil_r.
Qed.

Lemma take_messages_frames msgs : forall fuel cols p rows err,
  Forall sized msgs -> Forall not_ready msgs -> (length msgs <= fuel)%nat ->
  take_messages fuel cols {| ss_pending := frames msgs ++ p; ss_rows := rows; ss_err := err |} =
  take_messages (fuel - length msgs) cols
    {| ss_pending := p; ss_rows := rows ++ rows_of cols msgs; ss_err := refusal err msgs |}.
Proof.
  induction msgs as [|[t payload] msgs IH]; intros fuel cols p rows err Hs Hn Hf.
  { simpl. by rewrite app_nil_r, Nat.sub_0_r. }
  apply Forall_cons_iff in Hs as [Hm Hs]. apply Forall_cons_iff in Hn as [Ht Hn].
  destruct fuel as [|fuel]; [simpl in Hf; lia|].
  rewrite frames_cons, <- app_assoc, take_messages_step, on_message_next by done.
  rewrite IH by (done || (simpl in Hf; lia)). simpl length. rewrite Nat.sub_succ.
  by rewrite <- app_assoc, <- rows_of_app, <- refusal_app.
Qed.

Lemma app_eq_app_last_inv {A} (todo before : list A) z m t :
  todo ++ [z] = before ++ m :: t -> exists todo', todo = before ++ todo' /\ m :: t = todo' ++ [z].
Proof.
  revert before. induction todo as [|x todo IH]; intros [|y before] E; simpl in *.
  - exists []. by split.
  - injection E as -> E. by destruct before.
  - exists (x :: todo). by split.
  - injection E as -> E. destruct (IH _ E) as (t' & -> & Et). by exists t'.
Qed.

Lemma simple_loop_exact cols ctx z : forall chunks pre todo k p,
  (forall k, ctx k = false) ->
  Forall sized (todo ++ [(ch "Z", z)]) -> Forall not_ready todo ->
  [] ∉ chunks ->
  p ++ concat chunks = frames (todo ++ [(ch "Z", z)]) ->
  (forall m t, todo ++ [(ch "Z", z)] = m :: t -> begun p m) ->
  forall rest,
  simple_loop cols ctx k
    {| ss_pending := p; ss_rows := rows_of cols pre; ss_err := refusal [] pre |}
    (map Data chunks ++ rest) = Some (answer_of cols (pre ++ todo), rest).
Proof.
  induction chunks as [|b chunks IH]; intros pre todo k p Hctx Hs Hn Hne E Hb rest.
  { exfalso. simpl in E. rewrite app_nil_r in E.
    destruct (todo ++ [(ch "Z", z)]) as [|m t] eqn:Em; [by destruct todo|].
    pose proof (begun_length _ _ (Hb m t eq_refl)) as Hl. rewrite E, frames_cons, length_app in Hl. lia. }
  apply not_elem_of_cons in Hne as [Hb0 Hne]. simpl in E. rewrite app_assoc in E.
  cbn [map app simple_loop]. rewrite Hctx. cbn [ss_pending ss_rows ss_err].
  destruct (frames_prefix _ _ _ E) as (before & after & p' & Em & Ep & Er & Ha).
  rewrite Ep. destruct Ha as [->|(m & t & -> & Hbeg)].
  - apply app_eq_nil in Er as [-> Ec]. rewrite app_nil_r in *. subst before.
    assert (chunks = []) as ->.
    { destruct chunks as [|c0 ?]; [done|]. simpl in Ec. apply app_eq_nil in Ec as [-> _].
      exfalso. apply Hne. left. }
    apply Forall_app in Hs as [Hs Hz]. apply Forall_cons_iff in Hz as [Hz _].
    rewrite frames_app, frames_one. pose proof (length_frames todo).
    rewrite take_messages_frames by (done || (rewrite length_app; lia)).
    set (fuel := (_ - _)%nat).
    assert (0 < fuel)%nat as Hfuel.
    { subst fuel. rewrite length_app. pose proof (frame_length (ch "Z", z)). lia. }
    destruct fuel as [|fuel]; [lia|].
    rewrite <- (app_nil_r (frame (ch "Z", z))), take_messages_step by done.
    unfold on_message. cbn [ss_err ss_rows]. rewrite !decide_False by done. rewrite decide_True by done.
    unfold answer_of. by rewrite <- rows_of_app, <- refusal_app.
  - destruct (app_eq_app_last_inv todo before (ch "Z", z) m t Em) as (todo' & -> & Et).
    apply Forall_app in Hn as [Hn1 Hn2]. rewrite <- app_assoc in Hs.
    apply Forall_app in Hs as [Hs1 Hs2]. pose proof (length_frames before).
    rewrite take_messages_frames by (done || (rewrite length_app; lia)).
    rewrite (take_messages_begun _ _ _ m).
    2: { rewrite <- Et in Hs2. by apply Forall_cons_iff in Hs2 as [? _]. }
    2: done.
    rewrite <- rows_of_app, <- refusal_app.
    rewrite (IH (pre ++ before) todo'); try done.
    + by rewrite app_assoc.
    + by rewrite Er, Et.
    + intros m' t' Em'. rewrite <- Et in Em'. by injection Em' as <- <-.
Qed.

(** *** Reads that hold whole messages

    [buffer.DefaultBufferSize] bounds a read.  [scalar] is a message of the reply
    to a query for one column: its DataRows have one value, and it is not a
    ParameterDescription, which answers a Describe only. *)

Definition DefaultBufferSize : Z := 32 * 1024.

Definition scalar_row (v : option bytes) : bytes :=
  put_uint16 1 ++ match v with
                  | None => put_uint32 (2 ^ 32 - 1)
                  | Some v => put_uint32 (zlen v) ++ v
                  end.

Definition scalar (m : byte * bytes) : Prop :=
  fst m <> ch "t" /\ (fst m = ch "D" -> exists v, snd m = scalar_row v).

(** What one read returns. *)
Definition readable (msgs : list (byte * bytes)) : Prop :=
  msgs <> [] /\ Forall scalar msgs /\ zlen (frames msgs) <= DefaultBufferSize.

Definition values_of (msgs : list (byte * bytes)) : list bytes :=
  map (fun row => default [] (head row)) (rows_of 1 msgs).

Lemma tag_of_frames m more : tag_of (frames (m :: more)) = fst m.
Proof. done. Qed.

Lemma zlen_frames_cons m more : zlen (frames (m :: more)) = zlen (snd m) + 5 + zlen (frames more).
Proof. rewrite frames_cons, zlen_app. unfold frame at 1. by rewrite zlen_appendTagged. Qed.

Lemma put_uint16_one : put_uint16 1 = [byte_of 0; byte_of 1].
Proof. done. Qed.

Lemma parse_scalar_row v :
  zlen (scalar_row v) <= DefaultBufferSize -> parseDataRow (scalar_row v) 1 = Some [default [] v].
Proof.
  intros Hl. unfold parseDataRow, scalar_row in *. rewrite put_uint16_one in *. cbn [app].
  replace (be_uint16 _ _) with 1 by done. rewrite decide_False by lia. change (Z.to_nat 1) with 1%nat.
  destruct v as [v|]; [|done]. cbn [default].
  destruct (put_uint32_cases (zlen v)) as (a & b & c & d & E & Hv). rewrite E in *. cbn [app parse_columns].
  unfold DefaultBufferSize in Hl. pose proof (zlen_nonneg v). zlen_simpl.
  rewrite Hv, u32_small by lia. unfold i32. rewrite signed_id by lia.
  rewrite decide_False, decide_False by lia. simpl.
  by rewrite <- (app_nil_r v) at 2; rewrite ztake_app.
Qed.

Lemma first_column_row v more :
  zlen (frames ((ch "D", scalar_row v) :: more)) <= DefaultBufferSize ->
  first_column (frames ((ch "D", scalar_row v) :: more)) =
  match v with Some (x :: r) => Some (x :: r) | _ => None end.
Proof.
  intros Hl. rewrite zlen_frames_cons in Hl. cbn [snd] in Hl. unfold DefaultBufferSize in Hl.
  pose proof (zlen_nonneg (frames more)). pose proof (zlen_nonneg (scalar_row v)).
  assert (sized (ch "D", scalar_row v)) as Hs by (unfold sized; cbn [snd]; lia).
  rewrite frames_cons. unfold frame. cbn [fst snd].
  destruct (appendTagged_cases (ch "D") (scalar_row v) Hs) as (a & b & c & d & -> & _).
  unfold first_column, scalar_row in *. rewrite put_uint16_one in *.
  destruct v as [v|].
  - destruct (put_uint32_cases (zlen v)) as (a' & b' & c' & d' & E & Hv). rewrite E in *. cbn [app drop].
    pose proof (zlen_nonneg v). zlen_simpl. rewrite Hv, u32_small by lia.
    destruct v as [|x v]; [rewrite decide_False; [done|zlia]|].
    pose proof (zlen_nonneg v). rewrite decide_True by (zlen_simpl; lia). by rewrite ztake_app.
  - unfold put_uint32. cbn [app drop]. replace (be_uint32 _ _ _ _) with (2 ^ 32 - 1) by done.
    rewrite decide_False by lia. done.
Qed.

Lemma first_byte_row v more :
  zlen (frames ((ch "D", scalar_row v) :: more)) <= DefaultBufferSize -> Forall scalar more ->
  first_byte (frames ((ch "D", scalar_row v) :: more)) = Some (ch "t") <->
  exists r, v = Some (ch "t" :: r).
Proof.
  intros Hl Hm. rewrite zlen_frames_cons in Hl. cbn [snd] in Hl. unfold DefaultBufferSize in Hl.
  pose proof (zlen_nonneg (frames more)). pose proof (zlen_nonneg (scalar_row v)).
  assert (sized (ch "D", scalar_row v)) as Hs by (unfold sized; cbn [snd]; lia).
  assert (frames more !! 0%nat <> Some (ch "t")) as Ht.
  { destruct Hm as [|m more' [Hm _] _]; [done|]. rewrite frames_cons. simpl. congruence. }
  rewrite frames_cons. unfold frame. cbn [fst snd].
  destruct (appendTagged_cases (ch "D") (scalar_row v) Hs) as (a & b & c & d & -> & _).
  unfold first_byte, scalar_row in *. rewrite put_uint16_one in *.
  destruct v as [v|].
  - destruct (put_uint32_cases (zlen v)) as (a' & b' & c' & d' & E & Hv). rewrite E in *. cbn [app].
    change (_ !! 11%nat) with ((v ++ frames more) !! 0%nat).
    destruct v as [|x v]; simpl; naive_solver.
  - unfold put_uint32. cbn [app]. change (_ !! 11%nat) with (frames more !! 0%nat). naive_solver.
Qed.

(** *** A probe as a fold over the messages *)

Section Fold.
Context {St A : Type} (visit : St -> bytes -> verdict St (result probe_err A)).
Context (step : St -> byte * bytes -> St) (fin : St -> result probe_err A) (class : byte * bytes -> Prop).
Hypothesis visit_next : forall s m more,
  readable (m :: more) -> class m -> not_ready m -> visit s (frames (m :: more)) = Next (step s m).
Hypothesis visit_stop : forall s z more,
  readable ((ch "Z", z) :: more) -> visit s (frames ((ch "Z", z) :: more)) = Stop s (fin s).

Lemma readable_tail m more : readable (m :: more) -> more = [] \/ readable more.
Proof.
  intros (_ & Hs & Hl). destruct more as [|m' more]; [by left|right].
  apply Forall_cons_iff in Hs as [_ Hs]. split_and!; [done|done|].
  rewrite zlen_frames_cons in Hl. pose proof (zlen_nonneg (snd m)). lia.
Qed.

Lemma readable_sized m more : readable (m :: more) -> sized m.
Proof.
  intros (_ & _ & Hl). rewrite zlen_frames_cons in Hl. pose proof (zlen_nonneg (frames more)).
  unfold sized, DefaultBufferSize in *. lia.
Qed.

Lemma scan_read_frames msgs : forall more fuel s,
  (msgs ++ more = [] \/ readable (msgs ++ more)) -> Forall class msgs -> Forall not_ready msgs ->
  (length msgs <= fuel)%nat ->
  scan_read visit fuel s (frames (msgs ++ more)) =
  scan_read visit (fuel - length msgs) (foldl step s msgs) (frames more).
Proof.
  induction msgs as [|m msgs IH]; intros more fuel s Hr Hc Hn Hf; [by rewrite Nat.sub_0_r|].
  destruct Hr as [|Hr]; [done|]. simpl app in *.
  apply Forall_cons_iff in Hc as [Hm Hc]. apply Forall_cons_iff in Hn as [Hz Hn].
  destruct fuel as [|fuel]; [simpl in Hf; lia|].
  pose proof (readable_sized _ _ Hr) as Hs. pose proof (visit_next s m _ Hr Hm Hz) as Hv.
  rewrite frames_cons in *. unfold frame in *. destruct m as [t payload]. cbn [fst snd] in *.
  destruct (appendTagged_cases t payload Hs) as (a & b & c & d & E & Hl). rewrite E in *.
  cbn [app scan_read] in *. rewrite Hv, Hl.
  replace (1 + (zlen payload + 4)) with (zlen (t :: a :: b :: c :: d :: payload)) by (zlen_simpl; lia).
  pose proof (zdrop_app (t :: a :: b :: c :: d :: payload) (frames (msgs ++ more))) as Hd.
  cbn [app] in Hd. rewrite Hd, IH; [done|by eapply readable_tail|done|done|simpl in Hf; lia].
Qed.

Lemma probe_loop_groups z : forall groups pre s rest,
  concat groups = pre ++ [(ch "Z", z)] -> Forall readable groups ->
  Forall class pre -> Forall not_ready pre ->
  probe_loop visit s (map (fun g => Data (frames g)) groups ++ rest) =
  Some (fin (foldl step s pre), foldl step s pre, rest).
Proof.
  induction groups as [|g groups IH]; intros pre s rest E Hg Hc Hn; [by destruct pre|].
  apply Forall_cons_iff in Hg as [Hg Hgs]. cbn [map app probe_loop]. simpl in E.
  destruct (concat groups) as [|m t] eqn:Ec.
  - assert (groups = []) as ->.
    { destruct Hgs as [|g' ? Hg']; [done|]. simpl in Ec. apply app_eq_nil in Ec as [-> _].
      by destruct Hg'. }
    rewrite app_nil_r in E. subst g. pose proof (length_frames (pre ++ [(ch "Z", z)])) as Hl.
    rewrite length_app in Hl. simpl in Hl.
    rewrite scan_read_frames by (done || (by right) || lia).
    destruct (length (frames (pre ++ [(ch "Z", z)])) - length pre)%nat as [|fuel] eqn:Ef; [lia|].
    assert (readable [(ch "Z", z)]) as Hz.
    { destruct Hg as (_ & Hs & Hl'). apply Forall_app in Hs as [_ Hs]. split_and!; [done|done|].
      rewrite frames_app, zlen_app in Hl'. pose proof (zlen_nonneg (frames pre)). lia. }
    pose proof (visit_stop (foldl step s pre) z [] Hz) as Hv.
    rewrite frames_cons in *. unfold frame in *. cbn [fst snd] in *.
    destruct (appendTagged_cases (ch "Z") z (readable_sized _ _ Hz)) as (a & b & c & d & E & _).
    rewrite E in *. cbn [app scan_read] in *. by rewrite Hv.
  - destruct (app_eq_app_last_inv pre g (ch "Z", z) m t) as (pre' & -> & Et); [done|].
    apply Forall_app in Hc as [Hc1 Hc2]. apply Forall_app in Hn as [Hn1 Hn2].
    rewrite <- (app_nil_r g) at 2. pose proof (length_frames g).
    rewrite scan_read_frames by (rewrite ?app_nil_r; done || (by right) || lia).
    replace (scan_read _ _ _ (frames [])) with (Next (R:=result probe_err A) (foldl step s g))
      by (by destruct (_ - _)%nat).
    rewrite (IH pre'); [by rewrite foldl_app|congruence|done..].
Qed.

End Fold.

(** *** What each probe makes of the values of a reply *)

Definition flag_step (b : bool) (v : bytes) : bool := if decide (head v = Some (ch "t")) then true else b.
Definition lag_step (d : decimal) (v : bytes) : decimal := default d (Sscanf_f v).
Definition lsn_step (lsn v : bytes) : bytes := if decide (v = []) then lsn else v.
Definition topology_step (l : list bytes) (v : bytes) : list bytes := if decide (v = []) then l else l ++ [v].
Definition int64_step (n : Z) (v : bytes) : Z := default n (Sscanf_d v).

Definition no_error (m : byte * bytes) : Prop := fst m <> ch "E".

Definition by_value {St} (f : St -> bytes -> St) (s : St) (m : byte * bytes) : St := foldl f s (values_of [m]).

Lemma foldl_by_value {St} (f : St -> bytes -> St) msgs : forall s,
  foldl (by_value f) s msgs = foldl f s (values_of msgs).
Proof.
  induction msgs as [|m msgs IH]; intros s; [done|]. simpl. rewrite IH. unfold by_value.
  rewrite <- foldl_app. f_equal. unfold values_of. by rewrite <- map_app, <- rows_of_app.
Qed.

Lemma values_of_row v more :
  zlen (frames ((ch "D", scalar_row v) :: more)) <= DefaultBufferSize ->
  values_of [(ch "D", scalar_row v)] = [default [] v].
Proof.
  rewrite zlen_frames_cons. cbn [snd]. intros Hl. pose proof (zlen_nonneg (frames more)).
  unfold values_of, rows_of. cbn. rewrite parse_scalar_row by lia. done.
Qed.

Lemma values_of_other t b : t <> ch "D" -> values_of [(t, b)] = [].
Proof. intros Ht. unfold values_of, rows_of. cbn. by rewrite decide_False. Qed.

(** Every loop reads a value only from a DataRow; [on] is what it does then. *)
Lemma visit_value {St A} (visit : St -> bytes -> verdict St (result probe_err A)) f on s m more :
  readable (m :: more) ->
  (forall v, zlen (frames ((ch "D", scalar_row v) :: more)) <= DefaultBufferSize -> Forall scalar more ->
     on s (frames ((ch "D", scalar_row v) :: more)) = f s (default [] v)) ->
  visit s (frames (m :: more)) =
    Next (if decide (fst m = ch "D") then on s (frames (m :: more)) else s) ->
  visit s (frames (m :: more)) = Next (by_value f s m).
Proof.
  intros (_ & Hs & Hl) Hon ->. apply Forall_cons_iff in Hs as [[_ Hm] Hs]. destruct m as [t payload].
  cbn [fst snd] in *. unfold by_value. case_decide as Ht.
  - subst t. destruct Hm as [v ->]; [done|]. rewrite Hon by done. erewrite values_of_row by done. done.
  - by rewrite values_of_other.
Qed.

Lemma execute_next s m more :
  readable (m :: more) -> no_error m -> not_ready m ->
  execute_visit s (frames (m :: more)) = Next (by_value (fun s _ => s) s m).
Proof.
  intros _ He Hz. unfold execute_visit. rewrite tag_of_frames, !decide_False by done. by destruct s, by_value.
Qed.

Lemma flag_next s m more :
  readable (m :: more) -> no_error m -> not_ready m ->
  flag_visit s (frames (m :: more)) = Next (by_value flag_step s m).
Proof.
  intros Hr _ Hz.
  apply (visit_value _ flag_step (fun s data => if decide (first_byte data = Some (ch "t")) then true else s));
    [done| |].
  - intros v Hl Hm. unfold flag_step. apply decide_ext. rewrite first_byte_row by done.
    destruct v as [[|x v]|]; simpl; naive_solver.
  - unfold flag_visit. rewrite tag_of_frames. rewrite (decide_False (P := fst m = ch "Z")) by done.
    destruct (decide (fst m = ch "D")) as [Hd|Hd]; [|by rewrite decide_False by tauto].
    f_equal. apply decide_ext. tauto.
Qed.

Lemma lag_next s m more :
  readable (m :: more) -> no_error m -> not_ready m ->
  lag_visit s (frames (m :: more)) = Next (by_value lag_step s m).
Proof.
  intros Hr _ Hz.
  apply (visit_value _ lag_step (fun d data => match first_column data with Some v => default d (Sscanf_f v) | None => d end));
    [done| |].
  - intros v Hl _. rewrite first_column_row by done. by destruct v as [[|x v]|].
  - unfold lag_visit. rewrite tag_of_frames. by rewrite (decide_False (P := fst m = ch "Z")).
Qed.

Lemma lsn_next s m more :
  readable (m :: more) -> no_error m -> not_ready m ->
  lsn_visit s (frames (m :: more)) = Next (by_value lsn_step s m).
Proof.
  intros Hr _ Hz.
  apply (visit_value _ lsn_step (fun lsn data => default lsn (first_column data))); [done| |].
  - intros v Hl _. rewrite first_column_row by done. by destruct v as [[|x v]|].
  - unfold lsn_visit. rewrite tag_of_frames. by rewrite (decide_False (P := fst m = ch "Z")).
Qed.

Lemma topology_next s m more :
  readable (m :: more) -> no_error m -> not_ready m ->
  topology_visit s (frames (m :: more)) = Next (by_value topology_step s m).
Proof.
  intros Hr He Hz.
  apply (visit_value _ topology_step (fun l data =>
    match first_column data with Some a => if decide (a <> []) then l ++ [a] else l | None => l end));
    [done| |].
  - intros v Hl _. rewrite first_column_row by done. by destruct v as [[|x v]|].
  - unfold topology_visit. rewrite tag_of_frames.
    by rewrite (decide_False (P := fst m = ch "Z")), (decide_False (P := fst m = ch "E")).
Qed.

Lemma framed_frames {St A} (visit : St -> bytes -> verdict St (result probe_err A)) s m more :
  framed visit s (frames (m :: more)) = visit s (frames (m :: more)).
Proof. done. Qed.

Lemma int64_next s m more :
  readable (m :: more) -> no_error m -> not_ready m ->
  framed int64_visit s (frames (m :: more)) = Next (by_value int64_step s m).
Proof.
  intros Hr He Hz. rewrite framed_frames.
  apply (visit_value _ int64_step (fun n data =>
    match first_column data with Some v => default n (Sscanf_d v) | None => n end)); [done| |].
  - intros v Hl _. rewrite first_column_row by done. by destruct v as [[|x v]|].
  - unfold int64_visit. rewrite tag_of_frames.
    by rewrite (decide_False (P := fst m = ch "Z")), (decide_False (P := fst m = ch "E")).
Qed.

Lemma foldl_flag l b : foldl flag_step b l = b || existsb (fun v => bool_decide (head v = Some (ch "t"))) l.
Proof.
  revert b. induction l as [|v l IH]; intros b; simpl; [by rewrite orb_false_r|].
  rewrite IH. unfold flag_step. case_decide as H; [rewrite bool_decide_true by done|rewrite bool_decide_false by done];
    by rewrite ?orb_true_r, ?orb_false_l.
Qed.

Lemma foldl_topology l a : foldl topology_step a l = a ++ filter (.≠ []) l.
Proof.
  revert a. induction l as [|v l IH]; intros a; simpl; [by rewrite app_nil_r|].
  rewrite IH. unfold topology_step. rewrite filter_cons. repeat case_decide; try done.
  by rewrite <- app_assoc.
Qed.

Lemma foldl_lsn l a : foldl lsn_step a l = default a (list.last (filter (.≠ []) l)).
Proof.
  revert a. induction l as [|v l IH]; intros a; simpl; [done|].
  rewrite IH. unfold lsn_step. rewrite filter_cons. repeat case_decide; try done.
  rewrite last_cons. by destruct (list.last _).
Qed.

Lemma concat_frames groups : concat (map frames groups) = frames (concat groups).
Proof.
  induction groups as [|g groups IH]; [done|]. simpl. by rewrite frames_app, IH.
Qed.

Lemma rows_of_scalar pre groups z :
  concat groups = pre ++ [(ch "Z", z)] -> Forall readable groups ->
  rows_of 1 pre = map (fun v => [v]) (values_of pre) /\ Forall sized (pre ++ [(ch "Z", z)]).
Proof.
  intros E Hg. rewrite <- E.
  assert (Forall (fun m => sized m /\ (fst m = ch "D" -> exists v, snd m = scalar_row v /\
            parseDataRow (snd m) 1 = Some [default [] v])) (concat groups)) as H.
  { clear E. induction Hg as [|g groups (_ & Hs & Hl) _ IH]; simpl; [done|]. apply Forall_app. split; [|done].
    clear IH. induction Hs as [|m g [_ Hm] Hs IH]; [done|]. rewrite zlen_frames_cons in Hl.
    pose proof (zlen_nonneg (frames g)). pose proof (zlen_nonneg (snd m)).
    constructor; [|apply IH; lia]. split; [unfold sized, DefaultBufferSize in *; lia|].
    intros Ht. destruct (Hm Ht) as [v Ev]. exists v. split; [done|]. rewrite Ev in *.
    apply parse_scalar_row. lia. }
  split; [|eapply Forall_impl, H; naive_solver].
  rewrite E in H. apply Forall_app in H as [H _]. clear E. unfold values_of.
  induction H as [|m pre [_ Hm] _ IH]; [done|]. change (m :: pre) with ([m] ++ pre).
  rewrite rows_of_app, !map_app, <- IH. f_equal. destruct m as [t b]. unfold rows_of. simpl in *.
  destruct (decide (t = ch "D")) as [Ht|]; [|done]. by destruct (Hm Ht) as (v & _ & ->).
Qed.

Lemma no_error_refusal pre e : Forall no_error pre -> refusal e pre = e.
Proof.
  intros H. revert e. induction H as [|m pre Hm _ IH]; intros e; [done|].
  cbn. rewrite decide_False by done. apply IH.
Qed.

Lemma querySimple_exact ctx query cols pre z chunks w rest sent :
  (forall k, ctx k = false) ->
  Forall sized (pre ++ [(ch "Z", z)]) -> Forall not_ready pre ->
  [] ∉ chunks -> concat chunks = frames (pre ++ [(ch "Z", z)]) ->
  querySimple ctx query cols
    {| cn_writes := true :: w; cn_reads := map Data chunks ++ rest; cn_sent := sent |} =
  Finished (answer_of cols pre)
    {| cn_writes := w; cn_reads := rest; cn_sent := sent ++ [query_payload query] |}.
Proof.
  intros Hctx Hs Hn Hne E. unfold querySimple, mbind, Probe_bind, conn_Write, simple_reply.
  cbn [cn_writes cn_reads cn_sent].
  rewrite (simple_loop_exact cols ctx z chunks [] pre 0%nat []); try done.
  intros m t _. exists (frame m). split; [done|].
  intros H%(f_equal length). pose proof (frame_length m). rewrite length_nil in H. lia.
Qed.

(** ** Theorems *)

(** [querySimple] returns the reply's answer however the network cuts it: for
    every division of the reply into non-empty reads, the call sends the query,
    reads exactly the reply, and returns the rows of its DataRows in order, or
    the text of its last error where there is one.  The reads that follow stay on
    the connection. *)
Theorem query_rows_exact (ctx : nat -> bool) (query : bytes) (cols : Z)
    (pre : list (byte * bytes)) (z : bytes) (chunks : list bytes) (w : list bool) (rest : list read)
    (sent : list bytes) :
  (forall k, ctx k = false) ->
  Forall sized (pre ++ [(ch "Z", z)]) -> Forall not_ready pre ->
  [] ∉ chunks -> concat chunks = frames (pre ++ [(ch "Z", z)]) ->
  querySimple ctx query cols
    {| cn_writes := true :: w; cn_reads := map Data chunks ++ rest; cn_sent := sent |} =
  Finished (answer_of cols pre)
    {| cn_writes := w; cn_reads := rest; cn_sent := sent ++ [query_payload query] |}.
Proof. apply querySimple_exact. Qed.

Definition slot_row : bytes :=
  put_uint16 2 ++ put_uint32 3 ++ bs "cdc" ++ put_uint32 (2 ^ 32 - 1).

Definition slot_reply : list (byte * bytes) := [(ch "D", slot_row); (ch "C", bs "SELECT 1")].

(** The reply of one row arrives a byte at a time. *)
Lemma query_rows_exact_witness :
  querySimple (fun _ => false) (bs "SELECT") 2
    {| cn_writes := [true]; cn_sent := [];
       cn_reads := map Data (map (fun b => [b]) (frames (slot_reply ++ [(ch "Z", bs "I")]))) ++ [Failed] |} =
  Finished (Ok [[bs "cdc"; []]])
    {| cn_writes := []; cn_reads := [Failed]; cn_sent := [query_payload (bs "SELECT")] |}.
Proof.
  refine (query_rows_exact (fun _ => false) (bs "SELECT") 2 slot_reply (bs "I") _ [] [Failed] [] _ _ _ _ _).
  - done.
  - repeat constructor; by_decide.
  - repeat constructor; discriminate.
  - by_decide.
  - vm_compute. reflexivity.
Defined.

(** C23: Where every read holds whole messages, each of the probes that scan reads one
    by one returns what [querySimple] would: for a reply without an error whose
    rows have one column, the role, the lag, the position, the replicas and the
    number are those of the rows, and the reply is read to its end. *)
Theorem probes_agree_with_rows (groups : list (list (byte * bytes))) (pre : list (byte * bytes))
    (z : bytes) (w : list bool) (rest : list read) (sent : list bytes) :
  concat groups = pre ++ [(ch "Z", z)] ->
  Forall readable groups -> Forall not_ready pre -> Forall no_error pre ->
  let c := {| cn_writes := true :: w; cn_sent := sent;
              cn_reads := map (fun g => Data (frames g)) groups ++ rest |} in
  let after query := {| cn_writes := w; cn_reads := rest; cn_sent := sent ++ [query_payload query] |} in
  let values := values_of pre in
  (forall query, querySimple (fun _ => false) query 1 c =
                 Finished (Ok (map (fun v => [v]) values)) (after query)) /\
  (forall query, Execute query c = Finished (Ok tt) (after query)) /\
  IsReadOnly c = Finished (Ok (existsb (fun v => bool_decide (head v = Some (ch "t"))) values))
                   (after read_only_query) /\
  GetReplicationLag c = Finished (Ok (seconds (foldl lag_step {| dec_m := 0; dec_e := 0 |} values)))
                          (after replication_lag_query) /\
  DiscoverTopology c = Finished (Ok (filter (.≠ []) values)) (after topology_query) /\
  GetCurrentLSN c = Finished (Ok (default [] (list.last (filter (.≠ []) values)))) (after lsn_query) /\
  (forall query n, queryInt64 query n c =
                   Finished (Ok (Ok tt, foldl int64_step n values)) (after query)).
Proof.
  intros E Hg Hn He c after values. subst c after values.
  destruct (rows_of_scalar pre groups z E Hg) as [Hrows Hs].
  assert (forall St A (visit : St -> bytes -> verdict St (result probe_err A)) f fin s,
    (forall s m more, readable (m :: more) -> no_error m -> not_ready m ->
       visit s (frames (m :: more)) = Next (by_value f s m)) ->
    (forall s z more, readable ((ch "Z", z) :: more) -> visit s (frames ((ch "Z", z) :: more)) = Stop s (fin s)) ->
    probe_loop visit s (map (fun g => Data (frames g)) groups ++ rest) =
    Some (fin (foldl f s (values_of pre)), foldl f s (values_of pre), rest)) as Hloop.
  { intros St A visit f fin s H1 H2. rewrite <- (foldl_by_value f).
    by apply (probe_loop_groups visit (by_value f) fin no_error H1 H2 z). }
  split_and!; intros;
    unfold Execute, IsReadOnly, GetReplicationLag, DiscoverTopology, GetCurrentLSN, queryInt64, read_reply,
      mbind, Probe_bind, conn_Write; cbn [cn_writes cn_reads cn_sent].
  - rewrite <- (map_map frames Data groups), (querySimple_exact _ _ _ pre z).
    + unfold answer_of. rewrite no_error_refusal, decide_False by (done || tauto). by rewrite Hrows.
    + done.
    + done.
    + done.
    + intros (g & Hnil & Hin)%list_elem_of_fmap. rewrite list.Forall_forall in Hg.
      destruct (Hg g Hin) as [Hne _]. destruct g as [|m g]; [done|].
      apply (f_equal length) in Hnil. rewrite frames_cons, length_app in Hnil.
      pose proof (frame_length m). simpl in Hnil. lia.
    + by rewrite concat_frames, E.
  - by rewrite (Hloop _ _ execute_visit (fun s _ => s) (fun _ => Ok tt)) by (apply execute_next || done).
  - rewrite (Hloop _ _ flag_visit flag_step Ok) by (apply flag_next || done).
    by rewrite foldl_flag.
  - by rewrite (Hloop _ _ lag_visit lag_step (fun d => Ok (seconds d))) by (apply lag_next || done).
  - rewrite (Hloop _ _ topology_visit topology_step Ok) by (apply topology_next || done).
    by rewrite foldl_topology.
  - rewrite (Hloop _ _ lsn_visit lsn_step Ok) by (apply lsn_next || done).
    by rewrite foldl_lsn.
  - by rewrite (Hloop _ _ (framed int64_visit) int64_step (fun _ => Ok tt)) by (apply int64_next || done).
Qed.

Definition recovery_reply : list (list (byte * bytes)) :=
  [[(ch "T", bs "pg_is_in_recovery"); (ch "D", scalar_row (Some (bs "t")))];
   [(ch "C", bs "SELECT 1"); (ch "Z", bs "I")]].

(** A replica's answer in two reads of two messages. *)
Lemma probes_agree_with_rows_witness :
  IsReadOnly {| cn_writes := [true]; cn_sent := [];
                cn_reads := map (fun g => Data (frames g)) recovery_reply ++ [] |} =
  Finished (Ok true) {| cn_writes := []; cn_reads := []; cn_sent := [query_payload read_only_query] |}.
Proof.
  refine (proj1 (proj2 (proj2 (probes_agree_with_rows recovery_reply
    [(ch "T", bs "pg_is_in_recovery"); (ch "D", scalar_row (Some (bs "t"))); (ch "C", bs "SELECT 1")]
    (bs "I") [] [] [] _ _ _ _)))).
  - reflexivity.
  - repeat constructor; try discriminate; try by_decide; try (intros _; by exists (Some (bs "t"))).
  - repeat constructor; discriminate.
  - repeat constructor; discriminate.
Defined.

(** ** What a probe does where the theorem does not apply *)

Definition connection (reads : list bytes) : conn :=
  {| cn_writes := [true; true; true; true; true; true]; cn_reads := map Data reads; cn_sent := [] |}.

(** A replica's reply cut around the value of its DataRow: the first read ends
    before the value, and the probe takes the replica for a primary.  Cut once,
    before the value, it reads past the ReadyForQuery and waits.  [querySimple]
    reads the same reads as they are meant. *)
Example cut_row_changes_role :
  let reply := frames (concat recovery_reply) in
  let reads := [take 33 reply; bs "t"; drop 34 reply] in
  (exists c, IsReadOnly (connection reads) = Finished (Ok false) c) /\
  (exists c, querySimple (fun _ => false) read_only_query 1 (connection reads) = Finished (Ok [[bs "t"]]) c) /\
  IsReadOnly (connection [take 33 reply; drop 33 reply]) = Waiting.
Proof. split_and!; [eexists..|]; vm_compute; reflexivity. Qed.

Definition refused_reply : list (byte * bytes) :=
  [(ch "E", bs "MCannot connect now" ++ [NUL; NUL]); (ch "Z", bs "I")].

(** A refused query is not an error for the role, lag and position probes:
    the server is reported a primary, without lag, at the empty position. *)
Example refusal_reads_as_primary :
  let c := connection [frames refused_reply] in
  (exists c', IsReadOnly c = Finished (Ok false) c') /\
  (exists c', GetReplicationLag c = Finished (Ok 0) c') /\
  (exists c', GetCurrentLSN c = Finished (Ok []) c').
Proof. split_and!; eexists; vm_compute; reflexivity. Qed.

(** So the health check of a replica that refuses the role query, say for a
    missing privilege, turns it into a primary. *)
Definition replica_server : Server := setRole (newServer RolePrimary) RoleReplica.

Example refused_role_query_promotes :
  let alive := frames [(ch "D", scalar_row (Some (bs "1"))); (ch "C", bs "SELECT 1"); (ch "Z", bs "I")] in
  let refused := frames refused_reply in
  exists p m, deepCheck replica_server 0 None (Some (connection [alive; refused; refused; refused; refused])) =
              Some (true, p, m, false) /\ sv_role p = RolePrimary.
Proof. eexists _, _. split; [vm_compute; reflexivity|reflexivity]. Qed.

(** An error in a read of its own ends [Execute] before the ReadyForQuery that
    follows it: the next statement on the connection takes it for its own reply
    and reports success before the server has answered. *)
Example error_leaves_ready_unread :
  let c := connection [frames [(ch "E", bs "MNo" ++ [NUL; NUL])]; frames [(ch "Z", bs "I")]] in
  exists c', Execute (bs "SELECT a") c = Finished (Err (PRefused (frames [(ch "E", bs "MNo" ++ [NUL; NUL])]))) c' /\
  exists c'', Execute (bs "SELECT b") c' = Finished (Ok tt) c''.
Proof. eexists. split; [vm_compute; reflexivity|]. eexists. vm_compute. reflexivity. Qed.

(** ** The metrics of a row

    [CollectMetrics] stores the columns of a DataRow in order; NULL and empty
    columns keep their zero, and a column that is not a number stores zero. *)

Definition column_bytes (v : option bytes) : bytes :=
  match v with None => put_uint32 (2 ^ 32 - 1) | Some v => put_uint32 (zlen v) ++ v end.

Fixpoint set_columns (col : nat) (vs : list (option bytes)) (m : DatabaseMetrics) : DatabaseMetrics :=
  match vs with
  | [] => m
  | v :: vs => set_columns (S col) vs
                 match v with
                 | Some (x :: r) => set_column col (default 0 (Sscanf_d (x :: r))) m
                 | _ => m
                 end
  end.

Lemma metric_columns_row vs : forall col m tail,
  Forall (fun v => zlen (default [] v) < 2 ^ 31) vs ->
  metric_columns (length vs) col (concat (map column_bytes vs) ++ tail) m = set_columns col vs m.
Proof.
  induction vs as [|v vs IH]; intros col m tail Hs; [done|].
  apply Forall_cons_iff in Hs as [Hv Hs]. cbn [length map concat metric_columns set_columns].
  destruct v as [v|]; cbn [column_bytes default] in *.
  - change (zlen v < 2 ^ 31) in Hv. destruct (put_uint32_cases (zlen v)) as (a & b & c & d & -> & E).
    rewrite <- !app_assoc. cbn [app]. pose proof (zlen_nonneg v).
    rewrite E, u32_small by lia. unfold i32. rewrite signed_id by lia.
    pose proof (zlen_nonneg (concat (map column_bytes vs) ++ tail)).
    destruct v as [|x v].
    + rewrite decide_False by (by intros [? _]). by apply IH.
    + rewrite decide_True.
      2: { rewrite zlen_app. rewrite zlen_cons in *. pose proof (zlen_nonneg v). lia. }
      rewrite ztake_app, zdrop_app. by apply IH.
  - unfold put_uint32. cbn [app]. change (i32 _) with (-1). rewrite decide_False by lia. by apply IH.
Qed.

(** The check of a replica: its metrics, the role and the lag in bytes. *)
Example metrics_collected :
  let scalar_reply v := frames [(ch "D", scalar_row (Some (bs v))); (ch "C", bs "SELECT 1"); (ch "Z", bs "I")] in
  let row := put_uint16 8 ++ concat (map (fun v => column_bytes (Some (bs v)))
               ["5"; "100"; "12"; "1"; "25"; "75"; "0"; "2"]%string) in
  let reads := [scalar_reply "t"%string; frames [(ch "D", row); (ch "C", bs "SELECT 1"); (ch "Z", bs "I")];
                scalar_reply "4096"%string] in
  exists c, CollectMetrics (connection reads) =
    Finished (Ok {| IsRecovery := true; ActiveBackends := 5; MaxBackends := 100;
                    TransactionsCommitted := 12; TransactionsRolledBack := 1; BlocksRead := 25;
                    BlocksHit := 75; Conflicts := 0; Deadlocks := 2; CacheHitRatio := (75, 100);
                    ReplicationLagBytes := 4096 |}) c.
Proof. eexists. vm_compute. reflexivity. Qed.
