(* ===== verification/Balancer.v ===== *)
(** * Backend selection

    Package [balancer]: which backends may serve a request ([FilterNodes]), what
    using one costs ([CalculateCost]), and the six strategies that pick one.

    A backend is what its accessors returned when the strategy looked at it.
    Costs are computed in exact rationals where Go computes in [float64]; the
    properties of the strategies hold for every cost function.  The CRC of the
    hash ring and the random draws of P2C are parameters. *)
From Stdlib Require Import ZArith Lia Strings.String QArith Sorting.Sorted Sorting.Permutation.
From stdpp Require Import base gmap list numbers option.
From S2P Require Import Prelude Health Pool.
#[local] Open Scope Z_scope.

Record Backend := {
  b_ref : positive;         (* the pointer behind the interface *)
  b_role : Role; b_healthy : bool; b_draining : bool; b_replicating : bool;
  b_lag : Z; b_active : Z; b_weight : Z; b_address : bytes; b_zone : bytes;
  b_latency : Z; b_rtt : Z; b_errorRate : Q; b_lastHealthy : option Z
}.

Record Hint := { h_ReadOnly : bool; h_AcceptReplica : bool; h_Key : bytes; h_CallerZone : bytes }.

Definition SlowStartDuration : Z := 30 * 1000000000.
Definition RemoteZonePenalty : Q := 2.
Definition DefaultMaxReplicaLag : Z := 10 * 1000000000.

(** [SetMaxReplicaLag]. *)
Definition SetMaxReplicaLag (d : Z) : Z := if decide (d <= 0) then DefaultMaxReplicaLag else d.

(** ** Cost *)

Definition Qltb (x y : Q) : bool := negb (Qle_bool y x).

Definition effective_latency (latency rtt : Q) : Q :=
  let l := if Qltb 0 latency && Qltb 0 rtt then (latency * (7 # 10) + rtt * (3 # 10))%Q
           else if Qeq_bool latency 0 then rtt else latency in
  if Qle_bool l 0 then 1%Q else l.

(** [CalculateCost], in exact rationals where the code has float64: two costs whose
    float64 values coincide or are rounded past each other compare differently here. *)
Definition CalculateCost (maxLag now : Z) (callerZone : bytes) (b : Backend) : Q :=
  let effectiveLatency := effective_latency (inject_Z (b_latency b)) (inject_Z (b_rtt b)) in
  let active := inject_Z (b_active b + 1) in
  let weight := inject_Z (Z.max (b_weight b) 1) in
  let cost := (effectiveLatency * active / weight)%Q in
  let cost := if decide (callerZone <> [] /\ b_zone b <> [] /\ b_zone b <> callerZone)
              then (cost * RemoteZonePenalty)%Q else cost in
  let cost := if Qltb (5 # 100) (b_errorRate b) then (cost * (1 + b_errorRate b * 5))%Q else cost in
  let cost :=
    if decide (b_role b = RoleReplica) then
      if decide (maxLag < b_lag b) then (cost * 100)%Q
      else if decide (0 < b_lag b) then (cost * (1 + inject_Z (b_lag b) / inject_Z maxLag))%Q
      else cost
    else cost in
  match b_lastHealthy b with
  | None => cost
  | Some lastHealthy =>
      let elapsed := now - lastHealthy in
      if decide (elapsed < SlowStartDuration)
      then (cost * (10 - 9 * inject_Z elapsed / inject_Z SlowStartDuration))%Q
      else cost
  end.

(** ** Eligible backends *)

Definition serving (b : Backend) : bool := b_healthy b && negb (b_draining b).
Definition is_role (r : Role) (b : Backend) : bool := bool_decide (b_role b = r).

Definition fresh_replica (maxLag : Z) (b : Backend) : bool :=
  is_role RoleReplica b && serving b && b_replicating b && bool_decide (b_lag b <= maxLag).

(** [appendReplicas], on no targets yet. *)
Definition appendReplicas (maxLag : Z) (nodes : list Backend) : list Backend :=
  match List.filter (fresh_replica maxLag) nodes with
  | [] => List.filter (fun b => is_role RoleReplica b && serving b) nodes
  | targets => targets
  end.

Section Strategies.
Context (maxLag : Z) (cost : Backend -> Q).

(** The loop of [FilterNodes] over the primaries: the cheapest, first on ties. *)
Fixpoint best_primary (nodes : list Backend) (best : option Backend) : option Backend :=
  match nodes with
  | [] => best
  | b :: nodes =>
      if is_role RolePrimary b && serving b then
        match best with
        | None => best_primary nodes (Some b)
        | Some p => if Qltb (cost b) (cost p) then best_primary nodes (Some b) else best_primary nodes best
        end
      else best_primary nodes best
  end.

(** [FilterNodes]. *)
Definition FilterNodes (nodes : list Backend) (hint : Hint) : list Backend :=
  if h_ReadOnly hint then
    match appendReplicas maxLag nodes with
    | [] => List.filter (fun b => is_role RolePrimary b && serving b) nodes
    | targets => targets
    end
  else
    match best_primary nodes None with
    | Some p => [p]
    | None => if h_AcceptReplica hint then appendReplicas maxLag nodes else []
    end.

(** ** Strategies: [None] is [ErrNoHealthyBackends] *)

(** [RoundRobin.Next]; [index] is an atomic [uint64]. *)
Definition RoundRobin_Next (index : Z) (nodes : list Backend) (hint : Hint) : option Backend * Z :=
  match FilterNodes nodes hint with
  | [] => (None, index)
  | targets =>
      let index := u64 (index + 1) in
      (targets !! Z.to_nat (index mod zlen targets), index)
  end.

(** The loop shared by the weighted and keyless strategies; a negative [minCost]
    stands for no minimum yet, as in the code, which starts from [-1.0]. *)
Fixpoint cheapest_loop (targets : list Backend) (best : option Backend) (minCost : Q) : option Backend :=
  match targets with
  | [] => best
  | b :: targets =>
      if Qltb minCost 0 || Qltb (cost b) minCost then cheapest_loop targets (Some b) (cost b)
      else cheapest_loop targets best minCost
  end.

Definition cheapest (targets : list Backend) : option Backend := cheapest_loop targets None (-1).

(** [WeightedRoundRobin.Next]. *)
Definition WeightedRoundRobin_Next (nodes : list Backend) (hint : Hint) : option Backend :=
  match FilterNodes nodes hint with
  | [] => None
  | [b] => Some b
  | targets => cheapest targets
  end.

Definition MaxInt64 : Z := 2 ^ 63 - 1.

Fixpoint fewest (targets : list Backend) (best : option Backend) (minConns : Z) : option Backend :=
  match targets with
  | [] => best
  | b :: targets =>
      if decide (b_active b < minConns) then fewest targets (Some b) (b_active b)
      else fewest targets best minConns
  end.

(** [LeastConn.Next]. *)
Definition LeastConn_Next (nodes : list Backend) (hint : Hint) : option Backend :=
  fewest (FilterNodes nodes hint) None MaxInt64.

(** [P2C.Next]: [i1] and [i2] are the two draws. *)
Definition P2C_Next (i1 i2 : nat) (nodes : list Backend) (hint : Hint) : option Backend :=
  match FilterNodes nodes hint with
  | [] => None
  | [b] => Some b
  | targets =>
      let i2 := if decide (i1 <= i2)%nat then S i2 else i2 in
      match targets !! i1, targets !! i2 with
      | Some b1, Some b2 => if Qle_bool (cost b1) (cost b2) then Some b1 else Some b2
      | _, _ => None
      end
  end.

(** [PeakEWMA.Next]; [limit] is [math.MaxFloat64]. *)
Fixpoint peak_loop (limit : Q) (targets : list Backend) (best : option Backend) : option Backend :=
  match targets with
  | [] => best
  | b :: targets =>
      if Qeq_bool (cost b) 0 then Some b
      else if Qltb (cost b) (match best with Some p => cost p | None => limit end)
           then peak_loop limit targets (Some b) else peak_loop limit targets best
  end.

Definition PeakEWMA_Next (limit : Q) (nodes : list Backend) (hint : Hint) : option Backend :=
  peak_loop limit (FilterNodes nodes hint) None.

(** ** Consistent hashing *)

Context (crc32 : bytes -> Z).

Definition virtualNodes : Z := 100.

Record nodeHash := { nh_hash : Z; nh_node : Backend }.

Definition itoa (n : Z) : bytes := if decide (n = 0) then [ch "0"] else put_digits 20 n [].

(** The ring entries of one node, as [UpdateNodes] appends them. *)
Definition node_entries (b : Backend) : list nodeHash :=
  let weight := if decide (b_weight b <= 0) then 1 else b_weight b in
  map (fun i => {| nh_hash := crc32 (b_address b ++ bs "#" ++ itoa (Z.of_nat i)); nh_node := b |})
      (seq 0 (Z.to_nat (virtualNodes * weight))).

(** [UpdateNodes]: some ordering by hash of all the entries ([sort.Slice] does
    not say which among equal hashes). *)
Definition is_ring (nodes : list Backend) (ring : list nodeHash) : Prop :=
  Permutation ring (concat (map node_entries nodes)) /\
  StronglySorted (fun x y => nh_hash x <= nh_hash y) ring.

(** [sort.Search] over the ring: the binary search of package [sort]. *)
Fixpoint search_loop (fuel : nat) (ring : list nodeHash) (key : Z) (i j : nat) : nat :=
  match fuel with
  | O => i
  | S fuel =>
      if decide (i < j)%nat then
        let h := ((i + j) / 2)%nat in
        match ring !! h with
        | Some n => if decide (nh_hash n >= key) then search_loop fuel ring key i h
                    else search_loop fuel ring key (S h) j
        | None => i
        end
      else i
  end.

Definition Search (ring : list nodeHash) (key : Z) : nat :=
  search_loop (S (length ring)) ring key 0 (length ring).

Definition contains (targets : list Backend) (b : Backend) : bool :=
  existsb (fun t => bool_decide (b_ref t = b_ref b)) targets.

(** The walk around the ring from [idx]. *)
Fixpoint ring_walk (n : nat) (ring : list nodeHash) (targets : list Backend) (idx : nat) : option Backend :=
  match n with
  | O => None
  | S n =>
      match ring !! idx with
      | Some e => if contains targets (nh_node e) then Some (nh_node e)
                  else ring_walk n ring targets ((idx + 1) mod length ring)
      | None => None
      end
  end.

(** [ConsistentHash.Next]. *)
Definition ConsistentHash_Next (ring : list nodeHash) (nodes : list Backend) (hint : Hint) : option Backend :=
  match FilterNodes nodes hint with
  | [] => None
  | (t0 :: _) as targets =>
      if decide (h_Key hint = []) then cheapest targets
      else
        let idx := Search ring (crc32 (h_Key hint)) in
        let idx := if decide (idx = length ring) then 0%nat else idx in
        match ring_walk (length ring) ring targets idx with
        | Some b => Some b
        | None => Some t0
        end
  end.
End Strategies.

(** ** Lemmas *)

Lemma fewest_spec targets : forall best n,
  match fewest targets best n with
  | Some b => In b targets \/ best = Some b
  | None => best = None /\ forall b, In b targets -> n <= b_active b
  end.
Proof.
  induction targets as [|t targets IH]; intros best n; cbn [fewest]; [destruct best; naive_solver|].
  case_decide.
  - specialize (IH (Some t) (b_active t)). destruct (fewest _ _ _); naive_solver.
  - specialize (IH best n). destruct (fewest _ _ _); [naive_solver|].
    destruct IH as [-> IH]. split; [done|]. intros b [<-|Hb]; [lia|auto].
Qed.

Section Lemmas.
Context (maxLag : Z) (cost : Backend -> Q).

Lemma best_primary_spec nodes : forall best,
  match best with Some p => is_role RolePrimary p && serving p = true | None => True end ->
  match best_primary cost nodes best with
  | Some p => (In p nodes \/ best = Some p) /\ is_role RolePrimary p && serving p = true
  | None => best = None /\ forall b, In b nodes -> is_role RolePrimary b && serving b = false
  end.
Proof.
  induction nodes as [|b nodes IH]; intros best Hb; cbn [best_primary].
  { destruct best; [by split; [right|]|by split]. }
  destruct (is_role RolePrimary b && serving b) eqn:Eb.
  - assert (match best_primary cost nodes (Some b) with
      | Some p => In p nodes \/ Some b = Some p | None => False end /\
      match best_primary cost nodes (Some b) with
      | Some p => is_role RolePrimary p && serving p = true | None => False end) as Hn.
    { specialize (IH (Some b) Eb). destruct (best_primary _ _ _); naive_solver. }
    destruct best as [p|].
    + destruct (Qltb _ _).
      * destruct (best_primary _ nodes (Some b)); naive_solver.
      * specialize (IH (Some p) Hb). destruct (best_primary _ nodes (Some p)); naive_solver.
    + destruct (best_primary _ nodes (Some b)); naive_solver.
  - specialize (IH best Hb). destruct (best_primary _ nodes best); [naive_solver|].
    destruct IH as [-> IH]. split; [done|]. intros x [<-|Hx]; auto.
Qed.

Lemma appendReplicas_In nodes b :
  In b (appendReplicas maxLag nodes) ->
  In b nodes /\ is_role RoleReplica b = true /\ serving b = true /\
  (fresh_replica maxLag b = true \/ forall x, In x nodes -> fresh_replica maxLag x = false).
Proof.
  unfold appendReplicas. destruct (List.filter (fresh_replica maxLag) nodes) as [|f fs] eqn:E.
  - rewrite filter_In, andb_true_iff. intros (Hi & Hr & Hs). split_and!; try done. right.
    intros x Hx. destruct (fresh_replica maxLag x) eqn:Ef; [|done].
    assert (In x []) as []. rewrite <- E. by apply filter_In.
  - rewrite <- E, filter_In. intros [Hi Hf]. unfold fresh_replica in Hf |- *.
    apply andb_true_iff in Hf as [Hf Hl]. apply andb_true_iff in Hf as [Hf Hp].
    apply andb_true_iff in Hf as [Hr Hs]. split_and!; try done. left. by rewrite Hr, Hs, Hp, Hl.
Qed.

Lemma appendReplicas_nil nodes :
  appendReplicas maxLag nodes = [] ->
  forall x, In x nodes -> is_role RoleReplica x && serving x = false.
Proof.
  unfold appendReplicas. destruct (List.filter (fresh_replica maxLag) nodes); [|done].
  intros E x Hx. destruct (is_role RoleReplica x && serving x) eqn:Ex; [|done].
  assert (In x []) as []. rewrite <- E. by apply filter_In.
Qed.

(** Who may be chosen under a hint. *)
Definition permitted (nodes : list Backend) (hint : Hint) (b : Backend) : Prop :=
  In b nodes /\ serving b = true /\
  (b_role b = RoleReplica ->
     (h_ReadOnly hint = true \/
      h_AcceptReplica hint = true /\ forall x, In x nodes -> is_role RolePrimary x && serving x = false) /\
     (fresh_replica maxLag b = true \/ forall x, In x nodes -> fresh_replica maxLag x = false)) /\
  (b_role b = RolePrimary -> h_ReadOnly hint = true ->
     forall x, In x nodes -> is_role RoleReplica x && serving x = false).

Lemma FilterNodes_permitted nodes hint b :
  In b (FilterNodes maxLag cost nodes hint) -> permitted nodes hint b.
Proof.
  unfold FilterNodes, permitted. destruct (h_ReadOnly hint) eqn:Er.
  - destruct (appendReplicas maxLag nodes) as [|r rs] eqn:Ea.
    + rewrite filter_In, andb_true_iff. intros (Hi & Hr & Hs). apply bool_decide_eq_true in Hr.
      split_and!; try done; [by rewrite Hr|]. intros _ _. by apply appendReplicas_nil.
    + rewrite <- Ea. intros (Hi & Hr & Hs & Hf)%appendReplicas_In. apply bool_decide_eq_true in Hr.
      split_and!; [done..| |by rewrite Hr]. eauto.
  - pose proof (best_primary_spec nodes None I) as Hb.
    destruct (best_primary cost nodes None) as [p|].
    + destruct Hb as [[Hi|?] Hp]; [|done]. apply andb_true_iff in Hp as [Hr Hs].
      apply bool_decide_eq_true in Hr. intros [<-|[]]. split_and!; try done; by rewrite Hr.
    + destruct Hb as [_ Hb]. destruct (h_AcceptReplica hint) eqn:Ea; [|done].
      intros (Hi & Hr & Hs & Hf)%appendReplicas_In. apply bool_decide_eq_true in Hr.
      split_and!; [done..| |by rewrite Hr]. eauto 10.
Qed.

Lemma cheapest_loop_spec targets : forall best minCost,
  match cheapest_loop cost targets best minCost with
  | Some b => In b targets \/ best = Some b
  | None => best = None /\ (targets = [] \/ Qltb minCost 0 = false)
  end.
Proof.
  induction targets as [|t targets IH]; intros best minCost; cbn [cheapest_loop]; [destruct best; auto|].
  destruct (Qltb minCost 0) eqn:Hm; cbn [orb].
  - specialize (IH (Some t) (cost t)). destruct (cheapest_loop cost targets (Some t) (cost t)); naive_solver.
  - destruct (Qltb (cost t) minCost).
    + specialize (IH (Some t) (cost t)). destruct (cheapest_loop cost targets (Some t) (cost t)); naive_solver.
    + specialize (IH best minCost). destruct (cheapest_loop cost targets best minCost); naive_solver.
Qed.

Lemma cheapest_spec targets :
  match cheapest cost targets with
  | Some b => In b targets
  | None => targets = []
  end.
Proof.
  pose proof (cheapest_loop_spec targets None (-1)) as H. unfold cheapest.
  destruct (cheapest_loop cost targets None (-1)); [naive_solver|]. destruct H as [_ [->|H]]; [done|]. by vm_compute in H.
Qed.

Lemma peak_loop_spec limit targets : forall best,
  match peak_loop cost limit targets best with
  | Some b => In b targets \/ best = Some b
  | None => best = None /\ forall b, In b targets -> Qltb (cost b) limit = false
  end.
Proof.
  induction targets as [|t targets IH]; intros best; cbn [peak_loop]; [destruct best; naive_solver|].
  destruct (Qeq_bool (cost t) 0); [naive_solver|].
  destruct (Qltb (cost t) _) eqn:El.
  - specialize (IH (Some t)). destruct (peak_loop _ _ _ _); naive_solver.
  - specialize (IH best). destruct (peak_loop _ _ _ _); [naive_solver|].
    destruct IH as [-> IH]. split; [done|]. intros b [<-|Hb]; auto.
Qed.

Lemma ring_walk_In ring targets n : forall idx b,
  ring_walk n ring targets idx = Some b ->
  contains targets b = true /\ exists e, In e ring /\ nh_node e = b.
Proof.
  induction n as [|n IH]; intros idx b; cbn [ring_walk]; [done|].
  destruct (ring !! idx) as [e|] eqn:E; [|done]. destruct (contains targets (nh_node e)) eqn:Ec; [|apply IH].
  intros [= <-]. split; [done|]. exists e. split; [|done]. apply list_elem_of_In. by eapply list_elem_of_lookup_2.
Qed.

(** *** The walk visits the whole ring *)

Lemma ring_walk_finds ring targets n : forall idx k e,
  (idx < length ring)%nat -> (k < n)%nat ->
  ring !! ((idx + k) mod length ring)%nat = Some e -> contains targets (nh_node e) = true ->
  is_Some (ring_walk n ring targets idx).
Proof.
  induction n as [|n IH]; intros idx k e Hi Hk He Hc; [lia|]. cbn [ring_walk].
  destruct (lookup_lt_is_Some_2 ring idx Hi) as [x Hx]. rewrite Hx.
  destruct (contains targets (nh_node x)) eqn:Ex; [eauto|].
  destruct k as [|k].
  - rewrite Nat.add_0_r, Nat.mod_small in He by lia. congruence.
  - apply (IH _ k e); [apply Nat.mod_upper_bound; lia|lia| |done].
    rewrite Nat.Div0.add_mod_idemp_l. rewrite <- He. f_equal. f_equal. lia.
Qed.

Lemma ring_walk_total ring targets idx e :
  (idx < length ring)%nat -> In e ring -> contains targets (nh_node e) = true ->
  is_Some (ring_walk (length ring) ring targets idx).
Proof.
  intros Hi He Hc. apply list_elem_of_In, list_elem_of_lookup in He as [p Hp].
  pose proof (lookup_lt_Some _ _ _ Hp) as Hlp.
  destruct (decide (idx <= p)%nat).
  - apply (ring_walk_finds _ _ _ _ (p - idx) e); [done|lia| |done].
    replace (idx + (p - idx))%nat with p by lia. by rewrite Nat.mod_small by lia.
  - apply (ring_walk_finds _ _ _ _ (p + length ring - idx) e); [done|lia| |done].
    replace (idx + (p + length ring - idx))%nat with (p + 1 * length ring)%nat by lia.
    by rewrite Nat.Div0.mod_add, Nat.mod_small by lia.
Qed.

(** Fewer targets, same answer, as long as the answer is still one of them. *)
Lemma ring_walk_stable ring t1 t2 n : forall idx b,
  (forall x, contains t2 x = true -> contains t1 x = true) ->
  ring_walk n ring t1 idx = Some b -> contains t2 b = true -> ring_walk n ring t2 idx = Some b.
Proof.
  induction n as [|n IH]; intros idx b Hs; cbn [ring_walk]; [done|].
  destruct (ring !! idx) as [e|]; [|done].
  destruct (contains t1 (nh_node e)) eqn:E1.
  - intros [= <-] ->. done.
  - intros Hw Hb. destruct (contains t2 (nh_node e)) eqn:E2; [apply Hs in E2; congruence|]. by apply IH.
Qed.

(** *** The binary search *)

Lemma search_loop_spec ring key : StronglySorted (fun x y => nh_hash x <= nh_hash y) ring ->
  forall fuel i j, (i <= j <= length ring)%nat -> (j - i < fuel)%nat ->
  (forall k n, (k < i)%nat -> ring !! k = Some n -> nh_hash n < key) ->
  (forall k n, (j <= k)%nat -> ring !! k = Some n -> key <= nh_hash n) ->
  let r := search_loop fuel ring key i j in
  (r <= length ring)%nat /\
  (forall k n, (k < r)%nat -> ring !! k = Some n -> nh_hash n < key) /\
  (forall k n, (r <= k)%nat -> ring !! k = Some n -> key <= nh_hash n).
Proof.
  intros Hs. assert (forall a b x y, (a <= b)%nat -> ring !! a = Some x -> ring !! b = Some y ->
    nh_hash x <= nh_hash y) as Hmono.
  { intros a b x y Hab Hx Hy. destruct (decide (a = b)) as [->|]; [simplify_eq; lia|].
    clear -Hs Hx Hy Hab n. revert a b Hx Hy Hab n.
    induction Hs as [|h ring Hs IH Hf]; intros a b Hx Hy Hab n; [done|].
    destruct b as [|b]; [lia|]. destruct a as [|a]; cbn in Hx, Hy.
    - simplify_eq. rewrite List.Forall_forall in Hf. apply Hf, list_elem_of_In. by eapply list_elem_of_lookup_2.
    - apply (IH a b); try done; lia. }
  induction fuel as [|fuel IH]; intros i j Hij Hf Hlo Hhi; [lia|]. cbn [search_loop].
  case_decide as Hlt; [|cbn zeta; split_and!; [lia|done|]; intros k n Hk; apply Hhi; lia].
  set (h := ((i + j) / 2)%nat).
  assert (i <= h < j)%nat as Hh.
  { unfold h. pose proof (Nat.div_mod_eq (i + j) 2). pose proof (Nat.mod_upper_bound (i + j) 2). lia. }
  destruct (lookup_lt_is_Some_2 ring h ltac:(lia)) as [x Hx]. rewrite Hx. case_decide as Hk.
  - apply IH; [lia|lia|done|]. intros k n Hle Hn. pose proof (Hmono h k x n Hle Hx Hn). lia.
  - apply IH; [lia|lia| |done]. intros k n Hle Hn. pose proof (Hmono k h n x ltac:(lia) Hn Hx). lia.
Qed.

Lemma Search_spec ring key :
  StronglySorted (fun x y => nh_hash x <= nh_hash y) ring ->
  (Search ring key <= length ring)%nat /\
  (forall k n, (k < Search ring key)%nat -> ring !! k = Some n -> nh_hash n < key) /\
  (forall k n, (Search ring key <= k)%nat -> ring !! k = Some n -> key <= nh_hash n).
Proof.
  intros Hs. apply (search_loop_spec ring key Hs); [lia|lia|lia|].
  intros k n Hk Hn. apply lookup_lt_Some in Hn. lia.
Qed.
End Lemmas.

(** ** All strategies at once *)

Inductive Strategy :=
| SRoundRobin (index : Z)
| SWeighted
| SLeastConn
| SP2C (i1 i2 : nat)
| SPeakEWMA (limit : Q)
| SConsistentHash (ring : list nodeHash).

Definition Next (maxLag : Z) (cost : Backend -> Q) (crc32 : bytes -> Z) (s : Strategy)
    (nodes : list Backend) (hint : Hint) : option Backend :=
  match s with
  | SRoundRobin index => fst (RoundRobin_Next maxLag cost index nodes hint)
  | SWeighted => WeightedRoundRobin_Next maxLag cost nodes hint
  | SLeastConn => LeastConn_Next maxLag cost nodes hint
  | SP2C i1 i2 => P2C_Next maxLag cost i1 i2 nodes hint
  | SPeakEWMA limit => PeakEWMA_Next maxLag cost limit nodes hint
  | SConsistentHash ring => ConsistentHash_Next maxLag cost crc32 ring nodes hint
  end.

(** What a strategy needs of its own state and of the observations: a ring
    built from these nodes, draws within range when two are made (with one
    target P2C returns it before drawing, with none it fails), counts and costs
    below the initial minimum of the search. *)
Definition strategy_ok (maxLag : Z) (cost : Backend -> Q) (crc32 : bytes -> Z) (s : Strategy)
    (nodes : list Backend) (hint : Hint) : Prop :=
  match s with
  | SRoundRobin _ | SWeighted => True
  | SLeastConn => forall b, In b nodes -> b_active b < MaxInt64
  | SP2C i1 i2 => let n := length (FilterNodes maxLag cost nodes hint) in (2 <= n -> i1 < n /\ i2 < n - 1)%nat
  | SPeakEWMA limit => forall b, In b nodes -> Qltb (cost b) limit = true
  | SConsistentHash ring => is_ring crc32 nodes ring
  end.

Definition refs_unique (nodes : list Backend) : Prop :=
  forall b1 b2, In b1 nodes -> In b2 nodes -> b_ref b1 = b_ref b2 -> b1 = b2.

Lemma FilterNodes_subset maxLag cost nodes hint b :
  In b (FilterNodes maxLag cost nodes hint) -> In b nodes.
Proof. intros H. by apply FilterNodes_permitted in H as (? & _). Qed.

Lemma contains_In nodes targets b :
  refs_unique nodes -> (forall x, In x targets -> In x nodes) -> In b nodes ->
  contains targets b = true -> In b targets.
Proof.
  intros Hu Hs Hb. unfold contains. rewrite existsb_exists. intros (x & Hx & Er).
  apply bool_decide_eq_true in Er. rewrite <- (Hu x b); auto.
Qed.

Lemma ring_nodes crc32 nodes ring e : is_ring crc32 nodes ring -> In e ring -> In (nh_node e) nodes.
Proof.
  intros [Hp _] He. apply (Permutation_in _ Hp), in_concat in He as (l & Hl & He).
  apply in_map_iff in Hl as (b & <- & Hb). unfold node_entries in He.
  apply in_map_iff in He as (i & <- & _). done.
Qed.

Lemma ring_covers crc32 nodes ring b :
  is_ring crc32 nodes ring -> In b nodes -> exists e, In e ring /\ nh_node e = b.
Proof.
  intros [Hp _] Hb.
  assert (exists e, In e (node_entries crc32 b) /\ nh_node e = b) as (e & He & En).
  { unfold node_entries. set (w := if decide _ then _ else _).
    assert (1 <= w) by (unfold w; case_decide; lia).
    exists {| nh_hash := crc32 (b_address b ++ bs "#" ++ itoa (Z.of_nat 0)); nh_node := b |}. split; [|done].
    apply in_map_iff. exists 0%nat. split; [done|]. apply in_seq. unfold virtualNodes. lia. }
  exists e. split; [|done]. apply (Permutation_in _ (Permutation_sym Hp)), in_concat.
  exists (node_entries crc32 b). split; [|done]. by apply in_map.
Qed.

Lemma Next_In maxLag cost crc32 s nodes hint b :
  refs_unique nodes -> strategy_ok maxLag cost crc32 s nodes hint ->
  Next maxLag cost crc32 s nodes hint = Some b -> In b (FilterNodes maxLag cost nodes hint).
Proof.
  intros Hu Ho. set (F := FilterNodes maxLag cost nodes hint).
  assert (forall x, In x F -> In x nodes) as HF by apply FilterNodes_subset.
  destruct s as [index| | |i1 i2|limit|ring]; cbn [Next].
  - unfold RoundRobin_Next. fold F. destruct F as [|t ts]; [done|]. cbn [fst].
    intros H. apply list_elem_of_In. by eapply list_elem_of_lookup_2.
  - unfold WeightedRoundRobin_Next. fold F. destruct F as [|t [|t2 ts]]; [done|by intros [= <-]; left|].
    intros H. pose proof (cheapest_spec cost (t :: t2 :: ts)) as Hc. rewrite H in Hc. naive_solver.
  - unfold LeastConn_Next. fold F. intros H. pose proof (fewest_spec F None MaxInt64) as Hc. rewrite H in Hc. naive_solver.
  - unfold P2C_Next. fold F. destruct F as [|t [|t2 ts]]; [done|by intros [= <-]; left|]. cbv zeta.
    generalize (if decide (i1 <= i2)%nat then S i2 else i2) as j. intros j.
    destruct ((t :: t2 :: ts) !! i1) as [x|] eqn:E1; [|done].
    destruct ((t :: t2 :: ts) !! j) as [y|] eqn:E2; [|done].
    apply list_elem_of_lookup_2, list_elem_of_In in E1. apply list_elem_of_lookup_2, list_elem_of_In in E2.
    by destruct (Qle_bool _ _); intros [= <-].
  - unfold PeakEWMA_Next. fold F. intros H. pose proof (peak_loop_spec cost limit F None) as Hc.
    rewrite H in Hc. naive_solver.
  - unfold ConsistentHash_Next. fold F. destruct F as [|t ts]; [done|]. case_decide.
    { intros H1. pose proof (cheapest_spec cost (t :: ts)) as Hc. rewrite H1 in Hc. naive_solver. }
    cbv zeta. destruct (ring_walk _ _ _ _) as [x|] eqn:Ew; intros [= <-]; [|by left].
    apply ring_walk_In in Ew as (Hc & e & He & <-). apply (contains_In nodes); [done|done| |done].
    by eapply ring_nodes.
Qed.

Lemma Next_None maxLag cost crc32 s nodes hint :
  strategy_ok maxLag cost crc32 s nodes hint ->
  Next maxLag cost crc32 s nodes hint = None -> FilterNodes maxLag cost nodes hint = [].
Proof.
  intros Ho. pose proof (FilterNodes_subset maxLag cost nodes hint) as HF.
  destruct s as [index| | |i1 i2|limit|ring]; cbn [Next strategy_ok] in *.
  - unfold RoundRobin_Next. destruct (FilterNodes _ _ _ _) as [|t ts]; [done|]. cbn [fst].
    intros H%lookup_ge_None. pose proof (Z.mod_pos_bound (u64 (index + 1)) (zlen (t :: ts)) ltac:(rewrite zlen_cons; pose proof (zlen_nonneg ts); lia)).
    unfold zlen in *. lia.
  - unfold WeightedRoundRobin_Next. destruct (FilterNodes _ _ _ _) as [|t [|t2 ts]]; [done|done|].
    intros H. pose proof (cheapest_spec cost (t :: t2 :: ts)) as Hc. rewrite H in Hc. naive_solver.
  - unfold LeastConn_Next. intros H. pose proof (fewest_spec (FilterNodes maxLag cost nodes hint) None MaxInt64) as Hc.
    rewrite H in Hc. destruct Hc as [_ Hc]. destruct (FilterNodes _ _ _ _) as [|t ts]; [done|].
    specialize (Hc t (or_introl eq_refl)). specialize (Ho t (HF t (or_introl eq_refl))). lia.
  - unfold P2C_Next. destruct (FilterNodes _ _ _ _) as [|t [|t2 ts]]; [done|done|]. cbv zeta in *.
    destruct Ho as [H1 H2]; [cbn; lia|]. destruct (lookup_lt_is_Some_2 (t :: t2 :: ts) i1 H1) as [x ->].
    set (j := if decide (i1 <= i2)%nat then S i2 else i2).
    assert (j < length (t :: t2 :: ts))%nat as Hj by (unfold j; case_decide; lia).
    destruct (lookup_lt_is_Some_2 (t :: t2 :: ts) j Hj) as [y ->]. by destruct (Qle_bool _ _).
  - unfold PeakEWMA_Next. intros H. pose proof (peak_loop_spec cost limit (FilterNodes maxLag cost nodes hint) None) as Hc.
    rewrite H in Hc. destruct Hc as [_ Hc]. destruct (FilterNodes _ _ _ _) as [|t ts]; [done|].
    specialize (Hc t (or_introl eq_refl)). specialize (Ho t (HF t (or_introl eq_refl))). congruence.
  - unfold ConsistentHash_Next. destruct (FilterNodes _ _ _ _) as [|t ts]; [done|]. case_decide.
    { intros H1. pose proof (cheapest_spec cost (t :: ts)) as Hc. rewrite H1 in Hc. naive_solver. }
    cbv zeta. by destruct (ring_walk _ _ _ _).
Qed.

(** ** Properties *)

(** C22: Whatever the strategy, a request goes to a healthy backend that is not
    draining: a write to a primary and nothing else; a read to a replica that
    is streaming within the lag budget whenever one exists, to some healthy
    replica otherwise, and to a primary only when no replica is up; a startup
    connection to a replica only when no primary is up.  It fails only when no
    backend qualifies.  Asked of the strategy's own state: the two draws of P2C
    are within range when at least two backends are eligible (with one it is
    returned without a draw), the ring of consistent hashing was built from
    these backends, and no count or cost reaches the largest representable
    number the searches start from.  Costs are any rational-valued function. *)
Theorem selection_respects_hint (maxLag : Z) (cost : Backend -> Q) (crc32 : bytes -> Z) (s : Strategy)
    (nodes : list Backend) (hint : Hint) :
  refs_unique nodes -> strategy_ok maxLag cost crc32 s nodes hint ->
  match Next maxLag cost crc32 s nodes hint with
  | Some b => permitted maxLag nodes hint b
  | None => forall b, In b nodes -> serving b = true ->
      b_role b = RoleReplica /\ h_ReadOnly hint = false /\ h_AcceptReplica hint = false
  end.
Proof.
  intros Hu Ho. destruct (Next maxLag cost crc32 s nodes hint) as [b|] eqn:E.
  - by eapply FilterNodes_permitted, Next_In.
  - apply Next_None in E; [|done]. intros b Hb Hs. unfold FilterNodes in E.
    assert (forall r, is_role r b && serving b = bool_decide (b_role b = r)) as Hrole
      by (intros r; by rewrite Hs, andb_true_r).
    destruct (h_ReadOnly hint).
    + exfalso. destruct (appendReplicas maxLag nodes) eqn:Ea; [|done].
      pose proof (appendReplicas_nil maxLag nodes Ea b Hb) as H1. rewrite Hrole in H1.
      assert (In b []) as []. rewrite <- E. apply filter_In. split; [done|]. rewrite Hrole.
      apply bool_decide_eq_false in H1. apply bool_decide_eq_true. by destruct (b_role b).
    + pose proof (best_primary_spec cost nodes None I) as Hbp.
      destruct (best_primary cost nodes None); [done|]. destruct Hbp as [_ Hbp].
      specialize (Hbp b Hb). rewrite Hrole in Hbp. apply bool_decide_eq_false in Hbp.
      destruct (b_role b) eqn:Er; [done|]. destruct (h_AcceptReplica hint); [|done].
      pose proof (appendReplicas_nil maxLag nodes E b Hb) as H1. rewrite Hrole in H1. by apply bool_decide_eq_false in H1.
Qed.

Definition backend (ref : positive) (role : Role) (healthy replicating : bool) (lag active : Z) : Backend :=
  {| b_ref := ref; b_role := role; b_healthy := healthy; b_draining := false; b_replicating := replicating;
     b_lag := lag; b_active := active; b_weight := 1; b_address := [byte_of (Zpos ref)]; b_zone := [];
     b_latency := 0; b_rtt := 0; b_errorRate := 0; b_lastHealthy := None |}.

Definition three_nodes : list Backend :=
  [backend 1 RolePrimary true true 0 3; backend 2 RoleReplica true false 0 0; backend 3 RoleReplica true true 5 9].

Definition read_hint : Hint := {| h_ReadOnly := true; h_AcceptReplica := false; h_Key := []; h_CallerZone := [] |}.

Definition write_hint : Hint := {| h_ReadOnly := false; h_AcceptReplica := false; h_Key := []; h_CallerZone := [] |}.

(** A read by least connections, and a write by P2C, whose one target is the
    primary: no draw is made. *)
Lemma selection_respects_hint_witness :
  match Next 10 (CalculateCost 10 0 []) (fun _ => 0) SLeastConn three_nodes read_hint with
  | Some b => permitted 10 three_nodes read_hint b
  | None => forall b, In b three_nodes -> serving b = true ->
      b_role b = RoleReplica /\ h_ReadOnly read_hint = false /\ h_AcceptReplica read_hint = false
  end /\
  match Next 10 (CalculateCost 10 0 []) (fun _ => 0) (SP2C 0 0) three_nodes write_hint with
  | Some b => permitted 10 three_nodes write_hint b
  | None => forall b, In b three_nodes -> serving b = true ->
      b_role b = RoleReplica /\ h_ReadOnly write_hint = false /\ h_AcceptReplica write_hint = false
  end.
Proof.
  assert (refs_unique three_nodes) as Hu.
  { intros b1 b2 H1 H2. repeat destruct H1 as [<-|H1]; repeat destruct H2 as [<-|H2]; try done. }
  split.
  - refine (selection_respects_hint 10 (CalculateCost 10 0 []) (fun _ => 0) SLeastConn three_nodes read_hint Hu _).
    intros b Hb. repeat destruct Hb as [<-|Hb]; first [done | by_decide].
  - refine (selection_respects_hint 10 (CalculateCost 10 0 []) (fun _ => 0) (SP2C 0 0) three_nodes write_hint Hu _).
    vm_compute. lia.
Defined.

(** P2C sends that write to the primary. *)
Example p2c_single_target :
  option_map b_ref (Next 10 (CalculateCost 10 0 []) (fun _ => 0) (SP2C 0 0) three_nodes write_hint) = Some 1%positive.
Proof. vm_compute. reflexivity. Qed.

(** The replica that does not stream is passed over although it is idle. *)
Example idle_but_detached_passed_over :
  option_map b_ref (Next 10 (CalculateCost 10 0 []) (fun _ => 0) SLeastConn three_nodes read_hint) = Some 3%positive.
Proof. vm_compute. reflexivity. Qed.

(** Consistent hashing keeps keys where they are.  The search lands on the
    first ring entry at or after the key's hash; a key is served by the first
    eligible backend from there; and when backends drop out, every key whose
    backend is still eligible keeps it. *)
Theorem hash_ring_stable (maxLag : Z) (cost : Backend -> Q) (crc32 : bytes -> Z)
    (built : list Backend) (ring : list nodeHash) (nodes1 nodes2 : list Backend) (hint : Hint) (b : Backend) :
  is_ring crc32 built ring -> h_Key hint <> [] ->
  (forall x, In x nodes1 -> exists y, In y built /\ b_ref y = b_ref x) ->
  (forall x, contains (FilterNodes maxLag cost nodes2 hint) x = true ->
             contains (FilterNodes maxLag cost nodes1 hint) x = true) ->
  ConsistentHash_Next maxLag cost crc32 ring nodes1 hint = Some b ->
  contains (FilterNodes maxLag cost nodes2 hint) b = true ->
  ConsistentHash_Next maxLag cost crc32 ring nodes2 hint = Some b /\
  (forall k n, (k < Search ring (crc32 (h_Key hint)))%nat -> ring !! k = Some n ->
     nh_hash n < crc32 (h_Key hint)) /\
  (forall k n, (Search ring (crc32 (h_Key hint)) <= k)%nat -> ring !! k = Some n ->
     crc32 (h_Key hint) <= nh_hash n).
Proof.
  intros Hring Hkey Hbuilt Hsub H1 Hb. destruct (Search_spec ring (crc32 (h_Key hint)) (proj2 Hring)) as (Hle & Hlo & Hhi).
  split; [|by split]. unfold ConsistentHash_Next in *.
  destruct (FilterNodes maxLag cost nodes1 hint) as [|t1 ts1] eqn:E1; [done|].
  destruct (FilterNodes maxLag cost nodes2 hint) as [|t2 ts2]; [done|].
  rewrite decide_False in H1 |- * by done. cbv zeta in *.
  set (idx := if decide (Search ring (crc32 (h_Key hint)) = length ring) then 0%nat else Search ring (crc32 (h_Key hint))) in *.
  destruct (Hbuilt t1) as (y & Hy & Ey).
  { apply (FilterNodes_subset maxLag cost nodes1 hint). rewrite E1. by left. }
  destruct (ring_covers crc32 built ring y Hring Hy) as (e & He & En).
  assert (contains (t1 :: ts1) (nh_node e) = true) as Hce.
  { unfold contains. cbn [existsb]. rewrite bool_decide_true; [done|]. by rewrite En. }
  assert (idx < length ring)%nat as Hidx.
  { unfold idx. case_decide; [|lia]. destruct ring; [done|simpl; lia]. }
  destruct (ring_walk_total ring (t1 :: ts1) idx e Hidx He Hce) as [x Hx]. rewrite Hx in H1. injection H1 as ->.
  by rewrite (ring_walk_stable ring (t1 :: ts1) (t2 :: ts2) (length ring) idx b).
Qed.

Definition two_replicas (first_up : bool) : list Backend :=
  [backend 1 RoleReplica first_up true 0 0; backend 2 RoleReplica true true 0 0].

(** A toy checksum: the sum of the bytes. *)
Definition sum_bytes (s : bytes) : Z := foldr (fun c acc => bval c + acc) 0 s.

Definition tenant_hint : Hint := {| h_ReadOnly := true; h_AcceptReplica := false; h_Key := bs "tenant"; h_CallerZone := [] |}.

Fixpoint insert_hash (e : nodeHash) (l : list nodeHash) : list nodeHash :=
  match l with
  | [] => [e]
  | x :: r => if decide (nh_hash e <= nh_hash x) then e :: l else x :: insert_hash e r
  end.

Definition sorted_ring : list nodeHash :=
  foldr insert_hash [] (concat (map (node_entries sum_bytes) (two_replicas true))).

Lemma insert_hash_perm e l : Permutation (insert_hash e l) (e :: l).
Proof.
  induction l as [|x r IH]; cbn [insert_hash]; [done|]. case_decide; [done|].
  rewrite IH. apply perm_swap.
Qed.

Lemma insert_hash_sorted e l :
  StronglySorted (fun x y => nh_hash x <= nh_hash y) l ->
  StronglySorted (fun x y => nh_hash x <= nh_hash y) (insert_hash e l).
Proof.
  induction 1 as [|x r Hs IH Hf]; cbn [insert_hash]; [repeat constructor|]. case_decide as Hd.
  - constructor; [by constructor|]. constructor; [done|]. eapply Forall_impl; [|exact Hf]. intros; simpl in *; lia.
  - constructor; [done|]. rewrite (insert_hash_perm e r). constructor; [lia|done].
Qed.

Lemma sorted_ring_ok : is_ring sum_bytes (two_replicas true) sorted_ring.
Proof.
  unfold is_ring, sorted_ring. generalize (concat (map (node_entries sum_bytes) (two_replicas true))) as l.
  intros l. split; induction l as [|e l IH]; cbn [foldr]; [done| |constructor|by apply insert_hash_sorted].
  by rewrite insert_hash_perm, IH.
Qed.

Lemma hash_ring_stable_witness :
  ConsistentHash_Next 10 (CalculateCost 10 0 []) sum_bytes sorted_ring (two_replicas false) tenant_hint =
    Some (backend 2 RoleReplica true true 0 0) /\
  (forall k n, (k < Search sorted_ring (sum_bytes (h_Key tenant_hint)))%nat -> sorted_ring !! k = Some n ->
     nh_hash n < sum_bytes (h_Key tenant_hint)) /\
  (forall k n, (Search sorted_ring (sum_bytes (h_Key tenant_hint)) <= k)%nat -> sorted_ring !! k = Some n ->
     sum_bytes (h_Key tenant_hint) <= nh_hash n).
Proof.
  refine (hash_ring_stable 10 (CalculateCost 10 0 []) sum_bytes (two_replicas true) sorted_ring
    (two_replicas false) (two_replicas false) tenant_hint (backend 2 RoleReplica true true 0 0) _ _ _ _ _ _).
  - exact sorted_ring_ok.
  - by_decide.
  - intros x Hx. repeat destruct Hx as [<-|Hx]; [..|done].
    + exists (backend 1 RoleReplica true true 0 0). split; [by left|done].
    + exists (backend 2 RoleReplica true true 0 0). split; [by right; left|done].
  - done.
  - vm_compute. reflexivity.
  - reflexivity.
Defined.
