(* ===== verification/Gateway.v ===== *)
(** * The gateway: a session's connections and its statements

    [proxy/gateway.go] ([acquire], [executeRequest], [replaySession],
    [handleClient]), [proxy/session_acquire.go], [proxy/open_session.go] and
    [proxy/client_auth.go] ([openAuthenticatedBackend]): how a session obtains a
    backend connection it may speak on, runs a statement there, and gives the
    connection back.

    Composition: the backends are the [Server]s of Pool.v with their connections,
    a fresh connection is authenticated by the exchange of Auth.v over the bytes
    its backend sends, the session is rebuilt and tracked by Session.v, and the
    reply is streamed by Relay.v.  What the outside decides -- the balancer's pick,
    the pooling engine's answer, the backends' bytes, cancellations -- is the
    environment a handler is given. *)
From Stdlib Require Import ZArith Lia Strings.String.
From stdpp Require Import base gmap list numbers option.
From S2P Require Import Prelude Wire Scanner Lexer Session Startup Credentials Auth Tokenizer Health Pool Relay.
#[local] Open Scope Z_scope.

(** ** Pooling modes *)

(** [parsePoolingMode] and [String]. *)
Definition parsePoolingMode (name : bytes) : poolingMode :=
  let name := ToLower_ascii (TrimSpace name) in
  if decide (name = bs "session") then poolSession
  else if decide (name = bs "statement") then poolStatement
  else poolTransaction.

Definition poolingMode_String (m : poolingMode) : bytes :=
  match m with poolSession => bs "session" | poolStatement => bs "statement" | poolTransaction => bs "transaction" end.

Lemma poolingMode_roundtrip m : parsePoolingMode (poolingMode_String m) = m.
Proof. destruct m; reflexivity. Qed.

(** ** The backends *)

Inductive gw_err :=
| ErrNoHealthyBackends
| GwPool (e : pool_err)
| GwCtx
| ErrNoUsableConnection
| GwAuth (e : auth_err)
| GwReply (e : reply_err)
| GwReplay
| GwWrite
| GwNeedsFresh
| GwNoBackend.

Definition is_no_healthy (e : gw_err) : bool := match e with ErrNoHealthyBackends => true | _ => false end.

(** The backends by address, and how often a failover was asked for. *)
Record World := { w_servers : gmap bytes Server; w_failovers : nat }.

Definition set_server (w : World) (addr : bytes) (p : Server) : World :=
  {| w_servers := <[addr := p]> (w_servers w); w_failovers := w_failovers w |}.

(** [triggerFailover], as its caller sees it. *)
Definition trigger (w : World) : World := {| w_servers := w_servers w; w_failovers := S (w_failovers w) |}.

(** A connection in a session's hands. *)
Definition Held : Type := bytes * positive.

Definition conn_of (w : World) (h : Held) : option Conn := p ← w_servers w !! fst h; sv_conns p !! snd h.

(** A method of the connection that changes what is recorded of it. *)
Definition on_conn (w : World) (h : Held) (f : Conn -> Conn) : World :=
  match w_servers w !! fst h with
  | None => w
  | Some p => match sv_conns p !! snd h with None => w | Some c => set_server w (fst h) (with_conn p (snd h) (f c) 0) end
  end.

(** [Backend.AcquireFor] and [Backend.Release]. *)
Definition server_acquire (w : World) (addr : bytes) (now done_at : Z) (answer : engine_answer) : result gw_err Held * World :=
  match w_servers w !! addr with
  | None => (Err GwNoBackend, w)
  | Some p =>
      let '(r, p) := AcquireFor p now done_at answer in
      (match r with Ok ref => Ok (addr, ref) | Err e => Err (GwPool e) end, set_server w addr p)
  end.

Definition server_release (w : World) (h : Held) : World :=
  match w_servers w !! fst h with None => w | Some p => set_server w (fst h) (Release p (snd h)) end.

(** ** Acquisition *)

Record hint_kind := { hk_ReadOnly : bool; hk_AcceptReplica : bool }.

(** What one attempt meets: the outcome of waiting out a failover, the balancer's
    pick, the pooling engine's answer, and whether the caller gave up during the
    pause that follows a failure. *)
Record attempt := {
  at_wait : option gw_err; at_next : result gw_err bytes;
  at_now : Z; at_done : Z; at_answer : engine_answer; at_cancelled : bool
}.

Definition needs_primary (hint : hint_kind) : bool := negb (hk_ReadOnly hint) && negb (hk_AcceptReplica hint).

(** [acquire]: at most three attempts. *)
Fixpoint acquire_loop (hint : hint_kind) (i : nat) (attempts : list attempt) (lastErr : gw_err) (w : World)
  : result gw_err Held * World :=
  match attempts with
  | [] => (Err lastErr, w)
  | a :: attempts =>
      match (if needs_primary hint then at_wait a else None) with
      | Some e => (Err e, w)
      | None =>
          let '(r, w) := match at_next a with
                         | Err e => (Err e, w)
                         | Ok addr => server_acquire w addr (at_now a) (at_done a) (at_answer a)
                         end in
          match r with
          | Ok h => (Ok h, w)
          | Err e =>
              let w := if needs_primary hint && (is_no_healthy e || bool_decide (i = 2%nat)) then trigger w else w in
              if bool_decide (i < 2)%nat && at_cancelled a then (Err GwCtx, w)
              else acquire_loop hint (S i) attempts e w
          end
      end
  end.

Definition acquire (hint : hint_kind) (attempts : list attempt) (w : World) : result gw_err Held * World :=
  acquire_loop hint 0 (take 3 attempts) GwNoBackend w.

(** The credential a session carries. *)
Record Creds := { cr_ClientKey : option bytes; cr_Verifier : Verifier }.

(** [usable] and [belongsTo] of a pooled connection. *)
Definition usable (w : World) (h : Held) : bool := match conn_of w h with Some c => Ready c | None => true end.
Definition belongsTo (w : World) (h : Held) (user database : bytes) : bool :=
  match conn_of w h with Some c => BelongsTo c user database | None => true end.

(** [canAuthenticateBackends]; [store] says that a credential store is set. *)
Definition canAuthenticateBackends (store : bool) (cr : Creds) : bool :=
  if negb store then false
  else match v_Method (cr_Verifier cr) with
       | MethodSCRAM => bool_decide (default [] (cr_ClientKey cr) <> [])
       | MethodMD5 => bool_decide (v_MD5 (cr_Verifier cr) <> [])
       | MethodNone => false
       end.

(** What a freshly dialled backend will send, and Pontus's nonces. *)
Record fresh_io := { fi_conn : ClientConn; fi_raw : nat -> option bytes }.

(** The exchange Pontus performs on a fresh connection. *)
Definition startup_exchange (user database : bytes) (cr : Creds) (io : fresh_io) : result auth_err Startup_ * ClientConn :=
  (_ ← AuthenticateBackend user database (cr_ClientKey cr) (cr_Verifier cr) [] (fi_raw io); WaitForReady) (fi_conn io).

(** [authenticateFreshBackend]: the identity is recorded with the readiness. *)
Definition authenticateFreshBackend (user database : bytes) (cr : Creds) (io : fresh_io) (w : World) (h : Held)
  : result auth_err unit * World :=
  match fst (startup_exchange user database cr io) with
  | Err e => (Err e, w)
  | Ok _ => (Ok tt, on_conn w h (fun c => MarkReady (SetIdentity c user database)))
  end.

(** [releaseToPool]. *)
Definition releaseToPool (w : World) (h : option Held) : World :=
  match h with None => w | Some h => server_release (on_conn w h MarkDirty) h end.

(** [acquireForSession]'s environment: the attempts, the fresh backend, and the
    fallback's acquisition. *)
Record acquire_env := {
  ae_attempts : list attempt; ae_fresh : fresh_io; ae_home_now : Z; ae_home_done : Z; ae_home_answer : engine_answer
}.

(** [acquireForSession]. *)
Definition acquireForSession (store : bool) (hint : hint_kind) (home : option bytes) (state : SessionState) (cr : Creds)
    (env : acquire_env) (w : World) : result gw_err Held * World :=
  let user := User state in
  let database := Database state in
  let fall_back (first : option gw_err) (w : World) : result gw_err Held * World :=
    match home with
    | None => (Err (default ErrNoUsableConnection first), w)
    | Some home =>
        match server_acquire w home (ae_home_now env) (ae_home_done env) (ae_home_answer env) with
        | (Err herr, w) => (Err (default herr first), w)
        | (Ok h, w) =>
            if negb (usable w h) || negb (belongsTo w h user database)
            then (Err ErrNoUsableConnection, server_release w h)
            else (Ok h, w)
        end
    end in
  match acquire hint (ae_attempts env) w with
  | (Err e, w) => fall_back (Some e) w
  | (Ok h, w) =>
      if usable w h && belongsTo w h user database then (Ok h, w)
      else
        let '(authenticated, w) :=
          if negb (usable w h) && canAuthenticateBackends store cr
          then match authenticateFreshBackend user database cr (ae_fresh env) w h with
               | (Ok _, w) => (true, w)
               | (Err _, w) => (false, w)
               end
          else (false, w) in
        if authenticated : bool then (Ok h, w) else fall_back None (server_release w h)
  end.

(** ** Every connection is accounted for *)

(** The references held of one backend. *)
Definition held_at (held : gset Held) (addr : bytes) : gset positive :=
  set_map snd (filter (fun h : Held => fst h = addr) held).

(** Every backend counts exactly the connections that are held of it. *)
Definition world_ok (w : World) (held : gset Held) : Prop :=
  (forall addr p, w_servers w !! addr = Some p -> accounted (p, held_at held addr)) /\
  (forall h, h ∈ held -> is_Some (w_servers w !! fst h)).

Lemma elem_held_at held addr ref : ref ∈ held_at held addr <-> (addr, ref) ∈ held.
Proof.
  unfold held_at. rewrite elem_of_map. split.
  - intros ([a r] & -> & H). apply elem_of_filter in H as [Ha H]. cbn in *. by subst a.
  - intros H. exists (addr, ref). split; [done|]. apply elem_of_filter. done.
Qed.

Lemma held_at_add held addr addr' ref :
  held_at ({[(addr, ref)]} ∪ held) addr' = if decide (addr' = addr) then {[ref]} ∪ held_at held addr' else held_at held addr'.
Proof.
  apply set_eq. intros r. case_decide; rewrite ?elem_of_union, !elem_held_at, ?elem_of_union, ?elem_of_singleton; naive_solver.
Qed.

Lemma held_at_remove held addr addr' ref :
  held_at (held ∖ {[(addr, ref)]}) addr' = if decide (addr' = addr) then held_at held addr' ∖ {[ref]} else held_at held addr'.
Proof.
  apply set_eq. intros r. case_decide; rewrite ?elem_of_difference, !elem_held_at, ?elem_of_difference, ?elem_of_singleton; naive_solver.
Qed.

Lemma server_acquire_ok w held addr now done_at answer r w' :
  world_ok w held -> (forall ref c, answer = EngineConn ref c -> (addr, ref) ∉ held) ->
  server_acquire w addr now done_at answer = (r, w') ->
  match r with
  | Err _ => world_ok w' held
  | Ok h => fst h = addr /\ h ∉ held /\ world_ok w' ({[h]} ∪ held)
  end.
Proof.
  intros [Hw Hd] Hn. unfold server_acquire. destruct (w_servers w !! addr) as [p|] eqn:Ep; [|by intros [= <- <-]].
  destruct (AcquireFor p now done_at answer) as [[e|ref] p'] eqn:E; intros [= <- <-].
  - split.
    + intros a q. cbn [set_server w_servers]. destruct (decide (addr = a)) as [<-|Hne].
      * rewrite lookup_insert_eq. intros [= <-]. eapply accounted_step; [by eapply sv_acquire_failed|by apply Hw].
      * rewrite lookup_insert_ne by done. apply Hw.
    + intros h Hh. cbn [set_server w_servers]. destruct (decide (addr = fst h)) as [->|Hne]; [by rewrite lookup_insert_eq|].
      rewrite lookup_insert_ne by done. by apply Hd.
  - assert ((addr, ref) ∉ held) as Hr.
    { destruct answer as [e|ex|ref0 c0]; unfold AcquireFor in E; destruct (sv_draining p); try done.
      - destruct (Call _ _ _ _) as [[| |] ?]; done.
      - destruct (Call _ _ _ _) as [[| |] ?]; try done; injection E as <- _; by eapply Hn. }
    cbn [fst]. split_and!; [done|done|]. split.
    + intros a q. cbn [set_server w_servers]. rewrite held_at_add. destruct (decide (addr = a)) as [<-|Hne].
      * rewrite lookup_insert_eq, decide_True by done. intros [= <-].
        eapply accounted_step; [eapply sv_acquire; [exact E|by rewrite elem_held_at]|by apply Hw].
      * rewrite lookup_insert_ne, decide_False by done. apply Hw.
    + intros h Hh. cbn [set_server w_servers]. destruct (decide (addr = fst h)) as [->|Hne]; [by rewrite lookup_insert_eq|].
      rewrite lookup_insert_ne by done. apply Hd. set_unfold. naive_solver.
Qed.

Lemma server_release_ok w held h : world_ok w held -> h ∈ held -> world_ok (server_release w h) (held ∖ {[h]}).
Proof.
  intros [Hw Hd] Hh. destruct h as [addr ref]. unfold server_release. cbn [fst snd].
  destruct (Hd _ Hh) as [p Ep]. cbn in Ep. rewrite Ep. split.
  - intros a q. cbn [set_server w_servers]. rewrite held_at_remove. destruct (decide (addr = a)) as [<-|Hne].
    + rewrite lookup_insert_eq, decide_True by done. intros [= <-].
      eapply accounted_step; [apply sv_release; by rewrite elem_held_at|by apply Hw].
    + rewrite lookup_insert_ne, decide_False by done. apply Hw.
  - intros h' [Hh' _]%elem_of_difference. cbn [set_server w_servers]. destruct (decide (addr = fst h')) as [->|Hne]; [by rewrite lookup_insert_eq|].
    rewrite lookup_insert_ne by done. by apply Hd.
Qed.

Definition keeps_busy (f : Conn -> Conn) : Prop := forall c, c_busy (f c) = c_busy c.

Lemma on_conn_ok w held h f : world_ok w held -> keeps_busy f -> world_ok (on_conn w h f) held.
Proof.
  intros [Hw Hd] Hf. unfold on_conn. destruct (w_servers w !! fst h) as [p|] eqn:Ep; [|done].
  destruct (sv_conns p !! snd h) as [c|] eqn:Ec; [|done]. split.
  - intros a q. cbn [set_server w_servers]. destruct (decide (fst h = a)) as [<-|Hne].
    + rewrite lookup_insert_eq. intros [= <-]. destruct (Hw _ _ Ep) as [H1 H2]. split; cbn; [lia|].
      intros r Hr. destruct (decide (snd h = r)) as [<-|Hr'].
      * rewrite lookup_insert_eq. exists (f c). split; [done|]. rewrite Hf. destruct (H2 _ Hr) as (c' & Ec' & Hb).
        rewrite Ec in Ec'. by injection Ec' as ->.
      * rewrite lookup_insert_ne by done. by apply H2.
    + rewrite lookup_insert_ne by done. apply Hw.
  - intros h' Hh'. cbn [set_server w_servers]. destruct (decide (fst h = fst h')) as [->|Hne]; [by rewrite lookup_insert_eq|].
    rewrite lookup_insert_ne by done. by apply Hd.
Qed.

Lemma conn_of_on_conn w h f c : conn_of w h = Some c -> conn_of (on_conn w h f) h = Some (f c).
Proof.
  unfold conn_of, on_conn. destruct (w_servers w !! fst h) as [p|] eqn:Ep; [|done]. cbn. intros Ec. rewrite Ec. cbn.
  rewrite lookup_insert_eq. cbn. by rewrite lookup_insert_eq.
Qed.

Lemma held_conn w held h : world_ok w held -> h ∈ held -> exists c, conn_of w h = Some c /\ c_busy c = true.
Proof.
  intros [Hw Hd] Hh. destruct (Hd _ Hh) as [p Ep]. destruct (Hw _ _ Ep) as [_ H].
  destruct h as [addr ref]. cbn in *. destruct (H ref) as (c & Ec & Hb); [by rewrite elem_held_at|].
  exists c. unfold conn_of. cbn. by rewrite Ep.
Qed.

Lemma trigger_ok w held : world_ok w held -> world_ok (trigger w) held.
Proof. done. Qed.
#[export] Hint Resolve trigger_ok : core.

(** The pooling engine's promise: what it hands out is in nobody's hands. *)
Definition answer_free (held : gset Held) (addr : bytes) (answer : engine_answer) : Prop :=
  forall ref c, answer = EngineConn ref c -> (addr, ref) ∉ held.

Definition attempt_free (held : gset Held) (a : attempt) : Prop :=
  forall addr, at_next a = Ok addr -> answer_free held addr (at_answer a).

Definition env_free (held : gset Held) (home : option bytes) (env : acquire_env) : Prop :=
  Forall (attempt_free held) (ae_attempts env) /\ (forall addr, home = Some addr -> answer_free held addr (ae_home_answer env)).

(** The outcome of an acquisition, with respect to what is held. *)
Definition acquired_ok (held : gset Held) (r : result gw_err Held * World) : Prop :=
  match fst r with
  | Ok h => h ∉ held /\ world_ok (snd r) ({[h]} ∪ held)
  | Err _ => world_ok (snd r) held
  end.

Lemma acquire_loop_ok hint attempts held : forall i e w,
  world_ok w held -> Forall (attempt_free held) attempts -> acquired_ok held (acquire_loop hint i attempts e w).
Proof.
  induction attempts as [|a attempts IH]; intros i e w Hw Hf; cbn [acquire_loop]; [exact Hw|].
  apply Forall_cons_iff in Hf as [Ha Hf]. destruct (if needs_primary hint then at_wait a else None); [exact Hw|].
  assert (acquired_ok held (match at_next a with
    | Err e => (Err e, w) | Ok addr => server_acquire w addr (at_now a) (at_done a) (at_answer a) end)) as Hs.
  { destruct (at_next a) as [ex|addr] eqn:En; [exact Hw|].
    destruct (server_acquire _ _ _ _ _) as [r w'] eqn:E. apply (server_acquire_ok _ held) in E; [|done|by apply Ha].
    unfold acquired_ok. cbn. destruct r; [done|]. by destruct E as (_ & ? & ?). }
  destruct (match at_next a with Err e => (Err e, w) | Ok addr => _ end) as [[e'|h] w']; [|done].
  unfold acquired_ok in Hs. cbn in Hs.
  assert (world_ok (if needs_primary hint && (is_no_healthy e' || bool_decide (i = 2%nat)) then trigger w' else w') held) as Ht
    by (case_match; auto).
  destruct (bool_decide (i < 2)%nat && at_cancelled a); [exact Ht|]. by apply IH.
Qed.

Lemma acquire_ok hint attempts held w :
  world_ok w held -> Forall (attempt_free held) attempts -> acquired_ok held (acquire hint attempts w).
Proof. intros Hw Hf. apply acquire_loop_ok; [done|by apply Forall_take]. Qed.

(** A connection a session may speak on. *)
Definition speakable (w : World) (h : Held) (user database : bytes) : Prop :=
  exists c, conn_of w h = Some c /\ c_ready c = true /\ BelongsTo c user database = true.

Lemma speakable_tests w held h user database :
  world_ok w held -> h ∈ held -> usable w h = true -> belongsTo w h user database = true -> speakable w h user database.
Proof.
  intros Hw Hh Hu Hb. destruct (held_conn _ _ _ Hw Hh) as (c & Ec & _). exists c.
  unfold usable, belongsTo in *. by rewrite Ec in *.
Qed.

Lemma BelongsTo_SetIdentity c user database : BelongsTo (MarkReady (SetIdentity c user database)) user database = true.
Proof. unfold BelongsTo. cbn. case_decide; [done|]. by rewrite bool_decide_true. Qed.

(** What a session obtains, or not. *)
Definition session_acquired (held : gset Held) (user database : bytes) (r : result gw_err Held * World) : Prop :=
  acquired_ok held r /\ forall h, fst r = Ok h -> speakable (snd r) h user database.

Lemma remove_added (held : gset Held) h : h ∉ held -> ({[h]} ∪ held) ∖ {[h]} = held.
Proof. intros H. set_solver. Qed.

Lemma acquireForSession_ok store hint home state cr env held w :
  world_ok w held -> env_free held home env ->
  session_acquired held (User state) (Database state) (acquireForSession store hint home state cr env w).
Proof.
  intros Hw [Hf Hh].
  assert (forall first w, world_ok w held -> session_acquired held (User state) (Database state)
    (match home with
     | None => (Err (default ErrNoUsableConnection first), w)
     | Some home =>
        match server_acquire w home (ae_home_now env) (ae_home_done env) (ae_home_answer env) with
        | (Err herr, w) => (Err (default herr first), w)
        | (Ok h, w) => if negb (usable w h) || negb (belongsTo w h (User state) (Database state))
                       then (Err ErrNoUsableConnection, server_release w h) else (Ok h, w)
        end
     end)) as Hback.
  { clear w Hw. intros first w Hw. destruct home as [home|]; [|by split].
    destruct (server_acquire w home _ _ _) as [r w'] eqn:E. apply (server_acquire_ok _ held) in E; [|done|by apply Hh].
    destruct r as [e|h]; [by split|]. destruct E as (_ & Hn & Hw').
    destruct (usable w' h) eqn:Eu, (belongsTo w' h (User state) (Database state)) eqn:Eb; cbn [negb orb].
    { split; [by split|]. intros ? [= <-]. by eapply speakable_tests; [exact Hw'|set_solver|..]. }
    all: split; [|done]; unfold acquired_ok; cbn [fst snd]; rewrite <- (remove_added held h) by done; apply server_release_ok; [done|set_solver]. }
  unfold acquireForSession. cbv zeta.
  pose proof (acquire_ok hint (ae_attempts env) held w Hw Hf) as Ha.
  destruct (acquire hint (ae_attempts env) w) as [[e|h] w1]; unfold acquired_ok in Ha; cbn [fst snd] in Ha; [by apply Hback|].
  destruct Ha as [Hn Hw1].
  destruct (usable w1 h && belongsTo w1 h (User state) (Database state)) eqn:Eu.
  { apply andb_true_iff in Eu as [Eu Eb]. split; [by split|]. intros ? [= <-]. by eapply speakable_tests; [exact Hw1|set_solver|..]. }
  assert (forall w, world_ok w ({[h]} ∪ held) -> world_ok (server_release w h) held) as Hrel.
  { intros w2 Hw2. rewrite <- (remove_added held h) by done. apply server_release_ok; [done|set_solver]. }
  destruct (negb (usable w1 h) && canAuthenticateBackends store cr); [|by apply Hback, Hrel].
  unfold authenticateFreshBackend. destruct (fst (startup_exchange _ _ cr (ae_fresh env))) as [e|st]; [by apply Hback, Hrel|].
  split; [split; [done|apply on_conn_ok; [done|by intros []]]|]. intros ? [= <-].
  destruct (held_conn _ _ h Hw1) as (c & Ec & _); [set_solver|].
  eexists. split; [by apply conn_of_on_conn|]. split; [done|apply BelongsTo_SetIdentity].
Qed.

(** C10: A session only ever speaks on a connection of its own identity, and
    looking for one leaks none.  Whatever the balancer picks, the pooling engine
    answers and the backends reply, the connection a mid-session acquisition
    returns was in nobody's hands, has completed a startup exchange, and is
    authenticated as the session's user and database or, if it records no
    identity, as nobody's; every other connection tried on the way has been given
    back, so every backend counts exactly the connections that are held. *)
Theorem acquisition_safe store hint home state cr env held w r w' :
  world_ok w held -> env_free held home env ->
  acquireForSession store hint home state cr env w = (r, w') ->
  match r with
  | Err _ => world_ok w' held
  | Ok h => h ∉ held /\ world_ok w' ({[h]} ∪ held) /\
      exists c, conn_of w' h = Some c /\ c_ready c = true /\
        ((c_user c = User state /\ c_database c = Database state) \/ (c_user c = [] /\ c_database c = []))
  end.
Proof.
  intros Hw Hf E. pose proof (acquireForSession_ok store hint home state cr env held w Hw Hf) as [Ha Hs].
  rewrite E in *. cbn [fst snd] in *. destruct r as [e|h]; [done|]. destruct Ha as [Hn Hw']. split_and!; [done|done|].
  destruct (Hs _ eq_refl) as (c & Ec & Hr & Hb). exists c. split_and!; [done|done|].
  unfold BelongsTo in Hb. case_decide; [by right|]. left. by apply bool_decide_eq_true in Hb.
Qed.

Definition alice_creds : Creds := {| cr_ClientKey := Some alice_key; cr_Verifier := alice_V |}.
Definition alice_state : SessionState :=
  {| StartupPacket := []; Replication := []; Vars := ∅; Stmts := ∅; TxState := StateIdle; User := bs "alice";
     Database := bs "app"; LastLSN := []; Pinned := false; BackendKey := []; PinnedBy := 0 |}.
Definition one_primary : World := {| w_servers := {[ bs "db1" := newServer RolePrimary ]}; w_failovers := 0 |}.
Definition trusting_backend : fresh_io :=
  {| fi_conn := {| cc_in := frames [ok_frame; (ch "Z", [ch "I"])]; cc_out := [] |}; fi_raw := fun _ => None |}.
Definition first_answer : acquire_env :=
  {| ae_attempts := [{| at_wait := None; at_next := Ok (bs "db1"); at_now := 0; at_done := 0;
                        at_answer := EngineConn 1 (NewConn 0); at_cancelled := false |}];
     ae_fresh := trusting_backend; ae_home_now := 0; ae_home_done := 0; ae_home_answer := EngineErr false |}.

Definition first_acquired := acquireForSession true {| hk_ReadOnly := true; hk_AcceptReplica := false |} None alice_state
                               alice_creds first_answer one_primary.

Lemma one_primary_ok : world_ok one_primary ∅.
Proof.
  split; [|set_solver]. intros addr p. unfold one_primary. cbn [w_servers]. intros [<- <-]%lookup_singleton_Some.
  split; [done|set_solver].
Qed.

Lemma acquisition_safe_witness :
  fst first_acquired = Ok (bs "db1", 1%positive) /\
  (bs "db1", 1%positive) ∉ (∅ : gset Held) /\ world_ok (snd first_acquired) ({[(bs "db1", 1%positive)]} ∪ ∅) /\
  exists c, conn_of (snd first_acquired) (bs "db1", 1%positive) = Some c /\ c_ready c = true /\
    ((c_user c = bs "alice" /\ c_database c = bs "app") \/ (c_user c = [] /\ c_database c = [])).
Proof.
  assert (first_acquired = (Ok (bs "db1", 1%positive), snd first_acquired)) as E by (vm_compute; reflexivity).
  split; [rewrite E; reflexivity|].
  refine (acquisition_safe true _ None alice_state alice_creds first_answer ∅ one_primary (Ok (bs "db1", 1%positive)) _ one_primary_ok _ E).
  split; [|done]. repeat constructor. intros addr _ ref c _. apply not_elem_of_empty.
Defined.

(** ** One statement *)

Record GSession := {
  gs_State : SessionState; gs_Creds : Creds;
  gs_Server : option Held;         (* [Server], with the [Backend] it belongs to *)
  gs_Home : option bytes; gs_ShouldReplay : bool; gs_ReplyFailed : bool
}.

Definition with_server (s : GSession) (h : option Held) (replay : bool) : GSession :=
  {| gs_State := gs_State s; gs_Creds := gs_Creds s; gs_Server := h; gs_Home := gs_Home s;
     gs_ShouldReplay := replay; gs_ReplyFailed := gs_ReplyFailed s |}.

Definition with_state (s : GSession) (st : SessionState) (failed : bool) : GSession :=
  {| gs_State := st; gs_Creds := gs_Creds s; gs_Server := gs_Server s; gs_Home := gs_Home s;
     gs_ShouldReplay := gs_ShouldReplay s; gs_ReplyFailed := failed |}.

Definition set_LastLSN (s : SessionState) (lsn : bytes) : SessionState :=
  {| StartupPacket := StartupPacket s; Replication := Replication s; Vars := Vars s; Stmts := Stmts s; TxState := TxState s;
     User := User s; Database := Database s; LastLSN := lsn; Pinned := Pinned s; BackendKey := BackendKey s;
     PinnedBy := PinnedBy s |}.

(** A connection together with what was written to it. *)
#[global, program] Instance logged_holder : StatementHolder (Conn * list bytes) := {
  HasStatement c n := conn_HasStatement (fst c) n;
  AddStatement c n := (conn_AddStatement (fst c) n, snd c)
}.
Next Obligation. intros c n m. exact (has_add (Conn := Conn) (fst c) n m). Qed.

(** What one statement meets. *)
Record exec_env := {
  xe_acquire : acquire_env;                     (* the first acquisition *)
  xe_waitLSN : bool;                            (* [WaitLSN] succeeded *)
  xe_retry : acquire_env;                       (* the acquisition after it failed *)
  xe_vars : list (bytes * bytes); xe_stmts : list (bytes * bytes);   (* how the maps are ranged over *)
  xe_accepts : bytes -> bool;                   (* the backend accepts a replayed message *)
  xe_write : bool;                              (* the statement could be written *)
  xe_capture : option responseCapture;          (* the cache's buffer, or the collapser's *)
  xe_deadline : bool; xe_reads : list server_read; xe_pump_err : bool;
  xe_timed_out : bool;                          (* the read error is the deadline's *)
  xe_lsn : option bytes                         (* [GetCurrentLSN] *)
}.

(** [replaySession], up to the report to the client: what was written to the
    connection, and the connection with the statements it now carries. *)
Definition replaySession (env : exec_env) (c : Conn) : result bytes (Conn * list bytes) :=
  let send (c : Conn * list bytes) (msg : bytes) : result bytes (Conn * list bytes) :=
    if xe_accepts env msg then Ok (fst c, snd c ++ [msg]) else Err msg in
  c ← replay_vars send (c, []) (xe_vars env);
  replay_stmts send c (xe_stmts env).

Definition SeverityFatal : bytes := bs "FATAL".
Definition SQLStateAdminShutdown : bytes := bs "57P01".
Definition SQLStateQueryCanceled : bytes := bs "57014".

Definition replay_failed_message : bytes :=
  ErrorResponse SeverityFatal SQLStateAdminShutdown
    (bs "terminating connection: Pontus could not restore this session on a new backend connection").

(** What a statement leaves: the error, the session, the backends, what the
    client was sent and what the backend was. *)
Record exec_out := {
  xo_err : option gw_err; xo_session : GSession; xo_world : World; xo_client : bytes; xo_server : list bytes;
  xo_unread : list server_read
}.

Definition stop_exec (e : gw_err) (s : GSession) (w : World) (client : bytes) (server : list bytes) : outcome exec_out :=
  Returns {| xo_err := Some e; xo_session := s; xo_world := w; xo_client := client; xo_server := server; xo_unread := [] |}.

(** The connection a statement runs on. *)
Definition ensure_server (store readOnly : bool) (env : exec_env) (s : GSession) (w : World)
  : result gw_err (Held * GSession) * World :=
  match gs_Server s with
  | Some h => (Ok (h, s), w)
  | None =>
      match acquireForSession store {| hk_ReadOnly := readOnly; hk_AcceptReplica := false |} (gs_Home s) (gs_State s) (gs_Creds s)
              (xe_acquire env) w with
      | (Err e, w) => (Err e, w)
      | (Ok h, w) =>
          let replica := match w_servers w !! fst h with Some p => bool_decide (sv_role p = RoleReplica) | None => false end in
          let '(r, w) :=
            if readOnly && bool_decide (LastLSN (gs_State s) <> []) && replica && negb (xe_waitLSN env)
            then acquireForSession store {| hk_ReadOnly := false; hk_AcceptReplica := false |} (gs_Home s) (gs_State s)
                   (gs_Creds s) (xe_retry env) (server_release w h)
            else (Ok h, w) in
          (match r with Err e => Err e | Ok h => Ok (h, with_server s (Some h) true) end, w)
      end
  end.

(** The message that says a statement ran out of time; [timeout] renders the
    configured duration. *)
Definition timeout_message (timeout : bytes) : bytes :=
  ErrorResponse SeverityFatal SQLStateQueryCanceled (bs "canceling statement: exceeded Pontus query_timeout of " ++ timeout).

(** The rest of [executeRequest] once the statement has been written. *)
Definition after_write (store readOnly : bool) (mode : poolingMode) (timeout data : bytes) (env : exec_env)
    (h : Held) (s : GSession) (w : World) (sent : list bytes) : outcome exec_out :=
  let st := track_message (gs_State s) data in
  let name := ParseStatementName data in
  let w := if decide (name <> []) then on_conn w h (fun c => conn_AddStatement c name) else w in
  match proxyResponse (xe_deadline env) (xe_pump_err env) (xe_capture env) readOnly (ResponseEndFor data) (xe_reads env) with
  | Blocks => Blocks
  | OutOfFuel => OutOfFuel
  | Returns rr =>
      let err := rr_err rr in
      let w := match err with Some ErrServerRead => on_conn w h MarkBroken | _ => w end in
      let st := finish_reply st (rr_state rr) in
      let st := match err, xe_lsn env with
                | None, Some lsn => if readOnly then st else set_LastLSN st lsn
                | _, _ => st
                end in
      let s := with_state s st (default (gs_ReplyFailed s) (rr_failed rr)) in
      let expired := bool_decide (is_Some err) && xe_timed_out env in
      let w := if expired then on_conn w h MarkBroken else w in
      let client := rr_client rr ++ (if expired then timeout_message timeout else []) in
      let release := shouldReleaseAt mode (rr_state rr) (IsPinned st) in
      let w := if release then (if store then releaseToPool w (Some h) else server_release w h) else w in
      let s := if release then with_server s None (gs_ShouldReplay s) else s in
      Returns {| xo_err := if rr_readonly rr then None else GwReply <$> err;
                 xo_session := s; xo_world := w; xo_client := client; xo_server := sent ++ [data];
                 xo_unread := rr_unread rr |}
  end.

(** [executeRequest], for a statement that is not collapsed into another. *)
Definition executeRequest (store readOnly : bool) (mode : poolingMode) (timeout data : bytes) (env : exec_env)
    (s : GSession) (w : World) : outcome exec_out :=
  match ensure_server store readOnly env s w with
  | (Err e, w) => stop_exec e s w [] []
  | (Ok (h, s), w) =>
      match conn_of w h with
      | None => stop_exec GwNoBackend s w [] []
      | Some c =>
          match (if gs_ShouldReplay s then replaySession env c else Ok (c, [])) with
          | Err _ => stop_exec GwReplay s (on_conn w h MarkBroken) replay_failed_message []
          | Ok (c, sent) =>
              let w := on_conn w h (fun _ => c) in
              if negb (xe_write env) then
                stop_exec GwWrite (with_server s None (gs_ShouldReplay s)) (server_release (on_conn w h MarkBroken) h) [] sent
              else after_write store readOnly mode timeout data env h s w sent
          end
      end
  end.

(** ** A statement keeps the accounts *)

Definition held_of (s : GSession) : gset Held := match gs_Server s with Some h => {[h]} | None => ∅ end.

(** The session's connection and everybody else's. *)
Definition holding (w : World) (s : GSession) (others : gset Held) : Prop :=
  world_ok w (held_of s ∪ others) /\ held_of s ## others.

Definition exec_free (others : gset Held) (s : GSession) (env : exec_env) : Prop :=
  env_free others (gs_Home s) (xe_acquire env) /\ env_free others (gs_Home s) (xe_retry env).

Lemma holding_on_conn w s others h f : holding w s others -> keeps_busy f -> holding (on_conn w h f) s others.
Proof. intros [Hw Hd] Hf. split; [by apply on_conn_ok|done]. Qed.

Lemma holding_server w s s' others : holding w s others -> gs_Server s' = gs_Server s -> holding w s' others.
Proof. unfold holding, held_of. intros H ->. done. Qed.

(** Giving the session's connection back, in either way. *)
Lemma holding_release w s others h replay :
  holding w s others -> gs_Server s = Some h -> holding (server_release w h) (with_server s None replay) others.
Proof.
  unfold holding, held_of. intros [Hw Hd] E. rewrite E in *. cbn [gs_Server with_server].
  replace (∅ ∪ others) with (({[h]} ∪ others) ∖ {[h]}) by set_solver. split; [|set_solver].
  apply server_release_ok; [done|set_solver].
Qed.

Lemma holding_releaseToPool w s others h replay :
  holding w s others -> gs_Server s = Some h -> holding (releaseToPool w (Some h)) (with_server s None replay) others.
Proof. intros H E. apply holding_release; [|done]. by apply holding_on_conn. Qed.

Lemma ensure_server_ok store readOnly env s w others :
  holding w s others -> (gs_Server s = None -> exec_free others s env) ->
  match ensure_server store readOnly env s w with
  | (Err _, w') => holding w' s others
  | (Ok (h, s'), w') => holding w' s' others /\ gs_Server s' = Some h
  end.
Proof.
  intros [Hw Hd] Hfree. unfold ensure_server. destruct (gs_Server s) as [h|] eqn:Es; [done|]. destruct (Hfree eq_refl) as [Ha Hr].
  assert (held_of s = ∅) as E0 by (unfold held_of; by rewrite Es). rewrite E0, (left_id_L ∅ (∪)) in Hw.
  assert (forall r, session_acquired others (User (gs_State s)) (Database (gs_State s)) r ->
    match fst r with
    | Err _ => holding (snd r) s others
    | Ok h => holding (snd r) (with_server s (Some h) true) others end) as Hg.
  { intros [[e|h] w'] [Hac _]; unfold acquired_ok, holding in *; cbn [fst snd] in *.
    - rewrite E0, (left_id_L ∅ (∪)). split; [done|set_solver].
    - cbn. destruct Hac as [Hn Hw']. split; [done|set_solver]. }
  pose proof (acquireForSession_ok store {| hk_ReadOnly := readOnly; hk_AcceptReplica := false |} _ (gs_State s) (gs_Creds s) _ others w Hw Ha) as Hacq.
  destruct (acquireForSession _ _ _ _ _ _ w) as [[e|h] w1]; [by apply (Hg (Err e, w1))|].
  cbv zeta. match goal with |- context [if ?b then acquireForSession _ _ _ _ _ _ _ else _] => destruct b end.
  - assert (world_ok (server_release w1 h) others) as Hw1.
    { destruct Hacq as [[Hn Hw1] _]. cbn in Hn, Hw1. rewrite <- (remove_added others h) by done.
      apply server_release_ok; [done|set_solver]. }
    pose proof (acquireForSession_ok store {| hk_ReadOnly := false; hk_AcceptReplica := false |} _ (gs_State s) (gs_Creds s) _ others _ Hw1 Hr) as Hret.
    destruct (acquireForSession _ _ _ _ _ _ (server_release w1 h)) as [[e|h2] w2]; [by apply (Hg (Err e, w2))|].
    split; [by apply (Hg (Ok h2, w2))|done].
  - split; [by apply (Hg (Ok h, w1))|done].
Qed.

Lemma replay_busy env c c' sent : replaySession env c = Ok (c', sent) -> c_busy c' = c_busy c.
Proof.
  unfold replaySession. intros ([c1 l1] & H1 & H2)%result_bind_ok.
  assert (c_busy c1 = c_busy c) as <-.
  { assert (forall vs c0 c1, replay_vars (fun (c : Conn * list bytes) msg => if xe_accepts env msg then Ok (fst c, snd c ++ [msg]) else Err msg) c0 vs = Ok c1 ->
      c_busy (fst c1) = c_busy (fst c0)) as Hv.
    { clear. induction vs as [|[n q] vs IH]; intros c0 c1; cbn [replay_vars]; [by intros [= <-]|].
      intros (c2 & H & H2)%result_bind_ok. rewrite (IH _ _ H2). destruct (xe_accepts env _); [|done]. by injection H as <-. }
    by apply (Hv _ _ _ H1). }
  assert (forall ss c0 c1, replay_stmts (fun (c : Conn * list bytes) msg => if xe_accepts env msg then Ok (fst c, snd c ++ [msg]) else Err msg) c0 ss = Ok c1 ->
      c_busy (fst c1) = c_busy (fst c0)) as Hv.
  { clear. induction ss as [|[n q] ss IH]; intros c0 c1; cbn [replay_stmts]; [by intros [= <-]|].
    destruct (HasStatement c0 n); [apply IH|].
    intros (c2 & H & H2)%result_bind_ok. rewrite (IH _ _ H2). destruct (xe_accepts env _); [|done]. injection H as <-.
    cbn. unfold conn_AddStatement. by case_decide. }
  by apply (Hv _ _ _ H2).
Qed.

Lemma keeps_busy_add name : keeps_busy (fun c => conn_AddStatement c name).
Proof. intros c. unfold conn_AddStatement. by case_decide. Qed.
#[export] Hint Resolve keeps_busy_add : core.

Lemma after_write_ok store readOnly mode timeout data env h s w sent others o :
  holding w s others -> gs_Server s = Some h ->
  after_write store readOnly mode timeout data env h s w sent = Returns o -> holding (xo_world o) (xo_session o) others.
Proof.
  intros Hh Es. unfold after_write. cbv zeta.
  set (w1 := if decide (ParseStatementName data <> []) then _ else w).
  assert (holding w1 s others) as H1 by (subst w1; case_decide; [by apply holding_on_conn|done]). clearbody w1.
  destruct (proxyResponse _ _ _ _ _ _) as [| |rr]; [done|done|]. intros [= <-]. cbn [xo_world xo_session].
  set (w2 := match rr_err rr with Some ErrServerRead => on_conn w1 h MarkBroken | _ => w1 end).
  assert (holding w2 s others) as H2 by (subst w2; destruct (rr_err rr) as [[]|]; try done; by apply holding_on_conn). clearbody w2.
  set (w3 := if bool_decide _ && xe_timed_out env then on_conn w2 h MarkBroken else w2).
  assert (holding w3 s others) as H3 by (subst w3; case_match; [by apply holding_on_conn|done]). clearbody w3.
  match goal with |- context [with_state s ?a ?b] => set (s1 := with_state s a b) end.
  assert (holding w3 s1 others /\ gs_Server s1 = Some h) as [H4 Es1] by (split; [by eapply holding_server|done]). clearbody s1.
  destruct (shouldReleaseAt _ _ _); [|done].
  destruct store; [by apply holding_releaseToPool|by apply holding_release].
Qed.

Lemma executeRequest_ok store readOnly mode timeout data env s w others o :
  holding w s others -> (gs_Server s = None -> exec_free others s env) ->
  executeRequest store readOnly mode timeout data env s w = Returns o -> holding (xo_world o) (xo_session o) others.
Proof.
  intros Hh Hf. unfold executeRequest, stop_exec. pose proof (ensure_server_ok store readOnly env s w others Hh Hf) as He.
  destruct (ensure_server store readOnly env s w) as [[e|[h s1]] w1]; [by intros [= <-]|]. destruct He as [H1 Es].
  destruct (conn_of w1 h) as [c|] eqn:Ec; [|by intros [= <-]].
  assert (forall c' sent, (if gs_ShouldReplay s1 then replaySession env c else Ok (c, [])) = Ok (c', sent) -> c_busy c' = c_busy c) as Hb.
  { intros c' sent. destruct (gs_ShouldReplay s1); [apply replay_busy|by intros [= <- _]]. }
  destruct (if gs_ShouldReplay s1 then _ else _) as [e|[c' sent]]; [intros [= <-]; by apply holding_on_conn|].
  assert (holding (on_conn w1 h (fun _ => c')) s1 others) as H2.
  { specialize (Hb _ _ eq_refl). destruct H1 as [[Hw Hd] Hdis]. split; [|done]. unfold on_conn, conn_of in *.
    destruct (w_servers w1 !! fst h) as [p|] eqn:Ep; [|done]. cbn in Ec. rewrite Ec.
    pose proof (on_conn_ok w1 _ h (fun c0 => if decide (c_busy c0 = c_busy c') then c' else c0) (conj Hw Hd)) as Hk.
    unfold on_conn in Hk. rewrite Ep, Ec, decide_True in Hk by done. apply Hk. intros c0. by case_decide. }
  destruct (xe_write env); cbn [negb].
  - intros Ho. by eapply after_write_ok.
  - intros [= <-]. cbn [xo_world xo_session]. apply holding_release; [by apply holding_on_conn|done].
Qed.

(** ** Opening a session *)

Definition identityAttempts : nat := 8.

(** What one attempt meets: the acquisition, the backend's bytes, whether a
    relayed handshake went through, and whether the client could be written to. *)
Record open_attempt := { oa_attempts : list attempt; oa_fresh : fresh_io; oa_relay : bool; oa_client : bool }.

(** [openAuthenticatedBackend], as far as the connection is concerned. *)
Definition openAuthenticatedBackend (state : SessionState) (cr : Creds) (a : open_attempt) (w : World) (h : Held)
  : result gw_err unit :=
  if usable w h then
    if negb (belongsTo w h (User state) (Database state)) then Err (GwAuth ErrWrongIdentity)
    else if oa_client a then Ok tt else Err GwWrite
  else match fst (startup_exchange (User state) (Database state) cr (oa_fresh a)) with
       | Err e => Err (GwAuth e)
       | Ok _ => if oa_client a then Ok tt else Err GwWrite
       end.

(** Whether the attempt is made again on another connection. *)
Definition retries (e : gw_err) : bool := match e with GwAuth ErrWrongIdentity | GwNeedsFresh => true | _ => false end.

(** The loop of [openSession], after the client's request has been read and, with
    a credential store, the client authenticated. *)
Fixpoint open_loop (store : bool) (state : SessionState) (cr : Creds) (attempts : list open_attempt) (lastErr : gw_err) (w : World)
  : result gw_err Held * World :=
  match attempts with
  | [] => (Err lastErr, w)
  | a :: attempts =>
      match acquire {| hk_ReadOnly := false; hk_AcceptReplica := true |} (oa_attempts a) w with
      | (Err e, w) => (Err e, w)
      | (Ok h, w) =>
          let r := if negb store && usable w h then Err GwNeedsFresh
                   else if store then openAuthenticatedBackend state cr a w h
                   else if oa_relay a then Ok tt else Err (GwAuth ErrAuthRejected) in
          match r with
          | Ok _ => (Ok h, on_conn w h (fun c => SetIdentity (MarkReady c) (User state) (Database state)))
          | Err e =>
              if retries e then open_loop store state cr attempts e (server_release (on_conn w h MarkBroken) h)
              else (Err e, server_release w h)
          end
      end
  end.

Definition openSession (store : bool) (state : SessionState) (cr : Creds) (attempts : list open_attempt) (w : World)
  : result gw_err Held * World :=
  open_loop store state cr (take identityAttempts attempts) GwNoBackend w.

(** ** The session loop *)

(** [handleClient] up to its loop: the startup connection goes back to the pool
    when Pontus can authenticate a replacement. *)
Definition begin_session (store : bool) (mode : poolingMode) (state : SessionState) (cr : Creds) (h : Held) (w : World)
  : GSession * World :=
  let w := on_conn w h MarkReady in
  let s := {| gs_State := state; gs_Creds := cr; gs_Server := Some h; gs_Home := Some (fst h); gs_ShouldReplay := false;
              gs_ReplyFailed := false |} in
  if store && shouldRelease mode state false then (with_server s None false, releaseToPool w (Some h)) else (s, w).

(** What the middleware chain does with a request. *)
Inductive chain_answer := ChainRefused | ChainServed | ChainRuns.

(** One turn of the loop: the client is gone, or sent a message. *)
Inductive client_event :=
| ReadFailed
| Message (data : bytes) (chain : chain_answer) (env : exec_env).

Record turn := { tn_ended : bool; tn_session : GSession; tn_world : World; tn_client : bytes; tn_unread : list server_read }.

Definition statement_pooling_refusal : bytes :=
  WritePostgresError (bs "0A000") (bs "statement pooling does not support transactions; use transaction or session pooling").

Section Loop.
Context (store : bool) (mode : poolingMode) (timeout : bytes) (classify : bytes -> QueryInfo).

(** What the loop does once the chain has returned without an error. *)
Definition between_statements (s : GSession) (w : World) : GSession * World :=
  match gs_Server s with
  | None => (s, w)
  | Some h =>
      if shouldRelease mode (gs_State s) (IsPinned (gs_State s))
      then (with_server s None (gs_ShouldReplay s), if store then releaseToPool w (Some h) else server_release w h)
      else (s, w)
  end.

(** And with one. *)
Definition failed_statement (s : GSession) (w : World) : GSession * World :=
  match gs_Server s with
  | None => (s, w)
  | Some h => (with_server s None (gs_ShouldReplay s), server_release w h)
  end.

Definition finish (ended : bool) (client : bytes) (unread : list server_read) (sw : GSession * World) : outcome turn :=
  Returns {| tn_ended := ended; tn_session := fst sw; tn_world := snd sw; tn_client := client; tn_unread := unread |}.

(** The body of [handleClient]'s loop. *)
Definition handle_event (ev : client_event) (s : GSession) (w : World) : outcome turn :=
  match ev with
  | ReadFailed => finish true [] [] (with_server s None (gs_ShouldReplay s), releaseToPool w (gs_Server s))
  | Message data chain env =>
      if store && IsTerminate data
      then finish true [] [] (with_server s None (gs_ShouldReplay s), releaseToPool w (gs_Server s))
      else
        let info := classify data in
        if rejectsTransactions mode && InTransaction info then finish false statement_pooling_refusal [] (s, w)
        else
          match chain with
          | ChainRefused => finish true [] [] (failed_statement s w)
          | ChainServed => finish false [] [] (between_statements s w)
          | ChainRuns =>
              match executeRequest store (ReadOnly info) mode timeout data env s w with
              | Blocks => Blocks
              | OutOfFuel => OutOfFuel
              | Returns o =>
                  match xo_err o with
                  | Some _ => finish true (xo_client o) (xo_unread o) (failed_statement (xo_session o) (xo_world o))
                  | None => finish false (xo_client o) (xo_unread o) (between_statements (xo_session o) (xo_world o))
                  end
              end
          end
  end.

(** ** Many sessions *)

(** The gateway: the backends, and the sessions being served. *)
Definition Gateway : Type := World * gmap nat GSession.

Definition in_hands (ss : gmap nat GSession) (h : Held) : Prop := exists i s, ss !! i = Some s /\ gs_Server s = Some h.

(** A session opens, makes a turn or leaves; a backend changes role or health.  Others that
    check connections out of the same backends (handleReplication, the refreshes of the
    result cache, the provisioner) are not sessions and not steps. *)
Inductive gw_step : Gateway -> Gateway -> Prop :=
| step_open w ss i state cr attempts h w1 s w2 :
    ss !! i = None ->
    Forall (fun a => forall b addr ref c, b ∈ oa_attempts a -> at_next b = Ok addr -> at_answer b = EngineConn ref c ->
              ~ in_hands ss (addr, ref)) attempts ->
    openSession store state cr attempts w = (Ok h, w1) ->
    begin_session store mode state cr h w1 = (s, w2) ->
    gw_step (w, ss) (w2, <[i := s]> ss)
| step_open_failed w ss state cr attempts e w1 :
    Forall (fun a => forall b addr ref c, b ∈ oa_attempts a -> at_next b = Ok addr -> at_answer b = EngineConn ref c ->
              ~ in_hands ss (addr, ref)) attempts ->
    openSession store state cr attempts w = (Err e, w1) ->
    gw_step (w, ss) (w1, ss)
| step_turn w ss i s ev t :
    ss !! i = Some s ->
    (forall data chain env others, ev = Message data chain env ->
       (forall h, h ∈ others <-> in_hands (delete i ss) h) -> gs_Server s = None -> exec_free others s env) ->
    handle_event ev s w = Returns t ->
    gw_step (w, ss) (tn_world t, if tn_ended t then delete i ss else <[i := tn_session t]> ss)
| step_backend w ss addr p p' :
    w_servers w !! addr = Some p ->
    (exists now answer, p' = snd (deepCheckAdmin p now answer)) \/ (exists role, p' = setRole p role) \/
      (exists now b, p' = SetHealthy p now b) ->
    gw_step (w, ss) (set_server w addr p', ss).
End Loop.

(** ** Exclusive and accounted *)

(** What is held is what the sessions hold, each connection by one of them. *)
Definition hands_ok (held : gset Held) (ss : gmap nat GSession) : Prop :=
  (forall h, h ∈ held <-> in_hands ss h) /\
  (forall i j s t h, ss !! i = Some s -> ss !! j = Some t -> gs_Server s = Some h -> gs_Server t = Some h -> i = j).

Definition gw_inv (g : Gateway) : Prop := exists held, world_ok (fst g) held /\ hands_ok held (snd g).

Lemma hands_delete held ss i s :
  hands_ok held ss -> ss !! i = Some s -> hands_ok (held ∖ held_of s) (delete i ss) /\ held_of s ⊆ held /\ held = held_of s ∪ (held ∖ held_of s).
Proof.
  intros [Hh Hu] Es. assert (held_of s ⊆ held) as Hsub.
  { intros h Hin. unfold held_of in Hin. destruct (gs_Server s) as [h'|] eqn:E; [|set_solver].
    apply elem_of_singleton in Hin as ->. apply Hh. by exists i, s. }
  split_and!; [split| done|apply union_difference_L, Hsub].
  - intros h. rewrite elem_of_difference, Hh. split.
    + intros [(j & t & Et & Eh) Hn]. exists j, t. split; [|done]. rewrite lookup_delete_ne; [done|]. intros <-.
      rewrite Es in Et. injection Et as <-. apply Hn. unfold held_of. rewrite Eh. set_solver.
    + intros (j & t & [Hne Et]%lookup_delete_Some & Eh). split; [by exists j, t|]. intros Hin. unfold held_of in Hin.
      destruct (gs_Server s) as [h'|] eqn:E; [|set_solver]. apply elem_of_singleton in Hin as ->.
      by apply Hne, (Hu i j s t h').
  - intros j k t u h [_ Hj]%lookup_delete_Some [_ Hk]%lookup_delete_Some. by apply (Hu j k t u h).
Qed.

Lemma hands_insert others ss i s :
  hands_ok others ss -> ss !! i = None -> held_of s ## others -> hands_ok (held_of s ∪ others) (<[i := s]> ss).
Proof.
  intros [Hh Hu] Ei Hd. split.
  - intros h. rewrite elem_of_union, Hh. split.
    + intros [Hin|(j & t & Et & Eh)].
      * exists i, s. rewrite lookup_insert_eq. split; [done|]. unfold held_of in Hin. destruct (gs_Server s); set_solver.
      * exists j, t. rewrite lookup_insert_ne by naive_solver. done.
    + intros (j & t & [[<- ->]|[Hne Et]]%lookup_insert_Some & Eh); [left; unfold held_of; rewrite Eh; set_solver|right; by exists j, t].
  - assert (forall j t h, ss !! j = Some t -> gs_Server t = Some h -> gs_Server s = Some h -> False) as Hx.
    { intros j t h Et Eh Esh. assert (h ∈ others) as Ho by (apply Hh; by exists j, t).
      unfold held_of in Hd. rewrite Esh in Hd. set_solver. }
    intros j k t u h Hj Hk Et Eu. apply lookup_insert_Some in Hj as [[<- <-]|[Hij Hj]], Hk as [[<- <-]|[Hik Hk]].
    + done.
    + destruct (Hx k u h Hk Eu Et).
    + destruct (Hx j t h Hj Et Eu).
    + by apply (Hu j k t u h).
Qed.

Lemma keeps_busy_ready_id u d : keeps_busy (fun c => SetIdentity (MarkReady c) u d).
Proof. by intros c. Qed.
#[export] Hint Resolve keeps_busy_ready_id : core.

Lemma open_loop_ok store state cr attempts held : forall e w,
  world_ok w held -> Forall (fun a => Forall (attempt_free held) (oa_attempts a)) attempts ->
  acquired_ok held (open_loop store state cr attempts e w).
Proof.
  induction attempts as [|a attempts IH]; intros e w Hw Hf; cbn [open_loop]; [exact Hw|].
  apply Forall_cons_iff in Hf as [Ha Hf].
  pose proof (acquire_ok {| hk_ReadOnly := false; hk_AcceptReplica := true |} (oa_attempts a) held w Hw Ha) as H1.
  destruct (acquire _ (oa_attempts a) w) as [[e1|h] w1]; [exact H1|]. destruct H1 as [Hn Hw1]. cbn [fst snd] in *.
  assert (forall w, world_ok w ({[h]} ∪ held) -> world_ok (server_release w h) held) as Hrel.
  { intros w2 Hw2. rewrite <- (remove_added held h) by done. apply server_release_ok; [done|set_solver]. }
  cbv zeta. destruct (if negb store && usable w1 h then _ else _) as [e2|[]].
  - destruct (retries e2); [|exact (Hrel _ Hw1)]. apply IH; [|done]. apply Hrel, on_conn_ok; [done|by intros []].
  - split; [done|]. by apply on_conn_ok.
Qed.

Lemma attempts_free held ss attempts :
  hands_ok held ss ->
  Forall (fun a => forall b addr ref c, b ∈ oa_attempts a -> at_next b = Ok addr -> at_answer b = EngineConn ref c ->
            ~ in_hands ss (addr, ref)) attempts ->
  Forall (fun a => Forall (attempt_free held) (oa_attempts a)) (take identityAttempts attempts).
Proof.
  intros [Hh _] Hf. apply Forall_take. eapply Forall_impl; [|exact Hf]. intros a Ha.
  apply list.Forall_forall. intros b Hb addr Eb ref c Ec. rewrite Hh. by eapply Ha.
Qed.

Section Invariant.
Context (store : bool) (mode : poolingMode) (timeout : bytes) (classify : bytes -> QueryInfo).

Lemma between_ok s w others :
  holding w s others -> let sw := between_statements store mode s w in holding (snd sw) (fst sw) others.
Proof.
  intros H. unfold between_statements. destruct (gs_Server s) as [h|] eqn:E; [|done].
  destruct (shouldRelease _ _ _); [|done]. cbn [fst snd]. destruct store; [by apply holding_releaseToPool|by apply holding_release].
Qed.

Lemma failed_ok s w others :
  holding w s others -> let sw := failed_statement s w in holding (snd sw) (fst sw) others /\ gs_Server (fst sw) = None.
Proof.
  intros H. unfold failed_statement. destruct (gs_Server s) as [h|] eqn:E; [|done]. split; [by apply holding_release|done].
Qed.

Lemma goodbye_ok s w others :
  holding w s others -> holding (releaseToPool w (gs_Server s)) (with_server s None (gs_ShouldReplay s)) others.
Proof.
  intros H. destruct (gs_Server s) as [h|] eqn:E; [by apply holding_releaseToPool|]. eapply holding_server; [exact H|done].
Qed.

Lemma handle_event_ok ev s w others t :
  holding w s others ->
  (forall data chain env, ev = Message data chain env -> gs_Server s = None -> exec_free others s env) ->
  handle_event store mode timeout classify ev s w = Returns t ->
  holding (tn_world t) (tn_session t) others /\ (tn_ended t = true -> gs_Server (tn_session t) = None).
Proof.
  intros H Hf. unfold handle_event, finish. destruct ev as [|data chain env].
  { intros [= <-]. split; [by apply goodbye_ok|done]. }
  destruct (store && IsTerminate data); [intros [= <-]; split; [by apply goodbye_ok|done]|]. cbv zeta.
  destruct (rejectsTransactions mode && _); [by intros [= <-]|].
  destruct chain; cbn [fst snd].
  - intros [= <-]. pose proof (failed_ok s w others H) as [? ?]. done.
  - intros [= <-]. pose proof (between_ok s w others H). done.
  - destruct (executeRequest _ _ _ _ _ _ _ _) as [| |o] eqn:E; [done|done|].
    eapply executeRequest_ok in E; [|exact H|by eapply Hf].
    destruct (xo_err o); intros [= <-]; cbn.
    + pose proof (failed_ok _ _ others E) as [? ?]. done.
    + pose proof (between_ok _ _ others E). done.
Qed.

Lemma gw_inv_step g g' : gw_step store mode timeout classify g g' -> gw_inv g -> gw_inv g'.
Proof.
  intros Hs (held & Hw & Hh). destruct Hs as [w ss i state cr attempts h w1 s w2 Ei Hf Ho Hb|w ss state cr attempts e w1 Hf Ho|
    w ss i s ev t Es Hf Ht|w ss addr p p' Ep Hp]; cbn [fst snd] in *.
  - pose proof (open_loop_ok store state cr _ held GwNoBackend w Hw (attempts_free _ _ _ Hh Hf)) as Hac. unfold openSession in Ho. rewrite Ho in Hac.
    destruct Hac as [Hn Hw1]. cbn [fst snd] in *.
    assert (holding w2 s held) as [Hw2 Hd].
    { unfold begin_session in Hb.
      set (s0 := {| gs_State := state; gs_Creds := cr; gs_Server := Some h; gs_Home := Some (fst h); gs_ShouldReplay := false;
                    gs_ReplyFailed := false |}) in *.
      assert (holding (on_conn w1 h MarkReady) s0 held) as H0 by (split; [apply on_conn_ok; [done|by intros []]|cbn; set_solver]).
      destruct (store && _); injection Hb as <- <-; [by apply holding_releaseToPool|done]. }
    exists (held_of s ∪ held). split; [done|]. by apply hands_insert.
  - pose proof (open_loop_ok store state cr _ held GwNoBackend w Hw (attempts_free _ _ _ Hh Hf)) as Hac. unfold openSession in Ho. rewrite Ho in Hac.
    by exists held.
  - destruct (hands_delete held ss i s Hh Es) as (Hdel & Hsub & Heq).
    assert (holding w s (held ∖ held_of s)) as Hhold by (split; [by rewrite <- Heq|set_solver]).
    eapply handle_event_ok in Ht as [Ht Hend]; [|exact Hhold|intros data chain env -> Hnone; eapply Hf; [done|apply Hdel|done]].
    destruct Ht as [Hw' Hd']. exists (held_of (tn_session t) ∪ (held ∖ held_of s)). split; [done|].
    destruct (tn_ended t).
    + unfold held_of at 1. rewrite (Hend eq_refl), (left_id_L ∅ (∪)). done.
    + rewrite <- insert_delete_eq. apply hands_insert; [done|apply lookup_delete_eq|done].
  - exists held. split; [|done]. destruct Hw as [Hw Hd]. split.
    + intros a q. cbn [fst set_server w_servers]. destruct (decide (addr = a)) as [<-|Hne].
      * rewrite lookup_insert_eq. intros [= <-].
        eapply (accounted_step (p, held_at held addr)); [|by apply Hw].
        destruct Hp as [(now & ans & ->)|[(role & ->)|(now & b & ->)]]; constructor.
      * rewrite lookup_insert_ne by done. apply Hw.
    + intros h Hin. cbn [fst set_server w_servers]. destruct (decide (addr = fst h)) as [->|Hne]; [by rewrite lookup_insert_eq|].
      rewrite lookup_insert_ne by done. by apply Hd.
Qed.
End Invariant.

(** C9: Connections are never shared between sessions and never lost.  In every
    state the gateway reaches, however its sessions open, make their turns, fail
    and leave, and whatever the backends do meanwhile, no connection is in the
    hands of two sessions, and each backend counts as checked out exactly the
    connections that sessions hold of it; so once all sessions have left every
    backend counts none.  The sessions are those of clients: a replication stream, the
    refreshes of the result cache and the provisioner take connections of their own and
    are not steps of this gateway. *)
Theorem connections_exclusive store mode timeout classify servers w ss :
  map_Forall (fun _ p => exists role, p = newServer role) servers ->
  rtc (gw_step store mode timeout classify) ({| w_servers := servers; w_failovers := 0 |}, ∅) (w, ss) ->
  (forall i j s t h, ss !! i = Some s -> ss !! j = Some t -> gs_Server s = Some h -> gs_Server t = Some h -> i = j) /\
  (forall addr p, w_servers w !! addr = Some p ->
     exists held : gset positive, sv_checkedOut p = Z.of_nat (size held) /\ forall ref, ref ∈ held <-> in_hands ss (addr, ref)) /\
  (ss = ∅ -> forall addr p, w_servers w !! addr = Some p -> sv_checkedOut p = 0).
Proof.
  intros Hs Hr. assert (gw_inv (w, ss)) as (held & [Hw _] & Hh & Hu).
  { remember (w, ss) as g eqn:Eg. clear Eg. assert (gw_inv ({| w_servers := servers; w_failovers := 0 |}, ∅)) as H0.
    { exists ∅. cbn [fst snd]. split; [split; [|set_solver]|split].
      - intros addr p Ep. destruct (Hs addr p Ep) as [role ->]. split; [done|]. intros ref. rewrite elem_held_at. set_solver.
      - intros h. split; [set_solver|]. intros (i & s & Es & _). by rewrite lookup_empty in Es.
      - intros i j s t h Es. by rewrite lookup_empty in Es. }
    induction Hr as [|g1 g2 g3 Hs1 _ IH]; [done|]. apply IH. by eapply gw_inv_step. }
  cbn [fst snd] in *.
  assert (forall addr p, w_servers w !! addr = Some p ->
     exists held : gset positive, sv_checkedOut p = Z.of_nat (size held) /\ forall ref, ref ∈ held <-> in_hands ss (addr, ref)) as H2.
  { intros addr p Ep. exists (held_at held addr). split; [by apply (Hw addr p Ep)|]. intros ref. by rewrite elem_held_at. }
  split_and!; [done|done|]. intros -> addr p Ep. destruct (H2 addr p Ep) as (h & -> & Hin).
  assert (h = ∅) as ->; [|by rewrite size_empty]. apply set_eq. intros ref. rewrite Hin. split; [|set_solver].
  intros (i & s & Es & _). by rewrite lookup_empty in Es.
Qed.

(** A session opens on a fresh connection and leaves. *)
Definition alice_opens : open_attempt :=
  {| oa_attempts := ae_attempts first_answer; oa_fresh := trusting_backend; oa_relay := false; oa_client := true |}.
Definition opened := openSession true alice_state alice_creds [alice_opens] one_primary.
Definition begun := begin_session true poolSession alice_state alice_creds (bs "db1", 1%positive) (snd opened).
Definition left_behind : World := releaseToPool (snd begun) (gs_Server (fst begun)).

Lemma alice_comes_and_goes classify :
  rtc (gw_step true poolSession [] classify) (one_primary, ∅) (left_behind, delete 0%nat (<[0%nat := fst begun]> ∅)).
Proof.
  eapply rtc_l; [|eapply rtc_l; [|apply rtc_refl]].
  - apply (step_open true poolSession [] classify one_primary ∅ 0 alice_state alice_creds [alice_opens] (bs "db1", 1%positive) (snd opened)).
    + done.
    + repeat constructor. intros b addr ref c _ _ _ (i & s & Es & _). by rewrite lookup_empty in Es.
    + vm_compute. reflexivity.
    + apply surjective_pairing.
  - apply (step_turn true poolSession [] classify (snd begun) _ 0 (fst begun) ReadFailed
             {| tn_ended := true; tn_session := with_server (fst begun) None (gs_ShouldReplay (fst begun));
                tn_world := left_behind; tn_client := []; tn_unread := [] |}); [by rewrite lookup_insert_eq|done|done].
Qed.

Lemma connections_exclusive_witness :
  exists p, w_servers left_behind !! bs "db1" = Some p /\ sv_checkedOut p = 0.
Proof.
  eexists. split; [vm_compute; reflexivity|].
  refine (proj2 (proj2 (connections_exclusive true poolSession [] (fun _ => {| ReadOnly := true; InTransaction := false; AffectedTables := [] |})
    {[ bs "db1" := newServer RolePrimary ]} left_behind (delete 0%nat (<[0%nat := fst begun]> ∅)) _ (alice_comes_and_goes _))) _ (bs "db1") _ _).
  - intros addr p [<- <-]%lookup_singleton_Some. by exists RolePrimary.
  - by rewrite delete_insert_id.
  - vm_compute. reflexivity.
Defined.

(** ** Two behaviours of the error paths *)

(** A connection on which a session is half-way through reading a reply. *)
Definition half_read : World :=
  set_server one_primary (bs "db1")
    (with_conn (newServer RolePrimary) 1 (set_busy (SetIdentity (MarkReady (NewConn 0)) (bs "alice") (bs "app")) true) 1).
Definition alice_session : GSession :=
  {| gs_State := alice_state; gs_Creds := alice_creds; gs_Server := Some (bs "db1", 1%positive); gs_Home := Some (bs "db1");
     gs_ShouldReplay := false; gs_ReplyFailed := false |}.
Definition select_one : bytes := frame (ch "Q", bs "SELECT 1" ++ [NUL]).
Definition quiet_env (reads : list server_read) : exec_env :=
  {| xe_acquire := first_answer; xe_waitLSN := true; xe_retry := first_answer; xe_vars := []; xe_stmts := [];
     xe_accepts := fun _ => true; xe_write := true; xe_capture := None; xe_deadline := true; xe_reads := reads;
     xe_pump_err := false; xe_timed_out := false; xe_lsn := None |}.

(** When writing a reply to the client fails, the session ends and its connection
    goes back to the pool as it is: neither broken nor to be reset, with the rest
    of the reply still to come on it. *)
Example abandoned_reply_returned_to_pool :
  let read_only := fun _ : bytes => {| ReadOnly := true; InTransaction := false; AffectedTables := [] |} in
  let env := quiet_env [{| sr_data := frame (ch "D", bs "row 1"); sr_err := false; sr_write_ok := false |};
                        ok_read (frames [(ch "D", bs "row 2"); (ch "Z", [ch "I"])])] in
  match handle_event true poolTransaction [] read_only (Message select_one ChainRuns env) alice_session half_read with
  | Returns t =>
      tn_ended t = true /\ tn_unread t = [ok_read (frames [(ch "D", bs "row 2"); (ch "Z", [ch "I"])])] /\
      (c ← conn_of (tn_world t) (bs "db1", 1%positive); Some (c_broken c, c_dirty c, c_ready c, c_busy c)) = Some (false, false, true, false)
  | _ => False
  end.
Proof. vm_compute. repeat split; reflexivity. Qed.

(** Once a session has been rebuilt on a connection it is rebuilt before every
    later statement too, since nothing clears the mark. *)
Lemma after_write_replay store readOnly mode timeout data env h s w sent o :
  after_write store readOnly mode timeout data env h s w sent = Returns o ->
  gs_ShouldReplay (xo_session o) = gs_ShouldReplay s.
Proof.
  unfold after_write. cbv zeta. destruct (proxyResponse _ _ _ _ _ _) as [| |rr]; [done|done|].
  intros [= <-]. cbn [xo_session]. by destruct (shouldReleaseAt _ _ _).
Qed.

Theorem replay_mark_stays store readOnly mode timeout data env s w o :
  executeRequest store readOnly mode timeout data env s w = Returns o ->
  gs_ShouldReplay s = true -> gs_ShouldReplay (xo_session o) = true.
Proof.
  unfold executeRequest, stop_exec. intros H Hs.
  assert (match fst (ensure_server store readOnly env s w) with Ok (_, s') => gs_ShouldReplay s' = true | Err _ => True end) as He.
  { unfold ensure_server. destruct (gs_Server s); [done|]. destruct (acquireForSession _ _ _ _ _ _ w) as [[e|h] w1]; [done|].
    cbv zeta. match goal with |- context [if ?b then acquireForSession _ _ _ _ _ _ _ else _] => destruct b end; [|done].
    destruct (acquireForSession _ _ _ _ _ _ (server_release w1 h)) as [[e|h2] w2]; done. }
  destruct (ensure_server store readOnly env s w) as [[e|[h s1]] w1]; [by injection H as <-|]. cbn in He.
  destruct (conn_of w1 h) as [c|]; [|by injection H as <-]. rewrite He in H.
  destruct (replaySession env c) as [e|[c' sent]]; [by injection H as <-|].
  destruct (xe_write env); cbn [negb] in H; [|by injection H as <-].
  by rewrite (after_write_replay _ _ _ _ _ _ _ _ _ _ _ H).
Qed.

(** So a session that has set something loses its connection when it rolls a
    failed transaction back: the setting is sent ahead of the ROLLBACK, and a
    backend refuses it there. *)
Example rollback_ends_session :
  let st := set_TxState (TrackSessionState alice_state (replay_query_message (bs "SET search_path TO app"))) StateError in
  let s := with_server (with_state alice_session st true) (Some (bs "db1", 1%positive)) true in
  let rollback := frame (ch "Q", bs "ROLLBACK" ++ [NUL]) in
  let env := {| xe_acquire := first_answer; xe_waitLSN := true; xe_retry := first_answer; xe_vars := map_to_list (Vars st);
                xe_stmts := []; xe_accepts := fun m => bool_decide (m = rollback); xe_write := true; xe_capture := None;
                xe_deadline := true; xe_reads := [ok_read (frames [(ch "C", bs "ROLLBACK"); (ch "Z", [ch "I"])])];
                xe_pump_err := false; xe_timed_out := false; xe_lsn := None |} in
  let plain := fun _ : bytes => {| ReadOnly := false; InTransaction := false; AffectedTables := [] |} in
  match handle_event true poolTransaction [] plain (Message rollback ChainRuns env) s half_read with
  | Returns t => tn_ended t = true /\ tn_client t = replay_failed_message /\
      (c ← conn_of (tn_world t) (bs "db1", 1%positive); Some (c_broken c)) = Some true
  | _ => False
  end.
Proof. vm_compute. repeat split; reflexivity. Qed.
