(* ===== verification/Coordination.v ===== *)
(** * What sessions share

    [proxy/gateway.go] ([waitWhilePaused], [wakePaused], [resolveFailover],
    [triggerFailover], the request collapser of [executeRequest], [drain]),
    [proxy/inflight_call.go], [proxy/cancel_registry.go] and
    [proxy/session_registry.go]: the places where sessions of one gateway wait for,
    answer or know about each other.

    Each is a step relation whose steps are the atomic actions of the code -- a
    compare-and-swap, a critical section, a registration with the condition
    variable -- interleaved in any order. *)
From Stdlib Require Import ZArith Lia Strings.String Sorting.Sorted.
From stdpp Require Import base gmap list numbers option sorting relations.
From S2P Require Import Prelude Wire Scanner Session Relay.
#[local] Open Scope Z_scope.

(** ** Pausing writers during a failover *)

Module Pause.

(** Where a writer is in [waitWhilePaused].  It holds the read lock in [Checking]
    and [Deciding]; in [Waiting] it is on the condition's notify list; in
    [Woken] it has been notified and has to take the lock again. *)
Inductive writer := Entering | Locking | Checking | Deciding | Waiting | Woken | Resumed | GaveUp.

#[global] Instance writer_eq_dec : EqDecision writer.
Proof. solve_decision. Defined.

(** [inFailover], whether the goroutine of [triggerFailover] has still to resolve
    it, the writers, whose contexts have expired, and whose goroutine has yet to
    react to that. *)
Record PauseState := {
  inFailover : bool; resolving : bool; writers : gmap nat writer; expired : gset nat; watching : gset nat
}.

Definition set_writer (s : PauseState) (i : nat) (x : writer) : PauseState :=
  {| inFailover := inFailover s; resolving := resolving s; writers := <[i := x]> (writers s);
     expired := expired s; watching := watching s |}.

(** Nobody holds the read lock. *)
Definition unlocked (s : PauseState) : Prop := forall i, writers s !! i <> Some Checking /\ writers s !! i <> Some Deciding.

(** [Broadcast]: everyone on the notify list is woken. *)
Definition wake (x : writer) : writer := match x with Waiting => Woken | _ => x end.
Definition Broadcast (s : PauseState) : PauseState :=
  {| inFailover := inFailover s; resolving := resolving s; writers := wake <$> writers s;
     expired := expired s; watching := watching s |}.

(** [triggerFailover]: the compare-and-swap, and the goroutine it starts. *)
Definition triggerFailover (s : PauseState) : PauseState :=
  if inFailover s then s
  else {| inFailover := true; resolving := true; writers := writers s; expired := expired s; watching := watching s |}.

(** [resolveFailover], under the write lock. *)
Definition resolveFailover (s : PauseState) : PauseState :=
  Broadcast {| inFailover := false; resolving := false; writers := writers s; expired := expired s; watching := watching s |}.

(** [wakePaused] by the goroutine that watches writer [i]'s context. *)
Definition wakePaused (s : PauseState) (i : nat) : PauseState :=
  Broadcast {| inFailover := inFailover s; resolving := resolving s; writers := writers s; expired := expired s;
               watching := watching s ∖ {[i]} |}.

Inductive pause_step : PauseState -> PauseState -> Prop :=
| s_trigger s : pause_step s (triggerFailover s)
| s_resolve s : resolving s = true -> unlocked s -> pause_step s (resolveFailover s)
| s_enter s i : writers s !! i = None -> pause_step s (set_writer s i Entering)
| s_expire s i : pause_step s {| inFailover := inFailover s; resolving := resolving s; writers := writers s;
                           expired := {[i]} ∪ expired s; watching := watching s |}
(* the unlocked test, and the watching goroutine started after it *)
| s_pass s i : writers s !! i = Some Entering -> inFailover s = false -> pause_step s (set_writer s i Resumed)
| s_pause s i : writers s !! i = Some Entering -> inFailover s = true ->
    pause_step s {| inFailover := inFailover s; resolving := resolving s; writers := <[i := Locking]> (writers s);
              expired := expired s; watching := {[i]} ∪ watching s |}
| s_rlock s i : writers s !! i = Some Locking \/ writers s !! i = Some Woken -> pause_step s (set_writer s i Checking)
| s_resume s i : writers s !! i = Some Checking -> inFailover s = false -> pause_step s (set_writer s i Resumed)
| s_giveup s i : writers s !! i = Some Checking -> inFailover s = true -> i ∈ expired s -> pause_step s (set_writer s i GaveUp)
| s_decide s i : writers s !! i = Some Checking -> inFailover s = true -> i ∉ expired s -> pause_step s (set_writer s i Deciding)
| s_wait s i : writers s !! i = Some Deciding -> pause_step s (set_writer s i Waiting)
| s_wake s i : i ∈ expired s -> i ∈ watching s -> unlocked s -> pause_step s (wakePaused s i).

Definition pause_initial : PauseState := {| inFailover := false; resolving := false; writers := ∅; expired := ∅; watching := ∅ |}.

(** A writer that has decided to wait will be woken: the failover it waits for is
    unresolved and somebody is to resolve it, and if its own time runs out
    somebody is to notice that. *)
Record pause_inv (s : PauseState) : Prop := {
  inv_resolving : inFailover s = resolving s;
  inv_waiting i : writers s !! i = Some Deciding \/ writers s !! i = Some Waiting -> inFailover s = true;
  inv_watching i x : writers s !! i = Some x -> x ∈ [Locking; Checking; Deciding; Waiting; Woken] ->
    (i ∈ watching s \/ i ∈ expired s) /\ (x = Deciding \/ x = Waiting -> i ∈ watching s)
}.

Lemma wake_waiting x : wake x <> Waiting.
Proof. by destruct x. Qed.

Lemma lookup_wake s i x : (wake <$> writers s) !! i = Some x -> exists y, writers s !! i = Some y /\ x = wake y.
Proof. rewrite lookup_fmap. destruct (writers s !! i) as [y|]; [|done]. cbn. intros [= <-]. by exists y. Qed.

(** A step that moves one writer and keeps everything else. *)
Lemma pause_inv_one s s' i x :
  pause_inv s -> (forall j, j <> i -> writers s' !! j = writers s !! j) -> writers s' !! i = Some x ->
  inFailover s' = inFailover s -> resolving s' = resolving s -> expired s' = expired s -> watching s ⊆ watching s' ->
  (x = Deciding \/ x = Waiting -> inFailover s = true) ->
  (x ∈ [Locking; Checking; Deciding; Waiting; Woken] ->
     (i ∈ watching s' \/ i ∈ expired s) /\ (x = Deciding \/ x = Waiting -> i ∈ watching s')) -> pause_inv s'.
Proof.
  intros [Hr Hw Ht] Ho Ei E1 E2 E3 Hsub Hx1 Hx2. split.
  - by rewrite E1, E2.
  - intros j Hj. rewrite E1. destruct (decide (j = i)) as [->|Hne]; [rewrite Ei in Hj; naive_solver|]. rewrite Ho in Hj by done. by eapply Hw.
  - intros j y Ej Hy. rewrite E3. destruct (decide (j = i)) as [->|Hne].
    + rewrite Ei in Ej. injection Ej as <-. auto.
    + rewrite Ho in Ej by done. destruct (Ht _ _ Ej Hy) as [H1 H2]. split; [set_solver|]. intros H3. apply Hsub. auto.
Qed.

(** With the lock free, a broadcast leaves nobody waiting or about to. *)
Lemma broadcast_clears s i x : unlocked s -> (wake <$> writers s) !! i = Some x -> x <> Deciding /\ x <> Waiting.
Proof.
  intros Hu (y & Ey & ->)%lookup_wake. destruct (Hu i) as [_ Hd]. rewrite Ey in Hd. by destruct y.
Qed.

Lemma inv_broadcast s s' :
  pause_inv s -> unlocked s -> writers s' = wake <$> writers s -> inFailover s' = resolving s' -> expired s' = expired s ->
  (forall i, i ∈ watching s -> i ∈ watching s' \/ i ∈ expired s) -> pause_inv s'.
Proof.
  intros [Hr Hw Ht] Hu Ew Er Ee Hsub. split; [done| |]; rewrite Ew.
  - intros i [E|E]; by apply broadcast_clears in E as [? ?].
  - intros i x Ex Hx. pose proof (broadcast_clears s i x Hu Ex) as [N1 N2].
    destruct (lookup_wake _ _ _ Ex) as (y & Ey & ->). rewrite Ee.
    destruct (Ht i y Ey) as [H1 _]; [destruct y; cbn in *; set_solver|]. split; [|naive_solver].
    destruct H1 as [H1|H1]; [by apply Hsub|by right].
Qed.

Ltac move_one s i x :=
  eapply (pause_inv_one s _ i x); cbn; try done; try (intros; by rewrite lookup_insert_ne); try (by rewrite lookup_insert_eq);
  try naive_solver; try set_solver.

Lemma pause_inv_step s s' : pause_step s s' -> pause_inv s -> pause_inv s'.
Proof.
  intros Hs.
  destruct Hs as [s|s Hres Hu|s i Ei|s i|s i Ei Ef|s i Ei Ef|s i Ei|s i Ei Ef|s i Ei Ef He|s i Ei Ef He|s i Ei|s i He Hwt Hu];
    intros Hi; pose proof Hi as [Hr Hw Ht].
  - unfold triggerFailover. destruct (inFailover s) eqn:Ef; [done|]. split; cbn; done.
  - eapply (inv_broadcast s); cbn; try done. intros i Hin. by left.
  - move_one s i Entering.
  - split; cbn; [done|done|]. intros j x Ex Hx. destruct (Ht j x Ex Hx). split; [set_solver|done].
  - move_one s i Resumed.
  - move_one s i Locking.
  - assert (i ∈ watching s \/ i ∈ expired s) as H1 by (destruct Ei as [E|E]; apply (Ht _ _ E); set_solver).
    clear Ht. move_one s i Checking.
  - move_one s i Resumed.
  - move_one s i GaveUp.
  - destruct (Ht _ _ Ei) as [H1 _]; [set_solver|]. clear Ht. move_one s i Deciding.
  - destruct (Ht _ _ Ei) as [H1 H2]; [set_solver|]. specialize (H2 (or_introl eq_refl)). specialize (Hw i (or_introl Ei)).
    clear Ht. move_one s i Waiting.
  - eapply (inv_broadcast s); cbn; try done. intros j Hin. destruct (decide (j = i)) as [->|]; [by right|left; set_solver].
Qed.

Lemma pause_inv_reachable s : rtc pause_step pause_initial s -> pause_inv s.
Proof.
  intros H. assert (pause_inv pause_initial) as H0 by (split; cbn; [done|intros i [E|E]; by rewrite lookup_empty in E|intros i x E; by rewrite lookup_empty in E]).
  induction H as [|s1 s2 s3 Hs _ IH]; [done|]. apply IH. by eapply pause_inv_step.
Qed.

(** Those who hold the read lock. *)
Definition holders (s : PauseState) : gset nat := dom (filter (fun '(_, x) => x = Checking \/ x = Deciding) (writers s)).

Lemma elem_holders s i : i ∈ holders s <-> writers s !! i = Some Checking \/ writers s !! i = Some Deciding.
Proof.
  unfold holders. rewrite elem_of_dom. unfold is_Some. setoid_rewrite map_lookup_filter_Some. naive_solver.
Qed.

Lemma no_holders_unlocked s : holders s = ∅ -> unlocked s.
Proof. intros H i. assert (i ∉ holders s) as Hn by (rewrite H; set_solver). rewrite elem_holders in Hn. tauto. Qed.

Lemma holders_leave s i x :
  i ∈ holders s -> x <> Checking -> x <> Deciding -> (size (holders (set_writer s i x)) < size (holders s))%nat.
Proof.
  intros Hi H1 H2. assert (holders (set_writer s i x) ⊆ holders s ∖ {[i]}) as Hsub.
  { intros j Hj. rewrite elem_holders in Hj. cbn in Hj. destruct (decide (i = j)) as [<-|Hne].
    - rewrite lookup_insert_eq in Hj. naive_solver.
    - rewrite lookup_insert_ne in Hj by done. rewrite elem_of_difference, elem_holders. set_solver. }
  apply subseteq_size in Hsub. rewrite size_difference, size_singleton in Hsub by set_solver.
  assert (size (holders s) <> 0%nat) by (apply size_non_empty_iff; set_solver). lia.
Qed.

(** The lock is never kept: every holder can leave it, one after another, without
    anybody who waits being disturbed. *)
Lemma lock_clears s :
  pause_inv s -> exists s', rtc pause_step s s' /\ unlocked s' /\ pause_inv s' /\
    forall j, writers s !! j = Some Waiting -> writers s' !! j = Some Waiting.
Proof.
  remember (size (holders s)) as n eqn:En. revert s En. induction (lt_wf n) as [n _ IH]. intros s En Hi.
  destruct (decide (holders s = ∅)) as [He|He].
  { exists s. split_and!; [done|by apply no_holders_unlocked|done|done]. }
  apply set_choose_L in He as [i Hin]. pose proof Hin as Hin2. rewrite elem_holders in Hin2.
  assert (exists x, rtc pause_step s (set_writer s i x) /\ x <> Checking /\ x <> Deciding) as (x & Hx & N1 & N2).
  { destruct Hin2 as [Ec|Ed].
    - destruct (inFailover s) eqn:Ef.
      + destruct (decide (i ∈ expired s)).
        * exists GaveUp. split_and!; [by apply rtc_once, s_giveup|done|done].
        * exists Waiting. split_and!; [|done|done]. eapply rtc_l; [by apply (s_decide s i)|].
          replace (set_writer s i Waiting) with (set_writer (set_writer s i Deciding) i Waiting).
          2:{ unfold set_writer. cbn. by rewrite insert_insert_eq. }
          apply rtc_once, s_wait. cbn. by rewrite lookup_insert_eq.
      + exists Resumed. split_and!; [by apply rtc_once, s_resume|done|done].
    - exists Waiting. split_and!; [by apply rtc_once, s_wait|done|done]. }
  assert (pause_inv (set_writer s i x)) as Hi2 by (clear -Hi Hx; induction Hx as [|a b c Hs _ IH]; [done|]; apply IH; by eapply pause_inv_step).
  destruct (IH (size (holders (set_writer s i x)))) with (s := set_writer s i x) as (s' & Hs' & Hu & Hi' & Hk);
    [subst n; by apply holders_leave|done|done|].
  exists s'. split_and!; [by etransitivity|done|done|]. intros j Hj. apply Hk. cbn.
  rewrite lookup_insert_ne; [done|]. intros <-. rewrite Hj in Hin2. naive_solver.
Qed.

(** C17: A paused writer is never left behind.  In every state the gateway reaches,
    a writer asleep in [waitWhilePaused] has an unresolved failover to wait for
    that somebody is still to resolve and a goroutine watching its deadline;
    from there it can always be brought to return, whatever the others do with
    the lock first; and if its own deadline has passed, waking it alone makes it
    return that error while the failover is still on.  No failover resolved
    leaves anybody asleep. *)
Theorem no_lost_wakeup s i :
  rtc pause_step pause_initial s ->
  (inFailover s = false -> writers s !! i <> Some Waiting) /\
  (writers s !! i = Some Waiting ->
   resolving s = true /\ i ∈ watching s /\
   (exists s', rtc pause_step s s' /\ writers s' !! i = Some Resumed) /\
   (i ∈ expired s -> exists s', rtc pause_step s s' /\ writers s' !! i = Some GaveUp)).
Proof.
  intros Hr%pause_inv_reachable. split.
  { intros Hf Hw. pose proof (inv_waiting _ Hr i (or_intror Hw)). congruence. }
  intros Hw. pose proof (inv_waiting _ Hr i (or_intror Hw)) as Hf.
  assert (resolving s = true) as Hres by (rewrite <- (inv_resolving _ Hr); done).
  destruct (inv_watching _ Hr i Waiting Hw) as [_ Hwt]; [set_solver|]. specialize (Hwt (or_intror eq_refl)).
  destruct (lock_clears s Hr) as (s1 & H1 & Hu & Hi1 & Hk). specialize (Hk i Hw).
  pose proof (inv_waiting _ Hi1 i (or_intror Hk)) as Hf1.
  assert (resolving s1 = true) as Hres1 by (rewrite <- (inv_resolving _ Hi1); done).
  destruct (inv_watching _ Hi1 i Waiting Hk) as [_ Hwt1]; [set_solver|]. specialize (Hwt1 (or_intror eq_refl)).
  split_and!; [done|done| |].
  - exists (set_writer (set_writer (resolveFailover s1) i Checking) i Resumed). split.
    + etransitivity; [exact H1|]. eapply rtc_l; [by apply s_resolve|]. eapply rtc_l; [apply s_rlock|apply rtc_once, s_resume].
      * right. cbn. by rewrite lookup_fmap, Hk.
      * cbn. by rewrite lookup_insert_eq.
      * done.
    + cbn. by rewrite lookup_insert_eq.
  - intros He. assert (i ∈ expired s1) as He1.
    { clear -H1 He. induction H1 as [|a b c Hs _ IH]; [done|]. apply IH. destruct Hs; cbn; try set_solver.
      unfold triggerFailover. by destruct (inFailover s). }
    exists (set_writer (set_writer (wakePaused s1 i) i Checking) i GaveUp). split.
    + etransitivity; [exact H1|]. eapply rtc_l; [by apply s_wake|]. eapply rtc_l; [apply s_rlock|apply rtc_once, s_giveup].
      * right. cbn. by rewrite lookup_fmap, Hk.
      * cbn. by rewrite lookup_insert_eq.
      * done.
      * done.
    + cbn. by rewrite lookup_insert_eq.
Qed.

(** A writer that arrives during a failover and goes to sleep. *)
Definition asleep : PauseState :=
  {| inFailover := true; resolving := true; writers := {[ 0%nat := Waiting ]}; expired := ∅; watching := {[ 0%nat ]} |}.

Lemma asleep_reachable : rtc pause_step pause_initial asleep.
Proof.
  eapply rtc_l; [apply s_trigger|]. eapply rtc_l; [by apply (s_enter _ 0)|].
  eapply rtc_l; [by apply (s_pause _ 0)|]. eapply rtc_l; [by apply (s_rlock _ 0); left|].
  eapply rtc_l; [by apply (s_decide _ 0)|]. eapply rtc_l; [by apply (s_wait _ 0)|].
  match goal with |- rtc pause_step ?s _ => replace s with asleep; [done|] end.
  vm_compute. reflexivity.
Qed.

Lemma no_lost_wakeup_witness : exists s', rtc pause_step asleep s' /\ writers s' !! 0%nat = Some Resumed.
Proof.
  refine (proj1 (proj2 (proj2 (proj2 (no_lost_wakeup asleep 0 asleep_reachable) _)))). reflexivity.
Defined.
End Pause.

(** ** Collapsing identical reads *)

Module Collapse.

(** How a leader's [executeRequest] returns: before the reply was read, which
    leaves the call as it was made, or after, with what [proxyResponse] left
    behind. *)
Inductive leader_end := LeaderEarly | LeaderReplied (rr : reply_result).

(** The reply is relayed into a capture of the configured size, from a fresh
    buffer, whatever the backend sends and however the two connections fail. *)
Definition leader_returns (maxCaptureBytes : Z) (e : leader_end) : Prop :=
  match e with
  | LeaderEarly => True
  | LeaderReplied rr => exists deadline pump_err readOnly re reads,
      proxyResponse deadline pump_err (Some (newResponseCapture [] maxCaptureBytes)) readOnly re reads = Returns rr
  end.

(** [inflightCall]; [cl_key] and [cl_end] only record where it comes from. *)
Record call := { cl_data : bytes; cl_err : bool; cl_closed : bool; cl_key : bytes; cl_end : option leader_end }.

(** [call.data] and [call.err] as the leader leaves them: the error is the Go
    error of the relay or of the capture.  Nothing here asks whether the reply
    held an ErrorResponse ([s.ReplyFailed], which the cache does ask). *)
Definition end_call (k : call) (e : leader_end) : call :=
  match e with
  | LeaderEarly => {| cl_data := cl_data k; cl_err := cl_err k; cl_closed := cl_closed k; cl_key := cl_key k; cl_end := Some e |}
  | LeaderReplied rr =>
      {| cl_data := capture_Bytes (rr_capture rr); cl_err := bool_decide (rr_err rr <> None) || capture_Err (rr_capture rr);
         cl_closed := cl_closed k; cl_key := cl_key k; cl_end := Some e |}
  end.

Definition close_call (k : call) : call :=
  {| cl_data := cl_data k; cl_err := cl_err k; cl_closed := true; cl_key := cl_key k; cl_end := cl_end k |}.

Definition new_call (key : bytes) : call := {| cl_data := []; cl_err := false; cl_closed := false; cl_key := key; cl_end := None |}.

(** A statement inside [executeRequest]: leading a call, past the deferred
    deletion of it, waiting for one, running on its own, or about to return what
    it was served. *)
Inductive phase :=
| Leading (key : bytes) (c : nat)
| Unpublished (c : nat)
| Following (key : bytes) (c : nat)
| Alone
| Served (key data : bytes).

Record CollapseState := { inFlight : gmap bytes nat; calls : gmap nat call; statements : gmap nat phase; statementsInFlight : Z }.

Definition set_phase (s : CollapseState) (i : nat) (p : phase) : CollapseState :=
  {| inFlight := inFlight s; calls := calls s; statements := <[i := p]> (statements s); statementsInFlight := statementsInFlight s |}.

(** Entering [executeRequest] counts, whichever branch is taken. *)
Definition enter (s : CollapseState) (i : nat) (key : option bytes) (fresh : nat) : CollapseState :=
  let n := statementsInFlight s + 1 in
  match key with
  | None => {| inFlight := inFlight s; calls := calls s; statements := <[i := Alone]> (statements s); statementsInFlight := n |}
  | Some key =>
      match inFlight s !! key with
      | Some c => {| inFlight := inFlight s; calls := calls s; statements := <[i := Following key c]> (statements s);
                     statementsInFlight := n |}
      | None => {| inFlight := <[key := fresh]> (inFlight s); calls := <[fresh := new_call key]> (calls s);
                   statements := <[i := Leading key fresh]> (statements s); statementsInFlight := n |}
      end
  end.

Definition leave (s : CollapseState) (i : nat) (cs : gmap nat call) : CollapseState :=
  {| inFlight := inFlight s; calls := cs; statements := delete i (statements s); statementsInFlight := statementsInFlight s - 1 |}.

Section steps.
Context (maxCaptureBytes : Z).

Inductive collapse_step : CollapseState -> CollapseState -> Prop :=
| c_enter s i key fresh : statements s !! i = None -> calls s !! fresh = None -> collapse_step s (enter s i key fresh)
| c_unpublish s i key c k e : statements s !! i = Some (Leading key c) -> calls s !! c = Some k ->
    leader_returns maxCaptureBytes e ->
    collapse_step s {| inFlight := delete key (inFlight s); calls := <[c := end_call k e]> (calls s);
              statements := <[i := Unpublished c]> (statements s); statementsInFlight := statementsInFlight s |}
| c_done s i c k : statements s !! i = Some (Unpublished c) -> calls s !! c = Some k -> collapse_step s (leave s i (<[c := close_call k]> (calls s)))
| c_served s i key c k : statements s !! i = Some (Following key c) -> calls s !! c = Some k -> cl_closed k = true ->
    collapse_step s (set_phase s i (if cl_err k then Alone else Served key (cl_data k)))
| c_leave s i p : statements s !! i = Some p -> p = Alone \/ (exists key data, p = Served key data) -> collapse_step s (leave s i (calls s)).

Definition collapse_initial : CollapseState := {| inFlight := ∅; calls := ∅; statements := ∅; statementsInFlight := 0 |}.
























End steps.

(** A leader that ends as [e], and the request collapsed into it. *)
Definition key1 : bytes := bs "SELECT 1".
Definition follower_state (e : leader_end) (data : bytes) : CollapseState :=
  {| inFlight := ∅;
     calls := {[ 0%nat := close_call (end_call (new_call key1) e) ]};
     statements := {[ 1%nat := Served key1 data ]}; statementsInFlight := 1 |}.

Lemma follower_served limit e :
  leader_returns limit e -> cl_err (end_call (new_call key1) e) = false ->
  rtc (collapse_step limit) collapse_initial (follower_state e (cl_data (end_call (new_call key1) e))).
Proof.
  intros Hret He.
  eapply rtc_l; [by apply (c_enter limit collapse_initial 0 (Some key1) 0)|].
  eapply rtc_l; [by apply (c_enter limit _ 1 (Some key1) 1)|].
  eapply rtc_l; [by apply (c_unpublish limit _ 0 key1 0 (new_call key1) e)|].
  eapply rtc_l; [by eapply (c_done limit _ 0 0)|].
  eapply rtc_l; [by eapply (c_served limit _ 1 key1 0)|].
  match goal with |- rtc _ ?s ?s' => replace s with s'; [done|] end.
  assert (cl_err (close_call (end_call (new_call key1) e)) = false) as -> by exact He.
  done.
Qed.

(** The leader's statement fails: the backend answers with an ErrorResponse and
    ReadyForQuery. *)
Definition error_reply : bytes := frames [(ch "E", bs "SERROR" ++ [NUL; NUL]); (ch "Z", [ch "I"])].
Definition error_result : reply_result :=
  {| rr_state := StateIdle; rr_readonly := false; rr_err := None; rr_client := error_reply; rr_sent := zlen error_reply;
     rr_capture := Some {| rc_buf := error_reply; rc_limit := 1000; rc_overflowed := false |};
     rr_failed := Some true; rr_unread := [] |}.

Lemma error_result_relayed : leader_returns 1000 (LeaderReplied error_result).
Proof.
  exists true, false, true, {| OnReadyForQuery := true; Tags := [] |}, [ok_read error_reply]. vm_compute. reflexivity.
Qed.

(** That reply, whose failure flag is set, is served to the follower. *)
Example error_reply_shared :
  rtc (collapse_step 1000) collapse_initial (follower_state (LeaderReplied error_result) error_reply) /\
  rr_failed error_result = Some true.
Proof. split; [|done]. apply (follower_served 1000 (LeaderReplied error_result) error_result_relayed). reflexivity. Qed.

(** A leader that returned early serves its follower nothing. *)
Example early_leader_serves_nothing : rtc (collapse_step 1000) collapse_initial (follower_state LeaderEarly []).
Proof. exact (follower_served 1000 LeaderEarly I eq_refl). Qed.

End Collapse.

(** ** Registries *)

Module Registries.

(** [cancelRegistry]: a backend process id to the address it runs on. *)
Abbreviation cancelRegistry := (gmap Z bytes).

Definition remember (r : cancelRegistry) (backendKey addr : bytes) : Z * cancelRegistry :=
  match BackendKeyProcessID backendKey with
  | None => (0, r)
  | Some pid => if decide (addr = []) then (0, r) else (pid, <[pid := addr]> r)
  end.

Definition forget (r : cancelRegistry) (pid : Z) : cancelRegistry := if decide (pid = 0) then r else delete pid r.
Definition addrFor (r : cancelRegistry) (pid : Z) : option bytes := r !! pid.

(** [routeCancel]: where the request goes and what is sent there, if anywhere;
    [dial] says which addresses answer. *)
Inductive cancel_outcome := CancelNoKey | CancelDropped | CancelDialFailed (addr : bytes) | CancelSent (addr raw : bytes).

Definition routeCancel (r : cancelRegistry) (dial : bytes -> bool) (key : option CancelKey) : cancel_outcome :=
  match key with
  | None => CancelNoKey
  | Some key =>
      match addrFor r (ck_ProcessID key) with
      | None => CancelDropped
      | Some addr => if dial addr then CancelSent addr (ck_Raw key) else CancelDialFailed addr
      end
  end.

(** A cancel request goes, byte for byte, to the backend the process was last
    remembered on, and nowhere once its session has ended. *)
Theorem cancel_routed r backendKey addr pid r' dial key :
  remember r backendKey addr = (pid, r') -> pid <> 0 -> ck_ProcessID key = pid ->
  routeCancel r' dial (Some key) = (if dial addr then CancelSent addr (ck_Raw key) else CancelDialFailed addr) /\
  routeCancel (forget r' pid) dial (Some key) = CancelDropped.
Proof.
  unfold remember, routeCancel, forget, addrFor. intros H Hz Hk.
  destruct (BackendKeyProcessID backendKey) as [p|]; [|congruence]. case_decide; [congruence|]. injection H as <- <-.
  rewrite Hk, lookup_insert_eq, decide_False, lookup_delete_eq by done. done.
Qed.

(** Two backends may give the same process id: the later session's address is the
    one remembered, and the first of the two to end takes the entry with it. *)
Example same_process_id_collides :
  let key := put_uint32 4242 ++ put_uint32 7 in
  let '(pid1, r1) := remember ∅ key (bs "db1:5432") in
  let '(pid2, r2) := remember r1 (put_uint32 4242 ++ put_uint32 9) (bs "db2:5432") in
  addrFor r2 pid1 = Some (bs "db2:5432") /\ addrFor (forget r2 pid1) pid2 = None.
Proof. vm_compute. split; reflexivity. Qed.

(** [sessionInfo] and [sessionRegistry]. *)
Record sessionInfo := { si_id : Z; si_user : bytes; si_database : bytes; si_addr : bytes; si_since : Z }.
Record sessionRegistry := { sr_sessions : gmap Z sessionInfo; sr_nextID : Z }.

Definition newSessionRegistry : sessionRegistry := {| sr_sessions := ∅; sr_nextID := 0 |}.

Definition registry_add (r : sessionRegistry) (user database addr : bytes) (now : Z) : Z * sessionRegistry :=
  let id := u64 (sr_nextID r + 1) in
  (id, {| sr_sessions := <[id := {| si_id := id; si_user := user; si_database := database; si_addr := addr; si_since := now |}]> (sr_sessions r);
          sr_nextID := id |}).

Definition registry_remove (r : sessionRegistry) (id : Z) : sessionRegistry :=
  {| sr_sessions := delete id (sr_sessions r); sr_nextID := sr_nextID r |}.

Definition by_id (a b : sessionInfo) : Prop := si_id a <= si_id b.
#[global] Instance by_id_dec : RelDecision by_id.
Proof. intros a b. unfold by_id. apply _. Defined.
#[global] Instance by_id_total : Total by_id.
Proof. intros a b. unfold by_id. lia. Qed.
#[global] Instance by_id_trans : Transitive by_id.
Proof. intros a b c. unfold by_id. lia. Qed.

Definition registry_list (r : sessionRegistry) : list sessionInfo := merge_sort by_id (snd <$> map_to_list (sr_sessions r)).
Definition registry_count (r : sessionRegistry) : nat := size (sr_sessions r).

(** *** What the console sees is the live sessions in the order they came *)

Inductive registry_event := Arrives (user database addr : bytes) (now : Z) | Leaves (id : Z).

Definition registry_apply (r : sessionRegistry) (e : registry_event) : sessionRegistry :=
  match e with Arrives u d a now => snd (registry_add r u d a now) | Leaves id => registry_remove r id end.

(** The reference: a list of sessions, newest last. *)
Definition spec_apply (st : list sessionInfo * Z) (e : registry_event) : list sessionInfo * Z :=
  match e with
  | Arrives u d a now =>
      (fst st ++ [{| si_id := snd st + 1; si_user := u; si_database := d; si_addr := a; si_since := now |}], snd st + 1)
  | Leaves id => (List.filter (fun s => negb (bool_decide (si_id s = id))) (fst st), snd st)
  end.

Definition registry_rel (r : sessionRegistry) (st : list sessionInfo * Z) : Prop :=
  sr_nextID r = snd st /\ 0 <= snd st /\ StronglySorted (fun a b => si_id a < si_id b) (fst st) /\
  Forall (fun s => 0 < si_id s <= snd st) (fst st) /\
  (forall id s, sr_sessions r !! id = Some s <-> s ∈ fst st /\ si_id s = id).

Lemma sorted_same_elements l1 l2 :
  StronglySorted (fun a b => si_id a < si_id b) l1 -> StronglySorted by_id l2 -> l1 ≡ₚ l2 -> l1 = l2.
Proof.
  revert l2. induction l1 as [|a l1 IH]; intros l2 H1 H2 Hp; [by apply Permutation_nil in Hp|].
  destruct l2 as [|b l2]; [by symmetry in Hp; apply Permutation_nil in Hp|].
  apply StronglySorted_inv in H1 as [H1 F1]. apply StronglySorted_inv in H2 as [H2 F2].
  rewrite list.Forall_forall in F1, F2.
  assert (a = b) as <-.
  { assert (a ∈ b :: l2) as Ha by (rewrite <- Hp; by left). assert (b ∈ a :: l1) as Hb by (rewrite Hp; by left).
    apply elem_of_cons in Ha as [->|Ha]; [done|]. apply elem_of_cons in Hb as [->|Hb]; [done|].
    specialize (F1 _ Hb). specialize (F2 _ Ha). unfold by_id in F2. lia. }
  f_equal. apply IH; [done|done|]. by apply Permutation_cons_inv in Hp.
Qed.

Lemma registry_apply_rel r st e :
  registry_rel r st -> snd st + 1 < 2 ^ 64 -> registry_rel (registry_apply r e) (spec_apply st e).
Proof.
  intros (Hn & H0 & Hs & Hf & Hm) Hb. destruct st as [l n]. cbn [fst snd] in *. destruct e as [u d a now|id]; cbn.
  - assert (u64 (sr_nextID r + 1) = n + 1) as Eu by (unfold u64; rewrite Z.mod_small; lia). rewrite Eu.
    rewrite list.Forall_forall in Hf. split_and!; cbn; [done|lia| | |].
    + clear -Hs Hf. induction Hs as [|x l Hs IH Hx]; cbn; [repeat constructor|]. constructor.
      * apply IH. intros y Hy. apply Hf. by right.
      * apply Forall_app. split; [done|]. repeat constructor. cbn. assert (0 < si_id x <= n) by (apply Hf; by left). lia.
    + apply Forall_app. split; [|repeat constructor; cbn; lia]. apply list.Forall_forall. intros x Hx. specialize (Hf x Hx). lia.
    + intros id s. rewrite elem_of_app, list_elem_of_singleton. split.
      * intros [[<- <-]|[Hne E]]%lookup_insert_Some; [cbn; auto|]. apply Hm in E as [E1 E2]. auto.
      * intros [[Hin| ->] <-]; [|by rewrite lookup_insert_eq]. rewrite lookup_insert_ne; [by apply Hm|]. specialize (Hf s Hin). lia.
  - split_and!; cbn; [done|done| | |].
    + clear -Hs. induction Hs as [|x l Hs IH Hx]; cbn; [constructor|]. destruct (negb _); [|done]. constructor; [done|].
      rewrite List.Forall_forall in *. intros y [Hy _]%filter_In. auto.
    + rewrite List.Forall_forall in *. intros y [Hy _]%filter_In. auto.
    + intros i s. rewrite lookup_delete_Some, list_elem_of_In, filter_In, <- list_elem_of_In, Hm, negb_true_iff, bool_decide_eq_false.
      naive_solver.
Qed.

(** The sessions the console lists are the live ones, in the order they were
    accepted: after any sequence of fewer than 2^64 arrivals and departures the
    registry's sorted view equals the list one would keep by hand, and its count is
    that list's length. *)
Theorem registry_refines events :
  Z.of_nat (length events) < 2 ^ 64 ->
  let r := foldl registry_apply newSessionRegistry events in
  let spec := fst (foldl spec_apply ([], 0) events) in
  registry_list r = spec /\ registry_count r = length spec.
Proof.
  intros Hl r spec.
  assert (registry_rel r (foldl spec_apply ([], 0) events)) as (Hn & H0 & Hs & Hf & Hm).
  { subst r spec. assert (registry_rel newSessionRegistry ([], 0)) as Hi.
    { split_and!; cbn; [done|done|constructor|constructor|]. intros id s. rewrite lookup_empty. set_solver. }
    assert (forall evs r st, registry_rel r st -> snd st + Z.of_nat (length evs) < 2 ^ 64 ->
      registry_rel (foldl registry_apply r evs) (foldl spec_apply st evs)) as Hrun.
    { induction evs as [|e evs IH]; intros r st Hr Hb; [done|]. cbn [foldl]. cbn [length] in Hb. apply IH.
      - apply registry_apply_rel; [done|lia].
      - destruct e; cbn; lia. }
    apply Hrun; [done|cbn; lia]. }
  fold spec in Hs, Hf, Hm.
  assert (NoDup spec) as Hnd.
  { clear -Hs. induction Hs as [|x l Hs IH Hx]; [constructor|]. apply list.NoDup_cons. split; [|done].
    intros Hin. rewrite list.Forall_forall in Hx. specialize (Hx x Hin). lia. }
  assert (spec ≡ₚ snd <$> map_to_list (sr_sessions r)) as Hp.
  { apply NoDup_Permutation; [done| |].
    - apply NoDup_fmap_2_strong; [|apply NoDup_map_to_list]. intros [i x] [j y] Hx%elem_of_map_to_list Hy%elem_of_map_to_list Exy.
      cbn in Exy. subst y. apply Hm in Hx as [_ <-], Hy as [_ <-]. done.
    - intros x. rewrite list_elem_of_fmap. split.
      + intros Hin. exists (si_id x, x). split; [done|]. apply elem_of_map_to_list, Hm. done.
      + intros ([i y] & -> & Hy%elem_of_map_to_list). by apply Hm in Hy as [? _]. }
  split.
  - unfold registry_list. symmetry. apply sorted_same_elements; [done|apply StronglySorted_merge_sort; apply _|].
    by rewrite Hp, merge_sort_Permutation.
  - unfold registry_count. rewrite Hp, length_fmap, length_map_to_list. done.
Qed.

Lemma registry_refines_witness :
  registry_list (foldl registry_apply newSessionRegistry
    [Arrives (bs "ann") (bs "app") (bs "a") 1; Arrives (bs "bob") (bs "app") (bs "b") 2; Leaves 1; Arrives (bs "cat") (bs "app") (bs "c") 3]) =
  [{| si_id := 2; si_user := bs "bob"; si_database := bs "app"; si_addr := bs "b"; si_since := 2 |};
   {| si_id := 3; si_user := bs "cat"; si_database := bs "app"; si_addr := bs "c"; si_since := 3 |}].
Proof.
  refine (proj1 (registry_refines [Arrives (bs "ann") (bs "app") (bs "a") 1; Arrives (bs "bob") (bs "app") (bs "b") 2; Leaves 1;
    Arrives (bs "cat") (bs "app") (bs "c") 3] _)). reflexivity.
Defined.
End Registries.
