(* ===== verification/RateLimit.v ===== *)
(** * Rate limiting

    [middleware/rate_limit.go] and [middleware/tenant_limiters.go]: what a
    statement is charged, and the bounded map of per-user limiters, keyed by a
    name any client may choose.  The limiter itself ([golang.org/x/time/rate])
    is not part of the repository; the map is over any type of limiters. *)
From Stdlib Require Import ZArith Lia Strings.String.
From stdpp Require Import base gmap list numbers option.
From S2P Require Import Prelude Wire Scanner Session Startup Tokenizer.

(** ** Charging a statement *)

Definition maxQueryCost : Z := 50.

(** What one keyword adds; [Tokenize] already returns keywords in upper case. *)
Definition keyword_cost (v : bytes) : Z :=
  if decide (v = bs "JOIN") then 5
  else if decide (v = bs "GROUP") then 3
  else if decide (v = bs "ORDER") then 2
  else if decide (v = bs "UNION") then 4
  else if decide (v = bs "SELECT") then 1
  else if decide (v ∈ [bs "UPDATE"; bs "DELETE"; bs "INSERT"]) then 2
  else 0.

Definition token_cost (t : Token) : Z :=
  if decide (Type_ t <> TokenKeyword) then 0 else keyword_cost (map upper_byte (Value t)).

(** [estimateCost]. *)
Definition estimateCost (high_letter high_digit : Z -> bool) (query : bytes) : Z :=
  if decide (query = []) then 1
  else
    let cost := foldl (fun cost t => cost + token_cost t) 1 (Tokenize high_letter high_digit query) in
    if decide (maxQueryCost < cost) then maxQueryCost else cost.

(** [waitCost]: what [WaitN] is asked for; [None] is an unlimited limiter. *)
Definition waitCost (infinite : bool) (burst cost : Z) : option Z :=
  if infinite then None
  else Some (if decide (0 < burst /\ burst < cost) then burst else cost).

(** ** The limiters of the tenants *)

Definition DefaultMaxTenants : Z := 4096.
Definition tenantIdleTimeout : Z := 10 * 60 * 1000000000.

Section Tenants.
Context {Limiter : Type}.

Record tenantEntry := { te_limiter : Limiter; te_lastSeen : Z }.

Record TenantLimiters := { tl_entries : gmap bytes tenantEntry; tl_count : Z; tl_max : Z }.

(** [NewTenantLimiters]. *)
Definition NewTenantLimiters (max : Z) : TenantLimiters :=
  {| tl_entries := ∅; tl_count := 0; tl_max := if decide (max <= 0) then DefaultMaxTenants else max |}.

(** [evictLocked]'s pass over the entries, in the order [Range] visits them. *)
Fixpoint evict_loop (order : list bytes) (cutoff : Z) (entries : gmap bytes tenantEntry) (removed : Z)
    (oldest : option (bytes * Z)) : gmap bytes tenantEntry * Z * option (bytes * Z) :=
  match order with
  | [] => (entries, removed, oldest)
  | key :: order =>
      match entries !! key with
      | None => evict_loop order cutoff entries removed oldest
      | Some e =>
          if decide (te_lastSeen e < cutoff)
          then evict_loop order cutoff (delete key entries) (removed + 1) oldest
          else
            evict_loop order cutoff entries removed
              match oldest with
              | None => Some (key, te_lastSeen e)
              | Some (_, seen) => if decide (te_lastSeen e < seen) then Some (key, te_lastSeen e) else oldest
              end
      end
  end.

(** [evictLocked]. *)
Definition tenants_evictLocked (t : TenantLimiters) (now : Z) (order : list bytes) : TenantLimiters :=
  let '(entries, removed, oldest) := evict_loop order (now - tenantIdleTimeout) (tl_entries t) 0 None in
  let '(entries, removed) :=
    if decide (removed = 0) then
      match oldest with Some (key, _) => (delete key entries, removed + 1) | None => (entries, removed) end
    else (entries, removed) in
  let count := tl_count t - removed in
  {| tl_entries := entries; tl_count := if decide (count < 0) then 0 else count; tl_max := tl_max t |}.

Definition touch (t : TenantLimiters) (tenant : bytes) (e : tenantEntry) (now : Z) : TenantLimiters :=
  {| tl_entries := <[tenant := {| te_limiter := te_limiter e; te_lastSeen := now |}]> (tl_entries t);
     tl_count := tl_count t; tl_max := tl_max t |}.

(** [admit_tenant], under the admission lock; [fresh] is the limiter a new entry gets. *)
Definition admit_tenant (t : TenantLimiters) (tenant : bytes) (now : Z) (order : list bytes) (fresh : Limiter)
  : Limiter * TenantLimiters :=
  match tl_entries t !! tenant with
  | Some e => (te_limiter e, touch t tenant e now)
  | None =>
      let t := if decide (tl_max t <= tl_count t) then tenants_evictLocked t now order else t in
      (fresh, {| tl_entries := <[tenant := {| te_limiter := fresh; te_lastSeen := now |}]> (tl_entries t);
                 tl_count := tl_count t + 1; tl_max := tl_max t |})
  end.

(** [Get]: the lock-free hit, then [admit_tenant]; in between, other sessions may have
    moved the map on to [t']. *)
Definition tenants_Get (t t' : TenantLimiters) (tenant : bytes) (now : Z) (order : list bytes) (fresh : Limiter)
  : Limiter * TenantLimiters :=
  match tl_entries t !! tenant with
  | Some e => (te_limiter e, touch t tenant e now)
  | None => admit_tenant t' tenant now order fresh
  end.

(** [Len]. *)
Definition Len (t : TenantLimiters) : Z := tl_count t.

(** ** Invariant *)

Definition counted (t : TenantLimiters) : Prop :=
  tl_count t = Z.of_nat (size (tl_entries t)) /\ tl_count t <= tl_max t /\ 0 < tl_max t.

Definition ranges_tenants (order : list bytes) (t : TenantLimiters) : Prop :=
  NoDup order /\ forall k, k ∈ order <-> is_Some (tl_entries t !! k).

Lemma size_delete_some (m : gmap bytes tenantEntry) k e :
  m !! k = Some e -> Z.of_nat (size (delete k m)) = Z.of_nat (size m) - 1.
Proof.
  intros H. rewrite map_size_delete, H. unfold id.
  assert (size m <> 0%nat); [|lia]. rewrite map_size_non_empty_iff. intros ->. by rewrite lookup_empty in H.
Qed.

Lemma evict_loop_spec order cutoff : forall entries removed oldest,
  match oldest with Some (k, _) => is_Some (entries !! k) /\ k ∉ order | None => True end -> NoDup order ->
  let '(entries', removed', oldest') := evict_loop order cutoff entries removed oldest in
  removed <= removed' /\ Z.of_nat (size entries') + removed' = Z.of_nat (size entries) + removed /\
  match oldest' with Some (k, _) => is_Some (entries' !! k) | None => True end /\
  (removed' = removed -> oldest' = None -> oldest = None /\ forall k, k ∈ order -> entries !! k = None).
Proof.
  induction order as [|key order IH]; intros entries removed oldest Ho Hn; cbn [evict_loop].
  { split_and!; [lia|lia|by destruct oldest as [[? ?]|]; [destruct Ho|]|]. intros _ ->. split; [done|set_solver]. }
  inversion Hn as [|?? Hk Hn']; subst. destruct (entries !! key) as [e|] eqn:Ee.
  - case_decide.
    + specialize (IH (delete key entries) (removed + 1) oldest).
      destruct (evict_loop order cutoff (delete key entries) (removed + 1) oldest) as [[en' r'] o'].
      destruct IH as (H1 & H2 & H3 & H4); [|done|].
      { destruct oldest as [[k s]|]; [|done]. destruct Ho as [Ho1 Ho2]. split; [|set_solver].
        rewrite lookup_delete_ne by set_solver. done. }
      rewrite (size_delete_some _ _ _ Ee) in H2. split_and!; [lia|lia|done|lia].
    + set (oldest' := match oldest with None => _ | Some _ => _ end).
      specialize (IH entries removed oldest').
      assert (exists k s, oldest' = Some (k, s) /\ is_Some (entries !! k) /\ k ∉ order) as (k & s & Eo & Hs & Hno).
      { unfold oldest'. destruct oldest as [[k s]|]; [|eauto 10]. destruct Ho as [Ho1 Ho2].
        case_decide; [eauto 10|]. exists k, s. split_and!; [done|done|set_solver]. }
      destruct (evict_loop order cutoff entries removed oldest') as [[en' r'] o'].
      destruct IH as (H1 & H2 & H3 & H4); [by rewrite Eo|done|]. split_and!; [done..|].
      intros Hr Ho'. destruct (H4 Hr Ho') as [E _]. congruence.
  - specialize (IH entries removed oldest).
    destruct (evict_loop order cutoff entries removed oldest) as [[en' r'] o'].
    destruct IH as (H1 & H2 & H3 & H4); [|done|].
    { destruct oldest as [[k s]|]; [|done]. destruct Ho. split; [done|set_solver]. }
    split_and!; [done..|]. intros Hr Ho'. destruct (H4 Hr Ho') as [-> Hall]. split; [done|].
    intros k [->|?]%elem_of_cons; auto.
Qed.

Lemma evict_makes_room t now order :
  counted t -> ranges_tenants order t -> 0 < tl_count t ->
  tl_count (tenants_evictLocked t now order) = Z.of_nat (size (tl_entries (tenants_evictLocked t now order))) /\
  tl_count (tenants_evictLocked t now order) < tl_count t /\
  tl_max (tenants_evictLocked t now order) = tl_max t /\
  (forall k, tl_entries (tenants_evictLocked t now order) !! k <> None -> tl_entries t !! k <> None).
Proof.
  intros (Hc & Hm & Hp) [Hnd Hr] Hpos. unfold tenants_evictLocked.
  pose proof (evict_loop_spec order (now - tenantIdleTimeout) (tl_entries t) 0 None I Hnd) as H.
  assert (forall order cutoff en r o, let '(en', _, _) := evict_loop order cutoff en r o in
            forall k, en' !! k <> None -> en !! k <> None) as Hsub.
  { clear. induction order as [|key order IH]; intros cutoff en r o; cbn [evict_loop]; [done|].
    destruct (en !! key); [|apply IH]. case_decide; [|apply IH].
    specialize (IH cutoff (delete key en) (r + 1) o). destruct (evict_loop _ _ _ _ _) as [[en' ?] ?].
    intros k Hk%IH. destruct (decide (k = key)) as [->|]; [by rewrite lookup_delete_eq in Hk|].
    by rewrite lookup_delete_ne in Hk by done. }
  specialize (Hsub order (now - tenantIdleTimeout) (tl_entries t) 0 None).
  destruct (evict_loop order (now - tenantIdleTimeout) (tl_entries t) 0 None) as [[en r] o].
  destruct H as (H1 & H2 & H3 & H4). case_decide as Hz; [subst r; destruct o as [[k s]|]|].
  - destruct H3 as [e He]. cbn [tl_count tl_entries tl_max]. rewrite (size_delete_some _ _ _ He).
    rewrite decide_False by lia. split_and!; [lia|lia|done|]. intros x Hx. apply Hsub.
    intros E. apply Hx. destruct (decide (x = k)) as [->|]; [by rewrite lookup_delete_eq|by rewrite lookup_delete_ne].
  - exfalso. destruct (H4 eq_refl eq_refl) as [_ Hall].
    assert (size (tl_entries t) <> 0%nat) as Hne%map_size_non_empty_iff by lia.
    apply map_choose in Hne as (x & e & Hx). rewrite (Hall x) in Hx; [done|]. apply Hr. eauto.
  - cbn [tl_count tl_entries tl_max]. rewrite decide_False by lia. split_and!; [lia|lia|done|done].
Qed.

Lemma admit_counted t tenant now order fresh :
  counted t -> ranges_tenants order t ->
  counted (snd (admit_tenant t tenant now order fresh)) /\
  tl_max (snd (admit_tenant t tenant now order fresh)) = tl_max t /\
  exists e, tl_entries (snd (admit_tenant t tenant now order fresh)) !! tenant = Some e /\
            te_limiter e = fst (admit_tenant t tenant now order fresh) /\ te_lastSeen e = now.
Proof.
  intros Hc Hr. unfold admit_tenant. destruct (tl_entries t !! tenant) as [e|] eqn:Ee; cbn [fst snd].
  - destruct Hc as (Hc & Hm & Hp). unfold counted, touch. cbn [tl_count tl_entries tl_max].
    rewrite map_size_insert, Ee. unfold id. split_and!; try done. eexists. by rewrite lookup_insert_eq.
  - set (t' := if decide (tl_max t <= tl_count t) then _ else t).
    assert (tl_count t' = Z.of_nat (size (tl_entries t')) /\ tl_count t' < tl_max t /\ tl_max t' = tl_max t /\
            tl_entries t' !! tenant = None) as (H1 & H2 & H3 & H4).
    { unfold t'. destruct Hc as (Hc & Hm & Hp). case_decide.
      - destruct (evict_makes_room t now order) as (H1 & H2 & H3 & H4); [done|done|lia|].
        split_and!; [done|lia|done|]. destruct (tl_entries (tenants_evictLocked t now order) !! tenant) eqn:X; [|done].
        exfalso. apply (H4 tenant); [by rewrite X|done].
      - split_and!; [done|lia|done|done]. }
    unfold counted. cbn [tl_count tl_entries tl_max]. rewrite map_size_insert, H4, H3.
    destruct Hc as (_ & _ & Hp). split_and!; [lia|lia|lia|done|]. eexists. by rewrite lookup_insert_eq.
Qed.
End Tenants.

Arguments TenantLimiters : clear implicits.

(** ** Properties *)

Lemma keyword_cost_range v : 0 <= keyword_cost v <= 5.
Proof. unfold keyword_cost. repeat case_decide; lia. Qed.

Lemma token_cost_range t : 0 <= token_cost t <= 5.
Proof. unfold token_cost. case_decide; [lia|]. apply keyword_cost_range. Qed.

Lemma estimateCost_range high_letter high_digit q : 1 <= estimateCost high_letter high_digit q <= maxQueryCost.
Proof.
  unfold estimateCost. case_decide; [unfold maxQueryCost; lia|]. cbv zeta.
  assert (forall ts acc, acc <= foldl (fun cost t => cost + token_cost t) acc ts) as Hm.
  { induction ts as [|t ts IH]; intros acc; cbn [foldl]; [lia|].
    specialize (IH (acc + token_cost t)). pose proof (token_cost_range t). lia. }
  specialize (Hm (Tokenize high_letter high_digit q) 1). case_decide; unfold maxQueryCost in *; lia.
Qed.

(** Lookups by any number of sessions, each seeing the map as another left it. *)
Inductive tenants_step {Limiter} : TenantLimiters Limiter -> TenantLimiters Limiter -> Prop :=
| tenant_lookup t t0 tenant now order fresh :
    (* [t0] is the map at the lock-free lookup, [t] when the lock was taken;
       a hit touches the entry if it is still there *)
    ranges_tenants order t -> tl_entries t0 !! tenant = None ->
    tenants_step t (snd (tenants_Get t0 t tenant now order fresh))
| tenant_hit t tenant now order fresh e :
    tl_entries t !! tenant = Some e -> tenants_step t (snd (tenants_Get t t tenant now order fresh)).

Lemma tenants_step_counted {Limiter} (t t' : TenantLimiters Limiter) :
  tenants_step t t' -> counted t -> counted t' /\ tl_max t' = tl_max t.
Proof.
  intros Hs Hc. destruct Hs as [t t0 tenant now order fresh Hr Hn|t tenant now order fresh e He]; unfold tenants_Get.
  - rewrite Hn. destruct (admit_counted t tenant now order fresh Hc Hr) as (? & ? & _). done.
  - rewrite He. cbn [snd]. destruct Hc as (Hc & Hm & Hp). unfold counted, touch. cbn [tl_count tl_entries tl_max].
    rewrite map_size_insert, He. done.
Qed.

(** Neither half of the limiter can be turned against the proxy.  The map
    of per-user limiters never holds more than its bound and its counter is
    exact, however many unknown names arrive and however the lookups interleave
    with admissions; and what a statement is charged is at least one token, at
    most the cap, and never more than a positive burst, so waiting for it can
    always succeed. *)
Theorem limiter_bounded {Limiter : Type} (max : Z) (t : TenantLimiters Limiter)
    (high_letter high_digit : Z -> bool) (query : bytes) (burst : Z) :
  rtc tenants_step (NewTenantLimiters max) t -> 0 < burst ->
  Len t = Z.of_nat (size (tl_entries t)) /\ Len t <= (if decide (max <= 0) then DefaultMaxTenants else max) /\
  exists n, waitCost false burst (estimateCost high_letter high_digit query) = Some n /\
    1 <= n <= burst /\ n <= maxQueryCost.
Proof.
  intros Hr Hb. assert (counted t /\ tl_max t = tl_max (NewTenantLimiters (Limiter:=Limiter) max)) as [(Hc & Hm & _) Em].
  { assert (counted (NewTenantLimiters (Limiter:=Limiter) max)) as H0.
    { unfold counted, NewTenantLimiters. cbn. case_decide; split_and!; try done; lia. }
    revert H0. induction Hr as [t|t1 t2 t3 Hs _ IH]; intros H0; [done|].
    destruct (tenants_step_counted _ _ Hs H0) as [H1 E1]. destruct (IH H1) as [? ?]. split; [done|congruence]. }
  unfold Len. split_and!; [done|rewrite Em in Hm; exact Hm|].
  pose proof (estimateCost_range high_letter high_digit query). unfold waitCost. case_decide; eexists; split; [done|lia|done|lia].
Qed.

Lemma limiter_bounded_witness :
  let t := snd (tenants_Get (NewTenantLimiters (Limiter:=unit) 1) (NewTenantLimiters 1) (bs "ann") 5 [] tt) in
  Len t = Z.of_nat (size (tl_entries t)) /\ Len t <= 1 /\
  exists n, waitCost false 3 (estimateCost no_rune no_rune (bs "SELECT * FROM a JOIN b ON 1 = 1")) = Some n /\
    1 <= n <= 3 /\ n <= maxQueryCost.
Proof.
  refine (limiter_bounded 1 _ no_rune no_rune (bs "SELECT * FROM a JOIN b ON 1 = 1") 3 _ _).
  - apply rtc_once. apply tenant_lookup; [|reflexivity]. split; [constructor|].
    intros k. change (tl_entries (NewTenantLimiters 1)) with (∅ : gmap bytes (@tenantEntry unit)).
    rewrite lookup_empty. split; [set_solver|intros []; done].
  - reflexivity.
Defined.
