(* ===== verification/Tracker.v ===== *)
(** * What Pontus observes of its own traffic

    pkg/observability: tracker.go (module-level definitions), throttler.go and
    dbstats.go.  The tracker counts every statement the gateway finishes and keeps
    a bounded summary per normalised statement; the throttler limits statements
    whose summary is bad; the registry counts per database, for the console.

    Rates and latencies are exact rationals instead of floating point.  The order
    in which a map is ranged over is an argument. *)
From Stdlib Require Import ZArith QArith Lia Strings.String.
From stdpp Require Import base gmap list numbers option sorting.
From S2P Require Import Prelude Wire Scanner.
#[local] Close Scope Q_scope.
#[local] Open Scope Z_scope.

(** ** Rates *)

(** A number of events over a number of nanoseconds, per second. *)
Definition per_second (events ns : Z) : Q := Qmake (events * 1000000000) (Z.to_pos ns).
Definition ratio (part whole : Z) : Q := Qmake part (Z.to_pos whole).

(** [rateCursor]; a zero [at] is [None]. *)
Record rateCursor := { rc_total : Z; rc_errors : Z; rc_at : option Z }.

Definition newCursor : rateCursor := {| rc_total := 0; rc_errors := 0; rc_at := None |}.

(** [delta]: [None] where [ok] is false. *)
Definition delta (c : rateCursor) (total errors now : Z) : option (Q * Q) * rateCursor :=
  let c' := {| rc_total := total; rc_errors := errors; rc_at := Some now |} in
  match rc_at c with
  | None => (None, c')
  | Some at_ =>
      let elapsed := now - at_ in
      let dTotal := total - rc_total c in
      let dErrors := errors - rc_errors c in
      if decide (elapsed <= 0) then (None, c')
      else if decide (dTotal < 0 \/ dErrors < 0) then (None, c')
      else (Some (per_second dTotal elapsed,
                  if decide (0 < dTotal) then ratio dErrors dTotal else 0%Q), c')
  end.

(** ** The tracker *)

Record MetricSnapshot := { Timestamp : Z; RPS : Q; snap_ErrorRate : Q; Latency : Q }.

Record QueryStat := {
  Query : bytes; Count : Z; TotalTime : Z; MaxTime : Z; LastSeen : Z; ErrorCount : Z
}.

Definition numShards : nat := 16.
Definition historyWindow : nat := 60.

Abbreviation shard := (gmap bytes QueryStat).

Record QueryTracker := {
  shards : list shard; history : list MetricSnapshot; maxSize : Z; startTime : Z;
  totalRequests : Z; totalErrors : Z;
  currentRate : option (Q * Q);      (* [hasRate], [currentRPS] and [currentErrRate] *)
  liveCursor : rateCursor; snapCursor : rateCursor
}.

Definition NewQueryTracker (maxSize now : Z) : QueryTracker :=
  {| shards := replicate numShards ∅; history := []; maxSize := maxSize; startTime := now;
     totalRequests := 0; totalErrors := 0; currentRate := None;
     liveCursor := newCursor; snapCursor := newCursor |}.

(** [evictStale]. *)
Definition evictStale (stats : shard) : shard :=
  if decide (size stats = 0)%nat then stats
  else
    let seen := merge_sort (≤)%Z (map (fun kv => LastSeen (snd kv)) (map_to_list stats)) in
    let cutoff := default 0 (seen !! (length seen / 2)%nat) in
    let stats := filter (fun kv => cutoff < LastSeen (snd kv)) stats in
    if decide (length seen <= size stats)%nat then ∅ else stats.

(** [getShard]: the index, an FNV hash of the statement. *)
Definition fnv_step (h : Z) (b : byte) : Z := Z.lxor (u32 (h * 16777619)) (bval b).
Definition fnv (query : bytes) : Z := foldl fnv_step 2166136261 query.
Definition getShard (query : bytes) : nat := Z.to_nat (fnv query mod 16).

Definition bump (s : QueryStat) (duration : Z) (err : bool) (now : Z) : QueryStat :=
  {| Query := Query s; Count := Count s + 1; TotalTime := TotalTime s + duration;
     MaxTime := if decide (MaxTime s < duration) then duration else MaxTime s;
     ErrorCount := if err then ErrorCount s + 1 else ErrorCount s; LastSeen := now |}.

Definition newStat (query : bytes) : QueryStat :=
  {| Query := query; Count := 0; TotalTime := 0; MaxTime := 0; LastSeen := 0; ErrorCount := 0 |}.

(** The locked part of [Record], on the statement's shard. *)
Definition record_in (max : Z) (stats : shard) (query : bytes) (duration : Z) (err : bool) (now : Z) : shard :=
  match stats !! query with
  | Some s => <[query := bump s duration err now]> stats
  | None =>
      let stats := if decide (Z.quot max 16 <= Z.of_nat (size stats)) then evictStale stats else stats in
      <[query := bump (newStat query) duration err now]> stats
  end.

Definition set_counters (t : QueryTracker) (total errors : Z) : QueryTracker :=
  {| shards := shards t; history := history t; maxSize := maxSize t; startTime := startTime t;
     totalRequests := total; totalErrors := errors; currentRate := currentRate t;
     liveCursor := liveCursor t; snapCursor := snapCursor t |}.

Definition set_shards (t : QueryTracker) (s : list shard) : QueryTracker :=
  {| shards := s; history := history t; maxSize := maxSize t; startTime := startTime t;
     totalRequests := totalRequests t; totalErrors := totalErrors t; currentRate := currentRate t;
     liveCursor := liveCursor t; snapCursor := snapCursor t |}.

(** [Record]. *)
Definition tracker_Record (t : QueryTracker) (query : bytes) (duration : Z) (err : bool) (now : Z) : QueryTracker :=
  let t := set_counters t (totalRequests t + 1) (if err then totalErrors t + 1 else totalErrors t) in
  if decide (query = []) then t
  else set_shards t (alter (fun stats => record_in (maxSize t) stats query duration err now)
                       (getShard query) (shards t)).

(** [GlobalStats] and [ErrorRate]. *)
Definition GlobalStats (t : QueryTracker) (now : Z) : Z * Z * Q :=
  match currentRate t with
  | Some (rps, _) => (totalRequests t, totalErrors t, rps)
  | None =>
      let uptime := now - startTime t in
      (totalRequests t, totalErrors t,
       if decide (0 < uptime) then per_second (totalRequests t) uptime else 0%Q)
  end.

Definition tracker_ErrorRate (t : QueryTracker) : Q :=
  match currentRate t with
  | Some (_, errRate) => errRate
  | None => if decide (totalRequests t = 0) then 0%Q else ratio (totalErrors t) (totalRequests t)
  end.

Definition sampleRate (t : QueryTracker) (now : Z) : QueryTracker :=
  let '(r, c) := delta (liveCursor t) (totalRequests t) (totalErrors t) now in
  {| shards := shards t; history := history t; maxSize := maxSize t; startTime := startTime t;
     totalRequests := totalRequests t; totalErrors := totalErrors t;
     currentRate := match r with Some r => Some r | None => currentRate t end;
     liveCursor := c; snapCursor := snapCursor t |}.

(** [GetTop]; [all] is the summaries in the order they were ranged over. *)
Definition by_count (a b : QueryStat) : Prop := Count b <= Count a.

#[global] Instance by_count_dec a b : Decision (by_count a b).
Proof. unfold by_count. apply _. Defined.

Definition GetTop (all : list QueryStat) (limit : nat) : list QueryStat :=
  let all := merge_sort by_count all in
  if decide (limit < length all)%nat then take limit all else all.

Definition summaries (t : QueryTracker) : list QueryStat :=
  concat (map (fun s => map snd (map_to_list s)) (shards t)).

(** *** Snapshots and the store *)

Inductive saved :=
| SavedSnapshot (s : MetricSnapshot)
| SavedCounters (total errors : Z)
| SavedTopQueries (top : list (QueryStat * Z)).    (* with the average in milliseconds *)

Definition milliseconds (ns : Z) : Z := Z.quot ns 1000000.

Definition stat_latency (s : QueryStat) : option Q :=
  if decide (0 < Count s) then Some (ratio (milliseconds (TotalTime s)) (Count s)) else None.

Definition average_latency (all : list QueryStat) : Q :=
  let means := omap stat_latency all in
  match means with
  | [] => 0%Q
  | _ => (foldl Qplus 0 means / inject_Z (zlen means))%Q
  end.

Definition append_history (h : list MetricSnapshot) (s : MetricSnapshot) : list MetricSnapshot :=
  let h := h ++ [s] in
  if decide (historyWindow < length h)%nat then drop (length h - historyWindow) h else h.

Definition with_average (s : QueryStat) : QueryStat * Z :=
  (s, if decide (0 < Count s) then Z.quot (milliseconds (TotalTime s)) (Count s) else 0).

(** [snapshot], and what it saves where a store is set. *)
Definition snapshot (t : QueryTracker) (all : list QueryStat) (store : bool) (now : Z)
  : QueryTracker * list saved :=
  let '(r, c) := delta (snapCursor t) (totalRequests t) (totalErrors t) now in
  let with_history h :=
    {| shards := shards t; history := h; maxSize := maxSize t; startTime := startTime t;
       totalRequests := totalRequests t; totalErrors := totalErrors t; currentRate := currentRate t;
       liveCursor := liveCursor t; snapCursor := c |} in
  match r with
  | None => (with_history (history t), [])
  | Some (rps, errRate) =>
      let snap := {| Timestamp := now; RPS := rps; snap_ErrorRate := errRate; Latency := average_latency all |} in
      (with_history (append_history (history t) snap),
       if store then [SavedSnapshot snap; SavedCounters (totalRequests t) (totalErrors t);
                      SavedTopQueries (map with_average (GetTop all 20))]
       else [])
  end.

(** [Flush]. *)
Definition tracker_Flush (t : QueryTracker) (all : list QueryStat) (store : bool) (now : Z) : QueryTracker * list saved :=
  if store then
    let '(t, out) := snapshot t all true now in
    (t, out ++ [SavedCounters (totalRequests t) (totalErrors t)])
  else (t, []).

(** [hydrate]: the history the store returned ([None] for an error, and an
    absent row or timestamp is skipped) and the counters it returned. *)
Definition hydrate (t : QueryTracker) (stored : option (list (option MetricSnapshot)))
    (counters : option (Z * Z)) (now : Z) : QueryTracker :=
  let h := match stored with
           | Some ((_ :: _) as rows) =>
               let restored := omap id rows in
               if decide (historyWindow < length restored)%nat
               then drop (length restored - historyWindow) restored else restored
           | _ => history t
           end in
  match counters with
  | Some (total, errors) =>
      if decide (0 < total) then
        {| shards := shards t; history := h; maxSize := maxSize t; startTime := startTime t;
           totalRequests := total; totalErrors := errors; currentRate := currentRate t;
           liveCursor := snd (delta (liveCursor t) total errors now);
           snapCursor := snd (delta (snapCursor t) total errors now) |}
      else
        {| shards := shards t; history := h; maxSize := maxSize t; startTime := startTime t;
           totalRequests := totalRequests t; totalErrors := totalErrors t; currentRate := currentRate t;
           liveCursor := liveCursor t; snapCursor := snapCursor t |}
  | None =>
      {| shards := shards t; history := h; maxSize := maxSize t; startTime := startTime t;
         totalRequests := totalRequests t; totalErrors := totalErrors t; currentRate := currentRate t;
         liveCursor := liveCursor t; snapCursor := snapCursor t |}
  end.

(** ** The throttler

    The limiter of a statement (golang.org/x/time/rate) is any type with a test
    that consumes a token. *)

Record ThrottlingPolicy := { MaxLatency : Z; MaxErrorRate : Q; MinSampleCount : Z }.

(** [DefaultThrottlingPolicy], without the limiter's own two numbers. *)
Definition DefaultThrottlingPolicy : ThrottlingPolicy :=
  {| MaxLatency := 2 * 1000000000; MaxErrorRate := 1 # 10; MinSampleCount := 100 |}.

Section Throttler.
Context {Limiter : Type} (NewLimiter : Limiter) (limiter_Allow : Limiter -> bool * Limiter).

Record DynamicThrottler := { limiters : gmap bytes Limiter; policy : ThrottlingPolicy }.

Definition NewDynamicThrottler (policy : ThrottlingPolicy) : DynamicThrottler :=
  {| limiters := ∅; policy := policy |}.

Definition throttler_Allow (dt : DynamicThrottler) (fingerprint : bytes) : bool * DynamicThrottler :=
  match limiters dt !! fingerprint with
  | None => (true, dt)
  | Some l => let '(ok, l) := limiter_Allow l in
              (ok, {| limiters := <[fingerprint := l]> (limiters dt); policy := policy dt |})
  end.

Definition IsThrottled (dt : DynamicThrottler) (fingerprint : bytes) : bool :=
  bool_decide (is_Some (limiters dt !! fingerprint)).

Definition shouldThrottle (p : ThrottlingPolicy) (stat : QueryStat) : bool :=
  let avgLatency := if decide (0 < Count stat) then Z.quot (TotalTime stat) (Count stat) else 0 in
  let errorRate := if decide (0 < Count stat) then ratio (ErrorCount stat) (Count stat) else 0%Q in
  bool_decide (MaxLatency p < avgLatency) || negb (Qle_bool errorRate (MaxErrorRate p)).

Definition throttler_Update (dt : DynamicThrottler) (fingerprint : bytes) (stat : QueryStat) : DynamicThrottler :=
  if decide (Count stat < MinSampleCount (policy dt)) then dt
  else if shouldThrottle (policy dt) stat then
    match limiters dt !! fingerprint with
    | Some _ => dt
    | None => {| limiters := <[fingerprint := NewLimiter]> (limiters dt); policy := policy dt |}
    end
  else {| limiters := delete fingerprint (limiters dt); policy := policy dt |}.

Definition ThrottledQueries (dt : DynamicThrottler) : list bytes := map fst (map_to_list (limiters dt)).

(** [SyncThrottler]. *)
Definition SyncThrottler (all : list QueryStat) (dt : DynamicThrottler) : DynamicThrottler :=
  foldl (fun dt s => throttler_Update dt (Query s) s) dt all.

End Throttler.
Arguments DynamicThrottler : clear implicits.

(** ** Totals per database *)

Record DatabaseStats := { ds_queries : Z; ds_transactions : Z; ds_received : Z; ds_sent : Z; ds_queryTime : Z }.

Definition newDatabaseStats : DatabaseStats :=
  {| ds_queries := 0; ds_transactions := 0; ds_received := 0; ds_sent := 0; ds_queryTime := 0 |}.

(** [RecordQuery]. *)
Definition RecordQuery (d : DatabaseStats) (elapsed received sent : Z) (endedTransaction : bool) : DatabaseStats :=
  {| ds_queries := ds_queries d + 1; ds_queryTime := ds_queryTime d + elapsed;
     ds_received := ds_received d + received; ds_sent := ds_sent d + sent;
     ds_transactions := if endedTransaction then ds_transactions d + 1 else ds_transactions d |}.

Record DatabaseStat := {
  st_Database : bytes; st_Queries : Z; st_Transactions : Z; st_Received : Z; st_Sent : Z; st_QueryTime : Z
}.

Definition MaxTrackedDatabases : nat := 256.
Definition OverflowDatabase : bytes := bs "(other)".

Record DatabaseRegistry := { byName : gmap bytes DatabaseStats; overflow : DatabaseStats; reg_since : Z }.

Definition NewDatabaseRegistry (now : Z) : DatabaseRegistry :=
  {| byName := ∅; overflow := newDatabaseStats; reg_since := now |}.

(** The pointer [For] returns: the bucket of a name, or the overflow. *)
Inductive bucket := Named (database : bytes) | Overflow.

Definition For (r : DatabaseRegistry) (database : bytes) : bucket * DatabaseRegistry :=
  match byName r !! database with
  | Some _ => (Named database, r)
  | None =>
      if decide (MaxTrackedDatabases <= size (byName r))%nat then (Overflow, r)
      else (Named database,
            {| byName := <[database := newDatabaseStats]> (byName r); overflow := overflow r;
               reg_since := reg_since r |})
  end.

(** [RecordQuery] through such a pointer. *)
Definition record_at (r : DatabaseRegistry) (b : bucket) (f : DatabaseStats -> DatabaseStats) : DatabaseRegistry :=
  match b with
  | Named db => {| byName := alter f db (byName r); overflow := overflow r; reg_since := reg_since r |}
  | Overflow => {| byName := byName r; overflow := f (overflow r); reg_since := reg_since r |}
  end.

(** [read] and [Snapshot]. *)
Definition stats_read (name : bytes) (d : DatabaseStats) : DatabaseStat :=
  {| st_Database := name; st_Queries := ds_queries d; st_Transactions := ds_transactions d;
     st_Received := ds_received d; st_Sent := ds_sent d; st_QueryTime := ds_queryTime d |}.

Definition registry_Snapshot (r : DatabaseRegistry) : list DatabaseStat :=
  map (fun kv => stats_read (fst kv) (snd kv)) (map_to_list (byName r)) ++
  (if decide (0 < ds_queries (overflow r)) then [stats_read OverflowDatabase (overflow r)] else []).

(** ** Eviction *)

Lemma sorted_above (l : list Z) (k : nat) (x : Z) :
  StronglySorted (≤)%Z l -> l !! k = Some x ->
  (length (filter (fun y => x < y)%Z l) + S k <= length l)%nat.
Proof.
  revert k. induction l as [|y l IH]; intros k Hs Hk; [done|].
  apply StronglySorted_inv in Hs as [Hs Hy]. rewrite list.Forall_forall in Hy. destruct k as [|k].
  - injection Hk as ->. rewrite filter_cons, decide_False by lia. simpl.
    pose proof (length_filter (fun y => x < y) l). lia.
  - assert (y <= x) by (apply Hy; by eapply list_elem_of_lookup_2).
    rewrite filter_cons, decide_False by lia. specialize (IH k Hs Hk). simpl. lia.
Qed.

Lemma NoDup_fst_filter {A B} (P : A * B -> Prop) `{!forall x, Decision (P x)} (l : list (A * B)) :
  NoDup l.*1 -> NoDup (filter P l).*1.
Proof.
  induction l as [|x l IH]; [done|]. rewrite fmap_cons, list.NoDup_cons, filter_cons. intros [Hx Hl].
  case_decide; [|by apply IH]. rewrite fmap_cons. apply list.NoDup_cons. split; [|by apply IH].
  intros (y & E & [_ Hy]%list_elem_of_filter)%list_elem_of_fmap. apply Hx. rewrite E. by apply list_elem_of_fmap_2.
Qed.

Definition seen_of (stats : shard) : list Z := map (fun kv => LastSeen (snd kv)) (map_to_list stats).

Lemma length_seen stats : length (seen_of stats) = size stats.
Proof. unfold seen_of. by rewrite length_map, length_map_to_list. Qed.

Lemma size_above stats x :
  size (filter (fun kv : bytes * QueryStat => x < LastSeen (snd kv)) stats) =
  length (filter (fun y => x < y) (seen_of stats)).
Proof.
  rewrite map_filter_alt, map_size_list_to_map.
  - unfold seen_of. induction (map_to_list stats) as [|kv l IH]; [done|]. simpl.
    rewrite !filter_cons. case_decide; simpl; lia.
  - apply NoDup_fst_filter, NoDup_fst_map_to_list.
Qed.

(** What [evictStale] does to a shard that has something in it: the cutoff is the
    median of the instants, and what stays is what was seen after it. *)
Lemma evictStale_median stats :
  stats <> ∅ ->
  exists cutoff, cutoff ∈ seen_of stats /\
    evictStale stats = filter (fun kv => cutoff < LastSeen (snd kv)) stats /\
    (size (evictStale stats) + S (size stats / 2) <= size stats)%nat.
Proof.
  intros Hne. unfold evictStale.
  rewrite decide_False by (by intros ?%map_size_empty_inv). fold (seen_of stats). cbv zeta.
  set (seen := merge_sort (≤)%Z (seen_of stats)).
  assert (seen ≡ₚ seen_of stats) as Hp by apply merge_sort_Permutation.
  assert (length seen = size stats) as Hl by (by rewrite Hp, length_seen).
  assert (0 < size stats)%nat as Hpos.
  { destruct (size stats) eqn:E; [by apply map_size_empty_inv in E|lia]. }
  destruct (seen !! (length seen / 2)%nat) as [cutoff|] eqn:Ec.
  2: { apply lookup_ge_None in Ec. pose proof (Nat.div_lt (length seen) 2). lia. }
  change (default 0 (Some cutoff)) with cutoff. pose proof (sorted_above seen (length seen / 2)%nat cutoff) as Hs.
  specialize (Hs ltac:(apply StronglySorted_merge_sort; apply _) Ec).
  assert (length (filter (fun y : Z => cutoff < y) seen) = length (filter (fun y => cutoff < y) (seen_of stats))) as Hf
    by (by rewrite Hp).
  rewrite decide_False by (rewrite size_above; lia).
  exists cutoff. split_and!; [|done|].
  - rewrite <- Hp. by eapply list_elem_of_lookup_2.
  - rewrite size_above, <- Hf, <- Hl. done.
Qed.

Lemma evictStale_lookup stats q s : evictStale stats !! q = Some s -> stats !! q = Some s.
Proof.
  destruct (decide (stats = ∅)) as [->|Hne]; [done|].
  destruct (evictStale_median stats Hne) as (c & _ & -> & _). by intros [? _]%map_lookup_filter_Some.
Qed.

Lemma evictStale_size stats : (size (evictStale stats) <= size stats - 1)%nat.
Proof.
  destruct (decide (stats = ∅)) as [->|Hne]; [done|].
  destruct (evictStale_median stats Hne) as (c & _ & _ & H). lia.
Qed.

(** ** A tracker and the statements it was told of *)

Record event := { ev_query : bytes; ev_duration : Z; ev_err : bool; ev_now : Z }.

Definition observe (t : QueryTracker) (e : event) : QueryTracker :=
  tracker_Record t (ev_query e) (ev_duration e) (ev_err e) (ev_now e).

Definition observed (max start : Z) (trace : list event) : QueryTracker :=
  foldl observe (NewQueryTracker max start) trace.

(** What a list of statements says of one of them. *)
Definition summarise (q : bytes) (trace : list event) : QueryStat :=
  foldl (fun s e => if decide (ev_query e = q) then bump s (ev_duration e) (ev_err e) (ev_now e) else s)
        (newStat q) trace.

Definition shard_bound (max : Z) : Z := Z.max 1 (Z.quot max 16).

(** A summary is that of the statements since the last eviction of its key. *)
Definition explained (trace : list event) (q : bytes) (s : QueryStat) : Prop :=
  exists pre suf, trace = pre ++ suf /\ s = summarise q suf /\ 0 < Count s.

Definition shard_ok (max : Z) (trace : list event) (i : nat) (sh : shard) : Prop :=
  Z.of_nat (size sh) <= shard_bound max /\
  map_Forall (fun q s => getShard q = i /\ q <> [] /\ explained trace q s) sh.

Definition tracker_ok (max : Z) (trace : list event) (t : QueryTracker) : Prop :=
  maxSize t = max /\ length (shards t) = numShards /\
  (forall i sh, shards t !! i = Some sh -> shard_ok max trace i sh) /\
  totalRequests t = zlen trace /\ totalErrors t = zlen (filter (fun e => ev_err e = true) trace).

Lemma summarise_snoc q trace e :
  summarise q (trace ++ [e]) =
  if decide (ev_query e = q) then bump (summarise q trace) (ev_duration e) (ev_err e) (ev_now e)
  else summarise q trace.
Proof. unfold summarise. by rewrite foldl_app. Qed.

Lemma explained_other trace q s e :
  ev_query e <> q -> explained trace q s -> explained (trace ++ [e]) q s.
Proof.
  intros Hq (pre & suf & -> & -> & Hc). exists pre, (suf ++ [e]).
  by rewrite <- app_assoc, summarise_snoc, decide_False.
Qed.

Lemma explained_same trace q s e :
  ev_query e = q -> explained trace q s ->
  explained (trace ++ [e]) q (bump s (ev_duration e) (ev_err e) (ev_now e)).
Proof.
  intros Hq (pre & suf & -> & -> & Hc). exists pre, (suf ++ [e]).
  rewrite <- app_assoc, summarise_snoc, decide_True by done. split_and!; [done|done|simpl; lia].
Qed.

Lemma explained_new trace e :
  explained (trace ++ [e]) (ev_query e) (bump (newStat (ev_query e)) (ev_duration e) (ev_err e) (ev_now e)).
Proof.
  exists trace, [e]. split_and!; [done| |done]. unfold summarise. simpl. by rewrite decide_True.
Qed.

Lemma map_Forall_explained (i : nat) (trace : list event) (e : event) (sh : shard) :
  map_Forall (fun q s => getShard q = i /\ q <> [] /\ explained trace q s) sh ->
  forall q s, sh !! q = Some s -> ev_query e <> q ->
  getShard q = i /\ q <> [] /\ explained (trace ++ [e]) q s.
Proof. intros Hf q s Hq Hne. destruct (Hf q s Hq) as (? & ? & ?). by auto using explained_other. Qed.

Lemma record_in_ok max trace e sh :
  shard_ok max trace (getShard (ev_query e)) sh -> ev_query e <> [] ->
  shard_ok max (trace ++ [e]) (getShard (ev_query e))
    (record_in max sh (ev_query e) (ev_duration e) (ev_err e) (ev_now e)).
Proof.
  intros [Hb Hf] Hne. unfold record_in. destruct (sh !! ev_query e) as [s|] eqn:Hs.
  - split; [by rewrite map_size_insert_Some|]. intros q s' Hq.
    destruct (decide (ev_query e = q)) as [<-|Hq'].
    + rewrite lookup_insert_eq in Hq. injection Hq as <-. destruct (Hf _ _ Hs) as (? & ? & ?).
      by auto using explained_same.
    + rewrite lookup_insert_ne in Hq by done. by eapply map_Forall_explained.
  - set (base := if decide _ then _ else _).
    assert (forall q s, base !! q = Some s -> sh !! q = Some s) as Hsub.
    { subst base. case_decide; [|done]. apply evictStale_lookup. }
    assert (base !! ev_query e = None) as Hnone.
    { destruct (base !! ev_query e) eqn:E; [|done]. apply Hsub in E. congruence. }
    split.
    + rewrite map_size_insert_None by done. subst base. unfold shard_bound in *. case_decide; [|lia].
      pose proof (evictStale_size sh). lia.
    + intros q s' Hq. destruct (decide (ev_query e = q)) as [<-|Hq'].
      * rewrite lookup_insert_eq in Hq. injection Hq as <-. split_and!; [done|done|apply explained_new].
      * rewrite lookup_insert_ne in Hq by done. eapply map_Forall_explained; eauto.
Qed.

Lemma shard_ok_other max trace e i sh :
  (ev_query e = [] \/ getShard (ev_query e) <> i) -> shard_ok max trace i sh -> shard_ok max (trace ++ [e]) i sh.
Proof.
  intros Hi [Hb Hf]. split; [done|]. intros q s Hq. pose proof (Hf q s Hq) as (E & Hne & _).
  eapply map_Forall_explained; [done|done|]. destruct Hi as [->|Hi]; congruence.
Qed.

Lemma getShard_lt q : (getShard q < numShards)%nat.
Proof. unfold getShard, numShards. pose proof (Z.mod_pos_bound (fnv q) 16 ltac:(lia)). lia. Qed.

Lemma observe_ok max trace t e :
  tracker_ok max trace t -> tracker_ok max (trace ++ [e]) (observe t e).
Proof.
  intros (Hm & Hl & Hs & Ht & He). unfold observe, tracker_Record.
  assert (zlen (trace ++ [e]) = zlen trace + 1) as Ez by zlia.
  assert (zlen (filter (fun e => ev_err e = true) (trace ++ [e])) =
          if ev_err e then totalErrors t + 1 else totalErrors t) as Ee.
  { rewrite filter_app, zlen_app, He, filter_cons. destruct (ev_err e);
      [rewrite decide_True by done|rewrite decide_False by done]; unfold zlen; simpl; lia. }
  case_decide as Hq.
  - split_and!; [done|done| |simpl; lia|done].
    intros i sh Hi. apply shard_ok_other; [by left|]. by apply Hs.
  - split_and!; [done|cbn [set_shards shards]; by rewrite length_alter| |simpl; lia|done].
    intros i sh. cbn [set_shards shards set_counters]. intros Hi.
    destruct (decide (getShard (ev_query e) = i)) as [<-|Hne].
    + rewrite list_lookup_alter_eq in Hi. apply fmap_Some in Hi as (sh0 & Hi & ->).
      cbn [maxSize set_counters]. rewrite Hm. apply record_in_ok; [by apply Hs|done].
    + rewrite list_lookup_alter_ne in Hi by done. apply shard_ok_other; [by right|]. by apply Hs.
Qed.

Lemma observed_ok max start trace : tracker_ok max trace (observed max start trace).
Proof.
  unfold observed. induction trace as [|e trace IH] using rev_ind.
  - simpl. split_and!; [done|done| |done|done]. intros i sh [-> Hi]%lookup_replicate_1.
    split; [|by apply map_Forall_empty]. unfold shard_bound. rewrite map_size_empty. lia.
  - rewrite foldl_app. by apply observe_ok.
Qed.

(** ** Sessions recording into the registry

    A session asks for its bucket once, when it opens, and records every
    statement through the pointer it was given. *)

Record sample := { sm_elapsed : Z; sm_received : Z; sm_sent : Z; sm_ended : bool }.

Inductive reg_event := OpenSession (database : bytes) | Statement (session : nat) (s : sample).

Record reg_state := {
  rg_registry : DatabaseRegistry; rg_handles : list (bytes * bucket); rg_log : list (bytes * sample)
}.

Definition add_sample (d : DatabaseStats) (s : sample) : DatabaseStats :=
  RecordQuery d (sm_elapsed s) (sm_received s) (sm_sent s) (sm_ended s).

Definition reg_run1 (st : reg_state) (e : reg_event) : reg_state :=
  match e with
  | OpenSession db =>
      let '(b, r) := For (rg_registry st) db in
      {| rg_registry := r; rg_handles := rg_handles st ++ [(db, b)]; rg_log := rg_log st |}
  | Statement i s =>
      match rg_handles st !! i with
      | None => st
      | Some (db, b) =>
          {| rg_registry := record_at (rg_registry st) b (fun d => add_sample d s);
             rg_handles := rg_handles st; rg_log := rg_log st ++ [(db, s)] |}
      end
  end.

Definition reg_run (now : Z) (events : list reg_event) : reg_state :=
  foldl reg_run1 {| rg_registry := NewDatabaseRegistry now; rg_handles := []; rg_log := [] |} events.

Definition totals (log : list (bytes * sample)) : DatabaseStats :=
  foldl (fun d s => add_sample d (snd s)) newDatabaseStats log.

Definition handle_ok (r : DatabaseRegistry) (h : bytes * bucket) : Prop :=
  match snd h with
  | Named db => db = fst h /\ is_Some (byName r !! db)
  | Overflow => byName r !! fst h = None /\ (MaxTrackedDatabases <= size (byName r))%nat
  end.

Record reg_ok (st : reg_state) : Prop := {
  ok_size : (size (byName (rg_registry st)) <= MaxTrackedDatabases)%nat;
  ok_handles : Forall (handle_ok (rg_registry st)) (rg_handles st);
  ok_log : forall db s, (db, s) ∈ rg_log st -> exists b, (db, b) ∈ rg_handles st;
  ok_named : forall db d, byName (rg_registry st) !! db = Some d ->
               d = totals (filter (fun e => fst e = db) (rg_log st));
  ok_overflow : overflow (rg_registry st) =
               totals (filter (fun e => byName (rg_registry st) !! fst e = None) (rg_log st))
}.

Lemma filter_ext_in {A} (P Q : A -> Prop) `{!forall x, Decision (P x), !forall x, Decision (Q x)} (l : list A) :
  (forall x, x ∈ l -> P x <-> Q x) -> filter P l = filter Q l.
Proof.
  induction l as [|x l IH]; intros Hpq; [done|]. rewrite !filter_cons, IH by (intros; apply Hpq; by right).
  destruct (Hpq x ltac:(by left)). by repeat case_decide; try tauto.
Qed.

Lemma filter_none {A} (P : A -> Prop) `{!forall x, Decision (P x)} (l : list A) :
  (forall x, x ∈ l -> ~ P x) -> filter P l = [].
Proof.
  induction l as [|x l IH]; intros Hpq; [done|].
  rewrite filter_cons, decide_False by (apply Hpq; by left). apply IH. intros. apply Hpq. by right.
Qed.

Lemma totals_snoc log e : totals (log ++ [e]) = add_sample (totals log) (snd e).
Proof. unfold totals. by rewrite foldl_app. Qed.

Lemma For_ok st db :
  reg_ok st -> reg_ok (reg_run1 st (OpenSession db)).
Proof.
  intros [Hsz Hh Hl Hn Ho]. cbn. unfold For. destruct (byName (rg_registry st) !! db) as [d|] eqn:Ed.
  - split; cbn; try done.
    + apply Forall_app. split; [done|]. constructor; [|done]. cbn. split; [done|by exists d].
    + intros db' s (b & Hb)%Hl. exists b. apply elem_of_app. by left.
  - case_decide as Hfull.
    + split; cbn; try done.
      * apply Forall_app. split; [done|]. constructor; [|done]. done.
      * intros db' s (b & Hb)%Hl. exists b. apply elem_of_app. by left.
    + assert (forall s, (db, s) ∉ rg_log st) as Hnew.
      { intros s (b & Hb)%Hl. rewrite list.Forall_forall in Hh. specialize (Hh _ Hb).
        destruct b as [db'|]; cbn in Hh; [destruct Hh as [-> [? ?]]; congruence|lia]. }
      split; cbn.
      * rewrite map_size_insert_None by done. lia.
      * apply Forall_app. split.
        -- rewrite list.Forall_forall in Hh |- *. intros [db' b] Hin. specialize (Hh _ Hin).
           destruct b as [db''|]; cbn in *.
           ++ destruct Hh as [-> Hs]. split; [done|]. apply lookup_insert_is_Some'. by right.
           ++ lia.
        -- constructor; [|done]. cbn. split; [done|]. rewrite lookup_insert_eq. by eexists.
      * intros db' s (b & Hb)%Hl. exists b. apply elem_of_app. by left.
      * intros db' d Hd. destruct (decide (db = db')) as [<-|Hne].
        -- rewrite lookup_insert_eq in Hd. injection Hd as <-.
           replace (filter _ (rg_log st)) with (@nil (bytes * sample)); [done|]. symmetry.
           apply filter_none. intros [db' s] Hin Hx. cbn in Hx. subst db'. by eapply Hnew.
        -- rewrite lookup_insert_ne in Hd by done. by apply Hn.
      * rewrite Ho. f_equal. apply filter_ext_in. intros [db' s] Hin. cbn.
        rewrite lookup_insert_None. split; [|tauto]. intros Hx. split; [done|]. intros <-. by eapply Hnew.
Qed.

Lemma record_ok st i s : reg_ok st -> reg_ok (reg_run1 st (Statement i s)).
Proof.
  intros [Hsz Hh Hl Hn Ho]. cbn. destruct (rg_handles st !! i) as [[db b]|] eqn:Ei; [|done].
  pose proof (list_elem_of_lookup_2 _ _ _ Ei) as Hin.
  assert (handle_ok (rg_registry st) (db, b)) as Hb by (by rewrite list.Forall_forall in Hh; apply Hh).
  assert (forall db' : bytes, byName (record_at (rg_registry st) b (fun d => add_sample d s)) !! db' = None <->
          byName (rg_registry st) !! db' = None) as Hdom.
  { intros db'. destruct b as [db''|]; [|done]. cbn.
    by rewrite lookup_alter_None. }
  assert (size (byName (record_at (rg_registry st) b (fun d => add_sample d s))) = size (byName (rg_registry st))) as Hs.
  { destruct b as [db''|]; [|done]. cbn. rewrite <- !(size_dom (D := gset bytes)). by rewrite dom_alter_L. }
  split; cbn [rg_registry rg_handles rg_log].
  - by rewrite Hs.
  - eapply Forall_impl; [exact Hh|]. intros [db' [db''|]]; cbn.
    + intros [-> Hx]. split; [done|]. rewrite <- not_eq_None_Some, Hdom, not_eq_None_Some. done.
    + rewrite Hdom, Hs. done.
  - intros db' s' [?|Hx]%elem_of_app; [by eapply Hl|]. apply list_elem_of_singleton in Hx.
    injection Hx as -> ->. by exists b.
  - intros db' d Hd. rewrite filter_app, filter_cons.
    destruct b as [db''|]; cbn in Hd, Hb.
    + destruct Hb as [-> _]. destruct (decide (db = db')) as [->|Hne].
      * rewrite lookup_alter_eq in Hd. apply fmap_Some in Hd as (d0 & Hd0 & ->).
        rewrite decide_True by done. cbn [filter list_filter]. rewrite totals_snoc. cbn.
        by rewrite (Hn _ _ Hd0).
      * rewrite lookup_alter_ne in Hd by done. rewrite decide_False by done.
        cbn [filter list_filter]. rewrite app_nil_r. by apply Hn.
    + destruct Hb as [Hb _]. rewrite decide_False by (cbn; congruence).
      cbn [filter list_filter]. rewrite app_nil_r. by apply Hn.
  - rewrite filter_app, filter_cons.
    rewrite (list_filter_iff _ (fun e => byName (rg_registry st) !! fst e = None)) by (intros; apply Hdom).
    destruct b as [db''|]; cbn in Hb |- *.
    + destruct Hb as [-> [d0 Hd0]]. rewrite decide_False.
      * by rewrite app_nil_r.
      * cbn. rewrite lookup_alter_eq, Hd0. done.
    + destruct Hb as [Hb _]. rewrite decide_True by done. rewrite totals_snoc. by rewrite Ho.
Qed.

Lemma reg_run_ok now events : reg_ok (reg_run now events).
Proof.
  unfold reg_run. induction events as [|e events IH] using rev_ind.
  - split; cbn; [by apply Nat.le_0_l|done|by intros ?? ?%not_elem_of_nil|by intros db d; rewrite lookup_empty|done].
  - rewrite foldl_app. destruct e; [by apply For_ok|by apply record_ok].
Qed.

(** ** Theorems *)

(** Whatever statements it is told of, the tracker counts every one and every
    failure, never holds more than its share of summaries in a shard, files each
    under the hash of its statement, and each summary is exactly that of the
    statement's occurrences since it was last evicted. *)
Theorem tracker_invariant (max start : Z) (trace : list event) :
  let t := observed max start trace in
  totalRequests t = zlen trace /\ totalErrors t = zlen (filter (fun e => ev_err e = true) trace) /\
  length (shards t) = numShards /\
  forall i sh, shards t !! i = Some sh ->
    Z.of_nat (size sh) <= shard_bound max /\
    forall q s, sh !! q = Some s ->
      getShard q = i /\ q <> [] /\
      exists pre suf, trace = pre ++ suf /\ s = summarise q suf /\ 0 < Count s.
Proof.
  intros t. destruct (observed_ok max start trace) as (_ & Hl & Hs & Ht & He). fold t in Hl, Hs, Ht, He.
  split_and!; [done|done|done|]. intros i sh Hi. destruct (Hs i sh Hi) as [Hb Hf]. split; [done|].
  intros q s Hq. apply (Hf q s Hq).
Qed.

(** [evictStale] makes a shard at most half as large, and nothing it drops was
    seen after anything it keeps; so the clearing at its end is never reached. *)
Theorem eviction_keeps_recent (stats : shard) :
  stats <> ∅ ->
  (2 * size (evictStale stats) < size stats + 1)%nat /\
  (forall q s, evictStale stats !! q = Some s -> stats !! q = Some s) /\
  (forall q s q' s', stats !! q = Some s -> evictStale stats !! q = None ->
     evictStale stats !! q' = Some s' -> LastSeen s < LastSeen s').
Proof.
  intros Hne. destruct (evictStale_median stats Hne) as (cutoff & Hc & Ee & Hsz). split_and!.
  - pose proof (Nat.div_mod_eq (size stats) 2). pose proof (Nat.mod_upper_bound (size stats) 2 ltac:(lia)). lia.
  - apply evictStale_lookup.
  - rewrite Ee. intros q s q' s' Hq Hd [Hq' Hk]%map_lookup_filter_Some. cbn in Hk.
    apply map_lookup_filter_None in Hd as [Hd|Hd]; [congruence|]. specialize (Hd s Hq). cbn in Hd. lia.
Qed.

Definition stat_at (q : bytes) (seen : Z) : QueryStat :=
  {| Query := q; Count := 1; TotalTime := 5; MaxTime := 5; LastSeen := seen; ErrorCount := 0 |}.

Definition three_stats : shard :=
  {[ bs "a" := stat_at (bs "a") 1; bs "b" := stat_at (bs "b") 2; bs "c" := stat_at (bs "c") 3 ]}.

Lemma eviction_keeps_recent_witness :
  (2 * size (evictStale three_stats) < size three_stats + 1)%nat /\
  evictStale three_stats = {[ bs "c" := stat_at (bs "c") 3 ]}.
Proof.
  split; [|vm_compute; reflexivity].
  refine (proj1 (eviction_keeps_recent three_stats _)). discriminate.
Defined.

(** Entries that share one timestamp do not survive the cutoff: the shard is
    emptied by the deletion itself. *)
Example equal_timestamps_all_dropped :
  evictStale {[ bs "a" := stat_at (bs "a") 7; bs "b" := stat_at (bs "b") 7 ]} = ∅.
Proof. vm_compute. reflexivity. Qed.

(** [GetTop] returns the statements with the highest counts: as many as asked
    for or all there are, none left out was counted more often. *)
Theorem top_queries (all : list QueryStat) (limit : nat) :
  exists rest, GetTop all limit ++ rest ≡ₚ all /\
    length (GetTop all limit) = Nat.min limit (length all) /\
    (forall a b, a ∈ GetTop all limit -> b ∈ rest -> Count b <= Count a).
Proof.
  unfold GetTop. set (l := merge_sort by_count all).
  assert (l ≡ₚ all) as Hp by apply merge_sort_Permutation.
  assert (StronglySorted by_count l) as Hs.
  { apply StronglySorted_merge_sort; [intros ???; unfold by_count; lia|intros ??; unfold by_count; lia]. }
  pose proof (Permutation_length Hp) as Hlen. cbv zeta. fold l. case_decide as Hd.
  - exists (drop limit l). rewrite take_drop, length_take. split_and!; [done|lia|].
    rewrite <- (take_drop limit l) in Hs. intros a b Ha Hb. by apply (StronglySorted_app_1_elem_of by_count _ _ a b Hs).
  - exists []. rewrite app_nil_r. split_and!; [done|lia|]. intros a b _ Hb. by apply not_elem_of_nil in Hb.
Qed.

Section ThrottlerTheorem.
Context {Limiter : Type} (fresh : Limiter).

Lemma update_other (dt : DynamicThrottler Limiter) q s q' :
  q <> q' -> limiters (throttler_Update fresh dt q s) !! q' = limiters dt !! q'.
Proof.
  intros Hq. unfold throttler_Update. case_decide; [done|]. destruct (shouldThrottle _ _).
  - destruct (limiters dt !! q); [done|]. cbn. by rewrite lookup_insert_ne.
  - cbn. by rewrite lookup_delete_ne.
Qed.

Lemma update_policy (dt : DynamicThrottler Limiter) q s : policy (throttler_Update fresh dt q s) = policy dt.
Proof. unfold throttler_Update. case_decide; [done|]. destruct (shouldThrottle _ _); [|done]. by destruct (limiters dt !! q). Qed.

Lemma sync_other all : forall (dt : DynamicThrottler Limiter) q,
  q ∉ map Query all -> limiters (SyncThrottler fresh all dt) !! q = limiters dt !! q.
Proof.
  induction all as [|s all IH]; intros dt q Hq; [done|]. cbn [map] in Hq.
  apply not_elem_of_cons in Hq as [Hne Hq]. unfold SyncThrottler in *. cbn [foldl].
  rewrite IH by done. by apply update_other.
Qed.

Lemma sync_policy all (dt : DynamicThrottler Limiter) : policy (SyncThrottler fresh all dt) = policy dt.
Proof.
  revert dt. induction all as [|s all IH]; intros dt; [done|]. unfold SyncThrottler in *. cbn [foldl].
  by rewrite IH, update_policy.
Qed.

(** After a synchronisation a tracked statement with enough samples is throttled
    exactly when its mean latency or its error rate is over the policy's bound;
    every other statement is throttled as it was before. *)
Theorem throttled_iff_over_policy (all : list QueryStat) (dt : DynamicThrottler Limiter) :
  NoDup (map Query all) ->
  (forall s, s ∈ all -> MinSampleCount (policy dt) <= Count s ->
     IsThrottled (SyncThrottler fresh all dt) (Query s) = shouldThrottle (policy dt) s) /\
  (forall q, (forall s, s ∈ all -> Query s = q -> Count s < MinSampleCount (policy dt)) ->
     limiters (SyncThrottler fresh all dt) !! q = limiters dt !! q).
Proof.
  revert dt. induction all as [|s all IH]; intros dt Hnd.
  { split; [by intros s ?%not_elem_of_nil|done]. }
  cbn [map] in Hnd. apply list.NoDup_cons in Hnd as [Hs Hnd].
  destruct (IH (throttler_Update fresh dt (Query s) s) Hnd) as [IH1 IH2].
  rewrite update_policy in IH1, IH2.
  change (SyncThrottler fresh (s :: all) dt) with (SyncThrottler fresh all (throttler_Update fresh dt (Query s) s)).
  split.
  - intros s' [->|Hin]%elem_of_cons Hc; [|by apply IH1].
    unfold IsThrottled. rewrite sync_other by done. unfold throttler_Update.
    rewrite decide_False by lia. destruct (shouldThrottle (policy dt) s).
    + apply bool_decide_eq_true. destruct (limiters dt !! Query s) eqn:E; cbn.
      * rewrite E. by eexists.
      * rewrite lookup_insert_eq. by eexists.
    + apply bool_decide_eq_false. cbn. rewrite lookup_delete_eq. by intros [? ?].
  - intros q Hq. rewrite IH2 by (intros s' Hin; apply Hq; by right).
    destruct (decide (Query s = q)) as [<-|Hne]; [|by apply update_other].
    unfold throttler_Update. rewrite decide_True by (apply Hq; [by left|done]). done.
Qed.

End ThrottlerTheorem.

Definition slow_stat : QueryStat :=
  {| Query := bs "slow"; Count := 100; TotalTime := 100 * 3000000000; MaxTime := 4000000000; LastSeen := 9; ErrorCount := 0 |}.

Definition after_sync : DynamicThrottler unit :=
  SyncThrottler tt [slow_stat] (NewDynamicThrottler DefaultThrottlingPolicy).

Lemma throttled_iff_over_policy_witness :
  IsThrottled after_sync (bs "slow") = shouldThrottle DefaultThrottlingPolicy slow_stat /\
  shouldThrottle DefaultThrottlingPolicy slow_stat = true.
Proof.
  split; [|vm_compute; reflexivity].
  refine (proj1 (throttled_iff_over_policy tt [slow_stat] (NewDynamicThrottler DefaultThrottlingPolicy) _) slow_stat _ _).
  - by_decide.
  - by left.
  - vm_compute. discriminate.
Defined.

(** A statement the tracker evicted is not looked at again, so it stays
    throttled: nothing removes its limiter. *)
Example evicted_statement_stays_throttled :
  evictStale {[ bs "slow" := slow_stat ]} = ∅ /\
  forall all, bs "slow" ∉ map Query all -> IsThrottled (SyncThrottler tt all after_sync) (bs "slow") = true.
Proof.
  split; [vm_compute; reflexivity|]. intros all Hq. unfold IsThrottled. rewrite sync_other by done.
  vm_compute. reflexivity.
Qed.

(** The totals per database are exact and the map of them is bounded, whatever
    names clients choose: a database in the map has exactly the statements its
    sessions recorded, and all other sessions recorded into the overflow. *)
Theorem database_totals_exact (now : Z) (events : list reg_event) :
  let st := reg_run now events in
  let r := rg_registry st in
  (size (byName r) <= MaxTrackedDatabases)%nat /\
  (forall db d, byName r !! db = Some d -> d = totals (filter (fun e => fst e = db) (rg_log st))) /\
  overflow r = totals (filter (fun e => byName r !! fst e = None) (rg_log st)).
Proof. cbv zeta. by destruct (reg_run_ok now events). Qed.

(** The row of the overflow carries a name a database may have as well. *)
Example overflow_name_not_reserved :
  let r := rg_registry (reg_run 0 [OpenSession OverflowDatabase;
             Statement 0 {| sm_elapsed := 1; sm_received := 2; sm_sent := 3; sm_ended := true |}]) in
  map st_Database (registry_Snapshot (record_at r Overflow (fun d => add_sample d {| sm_elapsed := 1; sm_received := 1; sm_sent := 1; sm_ended := true |})))
  = [OverflowDatabase; OverflowDatabase].
Proof. vm_compute. reflexivity. Qed.

(** The ring of snapshots never holds more than an hour of minutes, however it
    was filled. *)
Theorem history_bounded (t : QueryTracker) (all : list QueryStat) (store : bool) (now : Z)
    (stored : option (list (option MetricSnapshot))) (counters : option (Z * Z)) :
  (length (history t) <= historyWindow)%nat ->
  (length (history (fst (snapshot t all store now))) <= historyWindow)%nat /\
  (length (history (hydrate t stored counters now)) <= historyWindow)%nat.
Proof.
  intros Hh. split.
  - unfold snapshot. destruct (delta _ _ _ _) as [[[rps errRate]|] c]; [|done]. cbn [fst history].
    unfold append_history. case_decide; [rewrite length_drop|]; lia.
  - unfold hydrate. set (h := match stored with Some _ => _ | None => _ end).
    assert (length h <= historyWindow)%nat as Hl.
    { subst h. destruct stored as [[|r rows]|]; [done| |done].
      case_decide; [rewrite length_drop|]; lia. }
    destruct counters as [[total errors]|]; [case_decide|]; done.
Qed.

Lemma history_bounded_witness :
  (length (history (fst (snapshot (NewQueryTracker 1000 0) [] true 60))) <= historyWindow)%nat.
Proof.
  refine (proj1 (history_bounded (NewQueryTracker 1000 0) [] true 60 None None _)).
  vm_compute. apply le_0_n.
Defined.
