(* ===== verification/Sizing.v ===== *)
(** * Sizing and reporting of a backend's pools

    pool/pool_stat.go, [totals] of pool_set.go, the statistics, ceilings and
    estimates of server.go, peer_addr.go, and pool/controller.go, which resizes the
    pools from the observed throughput and latency.

    The pooling engine is not part of the repository: a core is any type, with the
    counters its [Stat] reports and the resizing it may refuse.  Rates are exact
    rationals instead of floating point; the conversion of a float to an int32,
    which Go leaves to the platform outside the range of int32, is a parameter. *)
From Stdlib Require Import ZArith QArith Qround Lia Strings.String.
From stdpp Require Import base gmap list numbers option.
From S2P Require Import Prelude Wire Scanner Session Health Pool Tracker.
#[local] Close Scope Q_scope.
#[local] Open Scope Z_scope.

(** ** What the engine reports *)

Record core_stat := {
  ActiveConnections : Z; IdleConnections : Z; TotalConnections : Z; WaitingAcquires : Z;
  MaxConnections : Z; EmptyAcquireCount : Z; AcquireDuration : Z
}.

Record PoolStat := {
  pst_Database : bytes; pst_User : bytes; pst_Active : Z; pst_Idle : Z; pst_Total : Z; pst_Waiting : Z;
  pst_MaxConns : Z; pst_EmptyAcquires : Z; pst_AcquireWait : Z
}.

(** [AverageWait]. *)
Definition AverageWait (p : PoolStat) : Z :=
  if decide (pst_EmptyAcquires p <= 0) then 0 else Z.quot (pst_AcquireWait p) (pst_EmptyAcquires p).

Record poolTotals := {
  pt_Total : Z; pt_Idle : Z; pt_Active : Z; pt_Waiting : Z; pt_MaxConns : Z; pt_Pools : Z;
  pt_EmptyAcquires : Z; pt_AcquireWait : Z
}.

Definition no_totals : poolTotals :=
  {| pt_Total := 0; pt_Idle := 0; pt_Active := 0; pt_Waiting := 0; pt_MaxConns := 0; pt_Pools := 0;
     pt_EmptyAcquires := 0; pt_AcquireWait := 0 |}.

Record BackendStats := {
  bs_MaxConns : Z; bs_ActiveConns : Z; bs_IdleConns : Z; bs_WaitQueueSize : Z; bs_TotalRequests : Z;
  bs_TotalErrors : Z; bs_AvgWaitDelay : Z
}.

Section Engine.
Context {Core : Type} (Stat : Core -> core_stat).

(** [eachIdentity]: the pools as they were ranged over. *)
Definition eachIdentity (s : poolSet Core) : list (identity * Core) :=
  map (fun kv => (fst kv, pe_core (snd kv))) (map_to_list (ps_pools s)).

Definition stat_of (entry : identity * Core) : PoolStat :=
  let st := Stat (snd entry) in
  {| pst_Database := id_db (fst entry); pst_User := id_user (fst entry);
     pst_Active := ActiveConnections st; pst_Idle := IdleConnections st;
     pst_Total := TotalConnections st; pst_Waiting := WaitingAcquires st;
     pst_MaxConns := MaxConnections st; pst_EmptyAcquires := EmptyAcquireCount st;
     pst_AcquireWait := AcquireDuration st |}.

(** [stats] and [PoolStats]. *)
Definition PoolStats (s : poolSet Core) : list PoolStat := map stat_of (eachIdentity s).

(** [totals]: int32 and int64 sums. *)
Definition add_totals (t : poolTotals) (entry : identity * Core) : poolTotals :=
  let st := Stat (snd entry) in
  {| pt_Total := i32 (pt_Total t + TotalConnections st); pt_Idle := i32 (pt_Idle t + IdleConnections st);
     pt_Active := i32 (pt_Active t + ActiveConnections st);
     pt_Waiting := i32 (pt_Waiting t + WaitingAcquires st);
     pt_MaxConns := i32 (pt_MaxConns t + MaxConnections st); pt_Pools := pt_Pools t;
     pt_EmptyAcquires := i64 (pt_EmptyAcquires t + EmptyAcquireCount st);
     pt_AcquireWait := i64 (pt_AcquireWait t + AcquireDuration st) |}.

Definition pool_totals (s : poolSet Core) : poolTotals :=
  let t := foldl add_totals no_totals (eachIdentity s) in
  {| pt_Total := pt_Total t; pt_Idle := pt_Idle t; pt_Active := pt_Active t; pt_Waiting := pt_Waiting t;
     pt_MaxConns := pt_MaxConns t; pt_Pools := count s; pt_EmptyAcquires := pt_EmptyAcquires t;
     pt_AcquireWait := pt_AcquireWait t |}.

(** [Stats]; the three counters are the backend's own. *)
Definition backend_Stats (s : poolSet Core) (checkedOut totalRequests totalErrors : Z) : BackendStats :=
  let st := pool_totals s in
  {| bs_MaxConns := pt_MaxConns st; bs_ActiveConns := i32 checkedOut; bs_IdleConns := pt_Idle st;
     bs_WaitQueueSize := pt_Waiting st; bs_TotalRequests := totalRequests; bs_TotalErrors := totalErrors;
     bs_AvgWaitDelay := if decide (0 < pt_EmptyAcquires st)
                        then Z.quot (pt_AcquireWait st) (pt_EmptyAcquires st) else 0 |}.

(** [SetMaxConns]: the ceiling of the template first, then every pool in turn;
    the first refusal is the answer, and later pools are still resized. *)
Context (core_SetMaxConns : Core -> Z -> option Core).

Definition resize_entry (n : Z) (limits : option (bytes -> Z)) (pools : gmap identity (poolEntry Core))
    (id : identity) : gmap identity (poolEntry Core) * bool :=
  match pools !! id with
  | None => (pools, true)
  | Some e =>
      match core_SetMaxConns (pe_core e) (ceilingFor n (limitFor limits (id_db id))) with
      | None => (pools, false)
      | Some core => (<[id := {| pe_core := core; pe_lastUsed := pe_lastUsed e |}]> pools, true)
      end
  end.

Definition resize_all (n : Z) (limits : option (bytes -> Z)) (pools : gmap identity (poolEntry Core))
    (order : list identity) : gmap identity (poolEntry Core) * bool :=
  foldl (fun acc id => let '(pools, ok) := resize_entry n limits (fst acc) id in (pools, snd acc && ok))
        (pools, true) order.

(** The template's ceiling, the pools, and whether every pool accepted. *)
Definition SetMaxConns (s : poolSet Core) (limits : option (bytes -> Z)) (n : Z) : Z * poolSet Core * bool :=
  let '(pools, ok) := resize_all n limits (ps_pools s) (map fst (eachIdentity s)) in
  (n, set_pools s pools [], ok).

End Engine.

(** ** Estimates *)

(** [ReportLatency] and [ReportRTT]: [old*0.9 + d*0.1], truncated. *)
Definition ReportLatency (old d : Z) : Z :=
  if decide (old = 0) then d else Z.quot (9 * old + d) 10.

(** The error rate of [reportMetrics]; [old] stays where nothing was asked. *)
Definition reportErrorRate (old : Q) (totalErrors reqs : Z) : Q :=
  if decide (0 < reqs) then ratio totalErrors reqs else old.

(** [SetWaitTimeout] and [configuredWaitTimeout]. *)
Definition DefaultWaitTimeout : Z := 5 * 1000000000.
Definition SetWaitTimeout (d : Z) : Z := if decide (d <= 0) then DefaultWaitTimeout else d.
Definition configuredWaitTimeout (nanos : Z) : Z := if decide (0 < nanos) then nanos else DefaultWaitTimeout.

(** [PeerAddress]. *)
Definition PeerAddress (peerAddr address : bytes) : bytes :=
  if decide (peerAddr <> []) then peerAddr else address.

(** ** The adaptive controller *)

Record Suggestion := { sg_Title : bytes; sg_Description : bytes; sg_Level : bytes; sg_Action : bytes }.

Record ResourceStats := { CPUUsage : Q; MemoryUsage : Z; NumGoroutines : Z }.

Record AdaptivePoolController := {
  minLatency : Z; maxRPS : Q; lastRequests : Z; lastCheck : option Z;
  isThrottled : bool; throttleReason : bytes; suggestions : list Suggestion
}.

Definition MaxInt64 : Z := 2 ^ 63 - 1.

Definition NewAdaptivePoolController : AdaptivePoolController :=
  {| minLatency := MaxInt64; maxRPS := 0%Q; lastRequests := 0; lastCheck := None;
     isThrottled := false; throttleReason := []; suggestions := [] |}.

(** The gain, whether the pool is throttled and why. *)
Definition throttling (stats : option ResourceStats) : Q * bool * bytes :=
  match stats with
  | None => ((5 # 4)%Q, false, [])
  | Some stats =>
      let '(gain, throttled, reason) :=
        if decide (2 * 1024 * 1024 * 1024 < MemoryUsage stats)
        then (1%Q, true, bs "High memory usage") else ((5 # 4)%Q, false, []) in
      if decide (150000 < NumGoroutines stats)
      then ((4 # 5)%Q, true, bs "Excessive goroutine count") else (gain, throttled, reason)
  end.

(** The advice. *)
Definition suggestion (title description level action : String.string) : Suggestion :=
  {| sg_Title := bs title; sg_Description := bs description; sg_Level := bs level; sg_Action := bs action |}.

Definition advise (stats : option ResourceStats) (minLatency : Z) : list Suggestion :=
  match stats with
  | None => []
  | Some stats =>
      (if Qle_bool (CPUUsage stats) 80 then []
       else [suggestion "High CPU Usage"
               "System CPU usage is above 80%. This can lead to increased latency and decreased throughput."
               "warning" "Increase CPU resources or reduce transaction complexity."]) ++
      (if decide (4 * 1024 * 1024 * 1024 < MemoryUsage stats)
       then [suggestion "High Memory Usage"
               "System memory usage is high. This may lead to OOM and performance degradation."
               "critical" "Tune ulimit and buffer sizes, or increase system memory."] else []) ++
      (if decide (200000 < NumGoroutines stats)
       then [suggestion "High Concurrency" "Extremely high goroutine count detected."
               "warning" "Ensure OS network stack is tuned for high connection count."] else []) ++
      (if decide (100 * 1000000 < minLatency)
       then [suggestion "High DB Latency" "Database minimum latency is above 100ms."
               "info" "Consider tuning database indexes or adding replicas."] else [])
  end.

(** The float the target is converted from: Max RPS * Min Latency * gain. *)
Definition bandwidth_delay (maxRPS : Q) (minLatency : Z) (gain : Q) : Q :=
  (maxRPS * (minLatency # 1000000000) * gain)%Q.

Definition clamp_target (target minConns maxConns : Z) : Z :=
  let floor := Z.max minConns 1 in
  let target := if decide (target < floor) then floor else target in
  if decide (maxConns < target) then maxConns else target.

Section Controller.
(** [int32(math.Ceil(x))]. *)
Context (ceil_int32 : Q -> Z).

Record observation := {
  ob_now : Z; ob_latency : Z; ob_totalRequests : Z; ob_monitor : option ResourceStats;
  ob_minConns : Z; ob_maxConns : Z; ob_current : Z
}.

(** [adjust]: the controller afterwards and the ceiling handed to
    [SetMaxConns], if any. *)
Definition adjust (c : AdaptivePoolController) (o : observation) : AdaptivePoolController * option Z :=
  match lastCheck c with
  | None =>
      ({| minLatency := minLatency c; maxRPS := maxRPS c; lastRequests := ob_totalRequests o;
          lastCheck := Some (ob_now o); isThrottled := isThrottled c; throttleReason := throttleReason c;
          suggestions := suggestions c |}, None)
  | Some last =>
      let interval := ob_now o - last in
      let rps := per_second (ob_totalRequests o - lastRequests c) interval in
      let minLatency := if decide (0 < ob_latency o /\ ob_latency o < minLatency c)
                        then ob_latency o else minLatency c in
      let maxRPS := if Qle_bool rps (maxRPS c) then maxRPS c else rps in
      let '(gain, throttled, reason) := throttling (ob_monitor o) in
      let target := ceil_int32 (bandwidth_delay maxRPS minLatency gain) in
      let target := clamp_target target (ob_minConns o) (ob_maxConns o) in
      ({| minLatency := minLatency; maxRPS := maxRPS; lastRequests := ob_totalRequests o;
          lastCheck := Some (ob_now o); isThrottled := throttled; throttleReason := reason;
          suggestions := advise (ob_monitor o) minLatency |},
       if decide (target <> ob_current o) then Some target else None)
  end.

Definition run_controller (obs : list observation) : AdaptivePoolController :=
  foldl (fun c o => fst (adjust c o)) NewAdaptivePoolController obs.

End Controller.

(** ** Lemmas *)

Definition sum (f : PoolStat -> Z) (rows : list PoolStat) : Z := foldr (fun r acc => f r + acc) 0 rows.

Lemma signed_add w a b : 0 < w -> signed w (signed w a + b) = signed w (a + b).
Proof.
  intros Hw. unfold signed. f_equal.
  replace ((a + 2 ^ (w - 1)) mod 2 ^ w - 2 ^ (w - 1) + b + 2 ^ (w - 1))
    with ((a + 2 ^ (w - 1)) mod 2 ^ w + b) by lia.
  rewrite Zplus_mod_idemp_l. f_equal. lia.
Qed.

Section Totals.
Context {Core : Type} (Stat : Core -> core_stat).

Lemma totals_fold entries : forall t,
  let rows := map (stat_of Stat) entries in
  let t' := foldl (add_totals Stat) t entries in
  i32 (pt_Total t') = i32 (pt_Total t + sum pst_Total rows) /\
  i32 (pt_Idle t') = i32 (pt_Idle t + sum pst_Idle rows) /\
  i32 (pt_Active t') = i32 (pt_Active t + sum pst_Active rows) /\
  i32 (pt_Waiting t') = i32 (pt_Waiting t + sum pst_Waiting rows) /\
  i32 (pt_MaxConns t') = i32 (pt_MaxConns t + sum pst_MaxConns rows) /\
  i64 (pt_EmptyAcquires t') = i64 (pt_EmptyAcquires t + sum pst_EmptyAcquires rows) /\
  i64 (pt_AcquireWait t') = i64 (pt_AcquireWait t + sum pst_AcquireWait rows).
Proof.
  induction entries as [|e entries IH]; intros t rows t'; subst rows t'.
  { cbn. rewrite !Z.add_0_r. done. }
  cbn [map foldl sum foldr] in *. specialize (IH (add_totals Stat t e)). cbv zeta in IH.
  destruct IH as (-> & -> & -> & -> & -> & -> & ->). cbn. unfold i32, i64.
  by rewrite !signed_add, !Z.add_assoc by lia.
Qed.

End Totals.

Section Resizing.
Context {Core : Type} (core_SetMaxConns : Core -> Z -> option Core).

Definition resized (n : Z) (limits : option (bytes -> Z)) (id : identity) (e : poolEntry Core) : poolEntry Core :=
  match core_SetMaxConns (pe_core e) (ceilingFor n (limitFor limits (id_db id))) with
  | None => e
  | Some core => {| pe_core := core; pe_lastUsed := pe_lastUsed e |}
  end.

Lemma resize_entry_lookup n limits pools id id' :
  fst (resize_entry core_SetMaxConns n limits pools id) !! id' =
  if decide (id = id') then resized n limits id' <$> (pools !! id') else pools !! id'.
Proof.
  unfold resize_entry, resized. case_decide as H; [subst id'|].
  - destruct (pools !! id) as [e|] eqn:E; cbn; [|by rewrite E].
    destruct (core_SetMaxConns _ _); cbn; [by rewrite lookup_insert_eq|by rewrite E].
  - destruct (pools !! id) as [e|] eqn:E; cbn; [|done].
    destruct (core_SetMaxConns _ _); cbn; [by rewrite lookup_insert_ne|done].
Qed.

Lemma resize_all_lookup n limits order : forall pools ok id',
  NoDup order ->
  fst (foldl (fun acc id => let '(p, ok) := resize_entry core_SetMaxConns n limits (fst acc) id in (p, snd acc && ok))
        (pools, ok) order) !! id' =
  if decide (id' ∈ order) then resized n limits id' <$> (pools !! id') else pools !! id'.
Proof.
  induction order as [|id order IH]; intros pools ok id' Hnd; [done|].
  apply list.NoDup_cons in Hnd as [Hid Hnd]. cbn [foldl fst snd].
  pose proof (resize_entry_lookup n limits pools id id') as Hl.
  destruct (resize_entry core_SetMaxConns n limits pools id) as [p o]. cbn [fst] in Hl.
  rewrite IH, Hl by done. destruct (decide (id = id')) as [->|Hne].
  - rewrite decide_False by done. by rewrite decide_True by (by left).
  - apply decide_ext. rewrite elem_of_cons. intuition congruence.
Qed.

End Resizing.

(** The least positive latency seen. *)
Definition least_latency (ls : list Z) : Z :=
  foldl (fun m l => if decide (0 < l /\ l < m) then l else m) MaxInt64 ls.

Lemma run_controller_snoc ceil obs o :
  run_controller ceil (obs ++ [o]) = fst (adjust ceil (run_controller ceil obs) o).
Proof. unfold run_controller. by rewrite foldl_app. Qed.

Lemma run_controller_started ceil obs : obs <> [] -> is_Some (lastCheck (run_controller ceil obs)).
Proof.
  destruct obs as [|o obs _] using rev_ind; [done|]. intros _. rewrite run_controller_snoc. unfold adjust.
  destruct (lastCheck (run_controller ceil obs)); [|by eexists].
  destruct (throttling (ob_monitor o)) as [[g t] r]. by eexists.
Qed.

Lemma run_controller_latency ceil obs :
  minLatency (run_controller ceil obs) = least_latency (map ob_latency (tail obs)).
Proof.
  induction obs as [|o obs IH] using rev_ind; [done|]. rewrite run_controller_snoc.
  destruct obs as [|o' obs]; [done|].
  destruct (run_controller_started ceil (o' :: obs) ltac:(done)) as [last Hl].
  unfold adjust. rewrite Hl. destruct (throttling (ob_monitor o)) as [[g t] r]. cbn [fst minLatency].
  rewrite IH. cbn [app tail map]. unfold least_latency. by rewrite map_app, foldl_app.
Qed.

Lemma clamp_target_bounds target lo hi :
  clamp_target target lo hi <= hi /\ (Z.max lo 1 <= hi -> Z.max lo 1 <= clamp_target target lo hi).
Proof. unfold clamp_target. repeat case_decide; lia. Qed.

(** ** Theorems *)

(** The occupancy a backend reports is the sum of the rows it reports per
    identity, at the width of the counters. *)
Theorem totals_are_sums {Core : Type} (Stat : Core -> core_stat) (s : poolSet Core) :
  let rows := PoolStats Stat s in
  let t := pool_totals Stat s in
  i32 (pt_Total t) = i32 (sum pst_Total rows) /\ i32 (pt_Idle t) = i32 (sum pst_Idle rows) /\
  i32 (pt_Active t) = i32 (sum pst_Active rows) /\ i32 (pt_Waiting t) = i32 (sum pst_Waiting rows) /\
  i32 (pt_MaxConns t) = i32 (sum pst_MaxConns rows) /\
  i64 (pt_EmptyAcquires t) = i64 (sum pst_EmptyAcquires rows) /\
  i64 (pt_AcquireWait t) = i64 (sum pst_AcquireWait rows) /\
  pt_Pools t = zlen rows.
Proof.
  cbv zeta. unfold pool_totals, PoolStats.
  destruct (totals_fold Stat (eachIdentity s) no_totals) as (H1 & H2 & H3 & H4 & H5 & H6 & H7).
  cbn in *. split_and!; [done..|]. unfold count, eachIdentity, zlen.
  by rewrite !length_map, length_map_to_list.
Qed.

(** A resize reaches every pool, whatever order they are visited in and whichever
    refuse: each is asked for the new ceiling or its database's own limit if that is
    lower, and none is asked for more than its limit. *)
Theorem resize_respects_limits {Core : Type} (core_SetMaxConns : Core -> Z -> option Core)
    (s : poolSet Core) (limits : option (bytes -> Z)) (n : Z) (id : identity) (e : poolEntry Core) :
  ps_pools s !! id = Some e ->
  let target := ceilingFor n (limitFor limits (id_db id)) in
  target <= n /\ (0 < limitFor limits (id_db id) -> target <= limitFor limits (id_db id)) /\
  ps_pools (snd (fst (SetMaxConns core_SetMaxConns s limits n))) !! id =
    Some match core_SetMaxConns (pe_core e) target with
         | None => e
         | Some core => {| pe_core := core; pe_lastUsed := pe_lastUsed e |}
         end.
Proof.
  intros He target. split_and!.
  - subst target. unfold ceilingFor. case_decide; lia.
  - subst target. unfold ceilingFor. case_decide; lia.
  - unfold SetMaxConns, resize_all.
    assert (map fst (eachIdentity s) = map fst (map_to_list (ps_pools s))) as Eo.
    { unfold eachIdentity. by rewrite map_map. }
    pose proof (resize_all_lookup core_SetMaxConns n limits (map fst (eachIdentity s)) (ps_pools s) true id) as H.
    destruct (foldl _ _ _) as [p o]. cbn [fst snd set_pools ps_pools] in *. rewrite H.
    + rewrite decide_True; [rewrite He; done|]. rewrite Eo. apply list_elem_of_fmap. exists (id, e).
      split; [done|]. by apply elem_of_map_to_list.
    + rewrite Eo. apply NoDup_fst_map_to_list.
Qed.

Definition one_core : poolSet Z :=
  {| ps_pools := {[ ann_app := {| pe_core := 20; pe_lastUsed := 0 |} ]}; ps_closed_cores := [];
     ps_maxTotal := 0; ps_maxPools := 0; ps_idleTTL := 0; ps_closed := false |}.

(** A limit of eight on the database caps a resize to thirty. *)
Lemma resize_respects_limits_witness :
  ps_pools (snd (fst (SetMaxConns (fun _ n => Some n) one_core (Some (fun _ => 8)) 30))) !! ann_app
  = Some {| pe_core := 8; pe_lastUsed := 0 |}.
Proof.
  refine (proj2 (proj2 (resize_respects_limits (fun _ n => Some n) one_core (Some (fun _ => 8)) 30 ann_app
    {| pe_core := 20; pe_lastUsed := 0 |} _))).
  vm_compute. reflexivity.
Defined.

(** The adaptive controller, whatever it observed: the latency it uses is the
    least positive one since its second tick, and a ceiling it sets lies between
    the pool's bounds and differs from the current one, whatever the platform
    makes of a float that does not fit; where the float fits, the ceiling is the
    bandwidth-delay product rounded up and clamped. *)
Theorem adaptive_target_bounded (ceil_int32 : Q -> Z) (obs : list observation) (o : observation) (t : Z) :
  (forall x, - 2 ^ 31 <= Qceiling x < 2 ^ 31 -> ceil_int32 x = Qceiling x) ->
  snd (adjust ceil_int32 (run_controller ceil_int32 obs) o) = Some t ->
  let c := fst (adjust ceil_int32 (run_controller ceil_int32 obs) o) in
  minLatency c = least_latency (map ob_latency (tail (obs ++ [o]))) /\
  t <= ob_maxConns o /\ t <> ob_current o /\
  (Z.max (ob_minConns o) 1 <= ob_maxConns o -> Z.max (ob_minConns o) 1 <= t) /\
  (let x := bandwidth_delay (maxRPS c) (minLatency c) (fst (fst (throttling (ob_monitor o)))) in
   - 2 ^ 31 <= Qceiling x < 2 ^ 31 -> t = clamp_target (Qceiling x) (ob_minConns o) (ob_maxConns o)).
Proof.
  intros Hceil Ht c. split; [subst c; by rewrite <- run_controller_snoc, run_controller_latency|].
  revert Ht. subst c. unfold adjust. destruct (lastCheck (run_controller ceil_int32 obs)) as [last|]; [|done].
  destruct (throttling (ob_monitor o)) as [[g th] r]. cbn [fst snd maxRPS minLatency].
  case_decide as Hd; [|done]. intros [= <-].
  match goal with |- context [clamp_target ?x ?lo ?hi] => destruct (clamp_target_bounds x lo hi) as [Hu Hl] end.
  split_and!; [done|done|done|]. intros Hr. by rewrite Hceil.
Qed.

Definition tick (now latency requests : Z) : observation :=
  {| ob_now := now; ob_latency := latency; ob_totalRequests := requests; ob_monitor := None;
     ob_minConns := 2; ob_maxConns := 50; ob_current := 50 |}.

(** Two hundred requests a second at 40 milliseconds: ten connections. *)
Lemma adaptive_target_bounded_witness :
  let obs := [tick 0 0 0] in
  let o := tick 5000000000 40000000 1000 in
  snd (adjust Qceiling (run_controller Qceiling obs) o) = Some 10 /\ 10 <= ob_maxConns o.
Proof.
  cbv zeta. assert (snd (adjust Qceiling (run_controller Qceiling [tick 0 0 0]) (tick 5000000000 40000000 1000)) = Some 10) as H
    by (vm_compute; reflexivity).
  split; [exact H|].
  refine (proj1 (proj2 (adaptive_target_bounded Qceiling [tick 0 0 0] (tick 5000000000 40000000 1000) 10 _ H))).
  done.
Defined.

(** Before any latency was measured the controller reckons with the largest
    duration there is, and advises on a database it knows nothing of. *)
Example unmeasured_latency_reported_high :
  let stats := {| CPUUsage := 10; MemoryUsage := 0; NumGoroutines := 10 |} in
  map sg_Title (advise (Some stats) (minLatency NewAdaptivePoolController)) = [bs "High DB Latency"].
Proof. vm_compute. reflexivity. Qed.

(** A refused ceiling stays the template of the pools made later. *)
Example refused_ceiling_kept :
  let '(template, s, ok) := SetMaxConns (fun _ _ => None) one_core None 99 in
  template = 99 /\ ok = false /\ s = one_core.
Proof. vm_compute. done. Qed.

(** The latency estimate stays between its last value and the new measurement. *)
Theorem latency_between (old d : Z) :
  0 <= old -> 0 <= d -> old <> 0 ->
  Z.min old d <= ReportLatency old d <= Z.max old d.
Proof.
  intros Ho Hd Hz. unfold ReportLatency. rewrite decide_False by done.
  rewrite Z.quot_div_nonneg by lia. split.
  - apply Z.div_le_lower_bound; lia.
  - apply Z.div_le_upper_bound; lia.
Qed.

Lemma latency_between_witness : Z.min 100 50 <= ReportLatency 100 50 <= Z.max 100 50.
Proof. refine (latency_between 100 50 _ _ _); lia. Defined.
