(* ===== verification/Routing.v ===== *)
(** * Which database a session reaches

    [pkg/config/database.go] (the routing table), [pkg/config/admin_console.go]
    (who may use the console) and [resolveDatabase] of [proxy/open_session.go],
    which applies the table to a startup request; and the ceiling the pool takes
    from the same table ([registry.go] installs [Databases.Limit] as the pool's
    limits).  The table is a list, in configuration order. *)
From Stdlib Require Import ZArith Lia Strings.String.
From stdpp Require Import base gmap list numbers option.
From S2P Require Import Prelude Wire Scanner Lexer Session Startup Pool.
#[local] Open Scope Z_scope.

(** ** The table *)

Definition WildcardDatabase : bytes := bs "*".

(** [Database] and [Route]. *)
Record DatabaseRule := { dr_Name : bytes; dr_Database : bytes; dr_MaxConns : Z }.
Record Route := { rt_Database : bytes; rt_MaxConns : Z }.
Abbreviation Databases := (list DatabaseRule).

(** [Database.route]. *)
Definition route (d : DatabaseRule) (requested : bytes) : Route :=
  {| rt_Database := if decide (dr_Database d = []) then requested else dr_Database d;
     rt_MaxConns := dr_MaxConns d |}.

(** [Databases.Resolve]: its loop, which remembers the wildcard it has passed. *)
Fixpoint resolve_loop (d : Databases) (name : bytes) (wildcard : option DatabaseRule) : Route :=
  match d with
  | [] =>
      match wildcard with
      | Some w => {| rt_Database := name; rt_MaxConns := dr_MaxConns w |}
      | None => {| rt_Database := name; rt_MaxConns := 0 |}
      end
  | e :: d =>
      if decide (dr_Name e = name) then route e name
      else resolve_loop d name (if decide (dr_Name e = WildcardDatabase) then Some e else wildcard)
  end.

Definition Resolve (d : Databases) (name : bytes) : Route := resolve_loop d name None.

(** [Databases.Limit]. *)
Definition Limit (d : Databases) (name : bytes) : Z := rt_MaxConns (Resolve d name).

(** [Databases.Validate]. *)
Inductive table_err :=
| TableNoName | TableDuplicate (name : bytes) | TableWildcardRewrites (target : bytes) | TableNegative (name : bytes).

Fixpoint validate_loop (d : Databases) (seen : gset bytes) : option table_err :=
  match d with
  | [] => None
  | entry :: d =>
      let name := TrimSpace (dr_Name entry) in
      if decide (name = []) then Some TableNoName
      else if decide (name ∈ seen) then Some (TableDuplicate name)
      else if decide (name = WildcardDatabase /\ dr_Database entry <> []) then Some (TableWildcardRewrites (dr_Database entry))
      else if decide (dr_MaxConns entry < 0) then Some (TableNegative name)
      else validate_loop d ({[name]} ∪ seen)
  end.

Definition Validate (d : Databases) : option table_err := validate_loop d ∅.

(** ** The console *)

Definition DefaultAdminDatabase : bytes := bs "pgbouncer".

(** [AdminConsole]; a nil pointer is [None]. *)
Record AdminConsole := { ac_Enabled : bool; ac_Database : bytes; ac_Users : list bytes }.

Definition DatabaseName (a : option AdminConsole) : bytes :=
  match a with
  | None => DefaultAdminDatabase
  | Some a => if decide (ac_Database a = []) then DefaultAdminDatabase else ac_Database a
  end.

(** [Permits] and the console's [Validate]. *)
Definition Permits (a : option AdminConsole) (user : bytes) : bool :=
  match a with
  | None => false
  | Some a => ac_Enabled a && existsb (fun allowed => bool_decide (allowed = user)) (ac_Users a)
  end.

Inductive console_err := ErrAdminConsoleNoUsers | ErrAdminConsoleWildcard.

Definition console_Validate (a : option AdminConsole) : option console_err :=
  match a with
  | None => None
  | Some a =>
      if negb (ac_Enabled a) then None
      else if decide (filter (fun user => TrimSpace user <> []) (ac_Users a) = []) then Some ErrAdminConsoleNoUsers
      else if existsb (fun user => bool_decide (user = bs "*")) (ac_Users a) then Some ErrAdminConsoleWildcard
      else None
  end.

(** ** Applying the table to a request *)

Definition set_Database (s : SessionState) (db : bytes) : SessionState :=
  {| StartupPacket := StartupPacket s; Replication := Replication s; Vars := Vars s; Stmts := Stmts s;
     TxState := TxState s; User := User s; Database := db; LastLSN := LastLSN s; Pinned := Pinned s;
     BackendKey := BackendKey s; PinnedBy := PinnedBy s |}.

(** [resolveDatabase], on the packet and the name of the request: the new packet,
    the new name and the new session state. *)
Definition resolveDatabase (routes : Databases) (raw database : bytes) (state : SessionState)
  : result wire_err (bytes * bytes * SessionState) :=
  match routes with
  | [] => Ok (raw, database, state)
  | _ =>
      let r := Resolve routes database in
      if decide (rt_Database r = database) then Ok (raw, database, state)
      else
        rewritten ← RewriteStartupDatabase raw (rt_Database r);
        Ok (rewritten, rt_Database r, set_Database state (rt_Database r))
  end.

(** The ceiling of the pool the session's connections come from: [limitFor] over
    the table's [Limit], under the backend's own ceiling. *)
Definition pool_ceiling (routes : Databases) (configured : Z) (state : SessionState) : Z :=
  let limits := match routes with [] => None | _ => Some (Limit routes) end in
  let limit := limitFor limits (Database state) in
  if decide (0 < limit) then ceilingFor configured limit else configured.

(** ** What the table says *)

(** A table that can be served: named rules, no two alike, a wildcard that only
    limits, and no negative ceilings. *)
Definition table_ok (d : Databases) : Prop :=
  NoDup (map (fun e => TrimSpace (dr_Name e)) d) /\
  Forall (fun e => TrimSpace (dr_Name e) <> [] /\ 0 <= dr_MaxConns e /\
                   (TrimSpace (dr_Name e) = WildcardDatabase -> dr_Database e = [])) d.

Lemma validate_loop_spec d seen :
  validate_loop d seen = None <-> table_ok d /\ Forall (fun e => TrimSpace (dr_Name e) ∉ seen) d.
Proof.
  unfold table_ok. revert seen. induction d as [|e d IH]; intros seen; cbn [validate_loop map].
  { split; [|done]. intros _. split_and!; constructor. }
  rewrite list.NoDup_cons, !Forall_cons_iff, list_elem_of_fmap.
  set (name := TrimSpace (dr_Name e)).
  destruct (decide (name = [])); [naive_solver|]. destruct (decide (name ∈ seen)); [naive_solver|].
  destruct (decide (name = WildcardDatabase /\ dr_Database e <> [])) as [[Hw Hr]|Hw]; [naive_solver|].
  destruct (decide (dr_MaxConns e < 0)); [split; [done|lia]|].
  rewrite IH. rewrite !list.Forall_forall. split.
  - intros ((Hnd & Hall) & Hs). split_and!; try done; try lia.
    + intros (x & Ex & Hx). apply (Hs x Hx). fold name in Ex. set_solver.
    + intros Hn. destruct (decide (dr_Database e = [])); naive_solver.
    + intros x Hx. specialize (Hs x Hx). set_solver.
  - intros (((Hn & Hnd) & _ & Hall) & _ & Hs). split_and!; try done.
    intros x Hx [Ex%elem_of_singleton|Hin]%elem_of_union; [|by apply (Hs x Hx)].
    apply Hn. exists x. by rewrite <- Ex.
Qed.

Lemma Validate_spec d : Validate d = None <-> table_ok d.
Proof.
  unfold Validate. rewrite validate_loop_spec. split; [by intros [? _]|]. intros H. split; [done|].
  apply list.Forall_forall. set_solver.
Qed.

Lemma resolve_loop_listed d e w :
  table_ok d -> e ∈ d -> resolve_loop d (dr_Name e) w = route e (dr_Name e).
Proof.
  unfold table_ok. revert w. induction d as [|x d IH]; intros w; [set_solver|].
  cbn [map resolve_loop]. rewrite list.NoDup_cons, Forall_cons_iff. intros [[Hx Hd] [_ Ha]] [->|He]%elem_of_cons.
  - by rewrite decide_True.
  - rewrite decide_False; [by apply IH|]. intros E. apply Hx. rewrite E. apply list_elem_of_fmap. eauto.
Qed.

Lemma resolve_loop_unlisted d name w :
  Forall (fun e => dr_Name e <> name) d -> rt_Database (resolve_loop d name w) = name.
Proof.
  revert w. induction d as [|x d IH]; intros w; cbn [resolve_loop]; [by destruct w|].
  rewrite Forall_cons_iff. intros [Hx Ha]. rewrite decide_False by done. by apply IH.
Qed.

Lemma Resolve_cases d name :
  table_ok d ->
  (exists e, e ∈ d /\ dr_Name e = name /\ Resolve d name = route e name) \/
  (Forall (fun e => dr_Name e <> name) d /\ rt_Database (Resolve d name) = name).
Proof.
  intros Hok. destruct (decide (Exists (fun e => dr_Name e = name) d)) as [He|He].
  - apply list.Exists_exists in He as (e & He & <-). left. exists e. split_and!; [done..|].
    by apply resolve_loop_listed.
  - right. apply not_Exists_Forall in He; [|intros ?; apply _]. split; [done|]. by apply resolve_loop_unlisted.
Qed.

(** The database a packet opens: the one it names, the user's name by default. *)
Definition opens (raw : bytes) : bytes :=
  let '(user, database, _) := extractStartupParams raw in if decide (database = []) then user else database.

Definition asks_as (raw : bytes) : bytes := fst (fst (extractStartupParams raw)).

Lemma set_Database_same s : set_Database s (Database s) = s.
Proof. by destruct s. Qed.

Lemma rewritten_opens version kvs db :
  length version = 4%nat -> Forall param_ok kvs -> NUL ∉ db -> db <> [] ->
  opens (startup_packet version (rewrite_params kvs db)) = db /\
  asks_as (startup_packet version (rewrite_params kvs db)) = asks_as (startup_packet version kvs).
Proof.
  intros Hv Hk Hd Hne. destruct (rewritten_startup version db kvs Hv Hk Hd) as (raw' & _ & -> & E).
  unfold opens, asks_as. rewrite E. split; [by rewrite decide_False|done].
Qed.

Lemma pool_ceiling_listed routes e configured state :
  table_ok routes -> e ∈ routes -> dr_Name e = Database state -> 0 < dr_MaxConns e ->
  pool_ceiling routes configured state = Z.min configured (dr_MaxConns e).
Proof.
  intros Hok He En Hm. unfold pool_ceiling. destruct routes as [|r0 routes]; [set_solver|]. cbn [limitFor].
  unfold Limit, Resolve. rewrite <- En, resolve_loop_listed by done. cbn [route rt_MaxConns].
  rewrite decide_True by done. unfold ceilingFor. case_decide; lia.
Qed.

(** What routing a request does, by what the table says of its name. *)
Lemma resolveDatabase_cases routes version kvs state :
  table_ok routes -> length version = 4%nat -> Forall param_ok kvs ->
  let raw := startup_packet version kvs in
  let answer := resolveDatabase routes raw (opens raw) state in
  (rt_Database (Resolve routes (opens raw)) = opens raw /\ answer = Ok (raw, opens raw, state)) \/
  (exists e, e ∈ routes /\ dr_Name e = opens raw /\ dr_Database e <> [] /\ dr_Database e <> opens raw /\
     answer = Ok (startup_packet version (rewrite_params kvs (dr_Database e)), dr_Database e, set_Database state (dr_Database e))).
Proof.
  intros Hok Hv Hk raw answer. subst answer. unfold resolveDatabase.
  destruct (decide (rt_Database (Resolve routes (opens raw)) = opens raw)) as [Hr|Hr].
  { left. split; [done|]. by destruct routes. }
  right. destruct (Resolve_cases _ (opens raw) Hok) as [(e & He & En & Er)|[_ Er]]; [|done].
  exists e. rewrite Er in *. cbn [route rt_Database] in *. destruct (decide (dr_Database e = [])) as [|Hne]; [done|].
  split_and!; try done. destruct routes as [|r0 routes]; [set_solver|]. cbv zeta.
  unfold raw. by rewrite RewriteStartupDatabase_packet.
Qed.

(** A session reaches the database its name is routed to, the same one
    everywhere, and no other.  For a validated table and any startup packet the
    request resolves; the packet that is forwarded, the request and the session
    agree on the database, and the user is untouched; a name with a rule goes
    where that rule says and to itself if the rule names no target; a name without
    one is left alone, packet included, whatever else the table holds, so a
    wildcard never redirects it.  The pool of a name whose rule does not rename it
    runs under the rule's ceiling. *)
Theorem routing_consistent (routes : Databases) version (kvs : params) (state : SessionState) :
  Validate routes = None -> Forall (fun e => NUL ∉ dr_Database e) routes ->
  length version = 4%nat -> Forall param_ok kvs ->
  let raw := startup_packet version kvs in
  Database state = opens raw ->
  exists raw' db state',
    resolveDatabase routes raw (opens raw) state = Ok (raw', db, state') /\
    state' = set_Database state db /\ opens raw' = db /\ asks_as raw' = asks_as raw /\
    (forall e, e ∈ routes -> dr_Name e = opens raw -> db = if decide (dr_Database e = []) then opens raw else dr_Database e) /\
    (Forall (fun e => dr_Name e <> opens raw) routes -> raw' = raw /\ db = opens raw) /\
    (forall e configured, e ∈ routes -> dr_Name e = opens raw -> db = opens raw -> 0 < dr_MaxConns e ->
       pool_ceiling routes configured state' = Z.min configured (dr_MaxConns e)).
Proof.
  intros Hval Hnul Hv Hk raw Hst. apply Validate_spec in Hval.
  assert (forall e, e ∈ routes -> dr_Name e = opens raw -> Resolve routes (opens raw) = route e (opens raw)) as Hlisted.
  { intros e He <-. by apply resolve_loop_listed. }
  destruct (resolveDatabase_cases routes version kvs state Hval Hv Hk) as [[Hr E]|(e & He & En & Hne & Hdiff & E)];
    cbv zeta in *; subst raw; do 3 eexists; (split; [exact E|]).
  - split_and!; try done.
    + by rewrite <- Hst, set_Database_same.
    + intros e He En. rewrite (Hlisted e He En) in Hr. exact (eq_sym Hr).
    + intros e configured He En _. apply pool_ceiling_listed; congruence.
  - rewrite list.Forall_forall in Hnul.
    destruct (rewritten_opens version kvs (dr_Database e) Hv Hk (Hnul e He) Hne) as [Ho Hu]. split_and!; try done.
    + intros e' He' En'. pose proof (Hlisted e' He' En') as E'. rewrite (Hlisted e He En) in E'.
      injection E' as Ed _. rewrite decide_False in Ed by done. exact Ed.
    + intros Hno. rewrite list.Forall_forall in Hno. by destruct (Hno e He).
Qed.

Lemma routing_consistent_witness :
  let routes := [{| dr_Name := bs "app"; dr_Database := bs "app_prod"; dr_MaxConns := 20 |};
                 {| dr_Name := bs "*"; dr_Database := []; dr_MaxConns := 5 |}] in
  let raw := startup_packet (put_uint32 196608) [(bs "user", bs "ann"); (bs "database", bs "app")] in
  exists raw' state', resolveDatabase routes raw (bs "app") (set_Database newSessionState (bs "app")) = Ok (raw', bs "app_prod", state') /\
    opens raw' = bs "app_prod".
Proof.
  intros routes raw.
  destruct (routing_consistent routes (put_uint32 196608) [(bs "user", bs "ann"); (bs "database", bs "app")]
              (set_Database newSessionState (bs "app")))
    as (raw' & db & state' & E & _ & Ho & _ & Hl & _).
  - vm_compute. reflexivity.
  - repeat constructor; by_decide.
  - reflexivity.
  - apply List.Forall_forall. intros x [<-|[<-|[]]]; split_and!; by_decide.
  - vm_compute. reflexivity.
  - exists raw', state'. assert (db = bs "app_prod") as ->.
    { refine (eq_trans (Hl _ (list_elem_of_here _ _) _) _); vm_compute; reflexivity. }
    split; [exact E|exact Ho].
Defined.

(** ** Where the table is not what it seems *)

(** The ceiling of a rule that renames its database is never applied: the pool
    is keyed by the new name, and the table is asked about that name. *)
Example alias_limit_ignored :
  let routes := [{| dr_Name := bs "app"; dr_Database := bs "app_prod"; dr_MaxConns := 20 |}] in
  let raw := startup_packet (put_uint32 196608) [(bs "user", bs "ann"); (bs "database", bs "app")] in
  Validate routes = None /\ Limit routes (bs "app") = 20 /\
  match resolveDatabase routes raw (bs "app") (set_Database newSessionState (bs "app")) with
  | Ok (_, _, state) => pool_ceiling routes 100 state = 100
  | Err _ => False
  end.
Proof. vm_compute. split_and!; reflexivity. Qed.

(** A name is trimmed when it is validated and not when it is looked up, so a
    rule written with a space around its name is accepted and never applies. *)
Example padded_rule_never_applies :
  let routes := [{| dr_Name := bs " app"; dr_Database := bs "app_prod"; dr_MaxConns := 20 |}] in
  Validate routes = None /\ Resolve routes (bs "app") = {| rt_Database := bs "app"; rt_MaxConns := 0 |}.
Proof. vm_compute. split; reflexivity. Qed.

(** ** The console *)

(** A console that passes validation admits exactly the roles it lists, at least
    one name among them is not blank, and no entry means everybody. *)
Theorem console_closed (a : AdminConsole) (user : bytes) :
  console_Validate (Some a) = None -> ac_Enabled a = true ->
  (Permits (Some a) user = true <-> user ∈ ac_Users a) /\
  bs "*" ∉ ac_Users a /\ exists u, u ∈ ac_Users a /\ TrimSpace u <> [].
Proof.
  unfold console_Validate, Permits. intros Hv He. rewrite He in *. cbn [negb andb] in *.
  destruct (decide (filter (fun user => TrimSpace user <> []) (ac_Users a) = [])) as [|Hf]; [done|].
  destruct (existsb _ (ac_Users a)) eqn:Ex; [done|]. split_and!.
  - rewrite existsb_exists. split; [intros (u & Hu & ->%bool_decide_eq_true); by apply list_elem_of_In|].
    intros Hu%list_elem_of_In. exists user. split; [done|by apply bool_decide_eq_true].
  - intros Hin. assert (existsb (fun user => bool_decide (user = bs "*")) (ac_Users a) = true) as Et; [|congruence].
    apply existsb_exists. exists (bs "*"). split; [by apply list_elem_of_In|by apply bool_decide_eq_true].
  - destruct (filter (fun user => TrimSpace user <> []) (ac_Users a)) as [|u l] eqn:E; [done|].
    exists u. assert (u ∈ filter (fun user => TrimSpace user <> []) (ac_Users a)) as [Hu Hin]%list_elem_of_filter
      by (rewrite E; left). done.
Qed.
