(* ===== verification/Format.v ===== *)
(** * Text as the Go library prints and splits it

    The functions of strconv, strings, time and net that the console, the agent
    and the configuration use: decimal integers, RFC 3339 instants in UTC,
    durations, host and port, upper case and trimming.  Instants and durations are
    nanoseconds. *)
From Stdlib Require Import ZArith Lia Strings.String.
From stdpp Require Import base gmap list numbers option.
From S2P Require Import Prelude.

(** ** Integers *)

(** [strconv.FormatInt(n, 10)]; twenty digits hold every int64. *)
Definition format_nat (n : Z) : bytes := if decide (n = 0) then [ch "0"] else put_digits 20 n [].
Definition FormatInt (n : Z) : bytes :=
  if decide (n < 0) then ch "-" :: format_nat (- n) else format_nat n.

(** Zero-padded to a width. *)
Definition pad (width : nat) (n : Z) : bytes :=
  let d := format_nat n in replicate (width - length d) (ch "0") ++ d.

Lemma ParseInt64_FormatInt n : - 2 ^ 63 <= n < 2 ^ 63 -> ParseInt64 (FormatInt n) = Some n.
Proof.
  intros Hn.
  assert (forall m, 0 < m < 10 ^ 20 ->
    exists d ds, put_digits 20 m [] = d :: ds /\ is_Some (digit_value d) /\ parse_digits (d :: ds) 0 = Some m) as Hd.
  { intros m Hm. destruct (parse_put_digits 20 m [] 0) as (k & E & _ & H); [change (Z.of_nat 20) with 20; lia|].
    destruct H as (d & ds & Ed & Hs); [lia|]. exists d, ds. split_and!; [done|done|].
    rewrite <- Ed, E. cbn [parse_digits]. f_equal; lia. }
  assert (2 ^ 63 < 10 ^ 20) by (vm_compute; done).
  assert (forall d, is_Some (digit_value d) -> d <> ch "+" /\ d <> ch "-") as Hsign.
  { intros d [v Hv]. split; intros ->; vm_compute in Hv; discriminate. }
  unfold FormatInt, format_nat. destruct (decide (n < 0)) as [Hneg|Hneg].
  - destruct (decide (- n = 0)); [lia|]. destruct (Hd (- n)) as (d & ds & -> & Hs & Hp); [lia|].
    unfold ParseInt64. rewrite (decide_False (P := ch "-" = ch "+")), decide_True by done.
    unfold parse_udec. rewrite Hp. cbn [mbind option_bind]. by rewrite Z.opp_involutive, decide_True.
  - destruct (decide (n = 0)) as [->|Hz]; [done|].
    destruct (Hd n) as (d & ds & -> & Hs & Hp); [lia|]. destruct (Hsign d Hs).
    unfold ParseInt64. rewrite !decide_False by done. unfold parse_udec. rewrite Hp.
    cbn [mbind option_bind]. by rewrite decide_True.
Qed.

(** ** Instants: [t.UTC().Format(time.RFC3339)] *)

(** The civil date of a number of days since 1970, by the proleptic Gregorian
    calendar: an era is 400 years, a year starts in March. *)
Definition civil (days : Z) : Z * Z * Z :=
  let z := days + 719468 in
  let era := z / 146097 in
  let doe := z mod 146097 in
  let yoe := (doe - doe / 1460 + doe / 36524 - doe / 146096) / 365 in
  let doy := doe - (365 * yoe + yoe / 4 - yoe / 100) in
  let mp := (5 * doy + 2) / 153 in
  let d := doy - (153 * mp + 2) / 5 + 1 in
  let m := if decide (mp < 10) then mp + 3 else mp - 9 in
  (yoe + era * 400 + (if decide (m <= 2) then 1 else 0), m, d).

Definition RFC3339 (ns : Z) : bytes :=
  let secs := ns / 1000000000 in
  let '(y, m, d) := civil (secs / 86400) in
  let s := secs mod 86400 in
  pad 4 y ++ ch "-" :: pad 2 m ++ ch "-" :: pad 2 d ++ ch "T" :: pad 2 (s / 3600) ++ ch ":" ::
  pad 2 (s mod 3600 / 60) ++ ch ":" :: pad 2 (s mod 60) ++ [ch "Z"].

Example epoch_formatted : RFC3339 0 = bs "1970-01-01T00:00:00Z".
Proof. vm_compute. reflexivity. Qed.

Example leap_day_formatted : RFC3339 (951827696 * 1000000000 + 5) = bs "2000-02-29T12:34:56Z".
Proof. vm_compute. reflexivity. Qed.

Example century_formatted : RFC3339 (4107542399 * 1000000000) = bs "2100-02-28T23:59:59Z".
Proof. vm_compute. reflexivity. Qed.

(** ** Durations: [time.Duration.String] *)

(** [fmtFrac]: the fraction of [prec] digits without its trailing zeros. *)
Fixpoint frac_digits (prec : nat) (v : Z) (print : bool) (acc : bytes) : bytes * Z :=
  match prec with
  | O => ((if print then ch "." :: acc else acc), v)
  | S prec =>
      let digit := v mod 10 in
      let print := print || bool_decide (digit <> 0) in
      frac_digits prec (v / 10) print (if print then byte_of (48 + digit) :: acc else acc)
  end.

Definition with_unit (prec : nat) (u : Z) (unit : bytes) : bytes :=
  let '(frac, whole) := frac_digits prec u false [] in format_nat whole ++ frac ++ unit.

Definition Duration_String (d : Z) : bytes :=
  let u := Z.abs d in
  let text :=
    if decide (u < 1000000000) then
      if decide (u = 0) then bs "0s"
      else if decide (u < 1000) then format_nat u ++ bs "ns"
      else if decide (u < 1000000) then with_unit 3 u [byte_of 194; byte_of 181; ch "s"]
      else with_unit 6 u (bs "ms")
    else
      let '(frac, secs) := frac_digits 9 u false [] in
      let s := format_nat (secs mod 60) ++ frac ++ bs "s" in
      let minutes := secs / 60 in
      if decide (0 < minutes) then
        let s := format_nat (minutes mod 60) ++ ch "m" :: s in
        if decide (0 < minutes / 60) then format_nat (minutes / 60) ++ ch "h" :: s else s
      else s in
  if decide (d < 0) then ch "-" :: text else text.

Example durations_formatted :
  Duration_String 5400000000000 = bs "1h30m0s" /\ Duration_String 1500000000 = bs "1.5s" /\
  Duration_String 100000000 = bs "100ms" /\ Duration_String (-2500) = ch "-" :: bs "2.5" ++ [byte_of 194; byte_of 181; ch "s"] /\
  Duration_String 0 = bs "0s".
Proof. vm_compute. split_and!; reflexivity. Qed.

(** ** Strings *)

(** [strings.ToUpper], compared with ASCII words: the two code points outside
    ASCII whose capital is an ASCII letter are the dotless i and the long s. *)
Definition ascii_upper_byte (c : byte) : byte :=
  if decide (bval (ch "a") <= bval c <= bval (ch "z")) then byte_of (bval c - 32) else c.

Fixpoint ToUpper_ascii (s : bytes) : bytes :=
  match s with
  | Corelib.Init.Byte.xc4 :: Corelib.Init.Byte.xb1 :: r => ch "I" :: ToUpper_ascii r
  | Corelib.Init.Byte.xc5 :: Corelib.Init.Byte.xbf :: r => ch "S" :: ToUpper_ascii r
  | c :: r => ascii_upper_byte c :: ToUpper_ascii r
  | [] => []
  end.

(** [strings.TrimRight] with a cutset of one byte. *)
Fixpoint TrimRight1 (s : bytes) (c : byte) : bytes :=
  match s with
  | [] => []
  | x :: r => match TrimRight1 r c with
              | [] => if decide (x = c) then [] else [x]
              | r => x :: r
              end
  end.

(** [strings.Compare]. *)
Fixpoint bytes_compare (a b : bytes) : comparison :=
  match a, b with
  | [], [] => Eq
  | [], _ => Lt
  | _, [] => Gt
  | x :: a, y :: b => match Z.compare (bval x) (bval y) with Eq => bytes_compare a b | c => c end
  end.

(** [string(rune(b))] of a byte: its UTF-8 encoding. *)
Definition rune_string (b : byte) : bytes :=
  if decide (bval b < 128) then [b]
  else [byte_of (192 + bval b / 64); byte_of (128 + bval b mod 64)].

(** The position of the last [c]. *)
Fixpoint lastIndexByte (s : bytes) (c : byte) : option nat :=
  match s with
  | [] => None
  | x :: r => match lastIndexByte r c with
              | Some i => Some (S i)
              | None => if decide (x = c) then Some 0%nat else None
              end
  end.

(** [net.SplitHostPort]; its errors are all [None]. *)
Definition SplitHostPort (hostport : bytes) : option (bytes * bytes) :=
  match lastIndexByte hostport (ch ":") with
  | None => None
  | Some i =>
      let port := drop (S i) hostport in
      if decide (head hostport = Some (ch "[")) then
        match indexByte hostport (ch "]") with
        | None => None
        | Some e =>
            if decide (S e = i) then
              if decide (ch "[" ∈ drop 1 hostport) then None
              else if decide (ch "]" ∈ drop (S e) hostport) then None
              else Some (drop 1 (take e hostport), port)
            else None
        end
      else
        let host := take i hostport in
        if decide (ch ":" ∈ host) then None
        else if decide (ch "[" ∈ hostport) then None
        else if decide (ch "]" ∈ hostport) then None
        else Some (host, port)
  end.

Lemma lastIndexByte_app host port c :
  c ∉ port -> lastIndexByte (host ++ c :: port) c = Some (length host).
Proof.
  intros Hp. assert (lastIndexByte port c = None) as E.
  { clear host. induction port as [|x port IH]; [done|]. cbn. rewrite IH by set_solver.
    by rewrite decide_False by set_solver. }
  induction host as [|x host IH]; cbn; [by rewrite E, decide_True|by rewrite IH].
Qed.

(** An address of a host without colons or brackets splits where it was joined. *)
Lemma SplitHostPort_join host port :
  Forall (fun c => c <> ch ":" /\ c <> ch "[" /\ c <> ch "]") (host ++ port) ->
  SplitHostPort (host ++ ch ":" :: port) = Some (host, port).
Proof.
  rewrite list.Forall_forall. intros Hf. unfold SplitHostPort.
  assert (forall c, c ∈ host \/ c ∈ port -> c <> ch ":" /\ c <> ch "[" /\ c <> ch "]") as H.
  { intros c Hc. apply Hf. by apply elem_of_app. }
  rewrite lastIndexByte_app by (intros Hc; destruct (H (ch ":")) as (? & _); tauto).
  assert (forall c, c = ch "[" \/ c = ch "]" -> c ∉ host ++ ch ":" :: port) as Hb.
  { intros c Hc [Hin|[->|Hin]%elem_of_cons]%elem_of_app; [|by destruct Hc|];
      destruct (H c ltac:(tauto)) as (_ & ? & ?); tauto. }
  rewrite decide_False.
  - rewrite take_app_length, drop_app_ge, Nat.sub_succ_l, Nat.sub_diag by lia. cbn [drop].
    rewrite decide_False by (intros Hc; destruct (H (ch ":")) as (? & _); tauto).
    rewrite !decide_False by (apply Hb; tauto). done.
  - intros E. apply (Hb (ch "[")); [tauto|]. destruct (host ++ ch ":" :: port); [done|].
    injection E as ->. by left.
Qed.

Example addresses_split :
  SplitHostPort (bs "10.0.0.1:5432") = Some (bs "10.0.0.1", bs "5432") /\
  SplitHostPort (bs "[::1]:6432") = Some (bs "::1", bs "6432") /\
  SplitHostPort (bs "::1:6432") = None /\ SplitHostPort (bs "/tmp/sock") = None /\
  SplitHostPort (bs "[::1]") = None.
Proof. vm_compute. split_and!; reflexivity. Qed.
