(* ===== verification/Calendar.v ===== *)
(** * The calendar: RFC 3339 instants in UTC sort as the instants do

    The stores of Stores.v keep instants as text and compare the texts; this file
    shows that up to the year 9999 that compares the instants, to the second. *)
From Stdlib Require Import ZArith Lia Strings.String.
From stdpp Require Import base gmap list numbers option.
From S2P Require Import Prelude Format.
#[local] Open Scope Z_scope.

(** ** Comparing fields of equal width *)

Definition then_compare (c d : comparison) : comparison := match c with Eq => d | _ => c end.

Lemma bytes_compare_app x y a b : length x = length y ->
  bytes_compare (x ++ a) (y ++ b) = then_compare (bytes_compare x y) (bytes_compare a b).
Proof.
  revert y. induction x as [|c x IH]; intros [|d y]; cbn; try done. intros [= E]. rewrite (IH y E).
  by destruct (Z.compare (bval c) (bval d)).
Qed.

Lemma bytes_compare_refl a : bytes_compare a a = Eq.
Proof. induction a as [|c a IH]; cbn; [done|]. by rewrite Z.compare_refl. Qed.

Lemma bytes_compare_cons c a b : bytes_compare (c :: a) (c :: b) = bytes_compare a b.
Proof. cbn. by rewrite Z.compare_refl. Qed.

(** The decimal digits of a number, in a given width. *)
Fixpoint digits (w : nat) (n : Z) : bytes :=
  match w with O => [] | S w => digits w (n / 10) ++ [byte_of (bval (ch "0") + n mod 10)] end.

Lemma digits_length w n : length (digits w n) = w.
Proof. revert n. induction w as [|w IH]; intros n; cbn; [done|]. rewrite length_app, IH. cbn. lia. Qed.

Lemma digit_compare a b : 0 <= a < 10 -> 0 <= b < 10 ->
  bytes_compare [byte_of (bval (ch "0") + a)] [byte_of (bval (ch "0") + b)] = Z.compare a b.
Proof.
  intros Ha Hb. cbn [bytes_compare]. rewrite !bval_byte_of. change (bval (ch "0")) with 48. rewrite !Z.mod_small by lia.
  rewrite Z.add_compare_mono_l. by destruct (Z.compare a b).
Qed.

Lemma digits_compare w : forall m n, 0 <= m < 10 ^ Z.of_nat w -> 0 <= n < 10 ^ Z.of_nat w ->
  bytes_compare (digits w m) (digits w n) = Z.compare m n.
Proof.
  induction w as [|w IH]; intros m n Hm Hn.
  { cbn in Hm, Hn. assert (m = 0) as -> by lia. by assert (n = 0) as -> by lia. }
  rewrite Nat2Z.inj_succ, Z.pow_succ_r in Hm, Hn by lia. cbn [digits].
  pose proof (Z.mod_pos_bound m 10 ltac:(lia)). pose proof (Z.mod_pos_bound n 10 ltac:(lia)).
  pose proof (Z.div_mod m 10 ltac:(lia)). pose proof (Z.div_mod n 10 ltac:(lia)).
  assert (0 <= m / 10 < 10 ^ Z.of_nat w) by lia. assert (0 <= n / 10 < 10 ^ Z.of_nat w) by lia.
  rewrite bytes_compare_app, IH, digit_compare by (rewrite ?digits_length; lia). unfold then_compare.
  destruct (Z.compare_spec (m / 10) (n / 10)); [|symmetry; apply Z.compare_lt_iff; lia|symmetry; apply Z.compare_gt_iff; lia].
  destruct (Z.compare_spec (m mod 10) (n mod 10)); symmetry; [apply Z.compare_eq_iff|apply Z.compare_lt_iff|apply Z.compare_gt_iff]; lia.
Qed.

Lemma digits_zero w : digits w 0 = replicate w (ch "0").
Proof. induction w as [|w IH]; [done|]. cbn [digits]. change (0 / 10) with 0. rewrite IH. symmetry. apply replicate_S_end. Qed.

Lemma put_digits_drop w : forall fuel n acc, 0 <= n < 10 ^ Z.of_nat w -> (w <= fuel)%nat ->
  exists k, (k <= w)%nat /\ put_digits fuel n acc = drop k (digits w n) ++ acc /\ take k (digits w n) = replicate k (ch "0").
Proof.
  induction w as [|w IH]; intros fuel n acc Hn Hf.
  { cbn in Hn. exists 0%nat. split_and!; [lia| |done]. destruct fuel; cbn; [done|]. by rewrite decide_True by lia. }
  destruct fuel as [|fuel]; [lia|]. cbn [put_digits]. case_decide as H0.
  { assert (n = 0) as -> by lia. exists (S w). rewrite digits_zero, drop_ge, take_ge by (rewrite length_replicate; lia). done. }
  rewrite Nat2Z.inj_succ, Z.pow_succ_r in Hn by lia. pose proof (Z.div_mod n 10 ltac:(lia)). pose proof (Z.mod_pos_bound n 10 ltac:(lia)).
  destruct (IH fuel (n / 10) (byte_of (bval (ch "0") + n mod 10) :: acc)) as (k & Hk & -> & Ht); [lia|lia|].
  exists k. cbn [digits]. rewrite drop_app_le, take_app_le by (rewrite digits_length; lia). split_and!; [lia| |done].
  by rewrite <- app_assoc.
Qed.

Lemma pad_digits w n : (1 <= w <= 20)%nat -> 0 <= n < 10 ^ Z.of_nat w -> pad w n = digits w n.
Proof.
  intros Hw Hn. unfold pad, format_nat. case_decide as H0.
  - subst n. rewrite digits_zero. cbn [length]. destruct w as [|w]; [lia|]. rewrite Nat.sub_succ, Nat.sub_0_r. symmetry. apply replicate_S_end.
  - destruct (put_digits_drop w 20 n [] Hn) as (k & Hk & -> & Ht); [lia|]. rewrite app_nil_r, length_drop, digits_length.
    replace (w - (w - k))%nat with k by lia. rewrite <- Ht. apply take_drop.
Qed.

Lemma pad_compare w m n : (1 <= w <= 20)%nat -> 0 <= m < 10 ^ Z.of_nat w -> 0 <= n < 10 ^ Z.of_nat w ->
  bytes_compare (pad w m) (pad w n) = Z.compare m n.
Proof. intros Hw Hm Hn. rewrite !pad_digits by done. by apply digits_compare. Qed.

Lemma pad_length w n : (1 <= w <= 20)%nat -> 0 <= n < 10 ^ Z.of_nat w -> length (pad w n) = w.
Proof. intros Hw Hn. rewrite pad_digits by done. apply digits_length. Qed.

(** ** Days *)

(** The year of an era and the day of that year, counted from March. *)
Definition yoe (doe : Z) : Z := (doe - doe / 1460 + doe / 36524 - doe / 146096) / 365.
Definition doy (doe : Z) : Z := doe - (365 * yoe doe + yoe doe / 4 - yoe doe / 100).

Lemma yoe_mono a b : 0 <= a <= b -> b < 146097 -> 0 <= yoe a <= yoe b /\ yoe b <= 399.
Proof. intros Ha Hb. unfold yoe. Z.to_euclidean_division_equations. lia. Qed.

Lemma doy_range a : 0 <= a < 146097 -> 0 <= doy a <= 365.
Proof. intros Ha. unfold doy, yoe. Z.to_euclidean_division_equations. lia. Qed.

(** The month, counted from the March before year 0, and the day of the month. *)
Definition era (days : Z) : Z := (days + 719468) / 146097.
Definition day_of_year (days : Z) : Z := doy ((days + 719468) mod 146097).
Definition month (days : Z) : Z := 12 * (yoe ((days + 719468) mod 146097) + era days * 400) + (5 * day_of_year days + 2) / 153.
Definition day (days : Z) : Z := day_of_year days - (153 * ((5 * day_of_year days + 2) / 153) + 2) / 5 + 1.

Lemma civil_month days y m d : civil days = (y, m, d) -> 12 * y + m = month days + 3 /\ d = day days /\ 1 <= m <= 12 /\ 1 <= d <= 31.
Proof.
  unfold civil. pose proof (Z.mod_pos_bound (days + 719468) 146097 ltac:(lia)) as Hm.
  pose proof (doy_range _ Hm) as Hd. unfold month, day, day_of_year, era.
  change ((((days + 719468) mod 146097) - ((days + 719468) mod 146097) / 1460 + ((days + 719468) mod 146097) / 36524 -
    ((days + 719468) mod 146097) / 146096) / 365) with (yoe ((days + 719468) mod 146097)).
  change ((days + 719468) mod 146097 - (365 * yoe ((days + 719468) mod 146097) + yoe ((days + 719468) mod 146097) / 4 -
    yoe ((days + 719468) mod 146097) / 100)) with (doy ((days + 719468) mod 146097)).
  generalize dependent (doy ((days + 719468) mod 146097)). intros D HD. generalize (yoe ((days + 719468) mod 146097)) as Y.
  generalize ((days + 719468) / 146097) as E. intros E Y.
  assert (0 <= (5 * D + 2) / 153 <= 11) by (Z.to_euclidean_division_equations; lia).
  intros [= <- <- <-]. split_and!; try (repeat case_decide; lia); Z.to_euclidean_division_equations; lia.
Qed.

Lemma month_mono a b : a <= b -> month a <= month b /\ (month a = month b -> a < b -> day a < day b).
Proof.
  intros Hab. unfold month, day, day_of_year, era.
  pose proof (Z.mod_pos_bound (a + 719468) 146097 ltac:(lia)) as Ma. pose proof (Z.mod_pos_bound (b + 719468) 146097 ltac:(lia)) as Mb.
  pose proof (Z.div_mod (a + 719468) 146097 ltac:(lia)) as Ea. pose proof (Z.div_mod (b + 719468) 146097 ltac:(lia)) as Eb.
  assert ((a + 719468) / 146097 <= (b + 719468) / 146097) as Hera by (apply Z.div_le_mono; lia).
  set (A := (a + 719468) mod 146097) in *. set (B := (b + 719468) mod 146097) in *.
  set (P := (a + 719468) / 146097) in *. set (Q := (b + 719468) / 146097) in *.
  pose proof (doy_range A Ma) as Da. pose proof (doy_range B Mb) as Db.
  pose proof (yoe_mono A A ltac:(lia) ltac:(lia)) as Ya. pose proof (yoe_mono B B ltac:(lia) ltac:(lia)) as Yb.
  assert (forall D, 0 <= D <= 365 -> 0 <= (5 * D + 2) / 153 <= 11) as Hmp by (intros; Z.to_euclidean_division_equations; lia).
  pose proof (Hmp _ Da) as Hma. pose proof (Hmp _ Db) as Hmb.
  destruct (decide (P = Q)) as [HPQ|HPQ]; [|split; lia].
  assert (A <= B) as HAB by lia. pose proof (yoe_mono A B ltac:(lia) ltac:(lia)) as [Hy _].
  destruct (decide (yoe A = yoe B)) as [Hyy|Hyy]; [|split; lia].
  assert (doy A <= doy B) as HD by (unfold doy; rewrite Hyy; lia).
  assert ((5 * doy A + 2) / 153 <= (5 * doy B + 2) / 153) as Hmm by (apply Z.div_le_mono; lia).
  split; [lia|]. intros Hk Hlt. assert ((5 * doy A + 2) / 153 = (5 * doy B + 2) / 153) as -> by lia.
  assert (doy A < doy B) by (unfold doy in *; rewrite Hyy in *; lia). lia.
Qed.

(** The days whose year has four digits. *)
Definition max_day : Z := 2932896.

Lemma civil_range days y m d : 0 <= days <= max_day -> civil days = (y, m, d) -> 1970 <= y <= 9999.
Proof.
  intros Hd Hc. destruct (civil_month _ _ _ _ Hc) as (Hm & _ & ? & _).
  destruct (civil_month 0 1970 1 1 eq_refl) as [H0 _]. destruct (civil_month max_day 9999 12 31 eq_refl) as [H1 _].
  destruct (month_mono 0 days) as [? _]; [lia|]. destruct (month_mono days max_day) as [? _]; [lia|]. lia.
Qed.

(** A date as text, and its order. *)
Definition date_text (days : Z) : bytes := let '(y, m, d) := civil days in pad 4 y ++ ch "-" :: pad 2 m ++ ch "-" :: pad 2 d.

Lemma field_compare w m n a b c : (1 <= w <= 20)%nat -> 0 <= m < 10 ^ Z.of_nat w -> 0 <= n < 10 ^ Z.of_nat w ->
  bytes_compare (pad w m ++ c :: a) (pad w n ++ c :: b) = then_compare (Z.compare m n) (bytes_compare a b).
Proof.
  intros Hw Hm Hn. rewrite bytes_compare_app by (by rewrite !pad_length). by rewrite pad_compare, bytes_compare_cons by done.
Qed.

Lemma date_compare a b : 0 <= a <= max_day -> 0 <= b <= max_day -> bytes_compare (date_text a) (date_text b) = Z.compare a b.
Proof.
  assert (forall a b, 0 <= a <= max_day -> 0 <= b <= max_day -> a < b -> bytes_compare (date_text a) (date_text b) = Lt /\
            bytes_compare (date_text b) (date_text a) = Gt) as Hlt.
  { clear a b. intros a b Ha Hb Hab. unfold date_text.
    destruct (civil a) as [[y m] d] eqn:Ca, (civil b) as [[y' m'] d'] eqn:Cb.
    pose proof (civil_range _ _ _ _ Ha Ca) as Hy. pose proof (civil_range _ _ _ _ Hb Cb) as Hy'.
    destruct (civil_month _ _ _ _ Ca) as (Ea & -> & Hm & Hd). destruct (civil_month _ _ _ _ Cb) as (Eb & -> & Hm' & Hd').
    destruct (month_mono a b) as [Hle Heq]; [lia|].
    rewrite !field_compare, !pad_compare by (change (10 ^ Z.of_nat 4) with 10000; change (10 ^ Z.of_nat 2) with 100; lia).
    unfold then_compare.
    destruct (Z.compare_spec y y') as [->|?|?]; [|rewrite (proj2 (Z.compare_gt_iff y' y)) by lia; done|lia].
    rewrite Z.compare_refl.
    destruct (Z.compare_spec m m') as [->|?|?]; [|rewrite (proj2 (Z.compare_gt_iff m' m)) by lia; done|lia].
    rewrite Z.compare_refl. split; [apply Z.compare_lt_iff|apply Z.compare_gt_iff]; apply Heq; lia. }
  intros Ha Hb. destruct (Z.compare_spec a b) as [->|?|?]; [apply bytes_compare_refl|by apply Hlt|by apply Hlt].
Qed.

(** The instants up to the end of the year 9999. *)
Definition max_instant : Z := 253402300800 * 1000000000.
Definition second_of (ns : Z) : Z := ns / 1000000000.

Lemma date_length days : 0 <= days <= max_day -> length (date_text days) = 10%nat.
Proof.
  intros Hd. unfold date_text. destruct (civil days) as [[y m] d] eqn:C.
  pose proof (civil_range _ _ _ _ Hd C). destruct (civil_month _ _ _ _ C) as (_ & -> & ? & ?).
  rewrite length_app. cbn [length]. rewrite length_app. cbn [length].
  rewrite !pad_length by (try change (10 ^ Z.of_nat 4) with 10000; try change (10 ^ Z.of_nat 2) with 100; lia). done.
Qed.

(** Texts of instants compare as their seconds. *)
Theorem RFC3339_compare (a b : Z) : 0 <= a < max_instant -> 0 <= b < max_instant ->
  bytes_compare (RFC3339 a) (RFC3339 b) = Z.compare (second_of a) (second_of b).
Proof.
  assert (forall t, RFC3339 t = date_text (second_of t / 86400) ++ ch "T" :: pad 2 (second_of t mod 86400 / 3600) ++ ch ":" ::
            pad 2 (second_of t mod 86400 mod 3600 / 60) ++ ch ":" :: pad 2 (second_of t mod 86400 mod 60) ++ [ch "Z"]) as E.
  { intros t. unfold RFC3339, date_text, second_of. destruct (civil _) as [[y m] d]. rewrite <- !app_assoc. cbn. by rewrite <- !app_assoc. }
  intros Ha Hb. rewrite !E. clear E. unfold max_instant in *.
  assert (0 <= second_of a < 253402300800) as Ra by (unfold second_of; split; [apply Z.div_pos|apply Z.div_lt_upper_bound]; lia).
  assert (0 <= second_of b < 253402300800) as Rb by (unfold second_of; split; [apply Z.div_pos|apply Z.div_lt_upper_bound]; lia).
  generalize dependent (second_of a). generalize dependent (second_of b). intros s Hs t Ht.
  assert (forall u, 0 <= u < 253402300800 -> 0 <= u / 86400 <= max_day) as Hday.
  { intros u Hu. pose proof (Z.div_lt_upper_bound u 86400 2932897 ltac:(lia) ltac:(lia)). unfold max_day. split; [apply Z.div_pos|]; lia. }
  pose proof (Hday _ Hs). pose proof (Hday _ Ht).
  rewrite bytes_compare_app by (by rewrite !date_length). rewrite date_compare, bytes_compare_cons by done.
  assert (forall u, u = u / 86400 * 86400 + (u mod 86400 / 3600) * 3600 + (u mod 86400 mod 3600 / 60) * 60 + u mod 86400 mod 60 /\
    0 <= u mod 86400 / 3600 < 24 /\ 0 <= u mod 86400 mod 3600 / 60 < 60 /\ 0 <= u mod 86400 mod 60 < 60) as Hsplit.
  { intros u. Z.to_euclidean_division_equations. lia. }
  destruct (Hsplit t) as (Et & ? & ? & ?), (Hsplit s) as (Es & ? & ? & ?).
  change [ch "Z"] with (ch "Z" :: []). rewrite !field_compare by (change (10 ^ Z.of_nat 2) with 100; lia).
  rewrite Et at 5. rewrite Es at 5.
  clear Et Es Hsplit. unfold then_compare.
  repeat (match goal with |- context [match Z.compare ?x ?y with _ => _ end] =>
    destruct (Z.compare_spec x y) end; [|symmetry; apply Z.compare_lt_iff; lia|symmetry; apply Z.compare_gt_iff; lia]).
  cbn. symmetry. apply Z.compare_eq_iff. lia.
Qed.

(** ** Reading an instant back: [time.Parse(time.RFC3339, s)]

    of the form in UTC without a fraction, the only one the tables hold. *)

(** The number of days since 1970 of a civil date. *)
Definition days_of (y m d : Z) : Z :=
  let y := if decide (m <= 2) then y - 1 else y in
  let mp := if decide (2 < m) then m - 3 else m + 9 in
  y / 400 * 146097 + (y mod 400 * 365 + y mod 400 / 4 - y mod 400 / 100 + ((153 * mp + 2) / 5 + d - 1)) - 719468.

Fixpoint field_value (acc : Z) (s : bytes) : option Z :=
  match s with [] => Some acc | c :: r => d ← digit_value c; field_value (10 * acc + d) r end.
Definition field (w : nat) (s : bytes) : option (Z * bytes) :=
  if decide (length (take w s) = w) then n ← field_value 0 (take w s); Some (n, drop w s) else None.
Definition sep (c : byte) (s : bytes) : option bytes := match s with x :: r => if decide (x = c) then Some r else None | [] => None end.

Definition parse_RFC3339 (s : bytes) : option Z :=
  '(y, s) ← field 4 s; s ← sep (ch "-") s; '(m, s) ← field 2 s; s ← sep (ch "-") s; '(d, s) ← field 2 s; s ← sep (ch "T") s;
  '(hh, s) ← field 2 s; s ← sep (ch ":") s; '(mm, s) ← field 2 s; s ← sep (ch ":") s; '(ss, s) ← field 2 s; s ← sep (ch "Z") s;
  if decide (s = [] /\ civil (days_of y m d) = (y, m, d) /\ hh < 24 /\ mm < 60 /\ ss < 60)
  then Some ((days_of y m d * 86400 + hh * 3600 + mm * 60 + ss) * 1000000000) else None.

Lemma days_of_civil days y m d : civil days = (y, m, d) -> days_of y m d = days.
Proof.
  pose proof (Z.mod_pos_bound (days + 719468) 146097 ltac:(lia)) as Hr. pose proof (Z.div_mod (days + 719468) 146097 ltac:(lia)) as Hdm.
  pose proof (yoe_mono _ _ (conj (proj1 Hr) (Z.le_refl _)) (proj2 Hr)) as Hy. pose proof (doy_range _ Hr) as Hd.
  unfold civil. fold (yoe ((days + 719468) mod 146097)). unfold doy in Hd.
  set (doe := (days + 719468) mod 146097) in *. set (e := (days + 719468) / 146097) in *.
  set (dy := doe - (365 * yoe doe + yoe doe / 4 - yoe doe / 100)) in *.
  assert (0 <= (5 * dy + 2) / 153 <= 11) as Hmp by (Z.to_euclidean_division_equations; lia).
  set (mp := (5 * dy + 2) / 153) in *. intros [= <- <- <-]. unfold days_of.
  assert ((yoe doe + e * 400) / 400 = e) as E1 by (rewrite Z.div_add by lia; rewrite Z.div_small by lia; lia).
  assert ((yoe doe + e * 400) mod 400 = yoe doe) as E2 by (rewrite Z.mod_add by lia; apply Z.mod_small; lia).
  assert (forall a b, a = yoe doe + e * 400 -> b = mp ->
    a / 400 * 146097 + (a mod 400 * 365 + a mod 400 / 4 - a mod 400 / 100 + ((153 * b + 2) / 5 + (dy - (153 * mp + 2) / 5 + 1) - 1)) - 719468 = days) as Hgo.
  { intros ? ? -> ->. rewrite E1, E2. lia. }
  apply Hgo; repeat case_decide; lia.
Qed.

Lemma field_value_app acc a b : field_value acc (a ++ b) = (n ← field_value acc a; field_value n b).
Proof. revert acc. induction a as [|c a IH]; intros acc; cbn; [done|]. destruct (digit_value c); cbn; [apply IH|done]. Qed.

Lemma field_value_digits w : forall n, 0 <= n < 10 ^ Z.of_nat w -> field_value 0 (digits w n) = Some n.
Proof.
  induction w as [|w IH]; intros n Hn; cbn [digits]; [cbn in *; f_equal; lia|].
  rewrite Nat2Z.inj_succ, Z.pow_succ_r in Hn by lia.
  rewrite field_value_app, IH by (Z.to_euclidean_division_equations; lia). cbn.
  rewrite digit_value_put by (apply Z.mod_pos_bound; lia). cbn. f_equal. Z.to_euclidean_division_equations. lia.
Qed.

Lemma field_pad w n r : (1 <= w <= 20)%nat -> 0 <= n < 10 ^ Z.of_nat w -> field w (pad w n ++ r) = Some (n, r).
Proof.
  intros Hw Hn. unfold field. rewrite pad_digits by done. rewrite take_app_length', drop_app_length' by (by rewrite digits_length).
  rewrite decide_True by apply digits_length. by rewrite field_value_digits.
Qed.

Lemma sep_cons c r : sep c (c :: r) = Some r.
Proof. cbn. by rewrite decide_True. Qed.

(** An instant is read back to the second. *)
Lemma parse_RFC3339_format t : 0 <= t < max_instant -> parse_RFC3339 (RFC3339 t) = Some (second_of t * 1000000000).
Proof.
  intros Ht. unfold RFC3339, max_instant in *. fold (second_of t).
  assert (0 <= second_of t < 253402300800) as R by (unfold second_of; split; [apply Z.div_pos|apply Z.div_lt_upper_bound]; lia).
  assert (0 <= second_of t / 86400 <= max_day) as Hd by (unfold max_day; Z.to_euclidean_division_equations; lia).
  destruct (civil (second_of t / 86400)) as [[y m] d] eqn:C. pose proof (civil_range _ _ _ _ Hd C) as Hy.
  destruct (civil_month _ _ _ _ C) as (_ & _ & Hm & Hdd).
  assert (0 <= second_of t mod 86400 / 3600 < 24 /\ 0 <= second_of t mod 86400 mod 3600 / 60 < 60 /\ 0 <= second_of t mod 86400 mod 60 < 60 /\
    second_of t = second_of t / 86400 * 86400 + (second_of t mod 86400 / 3600) * 3600 + (second_of t mod 86400 mod 3600 / 60) * 60 + second_of t mod 86400 mod 60)
    as (H1 & H2 & H3 & E) by (Z.to_euclidean_division_equations; lia).
  unfold parse_RFC3339.
  rewrite field_pad by (change (10 ^ Z.of_nat 4) with 10000; lia). cbn [mbind option_bind]. rewrite sep_cons. cbn [mbind option_bind].
  do 5 (rewrite field_pad by (change (10 ^ Z.of_nat 2) with 100; lia); cbn [mbind option_bind]; rewrite sep_cons; cbn [mbind option_bind]).
  rewrite (days_of_civil _ _ _ _ C), C, decide_True by (split_and!; [done|done|lia|lia|lia]). f_equal. lia.
Qed.
