(* ===== verification/Stores.v ===== *)
(** * Logs and metrics on disk

    pkg/observability/store: log_store.go and metric_store.go; logs.go, the fan-out of
    log lines to subscribers and to the log store; and the queries of
    manager/observability.go over both stores.

    A table is a list of rows, or a map where it has a primary key, and a statement is
    what SQL says it does to them; a transaction is all or nothing.  In which order
    rows of equal rank are returned is the engine's: [arrange] is any function that
    sorts.  The log store leaves the text of an instant to the driver (class
    [LogDriver]), which writes the wall clock of the zone the instant is in; the metric
    store writes RFC 3339 in UTC itself.  Rates are exact rationals. *)
From Stdlib Require Import ZArith QArith_base Lia Strings.String.
From stdpp Require Import base gmap list numbers option sorting.
From S2P Require Import Prelude Format Calendar Tracker.
#[local] Close Scope Q_scope.
#[local] Open Scope Z_scope.

(** ** Searching: [LIKE ... ESCAPE '\']

    The pattern language of SQL: [%] stands for any text, [_] for one character, the
    escaped character for itself, and letters are compared without case (ASCII). *)

Inductive pattern := PAny | POne | PChar (c : byte).

Definition escape : byte := ch "\".
Fixpoint parse_pattern (s : bytes) : list pattern :=
  match s with
  | [] => []
  | c :: r =>
      if decide (c = escape) then match r with d :: r => PChar d :: parse_pattern r | [] => [] end
      else (if decide (c = ch "%") then PAny else if decide (c = ch "_") then POne else PChar c) :: parse_pattern r
  end.

(** The rest of a text after its first character, in UTF-8. *)
Definition continuation (c : byte) : bool := bool_decide (128 <= bval c < 192).
Fixpoint skip_continuation (s : bytes) : bytes :=
  match s with c :: r => if continuation c then skip_continuation r else s | [] => [] end.

Definition fold_eq (a b : byte) : bool := bool_decide (ascii_lower_byte a = ascii_lower_byte b).

Fixpoint like (p : list pattern) (s : bytes) : bool :=
  match p with
  | [] => bool_decide (s = [])
  | PChar c :: p => match s with d :: r => fold_eq c d && like p r | [] => false end
  | POne :: p => match s with _ :: r => like p (skip_continuation r) | [] => false end
  | PAny :: p => (fix any (s : bytes) : bool := like p s || match s with _ :: r => any r | [] => false end) s
  end.

(** [escapeLike]: the replacer replaces byte by byte. *)
Definition escape_byte (c : byte) : bytes :=
  if decide (c = ch "\" \/ c = ch "%" \/ c = ch "_") then [escape; c] else [c].
Definition escapeLike (s : bytes) : bytes := concat (map escape_byte s).

(** ** The log store *)

Record LogEntry := { l_Timestamp : option Z; l_Level : bytes; l_Message : bytes; l_Attributes : option (gmap bytes bytes) }.
Record LogFilter := { StartTime : option Z; EndTime : option Z; f_Level : bytes; Search : bytes; Limit : Z; Offset : Z }.

(** The driver's columns: an instant is written with the offset of its zone; JSON of the
    attributes ([carried] are the maps JSON carries unchanged, those of UTF-8 texts). *)
Class LogDriver := {
  column : Type; write_time : Z -> Z -> column; read_time : column -> Z; col_le : column -> column -> bool;
  marshal : gmap bytes bytes -> option bytes; unmarshal : bytes -> option (gmap bytes bytes); carried : gmap bytes bytes -> bool
}.

(** What is relied on: instants are read back; texts compare as wall clocks; attributes
    that JSON carries are read back, and only the empty map is the text [{}]. *)
Class LogDriverLaws (D : LogDriver) : Prop := {
  read_write t o : read_time (write_time t o) = t;
  le_refl c : col_le c c = true;
  le_wall t o t' o' : t + o < t' + o' -> col_le (write_time t o) (write_time t' o') = true /\ col_le (write_time t' o') (write_time t o) = false;
  marshal_carried m : carried m = true -> m <> ∅ -> exists s, marshal m = Some s /\ unmarshal s = Some m /\ s <> [] /\ s <> bs "{}"
}.

Section LogStore.
Context `{LogDriver}.

Record log_row := { r_timestamp : column; r_level : bytes; r_message : bytes; r_attributes : bytes }.

(** [encodeAttrs] and [decodeAttrs]; a nil map is [None]. *)
Definition encodeAttrs (attrs : option (gmap bytes bytes)) : bytes :=
  let m := default ∅ attrs in if decide (m = ∅) then bs "{}" else default (bs "{}") (marshal m).
Definition decodeAttrs (raw : bytes) : option (gmap bytes bytes) :=
  if decide (raw = [] \/ raw = bs "{}") then None else unmarshal raw.

Definition row_of (now offset : Z) (e : LogEntry) : log_row :=
  {| r_timestamp := match l_Timestamp e with Some t => write_time t 0 | None => write_time now offset end;
     r_level := l_Level e; r_message := l_Message e; r_attributes := encodeAttrs (l_Attributes e) |}.

(** What a transaction meets: it begins, the statement is prepared, each insertion
    succeeds, it commits. *)
Record tx := { begins : bool; prepares : bool; inserts : nat -> bool; commits : bool }.

Definition insert_all (t : tx) (entries : list (option LogEntry)) : bool :=
  forallb id (imap (fun i e => match e with Some _ => inserts t i | None => true end) entries).

(** [AppendBatch] and [Append]; a nil entry is skipped. *)
Definition AppendBatch (t : tx) (now offset : Z) (rows : list log_row) (entries : list (option LogEntry)) : bool * list log_row :=
  if decide (entries = []) then (true, rows)
  else if begins t && prepares t && insert_all t entries && commits t
  then (true, rows ++ map (row_of now offset) (omap id entries))
  else (false, rows).
Definition log_Append (t : tx) (now offset : Z) (rows : list log_row) (entry : LogEntry) : bool * list log_row :=
  AppendBatch t now offset rows [Some entry].

(** The WHERE clause [GetLogs] builds. *)
Definition matches (f : LogFilter) (r : log_row) : bool :=
  match StartTime f with Some t => col_le (write_time t 0) (r_timestamp r) | None => true end &&
  match EndTime f with Some t => col_le (r_timestamp r) (write_time t 0) | None => true end &&
  (bool_decide (f_Level f = []) || bool_decide (r_level r = f_Level f)) &&
  (bool_decide (Search f = []) || like (parse_pattern (ch "%" :: escapeLike (Search f) ++ [ch "%"])) (r_message r)).

Definition entry_of (r : log_row) : LogEntry :=
  {| l_Timestamp := Some (read_time (r_timestamp r)); l_Level := r_level r; l_Message := r_message r;
     l_Attributes := decodeAttrs (r_attributes r) |}.

(** ORDER BY timestamp DESC, as the engine does it. *)
Class LogOrder := { arrange : list log_row -> list log_row }.
Class LogOrderLaws (A : LogOrder) : Prop := {
  arrange_perm l : arrange l ≡ₚ l;
  arrange_sorted l : StronglySorted (fun a b => col_le (r_timestamp b) (r_timestamp a) = true) (arrange l)
}.

(** [GetLogs] of the store, and of the API. *)
Definition store_limit (limit : Z) : Z := if decide (limit <= 0 \/ 1000 < limit) then 1000 else limit.
Definition store_GetLogs `{LogOrder} (rows : list log_row) (f : LogFilter) : list LogEntry * Z :=
  let found := filter (fun r => matches f r = true) rows in
  (map entry_of (take (Z.to_nat (store_limit (Limit f))) (drop (Z.to_nat (Offset f)) (arrange found))), zlen found).

Definition GetLogs `{LogOrder} (store : option (list log_row)) (f : LogFilter) : result bytes (list LogEntry * Z) :=
  match store with
  | None => Err (bs "log store not initialized")
  | Some rows =>
      let f := {| StartTime := StartTime f; EndTime := EndTime f; f_Level := f_Level f; Search := Search f;
                  Limit := if decide (Limit f <= 0) then 50 else Limit f; Offset := Offset f |} in
      let '(entries, total) := store_GetLogs rows f in Ok (entries, i32 total)
  end.

(** [Prune]; [StartPruner] gives it an instant of the local zone. *)
Definition log_Prune (rows : list log_row) (olderThan offset : Z) : list log_row * Z :=
  let keep := filter (fun r => col_le (write_time olderThan offset) (r_timestamp r) = true) rows in
  (keep, zlen rows - zlen keep).
Definition pruner_tick (rows : list log_row) (now offset retention : Z) : list log_row := fst (log_Prune rows (now - retention) offset).

End LogStore.
Arguments log_row : clear implicits.
Arguments log_row {_}.

(** ** Searching finds the text and nothing else *)

(** A text occurs in another, letters compared without case. *)
Definition occurs (s m : bytes) : Prop :=
  exists pre mid post, m = pre ++ mid ++ post /\ map ascii_lower_byte mid = map ascii_lower_byte s.

Lemma parse_escaped s r : parse_pattern (escapeLike s ++ r) = map PChar s ++ parse_pattern r.
Proof.
  unfold escapeLike. induction s as [|c s IH]; [done|]. cbn [map concat]. unfold escape_byte at 1. case_decide as E; cbn -[escape].
  - rewrite decide_True by done. cbn. by rewrite IH.
  - unfold escape. rewrite !decide_False by tauto. by rewrite IH.
Qed.

Lemma like_chars s p m : like (map PChar s ++ p) m = true <->
  exists mid post, m = mid ++ post /\ map ascii_lower_byte mid = map ascii_lower_byte s /\ like p post = true.
Proof.
  revert m. induction s as [|c s IH]; intros m; cbn.
  { split; [intros Hm; by exists [], m|]. intros (mid & post & -> & Hf & Hp). by destruct mid. }
  destruct m as [|d m]; [split; [done|]; intros (mid & post & E & Hf & _); by destruct mid|].
  unfold fold_eq. rewrite andb_true_iff, bool_decide_eq_true, IH. split.
  - intros (Hc & mid & post & -> & Hf & Hp). exists (d :: mid), post. cbn. by rewrite Hc, Hf.
  - intros (mid & post & E & Hf & Hp). destruct mid as [|d' mid]; [done|]. cbn in E, Hf. simplify_eq. split; [done|]. by exists mid, post.
Qed.

Lemma like_any p m : like (PAny :: p) m = true <-> exists pre post, m = pre ++ post /\ like p post = true.
Proof.
  cbn. induction m as [|c m IH].
  { rewrite orb_false_r. split; [intros Hp; by exists [], []|]. intros (pre & post & E & Hp). symmetry in E. apply app_eq_nil in E as [-> ->]. done. }
  rewrite orb_true_iff, IH. split.
  - intros [Hp|(pre & post & -> & Hp)]; [by exists [], (c :: m)|by exists (c :: pre), post].
  - intros (pre & post & E & Hp). destruct pre as [|c' pre]; cbn in E; simplify_eq; [by left|]. right. by exists pre, post.
Qed.

(** Wildcards and backslashes in what an operator searches for stand for themselves. *)
Theorem search_is_literal (s m : bytes) : like (parse_pattern (ch "%" :: escapeLike s ++ [ch "%"])) m = true <-> occurs s m.
Proof.
  assert (parse_pattern (ch "%" :: escapeLike s ++ [ch "%"]) = PAny :: map PChar s ++ [PAny]) as ->.
  { change (parse_pattern (ch "%" :: escapeLike s ++ [ch "%"])) with (PAny :: parse_pattern (escapeLike s ++ [ch "%"])).
    by rewrite parse_escaped. }
  rewrite like_any. unfold occurs. split.
  - intros (pre & post & -> & Hp). apply like_chars in Hp as (mid & post' & -> & Hf & _). by exists pre, mid, post'.
  - intros (pre & mid & post & -> & Hf). exists pre, (mid ++ post). split; [done|]. apply like_chars. exists mid, post. split_and!; [done|done|].
    apply like_any. exists post, []. by rewrite app_nil_r.
Qed.

#[global] Instance occurs_dec s m : Decision (occurs s m).
Proof.
  destruct (like (parse_pattern (ch "%" :: escapeLike s ++ [ch "%"])) m) eqn:E; [left; by apply search_is_literal|].
  right. intros H%search_is_literal. congruence.
Defined.

(** ** Queries over the log *)

#[global] Instance bound_dec (P : Z -> Z -> Prop) `{forall a t, Decision (P a t)} (o o' : option Z) :
  Decision (forall a t, o = Some a -> o' = Some t -> P a t).
Proof.
  destruct o as [a|], o' as [t|]; try (left; intros ? ? [=] [=]; fail).
  destruct (decide (P a t)) as [Hp|Hp]; [left; by intros ? ? [= <-] [= <-]|right; intros Hf; by apply Hp, Hf].
Defined.

Section LogTheorems.
Context {HD : LogDriver} {HL : LogDriverLaws HD} {HO : LogOrder} {HOL : LogOrderLaws HO}.

(** An entry as it is read back: a nil map and an empty one are the same. *)
Definition normal (e : LogEntry) : LogEntry := {| l_Timestamp := l_Timestamp e; l_Level := l_Level e; l_Message := l_Message e;
  l_Attributes := match l_Attributes e with Some m => if decide (m = ∅) then None else Some m | None => None end |}.

(** An entry of the handler: it has a timestamp, and attributes JSON carries. *)
Definition recorded (e : LogEntry) : Prop := is_Some (l_Timestamp e) /\ carried (default ∅ (l_Attributes e)) = true.

(** What the filter asks for, of an entry. *)
Definition wanted (f : LogFilter) (e : LogEntry) : Prop :=
  (forall a t, StartTime f = Some a -> l_Timestamp e = Some t -> a <= t) /\
  (forall b t, EndTime f = Some b -> l_Timestamp e = Some t -> t <= b) /\
  (f_Level f = [] \/ l_Level e = f_Level f) /\ (Search f = [] \/ occurs (Search f) (l_Message e)).

#[global] Instance wanted_dec f e : Decision (wanted f e).
Proof. unfold wanted. apply _. Defined.

(** What is in the store after some batches: of each, the transaction it met and the
    clock, and whether [AppendBatch] reported success. *)
Definition batch : Type := tx * Z * Z * list LogEntry.
Definition stored_rows (l : list batch) : list log_row :=
  foldl (fun rows '(t, now, offset, es) => snd (AppendBatch t now offset rows (map Some es))) [] l.
Definition reported_stored (b : batch) : list LogEntry :=
  let '(t, now, offset, es) := b in if fst (AppendBatch t now offset [] (map Some es)) then es else [].
Definition stored_entries (l : list batch) : list LogEntry := concat (map reported_stored l).

Lemma attrs_roundtrip e : recorded e -> decodeAttrs (encodeAttrs (l_Attributes e)) = l_Attributes (normal e).
Proof.
  destruct e as [t l msg [m|]]; [|done]. intros [_ Hc]. unfold encodeAttrs, normal. cbn [l_Attributes] in *.
  change (default ∅ (Some m)) with m in *. destruct (decide (m = ∅)) as [->|Hm]; [done|].
  destruct (marshal_carried m Hc Hm) as (s & -> & Hu & Hs1 & Hs2). unfold decodeAttrs. simpl default.
  destruct (decide (s = [] \/ s = bs "{}")) as [[?|?]|]; done.
Qed.

Lemma entry_row now offset e : recorded e -> entry_of (row_of now offset e) = normal e.
Proof.
  intros He. pose proof (attrs_roundtrip e He) as Ha. destruct He as [[t Ht] _]. unfold entry_of, normal. cbn. rewrite Ht, read_write. by f_equal.
Qed.

Lemma utc_le t t' : col_le (write_time t 0) (write_time t' 0) = bool_decide (t <= t').
Proof.
  destruct (Z.lt_trichotomy t t') as [Hlt|[->|Hlt]].
  - rewrite (proj1 (le_wall t 0 t' 0 ltac:(lia))). symmetry. apply bool_decide_eq_true. lia.
  - rewrite le_refl. symmetry. apply bool_decide_eq_true. lia.
  - rewrite (proj2 (le_wall t' 0 t 0 ltac:(lia))). symmetry. apply bool_decide_eq_false. lia.
Qed.

Lemma matches_wanted now offset f e : recorded e -> matches f (row_of now offset e) = true <-> wanted f e.
Proof.
  intros [[t Ht] _]. unfold matches, wanted, row_of. cbn [r_timestamp r_level r_message]. rewrite Ht, !andb_true_iff, !orb_true_iff, !bool_decide_eq_true, search_is_literal.
  assert (match StartTime f with Some a => col_le (write_time a 0) (write_time t 0) | None => true end = true <->
          forall a t', StartTime f = Some a -> Some t = Some t' -> a <= t') as ->.
  { destruct (StartTime f) as [a|]; [|split; [intros _ a t' [=]|done]]. rewrite utc_le, bool_decide_eq_true.
    split; [by intros Hle a' t' [= <-] [= <-]|]. intros Hf. by apply (Hf a t). }
  assert (match EndTime f with Some b => col_le (write_time t 0) (write_time b 0) | None => true end = true <->
          forall b t', EndTime f = Some b -> Some t = Some t' -> t' <= b) as ->.
  { destruct (EndTime f) as [b|]; [|split; [intros _ a t' [=]|done]]. rewrite utc_le, bool_decide_eq_true.
    split; [by intros Hle a' t' [= <-] [= <-]|]. intros Hf. by apply (Hf b t). }
  tauto.
Qed.

Definition newest_first (l : list LogEntry) : Prop :=
  StronglySorted (fun a b => forall x y, l_Timestamp a = Some x -> l_Timestamp b = Some y -> y <= x) l.

Lemma StronglySorted_fmap_in {A B : Type} (R : A -> A -> Prop) (S : B -> B -> Prop) (f : A -> B) l :
  (forall a b, a ∈ l -> b ∈ l -> R a b -> S (f a) (f b)) -> StronglySorted R l -> StronglySorted S (map f l).
Proof.
  intros HRS Hl. induction Hl as [|a l Hl IH Ha]; cbn; constructor.
  - apply IH. intros x y Hx Hy. apply HRS; by constructor.
  - apply Forall_fmap. rewrite list.Forall_forall in Ha |- *. intros b Hb. apply HRS; [constructor|by constructor|by apply Ha].
Qed.

Lemma row_recorded now offset e : recorded e -> row_of now offset e = row_of 0 0 e.
Proof. intros [[t Ht] _]. unfold row_of. by rewrite Ht. Qed.

Lemma append_batch t now offset rows es : Forall recorded es ->
  snd (AppendBatch t now offset rows (map Some es)) = rows ++ map (row_of 0 0) (reported_stored (t, now, offset, es)).
Proof.
  intros He. unfold reported_stored, AppendBatch. case_decide as E.
  { apply map_eq_nil in E as ->. cbn. by rewrite app_nil_r. }
  destruct (begins t && prepares t && insert_all t (map Some es) && commits t); cbn; [|by rewrite app_nil_r]. f_equal.
  assert (omap id (map Some es) = es) as -> by (clear; induction es as [|e es IH]; cbn; [done|by f_equal]).
  clear E. induction He as [|e es Hr He IH]; cbn; [done|]. by rewrite (row_recorded now offset e Hr), IH.
Qed.

Lemma stored_rows_entries l : Forall (fun b => Forall recorded (snd b)) l -> stored_rows l = map (row_of 0 0) (stored_entries l).
Proof.
  unfold stored_rows, stored_entries. intros Hl.
  assert (forall rows, foldl (fun rows '(t, now, offset, es) => snd (AppendBatch t now offset rows (map Some es))) rows l
    = rows ++ map (row_of 0 0) (concat (map reported_stored l))) as H by
    (induction Hl as [|[[[t now] offset] es] l He Hl IH]; intros rows; cbn [foldl map concat]; [by rewrite app_nil_r|];
     rewrite append_batch by exact He; by rewrite IH, map_app, <- app_assoc).
  apply H.
Qed.

Lemma stored_recorded l : Forall (fun b => Forall recorded (snd b)) l -> Forall recorded (stored_entries l).
Proof.
  unfold stored_entries. induction 1 as [|[[[t now] offset] es] l He Hl IH]; cbn; [done|]. apply Forall_app. split; [|done]. by destruct (fst _).
Qed.

(** What the statement finds are the entries that are wanted. *)
Lemma hits_wanted f es : Forall recorded es ->
  map entry_of (filter (fun r => matches f r = true) (map (row_of 0 0) es)) = map normal (filter (wanted f) es).
Proof.
  induction 1 as [|e es He Hes IH]; [done|]. cbn [map]. rewrite !filter_cons. pose proof (matches_wanted 0 0 f e He) as Hm.
  destruct (decide (wanted f e)) as [Hw|Hw]; [rewrite decide_True by by apply Hm|rewrite decide_False by by rewrite Hm]; [|exact IH].
  cbn [map]. by rewrite (entry_row 0 0 e He), IH.
Qed.

(** C40: A query answers with the number of the stored entries that are wanted, and with
    the part asked for, at most a thousand, of exactly those entries, newest first; each
    is what was appended.  The stored entries are those of the batches that were reported
    as stored: none of a batch that was not. *)
Theorem log_query_exact (batches : list batch) (f : LogFilter) :
  Forall (fun b => Forall recorded (snd b)) batches ->
  exists found, (found ≡ₚ map normal (filter (wanted f) (stored_entries batches))) /\ newest_first found /\
    store_GetLogs (stored_rows batches) f = (take (Z.to_nat (store_limit (Limit f))) (drop (Z.to_nat (Offset f)) found), zlen found).
Proof.
  intros Hb. rewrite (stored_rows_entries _ Hb). pose proof (stored_recorded _ Hb) as He. set (es := stored_entries batches) in *. clearbody es.
  set (hit := filter (fun r => matches f r = true) (map (row_of 0 0) es)).
  exists (map entry_of (arrange hit)). split_and!.
  - rewrite <- (hits_wanted f es He). apply Permutation_map, arrange_perm.
  - eapply StronglySorted_fmap_in; [|apply arrange_sorted].
    assert (forall r, r ∈ arrange hit -> exists x, recorded x /\ r = row_of 0 0 x) as Hin.
    { intros r. rewrite (arrange_perm hit). unfold hit. rewrite list_elem_of_filter, list_elem_of_fmap. intros [_ (x & -> & Hx)].
      rewrite list.Forall_forall in He. exists x. auto. }
    intros a b Ha Hb' Hle x y. apply Hin in Ha as (xa & Hxa & ->). apply Hin in Hb' as (xb & Hxb & ->).
    rewrite !entry_row by done. cbn. intros Hx Hy. revert Hle. cbn. rewrite Hx, Hy, utc_le, bool_decide_eq_true. done.
  - unfold store_GetLogs. fold hit. unfold zlen. rewrite !length_fmap, (Permutation_length (arrange_perm hit)).
    f_equal. etransitivity; [apply fmap_take|]. f_equal. apply fmap_drop.
Qed.
End LogTheorems.

(** ** The metric store

    [metrics_history] has the text of the instant as its key; [counters] has the name.
    An aggregate query groups the rows by statement. *)

Record TopQuery := { tq_Query : bytes; tq_Count : Z; tq_TotalTimeMs : Z; tq_MaxTimeMs : Z; tq_AvgTimeMs : Z; tq_LastSeen : Z; tq_ErrorCount : Z }.
Record top_row := { t_timestamp : bytes; t_query : bytes; t_count : Z; t_total : Z; t_max : Z; t_errors : Z; t_last : bytes }.
Record sample := { s_rps : Q; s_error_rate : Q; s_latency : Q }.
Record MetricStore := { metrics_history : gmap bytes sample; top_queries_history : list top_row; counters : gmap bytes Z }.

(** [initMetricSchema] of a new file. *)
Definition initMetricSchema : MetricStore := {| metrics_history := ∅; top_queries_history := []; counters := ∅ |}.

Definition SaveCounters (s : MetricStore) (totalRequests totalErrors : Z) : MetricStore :=
  {| metrics_history := metrics_history s; top_queries_history := top_queries_history s;
     counters := <[bs "total_errors" := totalErrors]> (<[bs "total_requests" := totalRequests]> (counters s)) |}.

Definition LoadCounters (s : MetricStore) : Z * Z :=
  (default 0 (counters s !! bs "total_requests"), default 0 (counters s !! bs "total_errors")).

Definition SaveSnapshot (s : MetricStore) (snap : MetricSnapshot) : MetricStore :=
  {| metrics_history := <[RFC3339 (Timestamp snap) := {| s_rps := RPS snap; s_error_rate := snap_ErrorRate snap; s_latency := Latency snap |}]> (metrics_history s);
     top_queries_history := top_queries_history s; counters := counters s |}.

(** Texts compare as [memcmp] does (the BINARY collation). *)
Definition text_le (a b : bytes) : Prop := bytes_compare a b <> Gt.
#[global] Instance text_le_dec a b : Decision (text_le a b).
Proof. unfold text_le. apply _. Defined.
Definition between (start end_ : Z) (ts : bytes) : Prop := text_le (RFC3339 start) ts /\ text_le ts (RFC3339 end_).
#[global] Instance between_dec a b ts : Decision (between a b ts).
Proof. unfold between. apply _. Defined.

(** [GetHistory]: [None] where a timestamp does not scan. *)
Definition by_text (a b : bytes * sample) : Prop := text_le (fst a) (fst b).
#[global] Instance by_text_dec a b : Decision (by_text a b).
Proof. unfold by_text. apply _. Defined.
Definition snapshot_of (r : bytes * sample) : option MetricSnapshot :=
  ts ← parse_RFC3339 (fst r);
  Some {| Timestamp := ts; RPS := s_rps (snd r); snap_ErrorRate := s_error_rate (snd r); Latency := s_latency (snd r) |}.
Definition GetHistory (s : MetricStore) (start end_ : Z) : option (list MetricSnapshot) :=
  mapM snapshot_of (merge_sort by_text (filter (fun r => between start end_ (fst r)) (map_to_list (metrics_history s)))).

(** [SaveTopQueries]. *)
Definition top_row_of (now : Z) (q : TopQuery) : top_row :=
  {| t_timestamp := RFC3339 now; t_query := tq_Query q; t_count := tq_Count q; t_total := tq_TotalTimeMs q; t_max := tq_MaxTimeMs q;
     t_errors := tq_ErrorCount q; t_last := RFC3339 (tq_LastSeen q) |}.
Definition SaveTopQueries (t : tx) (now : Z) (s : MetricStore) (stats : list TopQuery) : bool * MetricStore :=
  if begins t && prepares t && forallb id (imap (fun i _ => inserts t i) stats) && commits t
  then (true, {| metrics_history := metrics_history s; top_queries_history := top_queries_history s ++ map (top_row_of now) stats; counters := counters s |})
  else (false, s).

(** The groups of GROUP BY, and what is computed of one. *)
Definition sum_of (f : top_row -> Z) (g : list top_row) : Z := foldr (fun r n => f r + n) 0 g.
Definition max_of (f : top_row -> Z) (g : list top_row) : Z := match g with [] => 0 | r :: g => foldr (fun r n => f r `max` n) (f r) g end.
Definition max_text (g : list top_row) : bytes :=
  match g with [] => [] | r :: g => foldr (fun r m => if decide (text_le (t_last r) m) then m else t_last r) (t_last r) g end.
Definition group_of (rows : list top_row) (q : bytes) : list top_row := filter (fun r => t_query r = q) rows.

(** A row of [GetTopQueries]; where the time does not parse it is Go's zero time. *)
Definition zero_time : Z := -62135596800 * 1000000000.
Definition aggregate (rows : list top_row) (q : bytes) : TopQuery :=
  let g := group_of rows q in
  let count := sum_of t_count g in
  {| tq_Query := q; tq_Count := count; tq_TotalTimeMs := sum_of t_total g; tq_MaxTimeMs := max_of t_max g;
     tq_AvgTimeMs := if decide (0 < count) then Z.quot (sum_of t_total g) count else 0;
     tq_LastSeen := default zero_time (parse_RFC3339 (max_text g)); tq_ErrorCount := sum_of t_errors g |}.
Definition by_total (a b : TopQuery) : Prop := tq_Count b <= tq_Count a.
#[global] Instance by_total_dec a b : Decision (by_total a b).
Proof. unfold by_total. apply _. Defined.

(** [GetTopQueries]; [LIMIT] with a negative number is no limit. *)
Definition limit_rows {A : Type} (limit : Z) (l : list A) : list A := if decide (limit < 0) then l else take (Z.to_nat limit) l.
Definition GetTopQueries (s : MetricStore) (start end_ limit : Z) : list TopQuery :=
  let rows := filter (fun r => between start end_ (t_timestamp r)) (top_queries_history s) in
  limit_rows limit (merge_sort by_total (map (aggregate rows) (remove_dups (map t_query rows)))).

(** [Prune]. *)
Definition metric_Prune (s : MetricStore) (olderThan : Z) : Z * MetricStore :=
  let ts := RFC3339 olderThan in
  let h := filter (fun r : bytes * sample => text_le ts (fst r)) (metrics_history s) in
  let q := filter (fun r => text_le ts (t_timestamp r)) (top_queries_history s) in
  ((Z.of_nat (size (metrics_history s)) - Z.of_nat (size h)) + (zlen (top_queries_history s) - zlen q),
   {| metrics_history := h; top_queries_history := q; counters := counters s |}).

(** *** What the tracker does with it *)

(** The row of [snapshot] for a summary. *)
Definition top_query_of (p : QueryStat * Z) : TopQuery :=
  let '(q, avg) := p in
  {| tq_Query := Query q; tq_Count := Count q; tq_TotalTimeMs := milliseconds (TotalTime q); tq_MaxTimeMs := milliseconds (MaxTime q);
     tq_AvgTimeMs := avg; tq_LastSeen := LastSeen q; tq_ErrorCount := ErrorCount q |}.

(** One write of [snapshot] or [Flush], in a transaction of its own; its error is ignored,
    so nothing changes where it does not commit. *)
Definition save (now : Z) (s : MetricStore) (w : saved * tx) : MetricStore :=
  let '(w, t) := w in
  match w with
  | SavedSnapshot snap => if commits t then SaveSnapshot s snap else s
  | SavedCounters total errors => if commits t then SaveCounters s total errors else s
  | SavedTopQueries top => snd (SaveTopQueries t now s (map top_query_of top))
  end.

(** [SetStore]: [hydrate] reads the last hour and the counters. *)
Definition minute : Z := 60 * 1000000000.
Definition tracker_SetStore (t : QueryTracker) (s : MetricStore) (now : Z) : QueryTracker :=
  hydrate t (fmap (map Some) (GetHistory s (now - Z.of_nat historyWindow * minute) now)) (Some (LoadCounters s)) now.

(** *** What the API does with it

    An absent [Timestamp] message is the epoch: [AsTime] of nil reads zero seconds. *)
Definition AsTime (t : option Z) : Z := default 0 t.
Definition end_of (t : option Z) (now : Z) : Z := if decide (AsTime t = zero_time) then now else AsTime t.
Definition GetMetricsHistory (store : option MetricStore) (start end_ : option Z) (now : Z) : result bytes (list MetricSnapshot) :=
  match store with
  | None => Err (bs "metric store not initialized")
  | Some s => match GetHistory s (AsTime start) (end_of end_ now) with Some h => Ok h | None => Err (bs "failed to get metrics history") end
  end.
Definition GetTopQueriesHistory (store : option MetricStore) (start end_ : option Z) (limit now : Z) : result bytes (list TopQuery) :=
  match store with
  | None => Err (bs "metric store not initialized")
  | Some s => Ok (GetTopQueries s (AsTime start) (end_of end_ now) (if decide (limit <= 0) then 10 else limit))
  end.

(** ** The history is one sample a second, in order *)
#[local] Arguments RFC3339 : simpl never.


Lemma RFC3339_second a b : 0 <= a < max_instant -> 0 <= b < max_instant -> RFC3339 a = RFC3339 b <-> second_of a = second_of b.
Proof.
  intros Ha Hb. split.
  - intros E. pose proof (RFC3339_compare a b Ha Hb) as Hc. rewrite E, bytes_compare_refl in Hc. symmetry in Hc. by apply Z.compare_eq_iff.
  - intros E. unfold RFC3339. fold (second_of a) (second_of b). by rewrite E.
Qed.

Lemma text_le_second a b : 0 <= a < max_instant -> 0 <= b < max_instant -> text_le (RFC3339 a) (RFC3339 b) <-> second_of a <= second_of b.
Proof. intros Ha Hb. unfold text_le. rewrite RFC3339_compare by done. apply Z.compare_le_iff. Qed.

Definition max_second : Z := 253402300800.
Definition instant_of (sec : Z) : Z := sec * 1000000000.
Definition stamp (sec : Z) : bytes := RFC3339 (instant_of sec).
#[local] Opaque RFC3339.

Lemma second_range t : 0 <= t < max_instant -> 0 <= second_of t < max_second.
Proof. unfold max_instant, max_second, second_of. intros Ht. split; [apply Z.div_pos|apply Z.div_lt_upper_bound]; lia. Qed.
Lemma instant_range sec : 0 <= sec < max_second -> 0 <= instant_of sec < max_instant.
Proof. unfold max_instant, max_second, instant_of. lia. Qed.
Lemma second_instant sec : second_of (instant_of sec) = sec.
Proof. unfold second_of, instant_of. by apply Z.div_mul. Qed.
Lemma stamp_second t : 0 <= t < max_instant -> RFC3339 t = stamp (second_of t).
Proof. intros Ht. apply RFC3339_second; [done|by apply instant_range, second_range|]. by rewrite second_instant. Qed.
Lemma stamp_inj a b : 0 <= a < max_second -> 0 <= b < max_second -> stamp a = stamp b -> a = b.
Proof. unfold stamp. intros Ha Hb E. rewrite RFC3339_second in E by (by apply instant_range). by rewrite !second_instant in E. Qed.
Lemma stamp_le a b : 0 <= a < max_second -> 0 <= b < max_second -> text_le (stamp a) (stamp b) <-> a <= b.
Proof. intros Ha Hb. unfold stamp. rewrite text_le_second by (by apply instant_range). by rewrite !second_instant. Qed.
Lemma parse_stamp a : 0 <= a < max_second -> parse_RFC3339 (stamp a) = Some (instant_of a).
Proof. intros Ha. unfold stamp. rewrite parse_RFC3339_format by (by apply instant_range). by rewrite second_instant. Qed.

(** The specification: what the history of a file is meant to be, by second. *)
Inductive metric_op := Saving (snap : MetricSnapshot) | Pruning (olderThan : Z).

Definition sample_of (snap : MetricSnapshot) : sample := {| s_rps := RPS snap; s_error_rate := snap_ErrorRate snap; s_latency := Latency snap |}.
Definition expected_step (h : gmap Z sample) (o : metric_op) : gmap Z sample :=
  match o with
  | Saving snap => <[second_of (Timestamp snap) := sample_of snap]> h
  | Pruning t => filter (fun kv => second_of t <= fst kv) h
  end.
Definition metric_step (s : MetricStore) (o : metric_op) : MetricStore :=
  match o with Saving snap => SaveSnapshot s snap | Pruning t => snd (metric_Prune s t) end.
Definition op_in_range (o : metric_op) : Prop :=
  match o with Saving snap => 0 <= Timestamp snap < max_instant | Pruning t => 0 <= t < max_instant end.

(** The table holds the samples of the specification, each under the text of its second. *)
Definition holds (s : MetricStore) (h : gmap Z sample) : Prop :=
  (forall sec v, h !! sec = Some v -> 0 <= sec < max_second) /\
  (forall k v, metrics_history s !! k = Some v <-> exists sec, k = stamp sec /\ h !! sec = Some v).

Lemma holds_step s h o : holds s h -> op_in_range o -> holds (metric_step s o) (expected_step h o).
Proof.
  intros [Hr Hk] Ho. destruct o as [snap|t]; cbn in *.
  - split.
    { intros sec v [[<- _]|[_ Hv]]%lookup_insert_Some; [by apply second_range|by eapply Hr]. }
    intros k v. cbn. rewrite (stamp_second _ Ho), lookup_insert_Some, Hk. split.
    + intros [[<- <-]|[Hne (sec & -> & Hv)]]; eexists; (split; [reflexivity|]); [by rewrite lookup_insert_eq|].
      rewrite lookup_insert_ne; [done|]. intros E. by rewrite E in Hne.
    + intros (sec & -> & [[<- <-]|[Hne Hv]]%lookup_insert_Some); [by left|]. right. split; [|by exists sec].
      intros E. apply Hne. by apply stamp_inj; [apply second_range|eapply Hr|].
  - split.
    { intros sec v [Hv _]%map_lookup_filter_Some. by eapply Hr. }
    intros k v. cbn. rewrite map_lookup_filter_Some, Hk, (stamp_second _ Ho). cbn. split.
    + intros [(sec & -> & Hv) Hle]. exists sec. split; [done|]. apply map_lookup_filter_Some. split; [done|]. cbn.
      apply stamp_le in Hle; [done|by apply second_range|by eapply Hr].
    + intros (sec & -> & [Hv Hle]%map_lookup_filter_Some). split; [by exists sec|]. apply stamp_le; [by apply second_range|by eapply Hr|done].
Qed.

Lemma holds_run s h ops : holds s h -> Forall op_in_range ops -> holds (foldl metric_step s ops) (foldl expected_step h ops).
Proof. intros Hh Ho. revert s h Hh. induction Ho as [|o ops Ho _ IH]; intros s h Hh; [done|]. apply IH. by apply holds_step. Qed.

Lemma holds_init : holds initMetricSchema ∅.
Proof. split; [intros ? ? [=]|]. intros k v. cbn. split; [intros [=]|]. intros (sec & _ & [=]). Qed.

(** Reading a table whose rows are in order. *)
Definition snap_at (sec : Z) (v : sample) : MetricSnapshot :=
  {| Timestamp := instant_of sec; RPS := s_rps v; snap_ErrorRate := s_error_rate v; Latency := s_latency v |}.

Lemma snapshot_stamp sec v : 0 <= sec < max_second -> snapshot_of (stamp sec, v) = Some (snap_at sec v).
Proof. intros Hs. unfold snapshot_of. cbn [fst snd]. by rewrite parse_stamp. Qed.

#[global] Instance text_le_total : Total text_le.
Proof.
  intros a b. unfold text_le. revert b. induction a as [|c a IH]; intros [|d b]; cbn; try (by left); try (by right).
  rewrite (Z.compare_antisym (bval c)). destruct (Z.compare_spec (bval c) (bval d)) as [E|?|?]; cbn; [apply IH|by left|by right].
Qed.
#[global] Instance text_le_trans : Transitive text_le.
Proof.
  intros a b c. unfold text_le. revert b c. induction a as [|p a IH]; intros [|q b] [|r c]; cbn; try done.
  destruct (Z.compare_spec (bval p) (bval q)) as [E|E|E], (Z.compare_spec (bval q) (bval r)) as [F|F|F]; try done;
    destruct (Z.compare_spec (bval p) (bval r)) as [G|G|G]; try done; try lia. apply IH.
Qed.
#[local] Instance by_text_total : Total by_text.
Proof. intros a b. apply (text_le_total (fst a) (fst b)). Qed.
#[local] Instance by_text_trans : Transitive by_text.
Proof. intros a b c. apply (text_le_trans (fst a) (fst b) (fst c)). Qed.

Lemma snapshot_rows s h rows : holds s h -> (forall r, r ∈ rows -> metrics_history s !! fst r = Some (snd r)) -> NoDup (map fst rows) ->
  StronglySorted by_text rows ->
  exists l, mapM snapshot_of rows = Some l /\ StronglySorted Z.lt (map Timestamp l) /\
    forall e, e ∈ l <-> exists sec v, (stamp sec, v) ∈ rows /\ h !! sec = Some v /\ e = snap_at sec v.
Proof.
  intros Hh. induction rows as [|[k v] rows IH]; intros Hin Hnd Hs.
  { exists []. split; [done|]. split; [constructor|]. intros e. split; [by intros []%not_elem_of_nil|]. intros (? & ? & []%not_elem_of_nil & _). }
  cbn in Hnd. apply NoDup_cons in Hnd as [Hk Hnd]. apply StronglySorted_inv in Hs as [Hs Hle].
  destruct IH as (l & Hl & Hsl & Hel); [intros r Hr; apply Hin; by constructor|done|done|].
  assert (metrics_history s !! k = Some v) as Hv by (apply (Hin (k, v)); constructor).
  apply Hh in Hv as (sec & -> & Hsec). pose proof (proj1 Hh _ _ Hsec) as Hrange.
  exists (snap_at sec v :: l). cbn [mapM]. rewrite (snapshot_stamp _ _ Hrange). cbn [mbind option_bind]. rewrite Hl.
  split; [done|]. split.
  - constructor; [done|]. apply Forall_fmap, list.Forall_forall. intros e (sec' & v' & Hr & Hv' & ->)%Hel. cbn.
    rewrite list.Forall_forall in Hle. pose proof (Hle _ Hr) as Hab. unfold by_text in Hab. cbn in Hab.
    apply stamp_le in Hab; [|done|by eapply (proj1 Hh)].
    assert (sec <> sec'); [|unfold instant_of; lia]. intros ->. apply Hk. by apply (list_elem_of_fmap_2 fst) in Hr.
  - intros e. rewrite elem_of_cons, Hel. split.
    + intros [->|(sec' & v' & Hr & Hv' & ->)]; [exists sec, v|exists sec', v']; (split_and!; [|done|done]); [by left|by right].
    + intros (sec' & v' & Hr & Hv' & ->). apply elem_of_cons in Hr as [[= E <-]|Hr]; [|right; by exists sec', v'].
      left. by rewrite (stamp_inj _ _ ltac:(by eapply (proj1 Hh)) Hrange E).
Qed.

Lemma history_of s h start end_ : holds s h -> 0 <= start < max_instant -> 0 <= end_ < max_instant ->
  exists l, GetHistory s start end_ = Some l /\ StronglySorted Z.lt (map Timestamp l) /\
    forall e, e ∈ l <-> exists sec v, h !! sec = Some v /\ second_of start <= sec <= second_of end_ /\ e = snap_at sec v.
Proof.
  intros Hh Ha Hb. unfold GetHistory. set (P := fun r => between start end_ (fst r)).
  set (rows := merge_sort by_text (filter P (map_to_list (metrics_history s)))).
  assert (forall r, r ∈ rows <-> between start end_ (fst r) /\ metrics_history s !! fst r = Some (snd r)) as Hrows.
  { intros [k v]. unfold rows. rewrite (merge_sort_Permutation by_text), list_elem_of_filter, elem_of_map_to_list. done. }
  destruct (snapshot_rows s h rows Hh) as (l & Hl & Hs & Hel).
  - intros r. by intros [_ Hr]%Hrows.
  - unfold rows. rewrite (merge_sort_Permutation by_text). eapply sublist_NoDup; [apply (NoDup_fst_map_to_list (metrics_history s))|].
    apply (fmap_sublist fst), sublist_filter.
  - apply StronglySorted_merge_sort; apply _.
  - exists l. split_and!; [done|done|]. intros e. rewrite Hel. split.
    + intros (sec & v & [[Hlo Hhi] _]%Hrows & Hv & ->). exists sec, v. pose proof (proj1 Hh _ _ Hv) as Hr. cbn in Hlo, Hhi.
      rewrite (stamp_second _ Ha) in Hlo. rewrite (stamp_second _ Hb) in Hhi.
      apply stamp_le in Hlo; [|by apply second_range|done]. apply stamp_le in Hhi; [|done|by apply second_range]. done.
    + intros (sec & v & Hv & Hr' & ->). exists sec, v. pose proof (proj1 Hh _ _ Hv) as Hr. split_and!; [|done|done]. apply Hrows. split.
      * unfold between. cbn. rewrite (stamp_second _ Ha), (stamp_second _ Hb). split; apply stamp_le; try done; try (by apply second_range); lia.
      * apply Hh. by exists sec.
Qed.

(** After any sequence of snapshots and prunings of a file, a query of a range
    answers with one snapshot for each second of it that has one, in order of time: the
    last that was saved in that second, unless it was pruned since. *)
Theorem metric_history_refines (ops : list metric_op) (start end_ : Z) :
  Forall op_in_range ops -> 0 <= start < max_instant -> 0 <= end_ < max_instant ->
  exists l, GetHistory (foldl metric_step initMetricSchema ops) start end_ = Some l /\ StronglySorted Z.lt (map Timestamp l) /\
    forall e, e ∈ l <-> exists sec v, foldl expected_step ∅ ops !! sec = Some v /\ second_of start <= sec <= second_of end_ /\ e = snap_at sec v.
Proof. intros Ho. apply history_of. by apply holds_run; [apply holds_init|]. Qed.

(** ** The totals survive a restart *)

(** The counters a file holds once the last write of [Flush] commits. *)
Lemma load_save_counters s a b : LoadCounters (SaveCounters s a b) = (a, b).
Proof. unfold LoadCounters, SaveCounters. cbn [counters]. by rewrite lookup_insert_ne, !lookup_insert_eq by done. Qed.

Lemma flush_writes t all now : exists t' out, tracker_Flush t all true now = (t', out ++ [SavedCounters (totalRequests t) (totalErrors t)]) /\
  totalRequests t' = totalRequests t /\ totalErrors t' = totalErrors t.
Proof.
  unfold tracker_Flush. destruct (snapshot t all true now) as [t' out] eqn:E. exists t', out.
  assert (totalRequests t' = totalRequests t /\ totalErrors t' = totalErrors t) as [-> ->]; [|done].
  revert E. unfold snapshot. destruct (delta _ _ _ _) as [[[rps rate]|] c]; by intros [= <- <-].
Qed.

(** The statements a process finishes: how long, and whether with an error. *)
Definition observe (t : QueryTracker) (e : bytes * Z * bool * Z) : QueryTracker :=
  let '(q, d, err, now) := e in tracker_Record t q d err now.

Lemma observe_totals es : forall t,
  totalRequests (foldl observe t es) = totalRequests t + zlen es /\
  totalErrors (foldl observe t es) = totalErrors t + zlen (filter (fun e => snd (fst e) = true) es) /\
  liveCursor (foldl observe t es) = liveCursor t /\ snapCursor (foldl observe t es) = snapCursor t.
Proof.
  induction es as [|[[[q d] err] now] es IH]; intros t; cbn [foldl].
  { unfold zlen. cbn. split_and!; try done; lia. }
  destruct (IH (observe t (q, d, err, now))) as (-> & -> & -> & ->).
  assert (totalRequests (observe t (q, d, err, now)) = totalRequests t + 1 /\
          totalErrors (observe t (q, d, err, now)) = totalErrors t + (if err then 1 else 0) /\
          liveCursor (observe t (q, d, err, now)) = liveCursor t /\ snapCursor (observe t (q, d, err, now)) = snapCursor t) as (-> & -> & -> & ->).
  { cbn. unfold tracker_Record. destruct err; case_decide; cbn; (split_and!; try done; lia). }
  unfold zlen. rewrite filter_cons. cbn [fst snd]. destruct err.
  - rewrite decide_True by done. cbn [length]. split_and!; try done; lia.
  - rewrite decide_False by done. cbn [length]. split_and!; try done; lia.
Qed.

(** A process that flushes its tracker, where its last write commits, and the process
    that opens the file next: the totals go on from where they were, and the first rate
    the new process computes is that of its own traffic. *)
Theorem totals_survive_restart (s : MetricStore) (t : QueryTracker) (all : list QueryStat) (txs : list tx) (last : tx)
    (stopped max started sampled : Z) (es : list (bytes * Z * bool * Z)) :
  0 < totalRequests t -> commits last = true -> started < sampled ->
  let '(_, out) := tracker_Flush t all true stopped in
  length out = S (length txs) ->
  let file := foldl (save stopped) s (zip out (txs ++ [last])) in
  let next := foldl observe (tracker_SetStore (NewQueryTracker max started) file started) es in
  totalRequests next = totalRequests t + zlen es /\
  totalErrors next = totalErrors t + zlen (filter (fun e => snd (fst e) = true) es) /\
  currentRate (sampleRate next sampled) =
    Some (per_second (zlen es) (sampled - started),
          if decide (0 < zlen es) then ratio (zlen (filter (fun e => snd (fst e) = true) es)) (zlen es) else 0%Q).
Proof.
  intros Ht Hc Hlt. destruct (flush_writes t all stopped) as (t' & out & E & _ & _). rewrite E. intros Hlen. cbn zeta.
  rewrite length_app in Hlen. cbn in Hlen.
  rewrite zip_with_app, foldl_app by lia. cbn [zip_with foldl]. set (mid := foldl (save stopped) s (zip out txs)).
  assert (save stopped mid (SavedCounters (totalRequests t) (totalErrors t), last) = SaveCounters mid (totalRequests t) (totalErrors t)) as -> by (cbn; by rewrite Hc).
  set (file := SaveCounters mid (totalRequests t) (totalErrors t)).
  destruct (observe_totals es (tracker_SetStore (NewQueryTracker max started) file started)) as (Er & Ee & El & _).
  assert (totalRequests (tracker_SetStore (NewQueryTracker max started) file started) = totalRequests t /\
          totalErrors (tracker_SetStore (NewQueryTracker max started) file started) = totalErrors t /\
          liveCursor (tracker_SetStore (NewQueryTracker max started) file started) =
            {| rc_total := totalRequests t; rc_errors := totalErrors t; rc_at := Some started |}) as (Hr & He & Hl).
  { unfold tracker_SetStore, file. rewrite load_save_counters. unfold hydrate. rewrite decide_True by done. done. }
  rewrite Er, Ee, Hr, He. split_and!; [done|done|]. unfold sampleRate. rewrite Er, Ee, El, Hr, He, Hl. unfold delta. cbn [rc_at rc_total rc_errors].
  rewrite decide_False by lia.
  replace (totalRequests t + zlen es - totalRequests t) with (zlen es) by lia.
  replace (totalErrors t + zlen (filter (fun e => snd (fst e) = true) es) - totalErrors t) with (zlen (filter (fun e => snd (fst e) = true) es)) by lia.
  rewrite decide_False by (unfold zlen; lia). done.
Qed.

(** ** Retention *)

Section Retention.
Context {HD : LogDriver} {HL : LogDriverLaws HD}.

(** Pruning compares the wall clock of the process's zone with UTC: what goes is what is
    older than the limit moved by the zone's offset. *)
Lemma prune_local (now' off : Z) (entries : list LogEntry) (olderThan offset : Z) :
  Forall (fun e => exists t, l_Timestamp e = Some t /\ t <> olderThan + offset) entries ->
  fst (log_Prune (map (row_of now' off) entries) olderThan offset) =
    map (row_of now' off) (filter (fun e => olderThan + offset <= default 0 (l_Timestamp e)) entries).
Proof.
  intros He. unfold log_Prune. cbn [fst]. induction He as [|e es (t & Ht & Hne) _ IH]; cbn [map]; [done|].
  rewrite !filter_cons, IH. destruct e as [ts lv msg at_]. cbn in Ht. subst ts. cbn [r_timestamp row_of l_Timestamp default from_option].
  destruct (decide (olderThan + offset <= t)) as [Hle|Hgt].
  - rewrite decide_True by (apply le_wall; lia). by rewrite decide_True by done.
  - rewrite decide_False by (rewrite (proj2 (le_wall t 0 olderThan offset ltac:(lia))); done). by rewrite decide_False by (cbn; lia).
Qed.
End Retention.

(** ** What the tables make of it *)

(** Two snapshots a minute apart with one statement in all: the range counts it twice,
    since each snapshot stores the total so far and the query adds them up. *)
Definition one_statement : list TopQuery :=
  [{| tq_Query := bs "SELECT 1"; tq_Count := 1; tq_TotalTimeMs := 5; tq_MaxTimeMs := 5; tq_AvgTimeMs := 5; tq_LastSeen := 60 * 1000000000; tq_ErrorCount := 0 |}].
Definition committed : tx := {| begins := true; prepares := true; inserts _ := true; commits := true |}.

Example top_queries_count_twice :
  let s := snd (SaveTopQueries committed (120 * 1000000000) (snd (SaveTopQueries committed (60 * 1000000000) initMetricSchema one_statement)) one_statement) in
  map (fun q => (tq_Query q, tq_Count q, tq_TotalTimeMs q)) (GetTopQueries s 0 (3600 * 1000000000) 10) = [(bs "SELECT 1", 2, 10)].
Proof. vm_compute. reflexivity. Qed.

(** A request that leaves the end of the range open means 1970, not now. *)
Example open_range_is_empty :
  let s := SaveSnapshot initMetricSchema {| Timestamp := 1700000000 * 1000000000; RPS := 1; snap_ErrorRate := 0; Latency := 1 |} in
  GetMetricsHistory (Some s) None None (1700000060 * 1000000000) = Ok [] /\
  (exists snap, GetMetricsHistory (Some s) None (Some (1700000060 * 1000000000)) (1700000060 * 1000000000) = Ok [snap]).
Proof. split; [vm_compute; reflexivity|]. eexists. vm_compute. reflexivity. Qed.

(** ** Instances, and the theorems at concrete inputs *)

Module Sample.

(** A driver: an instant with its offset, compared by wall clock; a map as the digits
    of its code. *)
Fixpoint put_positive (p : positive) : bytes := match p with xH => [] | xO p => ch "0" :: put_positive p | xI p => ch "1" :: put_positive p end.
Fixpoint get_positive (s : bytes) : positive :=
  match s with [] => xH | c :: s => if decide (c = ch "1") then xI (get_positive s) else xO (get_positive s) end.
Lemma get_put p : get_positive (put_positive p) = p.
Proof. induction p as [p IH|p IH|]; [change (xI (get_positive (put_positive p)) = xI p)|change (xO (get_positive (put_positive p)) = xO p)|done]; by rewrite IH. Qed.

#[export] Instance driver : LogDriver := {|
  column := Z * Z; write_time t o := (t, o); read_time := fst; col_le a b := bool_decide (fst a + snd a <= fst b + snd b);
  marshal m := Some (ch "J" :: put_positive (encode m)); unmarshal s := match s with _ :: s => decode (get_positive s) | [] => None end; carried _ := true
|}.

#[export] Instance driver_laws : LogDriverLaws driver.
Proof.
  split; cbn.
  - done.
  - intros c. apply bool_decide_eq_true. lia.
  - intros t o t' o' Hlt. split; [apply bool_decide_eq_true|apply bool_decide_eq_false]; lia.
  - intros m _ Hm. eexists. split; [reflexivity|]. split; [rewrite get_put; apply decode_encode|done].
Qed.

Definition newer (a b : log_row) : Prop := col_le (r_timestamp b) (r_timestamp a) = true.
#[export] Instance newer_dec a b : Decision (newer a b).
Proof. unfold newer. apply _. Defined.
#[export] Instance order : LogOrder := {| arrange := merge_sort newer |}.
#[export] Instance newer_trans : Transitive newer.
Proof. intros a b c. unfold newer. cbn. rewrite !bool_decide_eq_true. lia. Qed.
#[export] Instance newer_total : Total newer.
Proof. intros a b. unfold newer. cbn. rewrite !bool_decide_eq_true. lia. Qed.
#[export] Instance order_laws : LogOrderLaws order.
Proof. split; intros l; [apply merge_sort_Permutation|apply (StronglySorted_merge_sort newer)]. Qed.

Definition line (t : Z) (level msg : bytes) : LogEntry := {| l_Timestamp := Some t; l_Level := level; l_Message := msg; l_Attributes := None |}.
Definition lines : list LogEntry := [line 10 (bs "INFO") (bs "100% done"); line 20 (bs "WARN") (bs "1000 done"); line 30 (bs "INFO") (bs "10_ done")].
Definition search (s : bytes) : LogFilter := {| StartTime := Some 5; EndTime := None; f_Level := []; Search := s; Limit := 50; Offset := 0 |}.
End Sample.
Import Sample.

Definition refused : tx := {| begins := true; prepares := true; inserts := fun i => bool_decide (i = 0%nat); commits := true |}.
Definition batches : list batch := [(committed, 0, 0, lines); (refused, 0, 0, lines)].

Lemma log_query_exact_witness :
  Forall (fun b => Forall recorded (snd b)) batches /\
  (exists found, (found ≡ₚ map normal (filter (wanted (search (bs "0%"))) (stored_entries batches))) /\ newest_first found /\
    store_GetLogs (stored_rows batches) (search (bs "0%")) =
      (take (Z.to_nat (store_limit (Limit (search (bs "0%"))))) (drop (Z.to_nat (Offset (search (bs "0%")))) found), zlen found)) /\
  store_GetLogs (stored_rows batches) (search (bs "0%")) = ([line 10 (bs "INFO") (bs "100% done")], 1).
Proof.
  assert (Forall recorded lines) as Hl by (repeat (constructor; [split; [by eexists|reflexivity]|]); constructor).
  assert (Forall (fun b : batch => Forall recorded (snd b)) batches) as Hb by (repeat (constructor; [exact Hl|]); constructor).
  split; [exact Hb|]. split; [exact (log_query_exact batches (search (bs "0%")) Hb)|]. vm_compute. reflexivity.
Defined.

Definition metric_ops : list metric_op :=
  let snap t n := Saving {| Timestamp := t * 1000000000 + n; RPS := inject_Z n; snap_ErrorRate := 0; Latency := 1 |} in
  [snap 60 1; snap 120 2; snap 120 3; snap 180 4; Pruning (100 * 1000000000)].

Lemma metric_history_refines_witness :
  Forall op_in_range metric_ops /\
  (exists l, GetHistory (foldl metric_step initMetricSchema metric_ops) 0 (170 * 1000000000) = Some l /\ StronglySorted Z.lt (map Timestamp l) /\
    forall e, e ∈ l <-> exists sec v, foldl expected_step ∅ metric_ops !! sec = Some v /\
      second_of 0 <= sec <= second_of (170 * 1000000000) /\ e = snap_at sec v) /\
  GetHistory (foldl metric_step initMetricSchema metric_ops) 0 (170 * 1000000000) =
    Some [{| Timestamp := 120 * 1000000000; RPS := 3; snap_ErrorRate := 0; Latency := 1 |}].
Proof.
  assert (Forall op_in_range metric_ops) as Ho by (repeat (constructor; [cbn; unfold max_instant; lia|]); constructor).
  split; [exact Ho|]. split; [|vm_compute; reflexivity].
  apply (metric_history_refines metric_ops 0 (170 * 1000000000)); [exact Ho|unfold max_instant; lia|unfold max_instant; lia].
Defined.

Definition before_restart : QueryTracker := foldl observe (NewQueryTracker 100 0) [(bs "SELECT 1", 5, false, 1); (bs "SELECT 2", 5, true, 2)].

Lemma totals_survive_restart_witness :
  let file := foldl (save 10) initMetricSchema (zip (snd (tracker_Flush before_restart [] true 10)) [committed]) in
  let next := foldl observe (tracker_SetStore (NewQueryTracker 100 20) file 20) [(bs "SELECT 1", 5, true, 21)] in
  0 < totalRequests before_restart /\ totalRequests next = 2 + 1 /\ totalErrors next = 1 + 1 /\
  currentRate (sampleRate next 1020) = Some (per_second 1 1000, ratio 1 1).
Proof.
  split; [vm_compute; reflexivity|].
  apply (totals_survive_restart initMetricSchema before_restart [] [] committed 10 100 20 1020 [(bs "SELECT 1", 5, true, 21)]);
    [vm_compute; reflexivity|reflexivity|lia|vm_compute; reflexivity].
Defined.

(** Two hours east of UTC a line is pruned two hours early. *)
Example retention_follows_the_zone :
  let hour := 3600 * 1000000000 in
  let rows := map (row_of 0 0) [line (10 * hour) (bs "INFO") (bs "a"); line (13 * hour) (bs "INFO") (bs "b")] in
  map r_message (pruner_tick rows (30 * hour) 0 (21 * hour)) = [bs "a"; bs "b"] /\
  map r_message (pruner_tick rows (30 * hour) (2 * hour) (21 * hour)) = [bs "b"].
Proof. vm_compute. split; reflexivity. Qed.
