(* ===== verification/Broadcast.v ===== *)
(** * Log lines on their way

    pkg/observability/logs.go: the handler that turns a record of the logger into an
    entry, the broadcaster that gives the entry to the persistence worker and to every
    subscriber without ever waiting, and the worker that writes batches.

    A buffered channel is the list of what it holds; a subscriber's channel is known by
    a number.  The lock makes each call one step; the worker takes a step where it
    receives or where its ticker fires. *)
From Stdlib Require Import ZArith Lia Strings.String.
From stdpp Require Import base gmap list numbers option.
From S2P Require Import Prelude Stores.
#[local] Open Scope Z_scope.

Definition queue_size : nat := 4096.
Definition persistBatchSize : nat := 256.
Definition subscriber_size : nat := 1024.

(** A channel and a send that does not wait. *)
Definition offer (size : nat) (c : list LogEntry) (e : LogEntry) : list LogEntry := if decide (length c < size)%nat then c ++ [e] else c.

(** [LogBroadcaster].  [channels] are the channels that were made, [subscribers] those
    that are registered; [store] says whether one is set and [persisted] is what its
    [AppendBatch] took; [batch] is the worker's, [None] before it is started. *)
Record LogBroadcaster := {
  channels : gmap nat (list LogEntry); subscribers : gset nat; next : nat;
  store : bool; logChan : list LogEntry; batch : option (list LogEntry); persisted : list LogEntry
}.

Definition NewLogBroadcaster : LogBroadcaster :=
  {| channels := ∅; subscribers := ∅; next := 0; store := false; logChan := []; batch := None; persisted := [] |}.

(** [SetStore]: the worker is started once. *)
Definition SetStore (b : LogBroadcaster) (s : bool) : LogBroadcaster :=
  {| channels := channels b; subscribers := subscribers b; next := next b; store := s; logChan := logChan b;
     batch := Some (default [] (batch b)); persisted := persisted b |}.

(** [Subscribe], [Unsubscribe], and the receiver's side of the channel. *)
Definition Subscribe (b : LogBroadcaster) : nat * LogBroadcaster :=
  (next b, {| channels := <[next b := []]> (channels b); subscribers := {[next b]} ∪ subscribers b; next := S (next b);
              store := store b; logChan := logChan b; batch := batch b; persisted := persisted b |}).
Definition Unsubscribe (b : LogBroadcaster) (ch : nat) : LogBroadcaster :=
  {| channels := channels b; subscribers := subscribers b ∖ {[ch]}; next := next b;
     store := store b; logChan := logChan b; batch := batch b; persisted := persisted b |}.
Definition receive (b : LogBroadcaster) (ch : nat) : option LogEntry * LogBroadcaster :=
  match channels b !! ch with
  | Some (e :: rest) => (Some e, {| channels := <[ch := rest]> (channels b); subscribers := subscribers b; next := next b;
                                    store := store b; logChan := logChan b; batch := batch b; persisted := persisted b |})
  | _ => (None, b)
  end.

(** [Broadcast]. *)
Definition Broadcast (b : LogBroadcaster) (e : LogEntry) : LogBroadcaster :=
  {| channels := map_imap (fun ch c => Some (if decide (ch ∈ subscribers b) then offer subscriber_size c e else c)) (channels b);
     subscribers := subscribers b; next := next b; store := store b;
     logChan := offer queue_size (logChan b) e; batch := batch b; persisted := persisted b |}.

(** [runPersistenceWorker]: [flush], where [ok] says whether [AppendBatch] succeeds; the
    batch is emptied in any case. *)
Definition flush (b : LogBroadcaster) (ok : bool) : LogBroadcaster :=
  match batch b with
  | None => b
  | Some l => {| channels := channels b; subscribers := subscribers b; next := next b; store := store b; logChan := logChan b;
                 batch := Some []; persisted := if store b && ok then persisted b ++ l else persisted b |}
  end.
Definition worker_receive (b : LogBroadcaster) (ok : bool) : LogBroadcaster :=
  match batch b, logChan b with
  | Some l, e :: rest =>
      let b := {| channels := channels b; subscribers := subscribers b; next := next b; store := store b; logChan := rest;
                  batch := Some (l ++ [e]); persisted := persisted b |} in
      if decide (persistBatchSize <= length (l ++ [e]))%nat then flush b ok else b
  | _, _ => b
  end.

(** [Handle]: the record goes to the wrapped handler first, and no further where that
    fails.  The entry has the attributes of the record itself. *)
Record log_record := { rec_Time : Z; rec_Level : bytes; rec_Message : bytes; rec_Attrs : list (bytes * bytes) }.
Definition entry_of_record (r : log_record) : LogEntry :=
  {| l_Timestamp := Some (rec_Time r); l_Level := rec_Level r; l_Message := rec_Message r;
     l_Attributes := Some (foldl (fun m kv => <[fst kv := snd kv]> m) ∅ (rec_Attrs r)) |}.

(** A handler: the attributes it was given with [WithAttrs], which the wrapped handler
    has; the groups of [WithGroup] likewise. *)
Record BroadcastHandler := { inner_attrs : list (bytes * bytes); inner_groups : list bytes }.
Definition WithAttrs (h : BroadcastHandler) (attrs : list (bytes * bytes)) : BroadcastHandler :=
  {| inner_attrs := inner_attrs h ++ attrs; inner_groups := inner_groups h |}.
Definition WithGroup (h : BroadcastHandler) (name : bytes) : BroadcastHandler :=
  {| inner_attrs := inner_attrs h; inner_groups := inner_groups h ++ [name] |}.

Section Handler.
Context (inner_Handle : BroadcastHandler -> log_record -> bool).
Definition Handle (h : BroadcastHandler) (b : LogBroadcaster) (r : log_record) : bool * LogBroadcaster :=
  if inner_Handle h r then (true, Broadcast b (entry_of_record r)) else (false, b).
End Handler.

(** ** Every interleaving of the calls *)

Inductive action :=
| ASetStore (s : bool)
| ABroadcast (e : LogEntry)
| ASubscribe
| AUnsubscribe (ch : nat)
| AReceive (ch : nat)
| AWorker (ok : bool)
| ATick (ok : bool).

Definition act (b : LogBroadcaster) (a : action) : LogBroadcaster :=
  match a with
  | ASetStore s => SetStore b s
  | ABroadcast e => Broadcast b e
  | ASubscribe => snd (Subscribe b)
  | AUnsubscribe ch => Unsubscribe b ch
  | AReceive ch => snd (receive b ch)
  | AWorker ok => worker_receive b ok
  | ATick ok => flush b ok
  end.
Definition run (l : list action) : LogBroadcaster := foldl act NewLogBroadcaster l.

(** What was broadcast, and what a channel's reader has received. *)
Definition said (a : action) : option LogEntry := match a with ABroadcast e => Some e | _ => None end.
Fixpoint heard (b : LogBroadcaster) (l : list action) (ch : nat) : list LogEntry :=
  match l with
  | [] => []
  | a :: l => match a with
              | AReceive c => if decide (c = ch) then option_list (fst (receive b ch)) else []
              | _ => []
              end ++ heard (act b a) l ch
  end.

(** ** Bounded, in order, and lost only where something is full or fails *)

Lemma offer_length n c e : (length c <= n)%nat -> (length (offer n c e) <= n)%nat.
Proof. intros Hc. unfold offer. case_decide; [rewrite length_app; cbn; lia|done]. Qed.

Lemma offer_sublist n c e : offer n c e `sublist_of` c ++ [e].
Proof. unfold offer. case_decide; [done|]. by apply sublist_inserts_r. Qed.

Definition bounded (b : LogBroadcaster) : Prop :=
  (length (logChan b) <= queue_size)%nat /\ (forall l, batch b = Some l -> (length l < persistBatchSize)%nat) /\
  (forall ch c, channels b !! ch = Some c -> (length c <= subscriber_size)%nat /\ (ch < next b)%nat) /\
  (forall ch, ch ∈ subscribers b -> (ch < next b)%nat).

Lemma flush_batch b ok l : batch (flush b ok) = Some l -> l = [].
Proof. unfold flush. destruct (batch b) eqn:E; cbn; [by intros [= <-]|]. by rewrite E. Qed.

Lemma act_bounded b a : bounded b -> bounded (act b a).
Proof.
  intros Hbd. pose proof Hbd as (Hq & Hb & Hc & Hs). destruct a as [s|e| |ch|ch|ok|ok]; cbn.
  - split_and!; try done. cbn. intros l [= <-]. destruct (batch b) as [l|]; cbn; [by apply Hb|unfold persistBatchSize; lia].
  - split_and!; try done; [by apply offer_length|]. cbn. intros ch c. rewrite map_lookup_imap. destruct (channels b !! ch) as [c'|] eqn:E; cbn; [|done].
    intros [= <-]. destruct (Hc _ _ E) as [Hl Hn]. split; [|exact Hn]. case_decide; [by apply offer_length|exact Hl].
  - split_and!; try done; cbn.
    + intros ch c [[<- <-]|[_ Hl]]%lookup_insert_Some; [unfold subscriber_size; cbn; lia|]. destruct (Hc _ _ Hl). lia.
    + intros ch [->%elem_of_singleton|Hin]%elem_of_union; [lia|]. apply Hs in Hin. lia.
  - split_and!; try done. cbn. intros c Hin. apply Hs. set_solver.
  - unfold receive. destruct (channels b !! ch) as [[|e c]|] eqn:E; try done. split_and!; try done. cbn.
    intros ch' c' [[<- <-]|[_ Hl]]%lookup_insert_Some; [|by apply Hc]. destruct (Hc _ _ E) as [Hl ?]. cbn in Hl. lia.
  - unfold worker_receive. destruct (batch b) as [l|] eqn:E; [|done]. destruct (logChan b) as [|e rest] eqn:El; [done|]. cbn in Hq. case_decide as Hd.
    + split_and!; try done; [cbn; lia|]. intros l' ->%flush_batch. unfold persistBatchSize. cbn. lia.
    + split_and!; try done; [cbn; lia|]. cbn. intros l' [= <-]. lia.
  - destruct (batch b) as [l|] eqn:E; unfold flush; rewrite E; [|done]. split_and!; try done. cbn. intros l' [= <-]. unfold persistBatchSize. cbn. lia.
Qed.

Lemma acts_bounded l : forall b, bounded b -> bounded (foldl act b l).
Proof. induction l as [|a l IH]; intros b Hb; [done|]. by apply IH, act_bounded. Qed.

Lemma run_bounded l : bounded (run l).
Proof. apply acts_bounded. split_and!; cbn; [unfold queue_size; lia|done|done|set_solver]. Qed.

(** What is on its way to the store. *)
Definition pipeline (b : LogBroadcaster) : list LogEntry := persisted b ++ default [] (batch b) ++ logChan b.

(** The step loses nothing: the queue has room, the store takes the batch. *)
Definition keeps (b : LogBroadcaster) (a : action) : bool :=
  match a with
  | ABroadcast _ => bool_decide (length (logChan b) < queue_size)%nat
  | AWorker ok | ATick ok => ok && store b
  | _ => true
  end.

Lemma flush_pipeline b ok : pipeline (flush b ok) `sublist_of` pipeline b /\ (ok && store b = true -> pipeline (flush b ok) = pipeline b).
Proof.
  unfold flush, pipeline. destruct (batch b) as [l|] eqn:E; [|rewrite E; split; done]. cbn. destruct (store b), ok; cbn; rewrite <- ?app_assoc; split; try done.
  all: apply sublist_app; [done|by apply sublist_inserts_l].
Qed.

Lemma act_pipeline b a :
  pipeline (act b a) `sublist_of` pipeline b ++ option_list (said a) /\ (keeps b a = true -> pipeline (act b a) = pipeline b ++ option_list (said a)).
Proof.
  destruct a as [s|e| |ch|ch|ok|ok]; cbn [act said option_list]; rewrite ?app_nil_r.
  - unfold pipeline. cbn. by destruct (batch b).
  - unfold pipeline. cbn. rewrite <- !app_assoc. split.
    + apply sublist_app; [done|]. apply sublist_app; [done|]. apply offer_sublist.
    + rewrite bool_decide_eq_true. intros Hr. unfold offer. by rewrite decide_True.
  - done.
  - done.
  - unfold receive. by destruct (channels b !! ch) as [[|e c]|].
  - unfold worker_receive. destruct (batch b) as [l|] eqn:E; [|done]. destruct (logChan b) as [|e rest] eqn:El; [done|].
    set (b' := {| channels := channels b; batch := Some (l ++ [e]) |}).
    assert (pipeline b' = pipeline b) as Hp by (unfold pipeline; cbn; rewrite E, El; cbn; by rewrite <- app_assoc).
    case_decide; rewrite <- Hp; [|done]. apply (flush_pipeline b').
  - apply flush_pipeline.
Qed.

Fixpoint keeps_all (b : LogBroadcaster) (l : list action) : bool := match l with [] => true | a :: l => keeps b a && keeps_all (act b a) l end.

Lemma acts_pipeline l : forall b,
  pipeline (foldl act b l) `sublist_of` pipeline b ++ omap said l /\ (keeps_all b l = true -> pipeline (foldl act b l) = pipeline b ++ omap said l).
Proof.
  induction l as [|a l IH]; intros b; cbn [foldl keeps_all omap list_omap]; [by rewrite app_nil_r|].
  destruct (act_pipeline b a) as [Hs He], (IH (act b a)) as [Hs' He'].
  assert (match said a with Some x => x :: omap said l | None => omap said l end = option_list (said a) ++ omap said l) as Ha by by destruct (said a).
  rewrite Ha. rewrite app_assoc. split.
  - etransitivity; [exact Hs'|]. by apply sublist_app.
  - intros [H1 H2]%andb_true_iff. by rewrite (He' H2), (He H1).
Qed.

(** Once the worker has emptied the queue, everything is with the store. *)
Lemma drain_persists b : store b = true -> forall l, batch b = Some l ->
  persisted (foldl act b (replicate (length (logChan b)) (AWorker true) ++ [ATick true])) = pipeline b /\
  logChan (foldl act b (replicate (length (logChan b)) (AWorker true) ++ [ATick true])) = [].
Proof.
  remember (length (logChan b)) as n eqn:Hn. revert b Hn. induction n as [|n IH]; intros b Hn Hst l Hb.
  { destruct (logChan b) eqn:El; [|done]. cbn. unfold flush, pipeline. rewrite Hb, Hst, El. cbn. by rewrite app_nil_r. }
  cbn [replicate app foldl]. destruct (logChan b) as [|e rest] eqn:El; [done|]. cbn in Hn. injection Hn as Hn.
  pose proof (act_pipeline b (AWorker true)) as [_ Hp]. specialize (Hp ltac:(cbn; by rewrite Hst)). cbn [said option_list] in Hp. rewrite app_nil_r in Hp. rewrite <- Hp.
  assert (logChan (act b (AWorker true)) = rest /\ store (act b (AWorker true)) = true /\ is_Some (batch (act b (AWorker true)))) as (Hl & Hs & [l' Hb']).
  { cbn. unfold worker_receive. rewrite Hb, El. case_decide; cbn; by eauto. }
  apply (IH _ ltac:(by rewrite Hl) Hs _ Hb').
Qed.

(** ** The subscriber's side *)

Definition buffered (b : LogBroadcaster) (ch : nat) : list LogEntry := default [] (channels b !! ch).
Definition taken (b : LogBroadcaster) (a : action) (ch : nat) : list LogEntry :=
  match a with AReceive c => if decide (c = ch) then option_list (fst (receive b ch)) else [] | _ => [] end.

(** A step in which a reader misses nothing. *)
Definition listens (ch : nat) (b : LogBroadcaster) (a : action) : bool :=
  match a with ABroadcast _ => bool_decide (ch ∈ subscribers b /\ length (buffered b ch) < subscriber_size)%nat | _ => true end.

Lemma act_channels b a : bounded b -> (next b <= next (act b a))%nat.
Proof.
  intros _. destruct a as [s|e| |ch|ch|ok|ok]; cbn; try lia.
  - unfold receive. destruct (channels b !! ch) as [[|]|]; cbn; lia.
  - unfold worker_receive. destruct (batch b), (logChan b); try lia. case_decide; cbn; lia.
  - unfold flush. destruct (batch b); cbn; lia.
Qed.

Lemma worker_channels b ok : channels (worker_receive b ok) = channels b /\ channels (flush b ok) = channels b.
Proof.
  unfold worker_receive, flush. destruct (batch b) as [l|]; [|done]. split; [|done]. destruct (logChan b); [done|]. by case_decide.
Qed.

Ltac keep := match goal with H : channels _ !! _ = Some _ |- _ => rewrite H; split; [by eexists|by split] end.

Lemma act_buffered b a ch : bounded b -> is_Some (channels b !! ch) ->
  is_Some (channels (act b a) !! ch) /\
  taken b a ch ++ buffered (act b a) ch `sublist_of` buffered b ch ++ option_list (said a) /\
  (listens ch b a = true -> taken b a ch ++ buffered (act b a) ch = buffered b ch ++ option_list (said a)).
Proof.
  intros (_ & _ & Hc & _) [c Hch]. unfold buffered.
  destruct a as [s|e| |ch'|ch'|ok|ok]; cbn [act said option_list taken app]; rewrite ?app_nil_r.
  - cbn. keep.
  - cbn [channels Broadcast]. rewrite map_lookup_imap, Hch. cbn [mbind option_bind default from_option]. split; [by eexists|]. split.
    + case_decide; [apply offer_sublist|by apply sublist_inserts_r].
    + cbn. rewrite bool_decide_eq_true. unfold buffered. rewrite Hch. cbn. intros [Hin Hlen]. rewrite decide_True by done.
      unfold offer. by rewrite decide_True.
  - cbn [channels Subscribe snd]. destruct (Hc _ _ Hch). rewrite lookup_insert_ne by lia. keep.
  - cbn. keep.
  - unfold receive. destruct (decide (ch' = ch)) as [->|Hne].
    + rewrite Hch. destruct c as [|e c]; cbn; [keep|]. rewrite lookup_insert_eq. cbn. split; [by eexists|by split].
    + destruct (channels b !! ch') as [[|e c']|]; cbn; [keep| |keep]. rewrite lookup_insert_ne by done. keep.
  - rewrite (proj1 (worker_channels b ok)). keep.
  - rewrite (proj2 (worker_channels b ok)). keep.
Qed.

Fixpoint listens_all (ch : nat) (b : LogBroadcaster) (l : list action) : bool :=
  match l with [] => true | a :: l => listens ch b a && listens_all ch (act b a) l end.

Lemma acts_buffered ch l : forall b, bounded b -> is_Some (channels b !! ch) ->
  heard b l ch ++ buffered (foldl act b l) ch `sublist_of` buffered b ch ++ omap said l /\
  (listens_all ch b l = true -> heard b l ch ++ buffered (foldl act b l) ch = buffered b ch ++ omap said l).
Proof.
  induction l as [|a l IH]; intros b Hb Hch; cbn [foldl heard listens_all omap list_omap]; [by rewrite app_nil_r|].
  destruct (act_buffered b a ch Hb Hch) as (Hch' & Hs & He). destruct (IH (act b a) (act_bounded _ _ Hb) Hch') as [Hs' He'].
  assert (match said a with Some x => x :: omap said l | None => omap said l end = option_list (said a) ++ omap said l) as -> by by destruct (said a).
  fold (taken b a ch). rewrite <- (app_assoc (taken b a ch)). rewrite (app_assoc (buffered b ch)). split.
  - transitivity (taken b a ch ++ buffered (act b a) ch ++ omap said l); [by apply sublist_app|]. rewrite app_assoc. by apply sublist_app.
  - intros [H1 H2]%andb_true_iff. by rewrite (He' H2), app_assoc, (He H1).
Qed.

Lemma run_app l l' : run (l ++ l') = foldl act (run l) l'.
Proof. apply foldl_app. Qed.

(** ** The theorems *)

(** However the calls interleave, nothing waits and nothing grows without bound, and
    what the store has, the worker holds and the queue holds is a part of what was
    broadcast, in that order; it is all of it where the queue never was full and the
    store took every batch, and then it is with the store once the worker has caught up. *)
Theorem log_pipeline (l : list action) :
  let b := run l in
  (length (logChan b) <= 4096)%nat /\ (forall x, batch b = Some x -> (length x < 256)%nat) /\
  pipeline b `sublist_of` omap said l /\
  (keeps_all NewLogBroadcaster l = true -> pipeline b = omap said l /\
    (store b = true -> is_Some (batch b) ->
     persisted (run (l ++ replicate (length (logChan b)) (AWorker true) ++ [ATick true])) = omap said l)).
Proof.
  cbn zeta. destruct (run_bounded l) as (Hq & Hb & _). destruct (acts_pipeline l NewLogBroadcaster) as [Hs He].
  split_and!; [done|done|exact Hs|]. intros Hk. specialize (He Hk). split; [exact He|]. intros Hst [x Hx].
  rewrite run_app. by rewrite (proj1 (drain_persists (run l) Hst x Hx)).
Qed.

(** A subscriber receives, in order, a part of what is broadcast from the moment it
    subscribes, at most 1024 entries ahead of its reading, and all of it where it never
    falls that far behind. *)
Theorem subscriber_hears (before after : list action) :
  let '(ch, b) := Subscribe (run before) in
  let final := foldl act b after in
  (length (buffered final ch) <= 1024)%nat /\
  heard b after ch ++ buffered final ch `sublist_of` omap said after /\
  (listens_all ch b after = true -> heard b after ch ++ buffered final ch = omap said after).
Proof.
  cbn. set (b := {| channels := _; batch := _ |}). set (ch := next (run before)).
  assert (bounded b) as Hb by apply (act_bounded _ ASubscribe (run_bounded before)).
  assert (channels b !! ch = Some []) as Hch by apply lookup_insert_eq.
  destruct (acts_buffered ch after b Hb ltac:(by eexists)) as [Hs He].
  assert (buffered b ch = []) as E0 by (unfold buffered; by rewrite Hch). rewrite E0 in Hs, He. split; [|done].
  destruct (acts_bounded after b Hb) as (_ & _ & Hc & _).
  unfold buffered. destruct (channels (foldl act b after) !! ch) as [c|] eqn:E; cbn; [by apply (Hc _ _ E)|unfold subscriber_size; lia].
Qed.

(** Attributes given with [WithAttrs] reach the wrapped handler only. *)
Example attributes_of_the_logger_lost :
  let h := WithAttrs {| inner_attrs := []; inner_groups := [] |} [(bs "project", bs "p1")] in
  let r := {| rec_Time := 1; rec_Level := bs "INFO"; rec_Message := bs "m"; rec_Attrs := [(bs "k", bs "v")] |} in
  inner_attrs h = [(bs "project", bs "p1")] /\
  map (fun e => fmap map_to_list (l_Attributes e)) (logChan (snd (Handle (fun _ _ => true) h NewLogBroadcaster r))) = [Some [(bs "k", bs "v")]].
Proof. vm_compute. split; reflexivity. Qed.

(** A batch the store refuses is gone: the next one is written without it. *)
Example refused_batch_lost :
  let e n := {| l_Timestamp := Some n; l_Level := []; l_Message := []; l_Attributes := None |} in
  let b := run [ASetStore true; ABroadcast (e 1); AWorker true; ATick false; ABroadcast (e 2); AWorker true; ATick true] in
  persisted b = [e 2] /\ pipeline b = [e 2].
Proof. vm_compute. split; reflexivity. Qed.
