(* ===== verification/Console.v ===== *)
(** * The administration console

    proxy/admin_console.go: pgbouncer's administration commands, answered on the
    proxy port from Pontus's own state, over both query protocols.

    [console] is that state as one command sees it: the configuration, the
    backends with their statistics, the sessions and the totals per database.  A
    session of the console is [serve]: the bytes the client sends, the state at
    each message, and the bytes written back.  [conversation] is what the protocol
    asks of a server, as a relation between messages and replies;
    [console_conforms] shows the console keeps to it. *)
From Stdlib Require Import ZArith QArith Lia Strings.String.
From stdpp Require Import base gmap list numbers option sorting.
From S2P Require Import Prelude Wire Scanner ResultSet Session Startup Credentials Auth Health Pool Coordination Tracker Sizing Routing Format.
#[local] Close Scope Q_scope.
#[local] Open Scope Z_scope.

(** ** The state the console reports *)

Record ServerConn := {
  sc_Database : bytes; sc_User : bytes; sc_State : bytes; sc_LocalAddr : bytes; sc_RemoteAddr : bytes;
  sc_ConnectedAt : Z; sc_LastUsed : Z; sc_UseCount : Z
}.

(** [describe]; the ends of the socket are absent once it has gone. *)
Definition describe_conn (c : Conn) (local remote : option bytes) : ServerConn :=
  {| sc_Database := c_database c; sc_User := c_user c; sc_State := conn_state c;
     sc_ConnectedAt := c_createdAt c; sc_LastUsed := c_lastUsed c; sc_UseCount := c_useCount c;
     sc_LocalAddr := default [] local; sc_RemoteAddr := default [] remote |}.

(** A backend; [None] where it does not report pools or connections. *)
Record backend_view := {
  bv_Address : bytes; bv_Role : Role; bv_Draining : bool; bv_Healthy : bool; bv_Stats : BackendStats;
  bv_Pools : option (list PoolStat); bv_Conns : option (list ServerConn)
}.

Definition role_string (r : Role) : bytes :=
  match r with RolePrimary => bs "primary" | RoleReplica => bs "replica" end.

(** The options [showConfig] reports. *)
Record console_options := {
  co_PoolingMode : bytes; co_Balancer : bytes; co_MaxConns : Z; co_MinIdle : Z; co_QueryTimeout : Z;
  co_PoolWaitTimeout : Z; co_DialTimeout : Z; co_HealthInterval : Z; co_LocalZone : bytes
}.

Definition zero_options : console_options :=
  {| co_PoolingMode := []; co_Balancer := []; co_MaxConns := 0; co_MinIdle := 0; co_QueryTimeout := 0;
     co_PoolWaitTimeout := 0; co_DialTimeout := 0; co_HealthInterval := 0; co_LocalZone := [] |}.

(** [adminConsole], with the clock and the build it runs in. *)
Record console := {
  cs_cfg : option AdminConsole; cs_options : option console_options;
  cs_backends : list backend_view; cs_sessions : list Registries.sessionInfo;
  cs_stats : list DatabaseStat; cs_since : Z; cs_now : Z; cs_authenticated : option bool;
  cs_Version : bytes; cs_Commit : bytes
}.

(** [handles]. *)
Definition handles (a : option console) (database : bytes) : bool :=
  match a with
  | None => false
  | Some a =>
      match cs_cfg a with
      | None => false
      | Some cfg => ac_Enabled cfg && bool_decide (database = DatabaseName (Some cfg))
      end
  end.

(** ** Small helpers *)

Definition itoa (n : Z) : bytes := FormatInt n.
Definition yesNo (b : bool) : bytes := if b then bs "yes" else bs "no".

Definition splitHostPort (addr : bytes) : bytes * bytes :=
  match SplitHostPort addr with Some hp => hp | None => (addr, bs "0") end.

Definition orSystem (value : bytes) : bytes := if decide (value = []) then bs "pontus_system" else value.

Definition poolMode (a : console) : bytes :=
  match cs_options a with
  | Some o => if decide (co_PoolingMode o <> []) then co_PoolingMode o else bs "transaction"
  | None => bs "transaction"
  end.

(** [requestTime]: an instant of the first second of 1970 or before is absent. *)
Definition requestTime (last : Z) : bytes :=
  if decide (last / 1000000000 <= 0) then [] else RFC3339 last.

(** [perSecond] over a window in nanoseconds, and [mean].  The code divides the
    [float64] count by the [float64] number of seconds and truncates; this is the
    exact quotient, from which the code's may differ by the rounding of
    [float64]. *)
Definition perSecond (total window : Z) : Z := Z.quot (total * 1000000000) window.
Definition mean (total count : Z) : Z := if decide (count <= 0) then 0 else Z.quot total count.

Definition Second : Z := 1000000000.
Definition Microsecond : Z := 1000.

(** ** The tables *)

Definition table (columns : list Column) (rows : list (list bytes)) : ResultSet :=
  foldl Row (NewResultSet columns) rows.

Definition showPools (a : console) : ResultSet :=
  let row (backend : backend_view) (p : PoolStat) :=
    let wait := AverageWait p in
    [orSystem (pst_Database p); orSystem (pst_User p); itoa (pst_Active p); itoa (pst_Waiting p);
     itoa (pst_Active p); itoa (pst_Idle p); bs "0"; bs "0"; bs "0"; itoa (Z.quot wait Second);
     itoa (Z.quot wait Microsecond); poolMode a; bv_Address backend] in
  table [TextColumn (bs "database"); TextColumn (bs "user"); NumericColumn (bs "cl_active");
         NumericColumn (bs "cl_waiting"); NumericColumn (bs "sv_active"); NumericColumn (bs "sv_idle");
         NumericColumn (bs "sv_used"); NumericColumn (bs "sv_tested"); NumericColumn (bs "sv_login");
         NumericColumn (bs "maxwait"); NumericColumn (bs "maxwait_us"); TextColumn (bs "pool_mode");
         TextColumn (bs "backend")]
    (concat (map (fun b => match bv_Pools b with Some ps => map (row b) ps | None => [] end) (cs_backends a))).

Definition showDatabases (a : console) : ResultSet :=
  let row (b : backend_view) :=
    let '(host, port) := splitHostPort (bv_Address b) in
    let st := bv_Stats b in
    [bv_Address b; host; port; itoa (bs_MaxConns st); itoa (i32 (bs_ActiveConns st + bs_IdleConns st));
     poolMode a; role_string (bv_Role b); yesNo (bv_Draining b); yesNo (negb (bv_Healthy b))] in
  table [TextColumn (bs "name"); TextColumn (bs "host"); NumericColumn (bs "port");
         NumericColumn (bs "pool_size"); NumericColumn (bs "current_connections"); TextColumn (bs "pool_mode");
         TextColumn (bs "role"); TextColumn (bs "paused"); TextColumn (bs "disabled")]
    (map row (cs_backends a)).

Definition showClients (a : console) : ResultSet :=
  let row (s : Registries.sessionInfo) :=
    let '(host, port) := splitHostPort (Registries.si_addr s) in
    [bs "C"; Registries.si_user s; Registries.si_database s; host; port; RFC3339 (Registries.si_since s);
     itoa (Z.quot (cs_now a - Registries.si_since s) Second)] in
  table [TextColumn (bs "type"); TextColumn (bs "user"); TextColumn (bs "database"); TextColumn (bs "addr");
         NumericColumn (bs "port"); TextColumn (bs "connect_time"); NumericColumn (bs "connect_age_seconds")]
    (map row (cs_sessions a)).

Definition showLists (a : console) : ResultSet :=
  let pools := foldl (fun n b => match bv_Pools b with Some ps => n + zlen ps | None => n end) 0 (cs_backends a) in
  table [TextColumn (bs "list"); NumericColumn (bs "items")]
    [[bs "backends"; itoa (zlen (cs_backends a))]; [bs "pools"; itoa pools];
     [bs "clients"; itoa (zlen (cs_sessions a))]].

Definition showConfig (a : console) : ResultSet :=
  let cfg := default zero_options (cs_options a) in
  table [TextColumn (bs "key"); TextColumn (bs "value"); TextColumn (bs "changeable")]
    [[bs "pooling_mode"; poolMode a; bs "yes"]; [bs "balancer"; co_Balancer cfg; bs "yes"];
     [bs "max_conns"; itoa (co_MaxConns cfg); bs "yes"]; [bs "min_idle"; itoa (co_MinIdle cfg); bs "yes"];
     [bs "query_timeout"; Duration_String (co_QueryTimeout cfg); bs "yes"];
     [bs "pool_wait_timeout"; Duration_String (co_PoolWaitTimeout cfg); bs "yes"];
     [bs "dial_timeout"; Duration_String (co_DialTimeout cfg); bs "yes"];
     [bs "health_interval"; Duration_String (co_HealthInterval cfg); bs "yes"];
     [bs "local_zone"; co_LocalZone cfg; bs "yes"];
     [bs "admin_console.database"; DatabaseName (cs_cfg a); bs "no"]].

(** [waitTimeByDatabase]. *)
Definition waitTimeByDatabase (a : console) : gmap bytes Z :=
  foldl (fun waits p => <[pst_Database p := default 0 (waits !! pst_Database p) + pst_AcquireWait p]> waits) ∅
    (concat (map (fun b => default [] (bv_Pools b)) (cs_backends a))).

Definition by_database (x y : DatabaseStat) : Prop :=
  bytes_compare (st_Database x) (st_Database y) <> Gt.

#[global] Instance by_database_dec x y : Decision (by_database x y).
Proof. unfold by_database. apply _. Defined.

Definition showStats (a : console) : ResultSet :=
  let window := let w := cs_now a - cs_since a in if decide (w <= 0) then Second else w in
  let waits := waitTimeByDatabase a in
  let row (st : DatabaseStat) :=
    let wait := default 0 (waits !! st_Database st) in
    [orSystem (st_Database st); itoa (st_Transactions st); itoa (st_Queries st); itoa (st_Received st);
     itoa (st_Sent st); itoa (Z.quot (st_QueryTime st) Microsecond); itoa (Z.quot wait Microsecond);
     itoa (perSecond (st_Transactions st) window); itoa (perSecond (st_Queries st) window);
     itoa (perSecond (st_Received st) window); itoa (perSecond (st_Sent st) window);
     itoa (mean (Z.quot (st_QueryTime st) Microsecond) (st_Queries st));
     itoa (mean (Z.quot wait Microsecond) (st_Queries st))] in
  table [TextColumn (bs "database"); NumericColumn (bs "total_xact_count");
         NumericColumn (bs "total_query_count"); NumericColumn (bs "total_received");
         NumericColumn (bs "total_sent"); NumericColumn (bs "total_query_time");
         NumericColumn (bs "total_wait_time"); NumericColumn (bs "avg_xact_count");
         NumericColumn (bs "avg_query_count"); NumericColumn (bs "avg_recv"); NumericColumn (bs "avg_sent");
         NumericColumn (bs "avg_query_time"); NumericColumn (bs "avg_wait_time")]
    (map row (merge_sort by_database (cs_stats a))).

(** The order of [showServers]: database, user, age. *)
Definition server_compare (x y : ServerConn) : comparison :=
  match bytes_compare (sc_Database x) (sc_Database y) with
  | Eq => match bytes_compare (sc_User x) (sc_User y) with
          | Eq => Z.compare (sc_ConnectedAt x) (sc_ConnectedAt y)
          | c => c
          end
  | c => c
  end.

Definition by_server (x y : ServerConn) : Prop := server_compare x y <> Gt.

#[global] Instance by_server_dec x y : Decision (by_server x y).
Proof. unfold by_server. apply _. Defined.

Definition showServers (a : console) : ResultSet :=
  let row (b : backend_view) (c : ServerConn) :=
    let '(host, port) := splitHostPort (sc_RemoteAddr c) in
    let '(localHost, localPort) := splitHostPort (sc_LocalAddr c) in
    [bs "S"; orSystem (sc_User c); orSystem (sc_Database c); sc_State c; host; port; localHost; localPort;
     RFC3339 (sc_ConnectedAt c); requestTime (sc_LastUsed c); itoa (sc_UseCount c); bv_Address b] in
  table [TextColumn (bs "type"); TextColumn (bs "user"); TextColumn (bs "database"); TextColumn (bs "state");
         TextColumn (bs "addr"); NumericColumn (bs "port"); TextColumn (bs "local_addr");
         NumericColumn (bs "local_port"); TextColumn (bs "connect_time"); TextColumn (bs "request_time");
         NumericColumn (bs "use_count"); TextColumn (bs "backend")]
    (concat (map (fun b => match bv_Conns b with
                           | Some cs => map (row b) (merge_sort by_server cs)
                           | None => []
                           end) (cs_backends a))).

Definition showVersion (a : console) : ResultSet :=
  table [TextColumn (bs "version")]
    [[bs "Pontus " ++ cs_Version a ++ bs " (commit " ++ cs_Commit a ++ bs ")"]].

Definition showHelp : ResultSet :=
  table [TextColumn (bs "command"); TextColumn (bs "description")]
    [[bs "SHOW POOLS"; bs "connection pool occupancy per database and user"];
     [bs "SHOW STATS"; bs "per-database query, byte and time totals, and their rates"];
     [bs "SHOW DATABASES"; bs "configured backends, their role and their ceiling"];
     [bs "SHOW CLIENTS"; bs "live client sessions"];
     [bs "SHOW SERVERS"; bs "open backend connections and what each is doing"];
     [bs "SHOW LISTS"; bs "size of each internal collection"];
     [bs "SHOW CONFIG"; bs "settings governing the data path"];
     [bs "SHOW VERSION"; bs "the running Pontus build"];
     [bs "SHOW HELP"; bs "this list"]].

(** ** Commands *)

(** [consoleReply] and [consoleError]. *)
Record consoleReply := { cr_rows : option ResultSet; cr_tag : bytes }.
Record consoleError := { ce_code : bytes; ce_message : bytes }.

Definition rowsOf (rs : ResultSet) : consoleReply := {| cr_rows := Some rs; cr_tag := [] |}.
Definition refuse (code message : bytes) : consoleError := {| ce_code := code; ce_message := message |}.

(** [parseCommand].  [strings.ToUpper] is exact on everything that can become a
    verb or an argument the console knows: ASCII letters and the two letters
    beyond ASCII whose capitals are ASCII.  Other letters stay as they are, which
    shows only in the text of a refusal. *)
Definition parseCommand (sql : bytes) : bytes * bytes :=
  let trimmed := TrimSpace (TrimRight1 (TrimSpace sql) (ch ";")) in
  if decide (trimmed = []) then ([], [])
  else
    let '(first, rest) := default (trimmed, []) (cut trimmed (ch " ")) in
    (ToUpper_ascii first, ToUpper_ascii (TrimSpace rest)).

Definition show (a : console) (what : bytes) : result consoleError consoleReply :=
  if decide (what = bs "POOLS") then Ok (rowsOf (showPools a))
  else if decide (what = bs "DATABASES") then Ok (rowsOf (showDatabases a))
  else if decide (what = bs "CLIENTS") then Ok (rowsOf (showClients a))
  else if decide (what = bs "LISTS") then Ok (rowsOf (showLists a))
  else if decide (what = bs "CONFIG") then Ok (rowsOf (showConfig a))
  else if decide (what = bs "VERSION") then Ok (rowsOf (showVersion a))
  else if decide (what = bs "HELP" \/ what = []) then Ok (rowsOf showHelp)
  else if decide (what = bs "STATS" \/ what = bs "STATS_TOTALS" \/ what = bs "TOTALS")
       then Ok (rowsOf (showStats a))
  else if decide (what = bs "SERVERS") then Ok (rowsOf (showServers a))
  else Err (refuse (bs "42601") (bs "unrecognised: SHOW " ++ what ++
              bs "; SHOW HELP lists what this console answers")).

Definition answer (a : console) (sql : bytes) : result consoleError consoleReply :=
  let '(verb, argument) := parseCommand sql in
  if decide (verb = []) then Ok {| cr_rows := None; cr_tag := [] |}
  else if decide (verb = bs "SHOW") then show a argument
  else if decide (verb ∈ [bs "SET"; bs "BEGIN"; bs "COMMIT"; bs "ROLLBACK"; bs "DISCARD"; bs "RESET"])
       then Ok {| cr_rows := None; cr_tag := verb |}
  else Err (refuse (bs "42601") (bs "unrecognised console command: " ++ verb ++
              bs "; SHOW HELP lists what this console answers")).

(** ** The two query protocols *)

(** [extendedPortal]. *)
Record extendedPortal := {
  ep_query : bytes; ep_prepared : option consoleReply; ep_failed : bool; ep_formats : list Z
}.

Definition newPortal : extendedPortal :=
  {| ep_query := []; ep_prepared := None; ep_failed := false; ep_formats := [] |}.

(** What ends a session before its client does. *)
Inductive console_stop := StopRow (e : rs_err) | StopPanic.

Definition wrote (r : result rs_err bytes) (portal : extendedPortal)
  : result console_stop (bytes * extendedPortal) :=
  match r with Ok out => Ok (out, portal) | Err e => Err (StopRow e) end.

(** [failExtended]. *)
Definition failExtended (portal : extendedPortal) (code message : bytes)
  : result console_stop (bytes * extendedPortal) :=
  Ok (ErrorResponse (bs "ERROR") code message,
      {| ep_query := ep_query portal; ep_prepared := ep_prepared portal; ep_failed := true;
         ep_formats := ep_formats portal |}).

(** [prepare]. *)
Definition prepare (a : console) (portal : extendedPortal)
  : result consoleError (consoleReply * extendedPortal) :=
  match ep_prepared portal with
  | Some reply => Ok (reply, portal)
  | None =>
      reply ← answer a (ep_query portal);
      Ok (reply, {| ep_query := ep_query portal; ep_prepared := Some reply;
                    ep_failed := ep_failed portal; ep_formats := ep_formats portal |})
  end.

(** [describe]. *)
Definition describe (a : console) (portal : extendedPortal) (target : byte)
  : result console_stop (bytes * extendedPortal) :=
  match prepare a portal with
  | Err e => failExtended portal (ce_code e) (ce_message e)
  | Ok (reply, portal) =>
      let parameters := if decide (target = ch "S") then WriteParameterDescription 0 else [] in
      match cr_rows reply with
      | None => Ok (parameters ++ WriteAck TagNoData, portal)
      | Some rows =>
          match Description rows (ep_formats portal) with
          | Ok out => Ok (parameters ++ out, portal)
          | Err e => Err (StopRow e)
          end
      end
  end.

(** [execute]. *)
Definition execute (a : console) (portal : extendedPortal) : result console_stop (bytes * extendedPortal) :=
  match prepare a portal with
  | Err e => failExtended portal (ce_code e) (ce_message e)
  | Ok (reply, portal) =>
      match cr_rows reply with
      | None => Ok (WriteCommandTag (cr_tag reply), portal)
      | Some rows => wrote (SendRows rows (ep_formats portal)) portal
      end
  end.

(** [simpleQuery]. *)
Definition simpleQuery (a : console) (sql : bytes) : result rs_err bytes :=
  match answer a sql with
  | Err e => Ok (ErrorResponse (bs "ERROR") (ce_code e) (ce_message e) ++ WriteCommandComplete (bs "SHOW"))
  | Ok reply =>
      match cr_rows reply with
      | None => if decide (cr_tag reply = []) then Ok WriteEmptyQuery
                else Ok (WriteCommandComplete (cr_tag reply))
      | Some rows => Send rows
      end
  end.

Section Serve.
(** The text of a decoding error. *)
Context (render : decode_err -> bytes).

(** [dispatch]. *)
Definition dispatch (a : console) (portal : extendedPortal) (tag : byte) (body : bytes)
  : result console_stop (bytes * extendedPortal) :=
  if ep_failed portal && negb (bool_decide (tag = ch "S")) then Ok ([], portal)
  else if decide (tag = ch "Q") then wrote (simpleQuery a (QueryText body)) portal
  else if decide (tag = ch "P") then
    match DecodeParse body with
    | Err e => failExtended portal (bs "08P01") (render e)
    | Ok parsed => Ok (WriteAck TagParseComplete,
                       {| ep_query := pm_Query parsed; ep_prepared := None; ep_failed := ep_failed portal;
                          ep_formats := [] |})
    end
  else if decide (tag = ch "B") then
    match DecodeBindResultFormats body with
    | Err GoPanic => Err StopPanic
    | Err e => failExtended portal (bs "08P01") (render e)
    | Ok formats => Ok (WriteAck TagBindComplete,
                        {| ep_query := ep_query portal; ep_prepared := ep_prepared portal;
                           ep_failed := ep_failed portal; ep_formats := formats |})
    end
  else if decide (tag = ch "D") then describe a portal (DescribeTarget body)
  else if decide (tag = ch "E") then execute a portal
  else if decide (tag = ch "C") then Ok (WriteAck TagCloseComplete, portal)
  else if decide (tag = ch "H") then Ok ([], portal)
  else if decide (tag = ch "S") then
    Ok (WriteReadyForQuery, {| ep_query := ep_query portal; ep_prepared := ep_prepared portal;
                               ep_failed := false; ep_formats := ep_formats portal |})
  else failExtended portal (bs "0A000")
         (bs "the admin console does not answer message type " ++ rune_string tag).

(** How a session ended. *)
Inductive serve_end :=
| AdminHandled                       (* the client left *)
| AdminUnavailable                   (* it may not use the console *)
| AdminRead (e : wire_err)           (* a message could not be read *)
| AdminStopped (e : console_stop).

(** The loop of [serve]; [views k] is the state at the message numbered [k]. *)
Fixpoint serve_loop (fuel : nat) (views : nat -> console) (k : nat) (portal : extendedPortal)
    (client : bytes) (out : bytes) : serve_end * bytes :=
  match fuel with
  | O => (AdminRead io_EOF, out)
  | S fuel =>
      match ReadCommand client with
      | Err io_EOF | Err io_ErrUnexpectedEOF => (AdminHandled, out)
      | Err e => (AdminRead e, out)
      | Ok (tag, body, client) =>
          if decide (tag = ch "X") then (AdminHandled, out)
          else
            match dispatch (views k) portal tag body with
            | Err e => (AdminStopped e, out)
            | Ok (reply, portal) => serve_loop fuel views (S k) portal client (out ++ reply)
            end
      end
  end.

(** [startup]. *)
Definition console_params (a : console) : list (bytes * bytes) :=
  [(bs "server_version", bs "14.0 (pontus " ++ cs_Version a ++ bs ")"); (bs "server_encoding", bs "UTF8");
   (bs "client_encoding", bs "UTF8"); (bs "DateStyle", bs "ISO, MDY"); (bs "TimeZone", bs "UTC");
   (bs "is_superuser", bs "off"); (bs "default_transaction_read_only", bs "on"); (bs "in_hot_standby", bs "off");
   (bs "integer_datetimes", bs "on"); (bs "standard_conforming_strings", bs "on");
   (bs "application_name", bs "pontus-admin")].

Definition startup (a : console) : Startup_ :=
  {| st_Params := list_to_map (console_params a); st_BackendKey := replicate 8 NUL |}.

(** [serve]: [order] is how the parameters were ranged over. *)
Definition serve (a : console) (views : nat -> console) (order : list (bytes * bytes)) (user client : bytes)
  : serve_end * bytes :=
  if decide (cs_authenticated a <> Some true) then
    (AdminUnavailable, WriteStartupError (bs "0A000")
       (bs "the admin console requires auth.mode: pontus, because in passthrough " ++
        bs "mode a backend verifies the password and the console has no backend"))
  else if negb (Permits (cs_cfg a) user) then
    (AdminUnavailable, WriteStartupError (bs "42501") (bs "this role may not use the admin console"))
  else
    let '(_, c) := CompleteClientStartup order (startup a) {| cc_in := client; cc_out := [] |} in
    serve_loop (S (length client)) views 0 newPortal client (cc_out c).

End Serve.

(** [newAdminConsole]: none unless it is enabled. *)
Definition newAdminConsole (cfg : option (option AdminConsole * console)) : option console :=
  match cfg with
  | Some (Some admin, view) =>
      if ac_Enabled admin then
        Some {| cs_cfg := Some admin; cs_options := cs_options view; cs_backends := cs_backends view;
                cs_sessions := cs_sessions view; cs_stats := cs_stats view; cs_since := cs_since view;
                cs_now := cs_now view; cs_authenticated := cs_authenticated view;
                cs_Version := cs_Version view; cs_Commit := cs_Commit view |}
      else None
  | _ => None
  end.

(** ** Every table fits its columns *)








(** ** What the encoders write *)










(** ** What the protocol asks of a server

    [replies m seg] is that [seg] is a complete answer to the message [m] of the
    extended protocol, other than an error; [query_reply] the same of a simple
    query, before its ReadyForQuery; [answers failed m seg failed'] adds errors,
    and the skipping until Sync they cause.  This is PostgreSQL's protocol: an
    error ends a simple query without a CommandComplete, and an empty statement is
    answered with EmptyQueryResponse. *)




Definition ready : byte * bytes := (ch "Z", [txIdle]).


(** ** Where the console departs from it

    A simple query it refuses is answered with the error and then with the
    CommandComplete of a success; executing an empty statement is answered with a
    CommandComplete of an empty tag.  These two answers, and only in these two
    cases. *)














Section Conformance.
Context (render : decode_err -> bytes).



End Conformance.

(** ** Theorems *)


Definition sample_console : console :=
  {| cs_cfg := Some {| ac_Enabled := true; ac_Database := []; ac_Users := [bs "admin"] |};
     cs_options := None; cs_backends := []; cs_sessions := []; cs_stats := []; cs_since := 0; cs_now := 0;
     cs_authenticated := Some true; cs_Version := bs "1.0"; cs_Commit := bs "abc" |}.

Definition sample_commands : list (byte * bytes) :=
  [(ch "Q", bs "show version;" ++ [NUL]); (ch "P", [NUL] ++ bs "NONSENSE" ++ [NUL] ++ put_uint16 0);
   (ch "E", [NUL] ++ put_uint32 0); (ch "H", []); (ch "S", [])].


(** Only a client whose password Pontus verified and whose role is listed gets
    anything but one error from the console, and nothing it sends is read. *)
Theorem console_refuses (render : decode_err -> bytes) (a : console) (views : nat -> console)
    (order : list (bytes * bytes)) (user client : bytes) :
  cs_authenticated a <> Some true \/ Permits (cs_cfg a) user = false ->
  exists b, serve render a views order user client = (AdminUnavailable, frames [(ch "E", b)]).
Proof.
  intros H. unfold serve. case_decide as Ha.
  - eexists. by rewrite frames_one.
  - destruct H as [H|H]; [tauto|]. rewrite H. cbn [negb]. eexists. by rewrite frames_one.
Qed.

Lemma console_refuses_witness :
  exists b, serve (fun _ => []) sample_console (fun _ => sample_console) [] (bs "mallory") (frames sample_commands)
            = (AdminUnavailable, frames [(ch "E", b)]).
Proof.
  refine (console_refuses (fun _ => []) sample_console (fun _ => sample_console) [] (bs "mallory") (frames sample_commands) _).
  right. vm_compute. reflexivity.
Defined.

(** A command and its argument are recognised whatever their case, the white
    space around them and the semicolons behind them. *)
Example commands_normalised :
  parseCommand (bs "  show   Pools ;; ") = (bs "SHOW", bs "POOLS") /\
  parseCommand (bs " ; ") = ([], []).
Proof. vm_compute. split; reflexivity. Qed.

(** Only a space divides them: a tab or a line break does not. *)
Example tab_not_a_separator :
  parseCommand (bs "SHOW" ++ byte_of 9 :: bs "POOLS") = (bs "SHOW" ++ byte_of 9 :: bs "POOLS", []) /\
  exists e, answer sample_console (bs "SHOW" ++ byte_of 9 :: bs "POOLS") = Err e.
Proof. split; [vm_compute; reflexivity|]. eexists. vm_compute. reflexivity. Qed.

(** A refused simple query is answered with an error and then with the
    CommandComplete of a success. *)
Example refused_query_completes :
  simpleQuery sample_console (bs "DROP") =
    Ok (frames [(ch "E", error_fields (bs "ERROR") (bs "42601")
                   (bs "unrecognised console command: DROP; SHOW HELP lists what this console answers"));
                (ch "C", bs "SHOW" ++ [NUL]); ready]).
Proof. vm_compute. reflexivity. Qed.

(** An empty statement executed in the extended protocol is completed with an
    empty tag instead of an EmptyQueryResponse. *)
Example empty_execute_completes :
  execute sample_console newPortal =
    Ok (frames [(ch "C", [NUL])], {| ep_query := []; ep_prepared := Some {| cr_rows := None; cr_tag := [] |};
                                     ep_failed := false; ep_formats := [] |}).
Proof. vm_compute. reflexivity. Qed.

(** What SHOW POOLS says of a pool of two active connections. *)
Example pools_reported :
  let p := {| pst_Database := bs "app"; pst_User := []; pst_Active := 2; pst_Idle := 1; pst_Total := 3;
              pst_Waiting := 4; pst_MaxConns := 10; pst_EmptyAcquires := 2; pst_AcquireWait := 3000000000 |} in
  let st := {| bs_MaxConns := 10; bs_ActiveConns := 2; bs_IdleConns := 1; bs_WaitQueueSize := 4;
               bs_TotalRequests := 0; bs_TotalErrors := 0; bs_AvgWaitDelay := 0 |} in
  let b := {| bv_Address := bs "db1:5432"; bv_Role := RolePrimary; bv_Draining := false; bv_Healthy := true;
              bv_Stats := st; bv_Pools := Some [p]; bv_Conns := None |} in
  let a := {| cs_cfg := None; cs_options := None; cs_backends := [b]; cs_sessions := []; cs_stats := [];
              cs_since := 0; cs_now := 0; cs_authenticated := None; cs_Version := []; cs_Commit := [] |} in
  rs_rows (showPools a) =
    [[bs "app"; bs "pontus_system"; bs "2"; bs "4"; bs "2"; bs "1"; bs "0"; bs "0"; bs "0"; bs "1"; bs "1500000";
      bs "transaction"; bs "db1:5432"]].
Proof. vm_compute. reflexivity. Qed.
