(* ===== verification/Mysql.v ===== *)
(** * The MySQL handler

    protocol/mysql_handler.go and mysql_replication.go: packets with a three-byte
    little-endian length and a sequence number, the commands and statements the
    gateway reads in them, the session settings it replays and the checks it runs.

    Reads and writes of the checks are a script, as in Probes; the order in which
    the settings are replayed is an argument.  The normal form of a statement is
    computed by a third-party parser and is not modelled.  Keys outside ASCII keep
    their case here. *)
From Stdlib Require Import ZArith Lia Strings.String.
From stdpp Require Import base gmap list numbers option.
From S2P Require Import Prelude Wire Scanner Lexer Session Startup Relay Tokenizer Pool Probes Format.

(** ** Packets *)

Definition le_uint24 (a b c : byte) : Z :=
  Z.lor (Z.lor (bval a) (Z.shiftl (bval b) 8)) (Z.shiftl (bval c) 16).

Definition put_uint24 (n : Z) : bytes := [byte_of n; byte_of (Z.shiftr n 8); byte_of (Z.shiftr n 16)].

Definition comQuit : byte := byte_of 1.
Definition comQuery : byte := byte_of 3.
Definition comStmtPrepare : byte := byte_of 22.
Definition comPing : byte := byte_of 14.

(** The payload of the first packet of [data], where all of it is there. *)
Definition packet_payload (data : bytes) : option bytes :=
  match data with
  | a :: b :: c :: _ :: ((_ :: _) as rest) =>
      let payloadLength := le_uint24 a b c in
      if decide (zlen rest < payloadLength) then None else Some (ztake payloadLength rest)
  | _ => None
  end.

(** [extractQuery]. *)
Definition extractQuery (data : bytes) : bytes :=
  match packet_payload data with
  | Some (t :: query) => if decide (t = comQuery \/ t = comStmtPrepare) then query else []
  | _ => []
  end.

(** [writeQuery]: the bytes written. *)
Definition writeQuery (query : bytes) : bytes :=
  put_uint24 (1 + zlen query) ++ byte_of 0 :: comQuery :: query.

(** [PeekTransactionState]: the status flags of the last OK or EOF packet. *)
Definition packet_state (payload : bytes) (state : TransactionState) : TransactionState :=
  match payload with
  | [] => state
  | t :: _ =>
      if decide (t = byte_of 0 \/ t = byte_of 254) then
        let at_ i := bval (default NUL (payload !! i)) in
        let n := length payload in
        let statusFlags :=
          if decide (t = byte_of 0 /\ (7 <= n)%nat) then Z.lor (at_ (n - 4)%nat) (Z.shiftl (at_ (n - 3)%nat) 8)
          else if decide (t = byte_of 254 /\ (5 <= n)%nat) then Z.lor (at_ 3%nat) (Z.shiftl (at_ 4%nat) 8)
          else 0 in
        if decide (Z.land statusFlags 1 = 0) then StateIdle else StateInTransaction
      else state
  end.

Fixpoint mysql_peek_loop (fuel : nat) (data : bytes) (state : TransactionState) : TransactionState :=
  match fuel with
  | O => state
  | S fuel =>
      match data with
      | a :: b :: c :: _ :: rest =>
          let payloadLength := le_uint24 a b c in
          if decide (zlen rest < payloadLength) then state
          else mysql_peek_loop fuel (zdrop payloadLength rest) (packet_state (ztake payloadLength rest) state)
      | _ => state
      end
  end.

Definition mysql_PeekTransactionState (data : bytes) : TransactionState :=
  mysql_peek_loop (length data) data StatePartial.

(** ** Classification *)

(** The tables of a statement, as the regular expression finds them: one of five
    words in any case, white space, then a run of name characters. *)
Definition table_words : list bytes := map bs ["FROM"; "JOIN"; "UPDATE"; "INTO"; "TABLE"]%string.

Definition regex_space (c : byte) : bool := bool_decide (bval c ∈ [9; 10; 12; 13; 32]).

Definition name_byte (c : byte) : bool :=
  let v := bval c in
  bool_decide (97 <= v <= 122) || bool_decide (65 <= v <= 90) || bool_decide (48 <= v <= 57) ||
  bool_decide (v ∈ [95; 34; 46]).

Fixpoint skip_while (p : byte -> bool) (s : bytes) : bytes :=
  match s with [] => [] | c :: r => if p c then skip_while p r else s end.

(** A name character: of the class, or one of the two code points that fold to a
    letter of it, the long s and the Kelvin sign. *)
Fixpoint name_run (s : bytes) : bytes * bytes :=
  match s with
  | Corelib.Init.Byte.xc5 :: Corelib.Init.Byte.xbf :: r =>
      let '(n, rest) := name_run r in (Corelib.Init.Byte.xc5 :: Corelib.Init.Byte.xbf :: n, rest)
  | Corelib.Init.Byte.xe2 :: Corelib.Init.Byte.x84 :: Corelib.Init.Byte.xaa :: r =>
      let '(n, rest) := name_run r in
      (Corelib.Init.Byte.xe2 :: Corelib.Init.Byte.x84 :: Corelib.Init.Byte.xaa :: n, rest)
  | c :: r => if name_byte c then let '(n, rest) := name_run r in (c :: n, rest) else ([], s)
  | [] => ([], [])
  end.

(** A match at the front of [s]: the name and what follows it. *)
Definition match_table (s : bytes) : option (bytes * bytes) :=
  let try (word : bytes) :=
    if decide (map ascii_upper_byte (take (length word) s) = word) then
      let after := drop (length word) s in
      let name := skip_while regex_space after in
      if decide (length name < length after)%nat then
        match name_run name with
        | ([], _) => None
        | found => Some found
        end
      else None
    else None in
  head (omap try table_words).

Fixpoint find_tables (fuel : nat) (s : bytes) : list bytes :=
  match fuel with
  | O => []
  | S fuel =>
      match match_table s with
      | Some (name, rest) => name :: find_tables fuel rest
      | None => match s with [] => [] | _ :: r => find_tables fuel r end
      end
  end.

Definition quote_byte (c : byte) : bool := bool_decide (bval c ∈ [96; 34]).

Definition trim_backquotes (s : bytes) : bytes := rev (skip_while quote_byte (rev (skip_while quote_byte s))).

Definition extractTables (query : bytes) : list bytes :=
  foldl (fun tables t => let t := ToLower_ascii (trim_backquotes t) in
                         if decide (t ∈ tables) then tables else tables ++ [t])
        [] (find_tables (S (length query)) query).

Definition HasPrefix (s prefix : bytes) : bool := bool_decide (take (length prefix) s = prefix).

(** [ClassifyQuery]. *)
Definition mysql_ClassifyQuery (data : bytes) : QueryInfo :=
  let query := extractQuery data in
  if decide (query = []) then {| ReadOnly := false; InTransaction := false; AffectedTables := [] |}
  else
    let upper := ToUpper_ascii (TrimSpace query) in
    let tables := extractTables query in
    let info ro := {| ReadOnly := ro; InTransaction := false; AffectedTables := tables |} in
    if HasPrefix upper (bs "SELECT") || HasPrefix upper (bs "SHOW") || HasPrefix upper (bs "DESCRIBE") ||
       HasPrefix upper (bs "EXPLAIN") then
      if HasPrefix upper (bs "SELECT") &&
         (Contains upper (bs "FOR UPDATE") || Contains upper (bs "LOCK IN SHARE MODE") ||
          Contains upper (bs "FOR SHARE")) then info false
      else info true
    else info false.

(** [IsTerminate], [Cacheable], [ResponseEndFor], [IsPinned]. *)
Definition mysql_IsTerminate (data : bytes) : bool := bool_decide (data !! 4%nat = Some comQuit).
Definition mysql_Cacheable (data : bytes) : bool := bool_decide (data !! 4%nat = Some comQuery).
Definition mysql_ResponseEndFor (data : bytes) : ResponseEnd := {| OnReadyForQuery := true; Tags := [] |}.
Definition mysql_IsPinned (state : option SessionState) : bool :=
  match state with None => false | Some s => Pinned s end.
Definition mysql_IsReadOnlyError (data : bytes) : bool := Contains data (bs "1290").

(** ** Session settings *)

(** [strings.Fields]. *)
Fixpoint fields_loop (fuel : nat) (s word : bytes) : list bytes :=
  match fuel with
  | O => []
  | S fuel =>
      match strip_one s with
      | Some r => (if decide (word = []) then [] else [word]) ++ fields_loop fuel r []
      | None => match s with
                | [] => if decide (word = []) then [] else [word]
                | c :: r => fields_loop fuel r (word ++ [c])
                end
      end
  end.

Definition Fields (s : bytes) : list bytes := fields_loop (S (length s)) s [].

(** [strings.Join(parts, " ")]. *)
Fixpoint Join (parts : list bytes) : bytes :=
  match parts with [] => [] | [p] => p | p :: r => p ++ ch " " :: Join r end.

Definition mysql_TrackSessionState (state : SessionState) (data : bytes) : SessionState :=
  match packet_payload data with
  | Some (t :: text) =>
      if decide (t <> comQuery) then state
      else
        let query := TrimSpace text in
        if HasPrefix (ToUpper_ascii query) (bs "SET ") then
          match Fields (drop 4 query) with
          | key :: ((_ :: _) as val) => set_Vars state (<[ToLower_ascii key := Join val]> (Vars state))
          | _ => state
          end
        else state
  | _ => state
  end.

(** [TrackPreparedStatement]. *)
Definition mysql_TrackPreparedStatement (state : SessionState) (data : bytes) : SessionState :=
  match packet_payload data with
  | Some (t :: query) => if decide (t <> comStmtPrepare) then state
                         else set_Stmts state (<[query := query]> (Stmts state))
  | _ => state
  end.

(** ** On a server connection *)

Definition read_once {A} (k : bytes -> result probe_err A) : Probe A := fun c =>
  match cn_reads c with
  | [] => Waiting
  | Failed :: reads => Finished (Err PRead) (with_reads c reads)
  | Data b :: reads => Finished (k b) (with_reads c reads)
  end.

Definition setting_query (kv : bytes * bytes) : bytes := bs "SET " ++ fst kv ++ ch " " :: snd kv.

(** [ReplaySessionState]: one setting at a time, each followed by one read
    whose contents are not looked at. *)
Fixpoint replay_settings (order : list (bytes * bytes)) : Probe unit :=
  match order with
  | [] => mret tt
  | kv :: order =>
      _ ← conn_Write (writeQuery (setting_query kv));
      _ ← read_once (fun _ => Ok tt);
      replay_settings order
  end.

Definition err_packet (b : bytes) : bool := bool_decide (b !! 4%nat = Some (byte_of 255)).

(** [DeepCheck], [Execute], [IsReadOnly]. *)
Definition mysql_DeepCheck : Probe unit :=
  _ ← conn_Write [byte_of 1; byte_of 0; byte_of 0; byte_of 0; comPing];
  read_once (fun b => if err_packet b then Err (PRefused []) else Ok tt).

Definition mysql_Execute (query : bytes) : Probe unit :=
  _ ← conn_Write (writeQuery query);
  read_once (fun b => if err_packet b then Err (PRefused (drop 4 b)) else Ok tt).

Definition mysql_IsReadOnly : Probe bool :=
  _ ← conn_Write (writeQuery (bs "SELECT @@read_only"));
  read_once (fun b => Ok (Contains b (bs "1"))).

(** [Handshake]: three reads, each forwarded to the other side as it is; the
    writes succeed. *)
Definition mysql_Handshake (greeting response verdict : option bytes) : option (bytes * bytes) :=
  match greeting with
  | None => None
  | Some g => match response with
              | None => None
              | Some r => match verdict with
                          | None => None
                          | Some v => Some (g ++ v, r)      (* to the client, to the server *)
                          end
              end
  end.

(** ** Lemmas *)

Lemma le_uint24_put n :
  match put_uint24 n with [a; b; c] => le_uint24 a b c = n mod 2 ^ 24 | _ => False end.
Proof.
  unfold put_uint24, le_uint24. rewrite !Z.shiftr_div_pow2 by lia.
  assert (forall x y k, 0 <= k -> 0 <= x < 2 ^ k -> Z.lor x (Z.shiftl y k) = x + y * 2 ^ k) as Hlor.
  { intros x y k Hk Hx. rewrite Z.lor_comm, lor_shiftl_add by done. lia. }
  rewrite (Hlor (bval _) (bval _) 8), Hlor, !bval_byte_of;
    pose proof (Z.mod_pos_bound n 256); pose proof (Z.mod_pos_bound (n / 2 ^ 8) 256);
    rewrite ?bval_byte_of; try lia.
  change (2 ^ 24) with (256 * (256 * 256)). change (2 ^ 16) with (256 * 256). change (2 ^ 8) with 256.
  Z.to_euclidean_division_equations. lia.
Qed.

Lemma packet_payload_write query rest :
  packet_payload (writeQuery query ++ rest) =
  let n := (1 + zlen query) mod 2 ^ 24 in
  Some (ztake n (comQuery :: query ++ rest)).
Proof.
  unfold writeQuery. pose proof (le_uint24_put (1 + zlen query)) as H. unfold put_uint24 in *.
  cbn [app packet_payload]. rewrite H. cbv zeta. rewrite decide_False; [done|].
  pose proof (Z.mod_le (1 + zlen query) (2 ^ 24)). pose proof (zlen_nonneg query). pose proof (zlen_nonneg rest).
  zlen_simpl. lia.
Qed.

(** ** Theorems *)

(** A statement written as a packet is read back exactly from the front of any
    stream, as long as it fits one packet; a longer one is announced with the low
    24 bits of its length, and a reader gets a proper prefix of it. *)
Theorem query_packet_roundtrip (query rest : bytes) :
  (1 + zlen query < 2 ^ 24 -> extractQuery (writeQuery query ++ rest) = query) /\
  (2 ^ 24 <= 1 + zlen query ->
   exists n, extractQuery (writeQuery query ++ rest) = take n query /\ (n < length query)%nat).
Proof.
  pose proof (zlen_nonneg query) as Hz. unfold extractQuery. rewrite packet_payload_write. cbv zeta. split; intros Hl.
  - rewrite Z.mod_small by lia. rewrite <- (zlen_cons comQuery query), app_comm_cons, ztake_app.
    by rewrite decide_True by (by left).
  - set (k := (1 + zlen query) mod 2 ^ 24).
    assert (0 <= k < 2 ^ 24) as Hk by (apply Z.mod_pos_bound; lia).
    rewrite ztake_take. destruct (Z.to_nat k) as [|n] eqn:En; cbn [take].
    + exists 0%nat. split; [done|]. unfold zlen in Hl. lia.
    + rewrite decide_True by (by left). exists n. unfold zlen in *.
      split; [apply take_app_le|]; lia.
Qed.

Lemma query_packet_roundtrip_witness :
  extractQuery (writeQuery (bs "SELECT 1") ++ bs "next") = bs "SELECT 1".
Proof. refine (proj1 (query_packet_roundtrip (bs "SELECT 1") (bs "next")) _). vm_compute. reflexivity. Defined.

(** A replay sends every tracked setting once, in the order of the range, and
    reads once after each; it stops at the first connection error only. *)
Theorem settings_replayed (order : list (bytes * bytes)) (replies : list bytes) (c : conn)
    (w : list bool) (rest : list read) :
  length replies = length order ->
  cn_writes c = replicate (length order) true ++ w -> cn_reads c = map Data replies ++ rest ->
  replay_settings order c =
    Finished (Ok tt) {| cn_writes := w; cn_reads := rest;
                        cn_sent := cn_sent c ++ map (fun kv => writeQuery (setting_query kv)) order |}.
Proof.
  revert replies c. induction order as [|kv order IH]; intros [|r replies] c Hl Hw Hr; try done.
  { destruct c as [cw cr cs]. cbn in *. subst. by rewrite app_nil_r. }
  destruct c as [cw cr cs]. cbn in Hw, Hr. subst cw cr.
  cbn [replay_settings map app]. unfold mbind, Probe_bind, conn_Write, read_once, with_reads.
  cbn [cn_writes cn_reads cn_sent app replicate length].
  rewrite (IH replies); [|by injection Hl|done|done]. cbn [cn_sent]. by rewrite <- app_assoc.
Qed.

Lemma settings_replayed_witness :
  replay_settings [(bs "names", bs "utf8mb4")] {| cn_writes := [true]; cn_reads := [Data []]; cn_sent := [] |} =
  Finished (Ok tt) {| cn_writes := []; cn_reads := []; cn_sent := [writeQuery (bs "SET names utf8mb4")] |}.
Proof.
  refine (settings_replayed [(bs "names", bs "utf8mb4")] [[]] {| cn_writes := [true]; cn_reads := [Data []]; cn_sent := [] |}
    [] [] _ _ _); reflexivity.
Defined.

(** ** What the handler misses *)

Definition track (queries : list bytes) : SessionState :=
  foldl (fun s q => mysql_TrackSessionState s (writeQuery q)) newSessionState queries.

(** A setting is tracked as it is replayed. *)
Example setting_tracked :
  Vars (track [bs "SET NAMES  utf8mb4"; bs "set @a = 1"]) = {[ bs "names" := bs "utf8mb4"; bs "@a" := bs "= 1" ]}.
Proof. vm_compute. reflexivity. Qed.

(** Without white space around the sign a setting is not tracked. *)
Example unspaced_setting_lost : Vars (track [bs "SET autocommit=0"]) = ∅.
Proof. vm_compute. reflexivity. Qed.

(** Settings with a scope share one key, so only the last is replayed. *)
Example scoped_settings_collide :
  Vars (track [bs "SET SESSION sql_mode = 'ANSI'"; bs "SET SESSION time_zone = '+00:00'"])
  = {[ bs "session" := bs "time_zone = '+00:00'" ]}.
Proof. vm_compute. reflexivity. Qed.

(** The number of settings has no bound, unlike that of a PostgreSQL session. *)
Example settings_not_bounded :
  (maxSessionVars < size (Vars (track (map (fun k => bs "SET v" ++ FormatInt k ++ bs " = 1") (seqZ 0 65)))))%nat.
Proof. vm_compute. apply le_n. Qed.

Definition err_reply : bytes := put_uint24 9 ++ byte_of 1 :: byte_of 255 :: byte_of 10 :: byte_of 5 :: bs "#HY000".

(** A setting the server refuses counts as replayed. *)
Example refused_setting_ignored :
  err_packet err_reply = true /\
  exists c, replay_settings [(bs "names", bs "nonsense")]
    {| cn_writes := [true]; cn_reads := [Data err_reply]; cn_sent := [] |} = Finished (Ok tt) c.
Proof. split; [vm_compute; reflexivity|]. eexists. vm_compute. reflexivity. Qed.

(** A row that holds the digits of the error number is taken for the error. *)
Example row_read_as_error :
  let row := put_uint24 6 ++ byte_of 3 :: byte_of 5 :: bs "11290" in
  err_packet row = false /\ mysql_IsReadOnlyError row = true.
Proof. vm_compute. split; reflexivity. Qed.

(** An OK packet inside a transaction with a message behind its flags is read as
    outside of one: the flags are looked for at the end of the packet. *)
Example ok_message_hides_transaction :
  let ok := byte_of 0 :: map byte_of [0; 0; 1; 0; 0; 0] in
  packet_state ok StatePartial = StateInTransaction /\
  packet_state (ok ++ bs "Rows") StatePartial = StateIdle.
Proof. vm_compute. split; reflexivity. Qed.

(** The gateway looks for the end of every reply with the PostgreSQL scanner,
    which does not find it in the OK packet that ends a MySQL reply. *)
Example mysql_reply_has_no_end :
  let ok := put_uint24 7 ++ byte_of 1 :: map byte_of [0; 0; 0; 2; 0; 0; 0] in
  mysql_PeekTransactionState ok = StateIdle /\
  match feed (newReplyScanner (mysql_ResponseEndFor ok)) ok with
  | Some (_, done, _) => done = false
  | None => False
  end.
Proof. vm_compute. split; reflexivity. Qed.
