(* ===== verification/Host.v ===== *)
(** * The database host the agent runs on

    What the agent's code sees of its host: a tree of files, the system calls of
    package [os], the PostgreSQL programs it runs, and the progress it streams
    back.  A computation is a state transformer over a [host] that also keeps
    every file tree the host went through, since the agent can be killed between
    any two of its calls; [wp] is the rule of reasoning about such computations,
    with an invariant on the trees passed through.

    Every system call can fail for reasons of its own ([fault]); a failed removal
    leaves an arbitrary part of the tree, a failed write an arbitrary file.  The
    programs are [exec], code outside the repository.  Paths are resolved without
    symbolic links, relative ones from the root, which is a service's working
    directory. *)
From Stdlib Require Import ZArith Lia Strings.String.
From stdpp Require Import base gmap list numbers option fin_maps sorting.
From S2P Require Import Prelude Credentials Format.
#[local] Open Scope Z_scope.

(** ** Paths *)

Definition path := list bytes.
Definition slash : byte := ch "/".

(** The lexical rules of [filepath.Clean] on the components of a rooted path. *)
Fixpoint clean_parts (acc parts : list bytes) : path :=
  match parts with
  | [] => rev acc
  | p :: r =>
      if decide (p = [] \/ p = bs ".") then clean_parts acc r
      else if decide (p = bs "..") then clean_parts (tail acc) r
      else clean_parts (p :: acc) r
  end.

Definition resolve (p : bytes) : path := clean_parts [] (split_on slash p).

Fixpoint render (p : path) : bytes :=
  match p with [] => [] | x :: r => slash :: x ++ render r end.

Definition IsAbs (p : bytes) : bool := bool_decide (head p = Some slash).

(** [filepath.Clean], [Join], [Base] and [Dir] of a rooted path. *)
Definition Clean (p : bytes) : bytes := if decide (resolve p = []) then [slash] else render (resolve p).
Definition JoinPath (dir name : bytes) : bytes := Clean (dir ++ slash :: name).
Definition BasePath (p : bytes) : bytes := default p (last (split_on slash p)).
Definition DirPath (p : bytes) : bytes :=
  Clean (take (match lastIndexByte p slash with Some i => S i | None => 0 end) p).

(** A component the kernel takes as it is. *)
Definition plain (x : bytes) : Prop := x <> [] /\ x <> bs "." /\ x <> bs ".." /\ slash ∉ x.

Lemma split_on_notin c s : c ∉ s -> split_on c s = [s].
Proof.
  induction s as [|x s IH]; intros H; [done|]. cbn [split_on].
  rewrite decide_False by set_solver. by rewrite IH by set_solver.
Qed.

Lemma split_on_cons c s r : c ∉ s -> split_on c (s ++ c :: r) = s :: split_on c r.
Proof.
  induction s as [|x s IH]; intros H; cbn [app split_on]; [by rewrite decide_True|].
  rewrite decide_False by set_solver. by rewrite IH by set_solver.
Qed.

Lemma clean_parts_plain acc parts : Forall plain parts -> clean_parts acc parts = rev acc ++ parts.
Proof.
  intros H. revert acc. induction H as [|x l (? & ? & ? & ?) _ IH]; intros acc; cbn [clean_parts]; [by rewrite app_nil_r|].
  rewrite !decide_False by tauto. rewrite IH. cbn [rev]. by rewrite <- app_assoc.
Qed.

Lemma split_on_render p : Forall plain p -> split_on slash (render p) = [] :: p.
Proof.
  intros H. destruct p as [|x p]; [done|].
  assert (forall y q, Forall plain (y :: q) -> split_on slash (y ++ render q) = y :: q) as Hs.
  { intros y q; revert y. induction q as [|z q IH]; intros y Hq.
    - cbn [render]. rewrite app_nil_r. apply split_on_notin. by apply Forall_inv in Hq as (? & ? & ? & ?).
    - cbn [render]. apply Forall_cons_iff in Hq as [(? & ? & ? & ?) Hq].
      rewrite split_on_cons by done. f_equal. by apply IH. }
  cbn [render]. etransitivity; [apply (split_on_cons slash []); set_solver|]. f_equal. by apply Hs.
Qed.

Lemma resolve_render p : Forall plain p -> resolve (render p) = p.
Proof. intros H. unfold resolve. rewrite split_on_render by done. cbn. by rewrite clean_parts_plain. Qed.

Lemma render_app p q : render (p ++ q) = render p ++ render q.
Proof. induction p as [|x p IH]; cbn; [done|]. by rewrite IH, app_assoc. Qed.

(** A suffix written behind a clean path extends its last component. *)
Lemma resolve_suffix p x suf :
  Forall plain (p ++ [x]) -> plain (x ++ suf) -> resolve (render (p ++ [x]) ++ suf) = p ++ [x ++ suf].
Proof.
  intros H Hs. rewrite render_app. cbn [render]. rewrite app_nil_r, <- app_assoc. cbn [app].
  transitivity (resolve (render (p ++ [x ++ suf]))).
  - by rewrite render_app; cbn [render]; rewrite app_nil_r.
  - apply resolve_render. apply Forall_app in H as [? _]. apply Forall_app. split; [done|by constructor].
Qed.

Definition apart (p q : path) : Prop := ~ p `prefix_of` q /\ ~ q `prefix_of` p.

#[global] Instance plain_dec x : Decision (plain x).
Proof. unfold plain. apply _. Defined.

Lemma resolve_JoinPath p name :
  Forall plain p -> plain name -> resolve (JoinPath (render p) name) = p ++ [name].
Proof.
  intros Hp Hn. assert (Forall plain (p ++ [name])) as Hf. { apply Forall_app. split; [done|by constructor]. }
  unfold JoinPath, Clean. replace (render p ++ slash :: name) with (render (p ++ [name])).
  - rewrite !resolve_render by done. rewrite decide_False by (by destruct p). by apply resolve_render.
  - rewrite render_app. cbn [render]. by rewrite app_nil_r.
Qed.

(** Whatever the directory, the joined path ends with the name. *)
Lemma split_on_joined c s r : split_on c (s ++ c :: r) = split_on c s ++ split_on c r.
Proof.
  induction s as [|x s IH]; cbn [app split_on]; [by rewrite decide_True|]. rewrite IH.
  case_decide; [done|]. destruct (split_on c s) as [|f fs] eqn:E; [|done]. exfalso.
  clear -E. destruct s as [|y s]; [done|]. cbn in E. case_decide; [done|]. by destruct (split_on c s).
Qed.

Lemma clean_parts_snoc acc parts x : plain x -> clean_parts acc (parts ++ [x]) = clean_parts acc parts ++ [x].
Proof.
  intros Hx. revert acc. induction parts as [|y parts IH]; intros acc; cbn [app].
  - rewrite clean_parts_plain by (by constructor). done.
  - cbn [clean_parts]. repeat case_decide; apply IH.
Qed.

Lemma JoinPath_suffix dir name : plain name -> name `suffix_of` JoinPath dir name.
Proof.
  intros Hn. unfold JoinPath, Clean, resolve. rewrite split_on_joined, (split_on_notin _ name) by apply Hn.
  rewrite clean_parts_snoc by done. rewrite decide_False by (intros H; by apply app_nil in H as [_ ?]).
  rewrite render_app. cbn [render]. rewrite app_nil_r. eexists (_ ++ [slash]). by rewrite <- app_assoc.
Qed.

Lemma apart_siblings (p : path) (x y : bytes) : x <> y -> apart (p ++ [x]) (p ++ [y]).
Proof.
  intros H. split; intros [r Hr]; rewrite <- app_assoc in Hr; apply app_inv_head in Hr; injection Hr as ->; done.
Qed.

Lemma apart_sym p q : apart p q -> apart q p.
Proof. intros [? ?]. by split. Qed.

(** ** The file tree *)

(** A file or a directory with its owner's uid and gid. *)
Inductive node := RegularFile (owner : Z * Z) (content : bytes) | Directory (owner : Z * Z).

#[global] Instance node_eq_dec : EqDecision node.
Proof. solve_decision. Defined.

Definition node_owner (n : node) : Z * Z := match n with RegularFile o _ => o | Directory o => o end.
Definition IsDir (n : node) : bool := match n with Directory _ => true | _ => false end.

Notation fs := (gmap path node).

Definition find (f : fs) (p : path) : option node :=
  match p with [] => Some (Directory (0, 0)) | _ => f !! p end.

Lemma find_snoc f p x : find f (p ++ [x]) = f !! (p ++ [x]).
Proof. by destruct p. Qed.

(** The tree below a path, by the paths relative to it; the tree without it; the
    tree with another put in its place. *)
Definition strip (p k : path) : option path := if decide (p `prefix_of` k) then Some (drop (length p) k) else None.

Definition subtree (p : path) (f : fs) : fs :=
  list_to_map (omap (fun '(k, v) => k ← strip p k; Some (k, v)) (map_to_list f)).
Definition prune (p : path) (f : fs) : fs := filter (fun kv => ~ p `prefix_of` kv.1) f.
Definition graft (p : path) (t f : fs) : fs := kmap (app p) t ∪ prune p f.

Lemma strip_Some p k r : strip p k = Some r <-> k = p ++ r.
Proof.
  unfold strip. case_decide as H.
  - destruct H as [q ->]. rewrite drop_app_length. split; [by intros [= ->]|]. by intros ->%app_inv_head.
  - split; [done|]. intros ->. exfalso. apply H. by exists r.
Qed.

Lemma lookup_subtree p f r : subtree p f !! r = f !! (p ++ r).
Proof.
  apply option_eq. intros v. unfold subtree. set (g := fun '(k, v) => _). 
  rewrite <- (elem_of_list_to_map (M := gmap path)).
  - rewrite list_elem_of_omap. split.
    + intros ([k v'] & Hk & Hg). unfold g in Hg. destruct (strip p k) as [r'|] eqn:E; [|done].
      injection Hg as -> ->. apply strip_Some in E as ->. by apply elem_of_map_to_list.
    + intros H. exists (p ++ r, v). split; [by apply elem_of_map_to_list|]. unfold g.
      by rewrite (proj2 (strip_Some p (p ++ r) r) eq_refl).
  - pose proof (NoDup_fst_map_to_list f) as Hnd. induction (map_to_list f) as [|[k w] l IH]; [constructor|].
    apply list.NoDup_cons in Hnd as [Hk Hnd]. cbn [omap list_omap]. destruct (g (k, w)) as [[r' w']|] eqn:E; [|by apply IH].
    cbn. constructor; [|by apply IH]. rewrite list_elem_of_fmap. intros ([r2 w2] & Heq & Hin). cbn in Heq. subst r2.
    apply list_elem_of_omap in Hin as ([k3 w3] & Hin & E3). apply Hk, list_elem_of_fmap. exists (k3, w3).
    split; [|done]. cbn. unfold g in E, E3. destruct (strip p k) eqn:S1; [|done]. destruct (strip p k3) eqn:S3; [|done].
    injection E as -> ->. injection E3 as -> ->. apply strip_Some in S1, S3. congruence.
Qed.

Lemma lookup_prune p f k : prune p f !! k = if decide (p `prefix_of` k) then None else f !! k.
Proof.
  unfold prune. case_decide as H.
  - apply map_lookup_filter_None. right. intros v _ Hn. by apply Hn.
  - destruct (f !! k) as [v|] eqn:E; [by apply map_lookup_filter_Some|]. apply map_lookup_filter_None. by left.
Qed.

Lemma lookup_graft p t f k :
  graft p t f !! k = match strip p k with Some r => t !! r | None => f !! k end.
Proof.
  unfold graft. rewrite lookup_union, lookup_prune. destruct (strip p k) as [r|] eqn:E.
  - apply strip_Some in E as ->. rewrite decide_True by (by exists r).
    rewrite (lookup_kmap (app p)). by rewrite (right_id_L None (∪)).
  - assert (~ p `prefix_of` k) as H. { unfold strip in E. case_decide; [done|assumption]. }
    rewrite decide_False by done. replace (kmap (app p) t !! k) with (@None node).
    + by rewrite (left_id_L None (∪)).
    + symmetry. apply lookup_kmap_None; [apply _|]. intros r ->. exfalso. apply H. by exists r.
Qed.

(** A tree is left alone by what happens beside it. *)

Lemma apart_app p q r : apart p q -> ~ q `prefix_of` p ++ r.
Proof. intros [H1 H2] H. destruct (prefix_weak_total q p (p ++ r)); [done|by exists r|done|done]. Qed.

Lemma subtree_frame p q f g :
  apart p q -> (forall k, ~ q `prefix_of` k -> g !! k = f !! k) -> subtree p g = subtree p f.
Proof.
  intros Ha H. apply map_eq. intros r. rewrite !lookup_subtree. apply H. by apply apart_app.
Qed.

Lemma subtree_graft p t f : subtree p (graft p t f) = t.
Proof.
  apply map_eq. intros r. rewrite lookup_subtree, lookup_graft.
  by rewrite (proj2 (strip_Some p (p ++ r) r) eq_refl).
Qed.

Lemma subtree_prune p f : subtree p (prune p f) = ∅.
Proof.
  apply map_eq. intros r. rewrite lookup_subtree, lookup_prune, decide_True by (by exists r).
  by rewrite lookup_empty.
Qed.

Lemma graft_frame p t f k : ~ p `prefix_of` k -> graft p t f !! k = f !! k.
Proof. intros H. rewrite lookup_graft. unfold strip. by rewrite decide_False. Qed.

Lemma prune_frame p f k : ~ p `prefix_of` k -> prune p f !! k = f !! k.
Proof. intros H. by rewrite lookup_prune, decide_False. Qed.

(** ** Errors, commands and the environment *)

(** An error of a system call; [os.IsNotExist] recognises the first. *)
Inductive oserr := NotExist (op p : bytes) | OsError (text : bytes).

Definition oserr_text (e : oserr) : bytes :=
  match e with
  | NotExist op p => op ++ ch " " :: p ++ bs ": no such file or directory"
  | OsError t => t
  end.

(** [exec.Cmd]: the program and its arguments, what is added to the environment,
    the account it runs as when that is not the agent's. *)
Record Cmd := { Name : bytes; Args : list bytes; ExtraEnv : list bytes; Credential : option (Z * Z) }.

(** What the host decides.  [fault n p] is the error of the [n]-th call on [p] when
    it fails for a reason of its own; [survives n k] whether a removal that failed
    left [k]; [torn n] the content a write that failed left, if it touched the
    file; [exec n c f] the error text of a program, its output and the tree it
    leaves; [delivered n] whether a message reached the stream before the request
    was cancelled. *)
Class Env := {
  fault : nat -> bytes -> option bytes;
  survives : nat -> path -> bool;
  torn : nat -> option bytes;
  exec : nat -> Cmd -> fs -> option bytes * bytes * fs;
  delivered : nat -> bool;
  lookPath : bytes -> bool;
  Geteuid : Z;
  userLookup : bytes -> result bytes (bytes * bytes)
}.

(** One message of a progress stream. *)
Record Progress := { Stage : bytes; Percentage : Z; Message : bytes }.

(** [history] holds every tree the host went through, the newest first. *)
Record host := { files : fs; calls : nat; history : list fs; sent : list Progress }.

Definition M (A : Type) : Type := host -> A * host.

#[global] Instance M_ret : MRet M := fun A a h => (a, h).
#[global] Instance M_bind : MBind M := fun A B k m h => let '(a, h') := m h in k a h'.

Section Syscalls.
Context {E : Env}.

Definition get_files : M fs := fun h => (files h, h).

Definition set_files (f : fs) : M unit := fun h =>
  (tt, {| files := f; calls := calls h; history := f :: history h; sent := sent h |}).

Definition next_call : M nat := fun h =>
  (calls h, {| files := files h; calls := S (calls h); history := history h; sent := sent h |}).

(** A message put on a channel that has room, and one that gives up when the
    request is cancelled. *)
Definition push (stage : bytes) (pct : Z) (message : bytes) : M unit := fun h =>
  (tt, {| files := files h; calls := calls h; history := history h;
          sent := sent h ++ [{| Stage := stage; Percentage := pct; Message := message |}] |}).

Definition send (stage : bytes) (pct : Z) (message : bytes) : M unit := fun h =>
  let msg := {| Stage := stage; Percentage := pct; Message := message |} in
  (tt, {| files := files h; calls := S (calls h); history := history h;
          sent := if delivered (calls h) then sent h ++ [msg] else sent h |}).

(** [os.Stat]. *)
Definition Stat (p : bytes) : M (result oserr node) :=
  n ← next_call;
  f ← get_files;
  mret (match fault n p with
        | Some e => Err (OsError e)
        | None => match find f (resolve p) with Some x => Ok x | None => Err (NotExist (bs "stat") p) end
        end).

(** [os.ReadFile]. *)
Definition ReadFile (p : bytes) : M (result oserr bytes) :=
  n ← next_call;
  f ← get_files;
  mret (match fault n p with
        | Some e => Err (OsError e)
        | None => match find f (resolve p) with
                  | Some (RegularFile _ c) => Ok c
                  | Some (Directory _) => Err (OsError (bs "read " ++ p ++ bs ": is a directory"))
                  | None => Err (NotExist (bs "open") p)
                  end
        end).

(** [os.WriteFile]: a new file belongs to the agent, an existing one keeps its owner. *)
Definition WriteFile (p content : bytes) : M (result oserr unit) :=
  n ← next_call;
  f ← get_files;
  let q := resolve p in
  let owner := match f !! q with Some x => node_owner x | None => (Geteuid, Geteuid) end in
  match find f (removelast q), find f q with
  | Some (Directory _), Some (Directory _) => mret (Err (OsError (bs "open " ++ p ++ bs ": is a directory")))
  | Some (Directory _), _ =>
      match fault n p with
      | Some e =>
          match torn n with
          | Some c => _ ← set_files (<[q := RegularFile owner c]> f); mret (Err (OsError e))
          | None => mret (Err (OsError e))
          end
      | None => _ ← set_files (<[q := RegularFile owner content]> f); mret (Ok tt)
      end
  | _, _ => mret (Err (NotExist (bs "open") p))
  end.

(** [os.Chown]. *)
Definition Chown (p : bytes) (owner : Z * Z) : M (result oserr unit) :=
  n ← next_call;
  f ← get_files;
  match fault n p, f !! resolve p with
  | Some e, _ => mret (Err (OsError e))
  | None, Some (RegularFile _ c) => _ ← set_files (<[resolve p := RegularFile owner c]> f); mret (Ok tt)
  | None, Some (Directory _) => _ ← set_files (<[resolve p := Directory owner]> f); mret (Ok tt)
  | None, None => mret (Err (NotExist (bs "chown") p))
  end.

(** [os.RemoveAll]: a missing path is no error. *)
Definition RemoveAll (p : bytes) : M (option oserr) :=
  n ← next_call;
  f ← get_files;
  match fault n p with
  | Some e =>
      _ ← set_files (filter (fun kv => ~ resolve p `prefix_of` kv.1 \/ survives n kv.1 = true) f);
      mret (Some (OsError e))
  | None => _ ← set_files (prune (resolve p) f); mret None
  end.

(** [os.Remove] of a file or an empty directory. *)
Definition RemoveFile (p : bytes) : M (option oserr) :=
  n ← next_call;
  f ← get_files;
  match fault n p, f !! resolve p with
  | Some e, _ => mret (Some (OsError e))
  | None, None => mret (Some (NotExist (bs "remove") p))
  | None, Some _ =>
      if decide (subtree (resolve p) (delete (resolve p) f) = ∅) then
        _ ← set_files (delete (resolve p) f); mret None
      else mret (Some (OsError (bs "remove " ++ p ++ bs ": directory not empty")))
  end.

(** [os.Rename], as rename(2): not into itself, not over a directory in use. *)
Definition rename_error (f : fs) (p q : path) : option bytes :=
  match f !! p with
  | None => Some (bs "no such file or directory")
  | Some x =>
      if decide (p `prefix_of` q) then Some (bs "invalid argument")
      else match find f (removelast q) with
           | Some (Directory _) =>
               match f !! q with
               | None => None
               | Some y =>
                   if IsDir x then
                     if IsDir y then
                       if decide (subtree q (delete q f) = ∅) then None else Some (bs "file exists")
                     else Some (bs "not a directory")
                   else if IsDir y then Some (bs "file exists") else None
               end
           | _ => Some (bs "no such file or directory")
           end
  end.

Definition Rename (p q : bytes) : M (option oserr) :=
  n ← next_call;
  f ← get_files;
  let p' := resolve p in
  let q' := resolve q in
  match fault n p with
  | Some e => mret (Some (OsError e))
  | None =>
      if decide (p' = q') then mret None
      else match rename_error f p' q' with
           | Some e => mret (Some (OsError (bs "rename " ++ p ++ ch " " :: q ++ bs ": " ++ e)))
           | None => _ ← set_files (graft q' (subtree p' f) (prune p' f)); mret None
           end
  end.

(** [os.ReadDir]: the names in a directory, in order, with [entry.IsDir()]. *)
Definition name_le (a b : bytes) : Prop := bytes_compare a b <> Gt.

#[local] Instance name_le_dec : RelDecision name_le.
Proof. intros a b. unfold name_le. destruct (bytes_compare a b); [left|left|right]; congruence. Defined.

Definition dir_entries (p : path) (f : fs) : list bytes :=
  merge_sort name_le
    (omap (fun '(k, _) => match strip p k with Some [x] => Some x | _ => None end) (map_to_list f)).

Definition ReadDir (p : bytes) : M (result oserr (list (bytes * bool))) :=
  n ← next_call;
  f ← get_files;
  mret (match fault n p with
        | Some e => Err (OsError e)
        | None => match find f (resolve p) with
                  | Some (Directory _) =>
                      Ok (map (fun x => (x, match f !! (resolve p ++ [x]) with Some y => IsDir y | None => false end))
                              (dir_entries (resolve p) f))
                  | Some _ => Err (OsError (bs "not a directory"))
                  | None => Err (NotExist (bs "open") p)
                  end
        end).

(** [os.MkdirAll]: the missing directories above a path and the path itself. *)
Fixpoint mkdirs (owner : Z * Z) (above rest : path) (f : fs) : option fs :=
  match rest with
  | [] => Some f
  | x :: rest =>
      let p := above ++ [x] in
      match f !! p with
      | Some (Directory _) => mkdirs owner p rest f
      | Some _ => None
      | None => mkdirs owner p rest (<[p := Directory owner]> f)
      end
  end.

Definition MkdirAll (p : bytes) : M (option oserr) :=
  n ← next_call;
  f ← get_files;
  match fault n p, mkdirs (Geteuid, Geteuid) [] (resolve p) f with
  | Some e, _ => mret (Some (OsError e))
  | None, None => mret (Some (OsError (bs "mkdir " ++ p ++ bs ": not a directory")))
  | None, Some f => _ ← set_files f; mret None
  end.

(** A program run to its end: its error and its output. *)
Definition run_program (c : Cmd) : M (option bytes * bytes) :=
  n ← next_call;
  f ← get_files;
  let '(err, out, f') := exec n c f in
  _ ← set_files f';
  mret (err, out).

End Syscalls.

Lemma elem_of_dir_entries p f x : x ∈ dir_entries p f <-> is_Some (f !! (p ++ [x])).
Proof.
  unfold dir_entries. rewrite merge_sort_Permutation, list_elem_of_omap. split.
  - intros ([k v] & Hk & Hx). destruct (strip p k) as [[|y []]|] eqn:E; try done. injection Hx as ->.
    apply strip_Some in E as ->. exists v. by apply elem_of_map_to_list.
  - intros [v Hv]. exists (p ++ [x], v). split; [by apply elem_of_map_to_list|].
    by rewrite (proj2 (strip_Some p (p ++ [x]) [x]) eq_refl).
Qed.

(** ** Reasoning about a computation that can be cut short

    [wp I m Q h]: run from [h], [m] ends in a state that satisfies [Q], and every
    tree it passes through satisfies [I]. *)
Definition wp {A : Type} (I : fs -> Prop) (m : M A) (Q : A -> host -> Prop) (h : host) : Prop :=
  let '(a, h') := m h in
  Q a h' /\ exists new, history h' = new ++ history h /\ Forall I new.

(** Only the counter of calls moved; only the tree below [q] may have changed. *)
Definition still (h h' : host) : Prop := files h' = files h /\ sent h' = sent h.
Definition touches (q : path) (h h' : host) : Prop :=
  sent h' = sent h /\ forall k, ~ q `prefix_of` k -> files h' !! k = files h !! k.

Section Rules.
Context {E : Env} (I : fs -> Prop).

Lemma wp_ret {A : Type} (a : A) Q h : Q a h -> wp I (mret a) Q h.
Proof. intros H. split; [done|]. exists []. by split. Qed.

Lemma wp_bind {A B : Type} (m : M A) (k : A -> M B) Q h :
  wp I m (fun a => wp I (k a) Q) h -> wp I (m ≫= k) Q h.
Proof.
  unfold wp, mbind, M_bind. destruct (m h) as [a h1]. intros [H (n1 & E1 & F1)].
  destruct (k a h1) as [b h2]. destruct H as [HQ (n2 & E2 & F2)]. split; [done|].
  exists (n2 ++ n1). rewrite E2, E1, app_assoc. split; [done|]. by apply Forall_app.
Qed.

Lemma wp_mono {A : Type} (m : M A) (Q Q' : A -> host -> Prop) h :
  wp I m Q h -> (forall a h', Q a h' -> Q' a h') -> wp I m Q' h.
Proof. unfold wp. destruct (m h) as [a h1]. intros [H ?] HQ. split; [by apply HQ|done]. Qed.

Lemma wp_next_call Q h : (forall n h', still h h' -> Q n h') -> wp I next_call Q h.
Proof. intros H. split; [by apply H|]. exists []. by split. Qed.

Lemma wp_get_files Q h : Q (files h) h -> wp I get_files Q h.
Proof. intros H. split; [done|]. exists []. by split. Qed.

Lemma wp_set_files f Q h :
  I f -> (forall h', files h' = f -> sent h' = sent h -> Q tt h') -> wp I (set_files f) Q h.
Proof. intros Hf H. split; [by apply H|]. exists [f]. split; [done|by constructor]. Qed.

Lemma wp_send stage pct msg Q h :
  (forall h', files h' = files h -> sent h' `prefix_of` sent h ++ [{| Stage := stage; Percentage := pct; Message := msg |}] ->
    Q tt h') -> wp I (send stage pct msg) Q h.
Proof.
  intros H. split; [|exists []; by split]. apply H; [done|]. cbn.
  destruct (delivered _); [done|by eexists].
Qed.

Lemma wp_push stage pct msg Q h :
  (forall h', files h' = files h -> sent h' `prefix_of` sent h ++ [{| Stage := stage; Percentage := pct; Message := msg |}] ->
    Q tt h') -> wp I (push stage pct msg) Q h.
Proof. intros H. split; [|exists []; by split]. by apply H. Qed.

Lemma touches_still q h h1 h2 : still h h1 -> touches q h1 h2 -> touches q h h2.
Proof. unfold still, touches. intros [<- <-]. done. Qed.

Lemma still_trans h h1 h2 : still h h1 -> still h1 h2 -> still h h2.
Proof. unfold still, touches. intros [<- <-]. done. Qed.

Lemma still_touches q h h' : still h h' -> touches q h h'.
Proof. intros [E1 E2]. split; [done|]. intros. by rewrite E1. Qed.

Lemma touches_trans q h h1 h2 : touches q h h1 -> touches q h1 h2 -> touches q h h2.
Proof. unfold touches. intros [<- H1] [<- H2]. split; [done|]. intros k Hk. by rewrite H2, H1. Qed.

Lemma wp_Stat p Q h :
  (forall r h', still h h' ->
    (forall x, r = Ok x -> find (files h) (resolve p) = Some x) -> Q r h') -> wp I (Stat p) Q h.
Proof.
  intros H. unfold Stat. apply wp_bind, wp_next_call. intros n h1 Hs. apply wp_bind, wp_get_files, wp_ret, H; [done|].
  destruct Hs as [-> _]. intros x. destruct (fault n p); [done|]. destruct (find _ _); congruence.
Qed.

Lemma wp_ReadFile p Q h : (forall r h', still h h' -> Q r h') -> wp I (ReadFile p) Q h.
Proof.
  intros H. unfold ReadFile. apply wp_bind, wp_next_call. intros n h1 Hs. apply wp_bind, wp_get_files, wp_ret, H, Hs.
Qed.

(** The calls that change the tree below their path: the invariant has to hold of
    any tree that differs from the present one there only. *)
Definition may_change (q : path) (h : host) : Prop :=
  forall g, (forall k, ~ q `prefix_of` k -> g !! k = files h !! k) -> I g.

Lemma may_change_still q h h' : still h h' -> may_change q h -> may_change q h'.
Proof. unfold may_change. intros [-> _]. done. Qed.

Lemma wp_update {A : Type} q f (r : A) Q h :
  may_change q h -> (forall k, ~ q `prefix_of` k -> f !! k = files h !! k) ->
  (forall h', touches q h h' -> files h' = f -> Q r h') ->
  wp I (_ ← set_files f; mret r) Q h.
Proof.
  intros Ho Hf H. apply wp_bind, wp_set_files; [by apply Ho|]. intros h' Hf' Hs.
  apply wp_ret, H; [|done]. split; [done|]. intros k Hk. rewrite Hf'. by apply Hf.
Qed.

Lemma insert_frame (q : path) (x : node) (f : fs) (k : path) : ~ q `prefix_of` k -> <[q := x]> f !! k = f !! k.
Proof. intros H. apply lookup_insert_ne. intros ->. by apply H. Qed.

Lemma wp_WriteFile p c Q h :
  may_change (resolve p) h ->
  (forall r h', touches (resolve p) h h' ->
    (r = Ok tt -> exists o, files h' !! resolve p = Some (RegularFile o c)) -> Q r h') ->
  wp I (WriteFile p c) Q h.
Proof.
  intros Ho H. unfold WriteFile. apply wp_bind, wp_next_call. intros n h1 Hs. apply wp_bind, wp_get_files.
  assert (forall e, wp I (mret (Err e)) Q h1) as Herr.
  { intros e. apply wp_ret, H; [by apply still_touches|done]. }
  assert (forall r o c', (r = Ok tt -> c' = c) ->
    wp I (_ ← set_files (<[resolve p := RegularFile o c']> (files h1)); mret r) Q h1) as Hup.
  { intros r o c' Hc. apply wp_update with (q := resolve p); [by eapply may_change_still|intros; by apply insert_frame|].
    intros h2 Ht Hf. apply H; [by eapply touches_still|]. intros Hr. exists o. rewrite Hf, (Hc Hr). apply lookup_insert_eq. }
  destruct (find (files h1) (removelast _)) as [[]|]; [by apply Herr| |by apply Herr].
  destruct (find (files h1) (resolve p)) as [[]|];
    [destruct (fault n p); [destruct (torn n)|] | by apply Herr | destruct (fault n p); [destruct (torn n)|]];
    try (by apply Herr); apply Hup; done.
Qed.

Lemma wp_Chown p o Q h :
  may_change (resolve p) h -> (forall r h', touches (resolve p) h h' ->
    (forall k, is_Some (files h !! k) -> is_Some (files h' !! k)) -> Q r h') -> wp I (Chown p o) Q h.
Proof.
  intros Ho H. unfold Chown. apply wp_bind, wp_next_call. intros n h1 Hs. apply wp_bind, wp_get_files.
  assert (forall e, wp I (mret (Err e)) Q h1) as Herr.
  { intros e. apply wp_ret, H; [by apply still_touches|]. by destruct Hs as [-> _]. }
  assert (forall x, wp I (_ ← set_files (<[resolve p := x]> (files h1)); mret (Ok tt)) Q h1) as Hup.
  { intros x. apply wp_update with (q := resolve p); [by eapply may_change_still|intros; by apply insert_frame|].
    intros h2 Ht Hf. apply H; [by eapply touches_still|]. destruct Hs as [<- _]. rewrite Hf. intros k Hk.
    apply lookup_insert_is_Some'. by right. }
  destruct (fault n p); [by apply Herr|]. destruct (files h1 !! resolve p) as [[]|]; [apply Hup|apply Hup|by apply Herr].
Qed.

Lemma wp_RemoveAll p Q h :
  may_change (resolve p) h ->
  (forall r h', touches (resolve p) h h' -> files h' ⊆ files h ->
    (r = None -> subtree (resolve p) (files h') = ∅) -> Q r h') ->
  wp I (RemoveAll p) Q h.
Proof.
  intros Ho H. unfold RemoveAll. apply wp_bind, wp_next_call. intros n h1 Hs. apply wp_bind, wp_get_files.
  destruct (fault n p) as [e|].
  - apply wp_update with (q := resolve p); [by eapply may_change_still| |].
    + intros k Hk. destruct (files h1 !! k) as [v|] eqn:E1.
      * apply map_lookup_filter_Some. split; [done|by left].
      * apply map_lookup_filter_None. by left.
    + intros h2 Ht Hf. apply H; [by eapply touches_still| |done]. rewrite Hf. destruct Hs as [-> _]. apply map_filter_subseteq.
  - apply wp_update with (q := resolve p); [by eapply may_change_still|intros; by apply prune_frame|].
    intros h2 Ht Hf. destruct Hs as [Hf1 Hs1].
    apply H; [by eapply touches_still| |].
    + rewrite Hf, Hf1. apply map_filter_subseteq.
    + intros _. rewrite Hf. apply subtree_prune.
Qed.

(** A rename that fails changes nothing; one that succeeds moves the whole tree. *)
Lemma wp_Rename p q Q h :
  resolve p <> resolve q -> 
  I (graft (resolve q) (subtree (resolve p) (files h)) (prune (resolve p) (files h))) ->
  (forall e h', still h h' -> Q (Some e) h') ->
  (forall h', sent h' = sent h ->
     files h' = graft (resolve q) (subtree (resolve p) (files h)) (prune (resolve p) (files h)) -> Q None h') ->
  wp I (Rename p q) Q h.
Proof.
  intros Hne Hi He Hn. unfold Rename. apply wp_bind, wp_next_call. intros n h1 Hs. apply wp_bind, wp_get_files.
  destruct (fault n p); [by apply wp_ret, He|]. rewrite decide_False by done.
  destruct (rename_error _ _ _); [by apply wp_ret, He|]. destruct Hs as [Hf Hse]. rewrite Hf.
  apply wp_bind, wp_set_files; [done|]. intros h2 Hf2 Hs2. apply wp_ret, Hn; [congruence|done].
Qed.

Lemma wp_run_program c Q h :
  (forall n, I (exec n c (files h)).2) ->
  (forall n r h', sent h' = sent h -> files h' = (exec n c (files h)).2 -> r = (exec n c (files h)).1 -> Q r h') ->
  wp I (run_program c) Q h.
Proof.
  intros Hi H. unfold run_program. apply wp_bind, wp_next_call. intros n h1 [Hf Hs]. apply wp_bind, wp_get_files.
  rewrite Hf. specialize (Hi n). specialize (H n). destruct (exec n c (files h)) as [[e o] f']. cbn in Hi.
  apply wp_bind, wp_set_files; [done|]. intros h2 Hf2 Hs2. apply wp_ret. by apply H; [congruence|..].
Qed.

End Rules.
