(* ===== verification/Rebuild.v ===== *)
(** * Rebuilding a node as a replica

    [agent/infrastructure/replication.go] and the cluster lookup of [pg_host.go]
    and [management.go]: the checks that come before anything destructive, the
    copy into a staging directory, the two renames that put it in place, the
    standby configuration, and the order of it all in [run].

    The theorems follow the directory through every point at which the agent can
    be killed: the host never holds less than one whole cluster, a rebuild started
    again over what an interrupted one left is refused or safe, and the stage
    the caller reads as success is only sent for a standby. *)
From Stdlib Require Import ZArith Lia Strings.String.
From stdpp Require Import base gmap list numbers option fin_maps.
From S2P Require Import Prelude Credentials Format Host.
#[local] Open Scope Z_scope.

(** ** Text *)

Definition newline : byte := byte_of 10.
Definition equals : byte := ch "=".
Definition single_quote : byte := byte_of 39.
Definition hash : byte := byte_of 35.

(** [strings.Join] with a one-byte separator. *)
Fixpoint JoinWith (sep : byte) (parts : list bytes) : bytes :=
  match parts with [] => [] | [p] => p | p :: r => p ++ sep :: JoinWith sep r end.

(** [strings.ReplaceAll] of one byte. *)
Definition ReplaceByte (s : bytes) (c : byte) (by_ : bytes) : bytes :=
  s ≫= fun x => if decide (x = c) then by_ else [x].

(** [%q]: the text between double quotes, its quotes and backslashes escaped;
    names of files and programs hold nothing else that needs it. *)
Definition dq : byte := byte_of 34.
Definition Quote (s : bytes) : bytes :=
  dq :: (s ≫= fun x => if decide (bval x = 34 \/ bval x = 92) then [byte_of 92; x] else [x]) ++ [dq].

(** [condense]. *)
Definition condense (s : bytes) : bytes :=
  let s := TrimSpace s in
  if decide (s = []) then bs "(no output)"
  else if decide (400 < zlen s) then ztake 400 s ++ [byte_of 226; byte_of 128; byte_of 166]
  else ReplaceByte s newline (bs "; ").

(** ** Settings in a configuration file *)

Definition identitySettings : list bytes := [bs "port"; bs "listen_addresses"].
Definition connectionSettingsNames : list bytes := [bs "port"; bs "unix_socket_directories"].

(** One line of [settingsIn] and [connectionSettingsIn], which differ in the names
    they look for. *)
Definition setting_of (names : list bytes) (line : bytes) : option (bytes * bytes) :=
  let line := TrimSpace line in
  if decide (line = [] \/ head line = Some hash) then None
  else match cut line equals with
       | None => None
       | Some (name, value) =>
           let name := TrimSpace name in
           if decide (name ∈ names) then
             let value := match indexByte value hash with Some i => take i value | None => value end in
             let value := TrimSpace value in
             if decide (value = []) then None else Some (name, value)
           else None
       end.

Definition settings_in (names : list bytes) (content : bytes) : gmap bytes bytes :=
  foldl (fun found line => match setting_of names line with Some (n, v) => <[n := v]> found | None => found end)
        ∅ (split_on newline content).

Definition settingsIn (content : bytes) : gmap bytes bytes := settings_in identitySettings content.
Definition connectionSettingsIn (content : bytes) : gmap bytes bytes := settings_in connectionSettingsNames content.

(** [stripSetting]. *)
Definition assigns (setting line : bytes) : bool := HasPrefix (TrimSpace line) setting.

Definition stripSetting (content setting : bytes) : bytes :=
  let out := JoinWith newline (filter (fun l => assigns setting l = false) (split_on newline content)) in
  if decide (out <> [] /\ last out <> Some newline) then out ++ [newline] else out.

(** [unquote]. *)
Definition unquote (s : bytes) : bytes :=
  let s := TrimSpace s in
  if decide (2 <= zlen s /\ head s = Some single_quote /\ last s = Some single_quote)
  then removelast (tail s) else s.

(** [isPostgresProcess]. *)
Definition isPostgresProcess (name : bytes) : bool :=
  let name := ToLower_ascii (TrimSpace name) in
  bool_decide (name = bs "postgres" \/ name = bs "postmaster").

(** ** Checks *)

Definition stageError : bytes := bs "Error".

Section Agent.
Context {E : Env}.

(** [validateDataDir]. *)
Definition validateDataDir (dir : bytes) : M (option bytes) :=
  if decide (TrimSpace dir = []) then mret (Some (bs "no data directory given and none could be detected"))
  else if negb (IsAbs dir) then
    mret (Some (bs "data directory " ++ Quote dir ++ bs " is not an absolute path"))
  else if decide (Clean dir = [slash]) then mret (Some (bs "refusing to treat / as a data directory"))
  else if decide (length (filter (fun c => c = slash) (Clean dir)) < 2)%nat then
    mret (Some (bs "refusing " ++ Quote dir ++ bs " as a data directory: it is too close to the filesystem root"))
  else
    r ← Stat (JoinPath dir (bs "PG_VERSION"));
    mret (match r with
          | Err _ => Some (Quote dir ++ bs " does not contain PG_VERSION, so it is not a PostgreSQL data directory")
          | Ok _ => None
          end).

(** [ownerCredential]. *)
Definition ownerCredential (dir : bytes) : M (result bytes (option (Z * Z))) :=
  r ← Stat dir;
  mret (match r with
        | Err e => Err (bs "cannot stat " ++ dir ++ bs ": " ++ oserr_text e)
        | Ok x =>
            if decide (Geteuid <> 0 \/ (node_owner x).1 = Geteuid) then Ok None else Ok (Some (node_owner x))
        end).

(** [initProcessName]. *)
Definition initProcessName : M (option bytes) :=
  r ← ReadFile (bs "/proc/1/comm");
  mret (match r with Ok comm => Some (TrimSpace comm) | Err _ => None end).

(** ** Programs *)

(** [runTool]. *)
Definition runTool (cmd : Cmd) : M (option bytes) :=
  '(err, out) ← run_program cmd;
  mret (match err with
        | Some e => Some (BasePath (Name cmd) ++ bs ": " ++ e ++ bs ": " ++ condense out)
        | None => None
        end).

(** [replicationSetup]; [identity] is filled in by [captureIdentity]. *)
Record replicationSetup := {
  dataDir : bytes; primary : bytes; port : Z; user : bytes; password : bytes; slot : bytes;
  rewind : bool; runAs : option (Z * Z); identity : gmap bytes bytes
}.

Implicit Type s : replicationSetup.

Definition primaryAddr s : bytes := primary s ++ ch ":" :: FormatInt (port s).
Definition stagingDir s : bytes := dataDir s ++ bs ".pontus-rebuild".
Definition previousDir s : bytes := dataDir s ++ bs ".pontus-previous".

(** [conninfo]. *)
Definition conninfo s : bytes :=
  JoinWith (ch " ")
    ([bs "host=" ++ primary s; bs "port=" ++ FormatInt (port s)] ++
     (if decide (user s <> []) then [bs "user=" ++ user s] else []) ++
     (if decide (password s <> []) then [bs "password=" ++ password s] else [])).

Definition command s (name : bytes) (args : list bytes) : Cmd :=
  {| Name := name; Args := args; ExtraEnv := [bs "PGPASSWORD=" ++ password s]; Credential := runAs s |}.

Definition isRunning s : M bool :=
  '(err, _) ← run_program (command s (bs "pg_ctl") [bs "-D"; dataDir s; bs "status"]);
  mret (bool_decide (err = None)).

Definition stopPostgres s : M (option bytes) :=
  running ← isRunning s;
  if negb running then mret None
  else
    err ← runTool (command s (bs "pg_ctl")
      [bs "-D"; dataDir s; bs "-m"; bs "fast"; bs "-w"; bs "-t"; bs "60"; bs "stop"]);
    match err with
    | Some e => mret (Some e)
    | None =>
        running ← isRunning s;
        mret (if running : bool then Some (bs "PostgreSQL is still running after pg_ctl stop") else None)
    end.

Definition startPostgres s : M (option bytes) :=
  runTool (command s (bs "pg_ctl") [bs "-D"; dataDir s; bs "-w"; bs "-t"; bs "120"; bs "start"]).

Definition pgRewind s : M (option bytes) :=
  let source := bs "host=" ++ primary s ++ bs " port=" ++ FormatInt (port s) ++
                (if decide (user s <> []) then bs " user=" ++ user s else []) in
  runTool (command s (bs "pg_rewind")
    [bs "--target-pgdata=" ++ dataDir s; bs "--source-server=" ++ source; bs "--progress"]).

Definition baseBackup s : M (option bytes) :=
  runTool (command s (bs "pg_basebackup")
    ([bs "--pgdata=" ++ stagingDir s; bs "--host=" ++ primary s; bs "--port=" ++ FormatInt (port s);
      bs "--write-recovery-conf"; bs "--wal-method=stream"; bs "--checkpoint=fast"; bs "--no-password"] ++
     (if decide (user s <> []) then [bs "--username=" ++ user s] else []) ++
     (if decide (slot s <> []) then [bs "--slot=" ++ slot s] else []))).

(** ** Directories *)

Definition clearStaging s : M (option oserr) :=
  e ← RemoveAll (stagingDir s);
  match e with Some e => mret (Some e) | None => RemoveAll (previousDir s) end.

Definition swapInStaging s : M (option bytes) :=
  e ← Rename (dataDir s) (previousDir s);
  match e with
  | Some e => mret (Some (bs "moving the old cluster aside: " ++ oserr_text e))
  | None =>
      e ← Rename (stagingDir s) (dataDir s);
      match e with
      | Some e =>
          restore ← Rename (previousDir s) (dataDir s);
          mret (Some (match restore with
                      | Some r => bs "could not install the new cluster (" ++ oserr_text e ++
                                  bs ") and could not restore the old one (" ++ oserr_text r ++
                                  bs "); the data directory is at " ++ previousDir s
                      | None => bs "installing the new cluster: " ++ oserr_text e
                      end))
      | None => mret None
      end
  end.

Definition discardPrevious s : M unit := _ ← RemoveAll (previousDir s); mret tt.

(** ** The standby's configuration *)

(** [writeAsOwner]. *)
Definition writeAsOwner (p content dir : bytes) : M (option oserr) :=
  r ← WriteFile p content;
  match r with
  | Err e => mret (Some e)
  | Ok _ =>
      if decide (Geteuid <> 0) then mret None
      else
        r ← Stat dir;
        match r with
        | Err e => mret (Some (OsError (bs "cannot read the ownership of " ++ dir ++ bs ": " ++ oserr_text e)))
        | Ok x =>
            r ← Chown p (node_owner x);
            mret (match r with Err e => Some e | Ok _ => None end)
        end
  end.

(** The file [writeStandbyConfig] writes over what was there. *)
Definition setting_line (name value : bytes) : bytes := name ++ bs " = " ++ value ++ [newline].
Definition quoted (v : bytes) : bytes := single_quote :: v ++ [single_quote].

Definition standby_content s (existing : bytes) : bytes :=
  let line := setting_line (bs "primary_conninfo")
                (quoted (ReplaceByte (conninfo s) single_quote [single_quote; single_quote])) in
  let content := stripSetting existing (bs "primary_conninfo") ++ line in
  let content :=
    if decide (slot s <> []) then
      stripSetting content (bs "primary_slot_name") ++ setting_line (bs "primary_slot_name") (quoted (slot s))
    else content in
  foldl (fun content setting =>
           match identity s !! setting with
           | Some value => stripSetting content setting ++ setting_line setting value
           | None => content
           end) content identitySettings.

Definition writeStandbyConfig s : M (option oserr) :=
  e ← writeAsOwner (JoinPath (dataDir s) (bs "standby.signal")) [] (dataDir s);
  match e with
  | Some e => mret (Some (OsError (bs "writing standby.signal: " ++ oserr_text e)))
  | None =>
      let autoConf := JoinPath (dataDir s) (bs "postgresql.auto.conf") in
      r ← ReadFile autoConf;
      match r with
      | Err (OsError e) => mret (Some (OsError e))
      | Err (NotExist _ _) => writeAsOwner autoConf (standby_content s []) (dataDir s)
      | Ok existing => writeAsOwner autoConf (standby_content s existing) (dataDir s)
      end
  end.

(** [captureIdentity]: the setup with the identity it found. *)
Definition with_identity s (i : gmap bytes bytes) : replicationSetup :=
  {| dataDir := dataDir s; primary := primary s; port := port s; user := user s; password := password s;
     slot := slot s; rewind := rewind s; runAs := runAs s; identity := i |}.

Definition captureIdentity s : M replicationSetup :=
  a ← ReadFile (JoinPath (dataDir s) (bs "postgresql.conf"));
  b ← ReadFile (JoinPath (dataDir s) (bs "postgresql.auto.conf"));
  let read r := match r with Ok c => settingsIn c | Err _ => ∅ end in
  mret (with_identity s (read b ∪ read a)).

(** ** Finding the cluster: [pkg/system/path.go], on Linux *)

Definition GetPostgresDataDirs : list bytes := [bs "/var/lib/postgresql"; bs "/etc/postgresql"; bs "/var/lib/pgsql"].

Definition holds_version (dir : bytes) : M bool :=
  r ← Stat (JoinPath dir (bs "PG_VERSION"));
  mret (match r with Ok _ => true | Err _ => false end).

(** The first directory of a list that holds a cluster, or that has one below when
    [deeper] looks further. *)
Fixpoint first_cluster (dirs : list bytes) (deeper : bytes -> M (option bytes)) : M (option bytes) :=
  match dirs with
  | [] => mret None
  | d :: dirs =>
      here ← holds_version d;
      if here : bool then mret (Some d)
      else
        below ← deeper d;
        match below with Some x => mret (Some x) | None => first_cluster dirs deeper end
  end.

Definition subdirectories (dir : bytes) : M (list bytes) :=
  r ← ReadDir dir;
  mret (match r with
        | Ok entries => map (fun e => JoinPath dir e.1) (filter (fun e => e.2 = true) entries)
        | Err _ => []
        end).

Definition in_subdirectories (deeper : bytes -> M (option bytes)) (dir : bytes) : M (option bytes) :=
  subs ← subdirectories dir;
  first_cluster subs deeper.

(** A directory that is not there is passed over before its version file is looked for. *)
Fixpoint existing_dirs (dirs : list bytes) : M (option bytes) :=
  match dirs with
  | [] => mret None
  | d :: dirs =>
      r ← Stat d;
      match r with
      | Err _ => existing_dirs dirs
      | Ok _ =>
          found ← first_cluster [d] (in_subdirectories (in_subdirectories (fun _ => mret None)));
          match found with Some x => mret (Some x) | None => existing_dirs dirs end
      end
  end.

Definition DetectPostgresDataDir : M bytes :=
  found ← existing_dirs GetPostgresDataDirs;
  mret (default (bs "/var/lib/postgresql/data") found).

(** ** The rebuild *)

Definition fail (message : bytes) : M unit := send stageError 0 message.

(** Configuring, starting and proving the new standby: the tail of [run]. *)
Definition finish_rebuild s : M unit :=
  _ ← send (bs "Configuring") 80 (bs "Writing standby configuration");
  err ← writeStandbyConfig s;
  match err with
  | Some e => fail (bs "could not write the standby configuration: " ++ oserr_text e)
  | None =>
      _ ← send (bs "Starting") 90 (bs "Starting PostgreSQL");
      err ← startPostgres s;
      match err with
      | Some e => fail (bs "PostgreSQL did not start after the rebuild: " ++ e)
      | None =>
          r ← Stat (JoinPath (dataDir s) (bs "standby.signal"));
          match r with
          | Err _ => fail (bs "PostgreSQL started but standby.signal is missing, so it came back as a primary")
          | Ok _ =>
              _ ← discardPrevious s;
              send (bs "Done") 100 (bs "Now following " ++ primaryAddr s)
          end
      end
  end.

(** The copy, the stop and the swap: the part of [run] under [!rewound]. *)
Definition replace_cluster s : M unit :=
  _ ← send (bs "Syncing") 40 (bs "Taking a base backup from " ++ primaryAddr s ++ bs " into " ++ stagingDir s);
  err ← baseBackup s;
  match err with
  | Some e =>
      _ ← clearStaging s;
      fail (bs "base backup from " ++ primaryAddr s ++ bs " failed: " ++ e)
  | None =>
      _ ← send (bs "Stopping") 70 (bs "Stopping PostgreSQL at " ++ dataDir s);
      err ← stopPostgres s;
      match err with
      | Some e =>
          _ ← clearStaging s;
          fail (bs "could not stop PostgreSQL at " ++ dataDir s ++ bs ": " ++ e)
      | None =>
          _ ← send (bs "Swapping") 75 (bs "Replacing the cluster with the new copy");
          err ← swapInStaging s;
          match err with
          | Some e => fail (bs "could not put the new copy in place at " ++ dataDir s ++ bs ": " ++ e)
          | None => finish_rebuild s
          end
      end
  end.

Definition run s : M unit :=
  err ← clearStaging s;
  match err with
  | Some e => fail (bs "could not clear the staging directory " ++ stagingDir s ++ bs ": " ++ oserr_text e)
  | None =>
      s ← captureIdentity s;
      if rewind s then
        _ ← send (bs "Stopping") 15 (bs "Stopping PostgreSQL at " ++ dataDir s);
        err ← stopPostgres s;
        match err with
        | Some e => fail (bs "could not stop PostgreSQL at " ++ dataDir s ++ bs ": " ++ e)
        | None =>
            _ ← send (bs "Rewinding") 30 (bs "Trying pg_rewind against " ++ primaryAddr s);
            err ← pgRewind s;
            match err with
            | Some e =>
                _ ← send (bs "Rewinding") 35 (bs "pg_rewind did not apply (" ++ e ++
                                              bs "); taking a base backup instead");
                replace_cluster s
            | None => finish_rebuild s
            end
        end
      else replace_cluster s
  end.

(** [SetupReplicationRequest] and the fields of [management] the handlers use. *)
Record SetupReplicationRequest := {
  PrimaryHost : bytes; PrimaryPort : Z; ReplicationUser : bytes; ReplicationPassword : bytes;
  SlotName : bytes; UseRewind : bool; req_DataDirectory : bytes
}.

Record management := { m_dataDir : bytes; m_dbUser : bytes; m_allowedPaths : list bytes }.

Definition clusterDir (m : management) (requested : bytes) : bytes :=
  if decide (requested <> []) then requested else m_dataDir m.

Definition planReplication (m : management) (req : SetupReplicationRequest) : M (result bytes replicationSetup) :=
  if decide (PrimaryHost req = []) then mret (Err (bs "no primary host to follow"))
  else if decide (PrimaryPort req <= 0 \/ 65535 < PrimaryPort req) then
    mret (Err (bs "primary port " ++ FormatInt (PrimaryPort req) ++ bs " is not a port"))
  else
    dir ← (let d := clusterDir m (req_DataDirectory req) in
           if decide (d = []) then DetectPostgresDataDir else mret d);
    err ← validateDataDir dir;
    match err with
    | Some e => mret (Err e)
    | None =>
        init ← initProcessName;
        match (name ← init; if isPostgresProcess name then Some name else None) with
        | Some name =>
            mret (Err (bs "refusing to rebuild: PostgreSQL is this host's init process (pid 1 is " ++ Quote name ++
                       bs "), so stopping it would terminate this agent mid-rebuild; run the agent outside the database's container, or supervise both under an init that outlives the database"))
        | None =>
            cred ← ownerCredential dir;
            mret (match cred with
                  | Err e => Err e
                  | Ok cred => Ok {| dataDir := dir; primary := PrimaryHost req; port := PrimaryPort req;
                                     user := ReplicationUser req; password := ReplicationPassword req;
                                     slot := SlotName req; rewind := UseRewind req; runAs := cred; identity := ∅ |}
                  end)
        end
    end.

Definition SetupReplication (m : management) (req : SetupReplicationRequest) : M unit :=
  setup ← planReplication m req;
  match setup with
  | Err e => push stageError 0 e
  | Ok s => run s
  end.

End Agent.

(** ** What the programs promise

    [whole] says that the tree below a directory is a complete cluster.  A cluster
    has its version file and stays one whatever its standby configuration; pg_ctl
    works below its directory and keeps a cluster a cluster; pg_basebackup works
    below its target, which is a cluster when it reports success. *)
Record is_cluster (whole : fs -> Prop) : Prop := {
  cluster_version : forall t, whole t -> is_Some (t !! [bs "PG_VERSION"]);
  cluster_config : forall t t', whole t ->
    (forall k, ~ [bs "standby.signal"] `prefix_of` k -> ~ [bs "postgresql.auto.conf"] `prefix_of` k ->
       t' !! k = t !! k) -> whole t'
}.

(** The tools, as far as the trees of the model go: the socket and its lock file, which a
    server keeps in a directory of its own (/tmp, /var/run/postgresql) and removes when it
    stops, are not files of the tree, nor are tablespaces outside [-D]. *)
Record documented_tools (whole : fs -> Prop) (E : Env) : Prop := {
  pg_ctl_confined : forall n c d rest f k,
    Name c = bs "pg_ctl" -> Args c = bs "-D" :: d :: rest -> ~ resolve d `prefix_of` k ->
    (exec n c f).2 !! k = f !! k;
  pg_ctl_keeps : forall n c d rest f,
    Name c = bs "pg_ctl" -> Args c = bs "-D" :: d :: rest ->
    whole (subtree (resolve d) f) -> whole (subtree (resolve d) (exec n c f).2);
  basebackup_confined : forall n c d rest f k,
    Name c = bs "pg_basebackup" -> Args c = (bs "--pgdata=" ++ d) :: rest -> ~ resolve d `prefix_of` k ->
    (exec n c f).2 !! k = f !! k;
  basebackup_copies : forall n c d rest f,
    Name c = bs "pg_basebackup" -> Args c = (bs "--pgdata=" ++ d) :: rest ->
    (exec n c f).1.1 = None -> whole (subtree (resolve d) (exec n c f).2)
}.

(** What a caller reads as success, the last stage or the full percentage, has been sent. *)
Definition final (stage : bytes) (pct : Z) : Prop := stage = bs "Done" \/ pct = 100.
Definition reported_done (h : host) : Prop := exists m, m ∈ sent h /\ final (Stage m) (Percentage m).

Ltac not_final := vm_compute; intros [?|?]; discriminate.

Lemma not_done_send (h h' : host) stage pct msg :
  ~ reported_done h -> ~ final stage pct ->
  sent h' `prefix_of` sent h ++ [{| Stage := stage; Percentage := pct; Message := msg |}] -> ~ reported_done h'.
Proof.
  intros Hd Hs [r Hr] (m & Hm & Hst). apply Hd. exists m. split; [|done].
  assert (m ∈ sent h ++ [{| Stage := stage; Percentage := pct; Message := msg |}]) as Hin
    by (rewrite Hr; apply elem_of_app; by left).
  apply elem_of_app in Hin as [|Heq%list_elem_of_singleton]; [done|]. by subst m.
Qed.

Lemma not_done_sent h h' : ~ reported_done h -> sent h' = sent h -> ~ reported_done h'.
Proof. unfold reported_done. by intros ? ->. Qed.

(** ** The directory through a rebuild *)

Section Safety.
Context (whole : fs -> Prop) (Hwhole : is_cluster whole) {E : Env} (Htools : documented_tools whole E).
Context (p : path) (x : bytes) (Hplain : Forall plain (p ++ [x])).

Definition data_path : path := p ++ [x].
Definition staging_path : path := p ++ [x ++ bs ".pontus-rebuild"].
Definition previous_path : path := p ++ [x ++ bs ".pontus-previous"].

(** The directory holds a cluster, or it holds none and the old cluster waits
    beside it. *)
Definition recoverable (f : fs) : Prop :=
  whole (subtree data_path f) \/
  (subtree data_path f !! [bs "PG_VERSION"] = None /\ whole (subtree previous_path f)).

Definition intact (h : host) : Prop := whole (subtree data_path (files h)).

Lemma plain_suffix suf : (2 < length suf)%nat -> slash ∉ suf -> plain (x ++ suf).
Proof.
  intros Hl Hs. apply Forall_app in Hplain as [_ Hx%Forall_inv]. destruct Hx as (Hx & _ & _ & Hx').
  assert (forall s, (length s <= 2)%nat -> x ++ suf <> s) as Hlen.
  { intros s Hle E'. apply (f_equal length) in E'. rewrite length_app in E'. lia. }
  split_and!; [apply (Hlen [])|apply (Hlen (bs "."))|apply (Hlen (bs ".."))|]; [vm_compute; lia..|]. set_solver.
Qed.

Lemma resolve_data : resolve (render data_path) = data_path.
Proof. by apply resolve_render. Qed.

Lemma resolve_beside suf :
  (2 < length suf)%nat -> slash ∉ suf -> resolve (render data_path ++ suf) = p ++ [x ++ suf].
Proof. intros. apply resolve_suffix; [done|]. by apply plain_suffix. Qed.

Lemma resolve_staging : resolve (render data_path ++ bs ".pontus-rebuild") = staging_path.
Proof. apply resolve_beside; [vm_compute; lia|]. apply (bool_decide_unpack _). vm_compute. done. Qed.

Lemma resolve_previous : resolve (render data_path ++ bs ".pontus-previous") = previous_path.
Proof. apply resolve_beside; [vm_compute; lia|]. apply (bool_decide_unpack _). vm_compute. done. Qed.

Lemma beside_ne suf : suf <> [] -> x <> x ++ suf.
Proof. intros H E'. apply H. apply (app_inv_head x). by rewrite <- E', app_nil_r. Qed.

Lemma data_staging : apart data_path staging_path.
Proof. apply apart_siblings, beside_ne. vm_compute. done. Qed.

Lemma data_previous : apart data_path previous_path.
Proof. apply apart_siblings, beside_ne. vm_compute. done. Qed.

Lemma staging_previous : apart staging_path previous_path.
Proof. apply apart_siblings. intros E'%app_inv_head. vm_compute in E'. discriminate. Qed.

(** What happens beside the directory leaves it intact. *)
Lemma may_change_beside q h : apart data_path q -> intact h -> may_change recoverable q h.
Proof. intros Ha Hi g Hg. left. by rewrite (subtree_frame data_path q (files h)). Qed.

Lemma intact_beside q h h' : apart data_path q -> intact h -> touches q h h' -> intact h'.
Proof. unfold intact. intros Ha Hi [_ Ht]. by rewrite (subtree_frame data_path q (files h)). Qed.

Lemma intact_files h h' : files h' = files h -> intact h -> intact h'.
Proof. unfold intact. by intros ->. Qed.

Section Setup.
Context (s : replicationSetup) (Hs : dataDir s = render data_path).

(** Nothing but the calls moved, the directory is intact. *)
Definition kept (h h' : host) : Prop := intact h' /\ sent h' = sent h.

Lemma wp_remove_beside d q h (Q : option oserr -> host -> Prop) :
  resolve d = q -> apart data_path q -> intact h -> (forall r h', kept h h' -> Q r h') ->
  wp recoverable (RemoveAll d) Q h.
Proof.
  intros <- Ha Hi H. apply wp_RemoveAll; [by apply may_change_beside|]. intros r h' Ht _ _. apply H.
  split; [by eapply intact_beside|by apply Ht].
Qed.

Lemma wp_clearStaging h : intact h -> wp recoverable (clearStaging s) (fun _ h' => kept h h') h.
Proof.
  intros Hi. unfold clearStaging, stagingDir, previousDir. rewrite Hs.
  apply wp_bind. eapply wp_remove_beside; [apply resolve_staging|apply data_staging|done|].
  intros [e|] h1 [Hi1 Hs1]; [by apply wp_ret|].
  eapply wp_remove_beside; [apply resolve_previous|apply data_previous|done|].
  intros r h2 [Hi2 Hs2]. split; [done|congruence].
Qed.

Lemma wp_pg_ctl (c : Cmd) rest h (Q : option bytes * bytes -> host -> Prop) :
  Name c = bs "pg_ctl" -> Args c = bs "-D" :: dataDir s :: rest -> intact h ->
  (forall r h', kept h h' -> touches data_path h h' -> Q r h') -> wp recoverable (run_program c) Q h.
Proof.
  intros Hn Ha Hi H. rewrite Hs in Ha.
  assert (forall n, whole (subtree data_path (exec n c (files h)).2)) as Hw.
  { intros n. rewrite <- resolve_data. eapply pg_ctl_keeps; [done..|]. by rewrite resolve_data. }
  apply wp_run_program; [intros n; left; apply Hw|]. intros n r h' Hse Hf _.
  apply H; [by split; [unfold intact; rewrite Hf|]|]. split; [done|]. intros k Hk. rewrite Hf.
  eapply pg_ctl_confined; [done..|]. by rewrite resolve_data.
Qed.

Lemma touches_staging h h' :
  touches data_path h h' -> subtree staging_path (files h') = subtree staging_path (files h).
Proof. intros [_ Ht]. eapply subtree_frame; [apply apart_sym, data_staging|done]. Qed.

(** What a step that runs pg_ctl leaves: the directory intact, the copy as it was. *)
Definition kept_copy (h h' : host) : Prop :=
  kept h h' /\ subtree staging_path (files h') = subtree staging_path (files h).

Lemma wp_isRunning h : intact h -> wp recoverable (isRunning s) (fun _ h' => kept_copy h h') h.
Proof.
  intros Hi. unfold isRunning. apply wp_bind. eapply wp_pg_ctl; [done..|]. intros [e o] h1 Hk Ht.
  apply wp_ret. split; [done|]. by apply touches_staging.
Qed.

Lemma wp_runTool_ctl rest h :
  intact h -> wp recoverable (runTool (command s (bs "pg_ctl") (bs "-D" :: dataDir s :: rest)))
                 (fun _ h' => kept_copy h h') h.
Proof.
  intros Hi. unfold runTool. apply wp_bind. eapply wp_pg_ctl; [done..|]. intros [e o] h1 Hk Ht.
  apply wp_ret. split; [done|]. by apply touches_staging.
Qed.

Lemma kept_copy_trans h h1 h2 : kept_copy h h1 -> kept_copy h1 h2 -> kept_copy h h2.
Proof. intros [[? E1] E2] [[? E3] E4]. split; [split; [done|congruence]|congruence]. Qed.

Lemma wp_stopPostgres h : intact h -> wp recoverable (stopPostgres s) (fun _ h' => kept_copy h h') h.
Proof.
  intros Hi. unfold stopPostgres. apply wp_bind. eapply wp_mono; [by apply wp_isRunning|].
  intros running h1 H1. destruct running; cbn [negb]; [|by apply wp_ret].
  apply wp_bind. eapply wp_mono; [apply wp_runTool_ctl; apply H1|]. intros [e|] h2 H2.
  { apply wp_ret. by eapply kept_copy_trans. }
  apply wp_bind. eapply wp_mono; [apply wp_isRunning, H2|]. intros r h3 H3. apply wp_ret.
  eapply kept_copy_trans; [done|]. by eapply kept_copy_trans.
Qed.

Lemma wp_baseBackup h :
  intact h -> wp recoverable (baseBackup s)
    (fun r h' => kept h h' /\ (r = None -> whole (subtree staging_path (files h')))) h.
Proof.
  intros Hi. unfold baseBackup, runTool. set (c := command _ _ _). apply wp_bind.
  assert (forall n k, ~ staging_path `prefix_of` k -> (exec n c (files h)).2 !! k = files h !! k) as Hf.
  { intros n k Hk. eapply basebackup_confined; [done..|].
    unfold stagingDir. by rewrite Hs, resolve_staging. }
  apply wp_run_program.
  - intros n. apply (may_change_beside staging_path h data_staging Hi). intros k Hk. by apply Hf.
  - intros n [e o] h' Hse Hfi Hr. apply wp_ret. split.
    + split; [|done]. apply (intact_beside staging_path h); [apply data_staging|done|].
      split; [done|]. intros k Hk. rewrite Hfi. by apply Hf.
    + destruct e as [e|]; [done|]. intros _. rewrite Hfi.
      rewrite <- resolve_staging, <- Hs. fold (stagingDir s).
      eapply basebackup_copies; [done..|]. by rewrite <- Hr.
Qed.

(** ** The two renames *)

Definition set_aside (f : fs) : fs := graft previous_path (subtree data_path f) (prune data_path f).

Lemma subtree_moved q r t f : apart q r -> subtree q (graft r t f) = subtree q f.
Proof. intros Ha. eapply subtree_frame; [done|]. intros. by apply graft_frame. Qed.

Lemma subtree_pruned q r f : apart q r -> subtree q (prune r f) = subtree q f.
Proof. intros Ha. eapply subtree_frame; [done|]. intros. by apply prune_frame. Qed.

Lemma set_aside_data f : subtree data_path (set_aside f) = ∅.
Proof. unfold set_aside. rewrite subtree_moved by apply data_previous. apply subtree_prune. Qed.

Lemma set_aside_previous f : subtree previous_path (set_aside f) = subtree data_path f.
Proof. apply subtree_graft. Qed.

Lemma set_aside_staging f : subtree staging_path (set_aside f) = subtree staging_path f.
Proof.
  unfold set_aside. rewrite subtree_moved by apply staging_previous.
  apply subtree_pruned, apart_sym, data_staging.
Qed.

Lemma set_aside_recoverable f : whole (subtree data_path f) -> recoverable (set_aside f).
Proof. intros H. right. by rewrite set_aside_data, set_aside_previous, lookup_empty. Qed.

Lemma apart_ne (q r : path) : apart q r -> q <> r.
Proof. intros [H _] ->. by apply H. Qed.

(** Putting a whole tree from beside the directory into its place. *)
Lemma wp_install d q h (Q : option oserr -> host -> Prop) :
  resolve d = q -> apart data_path q -> whole (subtree q (files h)) ->
  (forall e h', still h h' -> Q (Some e) h') -> (forall h', kept h h' -> Q None h') ->
  wp recoverable (Rename d (render data_path)) Q h.
Proof.
  intros <- Ha Hw He Hn. apply wp_Rename; rewrite ?resolve_data.
  - apply not_eq_sym. by apply apart_ne.
  - left. by rewrite subtree_graft.
  - done.
  - intros h' Hse Hf. apply Hn. split; [|done]. unfold intact. by rewrite Hf, subtree_graft.
Qed.

Lemma wp_swapInStaging h :
  intact h -> whole (subtree staging_path (files h)) ->
  wp recoverable (swapInStaging s)
    (fun r h' => sent h' = sent h /\ recoverable (files h') /\ (r = None -> intact h')) h.
Proof.
  intros Hi Hc. unfold swapInStaging, previousDir, stagingDir. rewrite Hs. apply wp_bind.
  apply wp_Rename; rewrite ?resolve_data, ?resolve_previous; [apply apart_ne, data_previous| | |].
  - by apply set_aside_recoverable.
  - intros e h1 [Hf Hse]. apply wp_ret. split_and!; [done|left; by rewrite Hf|done].
  - intros h1 Hse Hf. fold (set_aside (files h)) in Hf. apply wp_bind.
    apply wp_install with (q := staging_path);
      [apply resolve_staging|apply data_staging|by rewrite Hf, set_aside_staging| |].
    + intros e h2 [Hf2 Hs2]. apply wp_bind. apply wp_install with (q := previous_path);
        [apply resolve_previous|apply data_previous|by rewrite Hf2, Hf, set_aside_previous| |].
      * intros r h3 [Hf3 Hs3]. apply wp_ret. split_and!; [congruence| |done].
        rewrite Hf3, Hf2, Hf. by apply set_aside_recoverable.
      * intros h3 [Hi3 Hs3]. apply wp_ret. split_and!; [congruence|by left|done].
    + intros h2 [Hi2 Hs2]. apply wp_ret. split_and!; [congruence|by left|done].
Qed.

(** ** The standby configuration *)

(** A file of the cluster that is not part of what makes it whole. *)
Definition config_name (name : bytes) : Prop := name = bs "standby.signal" \/ name = bs "postgresql.auto.conf".

Lemma config_plain name : config_name name -> plain name.
Proof. intros [-> | ->]; apply (bool_decide_unpack _); vm_compute; done. Qed.

Lemma may_change_config name h :
  config_name name -> intact h -> may_change recoverable (data_path ++ [name]) h.
Proof.
  intros Hn Hi g Hg. left. eapply cluster_config; [done..|]. intros k H1 H2. rewrite !lookup_subtree. apply Hg.
  intros [r Hr]. rewrite <- app_assoc in Hr. apply app_inv_head in Hr as ->.
  destruct Hn as [-> | ->]; [apply H1|apply H2]; by exists r.
Qed.

Lemma intact_config name h h' :
  config_name name -> intact h -> touches (data_path ++ [name]) h h' -> intact h'.
Proof.
  intros Hn Hi [_ Ht]. unfold intact. eapply cluster_config; [done..|]. intros k H1 H2. rewrite !lookup_subtree.
  apply Ht. intros [r Hr]. rewrite <- app_assoc in Hr. apply app_inv_head in Hr as ->.
  destruct Hn as [-> | ->]; [apply H1|apply H2]; by exists r.
Qed.

Lemma wp_writeAsOwner name c h :
  config_name name -> intact h ->
  wp recoverable (writeAsOwner (JoinPath (dataDir s) name) c (dataDir s)) (fun _ h' => kept h h') h.
Proof.
  intros Hn Hi. unfold writeAsOwner. rewrite Hs.
  assert (resolve (JoinPath (render data_path) name) = data_path ++ [name]) as Hr
    by (apply resolve_JoinPath; [done|by apply config_plain]).
  apply wp_bind, wp_WriteFile; rewrite Hr; [by apply may_change_config|]. intros r h1 Ht _.
  assert (intact h1) as Hi1 by (by eapply intact_config). destruct r as [e|u]; [by apply wp_ret; split; [|apply Ht]|].
  case_decide; [by apply wp_ret; split; [|apply Ht]|]. apply wp_bind, wp_Stat. intros [e|o] h2 [Hf2 Hs2] _.
  { apply wp_ret. split; [by eapply intact_files|]. rewrite Hs2. apply Ht. }
  apply wp_bind, wp_Chown; rewrite Hr; [apply may_change_config; [done|]; by eapply intact_files|].
  intros r h3 Ht3 _. apply wp_ret. split; [eapply intact_config; [done| |done]; by eapply intact_files|].
  destruct Ht3 as [-> _]. rewrite Hs2. apply Ht.
Qed.

Lemma kept_trans h h1 h2 : kept h h1 -> kept h1 h2 -> kept h h2.
Proof. intros [? E1] [? E2]. split; [done|congruence]. Qed.

Lemma kept_still h h1 h2 : kept h h1 -> still h1 h2 -> kept h h2.
Proof. intros [? E1] [? E2]. split; [by eapply intact_files|congruence]. Qed.

Lemma wp_writeStandbyConfig h :
  intact h -> wp recoverable (writeStandbyConfig s) (fun _ h' => kept h h') h.
Proof.
  intros Hi. unfold writeStandbyConfig. apply wp_bind.
  eapply wp_mono; [apply wp_writeAsOwner; [by left|done]|]. intros [e|] h1 H1; [by apply wp_ret|].
  apply wp_bind, wp_ReadFile. intros r h2 H2. assert (kept h h2) as Hk by (by eapply kept_still).
  destruct r as [[op q|e]|existing]; [|by apply wp_ret|];
    (eapply wp_mono; [apply wp_writeAsOwner; [by right|apply Hk]|]; intros e' h3 H3; by eapply kept_trans).
Qed.

(** ** The whole of [run] *)

(** How a rebuild may leave the host: recoverable, and a standby when it said so. *)
Definition outcome (h : host) : Prop :=
  recoverable (files h) /\
  (reported_done h -> intact h /\ is_Some (files h !! (data_path ++ [bs "standby.signal"]))).

Lemma outcome_failed h : recoverable (files h) -> ~ reported_done h -> outcome h.
Proof. by split. Qed.

Lemma wp_fail (msg : bytes) h :
  recoverable (files h) -> ~ reported_done h -> wp recoverable (fail msg) (fun _ h' => outcome h') h.
Proof.
  intros Hr Hd. apply wp_send. intros h' Hf Hs'. apply outcome_failed; [by rewrite Hf|].
  eapply not_done_send; [done| |done]. not_final.
Qed.

Lemma wp_stage {A : Type} stage pct (msg : bytes) (k : M A) h (Q : A -> host -> Prop) :
  ~ final stage pct -> ~ reported_done h ->
  (forall h', files h' = files h -> ~ reported_done h' -> wp recoverable k Q h') ->
  wp recoverable (_ ← send stage pct msg; k) Q h.
Proof.
  intros Hst Hd H. apply wp_bind, wp_send. intros h' Hf Hs'. apply H; [done|]. by eapply not_done_send.
Qed.

Lemma wp_finish_rebuild h :
  intact h -> ~ reported_done h -> wp recoverable (finish_rebuild s) (fun _ h' => outcome h') h.
Proof.
  intros Hi Hd. unfold finish_rebuild. apply wp_stage; [not_final|done|]. intros h1 Hf1 Hd1.
  apply wp_bind. eapply wp_mono; [apply wp_writeStandbyConfig; by eapply intact_files|].
  intros [e|] h2 [Hi2 Hs2]; [apply wp_fail; [by left|by eapply not_done_sent]|].
  apply wp_stage; [not_final|by eapply not_done_sent|]. intros h3 Hf3 Hd3.
  apply wp_bind. eapply wp_mono; [apply wp_runTool_ctl; by eapply intact_files|].
  intros [e|] h4 [[Hi4 Hs4] _]; [apply wp_fail; [by left|by eapply not_done_sent]|].
  apply wp_bind, wp_Stat. intros r h5 [Hf5 Hs5] Hr.
  assert (intact h5) as Hi5 by (by eapply intact_files).
  assert (~ reported_done h5) as Hd5 by (do 2 (eapply not_done_sent; [|done]); done).
  destruct r as [e|o]; [apply wp_fail; [by left|done]|].
  specialize (Hr o eq_refl). rewrite Hs, resolve_JoinPath in Hr; [|done|apply config_plain; by left].
  rewrite find_snoc in Hr. apply wp_bind. unfold discardPrevious, previousDir. rewrite Hs.
  apply wp_bind, wp_RemoveAll; rewrite resolve_previous; [apply may_change_beside; [apply data_previous|done]|].
  intros r h6 Ht _ _. apply wp_ret, wp_send. intros h7 Hf7 _.
  assert (intact h7) as Hi7.
  { eapply intact_files; [done|]. eapply intact_beside; [apply data_previous|exact Hi5|done]. }
  split; [by left|]. intros _. split; [done|]. rewrite Hf7. destruct Ht as [_ Ht]. rewrite Ht.
  - rewrite Hf5. by exists o.
  - apply apart_app, data_previous.
Qed.

Lemma wp_replace_cluster h :
  intact h -> ~ reported_done h -> wp recoverable (replace_cluster s) (fun _ h' => outcome h') h.
Proof.
  intros Hi Hd. unfold replace_cluster. apply wp_stage; [not_final|done|]. intros h1 Hf1 Hd1.
  assert (forall h2 (k : bytes), intact h2 -> ~ reported_done h2 ->
    wp recoverable (_ ← clearStaging s; fail k) (fun _ h' => outcome h') h2) as Hclear.
  { intros h2 k Hi2 Hd2. apply wp_bind. eapply wp_mono; [by apply wp_clearStaging|].
    intros r h3 [Hi3 Hs3]. apply wp_fail; [by left|by eapply not_done_sent]. }
  apply wp_bind. eapply wp_mono; [apply wp_baseBackup; by eapply intact_files|].
  intros [e|] h2 [[Hi2 Hs2] Hc2]; [apply Hclear; [done|by eapply not_done_sent]|].
  apply wp_stage; [not_final|by eapply not_done_sent|]. intros h3 Hf3 Hd3.
  apply wp_bind. eapply wp_mono; [apply wp_stopPostgres; by eapply intact_files|].
  intros [e|] h4 [[Hi4 Hs4] Hc4]; [apply Hclear; [done|by eapply not_done_sent]|].
  apply wp_stage; [not_final|by eapply not_done_sent|]. intros h5 Hf5 Hd5.
  apply wp_bind. eapply wp_mono.
  { apply wp_swapInStaging; [by eapply intact_files|]. rewrite Hf5, Hc4, Hf3. by apply Hc2. }
  intros [e|] h6 (Hs6 & Hr6 & Hi6); [apply wp_fail; [done|by eapply not_done_sent]|].
  apply wp_finish_rebuild; [by apply Hi6|by eapply not_done_sent].
Qed.
End Setup.

Lemma wp_captureIdentity s h (Q : replicationSetup -> host -> Prop) :
  (forall i h', still h h' -> Q (with_identity s i) h') -> wp recoverable (captureIdentity s) Q h.
Proof.
  intros H. unfold captureIdentity. apply wp_bind, wp_ReadFile. intros a h1 H1. apply wp_bind, wp_ReadFile.
  intros b h2 H2. apply wp_ret, H. by eapply still_trans.
Qed.

(** A rebuild by a full copy keeps the host recoverable throughout. *)
Lemma wp_run s h :
  dataDir s = render data_path -> rewind s = false -> intact h -> ~ reported_done h ->
  wp recoverable (run s) (fun _ h' => outcome h') h.
Proof.
  intros Hs Hw Hi Hd. unfold run. apply wp_bind. eapply wp_mono; [by apply wp_clearStaging|].
  intros [e|] h1 [Hi1 Hs1]; [apply wp_fail; [by left|by eapply not_done_sent]|].
  apply wp_bind, wp_captureIdentity. intros i h2 [Hf2 Hs2].
  cbn [rewind with_identity]. rewrite Hw.
  apply wp_replace_cluster; [done|by eapply intact_files|]. do 2 (eapply not_done_sent; [|done]). done.
Qed.

(** ** The checks before it *)

Lemma wp_validateDataDir I dir h :
  wp I (validateDataDir dir)
    (fun r h' => still h h' /\ (r = None -> is_Some (find (files h) (resolve (JoinPath dir (bs "PG_VERSION")))))) h.
Proof.
  unfold validateDataDir. repeat (case_decide || case_match); try (by apply wp_ret; split).
  apply wp_bind, wp_Stat. intros [e|o] h1 Hst Ho; apply wp_ret; split; [done..|].
  intros _. exists o. by apply Ho.
Qed.

(** A plan that is made comes from a directory that holds a cluster, and making it
    changes nothing. *)
Lemma wp_planReplication I m req dir h :
  clusterDir m (req_DataDirectory req) = dir -> dir <> [] ->
  wp I (planReplication m req)
    (fun r h' => still h h' /\ forall s, r = Ok s ->
       dataDir s = dir /\ rewind s = UseRewind req /\
       is_Some (find (files h) (resolve (JoinPath dir (bs "PG_VERSION"))))) h.
Proof.
  intros Hd Hne. unfold planReplication. rewrite Hd. do 2 (case_decide; [by apply wp_ret; split|]).
  rewrite decide_False by done. apply wp_bind, wp_ret, wp_bind.
  eapply wp_mono; [apply wp_validateDataDir|]. intros [e|] h1 [H1 Hv]; [by apply wp_ret; split|].
  apply wp_bind. unfold initProcessName. apply wp_bind, wp_ReadFile. intros r h2 H2. apply wp_ret.
  assert (still h h2) as H02 by (by eapply still_trans).
  destruct (name ← _; _) as [name|]; [by apply wp_ret; split|].
  apply wp_bind. unfold ownerCredential. apply wp_bind, wp_Stat. intros o h3 H3 _. apply wp_ret, wp_ret.
  split; [by eapply still_trans|]. intros s Hs. destruct o as [e|o]; [done|].
  case_decide; injection Hs as <-; (split_and!; [done..|]; by apply Hv).
Qed.

(** ** Rebuilds cut short, again and again *)

(** The host as the agent finds it when it starts. *)
Definition started_on (f : fs) : host := {| files := f; calls := 0; history := []; sent := [] |}.

Lemma wp_SetupReplication m req h :
  clusterDir m (req_DataDirectory req) = render data_path -> UseRewind req = false ->
  recoverable (files h) -> ~ reported_done h ->
  wp recoverable (SetupReplication m req) (fun _ h' => outcome h') h.
Proof.
  intros Hm Hw Hr Hd. unfold SetupReplication. apply wp_bind.
  eapply wp_mono; [eapply wp_planReplication; [done|]|].
  { unfold data_path. rewrite render_app. cbn [render]. by destruct (render p). }
  intros [e|s] h1 [[Hf1 Hs1] Hp].
  - apply wp_push. intros h' Hf Hs'. apply outcome_failed; [by rewrite Hf, Hf1|].
    eapply not_done_send; [by eapply not_done_sent| |done]. not_final.
  - destruct (Hp s eq_refl) as (Hs & Hrw & [o Ho]). rewrite resolve_JoinPath in Ho;
      [|done|apply (bool_decide_unpack _); vm_compute; done].
    apply wp_run; [done|congruence| |by eapply not_done_sent]. eapply intact_files; [done|].
    destruct Hr as [Hr|[Hn _]]; [done|]. exfalso. rewrite lookup_subtree in Hn.
    rewrite find_snoc in Ho. rewrite Hn in Ho. done.
Qed.
End Safety.

(** The trees a host can be found in when rebuilds of the directory are started on
    it and cut short at any point, each by an agent of its own: the tree at the
    cut is the last one the rebuild passed through. *)
Inductive interrupted (whole : fs -> Prop) (p : path) (x : bytes) : fs -> Prop :=
| interrupted_never f : whole (subtree (data_path p x) f) -> interrupted whole p x f
| interrupted_at (E : Env) m req f f' :
    interrupted whole p x f ->
    documented_tools whole E ->
    clusterDir m (req_DataDirectory req) = render (data_path p x) -> UseRewind req = false ->
    f' ∈ history (SetupReplication m req (started_on f)).2 ->
    interrupted whole p x f'.

Lemma not_reported_fresh f : ~ reported_done (started_on f).
Proof. intros (m & Hm & _). by apply not_elem_of_nil in Hm. Qed.

(** C31: However often rebuilds are interrupted, and wherever, the host still holds
    a whole cluster: in its directory, or set aside next to a directory that holds
    none; given what the tools of PostgreSQL document ([documented_tools]). *)
Theorem interrupted_rebuilds_recoverable (whole : fs -> Prop) (p : path) (x : bytes) (f : fs) :
  is_cluster whole -> Forall plain (p ++ [x]) ->
  interrupted whole p x f -> recoverable whole p x f.
Proof.
  intros Hw Hp H. induction H as [f Hf|E m req f f' _ IH Ht Hm Hr Hin]; [by left|].
  pose proof (wp_SetupReplication whole Hw (E := E) Ht p x Hp m req (started_on f) Hm Hr IH (not_reported_fresh f)) as Hwp.
  unfold wp in Hwp. destruct (SetupReplication m req (started_on f)) as [u h']. destruct Hwp as [_ (new & Hn & Hf)].
  cbn in Hin. rewrite Hn in Hin. apply elem_of_app in Hin as [Hin|Hin]; [|by apply not_elem_of_nil in Hin].
  rewrite list.Forall_forall in Hf. by apply Hf.
Qed.

(** A rebuild that reports success left a whole cluster with its standby.signal
    in the directory; any other leaves the host recoverable. *)
Theorem rebuild_done_is_standby (whole : fs -> Prop) (E : Env) (p : path) (x : bytes)
    (m : management) (req : SetupReplicationRequest) (f : fs) :
  is_cluster whole -> documented_tools whole E -> Forall plain (p ++ [x]) ->
  clusterDir m (req_DataDirectory req) = render (data_path p x) -> UseRewind req = false ->
  recoverable whole p x f ->
  let h := (SetupReplication m req (started_on f)).2 in
  recoverable whole p x (files h) /\
  (reported_done h -> whole (subtree (data_path p x) (files h)) /\
                      is_Some (files h !! (data_path p x ++ [bs "standby.signal"]))).
Proof.
  intros Hw Ht Hp Hm Hr Hf h.
  pose proof (wp_SetupReplication whole Hw (E := E) Ht p x Hp m req (started_on f) Hm Hr Hf (not_reported_fresh f)) as Hwp.
  unfold wp in Hwp. subst h. destruct (SetupReplication m req (started_on f)) as [u h']. by destruct Hwp as [? _].
Qed.

(** ** On a host whose tools work *)

(** The primary's files, as pg_basebackup writes them; what a directory must have to
    be a cluster is its version file. *)
Definition copied : fs :=
  list_to_map [([], Directory (0, 0)); ([bs "PG_VERSION"], RegularFile (0, 0) (bs "17"));
               ([bs "standby.signal"], RegularFile (0, 0) []);
               ([bs "postgresql.auto.conf"], RegularFile (0, 0) (bs "port = 5432"))].

Definition has_version (t : fs) : Prop := is_Some (t !! [bs "PG_VERSION"]).

Definition working_exec (n : nat) (c : Cmd) (f : fs) : option bytes * bytes * fs :=
  if decide (Name c = bs "pg_basebackup") then
    match Args c with a :: _ => (None, [], graft (resolve (drop 9 a)) copied f) | [] => (Some (bs "exit status 1"), [], f) end
  else if decide (Args c !! 2%nat = Some (bs "status")) then (Some (bs "exit status 3"), [], f)
  else (None, [], f).

Definition working : Env := {|
  fault := fun _ _ => None; survives := fun _ _ => false; torn := fun _ => None; exec := working_exec;
  delivered := fun _ => true; lookPath := fun _ => true; Geteuid := 26;
  userLookup := fun _ => Err (bs "unknown user") |}.

Lemma has_version_cluster : is_cluster has_version.
Proof.
  split; [done|]. intros t t' Ht H. unfold has_version in *. by rewrite H; [|apply (bool_decide_unpack _); vm_compute..].
Qed.

Lemma working_documented : documented_tools has_version working.
Proof.
  split; cbn [exec working]; unfold working_exec; intros n c d rest f.
  - intros k -> -> _. rewrite decide_False by (vm_compute; done). by case_decide.
  - intros -> ->. rewrite decide_False by (vm_compute; done). by case_decide.
  - intros k -> -> Hk. rewrite decide_True by done. cbn [snd]. apply graft_frame.
    by rewrite (drop_app_length' (bs "--pgdata=") d 9) by done.
  - intros -> -> _. rewrite decide_True by done. cbn [snd].
    rewrite (drop_app_length' (bs "--pgdata=") d 9) by done. rewrite subtree_graft. vm_compute. by eexists.
Qed.

Definition srv : path := [bs "srv"].
Definition old_host : fs :=
  list_to_map [(srv, Directory (0, 0)); (srv ++ [bs "pg"], Directory (26, 26));
               (srv ++ [bs "pg"; bs "PG_VERSION"], RegularFile (26, 26) (bs "16"));
               (srv ++ [bs "pg"; bs "postgresql.conf"], RegularFile (26, 26) (bs "port = 6432 # ours"))].

Definition agent (dir : bytes) : management := {| m_dataDir := dir; m_dbUser := []; m_allowedPaths := [] |}.
Definition follow : SetupReplicationRequest := {|
  PrimaryHost := bs "10.0.0.1"; PrimaryPort := 5432; ReplicationUser := bs "repl"; ReplicationPassword := bs "pw";
  SlotName := []; UseRewind := false; req_DataDirectory := [] |}.

Definition rebuilt (E : Env) (dir : bytes) (f : fs) : host := (@SetupReplication E (agent dir) follow (started_on f)).2.

(** The rebuild goes through, keeps the node's own port, and leaves nothing behind. *)
Example rebuild_completes :
  let h := rebuilt working (bs "/srv/pg") old_host in
  map Stage (sent h) = [bs "Syncing"; bs "Stopping"; bs "Swapping"; bs "Configuring"; bs "Starting"; bs "Done"] /\
  files h !! (srv ++ [bs "pg"; bs "PG_VERSION"]) = Some (RegularFile (0, 0) (bs "17")) /\
  files h !! (srv ++ [bs "pg"; bs "postgresql.auto.conf"]) =
    Some (RegularFile (0, 0) (bs "primary_conninfo = 'host=10.0.0.1 port=5432 user=repl password=pw'" ++ newline ::
                              bs "port = 6432" ++ [newline])) /\
  dir_entries srv (files h) = [bs "pg"].
Proof. vm_compute. split_and!; reflexivity. Qed.

(** The tree between the two renames: the directory is gone, the old cluster set aside. *)
Lemma lookup_default_elem {A : Type} (d : A) (l : list A) i : (i <? length l)%nat = true -> default d (l !! i) ∈ l.
Proof.
  intros H%Nat.ltb_lt. destruct (lookup_lt_is_Some_2 l i H) as [y Hy]. rewrite Hy. by eapply list_elem_of_lookup_2.
Qed.

Definition cut_between : fs := default ∅ (history (rebuilt working (bs "/srv/pg") old_host) !! 5%nat).

Example cut_between_renames :
  dir_entries srv cut_between = [bs "pg.pontus-previous"; bs "pg.pontus-rebuild"].
Proof. vm_compute. reflexivity. Qed.

Lemma interrupted_rebuilds_recoverable_witness :
  interrupted has_version srv (bs "pg") cut_between /\ recoverable has_version srv (bs "pg") cut_between.
Proof.
  assert (interrupted has_version srv (bs "pg") cut_between) as H.
  { apply (interrupted_at has_version srv (bs "pg") working (agent (bs "/srv/pg")) follow old_host).
    - apply interrupted_never. vm_compute. by eexists.
    - apply working_documented.
    - reflexivity.
    - reflexivity.
    - apply lookup_default_elem. vm_compute. reflexivity. }
  split; [exact H|]. refine (interrupted_rebuilds_recoverable has_version srv (bs "pg") cut_between _ _ H).
  - apply has_version_cluster.
  - apply (bool_decide_unpack _). vm_compute. exact I.
Defined.

Lemma rebuild_done_is_standby_witness :
  let h := rebuilt working (bs "/srv/pg") old_host in
  reported_done h /\ is_Some (files h !! (data_path srv (bs "pg") ++ [bs "standby.signal"])).
Proof.
  assert (reported_done (rebuilt working (bs "/srv/pg") old_host)) as Hd.
  { exists {| Stage := bs "Done"; Percentage := 100; Message := bs "Now following 10.0.0.1:5432" |}.
    split; [|left; reflexivity]. apply (list_elem_of_lookup_2 _ 5). vm_compute. reflexivity. }
  split; [exact Hd|].
  refine (proj2 (proj2 (rebuild_done_is_standby has_version working srv (bs "pg") (agent (bs "/srv/pg")) follow old_host
                          has_version_cluster working_documented _ _ _ _) Hd)).
  - apply (bool_decide_unpack _). vm_compute. exact I.
  - reflexivity.
  - reflexivity.
  - left. vm_compute. by eexists.
Defined.

(** Started again over that tree, the agent refuses: there is no version file where
    the directory was, and the set-aside cluster is not touched. *)
Example cut_rebuild_refused :
  let h := rebuilt working (bs "/srv/pg") cut_between in
  map Stage (sent h) = [stageError] /\ bool_decide (files h = cut_between) = true /\ length (history h) = 0%nat.
Proof. vm_compute. split_and!; reflexivity. Qed.

(** A directory named with a trailing slash passes every check, and its staging
    directory is then inside it: the rename of a directory into itself fails after
    the copy and the stop, every time, and the copy stays inside the cluster. *)
Example trailing_slash_never_swaps :
  let h := rebuilt working (bs "/srv/pg/") old_host in
  map Stage (sent h) = [bs "Syncing"; bs "Stopping"; bs "Swapping"; stageError] /\
  dir_entries (srv ++ [bs "pg"]) (files h) = [bs ".pontus-rebuild"; bs "PG_VERSION"; bs "postgresql.conf"].
Proof. vm_compute. split_and!; reflexivity. Qed.

(** With pg_rewind the copy comes too late: the program works in place, and when it
    fails half-way and the base backup then fails as well the directory is neither
    the old cluster nor a new one. *)
Definition torn_rewind : Env := {|
  fault := fun _ _ => None; survives := fun _ _ => false; torn := fun _ => None;
  exec := fun n c f =>
    if decide (Name c = bs "pg_rewind") then
      (Some (bs "signal: killed"), [], delete (srv ++ [bs "pg"; bs "PG_VERSION"]) f)
    else if decide (Name c = bs "pg_basebackup") then (Some (bs "exit status 1"), bs "no route to host", f)
    else working_exec n c f;
  delivered := fun _ => true; lookPath := fun _ => true; Geteuid := 26; userLookup := fun _ => Err [] |}.

Example rewind_is_not_staged :
  let req := {| PrimaryHost := bs "10.0.0.1"; PrimaryPort := 5432; ReplicationUser := []; ReplicationPassword := [];
                SlotName := []; UseRewind := true; req_DataDirectory := bs "/srv/pg" |} in
  let h := (@SetupReplication torn_rewind (agent []) req (started_on old_host)).2 in
  map Stage (sent h) = [bs "Stopping"; bs "Rewinding"; bs "Rewinding"; bs "Syncing"; stageError] /\
  dir_entries srv (files h) = [bs "pg"] /\ dir_entries (srv ++ [bs "pg"]) (files h) = [bs "postgresql.conf"].
Proof. vm_compute. split_and!; reflexivity. Qed.

(** libpq separates the settings of a connection string by spaces, and nothing in a
    value is quoted: the rest of such a password is read as another setting. *)
Example password_not_quoted :
  conninfo {| dataDir := []; primary := bs "p"; port := 5432; user := []; password := bs "a host=evil"; slot := [];
              rewind := false; runAs := None; identity := ∅ |} = bs "host=p port=5432 password=a host=evil".
Proof. vm_compute. reflexivity. Qed.

(** A number sign inside a quoted value is taken for a comment. *)
Example quoted_hash_cut :
  settingsIn (bs "listen_addresses = 'a#b'") !! bs "listen_addresses" = Some (bs "'a").
Proof. vm_compute. reflexivity. Qed.
