(* ===== verification/Agent.v ===== *)
(** * The agent on a database host

    The operations an agent offers besides the rebuild: creating and removing a
    cluster ([lifecycle.go]), backup, restore, vacuum and promotion
    ([maintenance.go]), the commands and service calls of [management.go], the
    package repository ([apt.go]) and the derived figures of [monitor.go].

    Requests to the package index and the output of other programs than
    PostgreSQL's are inputs. *)
From Stdlib Require Import ZArith QArith Lia Strings.String.
From stdpp Require Import base gmap list numbers option fin_maps.
From S2P Require Import Prelude Credentials Relay Format Host Rebuild.
#[local] Open Scope Z_scope.

(** ** Reaching the local cluster: [pg_host.go] *)

Record pgHost := { h_dataDir : bytes; h_port : Z; h_socketDir : bytes; h_user : bytes; h_runAs : option (Z * Z) }.

Definition DefaultSuperuser : bytes := bs "postgres".
Definition defaultPort : Z := 5432.

(** [strings.Cut(s, ",")]'s first part. *)
Definition before (c : byte) (s : bytes) : bytes := match cut s c with Some (a, _) => a | None => s end.

(** What [connectionSettings] makes of the settings it read. *)
Definition port_of (settings : gmap bytes bytes) : Z :=
  match settings !! bs "port" with
  | Some raw => match ParseInt64 (unquote raw) with
                | Some n => if decide (0 < n <= 65535) then n else defaultPort
                | None => defaultPort
                end
  | None => defaultPort
  end.

Definition socket_of (settings : gmap bytes bytes) : bytes :=
  match settings !! bs "unix_socket_directories" with
  | Some raw => TrimSpace (before (ch ",") (unquote raw))
  | None => []
  end.

Definition connArgs (h : pgHost) : list bytes :=
  [bs "--port=" ++ FormatInt (h_port h)] ++
  (if decide (h_socketDir h <> []) then [bs "--host=" ++ h_socketDir h] else []) ++
  (if decide (h_user h <> []) then [bs "--username=" ++ h_user h] else []).

Definition host_command (h : pgHost) (name : bytes) (args : list bytes) : Cmd :=
  {| Name := name; Args := args; ExtraEnv := []; Credential := h_runAs h |}.

Section Host.
Context {E : Env}.

Definition connectionSettings (dir : bytes) : M (Z * bytes) :=
  a ← ReadFile (JoinPath dir (bs "postgresql.conf"));
  b ← ReadFile (JoinPath dir (bs "postgresql.auto.conf"));
  let read r := match r with Ok c => connectionSettingsIn c | Err _ => ∅ end in
  let settings := read b ∪ read a in
  mret (port_of settings, socket_of settings).

Definition resolveHost (dir user : bytes) : M (result bytes pgHost) :=
  dir ← (if decide (dir = []) then DetectPostgresDataDir else mret dir);
  err ← validateDataDir dir;
  match err with
  | Some e => mret (Err e)
  | None =>
      cred ← ownerCredential dir;
      match cred with
      | Err e => mret (Err e)
      | Ok cred =>
          '(port, socket) ← connectionSettings dir;
          mret (Ok {| h_dataDir := dir; h_port := port; h_socketDir := socket;
                      h_user := if decide (user = []) then DefaultSuperuser else user; h_runAs := cred |})
      end
  end.

Definition requireTool (name : bytes) : option bytes :=
  if lookPath name then None
  else Some (name ++ bs " is not installed on this host, so this operation cannot run; install the PostgreSQL client tools").

Definition tool (h : pgHost) (name : bytes) (args : list bytes) : M (option bytes) :=
  runTool (host_command h name (connArgs h ++ args)).

(** ** Removing a cluster *)

Record Response := { Success : bool; ErrorMessage : bytes }.
Definition success : Response := {| Success := true; ErrorMessage := [] |}.
Definition failed (e : bytes) : Response := {| Success := false; ErrorMessage := e |}.

Fixpoint remove_entries (dir : bytes) (entries : list (bytes * bool)) : M (option oserr) :=
  match entries with
  | [] => mret None
  | (name, _) :: entries =>
      e ← RemoveAll (JoinPath dir name);
      match e with Some e => mret (Some e) | None => remove_entries dir entries end
  end.

Definition emptyDir (dir : bytes) : M (option oserr) :=
  r ← ReadDir dir;
  match r with
  | Err e => mret (Some e)
  | Ok entries => remove_entries dir entries
  end.

Record RemoveDatabaseRequest := { rm_DataDirectory : bytes; DeleteData : bool }.

Definition stop_only (h : pgHost) : replicationSetup :=
  {| dataDir := h_dataDir h; primary := []; port := 0; user := []; password := []; slot := []; rewind := false;
     runAs := h_runAs h; identity := ∅ |}.

Definition RemoveDatabase (m : management) (req : RemoveDatabaseRequest) : M Response :=
  host ← resolveHost (clusterDir m (rm_DataDirectory req)) (m_dbUser m);
  match host with
  | Err e => mret (failed e)
  | Ok h =>
      err ← stopPostgres (stop_only h);
      match err with
      | Some e => mret (failed (bs "stopping PostgreSQL at " ++ h_dataDir h ++ bs ": " ++ e))
      | None =>
          if DeleteData req then
            err ← emptyDir (h_dataDir h);
            mret (match err with
                  | Some e => failed (bs "deleting the contents of " ++ h_dataDir h ++ bs ": " ++ oserr_text e)
                  | None => success
                  end)
          else mret {| Success := true; ErrorMessage := bs "stopped " ++ h_dataDir h ++
                                                        bs "; data kept (delete_data was not set)" |}
      end
  end.

(** ** Creating a cluster *)

Record InitializeDatabaseRequest := {
  in_DataDirectory : bytes; Version : bytes; InitialUser : bytes; InitialPassword : bytes; InitialDatabase : bytes
}.

Record initPlan := {
  i_dataDir : bytes; owner : bytes; database : bytes; i_password : bytes; binDir : bytes; i_runAs : option (Z * Z)
}.

(** [versionedBinDir]. *)
Definition versionedBinDir (version : bytes) : M (result bytes bytes) :=
  if decide (TrimSpace version = []) then mret (Ok [])
  else
    let major := before (ch ".") version in
    match ParseInt64 major with
    | None => mret (Err (Quote version ++ bs " is not a PostgreSQL version"))
    | Some _ =>
        let dir := JoinPath (JoinPath (bs "/usr/lib/postgresql") major) (bs "bin") in
        r ← Stat (JoinPath dir (bs "initdb"));
        mret (match r with
              | Ok _ => Ok dir
              | Err _ => Err (bs "PostgreSQL " ++ major ++ bs " is not installed on this host (" ++ dir ++ bs " has no initdb)")
              end)
    end.

(** [accountCredential]. *)
Definition accountCredential (name : bytes) : result bytes (option (Z * Z)) :=
  if decide (Geteuid <> 0) then Ok None
  else match userLookup name with
       | Err e => Err (bs "no account " ++ Quote name ++ bs " on this host to own the cluster: " ++ e)
       | Ok (uid, gid) =>
           match ParseInt64 uid, ParseInt64 gid with
           | None, _ => Err (bs "account " ++ Quote name ++ bs " has a non-numeric uid " ++ Quote uid)
           | Some _, None => Err (bs "account " ++ Quote name ++ bs " has a non-numeric gid " ++ Quote gid)
           | Some u, Some g => Ok (Some (u32 u, u32 g))
           end
       end.

Definition first_nonempty (a b c : bytes) : bytes :=
  if decide (a <> []) then a else if decide (b <> []) then b else c.

Definition planInit (m : management) (req : InitializeDatabaseRequest) : M (result bytes initPlan) :=
  let dir := if decide (in_DataDirectory req <> []) then in_DataDirectory req else m_dataDir m in
  if decide (TrimSpace dir = []) then
    mret (Err (bs "no data directory given, and this agent was started without -data-dir"))
  else if negb (IsAbs dir) then mret (Err (bs "data directory " ++ Quote dir ++ bs " is not an absolute path"))
  else
    r ← Stat (JoinPath dir (bs "PG_VERSION"));
    match r with
    | Ok _ => mret (Err (Quote dir ++ bs " already holds a PostgreSQL cluster; remove it deliberately before initialising another"))
    | Err _ =>
        let owner := first_nonempty (InitialUser req) (m_dbUser m) DefaultSuperuser in
        bin ← versionedBinDir (Version req);
        mret (match bin, accountCredential owner with
              | Err e, _ => Err e
              | Ok _, Err e => Err e
              | Ok bin, Ok cred => Ok {| i_dataDir := dir; owner := owner; database := InitialDatabase req;
                                         i_password := InitialPassword req; binDir := bin; i_runAs := cred |}
              end)
    end.

Definition init_tool (p : initPlan) (name : bytes) : bytes :=
  if decide (binDir p = []) then name else JoinPath (binDir p) name.

Definition init_command (p : initPlan) (name : bytes) (args : list bytes) : Cmd :=
  {| Name := init_tool p name; Args := args; ExtraEnv := []; Credential := i_runAs p |}.

Definition chown_to (path : bytes) (runAs : option (Z * Z)) : M (option oserr) :=
  match runAs with
  | None => mret None
  | Some o => r ← Chown path o; mret (match r with Err e => Some e | Ok _ => None end)
  end.

Definition writePasswordFile (path password : bytes) (runAs : option (Z * Z)) : M (option bytes) :=
  r ← WriteFile path password;
  match r with
  | Err e => mret (Some (bs "writing the password file: " ++ oserr_text e))
  | Ok _ =>
      e ← chown_to path runAs;
      mret (match e with
            | Some e => Some (bs "giving the password file to the cluster owner: " ++ oserr_text e)
            | None => None
            end)
  end.

Definition initdb (p : initPlan) : M (option bytes) :=
  e ← MkdirAll (i_dataDir p);
  match e with
  | Some e => mret (Some (bs "creating " ++ i_dataDir p ++ bs ": " ++ oserr_text e))
  | None =>
      e ← chown_to (i_dataDir p) (i_runAs p);
      match e with
      | Some e => mret (Some (bs "giving " ++ i_dataDir p ++ bs " to the cluster owner: " ++ oserr_text e))
      | None =>
          let args := [bs "--pgdata=" ++ i_dataDir p; bs "--username=" ++ owner p] in
          if decide (i_password p = []) then runTool (init_command p (bs "initdb") args)
          else
            let pwFile := JoinPath (i_dataDir p) (bs ".initdb-pw") in
            e ← writePasswordFile pwFile (i_password p) (i_runAs p);
            match e with
            | Some e => mret (Some e)
            | None =>
                err ← runTool (init_command p (bs "initdb")
                  (args ++ [bs "--auth-local=scram-sha-256"; bs "--auth-host=scram-sha-256"; bs "--pwfile=" ++ pwFile]));
                _ ← RemoveFile pwFile;
                mret err
            end
      end
  end.

Definition init_start (p : initPlan) : M (option bytes) :=
  runTool (init_command p (bs "pg_ctl") [bs "-D"; i_dataDir p; bs "-w"; bs "-t"; bs "120"; bs "start"]).

Definition createDatabase (p : initPlan) : M (option bytes) :=
  '(port, socket) ← connectionSettings (i_dataDir p);
  runTool (init_command p (bs "createdb")
    ([bs "--port=" ++ FormatInt port; bs "--username=" ++ owner p] ++
     (if decide (socket <> []) then [bs "--host=" ++ socket] else []) ++ [database p])).

Definition InitializeDatabase (m : management) (req : InitializeDatabaseRequest) : M unit :=
  plan ← planInit m req;
  match plan with
  | Err e => send stageError 0 e
  | Ok p =>
      _ ← send (bs "Init") 10 (bs "Creating a cluster in " ++ i_dataDir p ++ bs " as " ++ owner p);
      err ← initdb p;
      match err with
      | Some e => send stageError 0 (bs "initdb failed: " ++ e)
      | None =>
          if decide (database p = []) then send (bs "Done") 100 (bs "Cluster created in " ++ i_dataDir p)
          else
            _ ← send (bs "Starting") 70 (bs "Starting the new cluster");
            err ← init_start p;
            match err with
            | Some e => send stageError 0 (bs "the new cluster did not start: " ++ e)
            | None =>
                _ ← send (bs "Creating") 85 (bs "Creating database " ++ database p);
                err ← createDatabase p;
                match err with
                | Some e => send stageError 0 (bs "creating database " ++ database p ++ bs ": " ++ e)
                | None => send (bs "Done") 100 (bs "Cluster created in " ++ i_dataDir p ++ bs " with database " ++ database p)
                end
            end
      end
  end.

(** [ScheduleMaintenance] refuses. *)
Definition ScheduleMaintenance : Response :=
  failed (bs "scheduled maintenance is not implemented: the agent has no scheduler and no store to keep a schedule across restarts. Drive VacuumDatabase or BackupDatabase from cron or a systemd timer instead.").

(** ** Backup, restore, vacuum, promotion *)

Definition dumpToolFor (database : bytes) : bytes :=
  if decide (database = []) then bs "pg_dumpall" else bs "pg_dump".

Definition validateBackupPath (path : bytes) : M (option bytes) :=
  if decide (TrimSpace path = []) then mret (Some (bs "no backup path given"))
  else if negb (IsAbs path) then
    mret (Some (bs "backup path " ++ Quote path ++
                bs " is not absolute; the agent's working directory is not something a caller can reason about"))
  else
    dir ← Stat (DirPath path);
    if match dir with Ok x => negb (IsDir x) | Err _ => true end then
      mret (Some (bs "backup directory " ++ Quote (DirPath path) ++ bs " does not exist"))
    else
      r ← Stat path;
      mret (match r with
            | Ok x => if IsDir x then Some (bs "backup path " ++ Quote path ++ bs " is a directory") else None
            | Err _ => None
            end).

Record BackupDatabaseRequest := { bk_Database : bytes; BackupPath : bytes }.

Definition node_size (x : node) : Z := match x with RegularFile _ c => zlen c | Directory _ => 4096 end.

(** The request is checked before the host. *)
Definition backup_checks (m : management) (req : BackupDatabaseRequest) : M (result bytes pgHost) :=
  err ← validateBackupPath (BackupPath req);
  match err with
  | Some e => mret (Err e)
  | None =>
      match requireTool (dumpToolFor (bk_Database req)) with
      | Some e => mret (Err e)
      | None => resolveHost (clusterDir m []) (m_dbUser m)
      end
  end.

(** The dump itself, in a goroutine of its own. *)
Definition run_backup (req : BackupDatabaseRequest) (h : pgHost) : M unit :=
  let name := dumpToolFor (bk_Database req) in
  _ ← send (bs "Dumping") 10 (bs "Running " ++ name ++ bs " into " ++ BackupPath req);
  let args :=
    if decide (bk_Database req = []) then [bs "--file=" ++ BackupPath req]
    else [bs "--format=custom"; bs "--file=" ++ BackupPath req; bs "--dbname=" ++ bk_Database req] in
  err ← tool h name args;
  match err with
  | Some e =>
      _ ← RemoveFile (BackupPath req);
      send stageError 0 (name ++ bs " failed: " ++ e)
  | None =>
      r ← Stat (BackupPath req);
      match r with
      | Err _ => send stageError 0 (name ++ bs " reported success but wrote nothing to " ++ BackupPath req)
      | Ok x => send (bs "Done") 100 (bs "Wrote " ++ FormatInt (node_size x) ++ bs " bytes to " ++ BackupPath req)
      end
  end.

Definition BackupDatabase (m : management) (req : BackupDatabaseRequest) : M unit :=
  host ← backup_checks m req;
  match host with
  | Err e => send stageError 0 e
  | Ok h => run_backup req h
  end.

(** [isCustomFormatDump]: an empty file is not an archive and not an error. *)
Definition isCustomFormatDump (path : bytes) : M (result oserr bool) :=
  r ← ReadFile path;
  mret (match r with Ok c => Ok (bool_decide (take 5 c = bs "PGDMP")) | Err e => Err e end).

Record RestoreDatabaseRequest := { rs_BackupPath : bytes; TargetDatabase : bytes }.

Definition RestoreDatabase (m : management) (req : RestoreDatabaseRequest) : M unit :=
  r ← Stat (rs_BackupPath req);
  host ← match r with
         | Err e => mret (Err (bs "no backup at " ++ rs_BackupPath req ++ bs ": " ++ oserr_text e))
         | Ok _ => resolveHost (clusterDir m []) (m_dbUser m)
         end;
  match host with
  | Err e => send stageError 0 e
  | Ok h =>
      custom ← isCustomFormatDump (rs_BackupPath req);
      match custom with
      | Err e => send stageError 0 (bs "could not read " ++ rs_BackupPath req ++ bs ": " ++ oserr_text e)
      | Ok custom =>
          let '(name, args) := if custom : bool then (bs "pg_restore", [rs_BackupPath req])
                               else (bs "psql", [bs "--file=" ++ rs_BackupPath req]) in
          let args := args ++ (if decide (TargetDatabase req <> []) then [bs "--dbname=" ++ TargetDatabase req] else []) in
          match requireTool name with
          | Some e => send stageError 0 e
          | None =>
              _ ← send (bs "Restoring") 10 (bs "Running " ++ name ++ bs " from " ++ rs_BackupPath req);
              err ← tool h name args;
              match err with
              | Some e => send stageError 0 (name ++ bs " failed: " ++ e)
              | None => send (bs "Done") 100 (bs "Restored " ++ rs_BackupPath req)
              end
          end
      end
  end.

Record VacuumDatabaseRequest := { vc_Database : bytes; Full : bool; Analyze : bool }.

Definition vacuum_args (req : VacuumDatabaseRequest) : list bytes :=
  (if decide (vc_Database req <> []) then [bs "--dbname=" ++ vc_Database req] else [bs "--all"]) ++
  (if Full req then [bs "--full"] else []) ++ (if Analyze req then [bs "--analyze"] else []).

Definition VacuumDatabase (m : management) (req : VacuumDatabaseRequest) : M unit :=
  host ← resolveHost (clusterDir m []) (m_dbUser m);
  match host, requireTool (bs "vacuumdb") with
  | Err e, _ => send stageError 0 e
  | Ok _, Some e => send stageError 0 e
  | Ok h, None =>
      _ ← send (bs "Vacuuming") 10 (bs "Running vacuumdb " ++ JoinWith (ch " ") (vacuum_args req));
      err ← tool h (bs "vacuumdb") (vacuum_args req);
      match err with
      | Some e => send stageError 0 (bs "vacuumdb failed: " ++ e)
      | None => send (bs "Done") 100 (bs "Vacuum complete")
      end
  end.

(** [wantsWait]. *)
Definition wantsWait (value : bytes) : bool :=
  bool_decide (ToLower_ascii (TrimSpace value) ∉ [bs "false"; bs "no"; bs "0"; bs "off"]).

Definition PromoteNode (m : management) (waitForCompletion : bytes) : M Response :=
  host ← resolveHost (clusterDir m []) (m_dbUser m);
  match host, requireTool (bs "pg_ctl") with
  | Err e, _ => mret (failed e)
  | Ok _, Some e => mret (failed e)
  | Ok h, None =>
      err ← runTool (host_command h (bs "pg_ctl")
        ([bs "-D"; h_dataDir h; bs "promote"] ++
         (if wantsWait waitForCompletion then [bs "-w"; bs "-t"; bs "60"] else [])));
      mret (match err with
            | Some e => failed (bs "promoting the standby at " ++ h_dataDir h ++ bs ": " ++ e)
            | None => success
            end)
  end.

(** ** Commands and services: [management.go], on Linux *)

Definition allowedCommands : list bytes :=
  map bs ["pg_basebackup"; "pg_ctl"; "pg_dump"; "pg_restore"; "systemctl"; "service"; "pg_isready"; "ps"; "df"; "free"]%string.

(** [ExecuteCommand]'s checks and the command it starts; the environment it sets is
    the request's alone. *)
Definition ExecuteCommand (command : bytes) (args env : list bytes) : result bytes Cmd :=
  if decide (command = []) then Err (bs "command is required")
  else if decide (command ∈ allowedCommands) then
    Ok {| Name := command; Args := args; ExtraEnv := env; Credential := None |}
  else Err (bs "command " ++ command ++ bs " is not allowed").

(** The validator of pg_hba.conf. *)
Definition validate_hba (filePath content : bytes) : option bytes :=
  if Contains filePath (bs "pg_hba.conf") && negb (Contains content (bs "host")) && negb (Contains content (bs "local"))
  then Some (bs "invalid pg_hba.conf: must contain host or local entries") else None.

(** [UpdateConfig], with the one validator the service installs. *)
Definition UpdateConfig (m : management) (filePath content : bytes) : M Response :=
  if negb (existsb (fun p => HasPrefix filePath p) (m_allowedPaths m)) then
    mret (failed (bs "path " ++ filePath ++ bs " is not allowed for updates"))
  else if Contains filePath (bs "pg_hba.conf") then
    mret (match validate_hba filePath content with
          | Some e => failed (bs "validation failed: " ++ e)
          | None => success
          end)
  else mret success.

Definition plain_command (name : bytes) (args : list bytes) : Cmd :=
  {| Name := name; Args := args; ExtraEnv := []; Credential := None |}.

Definition RestartService (service : bytes) : M Response :=
  '(err, _) ← run_program (plain_command (bs "systemctl") [bs "restart"; service]);
  mret (match err with Some e => failed (bs "failed to restart service: " ++ e) | None => success end).

Definition stop_service : M Response :=
  '(err, _) ← run_program (plain_command (bs "systemctl") [bs "stop"; bs "postgresql"]);
  mret (match err with Some e => failed (bs "failed to shutdown database: " ++ e) | None => success end).

Definition ShutdownDatabase (dataDirectory : bytes) : M Response :=
  dir ← (if decide (dataDirectory = []) then DetectPostgresDataDir else mret dataDirectory);
  if decide (dir = []) then stop_service
  else
    '(err, _) ← run_program (plain_command (bs "pg_ctl") [bs "-D"; dir; bs "stop"; bs "-m"; bs "fast"]);
    match err with None => mret success | Some _ => stop_service end.

(** ** The package repository: [apt.go] *)

(** [compareVersions]. *)
Definition compareVersions (v1 v2 : bytes) : Z :=
  match bytes_compare v1 v2 with Eq => 0 | Lt => -1 | Gt => 1 end.

(** [bufio.Scanner] by lines: a carriage return before the newline is dropped, an
    unterminated last line counts, and a line that does not fit in the buffer ends
    the scan. *)
Definition max_line : Z := 65535.

Definition drop_cr (l : bytes) : bytes := if decide (last l = Some (byte_of 13)) then removelast l else l.

Fixpoint scan_lines (parts : list bytes) : list bytes :=
  match parts with
  | [] => []
  | [l] => if decide (l = [] \/ max_line < zlen l) then [] else [drop_cr l]
  | l :: r => if decide (max_line < zlen l) then [] else drop_cr l :: scan_lines r
  end.

Definition Scan (content : bytes) : list bytes := scan_lines (split_on newline content).

(** [^Package: postgresql-(\d+)$], and [strconv.Atoi] of the digits, which saturates. *)
Definition package_major (line : bytes) : option Z :=
  let prefix := bs "Package: postgresql-" in
  if HasPrefix line prefix then
    let digits := drop (length prefix) line in
    if decide (digits = []) then None
    else match parse_digits digits 0 with Some n => Some (Z.min n (2 ^ 63 - 1)) | None => None end
  else None.

Record parse_state := { currentPackage : bytes; currentVersion : bytes; versions : gmap Z bytes }.

Definition end_of_block (st : parse_state) : gmap Z bytes :=
  if decide (currentPackage st <> [] /\ currentVersion st <> []) then
    match package_major (currentPackage st) with
    | Some major =>
        match versions st !! major with
        | Some existing => if decide (compareVersions existing (currentVersion st) < 0)
                           then <[major := currentVersion st]> (versions st) else versions st
        | None => <[major := currentVersion st]> (versions st)
        end
    | None => versions st
    end
  else versions st.

Definition parse_line (st : parse_state) (line : bytes) : parse_state :=
  if decide (line = []) then {| currentPackage := []; currentVersion := []; versions := end_of_block st |}
  else if HasPrefix line (bs "Package: ") then
    {| currentPackage := line; currentVersion := currentVersion st; versions := versions st |}
  else if HasPrefix line (bs "Version: ") then
    {| currentPackage := currentPackage st; currentVersion := drop 9 line; versions := versions st |}
  else st.

Definition parsePackages (body : bytes) : gmap Z bytes :=
  versions (foldl parse_line {| currentPackage := []; currentVersion := []; versions := ∅ |} (Scan body)).

(** [strings.Trim] of double quotes. *)
Fixpoint trim_dq_left (s : bytes) : bytes :=
  match s with c :: r => if decide (c = dq) then trim_dq_left r else s | [] => [] end.
Definition trim_dq (s : bytes) : bytes := rev (trim_dq_left (rev (trim_dq_left s))).

Definition codename (lines : list bytes) : option bytes :=
  head (omap (fun l => if HasPrefix l (bs "VERSION_CODENAME=") then Some (trim_dq (drop 17 l)) else None) lines).

Definition getDistro : M (result bytes bytes) :=
  r ← ReadFile (bs "/etc/os-release");
  mret (match r with
        | Err e => Err (oserr_text e)
        | Ok c => match codename (Scan c) with
                  | Some d => Ok d
                  | None => Err (bs "could not determine distro codename")
                  end
        end).

Definition packages_url (distro arch : bytes) : bytes :=
  bs "https://apt.postgresql.org/pub/repos/apt/dists/" ++ distro ++ bs "-pgdg/main/binary-" ++
  (if decide (arch = bs "386") then bs "i386" else arch) ++ bs "/Packages".

(** [fetch url] is the body of a successful answer, or why there is none. *)
Definition GetPostgresVersions (arch : bytes) (fetch : bytes -> result bytes bytes) : M (result bytes (gmap Z bytes)) :=
  distro ← getDistro;
  mret (match distro with
        | Err e => Err e
        | Ok d => match fetch (packages_url d arch) with Err e => Err e | Ok body => Ok (parsePackages body) end
        end).

Definition candidate_line (line : bytes) : option (result bytes bytes) :=
  let line := TrimSpace line in
  if HasPrefix line (bs "Candidate: ") then
    let v := drop 11 line in
    Some (if decide (v = bs "(none)") then Err (bs "package not found") else Ok v)
  else None.

Definition getOSVersion (major : Z) : M (result bytes bytes) :=
  '(err, out) ← run_program (plain_command (bs "apt-cache") [bs "policy"; bs "postgresql-" ++ FormatInt major]);
  mret (match err with
        | Some e => Err e
        | None => default (Err (bs "could not find version info")) (head (omap candidate_line (split_on newline out)))
        end).

Definition IsOSVersionOutdated (arch : bytes) (fetch : bytes -> result bytes bytes) (major : Z) : M (result bytes bool) :=
  repo ← GetPostgresVersions arch fetch;
  match repo with
  | Err e => mret (Err e)
  | Ok repo =>
      match repo !! major with
      | None => mret (Err (bs "major version " ++ FormatInt major ++ bs " not found in repository"))
      | Some repoVersion =>
          os ← getOSVersion major;
          mret (match os with
                | Err _ => Ok true
                | Ok osVersion => Ok (bool_decide (compareVersions osVersion repoVersion < 0))
                end)
      end
  end.

Fixpoint run_all (commands : list (bytes * list bytes)) : M (option bytes) :=
  match commands with
  | [] => mret None
  | (name, args) :: r =>
      '(err, _) ← run_program (plain_command name args);
      match err with
      | Some e => mret (Some (bs "failed to execute command [" ++ JoinWith (ch " ") (name :: args) ++ bs "]: " ++ e))
      | None => run_all r
      end
  end.

Definition AddPostgresRepository : M (option bytes) :=
  distro ← getDistro;
  match distro with
  | Err e => mret (Some e)
  | Ok d =>
      run_all
        [(bs "sh", [bs "-c"; bs "curl -fsSL https://www.postgresql.org/media/keys/ACCC4CF8.asc | gpg --dearmor -o /etc/apt/trusted.gpg.d/postgresql.gpg"]);
         (bs "sh", [bs "-c"; bs "echo " ++ dq :: bs "deb http://apt.postgresql.org/pub/repos/apt " ++ d ++ bs "-pgdg main" ++
                             dq :: bs " > /etc/apt/sources.list.d/pgdg.list"]);
         (bs "apt-get", [bs "update"])]
  end.

(** [InstallDatabase]; a failure carries its reason beside the message. *)
Definition install_failed (pct : Z) (message reason : bytes) : M unit := push (bs "Failed") pct (message ++ bs ": " ++ reason).

Definition InstallDatabase (arch : bytes) (fetch : bytes -> result bytes bytes) (version : bytes) : M unit :=
  match ParseInt64 version with
  | None => install_failed 0 (bs "Invalid major version") (bs "invalid major version: " ++ version)
  | Some major =>
      _ ← push (bs "Checking") 10 (bs "Checking PostgreSQL versions");
      outdated ← IsOSVersionOutdated arch fetch major;
      match outdated with
      | Err e => install_failed 10 (bs "Failed to check versions") (bs "failed to check versions: " ++ e)
      | Ok outdated =>
          err ← (if outdated : bool then
                   _ ← push (bs "Repository") 30 (bs "Adding PostgreSQL official repository");
                   AddPostgresRepository
                 else mret None);
          match err with
          | Some e => install_failed 30 (bs "Failed to add repository") (bs "failed to add repository: " ++ e)
          | None =>
              let package := bs "postgresql-" ++ FormatInt major in
              _ ← push (bs "Installing") 60 (bs "Installing " ++ package);
              '(err, _) ← run_program (plain_command (bs "apt-get") [bs "install"; bs "-y"; package]);
              match err with
              | Some e => install_failed 60 (bs "Failed to install package") (bs "failed to install postgresql: " ++ e)
              | None => push (bs "Done") 100 (bs "Database software installed")
              end
          end
      end
  end.

End Host.

(** ** Derived figures: [monitor.go] *)

(** The trend of the I/O time, at most sixty samples. *)
Definition push_sample (trend : list Q) (v : Q) : list Q :=
  let trend := trend ++ [v] in if decide (60 < length trend)%nat then drop 1 trend else trend.

Record HealthPrediction := { DegradationDetected : bool; Confidence : Q }.

Fixpoint never_falls (trend : list Q) : bool :=
  match trend with
  | a :: ((b :: _) as r) => if negb (Qle_bool a b) then false else never_falls r
  | _ => true
  end.

Definition predictHealth (trend : list Q) : option HealthPrediction :=
  if decide (length trend < 10)%nat then None
  else if never_falls trend && negb (Qle_bool (default 0%Q (last trend)) (100 # 1)) then
    Some {| DegradationDetected := true; Confidence := (85 # 100)%Q |}
  else Some {| DegradationDetected := false; Confidence := 1%Q |}.

(** [getTuningSuggestions], on a uint64. *)
Definition formatBytes (n : Z) : bytes :=
  if decide (1024 * 1024 * 1024 < n) then FormatInt (n / (1024 * 1024 * 1024)) ++ bs "GB"
  else FormatInt (n / (1024 * 1024)) ++ bs "MB".

Definition getTuningSuggestions (totalRam : Z) : list (bytes * bytes) :=
  if decide (totalRam = 0) then []
  else
    let maintenance := totalRam / 16 in
    [(bs "shared_buffers", formatBytes (totalRam / 4));
     (bs "effective_cache_size", formatBytes (u64 (totalRam * 3) / 4));
     (bs "maintenance_work_mem", formatBytes (if decide (2 * 1024 * 1024 * 1024 < maintenance)
                                              then 2 * 1024 * 1024 * 1024 else maintenance))].

(** The newest major version of the repository, when it is newer than the one found. *)
Definition recommended (detected : bytes) (repo : option (list Z)) : bytes :=
  if decide (detected = []) then []
  else
    let major := default 0 (ParseInt64 detected) in
    match repo with
    | Some majors =>
        let latest := foldl (fun latest v => if decide (latest < v) then v else latest) 0 majors in
        if decide (0 < major /\ major < latest) then FormatInt latest else []
    | None => []
    end.

(** ** Streaming a command's output

    [ExecuteCommand] starts two readers and waits for the program in a third
    goroutine, which sends the exit code and closes the channel.  [pending] counts
    the chunks the readers hold and have not sent; a send on a closed channel
    stops the whole process. *)
Module Stream.

Inductive phase := Waiting | Exited | Closed.
Record state := { main : phase; pending : nat; running : nat; crashed : bool }.

Definition start : state := {| main := Waiting; pending := 0; running := 2; crashed := false |}.

Inductive output_step : state -> state -> Prop :=
| read_chunk s : (pending s < running s)%nat ->
    output_step s {| main := main s; pending := S (pending s); running := running s; crashed := crashed s |}
| send_chunk s n : pending s = S n -> main s <> Closed ->
    output_step s {| main := main s; pending := n; running := running s; crashed := crashed s |}
| send_chunk_closed s n : pending s = S n -> main s = Closed ->
    output_step s {| main := Closed; pending := n; running := running s; crashed := true |}
| reader_ends s n : running s = S n -> (pending s <= n)%nat ->
    output_step s {| main := main s; pending := pending s; running := n; crashed := crashed s |}
| wait_returns s : main s = Waiting ->
    output_step s {| main := Exited; pending := pending s; running := running s; crashed := crashed s |}
| close_channel s : main s = Exited ->
    output_step s {| main := Closed; pending := pending s; running := running s; crashed := crashed s |}.

(** The exit code is sent and the channel closed without waiting for the readers:
    a chunk read before the program ended and sent after brings the agent down. *)
Example late_chunk_crashes : exists s, rtc output_step start s /\ crashed s = true.
Proof.
  eexists. split.
  - eapply rtc_l; [apply read_chunk; cbn; lia|]. eapply rtc_l; [by apply wait_returns|].
    eapply rtc_l; [by apply close_channel|]. eapply rtc_l; [by eapply send_chunk_closed|]. apply rtc_refl.
  - reflexivity.
Qed.

(** It is the only way: an agent whose readers had all ended when the channel was
    closed does not crash. *)
Lemma ended_readers_safe s s' :
  rtc output_step s s' -> running s = 0%nat -> pending s = 0%nat -> crashed s = false -> crashed s' = false.
Proof.
  intros H. assert (forall s s', output_step s s' -> running s = 0%nat /\ pending s = 0%nat /\ crashed s = false ->
    running s' = 0%nat /\ pending s' = 0%nat /\ crashed s' = false) as Hstep.
  { intros a b Hab (H1 & H2 & H3). inversion Hab; subst; cbn in *; split_and!; try lia; done. }
  induction H as [s|s a b Hs _ IH]; [done|]. intros H1 H2 H3.
  destruct (Hstep _ _ Hs) as (? & ? & ?); [done|]. by apply IH.
Qed.

End Stream.

(** ** Removing a cluster deletes that cluster *)

(** The names the kernel keeps in its trees, and programs with it. *)
Definition plain_names (f : fs) : Prop := forall k v, f !! k = Some v -> Forall plain k.

(** [pg_ctl] is taken to stay inside [-D]; the socket and its lock file, which a server
    that stops removes from a directory of its own, are not files of the tree. *)
Record host_kernel (E : Env) : Prop := {
  programs_name_plainly : forall n c f, plain_names f -> plain_names (exec n c f).2;
  pg_ctl_stays : forall n c d rest f k,
    Name c = bs "pg_ctl" -> Args c = bs "-D" :: d :: rest -> ~ resolve d `prefix_of` k ->
    (exec n c f).2 !! k = f !! k
}.

Definition always (f : fs) : Prop := True.

Lemma may_change_always q h : may_change always q h.
Proof. by intros g _. Qed.

Section Removal.
Context {E : Env} (Hk : host_kernel E).

Lemma wp_resolveHost I dir user h :
  dir <> [] ->
  wp I (resolveHost dir user)
    (fun r h' => still h h' /\ forall x, r = Ok x ->
       h_dataDir x = dir /\ is_Some (find (files h) (resolve (JoinPath dir (bs "PG_VERSION"))))) h.
Proof.
  intros Hne. unfold resolveHost. rewrite (decide_False (P := dir = [])) by done. apply wp_bind, wp_ret, wp_bind.
  eapply wp_mono; [apply wp_validateDataDir|]. intros [e|] h1 [H1 Hv]; [by apply wp_ret; split|].
  unfold ownerCredential. apply wp_bind, wp_bind, wp_Stat. intros r h2 H2 _. apply wp_ret.
  assert (still h h2) as H02 by (by eapply still_trans).
  destruct r as [e|o]; [by apply wp_ret; split|].
  case_decide; unfold connectionSettings; apply wp_bind, wp_bind, wp_ReadFile; intros a h3 H3;
    apply wp_bind, wp_ReadFile; intros b h4 H4; apply wp_ret, wp_ret;
    (split; [eapply still_trans; [done|]; by eapply still_trans|]); intros x [= <-]; (split; [done|]); by apply Hv.
Qed.

Context (q : path) (Hq : Forall plain q).

(** Only the tree below the directory changed, and only to plainly named files. *)
Definition inside (h h' : host) : Prop := touches q h h' /\ (plain_names (files h) -> plain_names (files h')).

Lemma inside_refl h : inside h h.
Proof. by split; [apply still_touches|]. Qed.

Lemma inside_trans h h1 h2 : inside h h1 -> inside h1 h2 -> inside h h2.
Proof. intros [? ?] [? ?]. split; [by eapply touches_trans|auto]. Qed.

Lemma wp_ctl_inside c rest h (Q : option bytes * bytes -> host -> Prop) :
  Name c = bs "pg_ctl" -> Args c = bs "-D" :: render q :: rest ->
  (forall r h', inside h h' -> Q r h') -> wp always (run_program c) Q h.
Proof.
  intros Hn Ha H. apply wp_run_program; [done|]. intros n r h' Hs Hf _. apply H. split; [split; [done|]|].
  - intros k Hk'. rewrite Hf. eapply pg_ctl_stays; [done..|]. by rewrite resolve_render.
  - rewrite Hf. by apply programs_name_plainly.
Qed.

Lemma wp_stop_inside s h :
  dataDir s = render q -> wp always (stopPostgres s) (fun _ h' => inside h h') h.
Proof.
  intros Hs. unfold stopPostgres, isRunning, runTool, command. rewrite Hs.
  apply wp_bind, wp_bind. eapply wp_ctl_inside; [done..|]. intros [e o] h1 H1. apply wp_ret.
  case_bool_decide; cbn [negb]; [|by apply wp_ret].
  apply wp_bind, wp_bind. eapply wp_ctl_inside; [done..|]. intros [e' o'] h2 H2. apply wp_ret.
  assert (inside h h2) as H02 by (by eapply inside_trans). destruct e' as [e'|]; [by apply wp_ret|].
  apply wp_bind, wp_bind. eapply wp_ctl_inside; [done..|]. intros [e3 o3] h3 H3. apply wp_ret, wp_ret.
  by eapply inside_trans.
Qed.

(** The entries of the directory go one by one. *)
Lemma wp_remove_entries (entries : list (bytes * bool)) h :
  Forall plain (map fst entries) ->
  wp always (remove_entries (render q) entries)
    (fun r h' => inside h h' /\ files h' ⊆ files h /\
       (r = None -> forall x, x ∈ map fst entries -> files h' !! (q ++ [x]) = None)) h.
Proof.
  revert h. induction entries as [|[name d] entries IH]; intros h Hp; cbn [remove_entries].
  { apply wp_ret. split_and!; [apply inside_refl|done|]. intros _ x Hx. by apply not_elem_of_nil in Hx. }
  cbn [map fst] in *. apply Forall_cons_iff in Hp as [Hn Hp]. apply wp_bind, wp_RemoveAll; [apply may_change_always|].
  intros r h1 Ht Hsub Hr. rewrite resolve_JoinPath in Ht, Hr by done.
  assert (inside h h1) as Hin.
  { split.
    - destruct Ht as [Hs Ht]. split; [done|]. intros k Hk'. apply Ht. intros [z ->]. apply Hk'.
      exists (name :: z). by rewrite <- app_assoc.
    - intros Hpn k v Hv. eapply Hpn. by eapply lookup_weaken. }
  destruct r as [e|]; [by apply wp_ret; split_and!|]. eapply wp_mono; [by apply IH|].
  intros r h2 (H2 & Hs2 & Hr2). split_and!; [by eapply inside_trans|by etransitivity|].
  intros -> x [->|Hx]%elem_of_cons; [|by apply Hr2]. specialize (Hr eq_refl).
  apply (f_equal (lookup [])) in Hr. rewrite lookup_subtree, app_nil_r, lookup_empty in Hr.
  by eapply lookup_weaken_None.
Qed.

Lemma wp_emptyDir h :
  plain_names (files h) ->
  wp always (emptyDir (render q))
    (fun r h' => inside h h' /\ (r = None -> forall x, files h' !! (q ++ [x]) = None)) h.
Proof.
  intros Hp. unfold emptyDir, ReadDir. apply wp_bind, wp_bind, wp_next_call. intros n h1 Hs.
  apply wp_bind, wp_get_files, wp_ret. destruct Hs as [Hf1 Hs1].
  assert (inside h h1) as H1 by (split; [by apply still_touches|by rewrite Hf1]).
  destruct (fault n _); [by apply wp_ret|]. rewrite resolve_render by done.
  destruct (find (files h1) q) as [[|]|]; [by apply wp_ret| |by apply wp_ret].
  set (entries := map _ _). assert (map fst entries = dir_entries q (files h1)) as He.
  { unfold entries. rewrite map_map. apply map_id. }
  eapply wp_mono; [apply wp_remove_entries|].
  - rewrite He. apply list.Forall_forall. intros x Hx%elem_of_dir_entries. destruct Hx as [v Hv]. rewrite Hf1 in Hv.
    apply Hp in Hv. by apply Forall_app in Hv as [_ Hv%Forall_inv].
  - intros r h2 (H2 & Hsub & Hr). split; [by eapply inside_trans|]. intros Hnone x.
    destruct (decide (x ∈ dir_entries q (files h1))) as [Hx|Hx]; [apply Hr; [done|by rewrite He]|].
    rewrite elem_of_dir_entries in Hx. eapply lookup_weaken_None; [|exact Hsub]. by apply eq_None_not_Some.
Qed.

Lemma wp_RemoveDatabase m req h :
  clusterDir m (rm_DataDirectory req) = render q -> q <> [] -> plain_names (files h) ->
  wp always (RemoveDatabase m req)
    (fun resp h' => inside h h' /\
       (find (files h) (q ++ [bs "PG_VERSION"]) = None -> files h' = files h /\ Success resp = false) /\
       (Success resp = true -> DeleteData req = true -> forall x, files h' !! (q ++ [x]) = None)) h.
Proof.
  intros Hm Hne Hp. unfold RemoveDatabase. rewrite Hm. apply wp_bind. eapply wp_mono.
  { apply wp_resolveHost. by destruct q. }
  intros [e|x] h1 [Hs1 Hx].
  { apply wp_ret. split_and!; [|by intros _; split; [apply Hs1|]|done].
    destruct Hs1 as [Hf ?]. split; [by apply still_touches|by rewrite Hf]. }
  destruct (Hx x eq_refl) as (Hd & Hv). rewrite resolve_JoinPath in Hv;
    [|done|apply (bool_decide_unpack _); vm_compute; done].
  assert (inside h h1) as H1.
  { destruct Hs1 as [Hf ?]. split; [by apply still_touches|by rewrite Hf]. }
  assert (find (files h) (q ++ [bs "PG_VERSION"]) <> None) as Hsome.
  { intros Hn. rewrite Hn in Hv. by destruct Hv. }
  apply wp_bind. eapply wp_mono; [by apply wp_stop_inside|]. intros err h2 H2.
  assert (inside h h2) as H02 by (by eapply inside_trans).
  destruct err as [e|]; [by apply wp_ret; split_and!|].
  destruct (DeleteData req) eqn:Edel; [|by apply wp_ret; split_and!].
  apply wp_bind. rewrite Hd. eapply wp_mono; [apply wp_emptyDir; by apply H02|].
  intros [e|] h3 [H3 Hr]; (apply wp_ret; split_and!; [by eapply inside_trans|done|]); [done|].
  intros _ _. by apply Hr.
Qed.
End Removal.

(** C39: Removing a database changes nothing outside its directory, given that [pg_ctl]
    does not ([host_kernel]); a directory that holds no cluster is refused and left alone;
    and a deletion that reports success leaves the directory without entries. *)
Theorem remove_database_confined (E : Env) (m : management) (req : RemoveDatabaseRequest) (q : path) (h : host) :
  host_kernel E -> Forall plain q -> q <> [] -> plain_names (files h) ->
  clusterDir m (rm_DataDirectory req) = render q ->
  let r := RemoveDatabase m req h in
  (forall k, ~ q `prefix_of` k -> files r.2 !! k = files h !! k) /\
  (find (files h) (q ++ [bs "PG_VERSION"]) = None -> files r.2 = files h /\ Success r.1 = false) /\
  (Success r.1 = true -> DeleteData req = true -> dir_entries q (files r.2) = []).
Proof.
  intros Hk Hq Hne Hp Hm r. subst r. pose proof (wp_RemoveDatabase Hk q Hq m req h Hm Hne Hp) as H. unfold wp in H.
  destruct (RemoveDatabase m req h) as [resp h']. destruct H as [([[_ Ht] _] & Hv & Hd) _].
  split_and!; [done..|]. intros H1 H2. apply elem_of_nil_inv. intros x Hx%elem_of_dir_entries.
  cbn [snd] in Hx. rewrite (Hd H1 H2 x) in Hx. by destruct Hx.
Qed.

(** ** Creating a cluster with a password *)

(** initdb refuses a directory that holds anything. *)
Definition initdb_refuses (E : Env) : Prop := forall n c d rest f x,
  bs "initdb" `suffix_of` Name c -> Args c = (bs "--pgdata=" ++ d) :: rest ->
  is_Some (f !! (resolve d ++ [x])) -> (exec n c f).1.1 <> None.

Section Creation.
Context {E : Env} (Hinit : initdb_refuses E) (q : path) (Hq : Forall plain q).

Lemma password_file_plain : plain (bs ".initdb-pw").
Proof. apply (bool_decide_unpack _). vm_compute. done. Qed.

Lemma wp_chown_to path o h (Q : option oserr -> host -> Prop) :
  (forall r h', sent h' = sent h -> (forall k, is_Some (files h !! k) -> is_Some (files h' !! k)) -> Q r h') ->
  wp always (chown_to path o) Q h.
Proof.
  intros H. unfold chown_to. destruct o as [o|]; [|by apply wp_ret, H].
  apply wp_bind, wp_Chown; [apply may_change_always|]. intros r h1 [Hs _] Hk. apply wp_ret. by apply H.
Qed.

Lemma wp_writePasswordFile pw runAs h :
  wp always (writePasswordFile (JoinPath (render q) (bs ".initdb-pw")) pw runAs)
    (fun r h' => sent h' = sent h /\ (r = None -> is_Some (files h' !! (q ++ [bs ".initdb-pw"])))) h.
Proof.
  unfold writePasswordFile. apply wp_bind, wp_WriteFile; [apply may_change_always|].
  rewrite resolve_JoinPath by (done || apply password_file_plain). intros r h1 [Hs1 _] Hr.
  destruct r as [e|[]]; [by apply wp_ret|]. destruct (Hr eq_refl) as [o Ho].
  apply wp_bind, wp_chown_to. intros e h2 Hs2 Hk2. apply wp_ret. split; [congruence|]. intros _. apply Hk2. by eexists.
Qed.

Lemma wp_MkdirAll p h (Q : option oserr -> host -> Prop) :
  (forall r h', sent h' = sent h -> Q r h') -> wp always (MkdirAll p) Q h.
Proof.
  intros H. unfold MkdirAll. apply wp_bind, wp_next_call. intros n h1 [_ Hs]. apply wp_bind, wp_get_files.
  destruct (fault n p); [by apply wp_ret, H|]. destruct (mkdirs _ _ _ _); [|by apply wp_ret, H].
  apply wp_bind, wp_set_files; [done|]. intros h2 _ Hs2. apply wp_ret, H. congruence.
Qed.

Lemma wp_Remove_any p h (Q : option oserr -> host -> Prop) :
  (forall r h', sent h' = sent h -> Q r h') -> wp always (RemoveFile p) Q h.
Proof.
  intros H. unfold RemoveFile. apply wp_bind, wp_next_call. intros n h1 [_ Hs]. apply wp_bind, wp_get_files.
  destruct (fault n p); [by apply wp_ret, H|]. destruct (files h1 !! _); [|by apply wp_ret, H].
  case_decide; [|by apply wp_ret, H]. apply wp_bind, wp_set_files; [done|]. intros h2 _ Hs2. apply wp_ret, H. congruence.
Qed.

Lemma init_tool_suffix p : bs "initdb" `suffix_of` init_tool p (bs "initdb").
Proof.
  unfold init_tool. case_decide; [done|]. apply JoinPath_suffix, (bool_decide_unpack _). vm_compute. done.
Qed.

Lemma wp_initdb_password p h :
  i_dataDir p = render q -> i_password p <> [] ->
  wp always (initdb p) (fun r h' => sent h' = sent h /\ r <> None) h.
Proof.
  intros Hd Hpw. unfold initdb. rewrite Hd. apply wp_bind, wp_MkdirAll. intros [e|] h1 Hs1; [by apply wp_ret|].
  apply wp_bind, wp_chown_to. intros [e|] h2 Hs2 _; [apply wp_ret; split; [congruence|done]|].
  rewrite decide_False by done. apply wp_bind. eapply wp_mono; [apply wp_writePasswordFile|].
  intros [e|] h3 [Hs3 Hf3]; [apply wp_ret; split; [congruence|done]|].
  apply wp_bind. unfold runTool. apply wp_bind, wp_run_program; [done|]. intros n [err o] h4 Hs4 _ Hr4. apply wp_ret.
  destruct err as [err|].
  - apply wp_bind, wp_Remove_any. intros _ h5 Hs5. apply wp_ret. split; [congruence|done].
  - exfalso. set (c := init_command _ _ _) in Hr4.
    apply (Hinit n c (render q) (tail (Args c)) (files h3) (bs ".initdb-pw")); [apply init_tool_suffix|reflexivity| |].
    + rewrite resolve_render by done. by apply Hf3.
    + by rewrite <- Hr4.
Qed.

Lemma wp_versionedBinDir v h (Q : result bytes bytes -> host -> Prop) :
  (forall r h', sent h' = sent h -> Q r h') -> wp always (versionedBinDir v) Q h.
Proof.
  intros H. unfold versionedBinDir. case_decide; [by apply wp_ret, H|]. destruct (ParseInt64 _); [|by apply wp_ret, H].
  apply wp_bind, wp_Stat. intros r h1 [_ Hs] _. apply wp_ret. by apply H.
Qed.

Lemma wp_planInit m req h :
  (if decide (in_DataDirectory req <> []) then in_DataDirectory req else m_dataDir m) = render q ->
  wp always (planInit m req)
    (fun r h' => sent h' = sent h /\ forall p, r = Ok p ->
       i_dataDir p = render q /\ i_password p = InitialPassword req) h.
Proof.
  intros Hd. unfold planInit. rewrite Hd. clear Hd. do 2 (case_match; [by apply wp_ret; split|]).
  apply wp_bind, wp_Stat. intros r h1 [_ Hs1] _. destruct r as [e|o]; [|by apply wp_ret; split].
  apply wp_bind, wp_versionedBinDir. intros bin h2 Hs2. apply wp_ret. split; [congruence|]. intros p Hp.
  destruct bin as [e'|bin]; [done|]. destruct (accountCredential _) as [e'|cred]; [done|]. by injection Hp as <-.
Qed.
End Creation.

(** The password file is written into the directory before initdb runs, and
    initdb refuses a directory that is not empty: a request that sets a password
    never succeeds. *)
Theorem password_never_initialised (E : Env) (m : management) (req : InitializeDatabaseRequest) (q : path) (f : fs) :
  initdb_refuses E -> Forall plain q ->
  (if decide (in_DataDirectory req <> []) then in_DataDirectory req else m_dataDir m) = render q ->
  InitialPassword req <> [] ->
  ~ reported_done (InitializeDatabase m req (started_on f)).2.
Proof.
  intros Hinit Hq Hd Hpw.
  assert (wp always (InitializeDatabase m req) (fun _ h' => ~ reported_done h') (started_on f)) as H.
  { unfold InitializeDatabase. apply wp_bind. eapply wp_mono; [by apply (wp_planInit q)|].
    intros plan h1 [Hs1 Hp]. assert (~ reported_done h1) as Hd1.
    { eapply not_done_sent; [apply not_reported_fresh|done]. }
    assert (forall h2 msg, ~ reported_done h2 -> wp always (send stageError 0 msg) (fun _ h' => ~ reported_done h') h2) as Herr.
    { intros h2 msg Hd2. apply wp_send. intros h3 _ Hs3. eapply not_done_send; [done| |done]. not_final. }
    destruct plan as [e|p]; [by apply Herr|]. destruct (Hp p eq_refl) as [Hpd Hpp].
    apply wp_bind, wp_send. intros h2 _ Hs2.
    assert (~ reported_done h2) as Hd2 by (eapply not_done_send; [done| |done]; not_final).
    apply wp_bind. eapply wp_mono; [apply (wp_initdb_password Hinit q Hq); [done|congruence]|].
    intros [e|] h3 [Hs3 Hr]; [|done]. apply Herr. by eapply not_done_sent. }
  unfold wp in H. destruct (InitializeDatabase m req (started_on f)). by destruct H as [? _].
Qed.

(** ** Backups *)

Section Backup.
Context {E : Env}.

Lemma wp_validateBackupPath path h (Q : option bytes -> host -> Prop) :
  (forall r h', still h h' -> Q r h') -> wp always (validateBackupPath path) Q h.
Proof.
  intros H. unfold validateBackupPath. case_decide; [by apply wp_ret, H|]. case_match; [by apply wp_ret, H|].
  apply wp_bind, wp_Stat. intros dir h1 Hst1 _. case_match; [by apply wp_ret, H|].
  apply wp_bind, wp_Stat. intros r h2 Hst2 _. apply wp_ret, H. by eapply still_trans.
Qed.

Lemma wp_DetectPostgresDataDir h (Q : bytes -> host -> Prop) :
  (forall d h', still h h' -> Q d h') -> wp always DetectPostgresDataDir Q h.
Proof.
  intros H. unfold DetectPostgresDataDir. apply wp_bind.
  assert (forall dirs deeper h Q, (forall d h Q, (forall r h', still h h' -> Q r h') -> wp always (deeper d) Q h) ->
    (forall r h', still h h' -> Q r h') -> wp always (first_cluster dirs deeper) Q h) as Hfirst.
  { clear. intros dirs deeper. induction dirs as [|d dirs IH]; intros h Q Hdeep HQ; cbn [first_cluster]; [by apply wp_ret, HQ|].
    apply wp_bind. unfold holds_version. apply wp_bind, wp_Stat. intros r h1 H1 _. apply wp_ret.
    destruct r as [e|o]; [|by apply wp_ret, HQ]. apply wp_bind, Hdeep. intros r h2 H2.
    assert (still h h2) by (by eapply still_trans). destruct r; [by apply wp_ret, HQ|].
    apply IH; [done|]. intros r h3 H3. apply HQ. by eapply still_trans. }
  assert (forall deeper d h Q, (forall d h Q, (forall r h', still h h' -> Q r h') -> wp always (deeper d) Q h) ->
    (forall r h', still h h' -> Q r h') -> wp always (in_subdirectories deeper d) Q h) as Hsub.
  { clear -Hfirst. intros deeper d h Q Hdeep HQ. unfold in_subdirectories, subdirectories, ReadDir.
    apply wp_bind, wp_bind, wp_bind, wp_next_call. intros n h1 H1. apply wp_bind, wp_get_files, wp_ret, wp_ret.
    apply Hfirst; [done|]. intros r h2 H2. apply HQ. by eapply still_trans. }
  assert (forall dirs h Q, (forall r h', still h h' -> Q r h') -> wp always (existing_dirs dirs) Q h) as Hex.
  { clear -Hfirst Hsub. induction dirs as [|d dirs IH]; intros h Q HQ; cbn [existing_dirs]; [by apply wp_ret, HQ|].
    apply wp_bind, wp_Stat. intros r h1 H1 _. destruct r as [e|o].
    { apply IH. intros r h2 H2. apply HQ. by eapply still_trans. }
    apply wp_bind, Hfirst.
    - intros d' h' Q' HQ'. apply Hsub; [|done]. intros d2 h2 Q2 HQ2. apply Hsub; [|done].
      intros d3 h3 Q3 HQ3. apply wp_ret. by apply HQ3.
    - intros r h2 H2. assert (still h h2) by (by eapply still_trans). destruct r; [by apply wp_ret, HQ|].
      apply IH. intros r h3 H3. apply HQ. by eapply still_trans. }
  apply Hex. intros r h1 H1. by apply wp_ret, H.
Qed.

Lemma wp_resolveHost_still dir user h (Q : result bytes pgHost -> host -> Prop) :
  (forall r h', still h h' -> Q r h') -> wp always (resolveHost dir user) Q h.
Proof.
  intros H. destruct (decide (dir = [])) as [->|Hne].
  - unfold resolveHost. rewrite (decide_True (P := @nil byte = [])) by done. apply wp_bind, wp_DetectPostgresDataDir. intros d h1 H1.
    destruct (decide (d = [])) as [->|Hd].
    + apply wp_bind. unfold validateDataDir. rewrite decide_True by done. apply wp_ret, wp_ret. by apply H.
    + pose proof (wp_resolveHost always d user h1 Hd) as Hw. unfold resolveHost in Hw.
      rewrite (decide_False (P := d = [])) in Hw by done. eapply wp_mono; [exact Hw|].
      intros r h2 [H2 _]. apply H. by eapply still_trans.
  - eapply wp_mono; [by apply wp_resolveHost|]. intros r h' [Hs _]. by apply H.
Qed.

Lemma wp_BackupDatabase m req h :
  ~ reported_done h ->
  wp always (BackupDatabase m req)
    (fun _ h' => reported_done h' -> is_Some (find (files h') (resolve (BackupPath req)))) h.
Proof.
  intros Hd.
  set (Q := fun (_ : unit) h' => reported_done h' -> is_Some (find (files h') (resolve (BackupPath req)))).
  assert (forall h msg, ~ reported_done h -> wp always (send stageError 0 msg) Q h) as Herr.
  { clear. intros h msg Hd. apply wp_send. intros h' _ Hs Hd'. exfalso. revert Hd'.
    eapply not_done_send; [done| |done]. not_final. }
  unfold BackupDatabase. apply wp_bind.
  assert (forall r h1, still h h1 -> wp always
    match r with
    | Err e => send stageError 0 e
    | Ok h0 => run_backup req h0
    end Q h1) as Hrest; cycle 1.
  { unfold backup_checks. apply wp_bind, wp_validateBackupPath. intros [e|] h1 H1; [apply wp_ret; exact (Hrest (Err e) h1 H1)|].
    destruct (requireTool _) as [e|]; [apply wp_ret; exact (Hrest (Err e) h1 H1)|].
    apply wp_resolveHost_still. intros r h2 H2. apply Hrest. by eapply still_trans. }
  intros r h1 [_ Hs1]. destruct r as [e|x]; [apply Herr; by eapply not_done_sent|].
  unfold run_backup. apply wp_bind, wp_send. intros h2 _ Hs2.
  assert (~ reported_done h2) as Hd2.
  { eapply not_done_send; [by eapply not_done_sent| |done]. not_final. }
  apply wp_bind. unfold tool, runTool. apply wp_bind, wp_run_program; [done|]. intros n [err o] h3 Hs3 _ _. apply wp_ret.
  assert (~ reported_done h3) as Hd3 by (by eapply not_done_sent).
  destruct err as [err|].
  - apply wp_bind, wp_Remove_any. intros _ h4 Hs4. apply Herr. by eapply not_done_sent.
  - apply wp_bind, wp_Stat. intros [e|y] h4 [Hf4 Hs4] Hy; [apply Herr; by eapply not_done_sent|].
    apply wp_send. intros h5 Hf5 _ _. rewrite Hf5, Hf4. exists y. by apply Hy.
Qed.
End Backup.

(** A backup that reports success left a file at its path. *)
Theorem backup_done_exists (E : Env) (m : management) (req : BackupDatabaseRequest) (f : fs) :
  let h := (BackupDatabase m req (started_on f)).2 in
  reported_done h -> is_Some (find (files h) (resolve (BackupPath req))).
Proof.
  intros h. pose proof (wp_BackupDatabase m req (started_on f) (not_reported_fresh f)) as H. unfold wp in H. subst h.
  destruct (BackupDatabase m req (started_on f)) as [u h']. by destruct H as [? _].
Qed.

(** ** On concrete hosts *)

Definition host_with (run : nat -> Cmd -> fs -> option bytes * bytes * fs) : Env := {|
  fault := fun _ _ => None; survives := fun _ _ => false; torn := fun _ => None; exec := run;
  delivered := fun _ => true; lookPath := fun _ => true; Geteuid := 26; userLookup := fun _ => Err [] |}.

(** Nothing runs and nothing can be run. *)
Definition quiet : Env := host_with (fun _ _ f => (Some (bs "exit status 3"), [], f)).

Lemma quiet_kernel : host_kernel quiet.
Proof. by split. Qed.

Definition remove_all : RemoveDatabaseRequest := {| rm_DataDirectory := bs "/srv/pg"; DeleteData := true |}.

Definition removed : Response * host := @RemoveDatabase quiet (agent []) remove_all (started_on old_host).

Lemma remove_database_confined_witness :
  Success removed.1 = true /\ dir_entries (srv ++ [bs "pg"]) (files removed.2) = [].
Proof.
  assert (Success removed.1 = true) as Hs by (vm_compute; reflexivity). split; [exact Hs|].
  assert (plain_names old_host) as Hp.
  { intros k v Hk. apply elem_of_map_to_list in Hk.
    assert (Forall (fun kv => Forall plain kv.1) (map_to_list old_host)) as Hf
      by (apply (bool_decide_unpack _); vm_compute; exact I).
    rewrite list.Forall_forall in Hf. exact (Hf _ Hk). }
  refine (proj2 (proj2 (remove_database_confined quiet (agent []) remove_all (srv ++ [bs "pg"]) (started_on old_host)
                          quiet_kernel _ _ Hp _)) Hs eq_refl).
  - apply (bool_decide_unpack _). vm_compute. exact I.
  - discriminate.
  - reflexivity.
Defined.

(** initdb as it is: it creates a cluster in an empty directory and refuses another. *)
Definition strict_initdb : Env := host_with (fun _ c f =>
  match Args c with
  | a :: _ => if decide (dir_entries (resolve (drop 9 a)) f = []) then
                (None, [], <[resolve (drop 9 a) ++ [bs "PG_VERSION"] := RegularFile (26, 26) (bs "17")]> f)
              else (Some (bs "exit status 1"), bs "initdb: error: directory exists but is not empty", f)
  | [] => (Some (bs "exit status 1"), [], f)
  end).

Lemma strict_initdb_refuses : initdb_refuses strict_initdb.
Proof.
  intros n c d rest f x _ Ha Hx. cbn [exec strict_initdb host_with]. rewrite Ha.
  rewrite (drop_app_length' (bs "--pgdata=") d 9) by done.
  rewrite decide_False; [done|]. apply elem_of_dir_entries in Hx. intros Hn. rewrite Hn in Hx. by apply not_elem_of_nil in Hx.
Qed.

Definition new_cluster (pw : bytes) : InitializeDatabaseRequest :=
  {| in_DataDirectory := bs "/srv/new"; Version := []; InitialUser := []; InitialPassword := pw; InitialDatabase := [] |}.

Lemma password_never_initialised_witness :
  ~ reported_done (@InitializeDatabase strict_initdb (agent []) (new_cluster (bs "s3cret")) (started_on old_host)).2.
Proof.
  refine (password_never_initialised strict_initdb (agent []) (new_cluster (bs "s3cret")) (srv ++ [bs "new"]) old_host
            strict_initdb_refuses _ _ _).
  - apply (bool_decide_unpack _). vm_compute. exact I.
  - reflexivity.
  - discriminate.
Defined.

(** On the same host the request without a password succeeds, and the one with a
    password fails in initdb, every time. *)
Example password_breaks_initialisation :
  map Stage (sent (@InitializeDatabase strict_initdb (agent []) (new_cluster []) (started_on old_host)).2) =
    [bs "Init"; bs "Done"] /\
  map Stage (sent (@InitializeDatabase strict_initdb (agent []) (new_cluster (bs "s3cret")) (started_on old_host)).2) =
    [bs "Init"; stageError].
Proof. vm_compute. split; reflexivity. Qed.

Definition dump_path : path := [bs "srv"; bs "all.sql"].
Definition dump_request : BackupDatabaseRequest := {| bk_Database := []; BackupPath := bs "/srv/all.sql" |}.

Definition dumping : Env :=
  host_with (fun _ _ f => (None, [], <[dump_path := RegularFile (26, 26) (bs "-- dump")]> f)).

Lemma backup_done_exists_witness :
  reported_done (@BackupDatabase dumping (agent (bs "/srv/pg")) dump_request (started_on old_host)).2 /\
  is_Some (find (files (@BackupDatabase dumping (agent (bs "/srv/pg")) dump_request (started_on old_host)).2) dump_path).
Proof.
  assert (reported_done (@BackupDatabase dumping (agent (bs "/srv/pg")) dump_request (started_on old_host)).2) as Hd.
  { exists {| Stage := bs "Done"; Percentage := 100; Message := bs "Wrote 7 bytes to /srv/all.sql" |}.
    split; [|left; reflexivity]. apply (list_elem_of_lookup_2 _ 1). vm_compute. reflexivity. }
  split; [exact Hd|]. exact (backup_done_exists dumping (agent (bs "/srv/pg")) dump_request old_host Hd).
Defined.

(** A dump that fails before it writes anything takes the previous backup at the
    same path with it. *)
Example failed_backup_deletes_previous :
  let before := <[dump_path := RegularFile (26, 26) (bs "last night's dump")]> old_host in
  let h := (@BackupDatabase quiet (agent (bs "/srv/pg")) dump_request (started_on before)).2 in
  map Stage (sent h) = [bs "Dumping"; stageError] /\ files h !! dump_path = None.
Proof. vm_compute. split; reflexivity. Qed.

(** Versions are compared as text, so the tenth minor release is older than the ninth. *)
Example versions_compared_as_text :
  compareVersions (bs "16.10-1.pgdg22.04+1") (bs "16.9-1.pgdg22.04+1") = -1.
Proof. vm_compute. reflexivity. Qed.

Definition text_lines (l : list String.string) : bytes := l ≫= fun s => bs s ++ [newline].

(** The index is read block by block, and a block counts when a blank line ends it:
    the last one is lost when the file does not end with one. *)
Example package_index_read :
  parsePackages (text_lines ["Package: postgresql-16"; "Version: 16.4-1"; "";
                             "Package: postgresql-16-cron"; "Version: 1.6-1"; "";
                             "Package: postgresql-17"; "Version: 17.2-1"]%string) !! 16 = Some (bs "16.4-1") /\
  parsePackages (text_lines ["Package: postgresql-17"; "Version: 17.2-1"]%string) !! 17 = None /\
  parsePackages (text_lines ["Package: postgresql-17"; "Version: 17.2-1"; ""]%string) !! 17 = Some (bs "17.2-1").
Proof. vm_compute. split_and!; reflexivity. Qed.

(** A configuration update is checked by the text of its path and then written
    nowhere, yet reported as made. *)
Example config_update_not_written :
  let m := {| m_dataDir := []; m_dbUser := []; m_allowedPaths := GetPostgresDataDirs |} in
  let r := @UpdateConfig m (bs "/etc/postgresql/../shadow") (bs "root::") (started_on old_host) in
  Success r.1 = true /\ bool_decide (files r.2 = old_host) = true.
Proof. vm_compute. split; reflexivity. Qed.

(** The degradation of a steady disk: a trend that never falls is enough, rising or not. *)
Example steady_io_reported_degrading :
  predictHealth (replicate 10 (101 # 1)%Q) = Some {| DegradationDetected := true; Confidence := (85 # 100)%Q |}.
Proof. vm_compute. reflexivity. Qed.
