(* ===== verification/Failover.v ===== *)
(** * Failover: promotion, split brain and rejoining

    Package [orchestration]: [failover_manager.go], [rejoin.go],
    [follow_primary.go], [ownership.go], [options.go], and the lag check of
    [postgres_provisioner.go].

    The manager's state is guarded by one lock that is released between the
    phases of a promotion, while the monitor, the data plane (which calls
    [TriggerFailover] directly), the verifications of earlier promotions and the
    rebuilds of nodes all run at once.  Each locked phase is a definition;
    [TriggerFailover] and [monitor] compose them as the code does for one caller
    running alone, and [step] interleaves them for any number of callers.  A pass
    of the monitor is interleaved at its test of the state, its counter and its
    claim; what a pass that found a primary does next (resetting the counter,
    demotions, starting rejoins) is one step with the reset.

    A backend is what its accessors returned when they were read; where the code
    reads them again the second reading is a separate input.  The provisioner
    and consensus answer through inputs as well. *)
From Stdlib Require Import ZArith Lia Strings.String Sorting.Sorted.
From stdpp Require Import base gmap list numbers option.
From S2P Require Import Prelude Health Pool Balancer.
#[local] Open Scope Z_scope.

(** ** Options *)

Definition second : Z := 1000000000.
Definition minute : Z := 60 * second.

Record Options := {
  o_Enabled : bool; o_FailureThreshold : Z;
  o_FollowPrimary : bool; o_FollowPrimaryTimeout : Z;
  o_AutoReattach : bool; o_AutoReattachInterval : Z;
  o_AutoRejoin : bool; o_AutoRejoinInterval : Z; o_AutoRejoinTimeout : Z; o_AutoRejoinMaxAttempts : Z
}.

Definition or_default (x d : Z) : Z := if decide (x <= 0) then d else x.

(** [sane]. *)
Definition sane (o : Options) : Options :=
  {| o_Enabled := o_Enabled o;
     o_FailureThreshold := or_default (o_FailureThreshold o) 3;
     o_FollowPrimary := o_FollowPrimary o;
     o_FollowPrimaryTimeout := or_default (o_FollowPrimaryTimeout o) (30 * minute);
     o_AutoReattach := o_AutoReattach o;
     o_AutoReattachInterval := or_default (o_AutoReattachInterval o) minute;
     o_AutoRejoin := o_AutoRejoin o;
     o_AutoRejoinInterval := or_default (o_AutoRejoinInterval o) (5 * minute);
     o_AutoRejoinTimeout := or_default (o_AutoRejoinTimeout o) (30 * minute);
     o_AutoRejoinMaxAttempts := or_default (o_AutoRejoinMaxAttempts o) 3 |}.

(** ** The tracker of rebuild attempts *)

Record rejoinState := { rj_attempts : Z; rj_lastAttempt : Z; rj_inFlight : bool }.

Abbreviation rejoinTracker := (gmap bytes rejoinState).

Definition newRejoinTracker : rejoinTracker := ∅.

(** [begin]: whether the caller may proceed, whether the budget is used up, and
    the tracker afterwards.  The zero [time.Time] is 0. *)
Definition begin (t : rejoinTracker) (addr : bytes) (interval maxAttempts now : Z)
  : bool * bool * rejoinTracker :=
  let found := bool_decide (is_Some (t !! addr)) in
  let state := default {| rj_attempts := 0; rj_lastAttempt := 0; rj_inFlight := false |} (t !! addr) in
  let t := <[addr := state]> t in
  if rj_inFlight state then (false, false, t)
  else if decide (maxAttempts <= rj_attempts state) then (false, true, t)
  else if found && bool_decide (rj_lastAttempt state <> 0)
          && bool_decide (now - rj_lastAttempt state < interval) then (false, false, t)
  else (true, false,
        <[addr := {| rj_attempts := rj_attempts state + 1; rj_lastAttempt := now; rj_inFlight := true |}]> t).

(** [finish]. *)
Definition finish (t : rejoinTracker) (addr : bytes) (succeeded : bool) : rejoinTracker :=
  match t !! addr with
  | None => t
  | Some state =>
      if succeeded then delete addr t
      else <[addr := {| rj_attempts := rj_attempts state; rj_lastAttempt := rj_lastAttempt state;
                        rj_inFlight := false |}]> t
  end.

(** [forget]. *)
Definition forget (t : rejoinTracker) (addr : bytes) : rejoinTracker :=
  match t !! addr with
  | Some state => if rj_inFlight state then t else delete addr t
  | None => t
  end.

(** ** The manager *)

Inductive FailoverState := StateIdle | StateMonitoring | StatePromoting | StateVerifying | StateFailed.

#[global] Instance FailoverState_eq_dec : EqDecision FailoverState.
Proof. solve_decision. Defined.

(** [FailoverState.String]. *)
Definition FailoverState_String (s : FailoverState) : bytes :=
  match s with
  | StateMonitoring => bs "monitoring"
  | StatePromoting => bs "promoting"
  | StateVerifying => bs "verifying"
  | StateFailed => bs "failed"
  | StateIdle => bs "idle"
  end.

Record FailoverManager := {
  fm_state : FailoverState; fm_lastPromoted : bytes; fm_missedPrimary : Z; fm_rejoins : rejoinTracker
}.

(** [NewFailoverManager]; the options it keeps are [sane opts]. *)
Definition NewFailoverManager : FailoverManager :=
  {| fm_state := StateIdle; fm_lastPromoted := []; fm_missedPrimary := 0; fm_rejoins := newRejoinTracker |}.

(** [setState]. *)
Definition setState (m : FailoverManager) (s : FailoverState) : FailoverManager :=
  {| fm_state := s; fm_lastPromoted := fm_lastPromoted m; fm_missedPrimary := fm_missedPrimary m;
     fm_rejoins := fm_rejoins m |}.

Definition set_missed (m : FailoverManager) (n : Z) : FailoverManager :=
  {| fm_state := fm_state m; fm_lastPromoted := fm_lastPromoted m; fm_missedPrimary := n;
     fm_rejoins := fm_rejoins m |}.

Definition set_lastPromoted (m : FailoverManager) (addr : bytes) : FailoverManager :=
  {| fm_state := fm_state m; fm_lastPromoted := addr; fm_missedPrimary := fm_missedPrimary m;
     fm_rejoins := fm_rejoins m |}.

Definition set_rejoins (m : FailoverManager) (t : rejoinTracker) : FailoverManager :=
  {| fm_state := fm_state m; fm_lastPromoted := fm_lastPromoted m; fm_missedPrimary := fm_missedPrimary m;
     fm_rejoins := t |}.

(** What the manager asks of the rest of the system, in order. *)
Inductive Effect :=
  | Promote (addr : bytes) (ok : bool)
  | Demote (addr primary : bytes)
  | SetPrimary (addr : bytes)
  | ReevaluateRole (addr : bytes)
  | Follow (primary : bytes)          (* go followNewPrimary *)
  | Verify (addr : bytes)             (* go verifyPromotion *)
  | Rejoin (addr primary : bytes).    (* go rejoin *)

#[global] Instance Effect_eq_dec : EqDecision Effect.
Proof. solve_decision. Defined.

(** Consensus, as the manager sees it during one call. *)
Record Consensus := { cs_IsLeader : bool; cs_GetPrimary : bytes }.

(** *** Choosing the replica *)

Definition healthy_replica (b : Backend) : bool := bool_decide (b_role b = RoleReplica) && b_healthy b.
Definition primary_role (b : Backend) : bool := bool_decide (b_role b = RolePrimary).
Definition healthy_primary (b : Backend) : bool := primary_role b && b_healthy b.

(** [findBestReplica]'s loop: [lag] is [CheckReplicationLag], [None] for an
    error, and [-1] stands for no minimum yet, as in the code. *)
Fixpoint best_loop (lag : bytes -> option Z) (backends : list Backend) (best : option Backend) (minLag : Z)
  : option Backend :=
  match backends with
  | [] => best
  | b :: rest =>
      if negb (healthy_replica b) then best_loop lag rest best minLag
      else match lag (b_address b) with
           | None => best_loop lag rest best minLag
           | Some l =>
               if bool_decide (minLag = -1) || bool_decide (l < minLag)
               then best_loop lag rest (Some b) l
               else best_loop lag rest best minLag
           end
  end.

(** [findBestReplica]. *)
Definition findBestReplica (lag : bytes -> option Z) (backends : list Backend) : option Backend :=
  best_loop lag backends None (-1).

(** [postgresProvisioner.CheckReplicationLag], the only implementation: it
    looks the address up, borrows a connection ([acquire] says whether it could)
    and answers zero. *)
Definition CheckReplicationLag (backends : list Backend) (acquire : Backend -> bool) (addr : bytes) : option Z :=
  match List.find (fun b => bool_decide (b_address b = addr)) backends with
  | None => None
  | Some target => if acquire target then Some 0 else None
  end.

(** *** The phases of [TriggerFailover] *)

(** The entry: refused, or claimed by setting [StatePromoting]. *)
Inductive trigger_result := TriggerOk | TriggerDisabled | TriggerBusy | NoReplica | PromoteFailed (addr : bytes).

Definition claim (opts : Options) (m : FailoverManager) : trigger_result + FailoverManager :=
  if negb (o_Enabled opts) then inl TriggerDisabled
  else if decide (fm_state m = StatePromoting) then inl TriggerBusy
  else inr (setState m StatePromoting).

(** The bookkeeping after a promotion that the provisioner accepted. *)
Definition record_promotion (has_consensus : bool) (m : FailoverManager) (addr : bytes)
  : FailoverManager * list Effect :=
  (set_lastPromoted m addr, if has_consensus then [SetPrimary addr] else []).

(** Telling the data plane; [after] is the backends as read then. *)
Definition announce (opts : Options) (m : FailoverManager) (addr : bytes) (after : list Backend)
  : FailoverManager * list Effect :=
  (setState (set_missed m 0) StateVerifying,
   ReevaluateRole addr ::
   map (fun b => ReevaluateRole (b_address b))
       (List.filter (fun b => primary_role b && negb (bool_decide (b_address b = addr))) after) ++
   (if o_FollowPrimary opts then [Follow addr] else []) ++ [Verify addr]).

(** The deferred reset. *)
Definition release (m : FailoverManager) : FailoverManager :=
  if decide (fm_state m = StatePromoting) then setState m StateIdle else m.

(** What one call of [TriggerFailover] is answered. *)
Record Answers := {
  a_backends : list Backend;            (* read by findBestReplica *)
  a_known : list Backend;               (* read by CheckReplicationLag *)
  a_acquire : Backend -> bool;          (* whether it could borrow a connection *)
  a_promote : bytes -> bool;            (* PromoteToPrimary succeeded *)
  a_after : list Backend                (* read after the promotion *)
}.

Definition a_lag (a : Answers) : bytes -> option Z := CheckReplicationLag (a_known a) (a_acquire a).

(** [TriggerFailover], with nothing else running. *)
Definition TriggerFailover (opts : Options) (has_consensus : bool) (m : FailoverManager) (a : Answers)
  : trigger_result * FailoverManager * list Effect :=
  match claim opts m with
  | inl r => (r, m, [])
  | inr m =>
      match findBestReplica (a_lag a) (a_backends a) with
      | None => (NoReplica, release (setState m StateFailed), [])
      | Some b =>
          let addr := b_address b in
          if negb (a_promote a addr)
          then (PromoteFailed addr, release (setState m StateFailed), [Promote addr false])
          else
            let '(m, told) := record_promotion has_consensus m addr in
            let '(m, announced) := announce opts m addr (a_after a) in
            (TriggerOk, release m, Promote addr true :: told ++ announced)
      end
  end.

(** *** Watching a promotion and a rebuild *)

(** One turn of a waiting loop: what the node answered, whether the deadline had
    passed, and whether the context ended during the wait that followed. *)
Record Turn := { t_role : Role; t_healthy : bool; t_replicating : bool; t_late : bool; t_cancelled : bool }.

(** [verifyPromotion]: the state it sets, [None] while it waits. *)
Fixpoint verifyPromotion (turns : list Turn) : option FailoverState :=
  match turns with
  | [] => None
  | t :: rest =>
      if bool_decide (t_role t = RolePrimary) && t_healthy t then Some StateIdle
      else if t_late t then Some StateFailed
      else if t_cancelled t then Some StateIdle
      else verifyPromotion rest
  end.

(** [confirmRejoined]. *)
Fixpoint confirmRejoined (turns : list Turn) : option bool :=
  match turns with
  | [] => None
  | t :: rest =>
      if bool_decide (t_role t = RoleReplica) && t_replicating t then Some true
      else if t_late t then Some false
      else if t_cancelled t then Some false
      else confirmRejoined rest
  end.

(** [rejoin]'s verdict, given to [finish]. *)
Definition rejoin_outcome (demoted : bool) (turns : list Turn) : option bool :=
  if negb demoted then Some false else confirmRejoined turns.

(** *** Following the new primary *)

(** [replicasToFollow]. *)
Definition replicasToFollow (primary : bytes) (backends : list Backend) : list Backend :=
  List.filter (fun b => negb (bool_decide (b_address b = primary) || negb (bool_decide (b_role b = RoleReplica)))
                        && b_healthy b) backends.

(** [followNewPrimary]: what it asks of the provisioner; the calls run in
    parallel and their order is not significant. *)
Definition followNewPrimary (primary : bytes) (backends : list Backend) : list Effect :=
  map (fun b => Demote (b_address b) primary) (replicasToFollow primary backends).

(** *** The monitor *)

(** [owned]: [owner] is the installed predicate, if any. *)
Definition owned (owner : option bool) : bool := match owner with None => true | Some b => b end.

(** [needsRejoin]. *)
Definition needsRejoin (b : Backend) (primary : bytes) : bool :=
  negb (bool_decide (b_address b = primary)) && bool_decide (b_role b = RoleReplica) && b_healthy b
  && negb (b_replicating b) && negb (b_draining b).

(** [reconcileRejoins]. *)
Fixpoint reconcileRejoins (opts : Options) (t : rejoinTracker) (primary : bytes) (now : Z)
    (backends : list Backend) : rejoinTracker * list Effect :=
  match backends with
  | [] => (t, [])
  | b :: rest =>
      let addr := b_address b in
      if negb (needsRejoin b primary) then reconcileRejoins opts (forget t addr) primary now rest
      else if negb (o_AutoRejoin opts) then reconcileRejoins opts t primary now rest
      else
        let '(ok, exhausted, t) := begin t addr (o_AutoRejoinInterval opts) (o_AutoRejoinMaxAttempts opts) now in
        let '(t, es) := reconcileRejoins opts t primary now rest in
        (t, if exhausted then es else if negb ok then es else Rejoin addr primary :: es)
  end.

(** The winner of a split brain; [again] is [IsHealthy] read a second time. *)
Definition split_winner (consensus : option Consensus) (lastPromoted : bytes) (again : Backend -> bool)
    (allPrimaries healthyPrimaries : list Backend) : option Backend :=
  let consensusPrimary := match consensus with Some c => cs_GetPrimary c | None => [] end in
  let agreed :=
    if decide (consensusPrimary <> [])
    then List.find (fun p => bool_decide (b_address p = consensusPrimary)) allPrimaries else None in
  match agreed with
  | Some w => Some w
  | None =>
      match List.find (fun p => bool_decide (b_address p = lastPromoted) && again p) allPrimaries with
      | Some w => Some w
      | None => head healthyPrimaries
      end
  end.

(** Demoting the others; [demote] says whether [DemoteToReplica] succeeded. *)
Definition demote_others (demote : bytes -> bool) (winner : bytes) (allPrimaries : list Backend) : list Effect :=
  mjoin (map (fun p => if bool_decide (b_address p = winner) then []
                       else Demote (b_address p) winner ::
                            (if demote (b_address p) then [ReevaluateRole (b_address p)] else []))
             allPrimaries).

(** One pass of the monitor up to the decision to promote, the last component
    of the result. *)
Record Readings := {
  r_owner : option bool;
  r_consensus : option Consensus;
  r_backends : list Backend;
  r_again : Backend -> bool;
  r_demote : bytes -> bool;
  r_now : Z
}.

Definition leader (r : Readings) : bool :=
  match r_consensus r with Some c => cs_IsLeader c | None => true end.

(** Whether the pass looks at the backends at all. *)
Definition observes (m : FailoverManager) (r : Readings) : bool :=
  owned (r_owner r) && negb (bool_decide (fm_state m = StatePromoting)) && leader r.

(** What it does about what it saw, once it has looked: the counter, and the
    decision to promote; or the demotions and rejoins. *)
Definition count (opts : Options) (m : FailoverManager) (r : Readings) : FailoverManager * list Effect * bool :=
  let allPrimaries := List.filter primary_role (r_backends r) in
  let healthyPrimaries := List.filter healthy_primary (r_backends r) in
  match healthyPrimaries with
  | [] =>
      let m := set_missed m (fm_missedPrimary m + 1) in
      if negb (o_Enabled opts) then (m, [], false)
      else if decide (fm_missedPrimary m < o_FailureThreshold opts) then (m, [], false)
      else (m, [], true)
  | first :: _ =>
      let m := set_missed m 0 in
      if decide (1 < zlen allPrimaries) then
        match split_winner (r_consensus r) (fm_lastPromoted m) (r_again r) allPrimaries healthyPrimaries with
        | None => (m, [], false)
        | Some winner => (m, demote_others (r_demote r) (b_address winner) allPrimaries, false)
        end
      else
        let '(t, es) := reconcileRejoins opts (fm_rejoins m) (b_address first) (r_now r) (r_backends r) in
        (set_rejoins m t, es, false)
  end.

Definition observe (opts : Options) (m : FailoverManager) (r : Readings) : FailoverManager * list Effect * bool :=
  if negb (owned (r_owner r)) then (m, [], false)
  else if decide (fm_state m = StatePromoting) then (m, [], false)
  else if negb (leader r) then (m, [], false)
  else count opts m r.

(** One tick of [Start]: [monitor], when this process owns orchestration. *)
Definition monitor (opts : Options) (m : FailoverManager) (r : Readings) (a : Answers)
  : FailoverManager * list Effect :=
  let '(m, es, promote) := observe opts m r in
  if promote then
    let '(_, m, es') := TriggerFailover opts (bool_decide (is_Some (r_consensus r))) m a in (m, es ++ es')
  else (m, es).

(** ** Everything at once

    A call of [TriggerFailover] is between two of its phases; the calls are
    numbered by whoever makes them.  A pass of the monitor releases the lock
    between its test of the state, its counter and its claim, so it is three
    steps: [Look], [Count] and [Claim].  There is one monitor; that it also waits
    for the call it makes before it looks again is not required of a history. *)

Inductive Phase := Searching | Chosen (b : Backend) | Promoted (b : Backend) | Recorded (b : Backend) | Returning.

(** Where the monitor is in a pass: it has read the backends, or has decided to
    promote. *)
Inductive Pass := Looked (r : Readings) | Decided (r : Readings).

Record System := {
  s_manager : FailoverManager;
  s_calls : gmap nat Phase;
  s_rebuilds : list bytes;      (* the rejoin goroutines that have not finished *)
  s_pass : option Pass          (* the pass of the monitor, while there is one *)
}.

Inductive event :=
  | Look (r : Readings)
  | Count
  | Claim (id : nat)
  | Trigger (id : nat)
  | Find (id : nat) (backends known : list Backend) (acquire : Backend -> bool)
  | PromoteCall (id : nat) (ok : bool)
  | Record_ (id : nat) (has_consensus : bool)
  | Announce (id : nat) (after : list Backend)
  | Return (id : nat)
  | Verified (turns : list Turn)
  | Repoint (primary : bytes) (backends : list Backend)
  | Rebuilt (addr : bytes) (demoted : bool) (turns : list Turn).

Definition with_manager (s : System) (m : FailoverManager) : System :=
  {| s_manager := m; s_calls := s_calls s; s_rebuilds := s_rebuilds s; s_pass := s_pass s |}.

Definition with_pass (s : System) (p : option Pass) : System :=
  {| s_manager := s_manager s; s_calls := s_calls s; s_rebuilds := s_rebuilds s; s_pass := p |}.

Definition with_call (s : System) (id : nat) (p : Phase) : System :=
  {| s_manager := s_manager s; s_calls := <[id := p]> (s_calls s); s_rebuilds := s_rebuilds s; s_pass := s_pass s |}.

Definition drop_call (s : System) (id : nat) : System :=
  {| s_manager := s_manager s; s_calls := delete id (s_calls s); s_rebuilds := s_rebuilds s; s_pass := s_pass s |}.

(** A call enters; the number has to be free. *)
Definition enter (opts : Options) (s : System) (id : nat) : System :=
  match s_calls s !! id, claim opts (s_manager s) with
  | None, inr m => with_call (with_manager s m) id Searching
  | _, _ => s
  end.

Definition rebuilds_of (es : list Effect) : list bytes :=
  omap (fun e => match e with Rejoin addr _ => Some addr | _ => None end) es.

Fixpoint remove_one (a : bytes) (l : list bytes) : list bytes :=
  match l with
  | [] => []
  | b :: rest => if decide (a = b) then rest else b :: remove_one a rest
  end.

Definition step (opts : Options) (s : System) (e : event) : System * list Effect :=
  let m := s_manager s in
  match e with
  | Look r =>
      match s_pass s with
      | None => (if observes m r then with_pass s (Some (Looked r)) else s, [])
      | Some _ => (s, [])
      end
  | Count =>
      match s_pass s with
      | Some (Looked r) =>
          let '(m, es, promote) := count opts m r in
          ({| s_manager := m; s_calls := s_calls s; s_rebuilds := rebuilds_of es ++ s_rebuilds s;
              s_pass := if promote then Some (Decided r) else None |}, es)
      | _ => (s, [])
      end
  | Claim id =>
      match s_pass s with
      | Some (Decided _) => (enter opts (with_pass s None) id, [])
      | _ => (s, [])
      end
  | Trigger id => (enter opts s id, [])
  | Find id backends known acquire =>
      match s_calls s !! id with
      | Some Searching =>
          match findBestReplica (CheckReplicationLag known acquire) backends with
          | Some b => (with_call s id (Chosen b), [])
          | None => (with_call (with_manager s (setState m StateFailed)) id Returning, [])
          end
      | _ => (s, [])
      end
  | PromoteCall id ok =>
      match s_calls s !! id with
      | Some (Chosen b) =>
          (if ok then with_call s id (Promoted b)
           else with_call (with_manager s (setState m StateFailed)) id Returning,
           [Promote (b_address b) ok])
      | _ => (s, [])
      end
  | Record_ id has_consensus =>
      match s_calls s !! id with
      | Some (Promoted b) =>
          let '(m, es) := record_promotion has_consensus m (b_address b) in
          (with_call (with_manager s m) id (Recorded b), es)
      | _ => (s, [])
      end
  | Announce id after =>
      match s_calls s !! id with
      | Some (Recorded b) =>
          let '(m, es) := announce opts m (b_address b) after in
          (with_call (with_manager s m) id Returning, es)
      | _ => (s, [])
      end
  | Return id =>
      match s_calls s !! id with
      | Some Returning => (drop_call (with_manager s (release m)) id, [])
      | _ => (s, [])
      end
  | Verified turns =>
      match verifyPromotion turns with
      | Some st => (with_manager s (setState m st), [])
      | None => (s, [])
      end
  | Repoint primary backends => (s, followNewPrimary primary backends)
  | Rebuilt addr demoted turns =>
      match rejoin_outcome demoted turns, decide (addr ∈ s_rebuilds s) with
      | Some ok, left _ =>
          ({| s_manager := set_rejoins m (finish (fm_rejoins m) addr ok); s_calls := s_calls s;
              s_rebuilds := remove_one addr (s_rebuilds s); s_pass := s_pass s |}, [])
      | _, _ => (s, [])
      end
  end.

Definition init : System := {| s_manager := NewFailoverManager; s_calls := ∅; s_rebuilds := []; s_pass := None |}.

Definition run (opts : Options) (es : list event) : System :=
  foldl (fun s e => fst (step (sane opts) s e)) init es.

Lemma run_snoc opts es e : run opts (es ++ [e]) = fst (step (sane opts) (run opts es) e).
Proof. unfold run. by rewrite foldl_app. Qed.

(** ** Choosing the replica: correctness *)

Definition answers_sane (lag : bytes -> option Z) : Prop := forall a l, lag a = Some l -> 0 <= l.

(** [b] is a healthy replica of [backends] that answered, and no other that
    answered lags less. *)
Definition least_lagged (lag : bytes -> option Z) (backends : list Backend) (b : Backend) : Prop :=
  b ∈ backends /\ healthy_replica b = true /\
  exists l, lag (b_address b) = Some l /\
    forall b' l', b' ∈ backends -> healthy_replica b' = true -> lag (b_address b') = Some l' -> l <= l'.

Definition answered (lag : bytes -> option Z) (backends : list Backend) : Prop :=
  exists b l, b ∈ backends /\ healthy_replica b = true /\ lag (b_address b) = Some l.

Lemma best_loop_None lag backends best minLag :
  best_loop lag backends best minLag = None -> best = None /\ (minLag = -1 -> ~ answered lag backends).
Proof.
  revert best minLag. induction backends as [|b rest IH]; intros best minLag; cbn [best_loop].
  { intros ->. split; [done|]. intros _ (b & l & Hb & _). by apply elem_of_nil in Hb. }
  destruct (healthy_replica b) eqn:Hr; cbn [negb]; [destruct (lag (b_address b)) as [l|] eqn:Hl|].
  - case_match eqn:Hc.
    + intros [? _]%IH. done.
    + intros [-> _]%IH. split; [done|]. intros ->. by rewrite bool_decide_true in Hc.
  - intros [-> H]%IH. split; [done|]. intros Hm (b' & l & Hb & Hb' & Hl').
    apply elem_of_cons in Hb as [->|Hb]; [congruence|]. apply (H Hm). by exists b', l.
  - intros [-> H]%IH. split; [done|]. intros Hm (b' & l & Hb & Hb' & Hl').
    apply elem_of_cons in Hb as [->|Hb]; [congruence|]. apply (H Hm). by exists b', l.
Qed.

Lemma best_loop_Some lag backends best minLag b :
  answers_sane lag ->
  (best = None /\ minLag = -1 \/ exists b0, best = Some b0 /\ lag (b_address b0) = Some minLag) ->
  best_loop lag backends best minLag = Some b ->
  (best = Some b \/ b ∈ backends /\ healthy_replica b = true) /\
  exists l, lag (b_address b) = Some l /\ (best <> None -> l <= minLag) /\
    forall b' l', b' ∈ backends -> healthy_replica b' = true -> lag (b_address b') = Some l' -> l <= l'.
Proof.
  intros Hsane. revert best minLag. induction backends as [|b0 rest IH]; intros best minLag Hinv; cbn [best_loop].
  { intros ->. destruct Hinv as [[? _]|(b0 & [= ->] & Hl)]; [done|].
    split; [by left|]. exists minLag. split; [done|]. split; [lia|]. by intros b' l' ?%elem_of_nil. }
  assert (forall l', (exists l, lag (b_address b) = Some l /\ l <= l') ->
            forall l, lag (b_address b) = Some l -> l <= l') as Hfun by (intros l' (l & E & ?) ? ?; simplify_eq; lia).
  destruct (healthy_replica b0) eqn:Hr; cbn [negb]; [destruct (lag (b_address b0)) as [l0|] eqn:Hl0|].
  - case_match eqn:Hc.
    + intros (Hb & l & Hl & Hle & Hmin)%IH; [|right; by exists b0].
      split; [right; rewrite elem_of_cons; destruct Hb as [[= ->]|[? ?]]; tauto|].
      exists l. split; [done|]. split.
      * intros Hne. destruct Hinv as [[? _]|(b1 & -> & Hl1)]; [done|].
        apply orb_true_iff in Hc as [->%bool_decide_eq_true|Hlt%bool_decide_eq_true].
        -- by apply Hsane in Hl1.
        -- specialize (Hle ltac:(done)). lia.
      * intros b' l' Hb' Hr' Hl'. apply elem_of_cons in Hb' as [->|Hb']; [|by eapply Hmin].
        rewrite Hl0 in Hl'. simplify_eq. by apply Hle.
    + intros (Hb & l & Hl & Hle & Hmin)%IH; [|done].
      split; [rewrite elem_of_cons; tauto|]. exists l. split; [done|]. split; [done|].
      intros b' l' Hb' Hr' Hl'. apply elem_of_cons in Hb' as [->|Hb']; [|by eapply Hmin].
      rewrite Hl0 in Hl'. simplify_eq.
      apply orb_false_iff in Hc as [H1%bool_decide_eq_false H2%bool_decide_eq_false].
      destruct Hinv as [[_ ?]|(b1 & -> & Hl1)]; [done|]. specialize (Hle ltac:(done)). lia.
  - intros (Hb & l & Hl & Hle & Hmin)%IH; [|done].
    split; [rewrite elem_of_cons; tauto|]. exists l. split; [done|]. split; [done|].
    intros b' l' Hb' Hr' Hl'. apply elem_of_cons in Hb' as [->|Hb']; [congruence|by eapply Hmin].
  - intros (Hb & l & Hl & Hle & Hmin)%IH; [|done].
    split; [rewrite elem_of_cons; tauto|]. exists l. split; [done|]. split; [done|].
    intros b' l' Hb' Hr' Hl'. apply elem_of_cons in Hb' as [->|Hb']; [congruence|by eapply Hmin].
Qed.

Lemma findBestReplica_least lag backends b :
  answers_sane lag -> findBestReplica lag backends = Some b -> least_lagged lag backends b.
Proof.
  intros Hsane Hf. apply best_loop_Some in Hf as (Hb & l & Hl & _ & Hmin); [|done|by left].
  destruct Hb as [?|[Hb Hr]]; [done|]. split; [done|]. split; [done|]. by exists l.
Qed.

(** With the provisioner's own lag check, which answers zero for every node, the
    first replica that can be reached is the one, however far behind it is. *)
Definition reachable (known : list Backend) (acquire : Backend -> bool) (b : Backend) : bool :=
  healthy_replica b && bool_decide (is_Some (CheckReplicationLag known acquire (b_address b))).

Lemma lag_check_is_constant known acquire backends :
  findBestReplica (CheckReplicationLag known acquire) backends = List.find (reachable known acquire) backends.
Proof.
  unfold findBestReplica.
  assert (forall l b, best_loop (CheckReplicationLag known acquire) l (Some b) 0 = Some b) as Hsome.
  { intros l b. induction l as [|b0 l IH]; [done|]. cbn [best_loop]. destruct (healthy_replica b0); cbn [negb]; [|done].
    destruct (CheckReplicationLag known acquire (b_address b0)) as [z|] eqn:E; [|done].
    assert (z = 0) as -> by (unfold CheckReplicationLag in E; repeat case_match; congruence). done. }
  induction backends as [|b l IH]; [done|]. cbn [best_loop List.find]. unfold reachable at 1.
  destruct (healthy_replica b); cbn [negb andb]; [|done].
  destruct (CheckReplicationLag known acquire (b_address b)) as [z|] eqn:E.
  - assert (z = 0) as -> by (unfold CheckReplicationLag in E; repeat case_match; congruence).
    rewrite bool_decide_true by eauto. cbn. apply Hsome.
  - rewrite bool_decide_false by (intros [? ?]; congruence). done.
Qed.

(** [b] is the first of [backends] that is a healthy replica and can be reached. *)
Definition first_reachable (known : list Backend) (acquire : Backend -> bool) (backends : list Backend) (b : Backend) : Prop :=
  exists before after, backends = before ++ b :: after /\ healthy_replica b = true /\
    is_Some (CheckReplicationLag known acquire (b_address b)) /\
    Forall (fun b' => reachable known acquire b' = false) before.

Lemma find_first (f : Backend -> bool) l b :
  List.find f l = Some b -> exists before after, l = before ++ b :: after /\ f b = true /\ Forall (fun b' => f b' = false) before.
Proof.
  induction l as [|x l IH]; cbn [List.find]; [done|]. destruct (f x) eqn:Hx.
  - intros [= ->]. by exists [], l.
  - intros (before & after & -> & Hf & HF)%IH. exists (x :: before), after. split; [done|]. split; [done|]. by constructor.
Qed.

Lemma findBestReplica_first known acquire backends b :
  findBestReplica (CheckReplicationLag known acquire) backends = Some b -> first_reachable known acquire backends b.
Proof.
  rewrite lag_check_is_constant. intros (before & after & -> & Hf & HF)%find_first.
  apply andb_true_iff in Hf as [H1 H2%bool_decide_eq_true]. by exists before, after.
Qed.

Lemma findBestReplica_None lag backends :
  findBestReplica lag backends = None -> ~ answered lag backends.
Proof. intros H%best_loop_None. by apply H. Qed.

(** ** When a promotion happens *)

Definition no_healthy_primary (backends : list Backend) : Prop :=
  forall b, b ∈ backends -> healthy_primary b = false.

(** What the monitor saw, pass after pass. *)
Fixpoint observations_from (opts : Options) (s : System) (es : list event) : list (list Backend) :=
  match es with
  | [] => []
  | e :: rest =>
      match e, s_pass s with
      | Count, Some (Looked r) => [r_backends r]
      | _, _ => []
      end ++ observations_from opts (fst (step opts s e)) rest
  end.

Definition observations (opts : Options) (es : list event) : list (list Backend) :=
  observations_from (sane opts) init es.

Lemma observations_from_app opts s es es' :
  observations_from opts s (es ++ es') =
  observations_from opts s es ++ observations_from opts (foldl (fun s e => fst (step opts s e)) s es) es'.
Proof.
  revert s. induction es as [|e es IH]; intros s; [done|].
  cbn [observations_from app foldl]. by rewrite IH, app_assoc.
Qed.

Lemma observations_snoc opts es e :
  observations opts (es ++ [e]) =
  observations opts es ++
  match e, s_pass (run opts es) with
  | Count, Some (Looked r) => [r_backends r]
  | _, _ => []
  end.
Proof.
  unfold observations. rewrite observations_from_app. f_equal. cbn [observations_from]. by rewrite app_nil_r.
Qed.

(** The last [n] passes found no healthy primary. *)
Definition missed_in_a_row (n : Z) (obs : list (list Backend)) : Prop :=
  exists old recent, obs = old ++ recent /\ n <= zlen recent /\ Forall no_healthy_primary recent.

Lemma missed_zero obs : missed_in_a_row 0 obs.
Proof. exists obs, []. rewrite app_nil_r. split; [done|]. split; [done|constructor]. Qed.

Lemma missed_one_more n obs o :
  missed_in_a_row n obs -> no_healthy_primary o -> missed_in_a_row (n + 1) (obs ++ [o]).
Proof.
  intros (old & recent & -> & Hn & HF) Ho. exists old, (recent ++ [o]).
  rewrite app_assoc. split; [done|]. split.
  - unfold zlen in *. rewrite length_app. cbn. lia.
  - apply Forall_app; by repeat constructor.
Qed.

Lemma filter_nil_none (f : Backend -> bool) l :
  List.filter f l = [] -> forall b, b ∈ l -> f b = false.
Proof.
  intros H b Hb. destruct (f b) eqn:E; [|done].
  assert (List.In b (List.filter f l)) as Hi by (apply filter_In; by rewrite <- list_elem_of_In).
  by rewrite H in Hi.
Qed.

(** What a pass of the monitor does to the manager. *)
Lemma count_spec opts m r m' es promote :
  count opts m r = (m', es, promote) ->
  fm_state m' = fm_state m /\ fm_lastPromoted m' = fm_lastPromoted m /\
  (promote = true -> o_Enabled opts = true /\ o_FailureThreshold opts <= fm_missedPrimary m') /\
  (fm_missedPrimary m' = fm_missedPrimary m + 1 /\ no_healthy_primary (r_backends r) \/ fm_missedPrimary m' = 0).
Proof.
  unfold count. destruct (List.filter healthy_primary (r_backends r)) as [|first hs] eqn:Hf.
  - pose proof (filter_nil_none _ _ Hf) as Hnone.
    destruct (o_Enabled opts); cbn [negb]; [case_decide as Hd|]; intros; simplify_eq; cbn in *;
      repeat split; try done; try lia; left; done.
  - case_decide.
    + case_match; intros; simplify_eq; cbn; naive_solver.
    + case_match; intros; simplify_eq; cbn; naive_solver.
Qed.

Lemma elem_of_demote_others demote w ps e :
  e ∈ demote_others demote w ps <->
  exists p, p ∈ ps /\ b_address p <> w /\
    (e = Demote (b_address p) w \/ e = ReevaluateRole (b_address p) /\ demote (b_address p) = true).
Proof.
  unfold demote_others. induction ps as [|p ps IH]; cbn [map mjoin list_join].
  { split; [by intros ?%elem_of_nil|]. by intros (p & ?%elem_of_nil & _). }
  rewrite elem_of_app, IH. clear IH. setoid_rewrite elem_of_cons. case_bool_decide as Hw.
  - split; [|intros (p0 & [->|?] & ? & ?); [done|right; by exists p0]]. intros [Hi|Hi]; [by apply elem_of_nil in Hi|]. destruct Hi as (p0 & ? & ?). exists p0. tauto.
  - rewrite elem_of_cons. destruct (demote (b_address p)) eqn:Hd.
    + rewrite list_elem_of_singleton. split.
      * intros [[->| ->]|(p0 & ? & ?)]; [exists p; tauto|exists p; tauto|exists p0; tauto].
      * intros (p0 & [->|?] & ? & He); [tauto|right; by exists p0].
    + rewrite elem_of_nil. split.
      * intros [[->|[]]|(p0 & ? & ?)]; [exists p; tauto|exists p0; tauto].
      * intros (p0 & [->|?] & ? & He); [|right; by exists p0]. left. left. destruct He as [?|[_ ?]]; [done|congruence].
Qed.

Lemma reconcile_effects opts primary now backends t t' es e :
  reconcileRejoins opts t primary now backends = (t', es) -> e ∈ es ->
  exists b, b ∈ backends /\ needsRejoin b primary = true /\ e = Rejoin (b_address b) primary.
Proof.
  revert t t' es. induction backends as [|b bs IH]; intros t t' es; cbn [reconcileRejoins].
  { intros ?; simplify_eq. by intros ?%elem_of_nil. }
  destruct (needsRejoin b primary) eqn:Hn; cbn [negb]; [|by intros ? (b' & ? & ?)%(IH _ _ _ ltac:(eassumption)); exists b'; rewrite elem_of_cons; auto].
  case_match; [by intros ? (b' & ? & ?)%(IH _ _ _ ltac:(eassumption)); exists b'; rewrite elem_of_cons; auto|].
  destruct (begin _ _ _ _ _) as [[ok ex] t1]. destruct (reconcileRejoins _ _ _ _ _) as [t2 es2] eqn:E.
  intros ?; simplify_eq. specialize (IH _ _ _ E). setoid_rewrite elem_of_cons.
  destruct ex; [naive_solver|]. destruct ok; cbn [negb]; [|naive_solver].
  intros [->|Hin]%elem_of_cons; naive_solver.
Qed.

Lemma count_effects opts m r m' es promote e :
  count opts m r = (m', es, promote) -> e ∈ es ->
  (exists b w, e = Demote (b_address b) w) \/ (exists b, e = ReevaluateRole (b_address b)) \/
  (exists b w, e = Rejoin (b_address b) w).
Proof.
  unfold count.
  repeat case_match; intros ? Hin; simplify_eq; try (by apply elem_of_nil in Hin).
  - apply elem_of_demote_others in Hin. naive_solver.
  - eapply reconcile_effects in Hin; [|done]. naive_solver.
Qed.

(** What is known after a history: the calls in flight were let in, the replica
    each has chosen came out of its own search, the counter of misses does not
    exceed the passes that saw none, and a pass under way was let in and, if it
    has decided to promote, has seen enough of them. *)
Record promotion_inv (opts : Options) (es : list event) (s : System) : Prop := {
  pi_enabled : forall id p, s_calls s !! id = Some p -> o_Enabled opts = true;
  pi_chosen : forall id b, s_calls s !! id = Some (Chosen b) ->
    exists backends known acquire, Find id backends known acquire ∈ es /\ first_reachable known acquire backends b;
  pi_missed : missed_in_a_row (fm_missedPrimary (s_manager s)) (observations opts es);
  pi_looked : forall r, s_pass s = Some (Looked r) \/ s_pass s = Some (Decided r) ->
    Look r ∈ es /\ owned (r_owner r) = true /\ leader r = true;
  pi_decided : forall r, s_pass s = Some (Decided r) ->
    missed_in_a_row (o_FailureThreshold (sane opts)) (observations opts es)
}.

Lemma missed_fewer n n' obs : n' <= n -> missed_in_a_row n obs -> missed_in_a_row n' obs.
Proof. intros Hn (old & recent & ? & ? & ?). exists old, recent. split; [done|]. split; [lia|done]. Qed.

Lemma observations_same opts es e : e <> Count -> observations opts (es ++ [e]) = observations opts es.
Proof. intros He. rewrite observations_snoc. destruct e; first [by rewrite app_nil_r|done]. Qed.

(** Entering, as far as the calls are concerned. *)
Lemma enter_cases opts s id :
  enter opts s id = s \/
  s_calls s !! id = None /\ o_Enabled opts = true /\ fm_state (s_manager s) <> StatePromoting /\
  enter opts s id = with_call (with_manager s (setState (s_manager s) StatePromoting)) id Searching.
Proof.
  unfold enter, claim. destruct (s_calls s !! id); [by left|].
  destruct (o_Enabled opts) eqn:He; cbn [negb]; [|by left]. case_decide; [by left|]. by right.
Qed.

Lemma enter_pass opts s id : s_pass (enter opts s id) = s_pass s.
Proof. by destruct (enter_cases opts s id) as [->|(_ & _ & _ & ->)]. Qed.

Lemma enter_inv opts es s id :
  promotion_inv opts es s -> promotion_inv opts es (enter (sane opts) s id).
Proof.
  intros [He Hc Hm Hl Hd]. destruct (enter_cases (sane opts) s id) as [->|(Hn & Hen & _ & ->)]; [done|].
  split; cbn; [done| |done|done|done].
  intros id' b. rewrite lookup_insert_Some. intros [[_ ?]|[_ ?]]; [done|]. by apply Hc.
Qed.

(** An event that is not the monitor's. *)
Lemma promotion_inv_calls opts es s e s' :
  promotion_inv opts es s -> e <> Count -> s_pass s' = s_pass s \/ s_pass s' = None ->
  (fm_missedPrimary (s_manager s') = fm_missedPrimary (s_manager s) \/ fm_missedPrimary (s_manager s') = 0) ->
  (forall id p, s_calls s' !! id = Some p -> is_Some (s_calls s !! id)) ->
  (forall id b, s_calls s' !! id = Some (Chosen b) -> s_calls s !! id = Some (Chosen b) \/
     exists backends known acquire, e = Find id backends known acquire /\ first_reachable known acquire backends b) ->
  promotion_inv opts (es ++ [e]) s'.
Proof.
  intros [He Hc Hm Hl Hd] Hnt Hp Hmm Hsome Hch. split; rewrite ?(observations_same opts es e Hnt).
  - intros id p [q Hq]%Hsome. by eapply He.
  - intros id b [H|(bk & kn & ac & -> & H)]%Hch.
    + apply Hc in H as (bk & kn & ac & Hin & H). exists bk, kn, ac. split; [|done]. rewrite elem_of_app; tauto.
    + exists bk, kn, ac. split; [|done]. rewrite elem_of_app, list_elem_of_singleton. tauto.
  - destruct Hmm as [-> | ->]; [done|apply missed_zero].
  - intros r Hr. rewrite elem_of_app. destruct Hp as [Hp|Hp]; rewrite Hp in Hr; [|by destruct Hr].
    destruct (Hl r Hr) as (? & ? & ?). tauto.
  - intros r Hr. destruct Hp as [Hp|Hp]; rewrite Hp in Hr; [|done]. by apply (Hd r).
Qed.

Lemma promotion_inv_look opts es r :
  promotion_inv opts es (run opts es) -> promotion_inv opts (es ++ [Look r]) (run opts (es ++ [Look r])).
Proof.
  intros Hinv. rewrite run_snoc. set (s := run opts es) in *. cbn [step].
  destruct (s_pass s) as [p|] eqn:Hp; [eapply promotion_inv_calls; eauto; naive_solver|].
  destruct (observes (s_manager s) r) eqn:Ho; cbn [fst]; [|eapply promotion_inv_calls; eauto; naive_solver].
  destruct Hinv as [He Hc Hm Hl Hd]. unfold observes in Ho. rewrite !andb_true_iff in Ho.
  split; rewrite ?(observations_same opts es (Look r) ltac:(done)); cbn; [done| |done| |done].
  - intros id b (bk & kn & ac & ? & ?)%Hc. exists bk, kn, ac. rewrite elem_of_app. tauto.
  - intros r' [[= ->]|?]; [|done]. rewrite elem_of_app, list_elem_of_singleton. tauto.
Qed.

Lemma promotion_inv_count opts es :
  promotion_inv opts es (run opts es) -> promotion_inv opts (es ++ [Count]) (run opts (es ++ [Count])).
Proof.
  intros [He Hc Hm Hl Hd]. rewrite run_snoc. set (s := run opts es) in *. cbn [step].
  pose proof (observations_snoc opts es Count) as Hob. fold s in Hob.
  assert (forall id b, s_calls s !! id = Some (Chosen b) ->
    exists bk kn ac, Find id bk kn ac ∈ es ++ [Count] /\ first_reachable kn ac bk b) as Hc'.
  { intros id b (bk & kn & ac & ? & ?)%Hc. exists bk, kn, ac. rewrite elem_of_app. tauto. }
  assert (forall r, s_pass s = Some (Looked r) \/ s_pass s = Some (Decided r) ->
    Look r ∈ es ++ [Count] /\ owned (r_owner r) = true /\ leader r = true) as Hl'.
  { intros r Hr. rewrite elem_of_app. destruct (Hl r Hr) as (? & ? & ?). tauto. }
  destruct (s_pass s) as [[r|r]|] eqn:Hp; rewrite ?app_nil_r in Hob.
  - destruct (count (sane opts) (s_manager s) r) as [[m' ef] promote] eqn:Ho. apply count_spec in Ho as (_ & _ & Hpr & Hmiss).
    assert (missed_in_a_row (fm_missedPrimary m') (observations opts (es ++ [Count]))) as Hm'.
    { rewrite Hob. destruct Hmiss as [[-> Hno]| ->]; [by apply missed_one_more|apply missed_zero]. }
    split; cbn; [done|done|done| |].
    + intros r' Hr'. destruct promote; [|by destruct Hr']. destruct Hr' as [?|[= ->]]; [done|]. apply Hl'. by left.
    + intros r' Hr'. destruct promote; [|done]. destruct (Hpr eq_refl) as [_ Hth]. by eapply missed_fewer.
  - split; cbn [fst]; rewrite ?Hob, ?Hp; done.
  - split; cbn [fst]; rewrite ?Hob, ?Hp; done.
Qed.

Ltac call_cases :=
  cbn; intros ? ?; rewrite ?lookup_insert_Some, ?lookup_delete_Some; naive_solver.

Lemma promotion_inv_step opts es e :
  promotion_inv opts es (run opts es) -> promotion_inv opts (es ++ [e]) (run opts (es ++ [e])).
Proof.
  intros Hinv.
  destruct e as [r| |id|id|id bk kn ac|id ok|id hc|id after|id|turns|p bk|addr dm turns];
    [by apply promotion_inv_look|by apply promotion_inv_count|..]; rewrite run_snoc; set (s := run opts es) in *; cbn [step].
  - destruct (s_pass s) as [[]|] eqn:Hp; try (eapply promotion_inv_calls; eauto; naive_solver).
    cbn [fst]. apply enter_inv. eapply promotion_inv_calls; eauto; naive_solver.
  - cbn [fst]. apply enter_inv. eapply promotion_inv_calls; eauto; naive_solver.
  - destruct (s_calls s !! id) as [[]|] eqn:Hid; try (eapply promotion_inv_calls; eauto; naive_solver).
    destruct (findBestReplica _ bk) as [b|] eqn:Hf; (eapply promotion_inv_calls; [done|done|by left|by left|call_cases|]).
    + cbn. intros id' b' [[-> [= ->]]|[? ?]]%lookup_insert_Some; [|by left].
      right. exists bk, kn, ac. split; [done|]. by apply findBestReplica_first.
    + call_cases.
  - destruct (s_calls s !! id) as [[]|] eqn:Hid; try (eapply promotion_inv_calls; eauto; naive_solver).
    destruct ok; (eapply promotion_inv_calls; [done|done|by left|by left|call_cases|call_cases]).
  - destruct (s_calls s !! id) as [[]|] eqn:Hid; try (eapply promotion_inv_calls; eauto; naive_solver).
    eapply promotion_inv_calls; [done|done|by left|by left|call_cases|call_cases].
  - destruct (s_calls s !! id) as [[]|] eqn:Hid; try (eapply promotion_inv_calls; eauto; naive_solver).
    eapply promotion_inv_calls; [done|done|by left|by right|call_cases|call_cases].
  - destruct (s_calls s !! id) as [[]|] eqn:Hid; try (eapply promotion_inv_calls; eauto; naive_solver).
    eapply promotion_inv_calls; [done|done|by left| |call_cases|call_cases].
    left. cbn. unfold release. by case_decide.
  - destruct (verifyPromotion turns); eapply promotion_inv_calls; eauto; naive_solver.
  - eapply promotion_inv_calls; eauto; naive_solver.
  - destruct (rejoin_outcome dm turns); [|eapply promotion_inv_calls; eauto; naive_solver].
    case_decide; eapply promotion_inv_calls; eauto; naive_solver.
Qed.

Lemma promotion_inv_run opts es : promotion_inv opts es (run opts es).
Proof.
  induction es as [|e es IH] using rev_ind; [|by apply promotion_inv_step].
  split; cbn; [done|done|apply missed_zero| |done]. by intros r [?|?].
Qed.

(** Only the provisioner call of a promotion promotes. *)
Lemma step_promotes opts s e addr ok :
  Promote addr ok ∈ snd (step opts s e) ->
  exists id b, e = PromoteCall id ok /\ s_calls s !! id = Some (Chosen b) /\ b_address b = addr.
Proof.
  destruct e as [r| |id|id|id bk kn ac|id ok'|id hc|id after|id|turns|p bk|a dm turns]; cbn [step]; intros Hin.
  - repeat case_match; by apply elem_of_nil in Hin.
  - destruct (s_pass s) as [[r|r]|]; [|by apply elem_of_nil in Hin..].
    destruct (count _ _ _) as [[m' ef] promote] eqn:Ho. cbn [snd] in Hin.
    eapply count_effects in Hin; [|done]. naive_solver.
  - repeat case_match; by apply elem_of_nil in Hin.
  - by apply elem_of_nil in Hin.
  - repeat case_match; by apply elem_of_nil in Hin.
  - destruct (s_calls s !! id) as [[]|] eqn:Hid; cbn [snd] in Hin; try by apply elem_of_nil in Hin.
    apply list_elem_of_singleton in Hin. naive_solver.
  - destruct (s_calls s !! id) as [[]|] eqn:Hid; cbn in Hin; try by apply elem_of_nil in Hin.
    destruct hc; [by apply list_elem_of_singleton in Hin|by apply elem_of_nil in Hin].
  - destruct (s_calls s !! id) as [[]|] eqn:Hid; cbn [snd] in Hin; try by apply elem_of_nil in Hin.
    unfold announce in Hin. cbn [snd] in Hin. apply elem_of_cons in Hin as [?|Hin]; [done|].
    rewrite !elem_of_app in Hin. destruct Hin as [Hin|[Hin|Hin]].
    + apply list_elem_of_In, in_map_iff in Hin. naive_solver.
    + destruct (o_FollowPrimary _); [by apply list_elem_of_singleton in Hin|by apply elem_of_nil in Hin].
    + by apply list_elem_of_singleton in Hin.
  - repeat case_match; by apply elem_of_nil in Hin.
  - repeat case_match; by apply elem_of_nil in Hin.
  - unfold followNewPrimary in Hin. cbn [snd] in Hin. apply list_elem_of_In, in_map_iff in Hin. naive_solver.
  - repeat case_match; by apply elem_of_nil in Hin.
Qed.

(** C28: What justifies a promotion by the failover manager, in every interleaving
    of the monitor's steps, the data plane's own calls, verifications and rebuilds.
    It happens only when automatic failover is enabled, and only of the node that
    this call's own search chose: the first of the backends, in the order they are
    configured, that is a healthy replica and gave the provisioner a connection.
    Lag plays no part: the one lag check there is borrows a connection and answers
    zero.  A pass of the monitor starts a promotion only if it had looked as the
    owner of orchestration and on the consensus leader, nobody is promoting when it
    claims, and at least [FailureThreshold] passes in a row, this one the last,
    found no healthy primary; a call from the data plane waits for no threshold,
    owner or leader ([data_plane_skips_threshold]).  An operator's PromoteBackend
    goes to the agent directly and does not pass here. *)
Theorem promotion_justified opts es e :
  let s := run opts es in
  (forall addr ok, Promote addr ok ∈ snd (step (sane opts) s e) ->
     o_Enabled opts = true /\
     exists id backends known acquire b, e = PromoteCall id ok /\ Find id backends known acquire ∈ es /\
       b_address b = addr /\ first_reachable known acquire backends b) /\
  (forall id, e = Claim id -> s_calls (fst (step (sane opts) s e)) <> s_calls s ->
     fm_state (s_manager s) <> StatePromoting /\
     (exists r, s_pass s = Some (Decided r) /\ Look r ∈ es /\ owned (r_owner r) = true /\ leader r = true) /\
     missed_in_a_row (o_FailureThreshold (sane opts)) (observations opts es)).
Proof.
  intros s. pose proof (promotion_inv_run opts es) as [He Hc Hm Hl Hd]. fold s in He, Hc, Hm, Hl, Hd. split.
  - intros addr ok (id & b & -> & Hid & <-)%step_promotes. split; [by eapply He|].
    apply Hc in Hid as (bk & kn & ac & ? & ?). by exists id, bk, kn, ac, b.
  - intros id -> Hch. cbn [step] in Hch. destruct (s_pass s) as [[r|r]|] eqn:Hp; [done| |done].
    cbn [fst] in Hch. destruct (enter_cases (sane opts) (with_pass s None) id) as [E|(_ & _ & Hst & _)]; [by rewrite E in Hch|].
    split; [done|]. split; [|by apply (Hd r)]. exists r. split; [done|]. apply Hl. by right.
Qed.

Definition two_up (primary_up : bool) : list Backend :=
  [backend 1 RolePrimary primary_up true 0 0; backend 2 RoleReplica true true 5 0].

Definition failover_opts : Options :=
  {| o_Enabled := true; o_FailureThreshold := 0; o_FollowPrimary := true; o_FollowPrimaryTimeout := 0;
     o_AutoReattach := false; o_AutoReattachInterval := 0; o_AutoRejoin := true; o_AutoRejoinInterval := 0;
     o_AutoRejoinTimeout := 0; o_AutoRejoinMaxAttempts := 0 |}.

Definition tick (now : Z) (backends : list Backend) : Readings :=
  {| r_owner := None; r_consensus := None; r_backends := backends; r_again := b_healthy;
     r_demote := fun _ => true; r_now := now |}.

(** A pass of the monitor with nothing in between. *)
Definition pass (id : nat) (r : Readings) : list event := [Look r; Count; Claim id].

(** Three misses, and the third starts a search. *)
Definition failing_over : list event :=
  pass 0 (tick 1 (two_up false)) ++ pass 0 (tick 2 (two_up false)) ++ pass 0 (tick 3 (two_up false)) ++
  [Find 0 (two_up false) (two_up false) (fun _ => true)].

Lemma promotion_justified_witness :
  Promote (b_address (backend 2 RoleReplica true true 5 0)) true
    ∈ snd (step (sane failover_opts) (run failover_opts failing_over) (PromoteCall 0 true)) /\
  o_Enabled failover_opts = true /\
  missed_in_a_row 3 (observations failover_opts (take 8 failing_over)).
Proof.
  assert (Promote (b_address (backend 2 RoleReplica true true 5 0)) true
    ∈ snd (step (sane failover_opts) (run failover_opts failing_over) (PromoteCall 0 true))) as Hin.
  { apply list_elem_of_In. vm_compute. by left. }
  split; [exact Hin|]. split.
  - destruct (promotion_justified failover_opts failing_over (PromoteCall 0 true)) as [H _].
    exact (proj1 (H _ _ Hin)).
  - destruct (promotion_justified failover_opts (take 8 failing_over) (Claim 0)) as [_ H].
    refine (proj2 (proj2 (H 0%nat eq_refl _))). vm_compute. discriminate.
Defined.

(** ** Split brain *)

Definition primaries (backends : list Backend) : list Backend := List.filter primary_role backends.

Lemma elem_of_filterb (f : Backend -> bool) l b : b ∈ List.filter f l <-> b ∈ l /\ f b = true.
Proof. by rewrite !list_elem_of_In, filter_In. Qed.

Lemma find_address addr (f : Backend -> bool) l :
  match List.find (fun p => bool_decide (b_address p = addr) && f p) l with
  | Some w => w ∈ l /\ b_address w = addr /\ f w = true
  | None => forall p, p ∈ l -> b_address p = addr -> f p = false
  end.
Proof.
  case_match eqn:Hf.
  - apply find_some in Hf as [Hin [Ha%bool_decide_eq_true Hh]%andb_true_iff]. by rewrite list_elem_of_In.
  - intros p Hp%list_elem_of_In Ha. pose proof (find_none _ _ Hf _ Hp) as H. cbn in H.
    by rewrite bool_decide_true in H.
Qed.

Lemma find_and_true (f : Backend -> bool) l : List.find (fun p => f p && true) l = List.find f l.
Proof. induction l as [|p l IH]; [done|]. cbn. by rewrite andb_true_r, IH. Qed.

(** The address consensus has agreed on, if any. *)
Definition agreed_primary (r : Readings) : bytes :=
  match r_consensus r with Some c => cs_GetPrimary c | None => [] end.

Lemma split_winner_spec r lastPromoted first hs :
  List.filter healthy_primary (r_backends r) = first :: hs ->
  let winner := split_winner (r_consensus r) lastPromoted (r_again r) (primaries (r_backends r)) (first :: hs) in
  exists w, winner = Some w /\ w ∈ primaries (r_backends r) /\
    (agreed_primary r <> [] /\ (exists p, p ∈ primaries (r_backends r) /\ b_address p = agreed_primary r) ->
       b_address w = agreed_primary r) /\
    ((forall p, p ∈ primaries (r_backends r) -> b_address p <> agreed_primary r) \/ agreed_primary r = [] ->
       ((exists p, p ∈ primaries (r_backends r) /\ b_address p = lastPromoted /\ r_again r p = true) ->
          b_address w = lastPromoted) /\
       (healthy_primary w = true \/ b_address w = lastPromoted /\ r_again r w = true)).
Proof.
  intros Hf. cbn zeta.
  assert (first ∈ primaries (r_backends r) /\ healthy_primary first = true) as [Hfirst Hfh].
  { assert (first ∈ List.filter healthy_primary (r_backends r)) as [Hin Hh]%elem_of_filterb by (rewrite Hf; by left).
    split; [|done]. apply elem_of_filterb. split; [done|]. by apply andb_true_iff in Hh as [? _]. }
  unfold split_winner. fold (agreed_primary r).
  pose proof (find_address (agreed_primary r) (fun _ => true) (primaries (r_backends r))) as Ha.
  pose proof (find_address lastPromoted (r_again r) (primaries (r_backends r))) as Hl.
  rewrite find_and_true in Ha.
  assert (forall w, (w ∈ primaries (r_backends r) /\ b_address w = lastPromoted /\ r_again r w = true \/
            w = first /\ forall p, p ∈ primaries (r_backends r) -> b_address p = lastPromoted -> r_again r p = false) ->
          ((exists p, p ∈ primaries (r_backends r) /\ b_address p = lastPromoted /\ r_again r p = true) ->
            b_address w = lastPromoted) /\
          (healthy_primary w = true \/ b_address w = lastPromoted /\ r_again r w = true)) as Hlast.
  { intros w [(? & ? & ?)|[-> Hn]]; [tauto|]. split; [|by left].
    intros (p & Hp & Hpa & Hpr). by rewrite (Hn p Hp Hpa) in Hpr. }
  destruct (decide (agreed_primary r <> [])) as [Hne|He].
  - destruct (List.find _ (primaries (r_backends r))) as [w|] eqn:Hfa.
    { destruct Ha as (Hw & Haw & _). exists w. split; [done|]. split; [done|]. split; [tauto|].
      intros [Hn|?]; [|done]. by apply Hn in Hw. }
    destruct (List.find (fun p => bool_decide (b_address p = lastPromoted) && r_again r p) _) as [w|].
    + exists w. split; [done|]. split; [tauto|]. split; [|intros _; apply Hlast; tauto].
      intros (_ & p & Hp & Hpa). by specialize (Ha p Hp Hpa).
    + exists first. split; [done|]. split; [done|]. split; [|intros _; apply Hlast; tauto].
      intros (_ & p & Hp & Hpa). by specialize (Ha p Hp Hpa).
  - destruct (List.find (fun p => bool_decide (b_address p = lastPromoted) && r_again r p) _) as [w|].
    + exists w. split; [done|]. split; [tauto|]. split; [tauto|intros _; apply Hlast; tauto].
    + exists first. split; [done|]. split; [done|]. split; [tauto|intros _; apply Hlast; tauto].
Qed.

(** C29: When a pass of the monitor finds several primaries, at least one of them
    healthy, it keeps one winner and asks every primary at another address, and
    nothing else, to follow it; it promotes nothing and rebuilds nothing.  The
    winner is the primary consensus agreed on when that is one of them; otherwise
    the node this manager last promoted, when that is still a healthy primary, so
    an old primary that comes back does not undo the failover; otherwise a healthy
    one.  Without an agreed primary the winner is one that answered as healthy. *)
Theorem split_brain_resolved opts m r :
  observes m r = true ->
  (exists b, b ∈ r_backends r /\ healthy_primary b = true) ->
  1 < zlen (primaries (r_backends r)) ->
  exists m' es w, observe opts m r = (m', es, false) /\ fm_rejoins m' = fm_rejoins m /\
    fm_lastPromoted m' = fm_lastPromoted m /\
    w ∈ primaries (r_backends r) /\
    (forall addr p, Demote addr p ∈ es <->
       p = b_address w /\ addr <> b_address w /\ exists b, b ∈ primaries (r_backends r) /\ b_address b = addr) /\
    (forall e, e ∈ es -> (exists addr, e = Demote addr (b_address w)) \/ exists addr, e = ReevaluateRole addr) /\
    (agreed_primary r <> [] /\ (exists p, p ∈ primaries (r_backends r) /\ b_address p = agreed_primary r) ->
       b_address w = agreed_primary r) /\
    ((forall p, p ∈ primaries (r_backends r) -> b_address p <> agreed_primary r) \/ agreed_primary r = [] ->
       ((exists p, p ∈ primaries (r_backends r) /\ b_address p = fm_lastPromoted m /\ r_again r p = true) ->
          b_address w = fm_lastPromoted m) /\
       (healthy_primary w = true \/ b_address w = fm_lastPromoted m /\ r_again r w = true)).
Proof.
  intros Hob (b & Hb & Hh) Hmany. unfold observes in Hob.
  rewrite !andb_true_iff, negb_true_iff, bool_decide_eq_false in Hob. destruct Hob as [[Ho Hs] Hl].
  destruct (List.filter healthy_primary (r_backends r)) as [|first hs] eqn:Hf.
  { pose proof (filter_nil_none _ _ Hf b Hb). congruence. }
  destruct (split_winner_spec r (fm_lastPromoted m) first hs Hf) as (w & Hw & Hin & Hag & Hlast).
  exists (set_missed m 0), (demote_others (r_demote r) (b_address w) (primaries (r_backends r))), w.
  split.
  { unfold observe. rewrite Ho, Hl. cbn [negb]. rewrite decide_False by done. unfold count. rewrite Hf.
    fold (primaries (r_backends r)). rewrite decide_True by done. cbn [set_missed fm_lastPromoted]. by rewrite Hw. }
  split; [done|]. split; [done|]. split; [done|]. split; [|split; [|done]].
  - intros addr p. rewrite elem_of_demote_others. split.
    + intros (q & Hq & Hne & [[= -> ->]|[? _]]); [|done]. split; [done|]. split; [done|]. by exists q.
    + intros (-> & Hne & q & Hq & <-). exists q. tauto.
  - intros e (q & Hq & Hne & [->|[-> _]])%elem_of_demote_others; [left|right]; eauto.
Qed.

(** The failover above carried through, and the old primary back. *)
Definition failed_over : list event :=
  failing_over ++ [PromoteCall 0 true; Record_ 0 false; Announce 0 (two_up false); Return 0].

Definition old_primary_back : list Backend :=
  [backend 1 RolePrimary true true 0 0; backend 2 RolePrimary true true 0 0].

Lemma split_brain_resolved_witness :
  observes (s_manager (run failover_opts failed_over)) (tick 9 old_primary_back) = true /\
  exists m' es w,
    observe (sane failover_opts) (s_manager (run failover_opts failed_over)) (tick 9 old_primary_back) = (m', es, false) /\
    b_address w = [byte_of 2].
Proof.
  split; [vm_compute; reflexivity|].
  destruct (split_brain_resolved (sane failover_opts) (s_manager (run failover_opts failed_over)) (tick 9 old_primary_back))
    as (m' & es & w & Ho & _ & _ & _ & _ & _ & _ & Hlast).
  - vm_compute; reflexivity.
  - exists (backend 1 RolePrimary true true 0 0). split; [left|reflexivity].
  - vm_compute; reflexivity.
  - exists m', es, w. split; [exact Ho|]. apply Hlast; [by right|].
    exists (backend 2 RolePrimary true true 0 0). split; [right; left|]. split; vm_compute; reflexivity.
Defined.

(** ** Rebuilding *)

(** The operations on the tracker, one by one. *)
Inductive tracker_op := OpBegin (addr : bytes) (now : Z) | OpFinish (addr : bytes) (ok : bool) | OpForget (addr : bytes).

Fixpoint reconcile_ops (opts : Options) (primary : bytes) (now : Z) (backends : list Backend) : list tracker_op :=
  match backends with
  | [] => []
  | b :: rest =>
      (if negb (needsRejoin b primary) then [OpForget (b_address b)]
       else if negb (o_AutoRejoin opts) then []
       else [OpBegin (b_address b) now]) ++ reconcile_ops opts primary now rest
  end.

Definition tracker_ops (opts : Options) (s : System) (e : event) : list tracker_op :=
  match e with
  | Count =>
      match s_pass s with
      | Some (Looked r) =>
          match List.filter healthy_primary (r_backends r) with
          | first :: _ =>
              if decide (1 < zlen (primaries (r_backends r))) then []
              else reconcile_ops opts (b_address first) (r_now r) (r_backends r)
          | [] => []
          end
      | _ => []
      end
  | Rebuilt addr demoted turns =>
      match rejoin_outcome demoted turns, decide (addr ∈ s_rebuilds s) with
      | Some ok, left _ => [OpFinish addr ok]
      | _, _ => []
      end
  | _ => []
  end.

(** The tracker, and for each node when its rebuilds started since it last
    recovered, latest first. *)
Abbreviation tracked := (rejoinTracker * gmap bytes (list Z))%type.

Definition track_op (opts : Options) (th : tracked) (op : tracker_op) : tracked :=
  let '(t, h) := th in
  match op with
  | OpBegin addr now =>
      let '(ok, _, t') := begin t addr (o_AutoRejoinInterval opts) (o_AutoRejoinMaxAttempts opts) now in
      (t', if ok then <[addr := now :: default [] (h !! addr)]> h else h)
  | OpFinish addr ok => (finish t addr ok, if ok then delete addr h else h)
  | OpForget addr =>
      (forget t addr, if decide (forget t addr !! addr = None) then delete addr h else h)
  end.

Definition attempts_step (opts : Options) (sh : System * gmap bytes (list Z)) (e : event) : System * gmap bytes (list Z) :=
  let '(s, h) := sh in
  (fst (step opts s e), snd (foldl (track_op opts) (fm_rejoins (s_manager s), h) (tracker_ops opts s e))).

Definition attempts (opts : Options) (es : list event) (addr : bytes) : list Z :=
  default [] (snd (foldl (attempts_step (sane opts)) (init, ∅) es) !! addr).

(** Each start at least [interval] after the one before it. *)
Fixpoint spaced (interval : Z) (ts : list Z) : Prop :=
  match ts with
  | later :: rest =>
      match rest with earlier :: _ => interval <= later - earlier | [] => True end /\ spaced interval rest
  | [] => True
  end.

Definition node_inv (opts : Options) (t : rejoinTracker) (h : gmap bytes (list Z)) (running : list bytes) (addr : bytes) : Prop :=
  let ts := default [] (h !! addr) in
  spaced (o_AutoRejoinInterval opts) ts /\ zlen ts <= o_AutoRejoinMaxAttempts opts /\
  match t !! addr with
  | None => ts = [] /\ addr ∉ running
  | Some st =>
      rj_attempts st = zlen ts /\ head ts = Some (rj_lastAttempt st) /\ 0 < rj_lastAttempt st /\
      (rj_inFlight st = true <-> addr ∈ running)
  end.

Record tracker_inv (opts : Options) (th : tracked) (running : list bytes) : Prop := {
  ti_node : forall addr, node_inv opts (fst th) (snd th) running addr;
  ti_once : NoDup running
}.

#[global] Instance tracker_inv_perm opts th : Proper ((≡ₚ) ==> iff) (tracker_inv opts th).
Proof.
  assert (forall l1 l2, l1 ≡ₚ l2 -> tracker_inv opts th l1 -> tracker_inv opts th l2) as H.
  { intros l1 l2 Hp [Hn Hd]. split; [|by rewrite <- Hp].
    intros addr. specialize (Hn addr). unfold node_inv in *. case_match; by rewrite <- Hp. }
  intros l1 l2 Hp. split; apply H; [done|by symmetry].
Qed.

Lemma node_inv_other opts t t' h h' running running' addr :
  t' !! addr = t !! addr -> h' !! addr = h !! addr -> (addr ∈ running' <-> addr ∈ running) ->
  node_inv opts t h running addr -> node_inv opts t' h' running' addr.
Proof. unfold node_inv. intros -> -> Hr. case_match; rewrite Hr; done. Qed.

Section Tracker.
Context (opts : Options) (Hmax : 0 < o_AutoRejoinMaxAttempts opts).

(** [begin] on a tracker in a good state: refused without a change, or granted. *)
Lemma begin_cases t h running addr now ok ex t' :
  node_inv opts t h running addr ->
  begin t addr (o_AutoRejoinInterval opts) (o_AutoRejoinMaxAttempts opts) now = (ok, ex, t') ->
  ok = false /\ t' = t \/
  ok = true /\ addr ∉ running /\ zlen (default [] (h !! addr)) < o_AutoRejoinMaxAttempts opts /\
  (forall last, head (default [] (h !! addr)) = Some last -> o_AutoRejoinInterval opts <= now - last) /\
  t' = <[addr := {| rj_attempts := zlen (default [] (h !! addr)) + 1; rj_lastAttempt := now; rj_inFlight := true |}]> t.
Proof.
  unfold node_inv, begin. intros (_ & _ & Hn). destruct (t !! addr) as [st|] eqn:Ht; cbn [from_option id].
  - destruct Hn as (Ha & Hh & Hl & Hr). rewrite (insert_id t addr st) by done.
    destruct (rj_inFlight st) eqn:Hf; [intros; simplify_eq; by left|].
    case_decide; [intros; simplify_eq; by left|].
    rewrite bool_decide_true by eauto. rewrite (bool_decide_true (rj_lastAttempt st <> 0)) by lia. cbn [andb].
    case_bool_decide; intros; simplify_eq; [by left|]. right. rewrite Hh, Ha.
    split; [done|]. split; [by rewrite <- Hr|]. split; [lia|]. split; [intros ? [= <-]; lia|done].
  - destruct Hn as [-> Hr]. cbn. rewrite decide_False by lia. intros; simplify_eq. right.
    split; [done|]. split; [done|]. split; [done|]. split; [done|]. by rewrite insert_insert_eq.
Qed.

Lemma begin_inv t h running addr now ok ex t' :
  0 < now -> tracker_inv opts (t, h) running ->
  begin t addr (o_AutoRejoinInterval opts) (o_AutoRejoinMaxAttempts opts) now = (ok, ex, t') ->
  tracker_inv opts (track_op opts (t, h) (OpBegin addr now)) (if ok then addr :: running else running).
Proof.
  intros Hnow [Hn Hd] Hb. cbn [track_op]. rewrite Hb.
  destruct (begin_cases _ _ _ _ _ _ _ _ (Hn addr) Hb) as [[-> ->]|(-> & Hr & Hz & Hsp & ->)]; cbn [fst snd] in *; [by split; [apply Hn|]|].
  split; [|by constructor]. cbn [fst snd]. intros a. destruct (decide (a = addr)) as [->|Hne].
  - specialize (Hn addr) as (Hs & _ & _). unfold node_inv. cbn [fst snd]. rewrite !lookup_insert_eq. cbn [from_option id rj_attempts rj_lastAttempt rj_inFlight].
    cbn [fst snd] in Hs. split.
    { cbn [spaced]. split; [|done]. destruct (default [] (h !! addr)) as [|l ls] eqn:E; [done|]. by apply Hsp. }
    split; [rewrite zlen_cons; lia|]. split; [rewrite zlen_cons; lia|]. split; [done|]. split; [done|].
    split; [intros _; by left|done].
  - eapply node_inv_other; [| | |apply Hn]; [by rewrite lookup_insert_ne by done..|].
    rewrite elem_of_cons. naive_solver.
Qed.

Lemma forget_inv t h running addr :
  tracker_inv opts (t, h) running -> tracker_inv opts (track_op opts (t, h) (OpForget addr)) running.
Proof.
  intros [Hn Hd]. split; [|done]. cbn [track_op fst snd]. intros a. unfold forget.
  destruct (decide (a = addr)) as [->|Hne].
  - specialize (Hn addr). destruct (t !! addr) as [st|] eqn:Ht.
    + destruct (rj_inFlight st) eqn:Hf.
      * rewrite decide_False by congruence. done.
      * unfold node_inv in *. cbn [fst snd] in *. rewrite Ht in Hn. rewrite lookup_delete_eq, decide_True by done.
        rewrite lookup_delete_eq. cbn [from_option id]. split; [done|]. split; [rewrite zlen_nil; lia|]. split; [done|].
        destruct Hn as (_ & _ & _ & _ & _ & Hr). rewrite <- Hr. congruence.
    + rewrite decide_True by done. unfold node_inv in *. cbn [fst snd] in *. rewrite Ht in *. rewrite lookup_delete_eq.
      cbn [from_option id]. split; [done|]. split; [rewrite zlen_nil; lia|]. tauto.
  - eapply node_inv_other; [| | |apply Hn]; [| |done]; cbn [fst snd].
    + repeat case_match; try done. by rewrite lookup_delete_ne by done.
    + case_decide; [by rewrite lookup_delete_ne by done|done].
Qed.

Lemma finish_inv t h running addr ok :
  addr ∈ running -> tracker_inv opts (t, h) running ->
  tracker_inv opts (track_op opts (t, h) (OpFinish addr ok)) (remove_one addr running).
Proof.
  intros Hin [Hn Hd].
  assert (forall a, a ∈ remove_one addr running <-> a ∈ running /\ a <> addr) as Hrm.
  { clear Hn Hin. induction running as [|b l IH]; cbn [remove_one].
    { split; [by intros ?%elem_of_nil|by intros [?%elem_of_nil _]]. }
    apply list.NoDup_cons in Hd as [Hb Hd]. intros a. rewrite elem_of_cons. case_decide as Hdec.
    - subst. split; [intros ?; split; [tauto|congruence]|tauto].
    - rewrite elem_of_cons, (IH Hd). naive_solver. }
  split.
  - intros a. cbn [track_op fst snd]. unfold finish. destruct (decide (a = addr)) as [->|Hne].
    + specialize (Hn addr). unfold node_inv in *. cbn [fst snd] in *.
      destruct (t !! addr) as [st|] eqn:Ht; [|tauto].
      destruct ok.
      * rewrite !lookup_delete_eq, Hrm. cbn [from_option id]. split; [done|]. split; [rewrite zlen_nil; lia|]. tauto.
      * rewrite lookup_insert_eq, Hrm. cbn [rj_attempts rj_lastAttempt rj_inFlight].
        destruct Hn as (? & ? & ? & ? & ? & ?). repeat split; try done. tauto.
    + eapply node_inv_other; [| | |apply Hn]; cbn [fst snd].
      * repeat case_match; try done; [by rewrite lookup_delete_ne by done|by rewrite lookup_insert_ne by done].
      * destruct ok; [by rewrite lookup_delete_ne by done|done].
      * rewrite Hrm. tauto.
  - clear Hn Hin Hrm. induction running as [|b l IH]; cbn [remove_one]; [done|].
    apply list.NoDup_cons in Hd as [Hb Hd]. case_decide; [done|]. constructor; [|by apply IH].
    clear IH Hd. intros Hx. apply Hb. clear Hb. induction l as [|c l IH]; [done|].
    cbn [remove_one] in Hx. case_decide; [by right|].
    apply elem_of_cons in Hx as [->|Hx]; [by left|right; by apply IH].
Qed.
End Tracker.

Lemma reconcile_inv opts primary now backends t h running t' es :
  0 < o_AutoRejoinMaxAttempts opts -> 0 < now -> tracker_inv opts (t, h) running ->
  reconcileRejoins opts t primary now backends = (t', es) ->
  let th := foldl (track_op opts) (t, h) (reconcile_ops opts primary now backends) in
  fst th = t' /\ tracker_inv opts th (rebuilds_of es ++ running).
Proof.
  intros Hmax Hnow. revert t h running t' es.
  induction backends as [|b rest IH]; intros t h running t' es Hinv; cbn [reconcileRejoins reconcile_ops].
  { intros; by simplify_eq. }
  rewrite foldl_app. destruct (negb (needsRejoin b primary)).
  { cbn [foldl]. intros Hr. apply (forget_inv opts Hmax _ _ _ (b_address b)) in Hinv.
    destruct (track_op opts (t, h) (OpForget (b_address b))) as [t1 h1] eqn:E. cbn [track_op] in E.
    injection E as <- <-. by apply IH. }
  destruct (negb (o_AutoRejoin opts)); [by apply IH|]. cbn [foldl].
  destruct (begin _ _ _ _ _) as [[ok ex] t1] eqn:Hb.
  pose proof (begin_inv opts Hmax _ _ _ _ _ _ _ _ Hnow Hinv Hb) as Hinv1.
  destruct (reconcileRejoins opts t1 primary now rest) as [t2 es2] eqn:Hr. intros ?; simplify_eq.
  cbn [track_op] in Hinv1 |- *. rewrite Hb in Hinv1 |- *.
  assert (ok = true -> ex = false) as Hex.
  { unfold begin in Hb. repeat case_match; naive_solver. }
  destruct (IH _ _ _ _ _ Hinv1 Hr) as [Ht Hi]. split; [done|].
  destruct ok; [rewrite (Hex eq_refl)|destruct ex; done]. cbn.
  by rewrite <- Permutation_middle in Hi.
Qed.

Definition clock_set (e : event) : Prop := match e with Look r => 0 < r_now r | _ => True end.
Definition pass_clock (s : System) : Prop := forall r, s_pass s = Some (Looked r) -> 0 < r_now r.

Lemma rebuilds_none es : (forall a p, Rejoin a p ∉ es) -> rebuilds_of es = [].
Proof.
  induction es as [|e es IH]; intros H; [done|]. unfold rebuilds_of in *. cbn.
  destruct e; try (apply IH; intros a p ?; apply (H a p); by right).
  by destruct (H addr primary (list_elem_of_here _ _)).
Qed.

(** A pass of the monitor, as far as the tracker is concerned. *)
Lemma count_tracker opts s r m' es promote h :
  0 < o_AutoRejoinMaxAttempts opts -> 0 < r_now r -> s_pass s = Some (Looked r) ->
  tracker_inv opts (fm_rejoins (s_manager s), h) (s_rebuilds s) ->
  count opts (s_manager s) r = (m', es, promote) ->
  let th := foldl (track_op opts) (fm_rejoins (s_manager s), h) (tracker_ops opts s Count) in
  fst th = fm_rejoins m' /\ tracker_inv opts th (rebuilds_of es ++ s_rebuilds s).
Proof.
  intros Hmax Hnow Hp Hinv. cbn [tracker_ops]. rewrite Hp. unfold count.
  destruct (List.filter healthy_primary (r_backends r)) as [|first hs].
  { destruct (negb (o_Enabled opts)); [|case_decide]; intros; by simplify_eq. }
  fold (primaries (r_backends r)). case_decide.
  - assert (forall w, rebuilds_of (demote_others (r_demote r) w (primaries (r_backends r))) = []) as Hd.
    { intros w. apply rebuilds_none. intros a p (q & _ & _ & [?|[? _]])%elem_of_demote_others; done. }
    destruct (split_winner _ _ _ _ _); intros; simplify_eq; [by rewrite Hd|done].
  - destruct (reconcileRejoins _ _ _ _ _) as [t2 es2] eqn:Hr. intros; simplify_eq.
    by eapply reconcile_inv.
Qed.

(** A phase of a call leaves the tracker alone. *)
Ltac destruct_calls Hinv :=
  repeat match goal with
  | |- context [match s_calls ?s !! ?id with _ => _ end] => destruct (s_calls s !! id) as [[]|]
  | |- context [match findBestReplica ?l ?b with _ => _ end] => destruct (findBestReplica l b)
  | |- context [match verifyPromotion ?t with _ => _ end] => destruct (verifyPromotion t)
  | |- context [if ?b : bool then _ else _] => is_var b; destruct b
  | |- context [decide ?P] => destruct (decide P)
  end; (split; [done|exact Hinv]).

Lemma step_tracker opts s e h :
  0 < o_AutoRejoinMaxAttempts opts -> pass_clock s ->
  tracker_inv opts (fm_rejoins (s_manager s), h) (s_rebuilds s) ->
  let th := foldl (track_op opts) (fm_rejoins (s_manager s), h) (tracker_ops opts s e) in
  fst th = fm_rejoins (s_manager (fst (step opts s e))) /\ tracker_inv opts th (s_rebuilds (fst (step opts s e))).
Proof.
  intros Hmax Hclock Hinv.
  assert (forall s' id, fm_rejoins (s_manager (enter opts s' id)) = fm_rejoins (s_manager s') /\
            s_rebuilds (enter opts s' id) = s_rebuilds s') as Henter.
  { intros s' id. by destruct (enter_cases opts s' id) as [->|(_ & _ & _ & ->)]. }
  destruct e as [r| |id|id|id bk kn ac|id ok'|id hc|id after|id|turns|p bk|a dm turns].
  - cbn [step tracker_ops foldl]. destruct (s_pass s); [done|]. by destruct (observes _ _).
  - cbn [step]. destruct (s_pass s) as [[r|r]|] eqn:Hp; [|cbn [tracker_ops]; rewrite Hp; done..].
    destruct (count opts (s_manager s) r) as [[m' ef] promote] eqn:Ho.
    exact (count_tracker _ _ _ _ _ _ _ Hmax (Hclock r Hp) Hp Hinv Ho).
  - cbn [step tracker_ops foldl]. destruct (s_pass s) as [[]|]; try done. cbn [fst]. by destruct (Henter (with_pass s None) id) as [-> ->].
  - cbn [step tracker_ops foldl fst]. by destruct (Henter s id) as [-> ->].
  - cbn [step tracker_ops foldl]. destruct_calls Hinv.
  - cbn [step tracker_ops foldl]. destruct_calls Hinv.
  - cbn [step tracker_ops foldl]. destruct_calls Hinv.
  - cbn [step tracker_ops foldl]. destruct_calls Hinv.
  - cbn [step tracker_ops foldl]. unfold release. destruct_calls Hinv.
  - cbn [step tracker_ops foldl]. destruct_calls Hinv.
  - done.
  - cbn [step tracker_ops]. destruct (rejoin_outcome dm turns) as [ok|]; [|done].
    case_decide as Hin; [|done]. cbn [foldl fst]. split; [done|]. by apply finish_inv.
Qed.

(** The monitor's clock is the one it looked with. *)
Lemma step_pass opts s e r :
  s_pass (fst (step opts s e)) = Some (Looked r) -> s_pass s = Some (Looked r) \/ e = Look r.
Proof.
  destruct e as [r'| |id|id|id bk kn ac|id ok'|id hc|id after|id|turns|p bk|a dm turns]; cbn [step];
    rewrite ?(fun s => enter_pass opts s id); repeat case_match; cbn; rewrite ?enter_pass; intros; simplify_eq; cbn in *;
    simplify_eq; auto; naive_solver.
Qed.

Lemma pass_clock_run opts es : Forall clock_set es -> pass_clock (run opts es).
Proof.
  induction es as [|e es IH] using rev_ind; [done|]. intros [HF He]%Forall_app r. rewrite run_snoc.
  intros [H| ->]%step_pass; [by apply IH|]. by inversion He.
Qed.

Lemma attempts_snoc opts es e :
  foldl (attempts_step opts) (init, ∅) (es ++ [e]) = attempts_step opts (foldl (attempts_step opts) (init, ∅) es) e.
Proof. by rewrite foldl_app. Qed.

Lemma tracker_inv_run opts es :
  Forall clock_set es ->
  let sh := foldl (attempts_step (sane opts)) (init, ∅) es in
  fst sh = run opts es /\ tracker_inv (sane opts) (fm_rejoins (s_manager (fst sh)), snd sh) (s_rebuilds (fst sh)).
Proof.
  assert (0 < o_AutoRejoinMaxAttempts (sane opts)) as Hmax by (cbn; unfold or_default; case_decide; lia).
  induction es as [|e es IH] using rev_ind; intros HF.
  - split; [done|]. split; [|constructor]. intros addr.
    unfold node_inv. cbn [foldl fst snd init s_manager s_rebuilds NewFailoverManager fm_rejoins].
    unfold newRejoinTracker. rewrite !lookup_empty. cbn [from_option id].
    split; [done|]. split; [rewrite zlen_nil; lia|]. split; [done|]. by intros ?%elem_of_nil.
  - apply Forall_app in HF as [HF He]. destruct (IH HF) as [Hs Hi]. cbn zeta. rewrite attempts_snoc, run_snoc.
    destruct (foldl (attempts_step (sane opts)) (init, ∅) es) as [s h]. cbn [fst snd] in *. subst s.
    destruct (step_tracker (sane opts) (run opts es) e h) as [H1 H2]; [done|by apply pass_clock_run|done|].
    cbn [attempts_step fst snd]. split; [done|]. rewrite <- H1. by destruct (foldl _ _ _).
Qed.

(** Rebuilding is bounded and orderly in every interleaving: no node is being
    rebuilt by two goroutines at once, the rebuilds started for a node since it
    last recovered never exceed [AutoRejoinMaxAttempts], and two successive ones
    start at least [AutoRejoinInterval] apart. *)
Theorem rejoin_attempts_bounded opts es addr :
  Forall clock_set es ->
  NoDup (s_rebuilds (run opts es)) /\
  zlen (attempts opts es addr) <= o_AutoRejoinMaxAttempts (sane opts) /\
  spaced (o_AutoRejoinInterval (sane opts)) (attempts opts es addr).
Proof.
  intros HF. destruct (tracker_inv_run opts es HF) as [Hs [Hn Hd]]. cbn [fst] in *. rewrite Hs in Hd.
  split; [done|]. destruct (Hn addr) as (H1 & H2 & _). done.
Qed.

(** A replica that stopped streaming is rebuilt, the rebuild fails, and it is
    tried again five minutes later. *)
Definition stopped_streaming : list Backend :=
  [backend 1 RolePrimary true true 0 0; backend 2 RoleReplica true false 0 0].

Definition rebuilding : list event :=
  pass 0 (tick second stopped_streaming) ++ [Rebuilt [byte_of 2] false []] ++
  pass 0 (tick (100 * second) stopped_streaming) ++ pass 0 (tick (301 * second) stopped_streaming).

Lemma rejoin_attempts_bounded_witness :
  attempts failover_opts rebuilding [byte_of 2] = [301 * second; second] /\
  spaced (5 * minute) [301 * second; second].
Proof.
  assert (attempts failover_opts rebuilding [byte_of 2] = [301 * second; second]) as E by (vm_compute; reflexivity).
  split; [exact E|]. rewrite <- E.
  refine (proj2 (proj2 (rejoin_attempts_bounded failover_opts rebuilding [byte_of 2] _))).
  repeat constructor; vm_compute; reflexivity.
Defined.

(** ** One promotion at a time *)

(** The two situations in which a claim can be lost: a call enters while another
    has set its final state but not yet run its deferred reset, and a
    verification ends while a call is in flight. *)
Definition claim_respected (s : System) (e : event) : Prop :=
  match e with
  | Claim _ | Trigger _ => forall id, s_calls s !! id <> Some Returning
  | Verified turns => verifyPromotion turns = None \/ s_calls s = ∅
  | _ => True
  end.

Fixpoint orderly (opts : Options) (s : System) (es : list event) : Prop :=
  match es with
  | [] => True
  | e :: rest => claim_respected s e /\ orderly opts (fst (step opts s e)) rest
  end.

Record exclusive (s : System) : Prop := {
  ex_one : forall i j p q, s_calls s !! i = Some p -> s_calls s !! j = Some q -> i = j;
  ex_claimed : forall i p, s_calls s !! i = Some p -> p <> Returning -> fm_state (s_manager s) = StatePromoting
}.

Lemma exclusive_enter opts s id :
  exclusive s -> (forall i, s_calls s !! i <> Some Returning) -> exclusive (enter opts s id).
Proof.
  intros [Hone Hcl] Hret. destruct (enter_cases opts s id) as [->|(Hn & _ & Hst & ->)]; [done|].
  assert (forall i, s_calls s !! i = None) as Hempty.
  { intros i. destruct (s_calls s !! i) as [p|] eqn:Hi; [|done]. destruct Hst. eapply Hcl; [done|].
    intros ->. by apply (Hret i). }
  split; cbn; [|done]. intros i j p q. rewrite !lookup_insert_Some, !Hempty. naive_solver.
Qed.

Lemma exclusive_count opts s r m' es promote l p :
  count opts (s_manager s) r = (m', es, promote) -> exclusive s ->
  exclusive {| s_manager := m'; s_calls := s_calls s; s_rebuilds := l; s_pass := p |}.
Proof. intros (Hs & _)%count_spec [Hone Hcl]. split; cbn; [done|]. rewrite Hs. done. Qed.

Lemma exclusive_pass s p : exclusive s -> exclusive (with_pass s p).
Proof. by intros [Hone Hcl]. Qed.

(** A phase of a call that holds the claim keeps it or gives it up for good. *)
Lemma exclusive_phase s id p q m :
  exclusive s -> s_calls s !! id = Some p -> (q = Returning \/ fm_state m = StatePromoting) ->
  exclusive (with_call (with_manager s m) id q).
Proof.
  intros [Hone Hcl] Hid Hq.
  assert (forall i x, <[id := q]> (s_calls s) !! i = Some x -> i = id /\ x = q) as Honly.
  { intros i x [[-> ->]|[Hne Hi]]%lookup_insert_Some; [done|]. by destruct Hne; eapply Hone. }
  split; cbn.
  - intros i j x y [-> _]%Honly [-> _]%Honly. done.
  - intros i x [_ ->]%Honly Hne. destruct Hq; [done|done].
Qed.

Lemma exclusive_step opts s e : exclusive s -> claim_respected s e -> exclusive (fst (step opts s e)).
Proof.
  intros Hex Hok.
  destruct e as [r| |id|id|id bk kn ac|id ok|id hc|id after|id|turns|p bk|a dm turns]; cbn [step claim_respected] in *.
  - destruct (s_pass s); [done|]. destruct (observes _ _); [by apply exclusive_pass|done].
  - destruct (s_pass s) as [[r|r]|]; [|done..]. destruct (count opts (s_manager s) r) as [[m' ef] promote] eqn:Ho.
    by apply (exclusive_count _ _ _ _ _ _ _ _ Ho).
  - destruct (s_pass s) as [[]|]; [done| |done]. apply exclusive_enter; [by apply exclusive_pass|done].
  - by apply exclusive_enter.
  - destruct (s_calls s !! id) as [[]|] eqn:Hid; try done.
    pose proof (ex_claimed _ Hex _ _ Hid ltac:(done)). destruct s as [m c l ps].
    case_match; (eapply (exclusive_phase (Build_System m c l ps)); [done|done|]); [by right|by left].
  - destruct (s_calls s !! id) as [[]|] eqn:Hid; try done.
    pose proof (ex_claimed _ Hex _ _ Hid ltac:(done)). destruct s as [m c l ps].
    destruct ok; (eapply (exclusive_phase (Build_System m c l ps)); [done|done|]); [by right|by left].
  - destruct (s_calls s !! id) as [[]|] eqn:Hid; try done.
    pose proof (ex_claimed _ Hex _ _ Hid ltac:(done)).
    eapply exclusive_phase; [done|done|by right].
  - destruct (s_calls s !! id) as [[]|] eqn:Hid; try done.
    eapply exclusive_phase; [done|done|by left].
  - destruct (s_calls s !! id) as [[]|] eqn:Hid; try done. destruct Hex as [Hone _].
    split; cbn; [intros i j p q|intros i p]; rewrite !lookup_delete_Some; naive_solver.
  - destruct (verifyPromotion turns) as [st|]; [|done]. destruct Hok as [?|He]; [done|].
    destruct Hex as [Hone _]. split; cbn; [done|]. rewrite He. by intros i p ?%lookup_empty_Some.
  - done.
  - case_match; [|done]. case_decide; [|done]. by destruct Hex.
Qed.

(** C30: As long as no call of [TriggerFailover] enters between another's last
    assignment to the state and its deferred reset, and no verification of an
    earlier promotion ends while one is running, at most one call is past its
    entry at any time, and the state says so until it has finished: every other
    call is refused as already in progress and the monitor stands aside. *)
Theorem one_promotion_at_a_time opts es :
  orderly (sane opts) init es ->
  let s := run opts es in
  (forall i j p q, s_calls s !! i = Some p -> s_calls s !! j = Some q -> i = j) /\
  (forall i p, s_calls s !! i = Some p -> p <> Returning ->
     fm_state (s_manager s) = StatePromoting /\
     claim (sane opts) (s_manager s) = inl (if o_Enabled opts then TriggerBusy else TriggerDisabled) /\
     forall r, observes (s_manager s) r = false).
Proof.
  intros Hord s. assert (exclusive s) as [Hone Hcl].
  { subst s. unfold run. assert (exclusive init) as H by (by split).
    revert Hord H. generalize init. induction es as [|e es IH]; intros s Hord Hex; [done|].
    destruct Hord as [He Hord]. cbn [foldl]. apply IH; [done|]. by apply exclusive_step. }
  split; [done|]. intros i p Hi Hp. pose proof (Hcl i p Hi Hp) as Hst. split; [done|]. split.
  - unfold claim. cbn. destruct (o_Enabled opts); cbn [negb]; [|done]. by rewrite decide_True.
  - intros r. unfold observes. rewrite bool_decide_true by done. by destruct (owned (r_owner r)).
Qed.

Lemma one_promotion_at_a_time_witness :
  fm_state (s_manager (run failover_opts failing_over)) = StatePromoting /\
  claim (sane failover_opts) (s_manager (run failover_opts failing_over)) = inl TriggerBusy.
Proof.
  destruct (one_promotion_at_a_time failover_opts failing_over) as [_ H].
  { repeat split; intros id; vm_compute; try discriminate. }
  destruct (H 0%nat (Chosen (backend 2 RoleReplica true true 5 0))) as (H1 & H2 & _).
  - vm_compute; reflexivity.
  - discriminate.
  - split; [exact H1|exact H2].
Defined.

(** *** How the claim is lost *)

Definition both_searching (s : System) : bool :=
  match s_calls s !! 1%nat, s_calls s !! 2%nat with
  | Some (Chosen b1), Some (Chosen b2) => negb (bool_decide (b_address b1 = b_address b2))
  | _, _ => false
  end.

Definition three_up : list Backend :=
  [backend 2 RoleReplica true true 0 0; backend 3 RoleReplica true true 0 0].

Definition find_in (id : nat) (backends : list Backend) : event := Find id backends backends (fun _ => true).

(** The deferred reset of a call that has failed clears the claim of the next. *)
Example deferred_reset_clears_claim :
  both_searching (run failover_opts
    [Trigger 0; find_in 0 []; Trigger 1; Return 0; find_in 1 three_up; Trigger 2;
     find_in 2 (List.tail three_up)]) = true.
Proof. vm_compute. reflexivity. Qed.

(** So does the end of the verification of an earlier promotion. *)
Example verification_clears_claim :
  both_searching (run failover_opts
    [Trigger 0; find_in 0 three_up; PromoteCall 0 true; Record_ 0 false; Announce 0 three_up; Return 0;
     Trigger 1; find_in 1 three_up;
     Verified [{| t_role := RolePrimary; t_healthy := true; t_replicating := false; t_late := false; t_cancelled := false |}];
     Trigger 2; find_in 2 (List.tail three_up)]) = true.
Proof. vm_compute. reflexivity. Qed.

(** The data plane's own call waits for nothing: one write that finds no primary
    promotes a replica, with no miss counted. *)
Example data_plane_skips_threshold :
  let s := run failover_opts [Trigger 0; find_in 0 three_up] in
  fm_missedPrimary (s_manager s) = 0 /\
  snd (step (sane failover_opts) s (PromoteCall 0 true)) = [Promote [byte_of 2] true].
Proof. vm_compute. done. Qed.

(** The lag of a replica plays no part in its promotion. *)
Example far_behind_replica_promoted :
  let backends := [backend 2 RoleReplica true true (3600 * second) 0; backend 3 RoleReplica true true 0 0] in
  (b_address <$> findBestReplica (CheckReplicationLag backends (fun _ => true)) backends) = Some [byte_of 2].
Proof. vm_compute. reflexivity. Qed.

(** ** A call running alone is its phases in order *)

Definition phases (id : nat) (has_consensus : bool) (a : Answers) : list event :=
  [Trigger id; Find id (a_backends a) (a_known a) (a_acquire a);
   PromoteCall id (match findBestReplica (a_lag a) (a_backends a) with
                   | Some b => a_promote a (b_address b) | None => false end);
   Record_ id has_consensus; Announce id (a_after a); Return id].

Fixpoint trace (opts : Options) (s : System) (es : list event) : System * list Effect :=
  match es with
  | [] => (s, [])
  | e :: rest =>
      let '(s, ef) := step opts s e in
      let '(s, ef') := trace opts s rest in (s, ef ++ ef')
  end.

Lemma TriggerFailover_phases opts has_consensus s id a :
  s_calls s = ∅ ->
  let '(_, m, es) := TriggerFailover opts has_consensus (s_manager s) a in
  exists s', trace opts s (phases id has_consensus a) = (s', es) /\ s_manager s' = m /\ s_calls s' = ∅ /\
             s_rebuilds s' = s_rebuilds s /\ s_pass s' = s_pass s.
Proof.
  destruct s as [m calls l ps]. cbn [s_calls s_manager]. intros ->. unfold TriggerFailover, phases, a_lag.
  assert (forall p, delete id (<[id := p]> (∅ : gmap nat Phase)) = ∅) as Hdel.
  { intros p. rewrite delete_insert_eq. apply delete_id, lookup_empty. }
  destruct (claim opts m) as [r|m1] eqn:Hc.
  - exists {| s_manager := m; s_calls := ∅; s_rebuilds := l; s_pass := ps |}. split; [|done].
    cbn [trace step]. unfold enter. cbn [s_calls s_manager]. rewrite lookup_empty, Hc.
    cbn [trace step s_calls]. rewrite !lookup_empty. done.
  - destruct (findBestReplica (CheckReplicationLag (a_known a) (a_acquire a)) (a_backends a)) as [b|] eqn:Hf.
    + destruct (a_promote a (b_address b)) eqn:Hp; cbn [negb record_promotion announce];
        (eexists {| s_manager := _; s_calls := ∅; s_rebuilds := l; s_pass := ps |}; split; [|split; [reflexivity|done]]);
        cbn [trace step]; unfold enter; cbn [s_calls s_manager]; rewrite ?lookup_empty, ?Hc;
        repeat (cbn [with_call with_manager drop_call s_calls s_manager s_rebuilds s_pass trace step app record_promotion announce
                     fst snd];
                rewrite ?lookup_insert_eq, ?Hf, ?Hp, ?insert_insert_eq, ?app_nil_r, ?Hdel); try reflexivity;
        unfold drop_call, with_call, with_manager; cbn [s_calls s_manager s_rebuilds s_pass];
        rewrite ?insert_insert_eq, ?Hdel; reflexivity.
    + eexists {| s_manager := _; s_calls := ∅; s_rebuilds := l; s_pass := ps |}. split; [|split; [reflexivity|done]];
        cbn [trace step]; unfold enter; cbn [s_calls s_manager]; rewrite ?lookup_empty, ?Hc;
        repeat (cbn [with_call with_manager drop_call s_calls s_manager s_rebuilds s_pass trace step app];
                rewrite ?lookup_insert_eq, ?Hf, ?insert_insert_eq, ?app_nil_r, ?Hdel); try reflexivity;
        unfold drop_call, with_call, with_manager; cbn [s_calls s_manager s_rebuilds s_pass];
        rewrite ?insert_insert_eq, ?Hdel; reflexivity.
Qed.

(** And a pass of the monitor running alone is [observe] and the entry of the call
    it decides on. *)
Lemma observe_pass opts s id r :
  s_pass s = None ->
  let '(m, es, promote) := observe opts (s_manager s) r in
  trace opts s (pass id r) =
    (let s := {| s_manager := m; s_calls := s_calls s; s_rebuilds := rebuilds_of es ++ s_rebuilds s; s_pass := None |} in
     if promote then enter opts s id else s, es).
Proof.
  destruct s as [m calls l ps]. cbn [s_pass s_manager s_calls s_rebuilds]. intros ->.
  assert (observes m r = false -> trace opts {| s_manager := m; s_calls := calls; s_rebuilds := l; s_pass := None |} (pass id r) =
    ({| s_manager := m; s_calls := calls; s_rebuilds := l; s_pass := None |}, [])) as Hno
    by (intros H; cbn [pass trace step s_pass s_manager]; by rewrite H).
  unfold observe. destruct (owned (r_owner r)) eqn:Ho; cbn [negb]; [|apply Hno; unfold observes; by rewrite Ho].
  case_decide as Hs; [apply Hno; unfold observes; by rewrite Ho, bool_decide_true|].
  destruct (leader r) eqn:Hl; cbn [negb]; [|apply Hno; unfold observes; by rewrite Hl, andb_false_r].
  assert (observes m r = true) as Hob by (unfold observes; by rewrite Ho, Hl, bool_decide_false).
  destruct (count opts m r) as [[m' es] promote] eqn:Hc.
  cbn [pass trace step s_pass s_manager]. rewrite Hob. cbn [with_pass s_pass s_manager s_calls s_rebuilds]. rewrite Hc.
  destruct promote; cbn [s_pass with_pass s_manager s_calls s_rebuilds app]; by rewrite ?app_nil_r.
Qed.
