(* ===== verification/Config.v ===== *)
(** * Configuration

    Package [config] as far as it computes: the layers of [Options] and how
    [Merge] lays one over another, the secrets taken from the environment, the
    defaults of the failover and authentication blocks; and the places where the
    management plane turns configuration into what a proxy runs with
    ([registry.go], [setting.go], [cluster.go]), the claim on orchestration
    included.

    Parsing the YAML file is the library's; durations are nanoseconds. *)
From Stdlib Require Import ZArith QArith_base Lia Strings.String.
From stdpp Require Import base gmap list numbers option relations.
From S2P Require Import Prelude Format Credentials Balancer Session Routing Failover.
#[local] Open Scope Z_scope.

(** ** The blocks of a configuration file *)

Record TLS := { CertFile : bytes; KeyFile : bytes; CAFile : bytes; ServerName : bytes; InsecureSkipVerify : bool }.
Record RateLimit := { rl_Enabled : bool; RPS : Q; Burst : Z }.
Record Cache := { ca_Enabled : bool; ca_TTL : Z; ca_MaxSize : Z; ca_MaxEntrySize : Z }.
Record BackendConfig := {
  bc_Addr : bytes; bc_AgentAddr : bytes; bc_AgentToken : bytes; bc_PeerAddr : bytes; bc_Zone : bytes;
  bc_Role : bytes; bc_Weight : Z; bc_AdminDSN : bytes; bc_DataDir : bytes
}.

(** [AutoReattach] is a pointer: unset differs from false. *)
Record FailoverConfig := {
  f_Enabled : bool; f_FailureThreshold : Z; f_FollowPrimary : bool; f_FollowPrimaryTimeout : Z; f_MaxReplicaLag : Z;
  f_AutoReattach : option bool; f_AutoReattachInterval : Z;
  f_AutoRejoin : bool; f_AutoRejoinInterval : Z; f_AutoRejoinTimeout : Z; f_AutoRejoinMaxAttempts : Z
}.

Record AuthConfig := {
  au_Mode : bytes; au_Query : bytes; au_File : bytes; au_CacheTTL : Z; au_NegativeCacheTTL : Z; au_CacheSize : Z
}.

(** [config.Options]. *)
Record GatewayOptions := {
  c_ProxyAddr : bytes;
  c_MgmtAddr : bytes;
  c_LocalZone : bytes;
  c_Balancer : bytes;
  c_Backends : list BackendConfig;
  c_Protocol : bytes;
  c_DialTimeout : Z;
  c_MaxConns : Z;
  c_MinIdle : Z;
  c_HealthInterval : Z;
  c_TLS : option TLS;
  c_BackendTLS : option TLS;
  c_AgentTLS : option TLS;
  c_ReusePort : bool;
  c_AgentAllowCleartext : bool;
  c_RateLimit : option RateLimit;
  c_Cache : option Cache;
  c_Failover : option FailoverConfig;
  c_Auth : option AuthConfig;
  c_QueryTimeout : Z;
  c_PoolWaitTimeout : Z;
  c_ShutdownTimeout : Z;
  c_MaxMessageBytes : Z;
  c_SlowQueryThreshold : Z;
  c_PoolingMode : bytes;
  c_ShadowBackends : list BackendConfig;
  c_AdminToken : bytes;
  c_JWTSecret : bytes;
  c_AuthKey : bytes;
  c_AllowedOrigins : list bytes;
  c_DataDir : bytes;
  c_AdminConsole : option AdminConsole;
  c_Databases : Databases
}.

Definition no_options : GatewayOptions := {|
  c_ProxyAddr := [];
  c_MgmtAddr := [];
  c_LocalZone := [];
  c_Balancer := [];
  c_Backends := [];
  c_Protocol := [];
  c_DialTimeout := 0;
  c_MaxConns := 0;
  c_MinIdle := 0;
  c_HealthInterval := 0;
  c_TLS := None;
  c_BackendTLS := None;
  c_AgentTLS := None;
  c_ReusePort := false;
  c_AgentAllowCleartext := false;
  c_RateLimit := None;
  c_Cache := None;
  c_Failover := None;
  c_Auth := None;
  c_QueryTimeout := 0;
  c_PoolWaitTimeout := 0;
  c_ShutdownTimeout := 0;
  c_MaxMessageBytes := 0;
  c_SlowQueryThreshold := 0;
  c_PoolingMode := [];
  c_ShadowBackends := [];
  c_AdminToken := [];
  c_JWTSecret := [];
  c_AuthKey := [];
  c_AllowedOrigins := [];
  c_DataDir := [];
  c_AdminConsole := None;
  c_Databases := []
|}.

(** ** Laying one configuration over another *)

(** The five tests of [Merge]: a value replaces another when it is not the zero of
    its kind. *)
Definition over_list {A : Type} (old new : list A) : list A := if decide (0 < length new)%nat then new else old.
Definition over_positive (old new : Z) : Z := if decide (0 < new) then new else old.
Definition over_nonzero (old new : Z) : Z := if decide (new <> 0) then new else old.
Definition over_pointer {A : Type} (old new : option A) : option A := match new with Some x => Some x | None => old end.
Definition over_flag (old new : bool) : bool := if new then true else old.

Definition Merge (c other : GatewayOptions) : GatewayOptions := {|
  c_ProxyAddr := over_list (c_ProxyAddr c) (c_ProxyAddr other);
  c_MgmtAddr := over_list (c_MgmtAddr c) (c_MgmtAddr other);
  c_LocalZone := over_list (c_LocalZone c) (c_LocalZone other);
  c_Balancer := over_list (c_Balancer c) (c_Balancer other);
  c_Backends := over_list (c_Backends c) (c_Backends other);
  c_Protocol := over_list (c_Protocol c) (c_Protocol other);
  c_DialTimeout := over_positive (c_DialTimeout c) (c_DialTimeout other);
  c_MaxConns := over_positive (c_MaxConns c) (c_MaxConns other);
  c_MinIdle := over_positive (c_MinIdle c) (c_MinIdle other);
  c_HealthInterval := over_positive (c_HealthInterval c) (c_HealthInterval other);
  c_TLS := over_pointer (c_TLS c) (c_TLS other);
  c_BackendTLS := over_pointer (c_BackendTLS c) (c_BackendTLS other);
  c_AgentTLS := over_pointer (c_AgentTLS c) (c_AgentTLS other);
  c_ReusePort := over_flag (c_ReusePort c) (c_ReusePort other);
  c_AgentAllowCleartext := over_flag (c_AgentAllowCleartext c) (c_AgentAllowCleartext other);
  c_RateLimit := over_pointer (c_RateLimit c) (c_RateLimit other);
  c_Cache := over_pointer (c_Cache c) (c_Cache other);
  c_Failover := over_pointer (c_Failover c) (c_Failover other);
  c_Auth := over_pointer (c_Auth c) (c_Auth other);
  c_QueryTimeout := over_nonzero (c_QueryTimeout c) (c_QueryTimeout other);
  c_PoolWaitTimeout := over_positive (c_PoolWaitTimeout c) (c_PoolWaitTimeout other);
  c_ShutdownTimeout := over_positive (c_ShutdownTimeout c) (c_ShutdownTimeout other);
  c_MaxMessageBytes := c_MaxMessageBytes c;
  c_SlowQueryThreshold := over_positive (c_SlowQueryThreshold c) (c_SlowQueryThreshold other);
  c_PoolingMode := over_list (c_PoolingMode c) (c_PoolingMode other);
  c_ShadowBackends := over_list (c_ShadowBackends c) (c_ShadowBackends other);
  c_AdminToken := over_list (c_AdminToken c) (c_AdminToken other);
  c_JWTSecret := over_list (c_JWTSecret c) (c_JWTSecret other);
  c_AuthKey := c_AuthKey c;
  c_AllowedOrigins := c_AllowedOrigins c;
  c_DataDir := over_list (c_DataDir c) (c_DataDir other);
  c_AdminConsole := over_pointer (c_AdminConsole c) (c_AdminConsole other);
  c_Databases := over_list (c_Databases c) (c_Databases other)
|}.

(** [Merge] of a pointer: nil changes nothing. *)
Definition Merge_ptr (c : GatewayOptions) (other : option GatewayOptions) : GatewayOptions :=
  match other with Some o => Merge c o | None => c end.

Definition set_secrets (c : GatewayOptions) (jwt admin : bytes) : GatewayOptions := {|
  c_ProxyAddr := c_ProxyAddr c;
  c_MgmtAddr := c_MgmtAddr c;
  c_LocalZone := c_LocalZone c;
  c_Balancer := c_Balancer c;
  c_Backends := c_Backends c;
  c_Protocol := c_Protocol c;
  c_DialTimeout := c_DialTimeout c;
  c_MaxConns := c_MaxConns c;
  c_MinIdle := c_MinIdle c;
  c_HealthInterval := c_HealthInterval c;
  c_TLS := c_TLS c;
  c_BackendTLS := c_BackendTLS c;
  c_AgentTLS := c_AgentTLS c;
  c_ReusePort := c_ReusePort c;
  c_AgentAllowCleartext := c_AgentAllowCleartext c;
  c_RateLimit := c_RateLimit c;
  c_Cache := c_Cache c;
  c_Failover := c_Failover c;
  c_Auth := c_Auth c;
  c_QueryTimeout := c_QueryTimeout c;
  c_PoolWaitTimeout := c_PoolWaitTimeout c;
  c_ShutdownTimeout := c_ShutdownTimeout c;
  c_MaxMessageBytes := c_MaxMessageBytes c;
  c_SlowQueryThreshold := c_SlowQueryThreshold c;
  c_PoolingMode := c_PoolingMode c;
  c_ShadowBackends := c_ShadowBackends c;
  c_AdminToken := admin;
  c_JWTSecret := jwt;
  c_AuthKey := c_AuthKey c;
  c_AllowedOrigins := c_AllowedOrigins c;
  c_DataDir := c_DataDir c;
  c_AdminConsole := c_AdminConsole c;
  c_Databases := c_Databases c
|}.

(** [resolveSecrets]; [env] is the environment, unset and empty being the same. *)
Definition resolveSecrets (env : bytes -> bytes) (c : GatewayOptions) : GatewayOptions :=
  let jwt := if decide (c_AuthKey c <> [] /\ c_JWTSecret c = []) then c_AuthKey c else c_JWTSecret c in
  set_secrets c (over_list jwt (env (bs "PONTUS_AUTH_KEY"))) (over_list (c_AdminToken c) (env (bs "PONTUS_ADMIN_TOKEN"))).

(** ** Defaults *)

Definition default_failover : FailoverConfig := {|
  f_Enabled := false; f_FailureThreshold := 0; f_FollowPrimary := false; f_FollowPrimaryTimeout := 0; f_MaxReplicaLag := 0;
  f_AutoReattach := None; f_AutoReattachInterval := 0;
  f_AutoRejoin := false; f_AutoRejoinInterval := 0; f_AutoRejoinTimeout := 0; f_AutoRejoinMaxAttempts := 0 |}.



Definition withDefaults (f : option FailoverConfig) : FailoverConfig :=
  let f := default default_failover f in
  {| f_Enabled := f_Enabled f;
     f_FailureThreshold := or_default (f_FailureThreshold f) 3;
     f_FollowPrimary := f_FollowPrimary f;
     f_FollowPrimaryTimeout := or_default (f_FollowPrimaryTimeout f) (30 * minute);
     f_MaxReplicaLag := or_default (f_MaxReplicaLag f) (10 * second);
     f_AutoReattach := Some (default true (f_AutoReattach f));
     f_AutoReattachInterval := or_default (f_AutoReattachInterval f) minute;
     f_AutoRejoin := f_AutoRejoin f;
     f_AutoRejoinInterval := or_default (f_AutoRejoinInterval f) (5 * minute);
     f_AutoRejoinTimeout := or_default (f_AutoRejoinTimeout f) (30 * minute);
     f_AutoRejoinMaxAttempts := or_default (f_AutoRejoinMaxAttempts f) 3 |}.

(** [failoverOptions] of the registry, for a configuration or none. *)
Definition failoverOptions (cfg : option GatewayOptions) : Options :=
  let f := withDefaults (cfg ≫= c_Failover) in
  {| o_Enabled := f_Enabled f; o_FailureThreshold := f_FailureThreshold f;
     o_FollowPrimary := f_FollowPrimary f; o_FollowPrimaryTimeout := f_FollowPrimaryTimeout f;
     o_AutoReattach := default false (f_AutoReattach f); o_AutoReattachInterval := f_AutoReattachInterval f;
     o_AutoRejoin := f_AutoRejoin f; o_AutoRejoinInterval := f_AutoRejoinInterval f;
     o_AutoRejoinTimeout := f_AutoRejoinTimeout f; o_AutoRejoinMaxAttempts := f_AutoRejoinMaxAttempts f |}.

Definition PontusAuth (c : GatewayOptions) : bool :=
  match c_Auth c with Some a => bool_decide (au_Mode a = bs "pontus") | None => false end.

Definition AuthOptions (c : GatewayOptions) : AuthConfig :=
  match c_Auth c with
  | None => {| au_Mode := bs "passthrough"; au_Query := []; au_File := []; au_CacheTTL := 0; au_NegativeCacheTTL := 0; au_CacheSize := 0 |}
  | Some a => {| au_Mode := if decide (au_Mode a = []) then bs "passthrough" else au_Mode a; au_Query := au_Query a;
                 au_File := au_File a; au_CacheTTL := au_CacheTTL a; au_NegativeCacheTTL := au_NegativeCacheTTL a;
                 au_CacheSize := au_CacheSize a |}
  end.

(** [slowQueryThreshold] and [healthTiming]. *)
Definition slowQueryThreshold (cfg : option GatewayOptions) : Z :=
  match cfg with
  | Some c => if decide (0 < c_SlowQueryThreshold c) then c_SlowQueryThreshold c else 200000000
  | None => 200000000
  end.

Definition healthTiming (cfg : option GatewayOptions) : Z * Z :=
  let interval := match cfg with
                  | Some c => if decide (0 < c_HealthInterval c) then c_HealthInterval c else 10 * second
                  | None => 10 * second
                  end in
  let timeout := interval / 5 in
  let timeout := if decide (timeout < 500000000) then 500000000 else timeout in
  let timeout := if decide (5 * second < timeout) then 5 * second else timeout in
  let timeout := if decide (interval <= timeout) then interval / 2 else timeout in
  (interval, timeout).

(** ** What a proxy runs with *)

(** The strategies [newBalancer] tells apart. *)
Inductive BalancerKind := RoundRobin | WeightedRoundRobin | LeastConn | P2C | PeakEWMA | ConsistentHash.

Definition newBalancer (name : bytes) : BalancerKind :=
  let name := ToLower_ascii (TrimSpace name) in
  let among l := bool_decide (name ∈ map bs l) in
  if among [""; "round-robin"; "roundrobin"; "round_robin"]%string then RoundRobin
  else if among ["weighted"; "weighted-round-robin"; "weightedroundrobin"; "weighted_round_robin"]%string then WeightedRoundRobin
  else if among ["least-conns"; "least-connections"; "leastconn"; "least_conn"; "least_conns"]%string then LeastConn
  else if among ["p2c"; "power-of-two"]%string then P2C
  else if among ["peak-ewma"; "ewma"; "peak_ewma"]%string then PeakEWMA
  else if among ["consistent"; "consistent-hash"; "ip-hash"; "ip_hash"]%string then ConsistentHash
  else RoundRobin.

(** [net.JoinHostPort]. *)
Definition JoinHostPort (host port : bytes) : bytes :=
  if decide (ch ":" ∈ host) then ch "[" :: host ++ ch "]" :: ch ":" :: port else host ++ ch ":" :: port.

(** The addresses of a backend and its agent, either derived from the other. *)
Definition backend_addresses (addr agentAddr : bytes) : bytes * bytes :=
  let host a := match SplitHostPort a with Some (h, _) => h | None => [] end in
  if decide (agentAddr = [] /\ addr <> []) then (addr, JoinHostPort (host addr) (bs "9091"))
  else if decide (agentAddr <> [] /\ addr = []) then (JoinHostPort (host agentAddr) (bs "5432"), agentAddr)
  else (addr, agentAddr).

Definition backend_role (role : bytes) : bytes := if decide (role = []) then bs "primary" else role.
Definition backend_weight (weight : Z) : Z := if decide (weight <= 0) then 1 else weight.

Definition set_proxy (c : GatewayOptions) (addr protocol : bytes) (dial maxConns : Z) (balancer : bytes) (timeout : Z) : GatewayOptions := {|
  c_ProxyAddr := addr;
  c_MgmtAddr := c_MgmtAddr c;
  c_LocalZone := c_LocalZone c;
  c_Balancer := balancer;
  c_Backends := [];
  c_Protocol := protocol;
  c_DialTimeout := dial;
  c_MaxConns := maxConns;
  c_MinIdle := c_MinIdle c;
  c_HealthInterval := c_HealthInterval c;
  c_TLS := c_TLS c;
  c_BackendTLS := c_BackendTLS c;
  c_AgentTLS := c_AgentTLS c;
  c_ReusePort := c_ReusePort c;
  c_AgentAllowCleartext := c_AgentAllowCleartext c;
  c_RateLimit := c_RateLimit c;
  c_Cache := c_Cache c;
  c_Failover := c_Failover c;
  c_Auth := c_Auth c;
  c_QueryTimeout := timeout;
  c_PoolWaitTimeout := c_PoolWaitTimeout c;
  c_ShutdownTimeout := c_ShutdownTimeout c;
  c_MaxMessageBytes := c_MaxMessageBytes c;
  c_SlowQueryThreshold := c_SlowQueryThreshold c;
  c_PoolingMode := c_PoolingMode c;
  c_ShadowBackends := c_ShadowBackends c;
  c_AdminToken := c_AdminToken c;
  c_JWTSecret := c_JWTSecret c;
  c_AuthKey := c_AuthKey c;
  c_AllowedOrigins := c_AllowedOrigins c;
  c_DataDir := c_DataDir c;
  c_AdminConsole := c_AdminConsole c;
  c_Databases := c_Databases c
|}.

(** The configuration [CreateProxyState] gives a gateway: the global one, less what
    is the proxy's own. *)
Definition proxy_config (defaults : option GatewayOptions) (addr protocol : bytes) (dialTimeout maxConns : Z)
    (balancer : bytes) : GatewayOptions :=
  let c := default no_options defaults in
  set_proxy c addr protocol dialTimeout maxConns balancer
    (if decide (c_QueryTimeout c <= 0) then 30 * second else c_QueryTimeout c).

(** What the gateway bounds a statement by: [reconfigure] and [withQueryTimeout]. *)
Definition statement_bound (current : Z) (cfg : GatewayOptions) : option Z :=
  let t := if decide (c_QueryTimeout cfg <> 0) then c_QueryTimeout cfg else current in
  if decide (t <= 0) then None else Some t.

(** ** Updates at run time *)

Definition partial_update (timeout maxConns : Z) (balancer mode : bytes) : GatewayOptions := {|
  c_ProxyAddr := [];
  c_MgmtAddr := [];
  c_LocalZone := [];
  c_Balancer := balancer;
  c_Backends := [];
  c_Protocol := [];
  c_DialTimeout := 0;
  c_MaxConns := maxConns;
  c_MinIdle := 0;
  c_HealthInterval := 0;
  c_TLS := None;
  c_BackendTLS := None;
  c_AgentTLS := None;
  c_ReusePort := false;
  c_AgentAllowCleartext := false;
  c_RateLimit := None;
  c_Cache := None;
  c_Failover := None;
  c_Auth := None;
  c_QueryTimeout := timeout;
  c_PoolWaitTimeout := 0;
  c_ShutdownTimeout := 0;
  c_MaxMessageBytes := 0;
  c_SlowQueryThreshold := 0;
  c_PoolingMode := mode;
  c_ShadowBackends := [];
  c_AdminToken := [];
  c_JWTSecret := [];
  c_AuthKey := [];
  c_AllowedOrigins := [];
  c_DataDir := [];
  c_AdminConsole := None;
  c_Databases := []
|}.

(** [Setting.UpdateConfig] applies nothing without a timeout; [SetClusterConfig]
    takes each parameter by itself.  [parse] is [time.ParseDuration]. *)
Definition setting_update (parse : bytes -> option Z) (params : gmap bytes bytes) : option GatewayOptions :=
  v ← params !! bs "query_timeout"; d ← parse v;
  let maxConns := match params !! bs "max_conns" with
                  | Some v => match ParseInt64 v with Some i => i32 i | None => 0 end
                  | None => 0
                  end in
  Some (partial_update d maxConns [] []).

Definition cluster_update (parse : bytes -> option Z) (params : gmap bytes bytes) : option GatewayOptions :=
  let timeout := v ← params !! bs "query_timeout"; parse v in
  let maxConns := v ← params !! bs "max_conns"; i32 <$> ParseInt64 v in
  let balancer := params !! bs "balancer" in
  let mode := params !! bs "pooling_mode" in
  if decide (timeout = None /\ maxConns = None /\ balancer = None /\ mode = None) then None
  else Some (partial_update (default 0 timeout) (default 0 maxConns) (default [] balancer) (default [] mode)).

(** [Registry.UpdateConfig] and [Gateway.UpdateConfig]: every proxy of every project
    merges the update into its own configuration. *)
Definition registry_update (cfg : GatewayOptions) (proxies : gmap bytes (gmap bytes GatewayOptions)) :
    gmap bytes (gmap bytes GatewayOptions) := fmap (M := gmap bytes) (fmap (M := gmap bytes) (fun c => Merge c cfg)) proxies.

(** ** Layers of configuration compose *)

Lemma over_list_assoc {A : Type} (a b c : list A) : over_list (over_list a b) c = over_list a (over_list b c).
Proof. unfold over_list. repeat case_decide; done. Qed.
Lemma over_positive_assoc a b c : over_positive (over_positive a b) c = over_positive a (over_positive b c).
Proof. unfold over_positive. repeat case_decide; done. Qed.
Lemma over_nonzero_assoc a b c : over_nonzero (over_nonzero a b) c = over_nonzero a (over_nonzero b c).
Proof. unfold over_nonzero. repeat case_decide; done. Qed.
Lemma over_pointer_assoc {A : Type} (a b c : option A) : over_pointer (over_pointer a b) c = over_pointer a (over_pointer b c).
Proof. by destruct c, b. Qed.
Lemma over_flag_assoc a b c : over_flag (over_flag a b) c = over_flag a (over_flag b c).
Proof. by destruct c, b. Qed.

Lemma over_list_idem {A : Type} (a b : list A) : over_list (over_list a b) b = over_list a b.
Proof. unfold over_list. repeat case_decide; done. Qed.
Lemma over_positive_idem a b : over_positive (over_positive a b) b = over_positive a b.
Proof. unfold over_positive. repeat case_decide; done. Qed.
Lemma over_nonzero_idem a b : over_nonzero (over_nonzero a b) b = over_nonzero a b.
Proof. unfold over_nonzero. repeat case_decide; done. Qed.
Lemma over_pointer_idem {A : Type} (a b : option A) : over_pointer (over_pointer a b) b = over_pointer a b.
Proof. by destruct b. Qed.
Lemma over_flag_idem a b : over_flag (over_flag a b) b = over_flag a b.
Proof. by destruct b. Qed.

Create HintDb layers.
#[export] Hint Resolve over_list_assoc over_positive_assoc over_nonzero_assoc over_pointer_assoc over_flag_assoc
  over_list_idem over_positive_idem over_nonzero_idem over_pointer_idem over_flag_idem : layers.

(** Updates merged one after another are one update that is their merge, an
    update that sets nothing changes nothing, and repeating an update changes
    nothing more. *)
Theorem updates_compose (a b c : GatewayOptions) :
  Merge (Merge a b) c = Merge a (Merge b c) /\ Merge a no_options = a /\ Merge (Merge a b) b = Merge a b.
Proof.
  split_and!.
  - unfold Merge. cbn. f_equal; auto with layers.
  - destruct a. reflexivity.
  - unfold Merge. cbn. f_equal; auto with layers.
Qed.

(** The limit on a message and the origins of the API are not merged: an update
    that sets them is dropped. *)
Example merge_drops_settings :
  let update := {| c_ProxyAddr := []; c_MgmtAddr := []; c_LocalZone := []; c_Balancer := []; c_Backends := []; c_Protocol := [];
    c_DialTimeout := 0; c_MaxConns := 0; c_MinIdle := 0; c_HealthInterval := 0; c_TLS := None; c_BackendTLS := None;
    c_AgentTLS := None; c_ReusePort := false; c_AgentAllowCleartext := false; c_RateLimit := None; c_Cache := None;
    c_Failover := None; c_Auth := None; c_QueryTimeout := 0; c_PoolWaitTimeout := 0; c_ShutdownTimeout := 0;
    c_MaxMessageBytes := 1024; c_SlowQueryThreshold := 0; c_PoolingMode := []; c_ShadowBackends := []; c_AdminToken := [];
    c_JWTSecret := []; c_AuthKey := bs "k"; c_AllowedOrigins := [bs "https://a"]; c_DataDir := []; c_AdminConsole := None;
    c_Databases := [] |} in
  Merge no_options update = no_options.
Proof. reflexivity. Qed.

(** ** Defaults agree on both sides *)

Lemma or_default_idem x d : 0 < d -> or_default (or_default x d) d = or_default x d.
Proof. unfold or_default. intros. repeat case_decide; lia. Qed.

Lemma withDefaults_reattach f : f_AutoReattach (withDefaults f) <> None.
Proof. done. Qed.

(** The defaults the configuration fills in are the ones the failover manager
    would have: what the registry hands over is already complete, and the pointer
    it reads is never nil. *)
Theorem failover_defaults_agree (cfg : option GatewayOptions) :
  sane (failoverOptions cfg) = failoverOptions cfg /\
  f_AutoReattach (withDefaults (cfg ≫= c_Failover)) <> None.
Proof.
  split; [|apply withDefaults_reattach]. unfold sane, failoverOptions, withDefaults. cbn.
  f_equal; apply or_default_idem; unfold minute, second; lia.
Qed.

(** A probe never outlives its own interval and never runs longer than five
    seconds; it has some time as soon as the interval is two nanoseconds. *)
Theorem health_probe_fits (cfg : option GatewayOptions) :
  let '(interval, timeout) := healthTiming cfg in
  0 < interval /\ 0 <= timeout < interval /\ timeout <= 5 * second /\ (2 <= interval -> 0 < timeout).
Proof.
  unfold healthTiming. set (interval := match cfg with Some _ => _ | None => _ end).
  assert (0 < interval) as Hi. { subst interval. destruct cfg; [case_decide|]; unfold second; lia. }
  clearbody interval. unfold second in *. pose proof (Z.div_pos interval 5). pose proof (Z.div_lt interval 2).
  assert (interval / 2 <= interval) by (apply Z.div_le_upper_bound; lia).
  assert (0 <= interval / 2) by (apply Z.div_pos; lia).
  assert (2 <= interval -> 1 <= interval / 2) by (intros; apply Z.div_le_lower_bound; lia).
  repeat case_decide; lia.
Qed.

(** ** A timeout that cannot be turned off *)

(** A negative [query_timeout] is documented to disable the bound on a
    statement, and the gateway reads it so; the registry replaces it by the default
    before the gateway sees it, so every proxy bounds its statements. *)
Theorem statements_always_bounded (defaults : option GatewayOptions) (addr protocol balancer : bytes)
    (dial maxConns current : Z) :
  exists t, 0 < t /\ statement_bound current (proxy_config defaults addr protocol dial maxConns balancer) = Some t.
Proof.
  unfold statement_bound, proxy_config, set_proxy. cbn [c_QueryTimeout]. set (t := if decide (c_QueryTimeout (default no_options defaults) <= 0) then _ else _).
  assert (0 < t) as Ht. { subst t. unfold second. case_decide; lia. }
  clearbody t. exists t. rewrite (decide_True (P := t <> 0)), (decide_False (P := t <= 0)) by lia. done.
Qed.

Example negative_disables_gateway : statement_bound 0 (partial_update (-1) 0 [] []) = None.
Proof. reflexivity. Qed.

(** A new pool size alone is stored and applied to nothing by one of the two
    update calls, and applied by the other. *)
Example pool_size_needs_timeout :
  let params := {[ bs "max_conns" := bs "50" ]} in
  setting_update (fun _ => None) params = None /\ (c_MaxConns <$> cluster_update (fun _ => None) params) = Some 50.
Proof. vm_compute. split; reflexivity. Qed.

(** ** Which process acts on the cluster *)

Module Ownership.

(** The file [claimOrchestration] would lock: what [GetDatabasePath] answered, if
    it answered and the path is absolute ([filepath.IsAbs] on Unix). *)
Definition lock_file (path : option bytes) : option bytes :=
  match path with
  | Some p => if decide (head p = Some (ch "/")) then Some p else None
  | None => None
  end.

(** [claimOrchestration] installs the ownership predicate once, when the process
    starts: none without a file to lock, so that the process takes itself for the
    only one on its host; otherwise whether [AcquireOrchestration] got the lock. *)
Definition claimOrchestration (path : option bytes) (acquired : bool) : option bool :=
  match lock_file path with None => None | Some _ => Some acquired end.

Inductive phase := Serving | Draining.
Record process := { owner : option bool; file : option bytes; stage : phase }.

(** The processes of a host, and who holds the lock on each file. *)
Record state := { processes : gmap nat process; holders : gmap bytes nat }.

(** [StopAll] releases the lock and then drains; the kernel releases it at exit. *)
Definition released (s : state) (p : nat) (pr : process) : gmap bytes nat :=
  match file pr with
  | Some f => if decide (holders s !! f = Some p) then delete f (holders s) else holders s
  | None => holders s
  end.

(** The lock is granted only when nobody holds it; it may be refused for other
    reasons as well. *)
Inductive claim_step : state -> state -> Prop :=
| start s p path acquired : processes s !! p = None ->
    (forall f, lock_file path = Some f -> acquired = true -> holders s !! f = None) ->
    claim_step s {| processes := <[p := {| owner := claimOrchestration path acquired; file := lock_file path; stage := Serving |}]> (processes s);
                    holders := match lock_file path with
                               | Some f => if acquired : bool then <[f := p]> (holders s) else holders s
                               | None => holders s
                               end |}
| stop s p pr : processes s !! p = Some pr -> stage pr = Serving ->
    claim_step s {| processes := <[p := {| owner := owner pr; file := file pr; stage := Draining |}]> (processes s);
                    holders := released s p pr |}
| exit s p pr : processes s !! p = Some pr ->
    claim_step s {| processes := delete p (processes s); holders := released s p pr |}.

Definition idle : state := {| processes := ∅; holders := ∅ |}.

(** A process acts when the failover manager's monitor finds itself the owner. *)
Definition acts (s : state) (p : nat) : Prop := exists pr, processes s !! p = Some pr /\ owned (owner pr) = true.

(** A serving process that has a file to lock and acts holds its lock. *)
Definition claims_ok (s : state) : Prop :=
  forall p pr f, processes s !! p = Some pr -> stage pr = Serving -> file pr = Some f -> owned (owner pr) = true ->
    holders s !! f = Some p.

Lemma released_other s p q pr f : p <> q -> holders s !! f = Some q -> released s p pr !! f = Some q.
Proof.
  intros Hne Hf. unfold released. destruct (file pr) as [g|]; [|done]. case_decide as Hg; [|done].
  rewrite lookup_delete_ne; [done|]. intros ->. congruence.
Qed.

Lemma step_claims s s' : claim_step s s' -> claims_ok s -> claims_ok s'.
Proof.
  intros Hs Hok q qr f Hq Hst Hf How.
  destruct Hs as [s p path acquired Hn Hfree|s p pr Hp Hsp|s p pr Hp]; cbn in *.
  - destruct (decide (q = p)) as [->|Hne].
    + rewrite lookup_insert_eq in Hq. injection Hq as <-. cbn in *. unfold claimOrchestration in How. rewrite Hf in *.
      cbn in How. subst acquired. by rewrite lookup_insert_eq.
    + rewrite lookup_insert_ne in Hq by done. pose proof (Hok q qr f Hq Hst Hf How) as Hh.
      destruct (lock_file path) as [g|]; [|done]. destruct acquired; [|done].
      rewrite lookup_insert_ne; [done|]. intros ->. specialize (Hfree f eq_refl eq_refl). congruence.
  - destruct (decide (q = p)) as [->|Hne]; [rewrite lookup_insert_eq in Hq; by injection Hq as <-|].
    rewrite lookup_insert_ne in Hq by done. apply released_other; [done|by eapply Hok].
  - destruct (decide (q = p)) as [->|Hne]; [by rewrite lookup_delete_eq in Hq|].
    rewrite lookup_delete_ne in Hq by done. apply released_other; [done|by eapply Hok].
Qed.

Lemma reachable_claims s : rtc claim_step idle s -> claims_ok s.
Proof.
  intros H. remember idle as s0 eqn:E. assert (claims_ok s0) as H0.
  { subst s0. intros p pr f Hp. cbn [idle processes] in Hp. by rewrite lookup_empty in Hp. }
  clear E. induction H as [|a b c Hs _ IH]; [done|]. apply IH. by eapply step_claims.
Qed.

(** C33: Of the processes of a host that lock the same file and have not begun to
    stop, at most one acts on the cluster through its monitor, and it is the one
    that holds the lock.  Coordination is by that file: a process without a usable
    path takes itself for the only one, and processes with different data
    directories do not see each other ([uncoordinated_processes_act] below).  The
    data plane's own call of TriggerFailover does not ask who owns orchestration. *)
Theorem one_owner_serving (s : state) (f : bytes) (p q : nat) (pr qr : process) :
  rtc claim_step idle s -> processes s !! p = Some pr -> processes s !! q = Some qr ->
  stage pr = Serving -> stage qr = Serving -> file pr = Some f -> file qr = Some f ->
  acts s p -> acts s q -> p = q /\ holders s !! f = Some p.
Proof.
  intros Hr Hp Hq Hsp Hsq Hfp Hfq (pr' & Hp' & Hop) (qr' & Hq' & Hoq). simplify_eq.
  pose proof (reachable_claims s Hr) as Hok. pose proof (Hok p pr f Hp Hsp Hfp Hop) as H1.
  pose proof (Hok q qr f Hq Hsq Hfq Hoq) as H2. split; [congruence|done].
Qed.

Definition lock_path : bytes := bs "/var/lib/pontus/orchestration.lock".

(** The first of two processes that share a lock acts, the second does not. *)
Definition serving_pair : state :=
  {| processes := {[ 1%nat := {| owner := Some true; file := Some lock_path; stage := Serving |};
                     2%nat := {| owner := Some false; file := Some lock_path; stage := Serving |} ]};
     holders := {[ lock_path := 1%nat ]} |}.

Lemma serving_pair_reached : rtc claim_step idle serving_pair.
Proof.
  eapply rtc_l; [apply (start _ 2 (Some lock_path) false); [reflexivity|done]|].
  eapply rtc_l; [apply (start _ 1 (Some lock_path) true); [reflexivity|by intros f [= <-] _]|].
  apply rtc_refl.
Qed.

Lemma one_owner_serving_witness :
  acts serving_pair 1 /\ (forall q qr, processes serving_pair !! q = Some qr -> stage qr = Serving -> file qr = Some lock_path ->
    acts serving_pair q -> 1%nat = q /\ holders serving_pair !! lock_path = Some 1%nat).
Proof.
  assert (acts serving_pair 1) as Ha.
  { exists {| owner := Some true; file := Some lock_path; stage := Serving |}. split; [vm_compute; reflexivity|reflexivity]. }
  split; [exact Ha|]. intros q qr Hq Hs Hf Hact.
  refine (one_owner_serving serving_pair lock_path 1 q {| owner := Some true; file := Some lock_path; stage := Serving |} qr
    serving_pair_reached _ Hq eq_refl Hs eq_refl Hf Ha Hact).
  vm_compute; reflexivity.
Defined.

(** Two processes without a usable path both act, and so do two with data
    directories of their own. *)
Example uncoordinated_processes_act :
  (exists s, rtc claim_step idle s /\ acts s 1 /\ acts s 2 /\ holders s = ∅) /\
  (exists s, rtc claim_step idle s /\ acts s 1 /\ acts s 2 /\ size (holders s) = 2%nat).
Proof.
  split.
  - eexists. split_and!.
    + eapply rtc_l; [apply (start _ 1 (Some (bs "orchestration.lock")) true); [reflexivity|done]|].
      eapply rtc_l; [apply (start _ 2 None true); [reflexivity|done]|]. apply rtc_refl.
    + eexists; split; [vm_compute; reflexivity|reflexivity].
    + eexists; split; [vm_compute; reflexivity|reflexivity].
    + reflexivity.
  - eexists. split_and!.
    + eapply rtc_l; [apply (start _ 1 (Some (bs "/a/orchestration.lock")) true); [reflexivity|by intros f [= <-] _]|].
      eapply rtc_l; [apply (start _ 2 (Some (bs "/b/orchestration.lock")) true); [reflexivity|by intros f [= <-] _]|]. apply rtc_refl.
    + eexists; split; [vm_compute; reflexivity|reflexivity].
    + eexists; split; [vm_compute; reflexivity|reflexivity].
    + vm_compute. reflexivity.
Qed.

(** A process that started without the lock never acts, whoever exits: nothing asks
    for the lock again. *)
Lemma never_takes_over s s' p pr :
  rtc claim_step s s' -> processes s !! p = Some pr -> owner pr = Some false ->
  forall pr', processes s' !! p = Some pr' -> owner pr' = Some false \/ exists t, rtc claim_step s t /\ processes t !! p = None.
Proof.
  intros H. revert pr. induction H as [s|s a s' Hs Hr IH]; intros pr Hp Ho pr' Hp'; [left; congruence|].
  destruct (processes a !! p) as [ar|] eqn:Ea.
  - assert (owner ar = Some false) as Hoa.
    { destruct Hs as [s q path acquired Hn Hfree|s q qr Hq Hsq|s q qr Hq]; cbn in Ea.
      - rewrite lookup_insert_ne in Ea by congruence. congruence.
      - destruct (decide (q = p)) as [->|Hne]; [rewrite lookup_insert_eq in Ea; simplify_eq; cbn; congruence|].
        rewrite lookup_insert_ne in Ea by done. congruence.
      - destruct (decide (q = p)) as [->|Hne]; [by rewrite lookup_delete_eq in Ea|].
        rewrite lookup_delete_ne in Ea by done. congruence. }
    destruct (IH ar eq_refl Hoa pr' Hp') as [?|(t & Ht & Hn)]; [by left|]. right. exists t. split; [by eapply rtc_l|done].
  - right. exists a. split; [by apply rtc_once|done].
Qed.

(** An upgrade by overlap: the new process starts while the old one holds the lock,
    the old one exits, and nobody acts on the cluster any more. *)
Example upgrade_loses_orchestration :
  exists s, rtc claim_step idle s /\ holders s = ∅ /\
    processes s = {[ 2%nat := {| owner := Some false; file := Some lock_path; stage := Serving |} ]}.
Proof.
  eexists. split_and!.
  - eapply rtc_l; [apply (start _ 1 (Some lock_path) true); [reflexivity|by intros f [= <-] _]|].
    eapply rtc_l; [apply (start _ 2 (Some lock_path) false); [reflexivity|done]|].
    eapply rtc_l; [eapply (exit _ 1); reflexivity|]. apply rtc_refl.
  - vm_compute. reflexivity.
  - vm_compute. reflexivity.
Qed.

(** The lock is released before the drain, and a draining process still acts: one
    started in that time acts as well. *)
Example two_act_during_drain : exists s, rtc claim_step idle s /\ acts s 1 /\ acts s 2.
Proof.
  eexists. split_and!.
  - eapply rtc_l; [apply (start _ 1 (Some lock_path) true); [reflexivity|by intros f [= <-] _]|].
    eapply rtc_l; [eapply (stop _ 1); reflexivity|].
    eapply rtc_l; [apply (start _ 2 (Some lock_path) true); [reflexivity|intros f [= <-] _; vm_compute; reflexivity]|]. apply rtc_refl.
  - eexists; (split; [vm_compute; reflexivity|reflexivity]).
  - eexists; (split; [vm_compute; reflexivity|reflexivity]).
Qed.

End Ownership.
