(* ===== verification/Fleet.v ===== *)
(** * Projects, proxies and backends at run time

    management/infrastructure: registry/registry.go (the states of projects and
    proxies), state/project.go and proxy.go, and the managers that change them,
    manager/project.go, proxy.go and backend.go; NewServer of pool/server.go as far
    as the managers see it.

    The objects the managers share are kept as the code shares them: a proxy's
    configuration is one object, held by the project and by the running proxy
    ([configs]); the slice of backends and what the failover manager, the
    provisioner and the console captured of it are headers over one array
    ([arrays]); a context is the list of the cancel functions that end it.  What a
    call meets outside (the store's disk, a listening socket, an agent) is an
    argument. *)
From Stdlib Require Import ZArith Lia Strings.String.
From stdpp Require Import base gmap list numbers option relations sorting.
From S2P Require Import Prelude Format Config.
#[local] Open Scope Z_scope.

(** ** Go slices that share an array

    A slice is the array it lies in, from its first element, and a length; the
    capacity is that of the array. *)

Module Slice.

Record slice := { sl_array : nat; sl_len : nat }.

Section Heap.
Context {A : Type}.
#[local] Abbreviation heap := (gmap nat (list (option A))).

Definition cells (h : heap) (s : slice) : list (option A) := default [] (h !! sl_array s).
Definition view (h : heap) (s : slice) : list A := omap id (take (sl_len s) (cells h s)).

(** [make([]T, 0, cap)] at the location [l]. *)
Definition make (h : heap) (l cap : nat) : heap * slice :=
  (<[l := replicate cap None]> h, {| sl_array := l; sl_len := 0 |}).

(** [append(s, x)]: in place below the capacity, otherwise in a new array at [l], to
    which the runtime gives [spare] more cells. *)
Definition append (h : heap) (l spare : nat) (s : slice) (x : A) : heap * slice :=
  let c := cells h s in
  if decide (sl_len s < length c)%nat
  then (<[sl_array s := <[sl_len s := Some x]> c]> h, {| sl_array := sl_array s; sl_len := S (sl_len s) |})
  else (<[l := take (sl_len s) c ++ Some x :: replicate spare None]> h, {| sl_array := l; sl_len := S (sl_len s) |}).

(** [append(s[:i], s[i+1:]...)]: the elements after [i] are moved down in place. *)
Definition remove_at (h : heap) (s : slice) (i : nat) : heap * slice :=
  let c := cells h s in
  let n := sl_len s in
  (<[sl_array s := take i c ++ take (n - S i) (drop (S i) c) ++ drop (n - 1) c]> h,
   {| sl_array := sl_array s; sl_len := n - 1 |}).

(** A slice as the code makes them: its cells exist and hold something. *)
Definition sound (h : heap) (s : slice) : Prop :=
  (sl_len s <= length (cells h s))%nat /\ Forall is_Some (take (sl_len s) (cells h s)).

Lemma omap_filled (l : list (option A)) : Forall is_Some l -> l = Some <$> omap id l.
Proof. induction 1 as [|? ? [x ->] _ IH]; cbn; [done|by f_equal]. Qed.

Lemma view_cells h s : sound h s -> take (sl_len s) (cells h s) = Some <$> view h s.
Proof. intros [_ Hf]. by apply omap_filled. Qed.

Lemma view_length h s : sound h s -> length (view h s) = sl_len s.
Proof.
  intros Hs. pose proof (view_cells h s Hs) as E. apply (f_equal length) in E.
  destruct Hs as [Hl _]. rewrite length_take, length_fmap in E. lia.
Qed.

Lemma omap_some (l : list A) : omap id (Some <$> l) = l.
Proof. induction l; cbn; [done|by f_equal]. Qed.

Lemma view_intro h s (l : list A) : take (sl_len s) (cells h s) = Some <$> l -> sl_len s = length l ->
  sound h s /\ view h s = l.
Proof.
  intros E Hn. unfold sound, view. rewrite E, omap_some. split_and!; [|apply Forall_fmap, Forall_true; eauto|done].
  apply (f_equal length) in E. rewrite length_take, length_fmap in E. lia.
Qed.

Lemma cells_insert h l c n : cells (<[l := c]> h) {| sl_array := l; sl_len := n |} = c.
Proof. unfold cells. cbn. by rewrite lookup_insert_eq. Qed.

Lemma make_view h l cap : sound (fst (make h l cap)) (snd (make h l cap)) /\ view (fst (make h l cap)) (snd (make h l cap)) = [].
Proof. apply view_intro; done. Qed.

Lemma append_view h l spare s x : sound h s ->
  sound (fst (append h l spare s x)) (snd (append h l spare s x)) /\
  view (fst (append h l spare s x)) (snd (append h l spare s x)) = view h s ++ [x].
Proof.
  intros Hs. pose proof (view_cells h s Hs) as Hv. pose proof (view_length h s Hs) as Hn.
  unfold append. case_decide as Hc; cbn [fst snd]; apply view_intro; cbn [sl_len];
    rewrite ?length_app, ?Hn, ?cells_insert; cbn; try lia.
  - rewrite fmap_app, <- Hv. cbn. rewrite take_S_r with (x := Some x).
    + by rewrite take_insert_ge by lia.
    + by apply list_lookup_insert_eq.
  - rewrite fmap_app, <- Hv. destruct Hs as [Hl _]. cbn.
    assert (length (take (sl_len s) (cells h s)) = sl_len s) as E by (rewrite length_take; lia).
    rewrite take_app_ge by lia. f_equal. rewrite E. by replace (S (sl_len s) - sl_len s)%nat with 1%nat by lia.
Qed.

(** Another header over the array of an append does not see it. *)
Lemma append_other h l spare s t x :
  (sl_array t <> l \/ h !! l = None /\ sl_len t = 0%nat) -> (sl_array t = sl_array s -> sl_len t <= sl_len s)%nat ->
  view (fst (append h l spare s x)) t = view h t.
Proof.
  intros Hl Ht. unfold append, view, cells. case_decide as Hc; cbn [fst].
  - destruct (decide (sl_array t = sl_array s)) as [E|E].
    + rewrite E, lookup_insert_eq. cbn. by rewrite take_insert_ge by (by apply Ht).
    + by rewrite lookup_insert_ne by done.
  - destruct Hl as [Hl|[Hl ->]]; [|done]. by rewrite lookup_insert_ne by done.
Qed.

Lemma remove_at_view h s i : sound h s -> (i < sl_len s)%nat ->
  sound (fst (remove_at h s i)) (snd (remove_at h s i)) /\
  view (fst (remove_at h s i)) (snd (remove_at h s i)) = delete i (view h s).
Proof.
  intros Hs Hi. pose proof (view_cells h s Hs) as Hv. pose proof (view_length h s Hs) as Hn.
  destruct Hs as [Hl _]. unfold remove_at. cbn [fst snd]. apply view_intro; cbn [sl_len].
  - rewrite cells_insert, delete_take_drop, fmap_app, fmap_take, fmap_drop, <- Hv.
    rewrite take_take, Nat.min_l by lia.
    assert (length (take i (cells h s)) = i) as E by (rewrite length_take; lia).
    rewrite take_app_ge by lia. rewrite E. f_equal.
    rewrite take_app_le by (rewrite length_take, length_drop; lia).
    rewrite take_take, Nat.min_l by lia. rewrite take_drop_commute.
    f_equal. f_equal. lia.
  - rewrite length_delete by (apply lookup_lt_is_Some; lia). lia.
Qed.

(** What a header that was copied before the removal reads afterwards: the removed
    element is gone, the last one is there twice. *)
Lemma remove_at_copy h s i : sound h s -> (i < sl_len s)%nat ->
  view (fst (remove_at h s i)) s = delete i (view h s) ++ drop (sl_len s - 1) (view h s).
Proof.
  intros Hs Hi. pose proof (view_cells h s Hs) as Hv. pose proof (view_length h s Hs) as Hn. destruct Hs as [Hl _].
  refine (proj2 (view_intro _ _ _ _ _)).
  - assert (cells (fst (remove_at h s i)) s =
      take i (cells h s) ++ take (sl_len s - S i) (drop (S i) (cells h s)) ++ drop (sl_len s - 1) (cells h s)) as ->.
    { unfold cells at 1, remove_at. cbn [fst]. by rewrite lookup_insert_eq. }
    rewrite fmap_app, fmap_drop, delete_take_drop, fmap_app, fmap_take, fmap_drop, <- Hv.
    rewrite take_take, Nat.min_l by lia.
    rewrite app_assoc. rewrite take_app.
    rewrite length_app, !length_take, length_drop, !Nat.min_l by lia.
    replace (sl_len s - (i + (sl_len s - S i)))%nat with 1%nat by lia.
    rewrite take_ge by (rewrite length_app, !length_take, length_drop; lia).
    rewrite take_drop_commute. replace (S i + (sl_len s - S i))%nat with (sl_len s) by lia. f_equal.
    rewrite take_drop_commute. f_equal. f_equal. lia.
  - rewrite length_app, length_delete, length_drop by (apply lookup_lt_is_Some; lia). lia.
Qed.
End Heap.
End Slice.

(** ** What is stored *)

(** [domain.AgentDatabaseConfig], [BackendConfig], [ProxyConfig] and [Project]; a
    message field that is a pointer is an option. *)
Record AgentDatabaseConfig := {
  a_DataDirectory : bytes; a_Version : bytes; a_InitialDatabase : bytes; a_InitialUser : bytes; a_InitialPassword : bytes;
  a_InstallIfMissing : bool
}.
Record BackendSpec := {
  b_Address : bytes; b_Zone : bytes; b_Role : bytes; b_Weight : Z; b_ManagedByAgent : bool; b_AgentAddress : bytes;
  b_AgentToken : bytes; b_AdminDsn : bytes; b_PeerAddress : bytes; b_AgentConfig : option AgentDatabaseConfig
}.
Record ProxyConfig := {
  p_Id : bytes; p_Name : bytes; p_Address : bytes; p_Backends : list BackendSpec; p_Balancer : bytes; p_MaxConns : Z
}.
Record ProjectConfig := {
  j_Id : bytes; j_Name : bytes; j_Protocol : bytes; j_Proxies : list ProxyConfig; j_CreatedAt : Z
}.

Definition set_backends (c : ProxyConfig) (bs : list BackendSpec) : ProxyConfig := {|
  p_Id := p_Id c; p_Name := p_Name c; p_Address := p_Address c; p_Backends := bs; p_Balancer := p_Balancer c;
  p_MaxConns := p_MaxConns c |}.

(** ** What runs *)

(** A [pool.Server], as the managers set it up: whether a client of its agent could be
    made, and whether limits per database were installed. *)
Record Node := {
  n_address : bytes; n_zone : bytes; n_agentAddr : bytes; n_agentToken : bytes; n_role : bytes; n_weight : Z; n_maxConns : Z;
  n_adminDSN : bytes; n_agent : bool; n_peer : bytes; n_dataDir : bytes; n_limits : bool;
  n_started : option (list nat); n_closed : bool
}.

(** [state.Proxy]: [px_nodes] is what the balancer cloned, [px_targets] what the health
    monitor copied, [px_captured] the slice the failover manager, the provisioner and
    the console captured. *)
Record Proxy := {
  px_config : nat; px_backends : Slice.slice; px_captured : Slice.slice; px_nodes : list nat; px_targets : list nat;
  px_ctx : list nat; px_listening : bool
}.

(** [state.Project]; [pj_readers] counts the read locks nobody will give back. *)
Record Project := {
  pj_Id : bytes; pj_Name : bytes; pj_Protocol : bytes; pj_CreatedAt : Z; pj_configs : list nat; pj_proxies : gmap bytes Proxy;
  pj_ctx : list nat; pj_readers : nat
}.

(** [Registry], with everything its objects refer to; [next] is the next location. *)
Record Fleet := {
  arrays : gmap nat (list (option nat)); configs : gmap nat ProxyConfig; nodes : gmap nat Node; cancelled : gset nat;
  projects : gmap bytes Project; stored : gmap bytes ProjectConfig; next : nat
}.

(** Where the registry gets its defaults from: [limits] if the configuration limits
    databases; [dials] is [grpc.NewClient] of an agent's address. *)
Class Defaults := { limits : bool; dials : bytes -> bool }.

Definition set_arrays (w : Fleet) h : Fleet := {| arrays := h; configs := configs w; nodes := nodes w; cancelled := cancelled w;
  projects := projects w; stored := stored w; next := next w |}.
Definition set_configs (w : Fleet) c : Fleet := {| arrays := arrays w; configs := c; nodes := nodes w; cancelled := cancelled w;
  projects := projects w; stored := stored w; next := next w |}.
Definition set_nodes (w : Fleet) n : Fleet := {| arrays := arrays w; configs := configs w; nodes := n; cancelled := cancelled w;
  projects := projects w; stored := stored w; next := next w |}.
Definition set_projects (w : Fleet) p : Fleet := {| arrays := arrays w; configs := configs w; nodes := nodes w;
  cancelled := cancelled w; projects := p; stored := stored w; next := next w |}.
Definition set_stored (w : Fleet) s : Fleet := {| arrays := arrays w; configs := configs w; nodes := nodes w;
  cancelled := cancelled w; projects := projects w; stored := s; next := next w |}.
Definition cancel (w : Fleet) (c : nat) : Fleet := {| arrays := arrays w; configs := configs w; nodes := nodes w;
  cancelled := {[c]} ∪ cancelled w; projects := projects w; stored := stored w; next := next w |}.

(** [ctx.Err() != nil]. *)
Definition done (w : Fleet) (ctx : list nat) : bool := bool_decide (Exists (fun c => c ∈ cancelled w) ctx).

(** The next location, for a new object. *)
Definition fresh (w : Fleet) : nat * Fleet := (next w, {| arrays := arrays w; configs := configs w; nodes := nodes w;
  cancelled := cancelled w; projects := projects w; stored := stored w; next := S (next w) |}).

(** [context.WithCancel]. *)
Definition WithCancel (w : Fleet) (ctx : list nat) : list nat * Fleet := let '(c, w) := fresh w in (c :: ctx, w).

(** What a call of the API can answer; a nil dereference is [Panicked], a lock that is
    never given back [Blocked]. *)
Inductive err :=
| ProjectNotFound | ProxyNotFound | BackendNotFound | AgentMandatory | ListenFailed | StoreFailed
| InstallFailed | InitializeFailed | AgentUnreachable | DiscoveryFailed | AgentNotConnected | CallFailed (e : bytes) | NoFailover
| Panicked | Blocked.

(** *** Backends *)

(** [NewServer]. *)
Definition NewServer `{Defaults} (w : Fleet) (address zone agentAddr agentToken role : bytes) (weight maxConns : Z)
    (adminDSN : bytes) : result err nat * Fleet :=
  if decide (agentAddr = []) then (Err AgentMandatory, w)
  else
    let '(n, w) := fresh w in
    (Ok n, set_nodes w (<[n := {| n_address := address; n_zone := zone; n_agentAddr := agentAddr; n_agentToken := agentToken;
       n_role := role; n_weight := weight; n_maxConns := maxConns; n_adminDSN := adminDSN; n_agent := dials agentAddr;
       n_peer := []; n_dataDir := []; n_limits := false; n_started := None; n_closed := false |}]> (nodes w))).

Definition node_Close (n : Node) : Node := {| n_address := n_address n; n_zone := n_zone n; n_agentAddr := n_agentAddr n;
  n_agentToken := n_agentToken n; n_role := n_role n; n_weight := n_weight n; n_maxConns := n_maxConns n; n_adminDSN := n_adminDSN n;
  n_agent := n_agent n; n_peer := n_peer n; n_dataDir := n_dataDir n; n_limits := n_limits n; n_started := n_started n;
  n_closed := true |}.
Definition node_Start (ctx : list nat) (n : Node) : Node := {| n_address := n_address n; n_zone := n_zone n;
  n_agentAddr := n_agentAddr n; n_agentToken := n_agentToken n; n_role := n_role n; n_weight := n_weight n;
  n_maxConns := n_maxConns n; n_adminDSN := n_adminDSN n; n_agent := n_agent n; n_peer := n_peer n; n_dataDir := n_dataDir n;
  n_limits := n_limits n; n_started := Some ctx; n_closed := n_closed n |}.
Definition node_SetWeight (weight : Z) (n : Node) : Node := {| n_address := n_address n; n_zone := n_zone n;
  n_agentAddr := n_agentAddr n; n_agentToken := n_agentToken n; n_role := n_role n; n_weight := weight;
  n_maxConns := n_maxConns n; n_adminDSN := n_adminDSN n; n_agent := n_agent n; n_peer := n_peer n; n_dataDir := n_dataDir n;
  n_limits := n_limits n; n_started := n_started n; n_closed := n_closed n |}.

(** [SetPeerAddress], [SetDataDirectory] and [SetDatabaseLimits], as [CreateProxyState] calls them. *)
Definition node_place (peer : bytes) (dataDir : option bytes) (limited : bool) (n : Node) : Node := {| n_address := n_address n;
  n_zone := n_zone n; n_agentAddr := n_agentAddr n; n_agentToken := n_agentToken n; n_role := n_role n; n_weight := n_weight n;
  n_maxConns := n_maxConns n; n_adminDSN := n_adminDSN n; n_agent := n_agent n; n_peer := peer;
  n_dataDir := default (n_dataDir n) dataDir; n_limits := limited || n_limits n; n_started := n_started n;
  n_closed := n_closed n |}.

Definition alter_node (w : Fleet) (f : Node -> Node) (n : nat) : Fleet := set_nodes w (alter f n (nodes w)).
Definition close_nodes (w : Fleet) (l : list nat) : Fleet := foldl (fun w => alter_node w node_Close) w l.

Definition backends_of (w : Fleet) (ps : Proxy) : list nat := Slice.view (arrays w) (px_backends ps).
Definition address_of (w : Fleet) (n : nat) : bytes := from_option n_address [] (nodes w !! n).

(** *** Proxies *)

(** One turn of the loop of [CreateProxyState] over the configured backends. *)
Definition create_backend `{Defaults} (ctx : list nat) (maxConns : Z) (w : Fleet) (b : BackendSpec) : option nat * Fleet :=
  let '(addr, agentAddr) := backend_addresses (b_Address b) (b_AgentAddress b) in
  match NewServer w addr (b_Zone b) agentAddr (b_AgentToken b) (backend_role (b_Role b)) (backend_weight (b_Weight b)) maxConns
          (b_AdminDsn b) with
  | (Err _, w) => (None, w)
  | (Ok n, w) =>
      let w := alter_node w (node_place (b_PeerAddress b) (a_DataDirectory <$> b_AgentConfig b) limits) n in
      (Some n, alter_node w (node_Start ctx) n)
  end.

Fixpoint create_backends `{Defaults} (ctx : list nat) (maxConns : Z) (w : Fleet) (l : list BackendSpec) : list nat * Fleet :=
  match l with
  | [] => ([], w)
  | b :: l =>
      let '(n, w) := create_backend ctx maxConns w b in
      let '(ns, w) := create_backends ctx maxConns w l in
      (option_list n ++ ns, w)
  end.

(** [CreateProxyState] for the configuration at [c]; [listens] tells whether an address
    can be listened on. *)
Definition CreateProxyState `{Defaults} (listens : bytes -> bool) (w : Fleet) (ctx : list nat) (c : nat) (cfg : ProxyConfig) :
    result err Proxy * Fleet :=
  let '(ctx, w) := WithCancel w ctx in
  let '(ns, w) := create_backends ctx (p_MaxConns cfg) w (p_Backends cfg) in
  let '(l, w) := fresh w in
  let s := {| Slice.sl_array := l; Slice.sl_len := length ns |} in
  let w := set_arrays w (<[l := (Some <$> ns) ++ replicate (length (p_Backends cfg) - length ns) None]> (arrays w)) in
  if listens (p_Address cfg)
  then (Ok {| px_config := c; px_backends := s; px_captured := s; px_nodes := ns; px_targets := ns; px_ctx := ctx;
              px_listening := true |}, w)
  else (Err ListenFailed, close_nodes (cancel w (hd 0%nat ctx)) ns).

(** [state.Proxy.Stop]; the listener is closed in what is left of the proxy. *)
Definition proxy_Stop (w : Fleet) (ps : Proxy) : Fleet := close_nodes (cancel w (hd 0%nat (px_ctx ps))) (backends_of w ps).
Definition unlisten (ps : Proxy) : Proxy := {| px_config := px_config ps; px_backends := px_backends ps;
  px_captured := px_captured ps; px_nodes := px_nodes ps; px_targets := px_targets ps; px_ctx := px_ctx ps; px_listening := false |}.

(** *** Projects *)

Definition set_proxies (p : Project) (m : gmap bytes Proxy) : Project := {| pj_Id := pj_Id p; pj_Name := pj_Name p;
  pj_Protocol := pj_Protocol p; pj_CreatedAt := pj_CreatedAt p; pj_configs := pj_configs p; pj_proxies := m; pj_ctx := pj_ctx p;
  pj_readers := pj_readers p |}.
Definition set_proxy_configs (p : Project) (l : list nat) : Project := {| pj_Id := pj_Id p; pj_Name := pj_Name p;
  pj_Protocol := pj_Protocol p; pj_CreatedAt := pj_CreatedAt p; pj_configs := l; pj_proxies := pj_proxies p; pj_ctx := pj_ctx p;
  pj_readers := pj_readers p |}.

(** What [Upsert] writes: the project as it is now, objects and all. *)
Definition config_of (w : Fleet) (p : Project) : ProjectConfig := {| j_Id := pj_Id p; j_Name := pj_Name p;
  j_Protocol := pj_Protocol p; j_Proxies := omap (fun c => configs w !! c) (pj_configs p); j_CreatedAt := pj_CreatedAt p |}.

(** [UpsertProject]; [ok] is whether the store could write. *)
Definition UpsertProject (ok : bool) (w : Fleet) (p : Project) : option err * Fleet :=
  if ok then (None, set_stored w (<[pj_Id p := config_of w p]> (stored w))) else (Some StoreFailed, w).

Definition put_project (w : Fleet) (p : Project) : Fleet := set_projects w (<[pj_Id p := p]> (projects w)).
Definition GetProjectState (w : Fleet) (id : bytes) : result err Project :=
  match projects w !! id with Some p => Ok p | None => Err ProjectNotFound end.

(** A configuration object of one's own. *)
Definition new_config (w : Fleet) (cfg : ProxyConfig) : nat * Fleet :=
  let '(c, w) := fresh w in (c, set_configs w (<[c := cfg]> (configs w))).

(** The loop of [CreateProjectState] over the proxies; one that cannot be created is
    logged and left out. *)
Fixpoint create_proxies `{Defaults} (listens : bytes -> bool) (ctx : list nat) (w : Fleet) (l : list ProxyConfig)
    (acc : gmap bytes Proxy) : list nat * gmap bytes Proxy * Fleet :=
  match l with
  | [] => ([], acc, w)
  | cfg :: l =>
      let '(c, w) := new_config w cfg in
      let '(r, w) := CreateProxyState listens w ctx c cfg in
      let acc := match r with Ok ps => <[p_Id cfg := ps]> acc | Err _ => acc end in
      let '(cs, acc, w) := create_proxies listens ctx w l acc in
      (c :: cs, acc, w)
  end.

Definition CreateProjectState `{Defaults} (listens : bytes -> bool) (w : Fleet) (ctx : list nat) (pcfg : ProjectConfig) :
    Project * Fleet :=
  let '(ctx, w) := WithCancel w ctx in
  let '(cs, m, w) := create_proxies listens ctx w (j_Proxies pcfg) ∅ in
  ({| pj_Id := j_Id pcfg; pj_Name := j_Name pcfg; pj_Protocol := j_Protocol pcfg; pj_CreatedAt := j_CreatedAt pcfg;
      pj_configs := cs; pj_proxies := m; pj_ctx := ctx; pj_readers := 0 |}, w).

(** [Project.Stop]: the proxies in the order the map is ranged over does not matter, as
    they share no backend. *)
Definition project_Stop (w : Fleet) (p : Project) : Fleet :=
  foldl (fun w kp => proxy_Stop w (snd kp)) (cancel w (hd 0%nat (pj_ctx p))) (map_to_list (pj_proxies p)).

(** [NewRegistry]: the projects of the store are started, in the order [List] answers;
    [ctx] is the context of the application. *)
Definition load_project `{Defaults} (listens : bytes -> bool) (ctx : list nat) (w : Fleet) (pcfg : ProjectConfig) : Fleet :=
  let '(p, w) := CreateProjectState listens w ctx pcfg in
  set_projects w (<[j_Id pcfg := p]> (projects w)).
Definition no_fleet (store : gmap bytes ProjectConfig) : Fleet := {| arrays := ∅; configs := ∅; nodes := ∅; cancelled := ∅;
  projects := ∅; stored := store; next := 1 |}.
Definition NewRegistry `{Defaults} (listens : bytes -> bool) (store : gmap bytes ProjectConfig) : Fleet :=
  foldl (load_project listens [0%nat]) (no_fleet store) (map snd (map_to_list store)).

(** ** The managers *)

(** A call that writes waits for the lock of the project. *)
Definition lock (p : Project) : option err := if decide (pj_readers p = 0)%nat then None else Some Blocked.

(** [Project.CreateProject]: [request] is the context of the call, [id] and [ids] are
    what [uuid.New] gives. *)
Fixpoint with_ids (l : list ProxyConfig) (ids : list bytes) : list ProxyConfig :=
  match l with
  | [] => []
  | c :: l =>
      if decide (p_Id c = [])
      then {| p_Id := hd [] ids; p_Name := p_Name c; p_Address := p_Address c; p_Backends := p_Backends c;
              p_Balancer := p_Balancer c; p_MaxConns := p_MaxConns c |} :: with_ids l (tl ids)
      else c :: with_ids l ids
  end.

Definition CreateProject `{Defaults} (listens : bytes -> bool) (ok : bool) (w : Fleet) (request : list nat)
    (project : option ProjectConfig) (id : bytes) (ids : list bytes) (now : Z) : result err ProjectConfig * Fleet :=
  let pcfg := default {| j_Id := []; j_Name := []; j_Protocol := []; j_Proxies := []; j_CreatedAt := 0 |} project in
  let pcfg := {| j_Id := id; j_Name := j_Name pcfg; j_Protocol := j_Protocol pcfg;
                 j_Proxies := with_ids (j_Proxies pcfg) ids; j_CreatedAt := now |} in
  let '(p, w) := CreateProjectState listens w request pcfg in
  match UpsertProject ok w p with
  | (Some e, w) => (Err e, project_Stop w p)
  | (None, w) => (Ok pcfg, put_project w p)
  end.

(** [Project.DeleteProject]. *)
Definition DeleteProject (ok : bool) (w : Fleet) (id : bytes) : result err unit * Fleet :=
  match GetProjectState w id with
  | Err e => (Err e, w)
  | Ok p =>
      let w := project_Stop w p in
      let w := set_projects w (delete id (projects w)) in
      if ok then (Ok tt, set_stored w (delete id (stored w))) else (Err StoreFailed, w)
  end.

(** [Proxy.AddProxy]; [id] is what [uuid.New] gives. *)
Definition AddProxy `{Defaults} (listens : bytes -> bool) (ok : bool) (w : Fleet) (projectId : bytes)
    (proxy : option ProxyConfig) (id : bytes) : result err ProxyConfig * Fleet :=
  match GetProjectState w projectId with
  | Err e => (Err e, w)
  | Ok p =>
      let cfg := default {| p_Id := []; p_Name := []; p_Address := []; p_Backends := []; p_Balancer := []; p_MaxConns := 0 |} proxy in
      let cfg := hd cfg (with_ids [cfg] [id]) in
      match lock p with
      | Some e => (Err e, w)
      | None =>
          let '(c, w) := new_config w cfg in
          match CreateProxyState listens w (pj_ctx p) c cfg with
          | (Err e, w) => (Err e, w)
          | (Ok ps, w) =>
              let p := set_proxy_configs (set_proxies p (<[p_Id cfg := ps]> (pj_proxies p))) (pj_configs p ++ [c]) in
              let w := put_project w p in
              match UpsertProject ok w p with
              | (Some e, w) =>
                  (Err e, put_project (proxy_Stop w ps) (set_proxies p (delete (p_Id cfg) (pj_proxies p))))
              | (None, w) => (Ok cfg, w)
              end
          end
      end
  end.

(** The position of the first configuration with this identifier. *)
Definition config_index (w : Fleet) (id : bytes) (l : list nat) : option nat :=
  fst <$> list_find (fun c => from_option p_Id [] (configs w !! c) = id) l.

(** [Proxy.RemoveProxy]. *)
Definition RemoveProxy (ok : bool) (w : Fleet) (projectId proxyId : bytes) : result err unit * Fleet :=
  match GetProjectState w projectId with
  | Err e => (Err e, w)
  | Ok p =>
      match lock p with
      | Some e => (Err e, w)
      | None =>
          match pj_proxies p !! proxyId with
          | None => (Err ProxyNotFound, w)
          | Some ps =>
              let w := proxy_Stop w ps in
              let p := set_proxies p (delete proxyId (pj_proxies p)) in
              let p := match config_index w proxyId (pj_configs p) with
                       | Some i => set_proxy_configs p (delete i (pj_configs p))
                       | None => p
                       end in
              let w := put_project w p in
              match UpsertProject ok w p with (Some e, w) => (Err e, w) | (None, w) => (Ok tt, w) end
          end
      end
  end.

(** [Proxy.UpdateProxy]: only another address restarts the proxy. *)
Definition UpdateProxy `{Defaults} (listens : bytes -> bool) (ok : bool) (w : Fleet) (projectId : bytes)
    (proxy : option ProxyConfig) : result err unit * Fleet :=
  match GetProjectState w projectId with
  | Err e => (Err e, w)
  | Ok p =>
      match lock p, proxy with
      | Some e, _ => (Err e, w)
      | None, None => (Err Panicked, w)
      | None, Some cfg =>
          match pj_proxies p !! p_Id cfg with
          | None => (Err ProxyNotFound, w)
          | Some ps =>
              let '(c, w) := new_config w cfg in
              let restarted :=
                if decide (from_option p_Address [] (configs w !! px_config ps) <> p_Address cfg)
                then
                  let w := proxy_Stop w ps in
                  let w := put_project w (set_proxies p (<[p_Id cfg := unlisten ps]> (pj_proxies p))) in
                  CreateProxyState listens w (pj_ctx p) c cfg
                else (Ok {| px_config := c; px_backends := px_backends ps; px_captured := px_captured ps; px_nodes := px_nodes ps;
                            px_targets := px_targets ps; px_ctx := px_ctx ps; px_listening := px_listening ps |}, w) in
              match restarted with
              | (Err e, w) => (Err e, w)
              | (Ok ps, w) =>
                  let p := set_proxies p (<[p_Id cfg := ps]> (pj_proxies p)) in
                  let p := match config_index w (p_Id cfg) (pj_configs p) with
                           | Some i => set_proxy_configs p (<[i := c]> (pj_configs p))
                           | None => p
                           end in
                  let w := put_project w p in
                  match UpsertProject ok w p with (Some e, w) => (Err e, w) | (None, w) => (Ok tt, w) end
              end
          end
      end
  end.

(** *** The backend manager *)

(** A call to an agent: refused, or a stream of progress that ends well or in an error. *)
Inductive agent_call := Refused | Streamed (progress : list (bytes * Z * bytes)) (ending : option bytes).

(** The receiving loop of [AddBackend]: the progress is only logged. *)
Definition drained (a : agent_call) : bool := match a with Streamed _ None => true | _ => false end.

(** The addresses [AddBackend] fills in, in the request itself. *)
Definition fill_addresses (b : BackendSpec) : option BackendSpec :=
  let agentAddr :=
    if decide (b_AgentAddress b = [])
    then if decide (b_Address b <> [])
         then Some (JoinHostPort (from_option fst [] (SplitHostPort (b_Address b))) (bs "9091"))
         else None
    else Some (b_AgentAddress b) in
  match agentAddr with
  | None => None
  | Some agentAddr =>
      let address :=
        if decide (b_Address b = [])
        then JoinHostPort (from_option fst agentAddr (SplitHostPort agentAddr)) (bs "5432")
        else b_Address b in
      Some {| b_Address := address; b_Zone := b_Zone b; b_Role := b_Role b; b_Weight := b_Weight b;
              b_ManagedByAgent := b_ManagedByAgent b; b_AgentAddress := agentAddr; b_AgentToken := b_AgentToken b;
              b_AdminDsn := b_AdminDsn b; b_PeerAddress := b_PeerAddress b; b_AgentConfig := b_AgentConfig b |}
  end.

(** What [AddBackend] has the agent do before the backend is started: nothing, or the
    reason to give the backend up. *)
Definition prepare_node (n : Node) (b : BackendSpec) (install initialize : agent_call) : option err :=
  let asked := match b_AgentConfig b with Some a => b_ManagedByAgent b && a_InstallIfMissing a | None => false end in
  if asked && negb (n_agent n) then Some Panicked
  else if asked && negb (drained install) then Some InstallFailed
  else if b_ManagedByAgent b && bool_decide (is_Some (b_AgentConfig b))
  then if negb (n_agent n) then Some AgentUnreachable
       else if drained initialize then None else Some InitializeFailed
  else None.

Definition set_slice (ps : Proxy) (s : Slice.slice) : Proxy := {| px_config := px_config ps; px_backends := s;
  px_captured := px_captured ps; px_nodes := px_nodes ps; px_targets := px_targets ps; px_ctx := px_ctx ps;
  px_listening := px_listening ps |}.

(** [ps.Config.Backends = l], in the object the project holds as well. *)
Definition write_backends (w : Fleet) (ps : Proxy) (l : list BackendSpec) : Fleet :=
  set_configs w (alter (fun c => set_backends c l) (px_config ps) (configs w)).
Definition config_backends (w : Fleet) (ps : Proxy) : list BackendSpec := from_option p_Backends [] (configs w !! px_config ps).

(** The last part of [AddBackend]: the backend is started and becomes one of the proxy,
    in its slice and in its configuration, unless the store cannot write it; [spare] is
    what the runtime adds to an array that grows. *)
Definition adopt_backend (ok : bool) (spare : nat) (w : Fleet) (p : Project) (proxyId : bytes) (ps : Proxy) (b : BackendSpec)
    (n : nat) : option err * Fleet :=
  let w := alter_node w (node_Start (px_ctx ps)) n in
  let '(l, w) := fresh w in
  let '(h, s) := Slice.append (arrays w) l spare (px_backends ps) n in
  let old := config_backends w ps in
  let w := write_backends (set_arrays w h) ps (old ++ [b]) in
  let w := put_project w (set_proxies p (<[proxyId := set_slice ps s]> (pj_proxies p))) in
  match UpsertProject ok w p with
  | (None, w) => (None, w)
  | (Some e, w) =>
      let w := write_backends (alter_node w node_Close n) ps old in
      let s := {| Slice.sl_array := Slice.sl_array s; Slice.sl_len := Slice.sl_len s - 1 |} in
      (Some e, put_project w (set_proxies p (<[proxyId := set_slice ps s]> (pj_proxies p))))
  end.

(** [Backend.AddBackend]. *)
Definition AddBackend `{Defaults} (ok : bool) (spare : nat) (install initialize : agent_call) (w : Fleet)
    (projectId proxyId : bytes) (config : option BackendSpec) : option err * Fleet :=
  match GetProjectState w projectId with
  | Err e => (Some e, w)
  | Ok p =>
      match lock p, pj_proxies p !! proxyId, config with
      | Some e, _, _ => (Some e, w)
      | None, None, _ => (Some ProxyNotFound, w)
      | None, Some _, None => (Some Panicked, w)
      | None, Some ps, Some b =>
          match fill_addresses b with
          | None => (Some AgentMandatory, w)
          | Some b =>
              let maxConns := from_option p_MaxConns 0 (configs w !! px_config ps) in
              match NewServer w (b_Address b) (b_Zone b) (b_AgentAddress b) (b_AgentToken b) (backend_role (b_Role b))
                      (backend_weight (b_Weight b)) maxConns (b_AdminDsn b) with
              | (Err e, w) => (Some e, w)
              | (Ok n, w) =>
                  match nodes w !! n ≫= fun node => prepare_node node b install initialize with
                  | Some Panicked => (Some Panicked, w)
                  | Some e => (Some e, alter_node w node_Close n)
                  | None => adopt_backend ok spare w p proxyId ps b n
                  end
              end
          end
      end
  end.

(** [slices.IndexFunc] over the running backends, and the loop over the configured ones. *)
Definition node_index (w : Fleet) (ps : Proxy) (address : bytes) : option (nat * nat) :=
  list_find (fun n => address_of w n = address) (backends_of w ps).
Definition spec_index (l : list BackendSpec) (address : bytes) : option (nat * BackendSpec) :=
  list_find (fun b => b_Address b = address) l.

(** [Backend.RemoveBackend]: what the agent answers is ignored, but a managed backend
    without a configuration of its agent is a nil dereference. *)
Definition RemoveBackend (ok : bool) (w : Fleet) (projectId proxyId address : bytes) : option err * Fleet :=
  match GetProjectState w projectId with
  | Err e => (Some e, w)
  | Ok p =>
      match lock p, pj_proxies p !! proxyId with
      | Some e, _ => (Some e, w)
      | None, None => (Some ProxyNotFound, w)
      | None, Some ps =>
          match node_index w ps address with
          | None => (Some BackendNotFound, w)
          | Some (i, n) =>
              let found := spec_index (config_backends w ps) address in
              let w := match found with
                       | Some (k, _) => write_backends w ps (delete k (config_backends w ps))
                       | None => w
                       end in
              let agent := from_option n_agent false (nodes w !! n) in
              if match found with
                 | Some (_, b) => b_ManagedByAgent b && agent && negb (bool_decide (is_Some (b_AgentConfig b)))
                 | None => false
                 end
              then (Some Panicked, w)
              else
                let w := alter_node w node_Close n in
                let '(h, s) := Slice.remove_at (arrays w) (px_backends ps) i in
                let w := put_project (set_arrays w h) (set_proxies p (<[proxyId := set_slice ps s]> (pj_proxies p))) in
                UpsertProject ok w p
          end
      end
  end.

(** [Backend.UpdateBackend]: the weight is applied, everything else only stored. *)
Definition UpdateBackend (ok : bool) (w : Fleet) (projectId proxyId address : bytes) (config : option BackendSpec) :
    option err * Fleet :=
  match GetProjectState w projectId with
  | Err e => (Some e, w)
  | Ok p =>
      match lock p, pj_proxies p !! proxyId with
      | Some e, _ => (Some e, w)
      | None, None => (Some ProxyNotFound, w)
      | None, Some ps =>
          match node_index w ps address, config with
          | None, _ => (Some BackendNotFound, w)
          | Some _, None => (Some Panicked, w)
          | Some (i, n), Some b =>
              let w := alter_node w (node_SetWeight (b_Weight b)) n in
              let w := match spec_index (config_backends w ps) address with
                       | Some (k, _) => write_backends w ps (<[k := b]> (config_backends w ps))
                       | None => w
                       end in
              UpsertProject ok w p
          end
      end
  end.

(** [Backend.findBackend]. *)
Definition findBackend (w : Fleet) (projectId proxyId address : bytes) : result err nat :=
  match GetProjectState w projectId with
  | Err e => Err e
  | Ok p =>
      match pj_proxies p !! proxyId with
      | None => Err ProxyNotFound
      | Some ps => match node_index w ps address with Some (_, n) => Ok n | None => Err BackendNotFound end
      end
  end.

(** [Backend.DiscoverCluster]: [dialled] is the connection to the primary and what
    [DiscoverTopology] reads over it; [oks] and [spares] what the additions meet.  A
    proxy that does not exist is dereferenced under the read lock. *)
Definition discovered (addr : bytes) : BackendSpec := {| b_Address := addr; b_Zone := []; b_Role := bs "replica"; b_Weight := 0;
  b_ManagedByAgent := false; b_AgentAddress := []; b_AgentToken := []; b_AdminDsn := []; b_PeerAddress := [];
  b_AgentConfig := None |}.

Fixpoint add_discovered `{Defaults} (oks : nat -> bool) (spares : nat -> nat) (w : Fleet) (projectId proxyId : bytes)
    (i : nat) (addrs : list bytes) : result err (list bytes) * Fleet :=
  match addrs with
  | [] => (Ok [], w)
  | addr :: addrs =>
      match projects w !! projectId with
      | None => (Err ProjectNotFound, w)
      | Some p =>
          match pj_proxies p !! proxyId with
          | None => (Err Panicked, put_project w {| pj_Id := pj_Id p; pj_Name := pj_Name p; pj_Protocol := pj_Protocol p;
                      pj_CreatedAt := pj_CreatedAt p; pj_configs := pj_configs p; pj_proxies := pj_proxies p; pj_ctx := pj_ctx p;
                      pj_readers := S (pj_readers p) |})
          | Some ps =>
              let '(added, w) :=
                if decide (addr ∈ map b_Address (config_backends w ps)) then ([], w)
                else match AddBackend (oks i) (spares i) Refused Refused w projectId proxyId (Some (discovered addr)) with
                     | (None, w) => ([addr], w)
                     | (Some _, w) => ([], w)
                     end in
              match add_discovered oks spares w projectId proxyId (S i) addrs with
              | (Ok rest, w) => (Ok (added ++ rest), w)
              | (Err e, w) => (Err e, w)
              end
          end
      end
  end.

Definition DiscoverCluster `{Defaults} (oks : nat -> bool) (spares : nat -> nat) (w : Fleet) (projectId proxyId : bytes)
    (topology : option (list bytes)) : result err (list bytes * list bytes) * Fleet :=
  match GetProjectState w projectId with
  | Err e => (Err e, w)
  | Ok _ =>
      match topology with
      | None => (Err DiscoveryFailed, w)
      | Some addrs =>
          match add_discovered oks spares w projectId proxyId 0 addrs with
          | (Ok added, w) => (Ok (addrs, added), w)
          | (Err e, w) => (Err e, w)
          end
      end
  end.
