(* ===== verification/FleetRestart.v ===== *)
(** * Restarts of the management plane

    What the operations of Fleet.v keep true of a fleet of projects: every running
    proxy has a configuration, an array and backends of its own, runs what its
    configuration says, and what is stored is what runs.  From that: a restart
    resumes what ran, a failed addition is undone, and what the operations do not
    reach.  The examples at the end run the operations on a small fleet. *)
From Stdlib Require Import ZArith Lia Strings.String.
From stdpp Require Import base gmap list numbers option relations sorting.
From S2P Require Import Prelude Format Config Fleet.
#[local] Open Scope Z_scope.

(** ** What a proxy lists, and what a restart would start

    [listed] is what the slice of a proxy holds, each backend by what it is reached
    by and counted as.  Whether a backend is open, started and under a context that
    has not ended is [alive], and is stated apart: of the backends a proxy lists it
    need not hold, as of a project whose request has ended
    ([created_project_ends_with_its_request] below). *)

(** What a backend is reached by and counted as. *)
Definition desc : Type := bytes * bytes * bytes * bytes * bytes * Z * Z * bytes.
Definition node_desc (n : Node) : desc :=
  (n_address n, n_zone n, n_agentAddr n, n_agentToken n, n_role n, n_weight n, n_maxConns n, n_adminDSN n).
Definition spec_desc (maxConns : Z) (b : BackendSpec) : desc :=
  let '(addr, agentAddr) := backend_addresses (b_Address b) (b_AgentAddress b) in
  (addr, b_Zone b, agentAddr, b_AgentToken b, backend_role (b_Role b), backend_weight (b_Weight b), maxConns, b_AdminDsn b).

Definition desc_at (w : Fleet) (n : nat) : option desc := node_desc <$> nodes w !! n.
Definition listed_of (w : Fleet) (ps : Proxy) : list (option desc) := desc_at w <$> backends_of w ps.
Definition proxy_at (w : Fleet) (a : bytes * bytes) : option Proxy := projects w !! fst a ≫= fun p => pj_proxies p !! snd a.
Definition listed (w : Fleet) (a : bytes * bytes) : option (list (option desc)) := listed_of w <$> proxy_at w a.

(** A backend that is open and started under a context that is not done. *)
Definition alive (w : Fleet) (n : nat) : Prop :=
  exists x ctx, nodes w !! n = Some x /\ n_closed x = false /\ n_started x = Some ctx /\ done w ctx = false.

(** What the store says a proxy lists. *)
Definition find_config (k : bytes) (l : list ProxyConfig) : option ProxyConfig := snd <$> list_find (fun c => p_Id c = k) l.
Definition configured (cfg : ProxyConfig) : list (option desc) := (fun b => Some (spec_desc (p_MaxConns cfg) b)) <$> p_Backends cfg.
Definition stored_listed (s : gmap bytes ProjectConfig) (a : bytes * bytes) : option (list (option desc)) :=
  configured <$> (s !! fst a ≫= fun j => find_config (snd a) (j_Proxies j)).

(** A backend whose own address is given. *)
Definition addressed (b : BackendSpec) : Prop := b_Address b <> [].

(** The locations a running proxy uses. *)
Definition uses (w : Fleet) (ps : Proxy) (l : nat) : Prop :=
  l = px_config ps \/ l = Slice.sl_array (px_backends ps) \/ l ∈ backends_of w ps.

Record wf_proxy (w : Fleet) (k : bytes) (ps : Proxy) : Prop := {
  wf_sound : Slice.sound (arrays w) (px_backends ps);
  wf_nodup : NoDup (backends_of w ps);
  wf_config : exists cfg, configs w !! px_config ps = Some cfg /\ p_Id cfg = k /\ Forall addressed (p_Backends cfg) /\
                listed_of w ps = configured cfg
}.

Record Inv (w : Fleet) : Prop := {
  inv_project j p : projects w !! j = Some p -> pj_Id p = j /\ NoDup (pj_configs p);
  inv_listed j p c : projects w !! j = Some p -> c ∈ pj_configs p ->
    exists k ps, pj_proxies p !! k = Some ps /\ px_config ps = c;
  inv_running j p k ps : projects w !! j = Some p -> pj_proxies p !! k = Some ps -> px_config ps ∈ pj_configs p;
  inv_proxy a ps : proxy_at w a = Some ps -> wf_proxy w (snd a) ps;
  inv_own a b ps qs l : proxy_at w a = Some ps -> proxy_at w b = Some qs -> uses w ps l -> uses w qs l -> a = b;
  inv_next a ps l : proxy_at w a = Some ps -> uses w ps l -> (l < next w)%nat;
  inv_stored j : stored w !! j = (fun p => config_of w p) <$> projects w !! j
}.

(** The guards a call passes before it reaches its proxy; where one refuses, nothing
    changes. *)
Ltac reach_proxy w j k p ps Hj Hk :=
  destruct (projects w !! j) as [p|] eqn:Hj; [|by intros [= <- <-]];
  destruct (lock p); [by intros [= <- <-]|];
  destruct (pj_proxies p !! k) as [ps|] eqn:Hk; [|by intros [= <- <-]].

(** *** Frames *)

(** The same objects at a location. *)
Definition same_at (w w' : Fleet) (l : nat) : Prop :=
  configs w' !! l = configs w !! l /\ arrays w' !! l = arrays w !! l /\ desc_at w' l = desc_at w l.

Lemma view_frame w w' ps : arrays w' !! Slice.sl_array (px_backends ps) = arrays w !! Slice.sl_array (px_backends ps) ->
  backends_of w' ps = backends_of w ps.
Proof. unfold backends_of, Slice.view, Slice.cells. by intros ->. Qed.

Lemma wf_frame w w' k ps : wf_proxy w k ps -> (forall l, uses w ps l -> same_at w w' l) ->
  wf_proxy w' k ps /\ backends_of w' ps = backends_of w ps /\ listed_of w' ps = listed_of w ps.
Proof.
  intros [Hs Hn (cfg & Hc & Hk & Ha & Hr)] Hf.
  assert (backends_of w' ps = backends_of w ps) as Hb by (apply view_frame, (Hf _); unfold uses; tauto).
  assert (listed_of w' ps = listed_of w ps) as Hr'.
  { unfold listed_of. rewrite Hb. apply list_fmap_ext. intros i l Hl%list_elem_of_lookup_2. apply Hf. by right; right. }
  split_and!; [|done|done]. split.
  - unfold Slice.sound, Slice.cells in *. by destruct (Hf (Slice.sl_array (px_backends ps))) as (_ & -> & _); [unfold uses; tauto|].
  - by rewrite Hb.
  - exists cfg. destruct (Hf (px_config ps)) as (-> & _); [unfold uses; tauto|]. rewrite Hr'. done.
Qed.

Lemma proxy_at_insert w w' j p k ps' a :
  projects w !! j = Some p -> projects w' = <[j := set_proxies p (<[k := ps']> (pj_proxies p))]> (projects w) ->
  proxy_at w' a = if decide (a = (j, k)) then Some ps' else proxy_at w a.
Proof.
  intros Hj Hw. destruct a as [j' k']. unfold proxy_at. cbn [fst snd]. rewrite Hw.
  destruct (decide (j' = j)) as [->|]; [|rewrite lookup_insert_ne by done; by rewrite decide_False by congruence].
  rewrite lookup_insert_eq, Hj. cbn.
  destruct (decide (k' = k)) as [->|]; [by rewrite lookup_insert_eq, decide_True|].
  by rewrite lookup_insert_ne, decide_False by congruence.
Qed.

Lemma config_of_frame w w' p : (forall c, c ∈ pj_configs p -> configs w' !! c = configs w !! c) -> config_of w' p = config_of w p.
Proof.
  intros H. unfold config_of. f_equal. induction (pj_configs p) as [|c l IH]; [done|].
  cbn. rewrite H by constructor. rewrite IH; [done|]. intros c' Hc. apply H. by constructor.
Qed.

(** The configuration of another project is none of this proxy's locations. *)
Lemma listed_uses w j p c : Inv w -> projects w !! j = Some p -> c ∈ pj_configs p ->
  exists k ps, proxy_at w (j, k) = Some ps /\ uses w ps c /\ px_config ps = c.
Proof.
  intros HI Hj Hc. destruct (inv_listed _ HI j p c Hj Hc) as (k & ps & Hk & <-). exists k, ps.
  unfold proxy_at. cbn. rewrite Hj. cbn. unfold uses. tauto.
Qed.

(** One proxy is put in its place, or a new one added, and no other is touched: what the
    invariant says of the proxies and of what is theirs alone. *)
Lemma inv_placed w w' x ps' :
  Inv w -> (forall a, proxy_at w' a = if decide (a = x) then Some ps' else proxy_at w a) ->
  wf_proxy w' (snd x) ps' -> (next w <= next w')%nat ->
  (forall a qs, a <> x -> proxy_at w a = Some qs ->
     wf_proxy w' (snd a) qs /\ backends_of w' qs = backends_of w qs /\ listed_of w' qs = listed_of w qs) ->
  (forall l, uses w' ps' l -> (exists ps, proxy_at w x = Some ps /\ uses w ps l) \/ (next w <= l < next w')%nat) ->
  (forall a qs, proxy_at w' a = Some qs -> wf_proxy w' (snd a) qs) /\
  (forall a b qs rs l, proxy_at w' a = Some qs -> proxy_at w' b = Some rs -> uses w' qs l -> uses w' rs l -> a = b) /\
  (forall a qs l, proxy_at w' a = Some qs -> uses w' qs l -> (l < next w')%nat).
Proof.
  intros HI Hpa Hwf Hnext Hoth Hfoot.
  assert (forall a qs l, a <> x -> proxy_at w a = Some qs -> uses w' qs l -> uses w qs l /\ (l < next w)%nat) as Huse.
  { intros a qs l Ha Hq Hl. assert (uses w qs l) as Hu by (revert Hl; unfold uses; by destruct (Hoth a qs Ha Hq) as (_ & -> & _)).
    split; [done|]. by eapply inv_next. }
  assert (forall a qs l, a <> x -> proxy_at w a = Some qs -> uses w' qs l -> uses w' ps' l -> a = x) as Hone.
  { intros a qs l Ha Hq Hl Hl'. destruct (Huse a qs l Ha Hq Hl) as [Hu Hlt].
    destruct (Hfoot l Hl') as [(ps & Hps & Hl2)|?]; [by eapply inv_own|lia]. }
  split_and!.
  - intros a qs. rewrite Hpa. case_decide as Ha; [subst; by intros [= <-]|]. intros Hq. by apply (Hoth a qs).
  - intros a b qs rs l. rewrite !Hpa.
    destruct (decide (a = x)) as [->|Na], (decide (b = x)) as [->|Nb]; intros Ea Eb Ha Hb; simplify_eq; try done.
    + symmetry. by eapply Hone.
    + by eapply Hone.
    + destruct (Huse _ _ _ Na Ea Ha), (Huse _ _ _ Nb Eb Hb). by eapply inv_own.
  - intros a qs l. rewrite Hpa. case_decide as Ha; intros Hq Hl.
    + injection Hq as <-. destruct (Hfoot l Hl) as [(ps & Hps & Hu)|?]; [|lia]. pose proof (inv_next _ HI _ _ _ Hps Hu). lia.
    + destruct (Huse _ _ _ Ha Hq Hl). lia.
Qed.

(** A change that stays within one proxy keeps the invariant. *)
Lemma inv_local w w' j p k ps ps' :
  Inv w -> projects w !! j = Some p -> pj_proxies p !! k = Some ps ->
  projects w' = <[j := set_proxies p (<[k := ps']> (pj_proxies p))]> (projects w) ->
  px_config ps' = px_config ps -> wf_proxy w' k ps' -> (next w <= next w')%nat ->
  (forall l, uses w' ps' l -> uses w ps l \/ (next w <= l < next w')%nat) ->
  (forall l, (l < next w)%nat -> ~ uses w ps l -> same_at w w' l) ->
  (forall j', j' <> j -> stored w' !! j' = stored w !! j') -> stored w' !! j = Some (config_of w' p) ->
  Inv w' /\ (forall a, a <> (j, k) -> listed w' a = listed w a).
Proof.
  intros HI Hj Hk Hw Hcfg Hwf Hnext Hfoot Hsame Hst Hstj.
  assert (proxy_at w (j, k) = Some ps) as Hat by (unfold proxy_at; cbn; by rewrite Hj).
  pose proof (fun a => proxy_at_insert w w' j p k ps' a Hj Hw) as Hpa.
  assert (forall a qs, a <> (j, k) -> proxy_at w a = Some qs -> forall l, uses w qs l -> same_at w w' l) as Hfr.
  { intros a qs Ha Hq l Hl. apply Hsame; [eapply inv_next; eauto|]. intros Hu. apply Ha. eapply inv_own; eauto. }
  assert (forall a qs, a <> (j, k) -> proxy_at w a = Some qs ->
            wf_proxy w' (snd a) qs /\ backends_of w' qs = backends_of w qs /\ listed_of w' qs = listed_of w qs) as Hoth.
  { intros a qs Ha Hq. apply wf_frame; [by eapply inv_proxy|by eapply Hfr]. }
  destruct (inv_placed w w' (j, k) ps' HI Hpa Hwf Hnext Hoth) as (P1 & P2 & P3).
  { intros l Hl. destruct (Hfoot l Hl); [left; by exists ps|by right]. }
  split.
  2: { intros a Ha. unfold listed. rewrite Hpa, decide_False by done. destruct (proxy_at w a) as [qs|] eqn:E; [|done].
       cbn. f_equal. by apply (Hoth a qs). }
  split.
  - intros j' p' Hp'. rewrite Hw in Hp'. destruct (decide (j' = j)) as [->|].
    + rewrite lookup_insert_eq in Hp'. injection Hp' as <-. cbn. by eapply inv_project.
    + rewrite lookup_insert_ne in Hp' by done. by eapply inv_project.
  - intros j' p' c Hp' Hc. rewrite Hw in Hp'. destruct (decide (j' = j)) as [->|].
    + rewrite lookup_insert_eq in Hp'. injection Hp' as <-. cbn in *.
      destruct (inv_listed _ HI j p c Hj Hc) as (k' & qs & Hk' & <-).
      destruct (decide (k' = k)) as [->|].
      * exists k, ps'. rewrite lookup_insert_eq. split; [done|]. congruence.
      * exists k', qs. by rewrite lookup_insert_ne.
    + rewrite lookup_insert_ne in Hp' by done. by eapply inv_listed.
  - intros j' p' k' qs Hp' Hk'. rewrite Hw in Hp'. destruct (decide (j' = j)) as [->|].
    + rewrite lookup_insert_eq in Hp'. injection Hp' as <-. cbn in *. destruct (decide (k' = k)) as [->|].
      * rewrite lookup_insert_eq in Hk'. injection Hk' as <-. rewrite Hcfg. by eapply inv_running.
      * rewrite lookup_insert_ne in Hk' by done. by eapply inv_running.
    + rewrite lookup_insert_ne in Hp' by done. by eapply inv_running.
  - exact P1.
  - exact P2.
  - exact P3.
  - intros j'. rewrite Hw. destruct (decide (j' = j)) as [->|Hj'].
    { rewrite lookup_insert_eq, Hstj. done. }
    rewrite lookup_insert_ne, Hst, (inv_stored _ HI) by done.
    destruct (projects w !! j') as [p'|] eqn:E; [|done]. cbn. f_equal. symmetry. apply config_of_frame.
    intros c Hc. destruct (listed_uses w j' p' c HI E Hc) as (k' & qs & Hq & Hu & _).
    assert ((j', k') <> (j, k)) as Hne by congruence. by apply (Hfr _ _ Hne Hq).
Qed.

(** *** Single operations *)

Lemma desc_alter w f n l : (forall x, node_desc (f x) = node_desc x) -> desc_at (alter_node w f n) l = desc_at w l.
Proof.
  intros Hf. unfold desc_at, alter_node. cbn. destruct (decide (n = l)) as [->|].
  - rewrite lookup_alter_eq. destruct (nodes w !! l); cbn; [by rewrite Hf|done].
  - by rewrite lookup_alter_ne.
Qed.

(** New objects beside the old ones. *)
Lemma inv_grow w w' : Inv w -> projects w' = projects w -> stored w' = stored w -> (next w <= next w')%nat ->
  (forall l, (l < next w)%nat -> same_at w w' l) -> Inv w' /\ (forall a, listed w' a = listed w a).
Proof.
  intros HI Hp Hs Hn Hsame.
  assert (forall a, proxy_at w' a = proxy_at w a) as Hpa by (intros a; unfold proxy_at; by rewrite Hp).
  assert (forall a ps, proxy_at w a = Some ps ->
    wf_proxy w' (snd a) ps /\ backends_of w' ps = backends_of w ps /\ listed_of w' ps = listed_of w ps) as Hfr.
  { intros a ps Ha. apply wf_frame; [by eapply inv_proxy|]. intros l Hl. apply Hsame. by eapply inv_next. }
  assert (forall a ps l, proxy_at w a = Some ps -> uses w' ps l -> uses w ps l) as Huse.
  { intros a ps l Ha. unfold uses. by destruct (Hfr a ps Ha) as (_ & -> & _). }
  split.
  2: { intros a. unfold listed. rewrite Hpa. destruct (proxy_at w a) eqn:E; [|done]. cbn. f_equal. by eapply Hfr. }
  split.
  - rewrite Hp. apply HI.
  - rewrite Hp. apply HI.
  - rewrite Hp. apply HI.
  - intros a ps. rewrite Hpa. intros Ha. by eapply Hfr.
  - intros a b ps qs l. rewrite !Hpa. intros Ha Hb Hla Hlb. eapply (inv_own _ HI); eauto.
  - intros a ps l. rewrite Hpa. intros Ha Hl. pose proof (inv_next _ HI _ _ _ Ha (Huse _ _ _ Ha Hl)). lia.
  - intros j. rewrite Hs, Hp, (inv_stored _ HI). destruct (projects w !! j) as [p|] eqn:E; [|done]. cbn. f_equal.
    symmetry. apply config_of_frame. intros c Hc.
    destruct (listed_uses w j p c HI E Hc) as (k & ps & Hps & Hu & _). apply Hsame. by eapply inv_next.
Qed.

Lemma JoinHostPort_nonempty h p : JoinHostPort h p <> [].
Proof. unfold JoinHostPort. case_decide; [done|]. by destruct h. Qed.

Lemma fill_addressed b b' : fill_addresses b = Some b' ->
  b_Address b' <> [] /\ b_AgentAddress b' <> [] /\
  b_Zone b' = b_Zone b /\ b_Role b' = b_Role b /\ b_Weight b' = b_Weight b /\ b_AgentToken b' = b_AgentToken b /\
  b_AdminDsn b' = b_AdminDsn b.
Proof.
  pose proof JoinHostPort_nonempty as HJ. unfold fill_addresses. repeat case_decide; intros [= <-]; cbn; auto 10.
Qed.

Lemma spec_desc_filled m b b' : fill_addresses b = Some b' ->
  spec_desc m b' = (b_Address b', b_Zone b', b_AgentAddress b', b_AgentToken b', backend_role (b_Role b'),
                    backend_weight (b_Weight b'), m, b_AdminDsn b').
Proof.
  intros (Ha & Hg & _)%fill_addressed. unfold spec_desc, backend_addresses.
  rewrite decide_False by tauto. by rewrite decide_False by tauto.
Qed.

Lemma proxy_at_intro w j p k ps : projects w !! j = Some p -> pj_proxies p !! k = Some ps -> proxy_at w (j, k) = Some ps.
Proof. intros Hj Hk. unfold proxy_at. cbn. by rewrite Hj. Qed.

Lemma config_of_put w w' p : configs w' = configs w -> config_of w' p = config_of w p.
Proof. intros E. apply config_of_frame. by rewrite E. Qed.

Section Operations.
Context `{Defaults}.

(** What [AddBackend] does once the backend is prepared: before the store is written,
    and with what is done when it could not be. *)
Lemma NewServer_ok w addr zone agent token role weight maxConns dsn : agent <> [] ->
  exists w1 node, NewServer w addr zone agent token role weight maxConns dsn = (Ok (next w), w1) /\
    nodes w1 = <[next w := node]> (nodes w) /\ node_desc node = (addr, zone, agent, token, role, weight, maxConns, dsn) /\
    n_closed node = false /\
    arrays w1 = arrays w /\ configs w1 = configs w /\ projects w1 = projects w /\ stored w1 = stored w /\ next w1 = S (next w).
Proof.
  intros Ha. unfold NewServer. rewrite decide_False by done. cbn. eexists _, _. split_and!; try reflexivity; done.
Qed.

(** A cell of the heap that an append writes is the slice's own array or a new one. *)
Lemma append_cells {A : Type} (h : gmap nat (list (option A))) l spare s (x : A) l' :
  l' <> l -> l' <> Slice.sl_array s -> fst (Slice.append h l spare s x) !! l' = h !! l'.
Proof. intros Hl Hs. unfold Slice.append. case_decide; cbn; by rewrite lookup_insert_ne. Qed.

Lemma append_array {A : Type} (h : gmap nat (list (option A))) l spare s (x : A) :
  Slice.sl_array (snd (Slice.append h l spare s x)) = Slice.sl_array s \/ Slice.sl_array (snd (Slice.append h l spare s x)) = l.
Proof. unfold Slice.append. case_decide; cbn; auto. Qed.

(** The append seen through a header of the old length. *)
Lemma append_shrunk {A : Type} (h : gmap nat (list (option A))) l spare s (x : A) : Slice.sound h s ->
  let s' := snd (Slice.append h l spare s x) in
  let t := {| Slice.sl_array := Slice.sl_array s'; Slice.sl_len := Slice.sl_len s' - 1 |} in
  Slice.sound (fst (Slice.append h l spare s x)) t /\ Slice.view (fst (Slice.append h l spare s x)) t = Slice.view h s.
Proof.
  intros Hs s' t. destruct (Slice.append_view h l spare s x Hs) as [Hs' Hv].
  pose proof (Slice.view_length h s Hs) as Hn. pose proof (Slice.view_cells _ _ Hs') as Hc. rewrite Hv in Hc. fold s' in Hc.
  assert (Slice.sl_len s' = S (Slice.sl_len s)) as El by (unfold s', Slice.append; case_decide; done).
  apply Slice.view_intro; unfold t; cbn [Slice.sl_len]; [|lia].
  apply (f_equal (take (Slice.sl_len s))) in Hc. rewrite take_take, Nat.min_l in Hc by lia.
  rewrite fmap_app, take_app_le in Hc by (rewrite length_fmap; lia). rewrite (take_ge (Some <$> _)) in Hc by (rewrite length_fmap; lia).
  rewrite El. replace (S (Slice.sl_len s) - 1)%nat with (Slice.sl_len s) by lia. exact Hc.
Qed.

Lemma same_at_frame w w' l : configs w' !! l = configs w !! l -> arrays w' !! l = arrays w !! l ->
  desc_at w' l = desc_at w l -> same_at w w' l.
Proof. by unfold same_at. Qed.

Lemma node_Start_desc ctx x : node_desc (node_Start ctx x) = node_desc x.
Proof. done. Qed.
Lemma node_Close_desc x : node_desc (node_Close x) = node_desc x.
Proof. done. Qed.

(** A proxy whose slice and configured backends were rewritten together. *)
Lemma inv_rewrite w w' j p k ps t cfg L :
  Inv w -> projects w !! j = Some p -> pj_proxies p !! k = Some ps -> configs w !! px_config ps = Some cfg ->
  projects w' = <[j := set_proxies p (<[k := set_slice ps t]> (pj_proxies p))]> (projects w) ->
  configs w' = <[px_config ps := set_backends cfg L]> (configs w) -> (next w <= next w')%nat ->
  (forall l, (l < next w)%nat -> l <> Slice.sl_array (px_backends ps) -> arrays w' !! l = arrays w !! l) ->
  (forall l, (l < next w)%nat -> l ∉ backends_of w ps -> desc_at w' l = desc_at w l) ->
  Slice.sl_array t = Slice.sl_array (px_backends ps) \/ (next w <= Slice.sl_array t < next w')%nat ->
  Slice.sound (arrays w') t -> NoDup (Slice.view (arrays w') t) ->
  (forall n, n ∈ Slice.view (arrays w') t -> n ∈ backends_of w ps \/ (next w <= n < next w')%nat) ->
  Forall addressed L -> desc_at w' <$> Slice.view (arrays w') t = configured (set_backends cfg L) ->
  (forall j', j' <> j -> stored w' !! j' = stored w !! j') -> stored w' !! j = Some (config_of w' p) ->
  Inv w' /\ (forall a, a <> (j, k) -> listed w' a = listed w a) /\ listed w' (j, k) = Some (configured (set_backends cfg L)).
Proof.
  intros HI Hj Hk Hc Hp' Hc' Hx Harr Hdesc Ht Hs Hn Hv HL Hr Hst Hstj.
  pose proof (proxy_at_intro _ _ _ _ _ Hj Hk) as Hat.
  destruct (inv_proxy _ HI _ _ Hat) as [_ _ (cfg' & Hcfg & Hid & _)]. assert (cfg' = cfg) as -> by congruence. cbn in Hid.
  destruct (inv_local w w' j p k ps (set_slice ps t)) as [HI' Ho]; try done.
  - split; [done|done|]. exists (set_backends cfg L). cbn. rewrite Hc', lookup_insert_eq. done.
  - intros l [->|[->|Hl]]; cbn in *; [left; by left| |].
    + destruct Ht as [->|?]; [left; right; by left|by right].
    + destruct (Hv l Hl) as [?|?]; [left; by right; right|by right].
  - intros l Hl Hu. unfold uses in Hu. split_and!.
    + rewrite Hc'. by rewrite lookup_insert_ne by (intros E; apply Hu; by left).
    + apply Harr; [done|]. intros E. apply Hu. tauto.
    + apply Hdesc; [done|]. tauto.
  - split_and!; [done|done|]. unfold listed. rewrite (proxy_at_insert w w' j p k (set_slice ps t) (j, k) Hj Hp'), decide_True by done.
    cbn. f_equal. exact Hr.
Qed.

Lemma configs_alter w c f cfg : configs w !! c = Some cfg -> alter f c (configs w) = <[c := f cfg]> (configs w).
Proof.
  intros Hc. apply map_eq. intros i. destruct (decide (i = c)) as [->|].
  - by rewrite lookup_alter_eq, lookup_insert_eq, Hc.
  - by rewrite lookup_alter_ne, lookup_insert_ne.
Qed.

(** What [adopt_backend] leaves, [w1] being [w] with the new backend, when the store could
    write ([ok]) and when not. *)
Lemma adopt_shape ok spare w w1 p k ps b cfg node r w' :
  configs w !! px_config ps = Some cfg ->
  nodes w1 = <[next w := node]> (nodes w) -> arrays w1 = arrays w -> configs w1 = configs w -> projects w1 = projects w ->
  stored w1 = stored w -> next w1 = S (next w) -> adopt_backend ok spare w1 p k ps b (next w) = (r, w') ->
  let h := fst (Slice.append (arrays w) (S (next w)) spare (px_backends ps) (next w)) in
  let s := snd (Slice.append (arrays w) (S (next w)) spare (px_backends ps) (next w)) in
  let t := if ok then s else {| Slice.sl_array := Slice.sl_array s; Slice.sl_len := Slice.sl_len s - 1 |} in
  r = (if ok then None else Some StoreFailed) /\ arrays w' = h /\ next w' = S (S (next w)) /\
  configs w' = <[px_config ps := set_backends cfg (p_Backends cfg ++ if ok then [b] else [])]> (configs w) /\
  projects w' = <[pj_Id p := set_proxies p (<[k := set_slice ps t]> (pj_proxies p))]> (projects w) /\
  stored w' = (if ok then <[pj_Id p := config_of w' p]> (stored w) else stored w) /\
  (forall l, l <> next w -> nodes w' !! l = nodes w !! l) /\
  (exists n, nodes w' !! next w = Some n /\ node_desc n = node_desc node /\ (ok = false -> n_closed n = true)).
Proof.
  intros Hc En Ea Ec Ep Es Ex. unfold adopt_backend. cbn. rewrite Ea, Ex.
  destruct (Slice.append _ _ _ _ _) as [h s]. unfold config_backends. cbn. rewrite Ec, Hc. cbn.
  destruct ok; cbn; intros [= <- <-]; cbn; rewrite ?Ec, ?Ep, ?Es, ?Ex, !(configs_alter _ _ _ cfg Hc); split_and!; try done.
  - intros l Hl. by rewrite lookup_alter_ne, En, lookup_insert_ne.
  - exists (node_Start (px_ctx ps) node). rewrite lookup_alter_eq, En, lookup_insert_eq. done.
  - rewrite app_nil_r. apply map_eq. intros i. destruct (decide (i = px_config ps)) as [->|].
    + by rewrite lookup_alter_eq, !lookup_insert_eq.
    + by rewrite lookup_alter_ne, !lookup_insert_ne.
  - by rewrite insert_insert_eq.
  - intros l Hl. by rewrite !lookup_alter_ne, En, lookup_insert_ne.
  - exists (node_Close (node_Start (px_ctx ps) node)). rewrite !lookup_alter_eq, En, lookup_insert_eq. done.
Qed.

(** The two outcomes of [adopt_backend]: the proxy runs the new backend, or what it ran. *)
Lemma adopt_inv ok spare w w1 j p k ps b node r w' :
  Inv w -> projects w !! j = Some p -> pj_proxies p !! k = Some ps -> addressed b ->
  nodes w1 = <[next w := node]> (nodes w) -> arrays w1 = arrays w -> configs w1 = configs w -> projects w1 = projects w ->
  stored w1 = stored w -> next w1 = S (next w) ->
  node_desc node = spec_desc (from_option p_MaxConns 0 (configs w !! px_config ps)) b ->
  adopt_backend ok spare w1 p k ps b (next w) = (r, w') ->
  Inv w' /\ (forall a, a <> (j, k) -> listed w' a = listed w a) /\
  listed w' (j, k) = (fun l => l ++ if r is None then [Some (node_desc node)] else []) <$> listed w (j, k).
Proof.
  intros HI Hj Hk Hb En Ea Ec Ep Es Ex Ed Ha. pose proof (proxy_at_intro _ _ _ _ _ Hj Hk) as Hat.
  destruct (inv_proxy _ HI _ _ Hat) as [Hs Hn (cfg & Hc & _ & Hf & Hr)]. destruct (inv_project _ HI _ _ Hj) as [Hid _].
  destruct (adopt_shape _ _ _ _ _ _ _ _ _ _ _ _ Hc En Ea Ec Ep Es Ex Ha) as (Er & Fa & Fx & Fc & Fp & Fs & Fn & n & Fnn & Fnd & _).
  rewrite Hid in *. rewrite Hc in Ed. cbn in Ed.
  pose proof (Slice.append_view (arrays w) (S (next w)) spare (px_backends ps) (next w) Hs) as [Hs' Hv].
  destruct (append_shrunk (arrays w) (S (next w)) spare (px_backends ps) (next w) Hs) as [Hts Htv].
  pose proof (append_array (arrays w) (S (next w)) spare (px_backends ps) (next w)) as Harr.
  assert (next w ∉ backends_of w ps) as Hfresh.
  { intros Hin. assert (next w < next w)%nat; [|lia]. eapply inv_next; [done|exact Hat|]. by right; right. }
  assert (desc_at w' <$> backends_of w ps = configured cfg) as Hdb.
  { rewrite <- Hr. unfold listed_of, desc_at. apply list_fmap_ext. intros i l Hl%list_elem_of_lookup_2. rewrite Fn; [done|by intros ->]. }
  assert (desc_at w' (next w) = Some (node_desc node)) as Hdn by (unfold desc_at; rewrite Fnn; cbn; by rewrite Fnd).
  assert (listed w (j, k) = Some (configured cfg)) as -> by (unfold listed; rewrite Hat; cbn; by rewrite Hr).
  edestruct (inv_rewrite w w' j p k ps) as (HI' & Ho & Hr'); try exact Fp; try exact Fc; try done.
  - lia.
  - intros l Hl Hl'. rewrite Fa. apply append_cells; [lia|done].
  - intros l Hl _. unfold desc_at. by rewrite Fn by lia.
  - destruct ok; cbn; (destruct Harr as [->| ->]; [by left|right; lia]).
  - rewrite Fa. by destruct ok.
  - rewrite Fa. destruct ok; [|by rewrite Htv]. rewrite Hv. apply NoDup_app. split_and!; [done| |apply NoDup_singleton].
    by intros x Hx ->%list_elem_of_singleton.
  - rewrite Fa, Fx. destruct ok; [|rewrite Htv; by left]. rewrite Hv.
    intros m [?| ->%list_elem_of_singleton]%elem_of_app; [by left|right; lia].
  - apply Forall_app. split; [done|]. destruct ok; [by apply Forall_singleton|done].
  - rewrite Fa. unfold configured. cbn. rewrite fmap_app. destruct ok; [|rewrite Htv; cbn; by rewrite app_nil_r].
    rewrite Hv, fmap_app. f_equal; [exact Hdb|]. cbn. by rewrite Hdn, Ed.
  - intros j' Hj'. rewrite Fs. destruct ok; [by rewrite lookup_insert_ne|done].
  - rewrite Fs. destruct ok; [by rewrite lookup_insert_eq|]. rewrite (inv_stored _ HI), Hj. cbn. f_equal. symmetry.
    apply config_of_frame. intros c _. rewrite Fc, app_nil_r. destruct (decide (c = px_config ps)) as [->|].
    + rewrite lookup_insert_eq, Hc. f_equal. by destruct cfg.
    + by rewrite lookup_insert_ne.
  - split_and!; [done|done|]. rewrite Hr', Er. cbn. f_equal. unfold configured. cbn. rewrite fmap_app.
    f_equal. destruct ok; cbn; [by rewrite Ed|done].
Qed.


(** [AddBackend]: one more backend in one proxy, or nothing changed. *)
Lemma AddBackend_inv ok spare install initialize w j k c r w' :
  Inv w -> AddBackend ok spare install initialize w j k c = (r, w') ->
  Inv w' /\ (forall a, a <> (j, k) -> listed w' a = listed w a) /\
  match r with
  | Some _ => listed w' (j, k) = listed w (j, k) /\ stored w' = stored w
  | None => exists ps b b', proxy_at w (j, k) = Some ps /\ c = Some b /\ fill_addresses b = Some b' /\
      listed w' (j, k) = (fun l => l ++ [Some (spec_desc (from_option p_MaxConns 0 (configs w !! px_config ps)) b')]) <$> listed w (j, k)
  end.
Proof.
  intros HI. unfold AddBackend, GetProjectState.
  reach_proxy w j k p ps Hj Hk.
  destruct c as [b|]; [|by intros [= <- <-]].
  destruct (fill_addresses b) as [b'|] eqn:Hb; [|by intros [= <- <-]].
  destruct (fill_addressed _ _ Hb) as (Hb1 & Hb2 & _).
  destruct (NewServer_ok w (b_Address b') (b_Zone b') (b_AgentAddress b') (b_AgentToken b') (backend_role (b_Role b'))
    (backend_weight (b_Weight b')) (from_option p_MaxConns 0 (configs w !! px_config ps)) (b_AdminDsn b') Hb2)
    as (w1 & node & -> & En & Ed & Ec & Ea & Ecf & Ep & Es & Ex).
  assert (forall f, (forall x, node_desc (f x) = node_desc x) -> forall w', w' = alter_node w1 f (next w) \/ w' = w1 ->
    Inv w' /\ (forall a, listed w' a = listed w a) /\ stored w' = stored w) as Hgrow.
  { intros f Hf w'' Hw''. assert (forall l, desc_at w'' l = desc_at w1 l) as Hd.
    { intros l. destruct Hw'' as [->| ->]; [by apply desc_alter|done]. }
    destruct (inv_grow w w'') as [HI' Hr]; try done.
    - by destruct Hw'' as [->| ->].
    - by destruct Hw'' as [->| ->].
    - destruct Hw'' as [->| ->]; cbn; lia.
    - intros l Hl. unfold same_at. rewrite Hd. unfold desc_at.
      rewrite En, lookup_insert_ne by lia. destruct Hw'' as [->| ->]; cbn; by rewrite Ecf, Ea.
    - split_and!; [done|done|]. by destruct Hw'' as [->| ->]. }
  rewrite En, lookup_insert_eq. cbn [mbind option_bind].
  destruct (prepare_node node b' install initialize) as [e|].
  { intros Heq. assert (r = Some e /\ (w' = alter_node w1 node_Close (next w) \/ w' = w1)) as [-> Hw'].
    { destruct e; injection Heq as <- <-; auto. }
    destruct (Hgrow node_Close node_Close_desc w' Hw') as (HI' & Hr & Hst). split_and!; auto. }
  intros Ha. destruct (adopt_inv ok spare w w1 j p k ps b' node r w') as (HI' & Ho & Hr); try done.
  { by rewrite (spec_desc_filled _ b b' Hb). }
  split_and!; [done|done|].
  destruct (inv_proxy _ HI _ _ (proxy_at_intro _ _ _ _ _ Hj Hk)) as [_ _ (cfg & Hc & _)].
  destruct (adopt_shape _ _ _ _ _ _ _ _ _ _ _ _ Hc En Ea Ecf Ep Es Ex Ha) as (Er & _ & _ & _ & _ & Fs & _).
  destruct ok; subst r.
  - exists ps, b, b'. split_and!; [by eapply proxy_at_intro|done|done|].
    by rewrite Hr, Ed, (spec_desc_filled _ b b' Hb).
  - split; [|done]. rewrite Hr. destruct (listed w (j, k)); [|done]. cbn. by rewrite app_nil_r.
Qed.

(** A running backend and its configuration have the same address, and so the same place. *)
Lemma spec_desc_address m b : addressed b -> (spec_desc m b).1.1.1.1.1.1.1 = b_Address b.
Proof.
  intros Ha. unfold spec_desc, backend_addresses, addressed in *. case_decide; [done|].
  rewrite decide_False by tauto. done.
Qed.

Lemma index_match w m address (l : list nat) (L : list BackendSpec) :
  desc_at w <$> l = (fun b => Some (spec_desc m b)) <$> L -> Forall addressed L ->
  fst <$> list_find (fun n => address_of w n = address) l = fst <$> spec_index L address.
Proof.
  unfold spec_index. revert L. induction l as [|n l IH]; intros [|b L]; cbn; try done.
  intros [= Hn Hl] [Hb HL]%Forall_cons.
  assert (address_of w n = b_Address b) as E.
  { unfold address_of. unfold desc_at in Hn. destruct (nodes w !! n) as [x|]; [|done]. injection Hn as Hd.
    cbn. rewrite <- (spec_desc_address m b Hb), <- Hd. done. }
  destruct (decide (address_of w n = address)), (decide (b_Address b = address)); try congruence; [done|].
  specialize (IH L Hl HL). destruct (list_find _ l) as [[]|], (list_find _ L) as [[]|]; cbn in *; congruence.
Qed.

Lemma delete_fmap {A B : Type} (f : A -> B) i (l : list A) : f <$> delete i l = delete i (f <$> l).
Proof. revert i. induction l as [|x l IH]; intros [|i]; cbn; [done|done|done|]. by rewrite IH. Qed.

Lemma Forall_delete {A : Type} (P : A -> Prop) i l : Forall P l -> Forall P (delete i l).
Proof. rewrite delete_take_drop. intros Hl. apply Forall_app. split; [by apply Forall_take|by apply Forall_drop]. Qed.

Lemma NoDup_delete {A : Type} i (l : list A) : NoDup l -> NoDup (delete i l).
Proof. intros Hl. eapply sublist_NoDup; [exact Hl|]. apply sublist_delete. Qed.

Lemma elem_of_delete {A : Type} i (l : list A) x : x ∈ delete i l -> x ∈ l.
Proof. intros Hx. eapply elem_of_submseteq; [exact Hx|]. apply sublist_submseteq, sublist_delete. Qed.

Lemma remove_cells {A : Type} (h : gmap nat (list (option A))) s i l : l <> Slice.sl_array s ->
  fst (Slice.remove_at h s i) !! l = h !! l.
Proof. intros Hl. unfold Slice.remove_at. cbn. by rewrite lookup_insert_ne. Qed.

(** [RemoveBackend], when the store can write: one backend less, or nothing changed. *)
Lemma RemoveBackend_inv w j k address r w' :
  Inv w -> RemoveBackend true w j k address = (r, w') -> r <> Some Panicked ->
  Inv w' /\ (forall a, a <> (j, k) -> listed w' a = listed w a) /\
  match r with
  | Some _ => w' = w
  | None => exists ps i n, proxy_at w (j, k) = Some ps /\ node_index w ps address = Some (i, n) /\
      listed w' (j, k) = delete i <$> listed w (j, k)
  end.
Proof.
  intros HI. unfold RemoveBackend, GetProjectState.
  reach_proxy w j k p ps Hj Hk.
  destruct (node_index w ps address) as [[i n]|] eqn:Hi; [|by intros [= <- <-]].
  pose proof (proxy_at_intro _ _ _ _ _ Hj Hk) as Hat.
  destruct (inv_proxy _ HI _ _ Hat) as [Hs Hn (cfg & Hc & _ & Hf & Hr)]. destruct (inv_project _ HI _ _ Hj) as [Hid _].
  assert (config_backends w ps = p_Backends cfg) as -> by (unfold config_backends; by rewrite Hc).
  pose proof (index_match w (p_MaxConns cfg) address (backends_of w ps) (p_Backends cfg) Hr Hf) as Hm.
  pose proof Hi as Hi'. unfold node_index in Hi'. rewrite Hi' in Hm. destruct (spec_index (p_Backends cfg) address) as [[i' b]|]; [|done].
  injection Hm as <-. case_match; [by intros [= <- <-]|]. intros Heq _. injection Heq as <- <-.
  apply list_find_Some in Hi' as (Hin & _ & _).
  assert (i < Slice.sl_len (px_backends ps))%nat as Hlt.
  { apply lookup_lt_Some in Hin. unfold backends_of in Hin. by rewrite (Slice.view_length _ _ Hs) in Hin. }
  destruct (Slice.remove_at_view (arrays w) (px_backends ps) i Hs Hlt) as [Hs' Hv].
  match goal with |- Inv ?x /\ _ => set (w2 := x) end.
  assert (forall l, desc_at w2 l = desc_at w l) as Hd.
  { intros l. unfold w2, desc_at. cbn. destruct (decide (l = n)) as [->|].
    - rewrite lookup_alter_eq. by destruct (nodes w !! n).
    - by rewrite lookup_alter_ne. }
  assert (arrays w2 = fst (Slice.remove_at (arrays w) (px_backends ps) i) /\ next w2 = next w /\
    configs w2 = <[px_config ps := set_backends cfg (delete i (p_Backends cfg))]> (configs w) /\
    projects w2 = <[j := set_proxies p (<[k := set_slice ps (snd (Slice.remove_at (arrays w) (px_backends ps) i))]> (pj_proxies p))]>
      (projects w) /\ stored w2 = <[j := config_of w2 p]> (stored w)) as (Fa & Fx & Fc & Fp & Fs).
  { rewrite <- Hid. split_and!; [done|done| |done|done]. unfold w2. cbn. exact (configs_alter _ _ _ _ Hc). }
  clearbody w2.
  destruct (inv_rewrite w w2 j p k ps (snd (Slice.remove_at (arrays w) (px_backends ps) i)) cfg (delete i (p_Backends cfg)))
    as (HI' & Ho & Hr'); try done.
  - lia.
  - intros l _ Hl. rewrite Fa. by apply remove_cells.
  - by left.
  - by rewrite Fa.
  - rewrite Fa, Hv. by apply NoDup_delete.
  - rewrite Fa, Hv. intros m Hm%elem_of_delete. by left.
  - by apply Forall_delete.
  - rewrite Fa, Hv. unfold configured. cbn. rewrite !delete_fmap. f_equal. rewrite (list_fmap_ext _ (desc_at w)); [exact Hr|].
    intros; apply Hd.
  - intros j' Hj'. by rewrite Fs, lookup_insert_ne.
  - by rewrite Fs, lookup_insert_eq.
  - split_and!; [done|done|]. exists ps, i, n. split_and!; [done|done|].
    rewrite Hr'. unfold listed. rewrite Hat. cbn. rewrite Hr. f_equal. unfold configured. cbn. by rewrite delete_fmap.
Qed.

(** *** Starting proxies *)

Lemma create_backends_spec ctx m L : forall w ns w', Forall addressed L -> create_backends ctx m w L = (ns, w') ->
  arrays w' = arrays w /\ configs w' = configs w /\ projects w' = projects w /\ stored w' = stored w /\ (next w <= next w')%nat /\
  NoDup ns /\ Forall (fun n => next w <= n < next w')%nat ns /\ (forall l, (l < next w)%nat -> desc_at w' l = desc_at w l) /\
  desc_at w' <$> ns = (fun b => Some (spec_desc m b)) <$> L.
Proof.
  induction L as [|b L IH]; intros w ns w' HL; cbn [create_backends].
  { intros [= <- <-]. split_and!; try done. constructor. }
  apply Forall_cons in HL as [Hb HL]. unfold create_backend.
  destruct (backend_addresses (b_Address b) (b_AgentAddress b)) as [addr agent] eqn:Ea.
  assert (agent <> []) as Hag.
  { revert Ea. unfold backend_addresses, addressed in *. case_decide as E1; [|rewrite decide_False by tauto].
    - intros [= <- <-]. apply JoinHostPort_nonempty.
    - intros [= <- <-]. tauto. }
  destruct (NewServer_ok w addr (b_Zone b) agent (b_AgentToken b) (backend_role (b_Role b)) (backend_weight (b_Weight b)) m
    (b_AdminDsn b) Hag) as (w1 & node & -> & En & Ed & _ & Fa & Fc & Fp & Fs & Fx).
  match goal with |- context [create_backends ctx m ?x L] => set (w2 := x) end.
  destruct (create_backends ctx m w2 L) as [ns' w3] eqn:E3. intros [= <- <-].
  destruct (IH w2 ns' w3 HL E3) as (Ga & Gc & Gp & Gs & Gx & Gn & Gf & Gd & Gr).
  assert (forall l, desc_at w2 l = desc_at w1 l) as Hd2 by (intros l; unfold w2; by rewrite !desc_alter).
  assert (next w2 = S (next w)) as Hx2 by (unfold w2; cbn; exact Fx).
  rewrite Ga, Gc, Gp, Gs. unfold w2 in *. cbn in *. split_and!; try done; try lia.
  - constructor; [|done]. intros Hin. rewrite list.Forall_forall in Gf. specialize (Gf _ Hin). lia.
  - constructor; [lia|]. eapply Forall_impl; [exact Gf|]. cbn. lia.
  - intros l Hl. rewrite Gd, Hd2 by lia. unfold desc_at. by rewrite En, lookup_insert_ne by lia.
  - f_equal; [|done]. rewrite Gd, Hd2 by lia. unfold desc_at. rewrite En, lookup_insert_eq. cbn. rewrite Ed.
    unfold spec_desc. by rewrite Ea.
Qed.

(** A proxy that can listen runs what its configuration says, on objects of its own. *)
Lemma CreateProxyState_spec listens w ctx c cfg : Forall addressed (p_Backends cfg) -> listens (p_Address cfg) = true ->
  exists ps w', CreateProxyState listens w ctx c cfg = (Ok ps, w') /\ px_config ps = c /\
    configs w' = configs w /\ projects w' = projects w /\ stored w' = stored w /\ (next w <= next w')%nat /\
    (forall l, (l < next w)%nat -> same_at w w' l) /\ Slice.sound (arrays w') (px_backends ps) /\ NoDup (backends_of w' ps) /\
    (forall l, uses w' ps l -> l = c \/ (next w <= l < next w')%nat) /\ listed_of w' ps = configured cfg.
Proof.
  intros HL Hl. unfold CreateProxyState. cbn.
  match goal with |- context [create_backends ?c ?m ?x ?L] => destruct (create_backends c m x L) as [ns w1] eqn:E end.
  destruct (create_backends_spec _ _ _ _ _ _ HL E) as (Fa & Fc & Fp & Fs & Fx & Fn & Ff & Fd & Fr). cbn in *.
  rewrite Hl. eexists _, _. split; [reflexivity|].
  match goal with |- context [backends_of ?x ?y] => set (w2 := x); set (ps := y) end.
  destruct (Slice.view_intro (arrays w2) (px_backends ps) ns) as [Hs Hv]; [|done|].
  { unfold w2, ps, Slice.cells. cbn. rewrite lookup_insert_eq. cbn. by rewrite take_app_le, take_ge by (rewrite length_fmap; lia). }
  unfold uses, listed_of, backends_of. rewrite Hv. split_and!; try done.
  - cbn. lia.
  - intros l Hlt. unfold same_at, w2, desc_at. cbn. rewrite Fc, lookup_insert_ne, Fa by lia. split_and!; [done|done|]. by apply Fd; lia.
  - intros l [->|[->|Hin]]; [by left|right; cbn; lia|]. rewrite list.Forall_forall in Ff. specialize (Ff l Hin). right. cbn. lia.
Qed.

(** One more proxy in a project. *)
Lemma inv_add_proxy w w' j p k ps :
  Inv w -> projects w !! j = Some p -> pj_proxies p !! k = None ->
  projects w' = <[j := set_proxy_configs (set_proxies p (<[k := ps]> (pj_proxies p))) (pj_configs p ++ [px_config ps])]> (projects w) ->
  (forall l, (l < next w)%nat -> same_at w w' l) -> (next w <= next w')%nat ->
  wf_proxy w' k ps -> (forall l, uses w' ps l -> next w <= l < next w')%nat ->
  (forall j', j' <> j -> stored w' !! j' = stored w !! j') -> stored w' !! j = config_of w' <$> projects w' !! j ->
  Inv w' /\ (forall a, a <> (j, k) -> listed w' a = listed w a) /\ listed w' (j, k) = Some (listed_of w' ps).
Proof.
  intros HI Hj Hk Hp Hsame Hx Hwf Hnew Hst Hstj.
  assert (forall a, proxy_at w' a = if decide (a = (j, k)) then Some ps else proxy_at w a) as Hpa.
  { intros [j' k']. unfold proxy_at. cbn. rewrite Hp. destruct (decide (j' = j)) as [->|].
    - rewrite lookup_insert_eq, Hj. cbn. destruct (decide (k' = k)) as [->|].
      + by rewrite lookup_insert_eq, decide_True.
      + by rewrite lookup_insert_ne, decide_False by congruence.
    - by rewrite lookup_insert_ne, decide_False by congruence. }
  assert (forall a qs, proxy_at w a = Some qs ->
    wf_proxy w' (snd a) qs /\ backends_of w' qs = backends_of w qs /\ listed_of w' qs = listed_of w qs) as Hfr.
  { intros a qs Ha. apply wf_frame; [by eapply inv_proxy|]. intros l Hl. apply Hsame. by eapply inv_next. }
  destruct (inv_placed w w' (j, k) ps HI Hpa Hwf Hx) as (P1 & P2 & P3); [by intros a qs _; apply Hfr|by right; apply Hnew|].
  assert (px_config ps ∉ pj_configs p) as Hnot.
  { intros Hin. destruct (listed_uses w j p _ HI Hj Hin) as (k' & qs & Hq & Hu & _).
    pose proof (inv_next _ HI _ _ _ Hq Hu). pose proof (Hnew (px_config ps) (or_introl eq_refl)). lia. }
  split_and!.
  2: { intros a Ha. unfold listed. rewrite Hpa, decide_False by done. destruct (proxy_at w a) eqn:E; [|done]. cbn. f_equal. by eapply Hfr. }
  2: { unfold listed. by rewrite Hpa, decide_True. }
  split.
  - intros j' p'. rewrite Hp. destruct (decide (j' = j)) as [->|].
    + rewrite lookup_insert_eq. intros [= <-]. cbn. destruct (inv_project _ HI _ _ Hj) as [Hid Hn]. split; [done|].
      apply NoDup_app. split_and!; [done| |apply NoDup_singleton]. by intros x Hx' ->%list_elem_of_singleton.
    + rewrite lookup_insert_ne by done. apply HI.
  - intros j' p' c. rewrite Hp. destruct (decide (j' = j)) as [->|].
    + rewrite lookup_insert_eq. intros [= <-]. cbn. intros [Hc| ->%list_elem_of_singleton]%elem_of_app.
      * destruct (inv_listed _ HI _ _ _ Hj Hc) as (k' & qs & Hk' & <-). exists k', qs. split; [|done].
        rewrite lookup_insert_ne; [done|]. congruence.
      * exists k, ps. by rewrite lookup_insert_eq.
    + rewrite lookup_insert_ne by done. apply HI.
  - intros j' p' k' qs. rewrite Hp. destruct (decide (j' = j)) as [->|].
    + rewrite lookup_insert_eq. intros [= <-]. cbn. destruct (decide (k' = k)) as [->|].
      * rewrite lookup_insert_eq. intros [= <-]. apply elem_of_app. right. by constructor.
      * rewrite lookup_insert_ne by done. intros Hk'. apply elem_of_app. left. by eapply inv_running.
    + rewrite lookup_insert_ne by done. apply HI.
  - exact P1.
  - exact P2.
  - exact P3.
  - intros j'. destruct (decide (j' = j)) as [->|]; [done|]. rewrite Hst, (inv_stored _ HI), Hp, lookup_insert_ne by done.
    destruct (projects w !! j') as [p'|] eqn:E; [|done]. cbn. f_equal. symmetry. apply config_of_frame.
    intros c Hc. destruct (listed_uses w j' p' c HI E Hc) as (k' & qs & Hq & Hu & _). apply Hsame. by eapply inv_next.
Qed.

(** The objects of [w], with other projects, all of them stored. *)
Definition as_fleet (w : Fleet) (P : gmap bytes Project) : Fleet := set_stored (set_projects w P) (config_of w <$> P).

Lemma as_fleet_inv w : Inv w -> as_fleet w (projects w) = w.
Proof.
  intros HI. unfold as_fleet, set_stored, set_projects. cbn. destruct w as [ar cf nd ca pr st nx]. cbn in *. f_equal.
  apply map_eq. intros j. rewrite lookup_fmap. exact (eq_sym (inv_stored _ HI j)).
Qed.

Lemma inv_as_fleet w : Inv (as_fleet w (projects w)) -> stored w = config_of w <$> projects w -> Inv w.
Proof. intros HI Hs. unfold as_fleet in HI. rewrite <- Hs in HI. by destruct w. Qed.

(** What is stored of the other projects does not change with new objects. *)
Lemma as_fleet_stored w w' P P' j' : Inv (as_fleet w P) -> (forall l, (l < next w)%nat -> configs w' !! l = configs w !! l) ->
  P' !! j' = P !! j' -> stored (as_fleet w' P') !! j' = stored (as_fleet w P) !! j'.
Proof.
  intros HI Hc HP. cbn. rewrite !lookup_fmap, HP. destruct (P !! j') as [p|] eqn:E; [|done]. cbn. f_equal.
  apply config_of_frame. intros c Hin. apply Hc.
  destruct (listed_uses (as_fleet w P) j' p c HI E Hin) as (k & ps & Hps & Hu & _). exact (inv_next _ HI _ _ _ Hps Hu).
Qed.

Lemma find_config_cons k cfg L : find_config k (cfg :: L) = if decide (p_Id cfg = k) then Some cfg else find_config k L.
Proof. unfold find_config. cbn. case_decide; [done|]. by destruct (list_find _ L) as [[]|]. Qed.

Lemma find_config_Some k L cfg : find_config k L = Some cfg -> cfg ∈ L /\ p_Id cfg = k.
Proof.
  induction L as [|c L IH]; [done|]. rewrite find_config_cons. case_decide.
  - intros [= <-]. split; [constructor|done].
  - intros [? ?]%IH. split; [by constructor|done].
Qed.

Definition startable (listens : bytes -> bool) (cfg : ProxyConfig) : Prop :=
  Forall addressed (p_Backends cfg) /\ listens (p_Address cfg) = true.

(** One proxy of [CreateProjectState] or [AddProxy]. *)
Lemma create_proxy_inv listens ctx w P j p cfg c w1 :
  Inv (as_fleet w P) -> P !! j = Some p -> pj_proxies p !! p_Id cfg = None -> startable listens cfg ->
  new_config w cfg = (c, w1) ->
  exists ps w', CreateProxyState listens w1 ctx c cfg = (Ok ps, w') /\ px_config ps = c /\
    projects w' = projects w /\ stored w' = stored w /\ (next w <= next w')%nat /\ (forall l, (l < next w)%nat -> same_at w w' l) /\
    configs w' !! c = Some cfg /\ (next w <= c < next w')%nat /\
    let p' := set_proxy_configs (set_proxies p (<[p_Id cfg := ps]> (pj_proxies p))) (pj_configs p ++ [c]) in
    Inv (as_fleet w' (<[j := p']> P)) /\
    (forall a, a <> (j, p_Id cfg) -> listed (as_fleet w' (<[j := p']> P)) a = listed (as_fleet w P) a) /\
    listed (as_fleet w' (<[j := p']> P)) (j, p_Id cfg) = Some (configured cfg).
Proof.
  intros HI Hj Hk [Ha Hl] [= <- <-].
  match goal with |- context [CreateProxyState listens ?x ctx ?c cfg] =>
    destruct (CreateProxyState_spec listens x ctx c cfg Ha Hl) as (ps & w' & -> & Hc & Fc & Fp & Fs & Fx & Fsame & Fsd & Fnd & Fu & Fr) end.
  exists ps, w'. cbn in *.
  assert (forall l, (l < next w)%nat -> same_at w w' l) as Hsame.
  { intros l Hlt. destruct (Fsame l) as (E1 & E2 & E3); [lia|]. unfold same_at. rewrite E1, E2. cbn.
    rewrite lookup_insert_ne by lia. split_and!; [done|done|]. by rewrite E3. }
  assert (configs w' !! next w = Some cfg) as Hcf by (rewrite Fc; apply lookup_insert_eq).
  split; [done|]. split; [done|]. split; [done|]. split; [done|]. split; [lia|]. split; [done|]. split; [done|]. split; [lia|].
  match goal with |- Inv (as_fleet _ (<[j := ?x]> P)) /\ _ => set (p' := x) end.
  destruct (inv_add_proxy (as_fleet w P) (as_fleet w' (<[j := p']> P)) j p (p_Id cfg) ps) as (HI' & Ho & Hr); try done.
  - unfold p'. by rewrite Hc.
  - cbn. lia.
  - split; [done|done|]. exists cfg. rewrite Hc. by split_and!.
  - intros l Hl'. destruct (Fu l Hl') as [->|?]; cbn; lia.
  - intros j' Hj'. apply (as_fleet_stored w w' P _ j' HI); [intros l Hlt; by apply Hsame|]. by rewrite lookup_insert_ne.
  - cbn. by rewrite lookup_fmap.
  - split_and!; [done|done|]. rewrite Hr. f_equal. exact Fr.
Qed.

(** All proxies of a project. *)
Lemma create_proxies_inv listens ctx j L : forall w P p cs acc w',
  Inv (as_fleet w P) -> P !! j = Some p -> NoDup (p_Id <$> L) ->
  (forall cfg, cfg ∈ L -> pj_proxies p !! p_Id cfg = None /\ startable listens cfg) ->
  create_proxies listens ctx w L (pj_proxies p) = (cs, acc, w') ->
  projects w' = projects w /\ stored w' = stored w /\ (next w <= next w')%nat /\ (forall l, (l < next w)%nat -> same_at w w' l) /\
  omap (fun c => configs w' !! c) cs = L /\
  let p' := set_proxy_configs (set_proxies p acc) (pj_configs p ++ cs) in
  Inv (as_fleet w' (<[j := p']> P)) /\
  (forall a, fst a <> j -> listed (as_fleet w' (<[j := p']> P)) a = listed (as_fleet w P) a) /\
  (forall k, listed (as_fleet w' (<[j := p']> P)) (j, k) =
     match find_config k L with Some cfg => Some (configured cfg) | None => listed (as_fleet w P) (j, k) end).
Proof.
  induction L as [|cfg L IH]; intros w P p cs acc w' HI Hj Hn HL; cbn [create_proxies].
  { intros [= <- <- <-]. rewrite app_nil_r. assert (set_proxy_configs (set_proxies p (pj_proxies p)) (pj_configs p) = p) as ->
      by (by destruct p). rewrite insert_id by done. split_and!; done. }
  destruct (new_config w cfg) as [c w1] eqn:Ec. destruct (HL cfg) as [Hk Hst]; [constructor|].
  destruct (create_proxy_inv listens ctx w P j p cfg c w1 HI Hj Hk Hst Ec)
    as (ps & w2 & -> & _ & Fp & Fs & Fx & Fsame & Fcf & Fcn & HI2 & Ho2 & Hr2).
  destruct (create_proxies listens ctx w2 L _) as [[cs' acc'] w3] eqn:E3. intros [= <- <- <-].
  apply NoDup_cons in Hn as [Hnc Hn].
  match type of HI2 with Inv (as_fleet _ (<[j := ?x]> _)) => set (p1 := x) in * end.
  destruct (IH w2 (<[j := p1]> P) p1 cs' acc' w3) as (Gp & Gs & Gx & Gsame & Gom & HI3 & Ho3 & Hr3); try done.
  - by rewrite lookup_insert_eq.
  - intros cfg' Hin. destruct (HL cfg') as [Hk' Hst']; [by constructor|]. split; [|done]. cbn.
    rewrite lookup_insert_ne; [done|]. intros E. apply Hnc. rewrite E. by apply list_elem_of_fmap_2.
  - rewrite insert_insert_eq in HI3, Ho3, Hr3. cbn in HI3, Ho3, Hr3. rewrite <- app_assoc in HI3, Ho3, Hr3.
    rewrite Gp, Gs. split_and!; [done|done|lia| | |done| |].
    + intros l Hl. destruct (Fsame l Hl) as (A1 & A2 & A3). destruct (Gsame l) as (B1 & B2 & B3); [lia|].
      unfold same_at. by rewrite B1, B2, B3, A1, A2, A3.
    + cbn. destruct (Gsame c) as (-> & _); [lia|]. rewrite Fcf. by rewrite Gom.
    + intros a Ha. rewrite Ho3 by done. apply Ho2. intros ->. by apply Ha.
    + intros k. rewrite Hr3, find_config_cons. destruct (decide (p_Id cfg = k)) as [<-|Hne].
      * destruct (find_config (p_Id cfg) L) as [cfg'|] eqn:Ef; [|done].
        apply find_config_Some in Ef as [Hin Eid]. destruct Hnc. rewrite <- Eid. by apply list_elem_of_fmap_2.
      * destruct (find_config k L); [done|]. apply Ho2. congruence.
Qed.

(** Fewer projects or proxies on the same objects, or an empty project more. *)
Lemma inv_shrink w P P' : Inv (as_fleet w P) ->
  (forall j p, P' !! j = Some p -> pj_Id p = j /\ NoDup (pj_configs p) /\
     (forall c, c ∈ pj_configs p -> exists k ps, pj_proxies p !! k = Some ps /\ px_config ps = c) /\
     (forall k ps, pj_proxies p !! k = Some ps -> px_config ps ∈ pj_configs p /\ proxy_at (as_fleet w P) (j, k) = Some ps)) ->
  Inv (as_fleet w P').
Proof.
  intros HI HP.
  assert (forall a ps, proxy_at (as_fleet w P') a = Some ps -> proxy_at (as_fleet w P) a = Some ps) as Hat.
  { intros [j k] ps. unfold proxy_at at 1. cbn. destruct (P' !! j) as [p|] eqn:E; [|done]. cbn. intros Hk. by eapply (HP j p E). }
  split.
  - intros j p Hp. destruct (HP j p Hp) as (? & ? & _). done.
  - intros j p c Hp Hc. destruct (HP j p Hp) as (_ & _ & Hl & _). by apply Hl.
  - intros j p k ps Hp Hk. destruct (HP j p Hp) as (_ & _ & _ & Hr). by apply (Hr k ps).
  - intros a ps Ha. destruct (inv_proxy _ HI a ps (Hat _ _ Ha)) as [Hs Hn Hc]. split; [exact Hs|exact Hn|exact Hc].
  - intros a b ps qs l Ha Hb Hla Hlb. exact (inv_own _ HI a b ps qs l (Hat _ _ Ha) (Hat _ _ Hb) Hla Hlb).
  - intros a ps l Ha Hl. exact (inv_next _ HI a ps l (Hat _ _ Ha) Hl).
  - intros j. cbn. by rewrite lookup_fmap.
Qed.

(** The same objects, but for the state of life of backends and new locations. *)
Definition grown (w w' : Fleet) : Prop := (next w <= next w')%nat /\ (forall l, (l < next w)%nat -> same_at w w' l).

Lemma grown_as_fleet w w' P : grown w w' -> Inv (as_fleet w P) ->
  Inv (as_fleet w' P) /\ (forall a, listed (as_fleet w' P) a = listed (as_fleet w P) a).
Proof.
  intros [Hx Hs] HI. apply (inv_grow (as_fleet w P)); try done. apply map_eq. intros j.
  apply (as_fleet_stored w w' P P j HI); [|done]. intros l Hl. by apply Hs.
Qed.

Lemma close_grown l : forall w, grown w (close_nodes w l) /\ projects (close_nodes w l) = projects w /\ stored (close_nodes w l) = stored w /\
  configs (close_nodes w l) = configs w.
Proof.
  unfold close_nodes. induction l as [|n l IH]; intros w; [split; [split; done|done]|].
  cbn. destruct (IH (alter_node w node_Close n)) as ([Hx Hs] & Hp & Hst & Hc). split_and!; [|done|done|done]. split; [done|].
  intros k Hk. destruct (Hs k Hk) as (A & B & C). split_and!; [done|done|]. by rewrite C, desc_alter.
Qed.

Lemma stop_grown w ps : grown w (proxy_Stop w ps) /\ projects (proxy_Stop w ps) = projects w /\ stored (proxy_Stop w ps) = stored w /\
  configs (proxy_Stop w ps) = configs w.
Proof. exact (close_grown (backends_of w ps) (cancel w (hd 0%nat (px_ctx ps)))). Qed.

Lemma grown_trans w1 w2 w3 : grown w1 w2 -> grown w2 w3 -> grown w1 w3.
Proof.
  intros [Hx Hs] [Hy Ht]. split; [lia|]. intros l Hl. destruct (Hs l Hl) as (A & B & C). destruct (Ht l) as (A' & B' & C'); [lia|].
  unfold same_at. by rewrite A', B', C', A, B, C.
Qed.

Lemma project_stop_grown w p : grown w (project_Stop w p) /\ projects (project_Stop w p) = projects w /\
  stored (project_Stop w p) = stored w /\ configs (project_Stop w p) = configs w.
Proof.
  unfold project_Stop. set (w0 := cancel w _). assert (grown w w0 /\ projects w0 = projects w /\ stored w0 = stored w /\ configs w0 = configs w)
    as H0 by (by repeat split).
  clearbody w0. revert w0 H0. induction (map_to_list (pj_proxies p)) as [|[k ps] l IH]; intros w0 H0; [done|].
  cbn. apply IH. destruct (stop_grown w0 ps) as (Hg & Hp & Hs & Hc). destruct H0 as (Gg & Gp & Gs & Gc).
  split_and!; [by eapply grown_trans|by rewrite Hp|by rewrite Hs|by rewrite Hc].
Qed.

(** [CreateProjectState] under any context. *)
Definition startable_project (listens : bytes -> bool) (pcfg : ProjectConfig) : Prop :=
  NoDup (p_Id <$> j_Proxies pcfg) /\ Forall (startable listens) (j_Proxies pcfg).

Lemma create_project_inv listens ctx w P pcfg p w' :
  Inv (as_fleet w P) -> P !! j_Id pcfg = None -> startable_project listens pcfg ->
  CreateProjectState listens w ctx pcfg = (p, w') ->
  projects w' = projects w /\ stored w' = stored w /\ grown w w' /\ pj_Id p = j_Id pcfg /\ config_of w' p = pcfg /\
  Inv (as_fleet w' (<[j_Id pcfg := p]> P)) /\
  (forall a, listed (as_fleet w' (<[j_Id pcfg := p]> P)) a =
     if decide (fst a = j_Id pcfg) then configured <$> find_config (snd a) (j_Proxies pcfg) else listed (as_fleet w P) a).
Proof.
  intros HI Hj [Hn Hst]. unfold CreateProjectState. cbn.
  match goal with |- context [create_proxies _ ?c ?x _ _] => set (ctx' := c); set (w0 := x) end.
  set (p0 := {| pj_Id := j_Id pcfg; pj_Name := j_Name pcfg; pj_Protocol := j_Protocol pcfg; pj_CreatedAt := j_CreatedAt pcfg;
                pj_configs := []; pj_proxies := ∅; pj_ctx := ctx'; pj_readers := 0 |}).
  assert (grown w w0) as Hg0 by (split; [cbn; lia|done]).
  destruct (grown_as_fleet w w0 P Hg0 HI) as [HI0 Hr0].
  assert (Inv (as_fleet w0 (<[j_Id pcfg := p0]> P))) as HI1.
  { eapply inv_shrink; [exact HI0|]. intros j p1. destruct (decide (j = j_Id pcfg)) as [->|].
    - rewrite lookup_insert_eq. intros [= <-]. cbn. split_and!; [done|constructor| |].
      + intros c Hc. by apply not_elem_of_nil in Hc.
      + intros k ps Hk. by rewrite lookup_empty in Hk.
    - rewrite lookup_insert_ne by done. intros Hp. pose proof (inv_project _ HI0 j p1 Hp) as [? ?].
      split_and!; [done|done|intros c; exact (inv_listed _ HI0 j p1 c Hp)|]. intros k ps Hk. split; [exact (inv_running _ HI0 j p1 k ps Hp Hk)|].
      by apply (proxy_at_intro (as_fleet w0 P) j p1). }
  destruct (create_proxies listens ctx' w0 (j_Proxies pcfg) ∅) as [[cs acc] w1] eqn:E. intros [= <- <-].
  destruct (create_proxies_inv listens ctx' (j_Id pcfg) (j_Proxies pcfg) w0 (<[j_Id pcfg := p0]> P) p0 cs acc w1)
    as (Fp & Fs & Fx & Fsame & Fom & HI2 & Ho & Hr); try done.
  { by rewrite lookup_insert_eq. }
  { intros cfg Hin. split; [apply lookup_empty|]. rewrite list.Forall_forall in Hst. by apply Hst. }
  rewrite insert_insert_eq in HI2, Ho, Hr. cbn in HI2, Ho, Hr.
  split_and!; [done|done|eapply grown_trans; [exact Hg0|by split]|done| |done|].
  - unfold config_of. cbn. rewrite Fom. by destruct pcfg.
  - intros [j k]. cbn. case_decide as Ha.
    + subst j. rewrite Hr. destruct (find_config k (j_Proxies pcfg)); [done|]. unfold listed, proxy_at. cbn.
      rewrite lookup_insert_eq. cbn. by rewrite lookup_empty.
    + rewrite Ho by done. rewrite <- Hr0. unfold listed, proxy_at. cbn. by rewrite lookup_insert_ne.
Qed.

(** *** A registry from its store *)

Lemma load_projects listens ctx l : forall w, Inv (as_fleet w (projects w)) -> NoDup (j_Id <$> l) ->
  (forall pcfg, pcfg ∈ l -> projects w !! j_Id pcfg = None /\ startable_project listens pcfg) ->
  let w' := foldl (load_project listens ctx) w l in
  Inv (as_fleet w' (projects w')) /\ stored w' = stored w /\
  (forall pcfg k, pcfg ∈ l -> listed w' (j_Id pcfg, k) = configured <$> find_config k (j_Proxies pcfg)) /\
  (forall a, fst a ∉ j_Id <$> l -> listed w' a = listed w a) /\
  (forall pcfg, pcfg ∈ l -> config_of w' <$> projects w' !! j_Id pcfg = Some pcfg) /\
  (forall j, j ∉ j_Id <$> l -> config_of w' <$> projects w' !! j = config_of w <$> projects w !! j).
Proof.
  induction l as [|pcfg l IH]; intros w HI Hn Hl.
  { cbn. split_and!; try done; intros pcfg; [intros k|]; by intros ?%not_elem_of_nil. }
  cbn [foldl]. destruct (Hl pcfg) as [Hj Hst]; [constructor|].
  destruct (CreateProjectState listens w ctx pcfg) as [p w1] eqn:E.
  destruct (create_project_inv listens ctx w (projects w) pcfg p w1 HI Hj Hst E) as (Fp & Fs & [Gx Gs] & Fid & Fc & HI1 & Hr1).
  apply NoDup_cons in Hn as [Hnot Hn].
  set (w2 := set_projects w1 (<[j_Id pcfg := p]> (projects w1))) in *.
  assert (load_project listens ctx w pcfg = w2) as -> by (unfold load_project; by rewrite E).
  assert (as_fleet w2 (projects w2) = as_fleet w1 (<[j_Id pcfg := p]> (projects w))) as E2.
  { unfold w2, as_fleet. cbn. by rewrite Fp. }
  destruct (IH w2) as (HI' & Hst' & Hr' & Ho' & Hc' & Hco').
  { by rewrite E2. } { done. }
  { intros q Hq. destruct (Hl q) as [Hqj Hqs]; [by constructor|]. split; [|done]. unfold w2. cbn. rewrite Fp, lookup_insert_ne; [done|].
    intros Eq. apply Hnot. rewrite Eq. by apply list_elem_of_fmap_2. }
  assert (forall a, listed w2 a = listed (as_fleet w1 (<[j_Id pcfg := p]> (projects w))) a) as Hrun.
  { intros a. change (listed (as_fleet w2 (projects w2)) a = listed (as_fleet w1 (<[j_Id pcfg := p]> (projects w))) a). by rewrite E2. }
  split_and!; [done|by rewrite Hst'| | | |].
  - intros q k [->|Hq]%elem_of_cons; [|by apply Hr']. rewrite Ho' by done. rewrite Hrun, Hr1. cbn. by rewrite decide_True.
  - intros a [Ha Ha']%not_elem_of_cons. rewrite Ho', Hrun, Hr1, decide_False by done. done.
  - intros q [->|Hq]%elem_of_cons; [|by apply Hc']. rewrite Hco' by done. unfold w2 at 2. cbn. rewrite lookup_insert_eq. cbn.
    f_equal. exact Fc.
  - intros j [Ha Ha']%not_elem_of_cons. rewrite Hco' by done. unfold w2 at 2. cbn. rewrite Fp, lookup_insert_ne by done.
    destruct (projects w !! j) as [q|] eqn:Eq; [|done]. cbn. f_equal. apply config_of_frame. intros c Hc.
    destruct (listed_uses (as_fleet w (projects w)) j q c HI Eq Hc) as (k & ps & Hps & Hu & _).
    destruct (Gs c) as (A & _); [exact (inv_next _ HI _ _ _ Hps Hu)|]. exact A.
Qed.

(** A store whose projects can be started. *)
Definition startable_store (listens : bytes -> bool) (s : gmap bytes ProjectConfig) : Prop :=
  forall j pcfg, s !! j = Some pcfg -> j_Id pcfg = j /\ startable_project listens pcfg.

Lemma NewRegistry_runs listens s : startable_store listens s ->
  Inv (NewRegistry listens s) /\ stored (NewRegistry listens s) = s /\
  (forall a, listed (NewRegistry listens s) a = stored_listed s a).
Proof.
  intros Hs. unfold NewRegistry. set (l := map snd (map_to_list s)).
  assert (forall pcfg, pcfg ∈ l <-> s !! j_Id pcfg = Some pcfg) as Hl.
  { intros pcfg. unfold l. rewrite list_elem_of_fmap. split.
    - intros ([j q] & -> & Hin%elem_of_map_to_list). cbn. by destruct (Hs _ _ Hin) as [-> _].
    - intros Hin. exists (j_Id pcfg, pcfg). split; [done|]. by apply elem_of_map_to_list. }
  assert (j_Id <$> l = fst <$> map_to_list s) as Hk.
  { unfold l. rewrite <- list_fmap_compose. apply list_fmap_ext. intros i [j q] Hin%list_elem_of_lookup_2%elem_of_map_to_list.
    cbn. by destruct (Hs _ _ Hin) as [-> _]. }
  destruct (load_projects listens [0%nat] l (no_fleet s)) as (HI & Hst & Hr & Ho & Hc & Hco).
  - unfold as_fleet. cbn. rewrite fmap_empty. split; cbn; try done.
    all: unfold proxy_at; cbn; intros; by rewrite ?lookup_empty in *.
  - rewrite Hk. apply NoDup_fst_map_to_list.
  - intros pcfg Hin%Hl. split; [apply lookup_empty|]. by apply (Hs _ _ Hin).
  - cbn in Hst. assert (forall j, j ∉ j_Id <$> l -> s !! j = None) as Hno.
    { intros j Hj. apply not_elem_of_dom. intros Hd. apply Hj. rewrite Hk. by apply elem_of_dom in Hd as [q Hq];
        apply list_elem_of_fmap; exists (j, q); split; [|by apply elem_of_map_to_list]. }
    split_and!; [|done|].
    + apply inv_as_fleet; [done|]. rewrite Hst. apply map_eq. intros j. rewrite lookup_fmap.
      destruct (decide (j ∈ j_Id <$> l)) as [Hj|Hj].
      * apply list_elem_of_fmap in Hj as (q & -> & Hq). rewrite Hc by done. by apply Hl.
      * rewrite Hco, Hno by done. done.
    + intros [j k]. unfold stored_listed. cbn. destruct (decide (j ∈ j_Id <$> l)) as [Hj|Hj].
      * apply list_elem_of_fmap in Hj as (q & -> & Hq). rewrite Hr by done. apply Hl in Hq. by rewrite Hq.
      * rewrite Ho, Hno by done. done.
Qed.

(** What runs is what the store would start again. *)
Lemma listed_stored w : Inv w -> forall a, listed w a = stored_listed (stored w) a.
Proof.
  intros HI [j k]. unfold listed, stored_listed, proxy_at. cbn. rewrite (inv_stored _ HI).
  destruct (projects w !! j) as [p|] eqn:Hj; [|done]. cbn.
  assert (forall c, c ∈ pj_configs p -> exists ps, pj_proxies p !! from_option p_Id [] (configs w !! c) = Some ps /\ px_config ps = c /\
            exists cfg, configs w !! c = Some cfg /\ listed_of w ps = configured cfg) as Hl.
  { intros c Hc. destruct (inv_listed _ HI _ _ _ Hj Hc) as (k' & ps & Hk' & <-).
    destruct (inv_proxy _ HI _ _ (proxy_at_intro _ _ _ _ _ Hj Hk')) as [_ _ (cfg & Hcf & Hid & _ & Hr)]. cbn in Hid.
    exists ps. rewrite Hcf. cbn. rewrite Hid. split_and!; eauto. }
  assert (forall ps, pj_proxies p !! k = Some ps -> px_config ps ∈ pj_configs p /\ from_option p_Id [] (configs w !! px_config ps) = k) as Hk.
  { intros ps Hk. split; [by eapply inv_running|].
    destruct (inv_proxy _ HI _ _ (proxy_at_intro _ _ _ _ _ Hj Hk)) as [_ _ (cfg & -> & Hid & _)]. done. }
  assert (forall cfg, find_config k (omap (fun c => configs w !! c) (pj_configs p)) = Some cfg ->
            exists c, c ∈ pj_configs p /\ configs w !! c = Some cfg /\ p_Id cfg = k) as Hfind.
  { intros cfg [Hin Hid]%find_config_Some. apply list_elem_of_omap in Hin as (c & Hc & Hcf). eauto. }
  change (listed_of w <$> pj_proxies p !! k = configured <$> find_config k (omap (fun c => configs w !! c) (pj_configs p))).
  destruct (find_config k _) as [cfg|] eqn:Ef; cbn.
  - destruct (Hfind cfg eq_refl) as (c & Hc & Hcf & Hid). destruct (Hl c Hc) as (ps & Hps & _ & cfg' & Hcf' & Hr).
    rewrite Hcf in Hps. cbn in Hps. rewrite Hid in Hps. rewrite Hps. cbn. rewrite Hcf in Hcf'. injection Hcf' as <-. by rewrite Hr.
  - destruct (pj_proxies p !! k) as [ps|] eqn:Ek; [|done]. exfalso. destruct (Hk ps eq_refl) as [Hin Hid].
    destruct (Hl _ Hin) as (_ & _ & _ & cfg & Hcf & _). rewrite Hcf in Hid. cbn in Hid.
    revert Ef. unfold find_config. destruct (list_find _ _) as [[]|] eqn:E; [done|]. intros _.
    apply list_find_None in E. rewrite list.Forall_forall in E. apply (E cfg); [|done]. apply list_elem_of_omap. eauto.
Qed.

(** What the invariant says of the store. *)
Lemma inv_startable w listens : Inv w -> (forall addr, listens addr = true) -> startable_store listens (stored w).
Proof.
  intros HI Hl j pcfg. rewrite (inv_stored _ HI). destruct (projects w !! j) as [p|] eqn:Hj; [|done]. intros [= <-].
  destruct (inv_project _ HI _ _ Hj) as [Hid Hn]. split; [done|].
  assert (forall c, c ∈ pj_configs p -> exists ps cfg, pj_proxies p !! p_Id cfg = Some ps /\ px_config ps = c /\ configs w !! c = Some cfg /\
            Forall addressed (p_Backends cfg)) as Hc.
  { intros c Hc. destruct (inv_listed _ HI _ _ _ Hj Hc) as (k & ps & Hk & <-).
    destruct (inv_proxy _ HI _ _ (proxy_at_intro _ _ _ _ _ Hj Hk)) as [_ _ (cfg & Hcf & Ek & Ha & _)]. cbn in Ek. subst k. eauto 10. }
  split; cbn.
  - clear HI Hj Hid. induction (pj_configs p) as [|c l IH]; [constructor|]. apply NoDup_cons in Hn as [Hnot Hn]. cbn.
    destruct (Hc c) as (ps & cfg & Hk & Hpc & Hcf & _); [constructor|]. rewrite Hcf. cbn. constructor.
    + intros (cfg' & Eid & Hin)%list_elem_of_fmap. apply list_elem_of_omap in Hin as (c' & Hin & Hcf').
      destruct (Hc c') as (ps' & cfg'' & Hk' & Hpc' & Hcf'' & _); [by constructor|]. assert (cfg'' = cfg') as -> by congruence.
      rewrite <- Eid, Hk in Hk'. apply Hnot. congruence.
    + apply IH; [done|]. intros c' Hin. apply Hc. by constructor.
  - rewrite list.Forall_forall. intros cfg Hin. apply list_elem_of_omap in Hin as (c & Hin & Hcf).
    destruct (Hc c Hin) as (ps & cfg' & _ & _ & Hcf' & Ha). assert (cfg' = cfg) as -> by congruence. by split.
Qed.

(** *** The other operations *)

Lemma AddProxy_inv listens w j cfg uid r w' :
  Inv w -> proxy_at w (j, p_Id cfg) = None -> p_Id cfg <> [] -> startable listens cfg ->
  AddProxy listens true w j (Some cfg) uid = (r, w') -> Inv w'.
Proof.
  intros HI Hnew Hid Hst. unfold AddProxy, GetProjectState. destruct (projects w !! j) as [p|] eqn:Hj; [|by intros [= <- <-]].
  destruct (lock p); [by intros [= <- <-]|]. cbn [from_option id with_ids hd]. rewrite decide_False by done. cbn [hd].
  unfold proxy_at in Hnew. cbn in Hnew. rewrite Hj in Hnew. cbn in Hnew.
  destruct (new_config w cfg) as [c w1] eqn:Ec. pose proof (as_fleet_inv w HI) as Ew.
  destruct (create_proxy_inv listens (pj_ctx p) w (projects w) j p cfg c w1) as (ps & w2 & -> & Hps & Fp & Fs & Fx & Fsame & Fc & _ & HI2 & _);
    try done.
  { by rewrite Ew. }
  cbn. intros [= <- <-]. match type of HI2 with Inv (as_fleet _ (<[_ := ?x]> _)) => set (p' := x) in * end.
  assert (pj_Id p = j) as Epj by (by apply (inv_project _ HI)).
  match goal with |- Inv ?x => set (w3 := x) end.
  assert (projects w3 = <[j := p']> (projects w)) as Ep by (unfold w3; cbn; by rewrite Fp, Epj).
  apply inv_as_fleet.
  - rewrite Ep. exact HI2.
  - rewrite Ep. unfold w3. cbn. rewrite Epj, Fs. apply map_eq. intros j'. rewrite lookup_fmap.
    destruct (decide (j' = j)) as [->|Hne]; [by rewrite !lookup_insert_eq|]. rewrite !lookup_insert_ne by done.
    rewrite (inv_stored _ HI). destruct (projects w !! j') as [q|] eqn:Eq; [|done]. cbn. f_equal. symmetry. apply config_of_frame.
    intros l Hl. destruct (listed_uses w j' q l HI Eq Hl) as (k & qs & Hq & Hu & _). apply Fsame. by eapply inv_next.
Qed.

Lemma CreateProject_inv listens w request project id ids now r w' :
  Inv w -> projects w !! id = None ->
  startable_project listens {| j_Id := id; j_Name := []; j_Protocol := [];
    j_Proxies := with_ids (from_option j_Proxies [] project) ids; j_CreatedAt := now |} ->
  CreateProject listens true w request project id ids now = (r, w') -> Inv w'.
Proof.
  intros HI Hid Hst. unfold CreateProject.
  match goal with |- context [CreateProjectState listens w request ?x] => set (pcfg := x) end.
  assert (startable_project listens pcfg) as Hst' by (unfold pcfg; by destruct project).
  destruct (CreateProjectState listens w request pcfg) as [p w1] eqn:E. pose proof (as_fleet_inv w HI) as Ew.
  destruct (create_project_inv listens request w (projects w) pcfg p w1) as (Fp & Fs & [Gx Gs] & Fid & Fc & HI1 & _); try done.
  { by rewrite Ew. }
  cbn. intros [= <- <-]. apply inv_as_fleet; cbn; rewrite Fp, Fid; [exact HI1|].
  rewrite Fs. apply map_eq. intros j'. rewrite lookup_fmap. change (j_Id pcfg) with id.
  destruct (decide (j' = id)) as [->|Hne]; [by rewrite !lookup_insert_eq|]. rewrite !lookup_insert_ne by done.
  rewrite (inv_stored _ HI). destruct (projects w !! j') as [q|] eqn:Eq; [|done]. cbn. f_equal. symmetry. apply config_of_frame.
  intros l Hl. destruct (listed_uses w j' q l HI Eq Hl) as (k & qs & Hq & Hu & _). apply Gs. by eapply inv_next.
Qed.

(** A fleet with some projects changed to fewer proxies, all written. *)
Lemma inv_written w w' : Inv w -> grown w w' -> configs w' = configs w ->
  (forall j p, projects w' !! j = Some p -> pj_Id p = j /\ NoDup (pj_configs p) /\
     (forall c, c ∈ pj_configs p -> exists k ps, pj_proxies p !! k = Some ps /\ px_config ps = c) /\
     (forall k ps, pj_proxies p !! k = Some ps -> px_config ps ∈ pj_configs p /\ proxy_at w (j, k) = Some ps)) ->
  stored w' = config_of w <$> projects w' -> Inv w'.
Proof.
  intros HI Hg Hc HP Hs. pose proof (as_fleet_inv w HI) as Ew.
  assert (Inv (as_fleet w (projects w'))) as HI1 by (eapply inv_shrink; [by rewrite Ew|]; by rewrite Ew).
  destruct (grown_as_fleet w w' (projects w') Hg HI1) as [HI2 _]. apply inv_as_fleet; [done|]. rewrite Hs.
  apply map_fmap_ext. intros j p _. apply config_of_frame. by rewrite Hc.
Qed.

Lemma inv_kept w j p : Inv w -> projects w !! j = Some p -> pj_Id p = j /\ NoDup (pj_configs p) /\
  (forall c, c ∈ pj_configs p -> exists k ps, pj_proxies p !! k = Some ps /\ px_config ps = c) /\
  (forall k ps, pj_proxies p !! k = Some ps -> px_config ps ∈ pj_configs p /\ proxy_at w (j, k) = Some ps).
Proof.
  intros HI Hp. destruct (inv_project _ HI j p Hp) as [? ?]. split_and!; [done|done|intros c; exact (inv_listed _ HI j p c Hp)|].
  intros k ps Hk. split; [by eapply inv_running|by eapply proxy_at_intro].
Qed.

Lemma DeleteProject_inv w j r w' : Inv w -> DeleteProject true w j = (r, w') -> Inv w'.
Proof.
  intros HI. unfold DeleteProject, GetProjectState. destruct (projects w !! j) as [p|] eqn:Hj; [|by intros [= <- <-]].
  intros [= <- <-]. destruct (project_stop_grown w p) as (Hg & Hp & Hs & Hc).
  apply (inv_written w); cbn; rewrite ?Hp, ?Hs; try done.
  - intros j' q Hq. apply lookup_delete_Some in Hq as [Hne Hq]. by apply inv_kept.
  - apply map_eq. intros j'. rewrite lookup_fmap. destruct (decide (j' = j)) as [->|]; [by rewrite !lookup_delete_eq|].
    rewrite !lookup_delete_ne by done. exact (inv_stored _ HI j').
Qed.

Lemma RemoveProxy_inv w j k r w' : Inv w -> RemoveProxy true w j k = (r, w') -> Inv w'.
Proof.
  intros HI. unfold RemoveProxy, GetProjectState. reach_proxy w j k p ps Hj Hk.
  destruct (stop_grown w ps) as (Hg & Hp & Hs & Hc). destruct (inv_kept w j p HI Hj) as (Hid & Hn & Hlist & Hrun).
  destruct (inv_proxy _ HI _ _ (proxy_at_intro _ _ _ _ _ Hj Hk)) as [_ _ (cfg & Hcf & Ek & _)]. cbn in Ek.
  destruct (Hrun k ps Hk) as [Hin _]. apply list_elem_of_lookup in Hin as [i Hi].
  assert (forall i' c, pj_configs p !! i' = Some c -> from_option p_Id [] (configs w !! c) = k -> c = px_config ps) as Huniq.
  { intros i' c Hi' Ec. apply list_elem_of_lookup_2 in Hi'. destruct (Hlist c Hi') as (k' & qs & Hk' & <-).
    destruct (inv_proxy _ HI _ _ (proxy_at_intro _ _ _ _ _ Hj Hk')) as [_ _ (cfg' & Hcf' & Ek' & _)]. cbn in Ek'.
    rewrite Hcf' in Ec. cbn in Ec. congruence. }
  cbn. unfold config_index. rewrite Hc. destruct (list_find _ (pj_configs p)) as [[i' c]|] eqn:Ei; cbn.
  2: { exfalso. apply list_find_None in Ei. rewrite list.Forall_forall in Ei. apply (Ei _ (list_elem_of_lookup_2 _ _ _ Hi)).
       by rewrite Hcf. }
  apply list_find_Some in Ei as (Ei & Ec & _). assert (c = px_config ps) as -> by (by eapply Huniq).
  intros [= <- <-]. apply (inv_written w); cbn; rewrite ?Hp, ?Hs, ?Hid; try done.
  - intros j' q. destruct (decide (j' = j)) as [->|].
    + rewrite lookup_insert_eq. intros [= <-]. cbn. split_and!; [done|by apply NoDup_delete| |].
      * intros c Hin'. destruct (Hlist c (elem_of_delete _ _ _ Hin')) as (k' & qs & Hk' & <-). exists k', qs. split; [|done].
        rewrite lookup_delete_ne; [done|]. intros ->. assert (qs = ps) as -> by congruence.
        rewrite delete_take_drop, elem_of_app in Hin'.
        rewrite <- (take_drop_middle (pj_configs p) i' (px_config ps) Ei) in Hn. apply NoDup_app in Hn as (_ & H1 & H2).
        apply NoDup_cons in H2 as [H2 _]. destruct Hin' as [Hin'|Hin']; [|done]. apply (H1 _ Hin'). by constructor.
      * intros k' qs. intros [Hne Hk']%lookup_delete_Some. destruct (Hrun k' qs Hk') as [Hin' Hat]. split; [|done].
        rewrite delete_take_drop, elem_of_app. rewrite <- (take_drop_middle (pj_configs p) i' (px_config ps) Ei) in Hin'.
        apply elem_of_app in Hin' as [?|[E|?]%elem_of_cons]; [by left| |by right]. exfalso. apply Hne.
        assert ((j, k) = (j, k')) as [=]; [|done].
        apply (inv_own _ HI _ _ ps qs (px_config ps)); [by eapply proxy_at_intro|exact Hat|by left|by left].
    + rewrite lookup_insert_ne by done. by apply inv_kept.
  - apply map_eq. intros j'. rewrite lookup_fmap. destruct (decide (j' = j)) as [->|].
    + rewrite !lookup_insert_eq. cbn. f_equal. apply config_of_frame. cbn. by rewrite Hc.
    + rewrite !lookup_insert_ne by done. exact (inv_stored _ HI j').
Qed.

Definition with_weight (b : BackendSpec) (x : Z) : BackendSpec := {| b_Address := b_Address b; b_Zone := b_Zone b; b_Role := b_Role b;
  b_Weight := x; b_ManagedByAgent := b_ManagedByAgent b; b_AgentAddress := b_AgentAddress b; b_AgentToken := b_AgentToken b;
  b_AdminDsn := b_AdminDsn b; b_PeerAddress := b_PeerAddress b; b_AgentConfig := b_AgentConfig b |}.

Lemma UpdateBackend_inv w j k address b r w' :
  Inv w -> UpdateBackend true w j k address (Some b) = (r, w') ->
  (forall ps i b0, proxy_at w (j, k) = Some ps -> spec_index (config_backends w ps) address = Some (i, b0) ->
     exists x, 0 < x /\ b = with_weight b0 x) -> Inv w'.
Proof.
  intros HI. unfold UpdateBackend, GetProjectState.
  reach_proxy w j k p ps Hj Hk.
  destruct (node_index w ps address) as [[i n]|] eqn:Hi; [|by intros [= <- <-]].
  pose proof (proxy_at_intro _ _ _ _ _ Hj Hk) as Hat.
  destruct (inv_proxy _ HI _ _ Hat) as [Hs Hn (cfg & Hc & _ & Hf & Hr)]. destruct (inv_project _ HI _ _ Hj) as [Hid _].
  change (config_backends (alter_node w (node_SetWeight (b_Weight b)) n) ps) with (config_backends w ps).
  assert (config_backends w ps = p_Backends cfg) as Ecb by (unfold config_backends; by rewrite Hc). rewrite Ecb.
  pose proof (index_match w (p_MaxConns cfg) address (backends_of w ps) (p_Backends cfg) Hr Hf) as Hm.
  pose proof Hi as Hi'. unfold node_index in Hi'. rewrite Hi' in Hm.
  destruct (spec_index (p_Backends cfg) address) as [[i' b0]|] eqn:Ei; [|done]. injection Hm as <-.
  intros Heq Hb. destruct (Hb ps i b0 Hat) as (x & Hx & ->); [by rewrite Ecb|]. injection Heq as <- <-.
  apply list_find_Some in Hi' as (Hin & _ & _). apply list_find_Some in Ei as (Hib & _ & _).
  match goal with |- Inv ?y => set (w2 := y) end.
  assert (forall l, l <> n -> desc_at w2 l = desc_at w l) as Hd.
  { intros l Hl. unfold w2, desc_at. cbn. by rewrite lookup_alter_ne. }
  assert (desc_at w n = Some (spec_desc (p_MaxConns cfg) b0)) as Hdn0.
  { apply (f_equal (fun l => l !! i)) in Hr. unfold listed_of, configured in Hr. rewrite !list_lookup_fmap, Hin, Hib in Hr. by injection Hr. }
  assert (desc_at w2 n = Some (spec_desc (p_MaxConns cfg) (with_weight b0 x))) as Hdn.
  { unfold w2. unfold desc_at in *. cbn. rewrite lookup_alter_eq. destruct (nodes w !! n) as [nd|]; [|done]. injection Hdn0 as E.
    cbn. f_equal. unfold node_desc, spec_desc in *. cbn. destruct (backend_addresses _ _). unfold backend_weight in *.
    rewrite decide_False by lia. injection E as -> -> -> -> -> _ -> ->. done. }
  edestruct (inv_rewrite w w2 j p k ps (px_backends ps) cfg (<[i := with_weight b0 x]> (p_Backends cfg))) as (HI' & _); try done.
  - unfold w2. cbn. symmetry. apply insert_id. rewrite Hj. f_equal. destruct p as [? ? ? ? ? prx ? ?]. unfold set_proxies. cbn in *. f_equal.
    symmetry. apply insert_id. rewrite Hk. by destruct ps.
  - unfold w2. cbn. exact (configs_alter _ _ _ _ Hc).
  - intros l _ Hl. apply Hd. intros ->. apply Hl. by eapply list_elem_of_lookup_2.
  - by left.
  - intros m Hm. by left.
  - apply Forall_insert; [done|]. rewrite Forall_lookup in Hf. exact (Hf _ _ Hib).
  - change (desc_at w2 <$> backends_of w ps = configured (set_backends cfg (<[i := with_weight b0 x]> (p_Backends cfg)))).
    unfold configured. cbn. rewrite list_fmap_insert. rewrite <- Hdn.
    change (desc_at w2 <$> backends_of w ps = <[i := desc_at w2 n]> (configured cfg)). rewrite <- Hr. unfold listed_of.
    apply list_eq. intros q. rewrite list_lookup_fmap. destruct (decide (q = i)) as [->|Hq].
    + rewrite list_lookup_insert_eq by (rewrite length_fmap; by eapply lookup_lt_Some). by rewrite Hin.
    + rewrite list_lookup_insert_ne, list_lookup_fmap by done. destruct (backends_of w ps !! q) as [l|] eqn:El; [|done]. cbn. f_equal.
      apply Hd. intros ->. apply Hq. by eapply NoDup_lookup.
  - intros j' Hj'. unfold w2. cbn. by rewrite Hid, lookup_insert_ne.
  - unfold w2. cbn. by rewrite Hid, lookup_insert_eq.
Qed.

(** ** Restarts

    The fleets an operator reaches through the API, every write to the store having
    succeeded: started from a store whose proxies can start, then changed by adding
    backends whatever comes of it, removing them, reweighting them, and by adding and
    removing proxies and projects. *)
Inductive managed : Fleet -> Prop :=
| managed_start listens s : startable_store listens s -> managed (NewRegistry listens s)
| managed_add_backend w ok spare install initialize j k c r w' :
    managed w -> AddBackend ok spare install initialize w j k c = (r, w') -> managed w'
| managed_remove_backend w j k address r w' :
    managed w -> RemoveBackend true w j k address = (r, w') -> r <> Some Panicked -> managed w'
| managed_reweight w j k address b r w' :
    managed w -> UpdateBackend true w j k address (Some b) = (r, w') ->
    (forall ps i b0, proxy_at w (j, k) = Some ps -> spec_index (config_backends w ps) address = Some (i, b0) ->
       exists x, 0 < x /\ b = with_weight b0 x) -> managed w'
| managed_add_proxy listens w j cfg uid r w' :
    managed w -> proxy_at w (j, p_Id cfg) = None -> p_Id cfg <> [] -> startable listens cfg ->
    AddProxy listens true w j (Some cfg) uid = (r, w') -> managed w'
| managed_remove_proxy w j k r w' : managed w -> RemoveProxy true w j k = (r, w') -> managed w'
| managed_create_project listens w request project id ids now r w' :
    managed w -> projects w !! id = None ->
    startable_project listens {| j_Id := id; j_Name := []; j_Protocol := [];
      j_Proxies := with_ids (from_option j_Proxies [] project) ids; j_CreatedAt := now |} ->
    CreateProject listens true w request project id ids now = (r, w') -> managed w'
| managed_delete_project w j r w' : managed w -> DeleteProject true w j = (r, w') -> managed w'.

Lemma managed_inv w : managed w -> Inv w.
Proof.
  induction 1; [by apply NewRegistry_runs|by eapply AddBackend_inv|by eapply RemoveBackend_inv|by eapply UpdateBackend_inv|
    by eapply AddProxy_inv|by eapply RemoveProxy_inv|by eapply CreateProject_inv|by eapply DeleteProject_inv].
Qed.
End Operations.

(** ** A start leaves every backend alive *)

Section Started.
Context `{Defaults} (listens : bytes -> bool) (Hlistens : forall addr, listens addr = true).

(** Nothing has been cancelled or closed. *)
Definition untouched (w : Fleet) : Prop :=
  cancelled w = ∅ /\ map_Forall (fun _ x => n_closed x = false /\ is_Some (n_started x)) (nodes w).

Lemma untouched_backend ctx maxConns w b : untouched w -> untouched (snd (create_backend ctx maxConns w b)).
Proof using.
  intros [Hc Hn]. unfold create_backend, NewServer. destruct (backend_addresses _ _) as [addr agentAddr].
  case_decide; [by split|]. cbn. split; [done|]. unfold alter_node. cbn. rewrite !alter_insert_eq.
  apply map_Forall_insert_2; [cbn; eauto|done].
Qed.

Lemma untouched_backends ctx maxConns l : forall w, untouched w -> untouched (snd (create_backends ctx maxConns w l)).
Proof using.
  induction l as [|b l IH]; intros w Hw; [done|]. cbn [create_backends].
  pose proof (untouched_backend ctx maxConns w b Hw) as H1. destruct (create_backend ctx maxConns w b) as [n w1]. cbn [snd] in H1.
  specialize (IH w1 H1). by destruct (create_backends ctx maxConns w1 l).
Qed.

Lemma untouched_proxy w ctx c cfg : untouched w -> untouched (snd (CreateProxyState listens w ctx c cfg)).
Proof using Hlistens.
  intros Hw. unfold CreateProxyState, WithCancel, fresh. rewrite Hlistens. set (w1 := {| next := S (next w) |}).
  assert (untouched w1) as H1 by done. pose proof (untouched_backends (next w :: ctx) (p_MaxConns cfg) (p_Backends cfg) w1 H1) as H2.
  destruct (create_backends _ _ _ _) as [ns w2]. done.
Qed.

Lemma untouched_proxies ctx l : forall w acc, untouched w -> untouched (snd (create_proxies listens ctx w l acc)).
Proof using Hlistens.
  induction l as [|cfg l IH]; intros w acc Hw; [done|]. cbn [create_proxies]. unfold new_config, fresh.
  set (w1 := set_configs _ _). assert (untouched w1) as H1 by done. pose proof (untouched_proxy w1 ctx (next w) cfg H1) as H2.
  destruct (CreateProxyState _ _ _ _ _) as [r w2]. cbn [snd] in H2.
  specialize (IH w2 (match r with Ok ps => <[p_Id cfg := ps]> acc | Err _ => acc end) H2). by destruct (create_proxies _ _ _ _ _) as [[cs m] w3].
Qed.

Lemma untouched_registry store : untouched (NewRegistry listens store).
Proof using Hlistens.
  unfold NewRegistry. assert (untouched (no_fleet store)) as H0 by (split; [done|apply map_Forall_empty]).
  revert H0. generalize (no_fleet store). induction (map snd (map_to_list store)) as [|pcfg l IH]; intros w Hw; [done|].
  cbn [foldl]. apply IH. unfold load_project, CreateProjectState, WithCancel, fresh.
  set (w1 := {| next := S (next w) |}). assert (untouched w1) as H1 by done.
  pose proof (untouched_proxies (next w :: [0%nat]) (j_Proxies pcfg) w1 ∅ H1) as H2. by destruct (create_proxies _ _ _ _ _) as [[cs m] w2].
Qed.

Lemma registry_alive store a ps n :
  Inv (NewRegistry listens store) -> proxy_at (NewRegistry listens store) a = Some ps ->
  n ∈ backends_of (NewRegistry listens store) ps -> alive (NewRegistry listens store) n.
Proof using Hlistens.
  intros HI Hps Hn. destruct (untouched_registry store) as [Hc HF]. set (w := NewRegistry listens store) in *.
  destruct (inv_proxy _ HI _ _ Hps) as [_ _ (cfg & _ & _ & _ & Hl)].
  assert (desc_at w n ∈ listed_of w ps) as Hd by (unfold listed_of; by apply list_elem_of_fmap_2).
  rewrite Hl in Hd. unfold configured in Hd. apply list_elem_of_fmap in Hd as (b & Hd & _). unfold desc_at in Hd.
  destruct (nodes w !! n) as [x|] eqn:Hx; [|done]. destruct (HF n x Hx) as [Hcl [ctx Hst]]. exists x, ctx.
  split_and!; [done|done|done|]. unfold Fleet.done. rewrite Hc. apply bool_decide_eq_false. intros (c & _ & Hin)%Exists_exists. set_solver.
Qed.
End Started.

(** ** Theorems *)

(** C34: A restart lists, for every proxy of every project, the backends the proxy
    listed: addresses, zones, agents with their tokens, roles, weights, ceilings and
    own credentials, in their order; and starts each of them, open and under a
    context that has not ended, whatever had become of them.  It holds of every
    fleet reached ([managed]) from a store whose proxies can start, each backend
    with an address of its own, by adding backends whatever comes of it, removing
    them, changing the weight of one to another positive one and nothing else of
    it, adding proxies under a new identifier that is given, removing proxies, and
    creating and deleting projects, the store having written every change but a
    failed addition.  Outside of that it does not: see the examples below of a
    backend known only by its agent and of an update of more than the weight. *)
Theorem restart_resumes (D D' : Defaults) (listens : bytes -> bool) (w : Fleet) :
  @managed D w -> (forall addr, listens addr = true) ->
  let w' := @NewRegistry D' listens (stored w) in
  (forall a, listed w' a = listed w a) /\
  (forall a ps n, proxy_at w' a = Some ps -> n ∈ backends_of w' ps -> alive w' n).
Proof.
  intros Hm Hl w'. pose proof (@managed_inv D w Hm) as HI.
  destruct (@NewRegistry_runs D' listens (stored w)) as (HI' & _ & Hr); [by apply inv_startable|].
  split; [|intros a ps n; by apply registry_alive]. intros a. subst w'. by rewrite Hr, listed_stored.
Qed.

(** A failed addition leaves the backends there were, and at most one more, closed. *)
Lemma AddBackend_nodes `{Defaults} ok spare install initialize w w' j k c e :
  Inv w -> AddBackend ok spare install initialize w j k c = (Some e, w') ->
  (forall n, n <> next w -> nodes w' !! n = nodes w !! n) /\
  (forall x, nodes w' !! next w = Some x -> nodes w !! next w = Some x \/ e = Panicked \/ n_closed x = true).
Proof.
  intros HI. unfold AddBackend, GetProjectState.
  destruct (projects w !! j) as [p|] eqn:Hj; [|intros [= <- <-]; by eauto].
  destruct (lock p); [intros [= <- <-]; by eauto|].
  destruct (pj_proxies p !! k) as [ps|] eqn:Hk; [|intros [= <- <-]; by eauto].
  destruct c as [b|]; [|intros [= <- <-]; by eauto].
  destruct (fill_addresses b) as [b'|] eqn:Hb; [|intros [= <- <-]; by eauto].
  destruct (fill_addressed _ _ Hb) as (_ & Hb2 & _).
  destruct (NewServer_ok w (b_Address b') (b_Zone b') (b_AgentAddress b') (b_AgentToken b') (backend_role (b_Role b'))
    (backend_weight (b_Weight b')) (from_option p_MaxConns 0 (configs w !! px_config ps)) (b_AdminDsn b') Hb2)
    as (w1 & node & -> & En & _ & _ & Ea & Ecf & Ep & Es & Ex).
  rewrite En, lookup_insert_eq. cbn [mbind option_bind]. destruct (prepare_node node b' install initialize) as [e'|].
  - intros Heq. assert (e' = e /\ (e = Panicked /\ w' = w1 \/ w' = alter_node w1 node_Close (next w))) as [-> [[-> ->]| ->]].
    { destruct e'; injection Heq as <- <-; auto. }
    + rewrite En. split; [intros n Hn; by rewrite lookup_insert_ne|]. auto.
    + cbn. rewrite En. split; [intros n Hn; by rewrite lookup_alter_ne, lookup_insert_ne|].
      rewrite lookup_alter_eq, lookup_insert_eq. intros x [= <-]. by auto.
  - intros Ha. destruct (inv_proxy _ HI _ _ (proxy_at_intro _ _ _ _ _ Hj Hk)) as [_ _ (cfg & Hc & _)].
    destruct (adopt_shape _ _ _ _ _ _ _ _ _ _ _ _ Hc En Ea Ecf Ep Es Ex Ha) as (Er & _ & _ & _ & _ & _ & Fn & x & Fx & _ & Fcl).
    split; [done|]. rewrite Fx. intros y [= <-]. destruct ok; [done|]. auto.
Qed.

(** An addition that is answered with an error is undone: every proxy runs what it ran,
    the store is as it was, the backends there were are untouched and a backend made on
    the way is closed, unless the call panicked. *)
Theorem failed_addition_undone `{Defaults} ok spare install initialize w w' j k c e :
  managed w -> AddBackend ok spare install initialize w j k c = (Some e, w') ->
  (forall a, listed w' a = listed w a) /\ stored w' = stored w /\
  (forall n, (n < next w)%nat -> nodes w' !! n = nodes w !! n) /\
  (forall n x, nodes w' !! n = Some x -> nodes w !! n = None -> e <> Panicked -> n_closed x = true).
Proof.
  intros HI%managed_inv Ha. destruct (AddBackend_inv _ _ _ _ _ _ _ _ _ _ HI Ha) as (_ & Ho & Hr & Hs).
  destruct (AddBackend_nodes _ _ _ _ _ _ _ _ _ _ HI Ha) as [Hn Hx].
  split_and!; [intros a; destruct (decide (a = (j, k))) as [->|]; auto|done| |].
  - intros n Hlt. apply Hn. lia.
  - intros n x Hx' Hnone He. destruct (decide (n = next w)) as [->|Hne]; [|rewrite Hn in Hx' by done; congruence].
    destruct (Hx x Hx') as [?|[?|?]]; congruence.
Qed.

(** What a proxy was created with, of the things its backends are read from: the
    balancer's nodes, the monitor's targets, and the slice the others captured. *)
Definition wired (ps : Proxy) : list nat * list nat * Slice.slice := (px_nodes ps, px_targets ps, px_captured ps).

Lemma wired_insert w w' j p k ps s : projects w !! j = Some p -> pj_proxies p !! k = Some ps -> pj_Id p = j ->
  projects w' = <[pj_Id p := set_proxies p (<[k := set_slice ps s]> (pj_proxies p))]> (projects w) ->
  forall a, wired <$> proxy_at w' a = wired <$> proxy_at w a.
Proof.
  intros Hj Hk Hid Hw a. rewrite Hid in Hw. rewrite (proxy_at_insert w w' j p k (set_slice ps s) a Hj Hw).
  case_decide as Ha; [|done]. subst a. by rewrite (proxy_at_intro _ _ _ _ _ Hj Hk).
Qed.

(** Adding, removing and updating backends never reaches what routes: the balancer, the
    health monitor and the slice the failover manager captured stay what they were when
    the proxy was created. *)
Theorem routing_fixed_at_creation `{Defaults} ok spare install initialize w w' j k c address r :
  managed w ->
  AddBackend ok spare install initialize w j k c = (r, w') \/ RemoveBackend ok w j k address = (r, w') \/
  UpdateBackend ok w j k address c = (r, w') ->
  forall a, wired <$> proxy_at w' a = wired <$> proxy_at w a.
Proof.
  intros HI%managed_inv Hop a. assert (forall p, projects w !! j = Some p -> pj_Id p = j) as Hid by (intros p Hp; by apply (inv_project _ HI)).
  destruct Hop as [Ha|[Hr|Hu]].
  - revert Ha. unfold AddBackend, GetProjectState.
    reach_proxy w j k p ps Hj Hk.
    destruct c as [b|]; [|by intros [= <- <-]]. destruct (fill_addresses b) as [b'|] eqn:Hb; [|by intros [= <- <-]].
    destruct (fill_addressed _ _ Hb) as (_ & Hb2 & _).
    destruct (NewServer_ok w (b_Address b') (b_Zone b') (b_AgentAddress b') (b_AgentToken b') (backend_role (b_Role b'))
      (backend_weight (b_Weight b')) (from_option p_MaxConns 0 (configs w !! px_config ps)) (b_AdminDsn b') Hb2)
      as (w1 & node & -> & En & _ & _ & Ea & Ecf & Ep & Es & Ex).
    destruct (nodes w1 !! next w ≫= _) as [e|].
    { intros Heq. assert (projects w' = projects w) as E by (destruct e; injection Heq as <- <-; exact Ep). unfold proxy_at. by rewrite E. }
    intros Ha. destruct (inv_proxy _ HI _ _ (proxy_at_intro _ _ _ _ _ Hj Hk)) as [_ _ (cfg & Hc & _)].
    destruct (adopt_shape _ _ _ _ _ _ _ _ _ _ _ _ Hc En Ea Ecf Ep Es Ex Ha) as (_ & _ & _ & _ & Fp & _).
    eapply (wired_insert w); eauto.
  - revert Hr. unfold RemoveBackend, GetProjectState.
    reach_proxy w j k p ps Hj Hk.
    destruct (node_index w ps address) as [[i n]|]; [|by intros [= <- <-]].
    destruct (spec_index _ address) as [[i' b]|]; cbn.
    + case_match; [by intros [= <- <-]|]. intros Hr. eapply (wired_insert w); eauto. by destruct ok; injection Hr as <- <-.
    + intros Hr. eapply (wired_insert w); eauto. by destruct ok; injection Hr as <- <-.
  - revert Hu. unfold UpdateBackend, GetProjectState.
    reach_proxy w j k p ps Hj Hk.
    destruct (node_index w ps address) as [[i n]|]; [|by intros [= <- <-]]. destruct c as [b|]; [|by intros [= <- <-]].
    intros Hu. assert (projects w' = projects w) as E.
    { destruct (spec_index _ address) as [[]|]; destruct ok; by injection Hu as <- <-. }
    unfold proxy_at. by rewrite E.
Qed.

(** *** A small fleet *)

Definition spec (addr role : bytes) : BackendSpec := {| b_Address := addr; b_Zone := []; b_Role := role; b_Weight := 1;
  b_ManagedByAgent := false; b_AgentAddress := []; b_AgentToken := []; b_AdminDsn := []; b_PeerAddress := bs "10.1.0.9:5432";
  b_AgentConfig := None |}.
Definition two_backends : ProxyConfig := {| p_Id := bs "main"; p_Name := []; p_Address := bs ":5432";
  p_Backends := [spec (bs "db1:5432") (bs "primary"); spec (bs "db2:5432") (bs "replica")]; p_Balancer := []; p_MaxConns := 10 |}.
Definition shop : ProjectConfig := {| j_Id := bs "shop"; j_Name := []; j_Protocol := bs "postgres"; j_Proxies := [two_backends];
  j_CreatedAt := 0 |}.
#[local] Instance plain : Defaults := {| limits := true; dials := fun _ => true |}.
Definition everywhere (addr : bytes) : bool := true.
Definition started : Fleet := NewRegistry everywhere {[bs "shop" := shop]}.

Lemma started_managed : managed started.
Proof.
  apply managed_start. intros j pcfg Hj. apply lookup_singleton_Some in Hj as [<- <-].
  split; [done|]. split; [|by_decide]. apply NoDup_singleton.
Qed.

Definition add (w : Fleet) (ok : bool) (b : BackendSpec) : option err * Fleet := AddBackend ok 0 Refused Refused w (bs "shop") (bs "main") (Some b).
Definition third : BackendSpec := spec (bs "db3:5432") (bs "replica").
Definition proxy_of (w : Fleet) : Proxy := default {| px_config := 0; px_backends := {| Slice.sl_array := 0; Slice.sl_len := 0 |};
  px_captured := {| Slice.sl_array := 0; Slice.sl_len := 0 |}; px_nodes := []; px_targets := []; px_ctx := []; px_listening := false |}
  (proxy_at w (bs "shop", bs "main")).
Definition addresses (w : Fleet) (l : list nat) : list bytes := map (address_of w) l.
Definition watched (w : Fleet) : list bytes := addresses w (Slice.view (arrays w) (px_captured (proxy_of w))).
Definition served (w : Fleet) : list bytes := addresses w (backends_of w (proxy_of w)).

Lemma restart_resumes_witness :
  let w := snd (add started true third) in
  listed (NewRegistry everywhere (stored w)) (bs "shop", bs "main") = listed w (bs "shop", bs "main") /\
  served w = map bs ["db1:5432"; "db2:5432"; "db3:5432"]%string.
Proof.
  split; [|vm_compute; reflexivity].
  refine (proj1 (restart_resumes plain plain everywhere (snd (add started true third)) _ (fun _ => eq_refl)) _).
  apply (managed_add_backend started true 0 Refused Refused (bs "shop") (bs "main") (Some third) None).
  - exact started_managed.
  - vm_compute. reflexivity.
Defined.

Lemma failed_addition_undone_witness :
  let w := snd (add started false third) in
  fst (add started false third) = Some StoreFailed /\
  (forall a, listed w a = listed started a) /\ stored w = stored started /\
  (forall n, (n < next started)%nat -> nodes w !! n = nodes started !! n) /\
  (forall n x, nodes w !! n = Some x -> nodes started !! n = None -> StoreFailed <> Panicked -> n_closed x = true).
Proof.
  split; [vm_compute; reflexivity|].
  refine (failed_addition_undone false 0 Refused Refused started (snd (add started false third)) (bs "shop") (bs "main") (Some third)
    StoreFailed started_managed _). vm_compute. reflexivity.
Defined.

(** A backend that is added is listed and stored, but no statement is routed to it. *)
Example added_backend_not_routed :
  let w := snd (add started true third) in
  fst (add started true third) = None /\ served w = map bs ["db1:5432"; "db2:5432"; "db3:5432"]%string /\
  addresses w (px_nodes (proxy_of w)) = map bs ["db1:5432"; "db2:5432"]%string /\
  watched w = map bs ["db1:5432"; "db2:5432"]%string.
Proof. vm_compute. done. Qed.

(** A backend that is removed stays in the balancer, its background checks go on, and if
    it is the last of the proxy the failover manager still sees it; another one is seen
    as the last one twice. *)
Example removed_backend_still_routed :
  let w := snd (RemoveBackend true started (bs "shop") (bs "main") (bs "db2:5432")) in
  let w1 := snd (RemoveBackend true started (bs "shop") (bs "main") (bs "db1:5432")) in
  served w = map bs ["db1:5432"]%string /\
  (exists n x, n ∈ px_nodes (proxy_of w) /\ nodes w !! n = Some x /\ n_address x = bs "db2:5432" /\ n_closed x = true /\
     exists ctx, n_started x = Some ctx /\ done w ctx = false) /\
  watched w = map bs ["db1:5432"; "db2:5432"]%string /\ watched w1 = map bs ["db2:5432"; "db2:5432"]%string.
Proof.
  vm_compute. split; [done|]. split; [|done]. eexists _, _. split; [right; left|]. do 3 (split; [reflexivity|]).
  eexists. split; reflexivity.
Qed.

(** A backend that is added gets neither the limits per database nor the peer address it
    has after a restart. *)
Example added_backend_lacks_limits :
  let w := snd (add started true third) in
  let place w := (fun x => (n_limits x, n_peer x)) <$> (last (backends_of w (proxy_of w)) ≫= fun n => nodes w !! n) in
  place w = Some (false, []) /\ place (NewRegistry everywhere (stored w)) = Some (true, bs "10.1.0.9:5432").
Proof. vm_compute. done. Qed.

(** A backend configured by the address of its agent alone comes back after its removal. *)
Definition by_agent : BackendSpec := {| b_Address := []; b_Zone := []; b_Role := []; b_Weight := 1; b_ManagedByAgent := false;
  b_AgentAddress := bs "db4:9091"; b_AgentToken := []; b_AdminDsn := []; b_PeerAddress := []; b_AgentConfig := None |}.
Definition agent_shop : Fleet := NewRegistry everywhere {[bs "shop" := {| j_Id := bs "shop"; j_Name := []; j_Protocol := bs "postgres";
  j_Proxies := [set_backends two_backends [by_agent]]; j_CreatedAt := 0 |}]}.
Example agent_only_backend_returns :
  let w := snd (RemoveBackend true agent_shop (bs "shop") (bs "main") (bs "db4:5432")) in
  fst (RemoveBackend true agent_shop (bs "shop") (bs "main") (bs "db4:5432")) = None /\
  served w = [] /\ served (NewRegistry everywhere (stored w)) = [bs "db4:5432"].
Proof. vm_compute. done. Qed.

(** An update changes what runs only in the weight: the role it sets takes effect at the
    next start, and a weight of zero, which a start reads as one, is applied as it is. *)
Example update_applies_weight_only :
  let b := {| b_Address := bs "db2:5432"; b_Zone := []; b_Role := bs "primary"; b_Weight := 0; b_ManagedByAgent := false;
     b_AgentAddress := []; b_AgentToken := []; b_AdminDsn := []; b_PeerAddress := []; b_AgentConfig := None |} in
  let w := snd (UpdateBackend true started (bs "shop") (bs "main") (bs "db2:5432") (Some b)) in
  let kind w := (fun x => (n_role x, n_weight x)) <$> (last (backends_of w (proxy_of w)) ≫= fun n => nodes w !! n) in
  kind w = Some (bs "replica", 0) /\ kind (NewRegistry everywhere (stored w)) = Some (bs "primary", 1).
Proof. vm_compute. done. Qed.

(** A proxy whose addition was refused because it could not be stored is stored by the
    next write. *)
Definition second_proxy : ProxyConfig := {| p_Id := bs "other"; p_Name := []; p_Address := bs ":5433"; p_Backends := []; p_Balancer := [];
  p_MaxConns := 10 |}.
Example refused_proxy_stored :
  let '(r, w) := AddProxy everywhere false started (bs "shop") (Some second_proxy) [] in
  let w' := snd (add w true third) in
  r = Err StoreFailed /\ proxy_at w (bs "shop", bs "other") = None /\
  (map p_Id ∘ j_Proxies) <$> stored w' !! bs "shop" = Some (map bs ["main"; "other"]%string).
Proof. vm_compute. done. Qed.

(** A project is created under the context of the call: when the call is over, the
    contexts of its proxies are done, while those of the projects of the store live on. *)
Example created_project_ends_with_its_request :
  let '(r, w) := CreateProject everywhere true started [7000%nat] (Some shop) (bs "new") [] 0 in
  let w := cancel w 7000 in
  (exists ps, proxy_at w (bs "new", bs "main") = Some ps /\ px_listening ps = true /\ done w (px_ctx ps) = true) /\
  done w (px_ctx (proxy_of w)) = false.
Proof. vm_compute. split; [|done]. eexists. done. Qed.

(** A discovery for a proxy that does not exist is a nil dereference under the read lock
    of the project, which nothing can change any more. *)
Example discovery_locks_project :
  let '(r, w) := DiscoverCluster (fun _ => true) (fun _ => 0%nat) started (bs "shop") (bs "mian") (Some [bs "db9:5432"]) in
  r = Err Panicked /\ fst (add w true third) = Some Blocked.
Proof. vm_compute. done. Qed.
