(* ===== verification/Management.v ===== *)
(** * The management plane: who may call it, and the advice it gives

    The interceptor in front of the RPCs ([middleware/auth.go]), logging in and
    creating users ([manager/auth.go]) over the user stores ([store/users.go],
    [store/sqlite_user.go]), the session tokens ([pkg/auth]), the project store;
    and the analysis of query plans and the tuning suggestions of package
    [insights].

    The token scheme and the password hash are libraries: their operations are
    parameters, what is relied on of them stated as hypotheses. *)
From Stdlib Require Import ZArith QArith Lia Strings.String.
From stdpp Require Import base gmap list numbers option.
From S2P Require Import Prelude Credentials Relay Format.
#[local] Open Scope Z_scope.

(** ** Session tokens: [pkg/auth] *)

Record Claims := { Username : bytes; Role : bytes }.

(** What a token carries. *)
Record SessionToken := { IssuedAt : Z; NotBefore : Z; Expiration : Z; Issuer : bytes; tk_username : option bytes; tk_role : option bytes }.

Definition TokenTTL : Z := 24 * 3600 * 1000000000.

(** The library: [seal key t] is the token text, [open_ key text] what decrypts. *)
Class TokenScheme := {
  seal : bytes -> SessionToken -> bytes;
  open_ : bytes -> bytes -> option SessionToken;
  derive : bytes -> bytes
}.

(** The bcrypt library: hashing can fail, on a password it does not take. *)
Class PasswordHash := {
  GenerateFromPassword : bytes -> option bytes;
  CompareHashAndPassword : bytes -> bytes -> bool
}.

Section Tokens.
Context {T : TokenScheme}.

Definition NewIssuer (secret : bytes) : option bytes := if decide (secret = []) then None else Some (derive secret).

Definition Issue (key : bytes) (now : Z) (username role : bytes) : option bytes :=
  if decide (username = []) then None
  else Some (seal key {| IssuedAt := now; NotBefore := now; Expiration := now + TokenTTL; Issuer := bs "pontus";
                         tk_username := Some username; tk_role := Some role |}).

(** The rules of the parser: not expired, valid at this time, issued here. *)
Definition token_valid (now : Z) (t : SessionToken) : bool :=
  bool_decide (now <= Expiration t /\ IssuedAt t <= now /\ NotBefore t <= now /\ Issuer t = bs "pontus").

Definition Verify (key : bytes) (now : Z) (token : bytes) : option Claims :=
  t ← open_ key token;
  if token_valid now t then
    username ← tk_username t;
    Some {| Username := username; Role := default [] (tk_role t) |}
  else None.

(** ** The interceptor *)

Inductive refusal := Unauthenticated | PermissionDenied.

Definition readOnlyProcedures : list bytes :=
  map bs ["/GetStatus"; "/StreamStatus"; "/ListProjects"; "/GetMetricsHistory"; "/GetTopQueriesHistory"; "/GetLogs";
          "/ListReplicationStreams"; "/GetServerInfo"]%string.

Definition HasSuffix (s p : bytes) : bool := bool_decide (p `suffix_of` s).
Definition TrimPrefix (s p : bytes) : bytes := if HasPrefix s p then drop (length p) s else s.

Record AuthInterceptor := { adminToken : bytes; issuer : option bytes }.

Definition validate (a : AuthInterceptor) (now : Z) (authorization procedure : bytes) : option refusal :=
  if decide (authorization = []) then Some Unauthenticated
  else
    let provided := TrimPrefix authorization (bs "Bearer ") in
    if decide (adminToken a <> [] /\ provided = adminToken a) then None
    else match issuer a with
         | None => Some Unauthenticated
         | Some key =>
             match Verify key now provided with
             | None => Some Unauthenticated
             | Some claims =>
                 if decide (Role claims = bs "admin") then None
                 else if existsb (HasSuffix procedure) readOnlyProcedures then None else Some PermissionDenied
             end
         end.

Definition isLogin (procedure : bytes) : bool := HasSuffix procedure (bs "/Login").

(** [WrapUnary] and [WrapStreamingHandler]: [None] calls the handler. *)
Definition intercept (a : AuthInterceptor) (now : Z) (authorization procedure : bytes) : option refusal :=
  if isLogin procedure then None else validate a now authorization procedure.

(** ** Users *)

Context {P : PasswordHash}.

Record User := { u_Username : bytes; u_Role : bytes; u_Token : bytes }.

Definition looks_hashed (password : bytes) : bool :=
  HasPrefix password (bs "$2a$") || HasPrefix password (bs "$2b$") || HasPrefix password (bs "$2y$").

(** [Upsert]: the store after, or [None] when the password could not be hashed. *)
Definition user_Upsert (users : gmap bytes User) (username password role : bytes) : option (gmap bytes User) :=
  hashed ← (if looks_hashed password then Some password else GenerateFromPassword password);
  Some (<[username := {| u_Username := username; u_Role := role; u_Token := hashed |}]> users).

Inductive login_err := NotConfigured | InvalidCredentials | NoToken.

Definition Login (key : option bytes) (users : gmap bytes User) (now : Z) (username password : bytes) :
    result login_err (bytes * bytes) :=
  match key with
  | None => Err NotConfigured
  | Some key =>
      match users !! username with
      | Some u =>
          if CompareHashAndPassword (u_Token u) password then
            match Issue key now username (u_Role u) with
            | Some token => Ok (token, u_Role u)
            | None => Err NoToken
            end
          else Err InvalidCredentials
      | None => Err InvalidCredentials
      end
  end.

Definition CreateUser (users : gmap bytes User) (username password role : bytes) : option (gmap bytes User * bytes) :=
  if decide (username = [] \/ password = []) then None
  else
    let role := if decide (role = []) then bs "viewer" else role in
    users ← user_Upsert users username password role;
    Some (users, role).

End Tokens.

(** The laws of the libraries: what was sealed opens with the same key only, and a
    hash compares with the password it was made from. *)
Class TokenLaws (T : TokenScheme) : Prop := {
  open_seal : forall key t, open_ key (seal key t) = Some t;
  open_only_sealed : forall key text t, open_ key text = Some t -> text = seal key t
}.

Class HashLaws (P : PasswordHash) : Prop := {
  compare_generated : forall pw h, GenerateFromPassword pw = Some h -> CompareHashAndPassword h pw = true
}.

(** ** Project store: [store/projects.go], saved whole after every change *)

Definition project_Upsert {A : Type} (projects : gmap bytes A) (id : bytes) (p : A) : gmap bytes A := <[id := p]> projects.
Definition project_Delete {A : Type} (projects : gmap bytes A) (id : bytes) : gmap bytes A := delete id projects.

(** ** Plans and advice: package [insights] *)

(** A decoded JSON value; of an object's keys the last of a name counts. *)
Inductive json :=
| JNull | JBool (b : bool) | JNumber (q : Q) | JString (s : bytes) | JArray (l : list json) | JObject (l : list (bytes * json)).

Definition last_named (k : bytes) (data : list (bytes * json)) : option json :=
  foldl (fun acc '(k', v) => if decide (k' = k) then Some v else acc) None data.

Definition as_string (v : option json) : option bytes := match v with Some (JString s) => Some s | _ => None end.
Definition as_number (v : option json) : option Q := match v with Some (JNumber q) => Some q | _ => None end.

Record Recommendation := { r_Type : bytes; r_Message : bytes; r_Impact : bytes; r_Advice : bytes }.

Definition exceeds (q : Q) (n : Z) : bool := negb (Qle_bool q (inject_Z n)).

Definition recommend (ty msg impact : bytes) : Recommendation :=
  {| r_Type := ty; r_Message := msg; r_Impact := impact; r_Advice := [] |}.

(** What [analyzeNode] says of one node. *)
Definition node_advice (data : list (bytes * json)) : list Recommendation :=
  let field k := last_named (bs k) data in
  let node := as_string (field "Node Type"%string) in
  (if decide (node = Some (bs "Seq Scan")) then
     if exceeds (default 0%Q (as_number (field "Plan Rows"%string))) 1000 then
       [recommend (bs "Missing Index")
          (bs "High-cost sequential scan on '" ++ default [] (as_string (field "Relation Name"%string)) ++
           bs "'. Suggested index on columns used in: " ++ default [] (as_string (field "Filter"%string))) (bs "High")]
     else []
   else []) ++
  (match as_string (field "Filter"%string) with
   | Some filter =>
       if Contains filter (bs "::") then
         [recommend (bs "Type Mismatch")
            (bs "Implicit type casting detected in filter. Ensure application types match database schema types.") (bs "Medium")]
       else []
   | None => []
   end) ++
  (if decide (node = Some (bs "Nested Loop")) then
     match as_number (field "Total Cost"%string) with
     | Some cost =>
         if exceeds cost 5000 then
           [recommend (bs "Join Optimization")
              (bs "Expensive Nested Loop join detected. Consider adding indexes to join columns.") (bs "Medium")]
         else []
     | None => []
     end
   else []).

(** [analyzeNode]: the node, then the elements of the last of its [Plans]. *)
Fixpoint analyzeNode (node : json) : list Recommendation :=
  match node with
  | JArray l => flat_map analyzeNode l
  | JObject data =>
      node_advice data ++
      (fix children (l : list (bytes * json)) : list Recommendation :=
         match l with
         | [] => []
         | (k, v) :: r =>
             if decide (k = bs "Plans") then
               if decide (last_named (bs "Plans") r = None) then
                 match v with JArray plans => flat_map analyzeNode plans | _ => [] end
               else children r
             else children r
         end) data
  | _ => []
  end.

(** [generateAIAdvice]. *)
Definition generateAIAdvice (r : Recommendation) : Recommendation :=
  let advice :=
    if decide (r_Type r = bs "Missing Index") then
      bs "SQL AI Advisor: Executing `CREATE INDEX idx_auto_gen ON relation (columns)` would likely reduce the query cost significantly."
    else if decide (r_Type r = bs "Type Mismatch") then
      bs "SQL AI Advisor: The plan shows implicit type casting. Update your application code to use the correct data types to allow the database to use existing indexes."
    else if decide (r_Type r = bs "Join Optimization") then
      bs "SQL AI Advisor: Consider using a different join order or ensuring that the join columns on both sides are indexed."
    else r_Advice r in
  {| r_Type := r_Type r; r_Message := r_Message r; r_Impact := r_Impact r; r_Advice := advice |}.

Record Insight := { i_Query : bytes; Recommendations : list Recommendation; Plan : bytes; LastAnalyzed : Z }.

(** [AnalyzePostgresPlan]; [decoded] is what [json.Unmarshal] made of the plan. *)
Definition AnalyzePostgresPlan (insights : gmap bytes Insight) (fingerprint query plan : bytes) (decoded : option (list json))
    (now : Z) : gmap bytes Insight :=
  match decoded with
  | None => insights
  | Some planData =>
      <[fingerprint := {| i_Query := query; Recommendations := map generateAIAdvice (analyzeNode (JArray planData));
                          Plan := plan; LastAnalyzed := now |}]> insights
  end.

(** One round of [StartBackgroundAnalysis] over the slowest statements; [explain] is
    the explainer, when there is one. *)
Definition analysis_round (explain : option (bytes -> option bytes)) (decode : bytes -> option (list json)) (now : Z)
    (top : list (bytes * Z)) (insights : gmap bytes Insight) : gmap bytes Insight :=
  foldl (fun acc '(query, maxTime) =>
           if decide (100000000 < maxTime) then
             match explain with
             | Some e => match e query with
                         | Some plan => AnalyzePostgresPlan acc query query plan (decode plan) now
                         | None => acc
                         end
             | None => acc
             end
           else acc) insights top.

(** The registry's explainer refuses every query. *)
Definition registry_Explain (query : bytes) : option bytes := None.

(** ** Tuning *)

(** [formatBytes]: [%.0f] rounds to the nearest, ties to even. *)
Definition round_half_even (num den : Z) : Z :=
  let q := num / den in
  let twice := 2 * (num mod den) in
  if decide (twice < den) then q else if decide (den < twice) then q + 1 else if Z.even q then q else q + 1.

Fixpoint unit_of (fuel : nat) (n div : Z) (exp : nat) : Z * nat :=
  match fuel with
  | O => (div, exp)
  | S fuel => if decide (1024 <= n) then unit_of fuel (n / 1024) (div * 1024) (S exp) else (div, exp)
  end.

Definition tuner_formatBytes (b : Z) : bytes :=
  if decide (b < 1024) then FormatInt b ++ bs " B"
  else
    let '(div, exp) := unit_of 6 (b / 1024) 1024 0 in
    FormatInt (round_half_even b div) ++ default (ch "?") (bs "KMGTPE" !! exp) :: bs "B".

Record SystemMetrics := { MemoryTotalBytes : Z; CpuCores : Z; OpenFilesLimit : Z; MaxProcessesLimit : Z }.

Definition Tune (metrics : option SystemMetrics) : list (bytes * bytes) * list bytes :=
  match metrics with
  | None => ([], [])
  | Some m =>
      if decide (MemoryTotalBytes m = 0) then ([], [])
      else
        let ram := MemoryTotalBytes m in
        let cores := if decide (CpuCores m = 0) then 1 else CpuCores m in
        let workMem := Z.min ((ram - ram / 4) / 200) (64 * 1024 * 1024) in
        let maintWorkMem := Z.min (ram / 16) (2 * 1024 * 1024 * 1024) in
        ([(bs "shared_buffers", tuner_formatBytes (ram / 4));
          (bs "effective_cache_size", tuner_formatBytes (u64 (ram * 3) / 4));
          (bs "work_mem", tuner_formatBytes workMem);
          (bs "maintenance_work_mem", tuner_formatBytes maintWorkMem);
          (bs "max_parallel_workers", FormatInt cores)],
         (if decide (0 < OpenFilesLimit m < 65536) then
            [bs "ulimit -n is currently " ++ FormatInt (OpenFilesLimit m) ++
             bs "; recommended at least 65536 for high-concurrency database workloads."] else []) ++
         (if decide (0 < MaxProcessesLimit m < 32768) then
            [bs "ulimit -u is currently " ++ FormatInt (MaxProcessesLimit m) ++
             bs "; recommended at least 32768 to avoid process exhaustion."] else []))
  end.

(** The statements [Apply] runs. *)
Definition tuning_statements (parameter value : bytes) : list bytes :=
  [bs "ALTER SYSTEM SET " ++ parameter ++ bs " = '" ++ value ++ bs "'"; bs "SELECT pg_reload_conf()"].

(** ** From a password to a call *)

Lemma TrimPrefix_app p s : TrimPrefix (p ++ s) p = s.
Proof.
  unfold TrimPrefix, HasPrefix. rewrite take_app_length, bool_decide_true by done. apply drop_app_length.
Qed.

Definition readable (procedure : bytes) : Prop := existsb (HasSuffix procedure) readOnlyProcedures = true.

(** A user created with a password logs in with it; the token then opens every
    call to an administrator and the read-only calls to anybody else, from the
    moment it was issued until its day is over, and nothing after that. *)
Theorem login_grants_role (T : TokenScheme) (P : PasswordHash) (users users' : gmap bytes User)
    (key username password role granted procedure : bytes) (now later : Z) :
  TokenLaws T -> HashLaws P -> looks_hashed password = false -> isLogin procedure = false ->
  CreateUser users username password role = Some (users', granted) ->
  exists token,
    Login (Some key) users' now username password = Ok (token, granted) /\
    (now <= later <= now + TokenTTL ->
       intercept {| adminToken := []; issuer := Some key |} later (bs "Bearer " ++ token) procedure = None <->
       granted = bs "admin" \/ readable procedure) /\
    (now + TokenTTL < later ->
       intercept {| adminToken := []; issuer := Some key |} later (bs "Bearer " ++ token) procedure = Some Unauthenticated).
Proof.
  intros HT HP Hraw Hlogin Hc. unfold CreateUser in Hc. case_decide as Hne; [done|].
  unfold user_Upsert in Hc. rewrite Hraw in Hc.
  destruct (GenerateFromPassword password) as [h|] eqn:Eh; [|done]. cbn [mbind option_bind] in Hc. injection Hc as <- Hg.
  unfold Login. rewrite lookup_insert_eq. cbn [u_Token u_Role].
  rewrite (compare_generated password h Eh). unfold Issue. rewrite decide_False by tauto.
  rewrite Hg. eexists. split; [done|]. unfold intercept. rewrite Hlogin. unfold validate.
  rewrite (decide_False (P := _ ++ _ = [])) by (vm_compute; done). cbn [adminToken issuer].
  rewrite TrimPrefix_app, (decide_False (P := _ /\ _)) by (intros [H _]; done).
  unfold Verify. rewrite open_seal. cbn [mbind option_bind]. unfold token_valid. cbn [Expiration IssuedAt NotBefore Issuer].
  split.
  - intros Hin. rewrite bool_decide_true by (split_and!; [lia..|done]). cbn [tk_username tk_role mbind option_bind Role from_option id default].
    unfold readable. destruct (decide (granted = bs "admin")) as [->|Hna]; [tauto|].
    destruct (existsb _ _); naive_solver.
  - intros Hout. rewrite bool_decide_false by lia. done.
Qed.

(** The static token of the configuration, where there is one. *)
Definition presents_static (a : AuthInterceptor) (authorization : bytes) : Prop :=
  adminToken a <> [] /\ TrimPrefix authorization (bs "Bearer ") = adminToken a.

Lemma admitted_by (T : TokenScheme) (a : AuthInterceptor) (now : Z) (authorization procedure : bytes) :
  TokenLaws T -> isLogin procedure = false ->
  intercept a now authorization procedure = None ->
  presents_static a authorization \/
  exists key t, issuer a = Some key /\ TrimPrefix authorization (bs "Bearer ") = seal key t /\
    now <= Expiration t /\ NotBefore t <= now /\
    (tk_role t = Some (bs "admin") \/ readable procedure).
Proof.
  intros HT Hl H. unfold intercept in H. rewrite Hl in H. unfold validate in H. case_decide; [done|].
  case_decide as Hs; [by left|]. right. destruct (issuer a) as [key|]; [|done].
  destruct (Verify _ _ _) as [claims|] eqn:Ev; [|done]. unfold Verify in Ev.
  destruct (open_ key _) as [t|] eqn:Eo; [|done]. cbn in Ev. destruct (token_valid now t) eqn:Et; [|done].
  unfold token_valid in Et. apply bool_decide_eq_true in Et as (? & ? & ? & ?).
  destruct (tk_username t); [|done]. cbn in Ev. injection Ev as <-. cbn [Role] in H.
  exists key, t. split_and!; [done|by apply open_only_sealed|done|done|].
  case_decide as Hr.
  - left. destruct (tk_role t) as [r|]; cbn in Hr; [by rewrite Hr|]. vm_compute in Hr. done.
  - right. unfold readable. by destruct (existsb _ _).
Qed.

(** A call that is let through without the static token presents a token sealed
    with this server's key, valid now, of an administrator or for a read-only call. *)
Theorem admitted_calls_authorised (T : TokenScheme) (a : AuthInterceptor) (now : Z) (authorization procedure : bytes) :
  TokenLaws T -> adminToken a = [] -> isLogin procedure = false ->
  intercept a now authorization procedure = None ->
  exists key t, issuer a = Some key /\ TrimPrefix authorization (bs "Bearer ") = seal key t /\
    now <= Expiration t /\ NotBefore t <= now /\
    (tk_role t = Some (bs "admin") \/ readable procedure).
Proof. intros HT Ha Hl Hi. destruct (admitted_by T a now authorization procedure HT Hl Hi) as [[Hs _]|H]; [by rewrite Ha in Hs|done]. Qed.

(** ** Libraries that keep their laws *)

(** Tokens in the clear behind the key, as the bits of their encoding; a hash is the
    password behind a mark. *)
Definition token_tuple (t : SessionToken) : Z * Z * Z * bytes * option bytes * option bytes :=
  (IssuedAt t, NotBefore t, Expiration t, Issuer t, tk_username t, tk_role t).

Definition tuple_token (x : Z * Z * Z * bytes * option bytes * option bytes) : SessionToken :=
  let '(a, b, c, d, e, f) := x in
  {| IssuedAt := a; NotBefore := b; Expiration := c; Issuer := d; tk_username := e; tk_role := f |}.

#[local] Instance SessionToken_eq_dec : EqDecision SessionToken.
Proof. solve_decision. Defined.

#[local] Instance SessionToken_countable : Countable SessionToken.
Proof. apply (inj_countable' token_tuple tuple_token). by intros []. Defined.

Fixpoint positive_bits (p : positive) : bytes :=
  match p with xH => [ch "1"] | xO p => ch "0" :: positive_bits p | xI p => ch "2" :: positive_bits p end.

Fixpoint bits_positive (s : bytes) : option positive :=
  match s with
  | [] => None
  | c :: r =>
      if decide (c = ch "1") then Some xH
      else if decide (c = ch "0") then xO <$> bits_positive r else xI <$> bits_positive r
  end.

Lemma bits_positive_bits p : bits_positive (positive_bits p) = Some p.
Proof. induction p as [p IH|p IH|]; cbn [positive_bits bits_positive]; [| |done]; rewrite IH; done. Qed.

Definition clear_seal (key : bytes) (t : SessionToken) : bytes := key ++ positive_bits (encode t).

Definition clear_tokens : TokenScheme := {|
  seal := clear_seal;
  open_ := fun key text =>
    p ← bits_positive (drop (length key) text); t ← decode p; if decide (text = clear_seal key t) then Some t else None;
  derive := fun s => s |}.

Definition marked_hash : PasswordHash := {|
  GenerateFromPassword := fun pw => Some (bs "$2a$" ++ pw);
  CompareHashAndPassword := fun h pw => bool_decide (h = bs "$2a$" ++ pw) |}.

Lemma clear_laws : TokenLaws clear_tokens.
Proof.
  split; cbn [open_ seal clear_tokens].
  - intros key t. replace (drop (length key) (clear_seal key t)) with (positive_bits (encode t)) by (symmetry; apply drop_app_length).
    rewrite bits_positive_bits. cbn [mbind option_bind].
    rewrite decode_encode. cbn. by rewrite decide_True.
  - intros key text t. destruct (bits_positive _) as [p|]; [|done]. cbn. destruct (decode p) as [t'|]; [|done]. cbn.
    case_decide; [|done]. by intros [= ->].
Qed.

Lemma marked_laws : HashLaws marked_hash.
Proof. split. cbn. intros pw h [= <-]. by apply bool_decide_eq_true. Qed.

Definition ana : bytes := bs "ana".
Definition with_ana : gmap bytes User := {[ ana := {| u_Username := ana; u_Role := bs "viewer"; u_Token := bs "$2a$pw" |} ]}.

Lemma login_grants_role_witness : exists token,
  @Login clear_tokens marked_hash (Some (bs "k")) with_ana 0 ana (bs "pw") = Ok (token, bs "viewer").
Proof.
  destruct (login_grants_role clear_tokens marked_hash ∅ with_ana (bs "k") ana (bs "pw") [] (bs "viewer") (bs "/p/GetStatus") 0 5
              clear_laws marked_laws eq_refl eq_refl eq_refl) as (token & H & _).
  exists token. exact H.
Defined.

Lemma admitted_calls_authorised_witness : exists text,
  @intercept clear_tokens {| adminToken := []; issuer := Some (bs "k") |} 5 text (bs "/p/GetStatus") = None /\
  exists t, TrimPrefix text (bs "Bearer ") = clear_seal (bs "k") t.
Proof.
  exists (bs "Bearer " ++ clear_seal (bs "k") {| IssuedAt := 0; NotBefore := 0; Expiration := TokenTTL; Issuer := bs "pontus";
                                                 tk_username := Some ana; tk_role := None |}).
  assert (forall t, token_valid 5 t = true -> is_Some (tk_username t) ->
    @intercept clear_tokens {| adminToken := []; issuer := Some (bs "k") |} 5 (bs "Bearer " ++ clear_seal (bs "k") t)
      (bs "/p/GetStatus") = None) as Hi.
  { intros t Ht [u Hu]. unfold intercept, validate. rewrite TrimPrefix_app. unfold Verify.
    change (clear_seal (bs "k") t) with (@seal clear_tokens (bs "k") t) at 2. cbn [adminToken issuer].
    rewrite (@open_seal clear_tokens clear_laws). cbn [mbind option_bind]. rewrite Ht, Hu. cbn [mbind option_bind].
    rewrite (decide_False (P := _ /\ _)) by (intros [H _]; done). repeat case_match; done. }
  assert (@intercept clear_tokens {| adminToken := []; issuer := Some (bs "k") |} 5
    (bs "Bearer " ++ clear_seal (bs "k") {| IssuedAt := 0; NotBefore := 0; Expiration := TokenTTL; Issuer := bs "pontus";
                                            tk_username := Some ana; tk_role := None |}) (bs "/p/GetStatus") = None) as H.
  { apply Hi; [vm_compute; reflexivity|by eexists]. }
  split; [exact H|].
  destruct (admitted_calls_authorised clear_tokens {| adminToken := []; issuer := Some (bs "k") |} 5 _ (bs "/p/GetStatus")
              clear_laws eq_refl eq_refl H) as (key & t & Hk & Ht & _).
  injection Hk as <-. exists t. exact Ht.
Defined.

(** A password that begins like a hash is stored as it is and taken for one: its
    user cannot log in with it. *)
Example hash_like_password_locks_out :
  match @CreateUser marked_hash ∅ ana (bs "$2a$letmein") [] with
  | Some (users, _) => @Login clear_tokens marked_hash (Some (bs "k")) users 0 ana (bs "$2a$letmein") = Err InvalidCredentials
  | None => False
  end.
Proof. vm_compute. reflexivity. Qed.

(** ** Advice that is never given *)

(** PostgreSQL puts the tree of a plan under the key [Plan] of the one element
    of its answer, and the analysis descends into [Plans] only: it finds nothing in
    any plan.  The explainer the registry installs refuses every statement, so no
    plan reaches it anyway. *)
Theorem explain_output_not_analysed (plan : json) (decode : bytes -> option (list json))
    (now : Z) (top : list (bytes * Z)) (insights : gmap bytes Insight) :
  analyzeNode (JArray [JObject [(bs "Plan", plan)]]) = [] /\
  analysis_round (Some registry_Explain) decode now top insights = insights.
Proof.
  split; [reflexivity|]. unfold analysis_round. induction top as [|[q t] top IH]; [done|]. cbn. by case_decide.
Qed.

(** The tree by itself would have been read. *)
Example bare_plan_analysed :
  map r_Type (analyzeNode (JArray [JObject [(bs "Node Type", JString (bs "Nested Loop")); (bs "Total Cost", JNumber (9000 # 1)%Q);
    (bs "Plans", JArray [JObject [(bs "Node Type", JString (bs "Seq Scan")); (bs "Plan Rows", JNumber (5000 # 1)%Q);
                                  (bs "Filter", JString (bs "a = '1'::text"))]])]])) =
  [bs "Join Optimization"; bs "Missing Index"; bs "Type Mismatch"].
Proof. vm_compute. reflexivity. Qed.

(** Sizes are printed with whole units: a quarter of six gigabytes becomes a third. *)
Example quarter_becomes_third :
  head (Tune (Some {| MemoryTotalBytes := 6 * 1024 * 1024 * 1024; CpuCores := 4; OpenFilesLimit := 0; MaxProcessesLimit := 0 |})).1 =
  Some (bs "shared_buffers", bs "2GB").
Proof. vm_compute. reflexivity. Qed.
