(* ===== verification/Provisioner.v ===== *)
(** * Provisioning: the proxy's side of an agent

    [orchestration/postgres_provisioner.go] and [agent_tls.go]: which agent is
    asked and over what transport, how a node is promoted, rebuilt or created, and
    how the streams of an agent are read.  The requests and the streams are the
    data that pass between the proxy and the agent of [Rebuild]; a stream that
    breaks off arrives as a prefix of what was sent. *)
From Stdlib Require Import ZArith Lia Strings.String.
From stdpp Require Import base gmap list numbers option.
From S2P Require Import Prelude Format Credentials Host Rebuild Agent Config.
#[local] Open Scope Z_scope.

(** ** Addresses *)

(** What the provisioner reads of a backend; [admin] answers a query over the
    administrative connection, when there is one. *)
Record PBackend := {
  pb_Address : bytes; pb_AgentAddr : bytes; pb_AgentToken : bytes; pb_PeerAddress : bytes; pb_DataDirectory : bytes;
  pb_AdminCredentials : bytes * bytes; pb_admin : option (bytes -> result bytes bytes)
}.

Definition find_backend (backends : list PBackend) (addr : bytes) : option PBackend :=
  head (filter (fun b => pb_Address b = addr) backends).

Definition getHost (addr : bytes) : bytes := match SplitHostPort addr with Some (h, _) => h | None => addr end.

Definition defaultAgentPort : bytes := bs "9091".
Definition defaultPostgresPort : Z := 5432.

Definition agentAddressFor (b : PBackend) (fallbackHost : bytes) : bytes :=
  if decide (pb_AgentAddr b <> []) then pb_AgentAddr b else JoinHostPort fallbackHost defaultAgentPort.

(** [peerAddressFor]: a backend without a peer address is passed over. *)
Definition peerAddressFor (backends : list PBackend) (addr : bytes) : bytes :=
  match head (filter (fun b => pb_Address b = addr /\ pb_PeerAddress b <> []) backends) with
  | Some b => pb_PeerAddress b
  | None => addr
  end.

Definition replicationCredentials (backends : list PBackend) (addr : bytes) : bytes * bytes :=
  match find_backend backends addr with Some b => pb_AdminCredentials b | None => ([], []) end.

Definition prov_splitHostPort (addr : bytes) (fallback : Z) : bytes * Z :=
  match SplitHostPort addr with
  | None => (addr, fallback)
  | Some (h, p) => (h, default fallback (ParseInt64 p))
  end.

(** ** The transport to an agent *)

Definition decimal_octet (s : bytes) : option Z :=
  if decide ((length s = 0)%nat \/ (3 < length s)%nat \/ (1 < length s)%nat /\ head s = Some (ch "0")) then None
  else n ← parse_digits s 0; if decide (n <= 255) then Some n else None.

(** [net.ParseIP] of a dotted address: its four bytes. *)
Definition parse_ipv4 (s : bytes) : option (list Z) :=
  match split_on (ch ".") s with
  | [a; b; c; d] =>
      a ← decimal_octet a; b ← decimal_octet b; c ← decimal_octet c; d ← decimal_octet d; Some [a; b; c; d]
  | _ => None
  end.

Definition hex_digit (c : byte) : option Z :=
  if decide (48 <= bval c <= 57) then Some (bval c - 48)
  else if decide (97 <= bval c <= 102) then Some (bval c - 87)
  else if decide (65 <= bval c <= 70) then Some (bval c - 55) else None.

Definition hex_group (s : bytes) : option Z :=
  if decide ((length s = 0)%nat \/ (4 < length s)%nat) then None
  else foldl (fun acc c => a ← acc; d ← hex_digit c; Some (a * 16 + d)) (Some 0) s.

(** The groups of a part of an address; the last may be a dotted address. *)
Fixpoint ipv6_groups (parts : list bytes) (dotted_last : bool) : option (list Z) :=
  match parts with
  | [] => Some []
  | [p] =>
      match hex_group p with
      | Some g => Some [g]
      | None => if dotted_last then
                  l ← parse_ipv4 p;
                  match l with [a; b; c; d] => Some [a * 256 + b; c * 256 + d] | _ => None end
                else None
      end
  | p :: r => g ← hex_group p; gs ← ipv6_groups r dotted_last; Some (g :: gs)
  end.

(** Where the run of zeros is left out. *)
Fixpoint cut_double_colon (s : bytes) : option (bytes * bytes) :=
  match s with
  | c :: ((d :: r) as r1) =>
      if decide (c = ch ":" /\ d = ch ":") then Some ([], r)
      else '(a, b) ← cut_double_colon r1; Some (c :: a, b)
  | _ => None
  end.

Definition part_groups (s : bytes) (dotted_last : bool) : option (list Z) :=
  if decide (s = []) then Some [] else ipv6_groups (split_on (ch ":") s) dotted_last.

Definition parse_ipv6 (s : bytes) : option (list Z) :=
  match cut_double_colon s with
  | None => gs ← part_groups s true; if decide (length gs = 8)%nat then Some gs else None
  | Some (l, r) =>
      gl ← part_groups l false; gr ← part_groups r true;
      let n := (length gl + length gr)%nat in
      if decide (n < 8)%nat then Some (gl ++ replicate (8 - n) 0 ++ gr) else None
  end.

(** [IP.IsLoopback]: 127.0.0.0/8, written either way, or the last of the zero addresses. *)
Definition ip_loopback (s : bytes) : bool :=
  match parse_ipv4 s with
  | Some l => bool_decide (head l = Some 127)
  | None =>
      match parse_ipv6 s with
      | Some [0; 0; 0; 0; 0; 65535; g; _] => bool_decide (g / 256 = 127)
      | Some gs => bool_decide (gs = [0; 0; 0; 0; 0; 0; 0; 1])
      | None => false
      end
  end.

Definition isLoopbackAddr (addr : bytes) : bool :=
  let host := getHost addr in
  bool_decide (host = bs "localhost") || ip_loopback host.

(** What the registry installed for every agent. *)
Record AgentTransport := { AgentTLS : bool; cleartextAllowed : bool }.

(** [checkTransport]: [None] lets the connection be made. *)
Definition checkTransport (t : AgentTransport) (addr : bytes) : option bytes :=
  if AgentTLS t then None
  else if isLoopbackAddr addr then None
  else if cleartextAllowed t then None
  else Some (bs "agent connection would be unencrypted: " ++ addr).

Inductive channel := Encrypted | Cleartext.

(** [NewAgentClient]. *)
Definition NewAgentClient (t : AgentTransport) (addr : bytes) : result bytes channel :=
  if AgentTLS t then Ok Encrypted
  else match checkTransport t addr with Some e => Err e | None => Ok Cleartext end.

(** ** Reading the streams *)

Definition isFailureStage (stage : bytes) : bool :=
  bool_decide (ToLower_ascii (TrimSpace stage) ∈ [bs "error"; bs "failed"; bs "failure"]).

Definition orNoOutput (s : bytes) : bytes :=
  if decide (s = []) then
    bs "(no output; the usual cause is -D pointing somewhere that is not this server's data directory)" else s.

(** The loop of [DemoteToReplica] over the messages of the agent. *)
Fixpoint drain_rebuild (agentAddr backendAddr primaryPeer : bytes) (msgs : list Progress) (completed : bool) (last : bytes) : option bytes :=
  match msgs with
  | [] => if completed then None
          else Some (bs "agent at " ++ agentAddr ++ bs " ended the replication setup for " ++ backendAddr ++ bs " without completing it: " ++
                     if decide (last = []) then bs "the agent reported no reason" else last)
  | m :: r =>
      let last := if decide (Message m <> []) then Message m else last in
      if isFailureStage (Stage m) then
        Some (bs "agent at " ++ agentAddr ++ bs " could not rebuild " ++ backendAddr ++ bs " as a replica of " ++ primaryPeer ++ bs ": " ++ orNoOutput last)
      else drain_rebuild agentAddr backendAddr primaryPeer r (completed || bool_decide (Percentage m = 100)) last
  end.

(** One message of a command's stream. *)
Record CommandOutput := { Stdout : bytes; Stderr : bytes; ExitCode : Z }.

(** The loops of [ProvisionReplica] and [PromoteToPrimary]: an error is a message with
    an exit code; the second keeps what was written to stderr before it. *)
Definition drain_backup (msgs : list CommandOutput) : option (Z * bytes) :=
  (fun m => (ExitCode m, Stderr m)) <$> head (filter (fun m => ExitCode m <> 0) msgs).

Fixpoint drain_command (msgs : list CommandOutput) (stderr : bytes) : option (Z * bytes) :=
  match msgs with
  | [] => None
  | m :: r =>
      let stderr := if decide (Stderr m <> []) then Stderr m else stderr in
      if decide (ExitCode m <> 0) then Some (ExitCode m, stderr) else drain_command r stderr
  end.

(** ** Rebuilding a node *)

Definition askServerForDataDir (b : PBackend) : bytes :=
  match pb_admin b with
  | None => []
  | Some q => match q (bs "SHOW data_directory") with Ok dir => dir | Err _ => [] end
  end.

Definition dataDirectoryOf (b : PBackend) : bytes :=
  if decide (pb_DataDirectory b <> []) then pb_DataDirectory b else askServerForDataDir b.

(** [info] is the directory the agent reports, if it answers. *)
Definition dataDirectoryFor (b : PBackend) (info : option bytes) : bytes :=
  if decide (askServerForDataDir b <> []) then askServerForDataDir b
  else match info with
       | Some d => if decide (d <> []) then d else bs "/var/lib/postgresql/data"
       | None => bs "/var/lib/postgresql/data"
       end.

(** The request [DemoteToReplica] sends. *)
Definition demotion_request (backends : list PBackend) (target : PBackend) (primaryAddr : bytes) : SetupReplicationRequest :=
  let '(host, port) := prov_splitHostPort (peerAddressFor backends primaryAddr) defaultPostgresPort in
  let '(user, password) := replicationCredentials backends primaryAddr in
  {| PrimaryHost := host; PrimaryPort := i32 port; ReplicationUser := user; ReplicationPassword := password;
     SlotName := []; UseRewind := false; req_DataDirectory := dataDirectoryOf target |}.

(** [DemoteToReplica]; [agent] is the answer of the agent to a request. *)
Definition DemoteToReplica (t : AgentTransport) (backends : list PBackend) (backendAddr primaryAddr : bytes)
    (agent : SetupReplicationRequest -> result bytes (list Progress)) : option bytes :=
  match find_backend backends backendAddr with
  | None => Some (bs "backend " ++ backendAddr ++ bs " not found")
  | Some target =>
      let agentAddr := agentAddressFor target (getHost backendAddr) in
      match NewAgentClient t agentAddr with
      | Err e => Some (bs "failed to connect to agent at " ++ agentAddr ++ bs ": " ++ e)
      | Ok _ =>
          match agent (demotion_request backends target primaryAddr) with
          | Err e => Some (bs "failed to setup replication: " ++ e)
          | Ok msgs => drain_rebuild agentAddr backendAddr (peerAddressFor backends primaryAddr) msgs false []
          end
      end
  end.

(** ** Promoting a node *)

Definition promoteViaSQL (b : PBackend) : option bytes :=
  match pb_admin b with
  | None => Some (bs "no admin connection to " ++ pb_Address b ++ bs "; set admin_dsn for it")
  | Some q =>
      match q (bs "SELECT pg_promote(true, 60)") with
      | Err e => Some (bs "pg_promote on " ++ pb_Address b ++ bs ": " ++ e)
      | Ok v => if decide (v = bs "t") then None
                else Some (bs "pg_promote on " ++ pb_Address b ++
                           bs " returned false; it did not leave recovery within its wait")
      end
  end.

(** [PromoteToPrimary]; [run] is the answer of the agent to a command. *)
Definition PromoteToPrimary (t : AgentTransport) (backends : list PBackend) (backendAddr : bytes) (info : option bytes)
    (run : bytes -> list bytes -> result bytes (list CommandOutput)) : option bytes :=
  match find_backend backends backendAddr with
  | None => Some (bs "backend " ++ backendAddr ++ bs " not found")
  | Some target =>
      let agentAddr := agentAddressFor target (getHost backendAddr) in
      match NewAgentClient t agentAddr with
      | Err e => Some (bs "failed to connect to agent at " ++ agentAddr ++ bs ": " ++ e)
      | Ok _ =>
          match promoteViaSQL target with
          | None => None
          | Some _ =>
              let dir := dataDirectoryFor target info in
              match run (bs "pg_ctl") [bs "promote"; bs "-D"; dir] with
              | Err e => Some (bs "failed to execute promote command: " ++ e)
              | Ok msgs =>
                  match drain_command msgs [] with
                  | Some (code, stderr) =>
                      Some (bs "pg_ctl promote -D " ++ dir ++ bs " on " ++ backendAddr ++ bs " failed with exit code " ++
                            FormatInt code ++ bs ": " ++ orNoOutput stderr)
                  | None => None
                  end
              end
          end
      end
  end.

(** ** Creating a replica *)

Record ProvisionReplicaRequest := {
  SourceAddress : bytes; TargetAddress : bytes; pr_ReplicationUser : bytes; pr_DataDirectory : bytes
}.

Definition basebackup_args (req : ProvisionReplicaRequest) : list bytes :=
  [bs "-h"; getHost (SourceAddress req);
   bs "-D"; if decide (pr_DataDirectory req = []) then bs "/var/lib/postgresql/data" else pr_DataDirectory req;
   bs "-U"; pr_ReplicationUser req; bs "-P"; bs "-R"].

(** [ProvisionReplica]: what it asks for in turn.  [slot] and [restart] are the
    errors of creating the slot and of the restart, [run] the answer to the command. *)
Definition ProvisionReplica (t : AgentTransport) (backends : list PBackend) (req : ProvisionReplicaRequest)
    (slot : bytes -> option bytes) (run : bytes -> list bytes -> result bytes (list CommandOutput))
    (restart : option bytes) : option bytes :=
  match find_backend backends (SourceAddress req) with
  | None => Some (bs "source backend " ++ SourceAddress req ++ bs " not found")
  | Some primary =>
      match NewAgentClient t (agentAddressFor primary (getHost (SourceAddress req))) with
      | Err e => Some (bs "failed to connect to source agent: " ++ e)
      | Ok _ =>
          match slot (bs "pontus_repl_slot") with
          | Some e => Some (bs "failed to create replication slot: " ++ e)
          | None =>
              match NewAgentClient t (JoinHostPort (getHost (TargetAddress req)) defaultAgentPort) with
              | Err e => Some (bs "failed to connect to target agent: " ++ e)
              | Ok _ =>
                  match run (bs "pg_basebackup") (basebackup_args req) with
                  | Err e => Some (bs "failed to start pg_basebackup: " ++ e)
                  | Ok msgs =>
                      match drain_backup msgs with
                      | Some (code, stderr) => Some (bs "pg_basebackup failed with exit code " ++ FormatInt code ++ bs ": " ++ stderr)
                      | None => (fun e => bs "failed to restart replica service: " ++ e) <$> restart
                      end
                  end
              end
          end
      end
  end.

(** ** What success of a demotion means on the node *)

Lemma drain_rebuild_completed agentAddr backendAddr primaryPeer msgs completed last :
  drain_rebuild agentAddr backendAddr primaryPeer msgs completed last = None ->
  completed = true \/ exists m, m ∈ msgs /\ Percentage m = 100.
Proof.
  revert completed last. induction msgs as [|m r IH]; intros completed last H; cbn [drain_rebuild] in H.
  - left. by destruct completed.
  - destruct (isFailureStage _); [done|]. apply IH in H as [H|(m' & Hm & Hp)].
    + apply orb_true_iff in H as [H|H]; [by left|]. apply bool_decide_eq_true in H. right. exists m. split; [by left|done].
    + right. exists m'. split; [by right|done].
Qed.

(** C32: A demotion the provisioner takes for done was done: if the messages it
    received are the beginning of what the agent of the node sent, the node's
    directory holds a whole cluster that is set up as a standby, given what the tools
    of PostgreSQL document. *)
Theorem demoted_node_is_standby (whole : fs -> Prop) (E : Env) (p : path) (x : bytes) (m : management)
    (t : AgentTransport) (backends : list PBackend) (backendAddr primaryAddr : bytes) (target : PBackend)
    (f : fs) (received : list Progress) :
  is_cluster whole -> documented_tools whole E -> Forall plain (p ++ [x]) ->
  find_backend backends backendAddr = Some target ->
  clusterDir m (dataDirectoryOf target) = render (data_path p x) ->
  recoverable whole p x f ->
  let h := (SetupReplication m (demotion_request backends target primaryAddr) (started_on f)).2 in
  received `prefix_of` sent h ->
  DemoteToReplica t backends backendAddr primaryAddr (fun _ => Ok received) = None ->
  whole (subtree (data_path p x) (files h)) /\ is_Some (files h !! (data_path p x ++ [bs "standby.signal"])).
Proof.
  intros Hw Ht Hp Hfind Hdir Hrec h [rest Hpre] Hd. unfold DemoteToReplica in Hd. rewrite Hfind in Hd.
  destruct (NewAgentClient _ _); [done|]. apply drain_rebuild_completed in Hd as [Hd|(msg & Hin & Hpct)]; [done|].
  assert (reported_done h) as Hdone.
  { exists msg. split; [|by right]. rewrite Hpre. apply elem_of_app. by left. }
  set (req := demotion_request backends target primaryAddr) in *.
  assert (req_DataDirectory req = dataDirectoryOf target /\ UseRewind req = false) as [Hr1 Hr2].
  { subst req. unfold demotion_request. destruct (prov_splitHostPort _ _), (replicationCredentials _ _). done. }
  rewrite <- Hr1 in Hdir.
  pose proof (wp_SetupReplication whole Hw (E := E) Ht p x Hp m req (started_on f) Hdir Hr2 Hrec (not_reported_fresh f)) as Hwp.
  unfold wp in Hwp. subst h. destruct (SetupReplication m req (started_on f)) as [u h'].
  destruct Hwp as [[_ Ho] _]. by apply Ho.
Qed.

(** A token is sent in the clear only to this host, or where that was accepted. *)
Lemma cleartext_is_local t addr :
  NewAgentClient t addr = Ok Cleartext ->
  AgentTLS t = false /\ (isLoopbackAddr addr = true \/ cleartextAllowed t = true).
Proof.
  unfold NewAgentClient, checkTransport. destruct (AgentTLS t); [done|].
  destruct (isLoopbackAddr addr); [tauto|]. destruct (cleartextAllowed t); [tauto|done].
Qed.

Example loopback_addresses :
  map isLoopbackAddr (map bs ["localhost:9091"; "127.8.0.1:9091"; "[::1]:9091"; "[::ffff:127.0.0.1]:1"; "::1";
                              "10.0.0.1:9091"; "127.0.0.1.evil:9091"; "[::2]:9091"; "127.01.0.1:1"]%string) =
  [true; true; true; true; true; false; false; false; false].
Proof. vm_compute. reflexivity. Qed.

(** ** Completion that is assumed *)

Definition sample_node (addr : bytes) : PBackend := {|
  pb_Address := addr; pb_AgentAddr := bs "127.0.0.1:9091"; pb_AgentToken := []; pb_PeerAddress := []; pb_DataDirectory := bs "/srv/pg";
  pb_AdminCredentials := (bs "repl", bs "pw"); pb_admin := None |}.

Definition secure : AgentTransport := {| AgentTLS := true; cleartextAllowed := false |}.

(** A demotion has to be told that it completed; a promotion and a provisioning do
    not: a stream that breaks off without a word counts as success. *)
Example cut_stream_counts_as_success :
  PromoteToPrimary secure [sample_node (bs "a:5432")] (bs "a:5432") None (fun _ _ => Ok []) = None /\
  ProvisionReplica secure [sample_node (bs "a:5432")]
    {| SourceAddress := bs "a:5432"; TargetAddress := bs "b:5432"; pr_ReplicationUser := bs "repl"; pr_DataDirectory := [] |}
    (fun _ => None) (fun _ _ => Ok []) None = None /\
  DemoteToReplica secure [sample_node (bs "a:5432")] (bs "a:5432") (bs "b:5432") (fun _ => Ok []) <> None.
Proof. vm_compute. split_and!; done. Qed.

(** The slot made on the primary is never named to pg_basebackup, and neither is the
    port of the primary. *)
Example provisioning_ignores_slot_and_port :
  basebackup_args {| SourceAddress := bs "a:6000"; TargetAddress := bs "b:5432"; pr_ReplicationUser := bs "repl";
                     pr_DataDirectory := bs "/srv/pg" |} =
  map bs ["-h"; "a"; "-D"; "/srv/pg"; "-U"; "repl"; "-P"; "-R"]%string.
Proof. vm_compute. reflexivity. Qed.

(** ** The two sides together *)

Definition pair_of_nodes : list PBackend := [sample_node (bs "10.0.0.1:5432"); sample_node (bs "10.0.0.2:5432")].

Definition demotion_host : host :=
  (@SetupReplication working (agent []) (demotion_request pair_of_nodes (sample_node (bs "10.0.0.2:5432")) (bs "10.0.0.1:5432"))
     (started_on old_host)).2.

Lemma demoted_node_is_standby_witness :
  DemoteToReplica secure pair_of_nodes (bs "10.0.0.2:5432") (bs "10.0.0.1:5432") (fun _ => Ok (sent demotion_host)) = None /\
  is_Some (files demotion_host !! (data_path srv (bs "pg") ++ [bs "standby.signal"])).
Proof.
  assert (DemoteToReplica secure pair_of_nodes (bs "10.0.0.2:5432") (bs "10.0.0.1:5432")
            (fun _ => Ok (sent demotion_host)) = None) as Hd by (vm_compute; reflexivity).
  split; [exact Hd|].
  refine (proj2 (demoted_node_is_standby has_version working srv (bs "pg") (agent []) secure pair_of_nodes (bs "10.0.0.2:5432")
                   (bs "10.0.0.1:5432") (sample_node (bs "10.0.0.2:5432")) old_host (sent demotion_host)
                   has_version_cluster working_documented _ _ _ _ _ Hd)).
  - apply (bool_decide_unpack _). vm_compute. exact I.
  - vm_compute. reflexivity.
  - reflexivity.
  - left. vm_compute. by eexists.
  - exists []. symmetry. apply app_nil_r.
Defined.
