(* ===== verification/AgentServer.v ===== *)
(** * The front door of an agent

    cmd/agent/main.go: what [main] and [runAgent] refuse, and what an agent that starts
    serves with; agent/transport/grpc.go: the interceptors, and the handlers that relay a
    stream.  An agent installs software, rebuilds nodes and deletes databases as root:
    who may ask it to, and who can read the question, is decided here.

    Listening, loading a key pair and sampling the host answer as arguments. *)
From Stdlib Require Import ZArith Lia Strings.String.
From stdpp Require Import base gmap list numbers option.
From S2P Require Import Prelude Format Provisioner.
#[local] Open Scope Z_scope.

(** ** The flags *)

Record flags := {
  fl_addr : bytes; fl_token : bytes; fl_insecure : bool; fl_cert : bytes; fl_key : bytes; fl_dataDir : bytes; fl_dbUser : bytes
}.

(** Package flag over the flags of [main], as the arguments name them: the values a
    process starts with, or the argument that is not understood. *)
Definition no_flags : flags := {| fl_addr := bs ":9091"; fl_token := []; fl_insecure := false; fl_cert := []; fl_key := []; fl_dataDir := []; fl_dbUser := [] |}.
Fixpoint Parse (args : list bytes) (f : flags) : result bytes flags :=
  match args with
  | [] => Ok f
  | a :: args =>
      if decide (a = bs "-insecure")
      then Parse args {| fl_addr := fl_addr f; fl_token := fl_token f; fl_insecure := true; fl_cert := fl_cert f; fl_key := fl_key f; fl_dataDir := fl_dataDir f; fl_dbUser := fl_dbUser f |}
      else match args with
           | [] => Err a
           | v :: args =>
               if decide (a = bs "-addr") then Parse args {| fl_addr := v; fl_token := fl_token f; fl_insecure := fl_insecure f; fl_cert := fl_cert f; fl_key := fl_key f; fl_dataDir := fl_dataDir f; fl_dbUser := fl_dbUser f |}
               else if decide (a = bs "-token") then Parse args {| fl_addr := fl_addr f; fl_token := v; fl_insecure := fl_insecure f; fl_cert := fl_cert f; fl_key := fl_key f; fl_dataDir := fl_dataDir f; fl_dbUser := fl_dbUser f |}
               else if decide (a = bs "-tls-cert") then Parse args {| fl_addr := fl_addr f; fl_token := fl_token f; fl_insecure := fl_insecure f; fl_cert := v; fl_key := fl_key f; fl_dataDir := fl_dataDir f; fl_dbUser := fl_dbUser f |}
               else if decide (a = bs "-tls-key") then Parse args {| fl_addr := fl_addr f; fl_token := fl_token f; fl_insecure := fl_insecure f; fl_cert := fl_cert f; fl_key := v; fl_dataDir := fl_dataDir f; fl_dbUser := fl_dbUser f |}
               else if decide (a = bs "-data-dir") then Parse args {| fl_addr := fl_addr f; fl_token := fl_token f; fl_insecure := fl_insecure f; fl_cert := fl_cert f; fl_key := fl_key f; fl_dataDir := v; fl_dbUser := fl_dbUser f |}
               else if decide (a = bs "-db-user") then Parse args {| fl_addr := fl_addr f; fl_token := fl_token f; fl_insecure := fl_insecure f; fl_cert := fl_cert f; fl_key := fl_key f; fl_dataDir := fl_dataDir f; fl_dbUser := v |}
               else Err a
           end
  end.

(** The token may come from the environment. *)
Definition with_environment (f : flags) (env : bytes) : flags :=
  if decide (fl_token f = [])
  then {| fl_addr := fl_addr f; fl_token := env; fl_insecure := fl_insecure f; fl_cert := fl_cert f; fl_key := fl_key f; fl_dataDir := fl_dataDir f; fl_dbUser := fl_dbUser f |}
  else f.

(** What [main] refuses before anything is started. *)
Definition main_refuses (f : flags) : option bytes :=
  if decide ((fl_cert f = []) <-> (fl_key f = []))
  then if decide (fl_token f = [] /\ fl_insecure f = false) then Some (bs "agent token is required") else None
  else Some (bs "-tls-cert and -tls-key must be given together").

(** The arguments an installed service is started with. *)
Definition service_arguments (f : flags) : list bytes :=
  [bs "-addr"; fl_addr f] ++ (if fl_insecure f then [bs "-insecure"] else []) ++
  (if decide (fl_cert f <> [] /\ fl_key f <> []) then [bs "-tls-cert"; fl_cert f; bs "-tls-key"; fl_key f] else []).

(** ** Starting *)

(** [strings.Trim(s, "[]")]. *)
Definition bracket (c : byte) : bool := bool_decide (c = ch "[" \/ c = ch "]").
Fixpoint trim_left_brackets (s : bytes) : bytes := match s with c :: r => if bracket c then trim_left_brackets r else s | [] => [] end.
Definition trim_brackets (s : bytes) : bytes := rev (trim_left_brackets (rev (trim_left_brackets s))).

(** [bindsLoopbackOnly]. *)
Definition bindsLoopbackOnly (addr : bytes) : bool :=
  let host := getHost addr in
  if decide (host ∈ [[]; bs "0.0.0.0"; bs "::"; bs "[::]"]) then false
  else if decide (host = bs "localhost") then true
  else ip_loopback (trim_brackets host).

(** What an agent serves with: the token its interceptors ask for, and the transport. *)
Inductive exposure := ByTLS | OnLoopback | InTheClear.
Record serving := { sv_token : option bytes; sv_exposure : exposure }.

Section Start.
Context (listens : bytes -> bool) (LoadX509KeyPair : bytes -> bytes -> bool) (starts : bool).

(** [runAgent], up to serving. *)
Definition runAgent (f : flags) : result bytes serving :=
  if negb (listens (fl_addr f)) then Err (bs "failed to listen")
  else
    let auth := if decide (fl_token f <> []) then Ok (Some (fl_token f)) else if fl_insecure f then Ok None else Err (bs "agent token is required") in
    match auth with
    | Err e => Err e
    | Ok token =>
        let transport :=
          if decide (fl_cert f <> [] /\ fl_key f <> [])
          then if LoadX509KeyPair (fl_cert f) (fl_key f) then Ok ByTLS else Err (bs "load agent TLS keypair")
          else if decide (fl_cert f <> [] \/ fl_key f <> []) then Err (bs "-tls-cert and -tls-key must be given together")
          else if bindsLoopbackOnly (fl_addr f) then Ok OnLoopback
          else if fl_insecure f then Ok InTheClear
          else Err (bs "refusing to serve on " ++ fl_addr f ++ bs " without TLS") in
        match transport with
        | Err e => Err e
        | Ok t => if starts then Ok {| sv_token := token; sv_exposure := t |} else Err (bs "failed to start service")
        end
    end.
End Start.

(** ** A call *)

(** [authorize]: [md] is the metadata of the call, its values of [authorization]. *)
Definition authorize (md : option (list bytes)) (token : bytes) : option bytes :=
  match md with
  | None => Some (bs "metadata is not provided")
  | Some [] => Some (bs "authorization token is not provided")
  | Some (v :: _) => if decide (v = token) then None else Some (bs "invalid authorization token")
  end.

(** A call of any procedure: [TokenInterceptor] and [StreamTokenInterceptor] are alike. *)
Definition intercepted {A : Type} (s : serving) (md : option (list bytes)) (handler : A) : result bytes A :=
  match sv_token s with
  | None => Ok handler
  | Some token => match authorize md token with Some e => Err e | None => Ok handler end
  end.

(** What the client of a backend sends with every call: the interceptor of [NewAgentClient]
    and of [NewServer] appends the token, where there is one. *)
Definition sent_metadata (token : bytes) (before : list bytes) : option (list bytes) :=
  Some (if decide (token = []) then before else before ++ [token]).

(** The handlers of the calls that stream ([ExecuteCommand], [StreamLogs], [SetupReplication],
    [InitializeDatabase], [InstallDatabase], [BackupDatabase], [RestoreDatabase],
    [VacuumDatabase]): [send_ok n] is whether the [n]th message goes out. *)
Fixpoint send_all {Msg : Type} (send_ok : nat -> bool) (n : nat) (msgs : list Msg) : list Msg * bool :=
  match msgs with
  | [] => ([], true)
  | m :: msgs => if send_ok n then let '(l, r) := send_all send_ok (S n) msgs in (m :: l, r) else ([], false)
  end.
Definition stream_handler {Msg : Type} (resp : result bytes (list Msg)) (send_ok : nat -> bool) : result bytes (list Msg * bool) :=
  match resp with Err e => Err e | Ok msgs => Ok (send_all send_ok 0 msgs) end.

(** ** Theorems *)

Lemma send_all_prefix {Msg : Type} (send_ok : nat -> bool) n (msgs l : list Msg) r :
  send_all send_ok n msgs = (l, r) -> l `prefix_of` msgs /\ (r = true -> l = msgs).
Proof.
  revert n l. induction msgs as [|m msgs IH]; intros n l; cbn; [by intros [= <- <-]|].
  destruct (send_ok n); [|intros [= <- <-]; split; [apply prefix_nil|done]].
  destruct (send_all send_ok (S n) msgs) as [l' r'] eqn:E. intros [= <- <-]. destruct (IH _ _ E) as [Hp Hr].
  split; [by apply prefix_cons|]. intros Ht. by rewrite (Hr Ht).
Qed.

(** What [main] lets through [runAgent] does not refuse for want of a token or of half a
    key pair: the process does not come up to refuse later. *)
Lemma main_refuses_first listens load starts f e : main_refuses f = None -> runAgent listens load starts f = Err e ->
  e <> bs "agent token is required" /\ e <> bs "-tls-cert and -tls-key must be given together".
Proof.
  unfold main_refuses, runAgent. case_decide as Hp; [|done]. case_decide as Ht; [done|]. intros _.
  destruct (listens _); [|intros [= <-]; done]. cbn [negb].
  assert (exists t, (if decide (fl_token f <> []) then Ok (Some (fl_token f)) else if fl_insecure f then Ok None else Err (bs "agent token is required")) = Ok t) as [t ->].
  { case_decide as Hn; [by eexists|]. destruct (fl_insecure f) eqn:Ei; [by eexists|]. exfalso. apply Ht. split; [|done]. by destruct (fl_token f). }
  destruct (decide (fl_cert f <> [] /\ fl_key f <> [])) as [Hc|Hc].
  { destruct (load _ _); [|intros [= <-]; done]. destruct starts; [done|]. intros [= <-]. done. }
  rewrite decide_False by (intros [Hx|Hx]; apply Hc; tauto).
  destruct (bindsLoopbackOnly _); [destruct starts; [done|]; intros [= <-]; done|].
  destruct (fl_insecure f); [destruct starts; [done|]; intros [= <-]; done|]. intros [= <-]. done.
Qed.

(** An agent that was not started as insecure answers exactly the calls whose first
    authorization is its token, which is not empty; and it is reached over TLS with the
    pair it was given, or from its own host only. *)
Theorem agent_guarded (listens : bytes -> bool) (load : bytes -> bytes -> bool) (starts : bool) (f : flags) (s : serving) :
  runAgent listens load starts f = Ok s -> fl_insecure f = false ->
  fl_token f <> [] /\
  (forall {A : Type} (h : A) md, (exists r, intercepted s md h = Ok r) <-> exists rest, md = Some (fl_token f :: rest)) /\
  (sv_exposure s = ByTLS /\ load (fl_cert f) (fl_key f) = true \/ sv_exposure s = OnLoopback /\ bindsLoopbackOnly (fl_addr f) = true).
Proof.
  unfold runAgent. intros Hr Hi. rewrite Hi in Hr. destruct (listens _); [|done]. cbn [negb] in Hr.
  destruct (decide (fl_token f <> [])) as [Ht|]; [|done].
  assert (sv_token s = Some (fl_token f) /\
    (sv_exposure s = ByTLS /\ load (fl_cert f) (fl_key f) = true \/ sv_exposure s = OnLoopback /\ bindsLoopbackOnly (fl_addr f) = true)) as [Hs He].
  { case_decide; [destruct (load _ _) eqn:El; [|done]; destruct starts; [|done]; injection Hr as <-; auto|].
    case_decide; [done|]. destruct (bindsLoopbackOnly _) eqn:Eb; [|done]. destruct starts; [|done]. injection Hr as <-. auto. }
  split_and!; [done| |done]. intros A h md. unfold intercepted. rewrite Hs. unfold authorize. split.
  - intros [r Ha]. destruct md as [[|v rest]|]; [done| |done]. case_decide; [subst v; by exists rest|done].
  - intros [rest ->]. rewrite decide_True by done. by eexists.
Qed.

(** A client with the agent's token is let in, also where the call carries it twice. *)
Lemma client_let_in (s : serving) token n : sv_token s = Some token -> token <> [] ->
  intercepted s (sent_metadata token (replicate n token)) tt = Ok tt.
Proof.
  intros Hs Ht. unfold intercepted, sent_metadata. rewrite Hs, decide_False by done. destruct n; cbn; by rewrite decide_True.
Qed.

(** Where an agent binds the loopback only, the proxy may speak to that address in clear
    text: both sides take the same addresses for local. *)
Lemma loopback_agrees addr : trim_brackets (getHost addr) = getHost addr -> bindsLoopbackOnly addr = true -> isLoopbackAddr addr = true.
Proof.
  intros Ht. unfold bindsLoopbackOnly, isLoopbackAddr. rewrite Ht. case_decide; [done|]. case_decide as E; [|intros ->; apply orb_true_r].
  rewrite E. intros _. apply orb_true_iff. left. by apply bool_decide_eq_true.
Qed.

(** ** What an installed service starts with *)

Definition given : flags := {| fl_addr := bs "127.0.0.1:9091"; fl_token := bs "secret"; fl_insecure := false; fl_cert := []; fl_key := [];
  fl_dataDir := bs "/srv/pg/main"; fl_dbUser := bs "admin" |}.

(** The directory and the user the agent was told are not passed on: the installed service
    looks for a directory of its own and connects as another user. *)
Example installed_service_forgets_directory :
  Parse (service_arguments given) no_flags =
    Ok {| fl_addr := bs "127.0.0.1:9091"; fl_token := []; fl_insecure := false; fl_cert := []; fl_key := []; fl_dataDir := []; fl_dbUser := [] |}.
Proof. vm_compute. reflexivity. Qed.

Lemma agent_guarded_witness :
  exists s, runAgent (fun _ => true) (fun _ _ => true) true given = Ok s /\ fl_token given <> [] /\
    (exists r, intercepted s (Some [bs "secret"]) 7 = Ok r) /\ ~ (exists r, intercepted s (Some [bs "guess"; bs "secret"]) 7 = Ok r).
Proof.
  exists {| sv_token := Some (bs "secret"); sv_exposure := OnLoopback |}.
  assert (runAgent (fun _ => true) (fun _ _ => true) true given = Ok {| sv_token := Some (bs "secret"); sv_exposure := OnLoopback |}) as Hr by (vm_compute; reflexivity).
  destruct (agent_guarded (fun _ => true) (fun _ _ => true) true given _ Hr eq_refl) as (Ht & Ha & _).
  split; [exact Hr|]. split; [exact Ht|]. split; [apply Ha; by exists []|]. intros H%Ha. destruct H as [rest [=]].
Defined.
