(* ===== verification/Consensus.v ===== *)
(** * The replicated state

    [internal/consensus/node.go] and [internal/orchestration/raft.go].  Both wrap
    hashicorp/raft, which orders entries and calls a state machine of ours on
    every node; what is ours is the state machine: how an entry changes it, what
    a snapshot of it holds and what restoring one does.

    The class [FSM] states what raft relies on: applying is a function of the
    state and the entry, and restoring a snapshot gives back the state it was
    taken from.  Section [Cluster] proves agreement of the nodes against that
    interface, for every interleaving of commits, applications, snapshots,
    restores and restarts; the two state machines of the source are instances.

    Raft itself is the relation [cluster_step]: committed entries form one log,
    and a node applies the next entry of it, installs a snapshot taken by some
    node, or starts again empty.  [encoding/json] is the class [JSON] with the
    round trips it documents: a string survives it when it is valid UTF-8. *)
From Stdlib Require Import ZArith Lia Strings.String.
From stdpp Require Import base gmap list numbers option relations.
From S2P Require Import Prelude.
#[local] Open Scope Z_scope.

(** ** What raft relies on *)

(** [fsm_apply] returns the response and the new state, [fsm_persist] the bytes
    [Persist] writes, [fsm_restore] the state [Restore] leaves a node in, [None]
    when it returns an error.  [fsm_fit] holds of the states a snapshot can carry and
    [entry_fit] of the entries that lead from such states to such states. *)
Class FSM (S E : Type) := {
  fsm_init : S;
  fsm_apply : S -> bytes -> option E * S;
  fsm_persist : S -> bytes;
  fsm_restore : S -> bytes -> option S;
  fsm_fit : S -> Prop;
  entry_fit : bytes -> Prop;
  fsm_init_fit : fsm_fit fsm_init;
  fsm_apply_fit : forall s d, fsm_fit s -> entry_fit d -> fsm_fit (fsm_apply s d).2;
  fsm_persist_restore : forall f s, fsm_fit s -> fsm_restore f (fsm_persist s) = Some s
}.

Section Cluster.
Context {S E : Type} `{FSM S E}.

(** A node: its state machine and how many entries of the log it reflects. *)
Record replica := { rp_state : S; rp_applied : nat }.

(** The committed log, the nodes, and the snapshots that were persisted, each
    with the index it was taken at. *)
Record cluster := { cl_log : list bytes; cl_nodes : gmap nat replica; cl_snaps : list (nat * bytes) }.

Definition set_node (c : cluster) (i : nat) (r : replica) : cluster :=
  {| cl_log := cl_log c; cl_nodes := <[i := r]> (cl_nodes c); cl_snaps := cl_snaps c |}.

(** A restart loses a node's state and keeps the committed log, which is the cluster's: the
    node's own copy of it is in memory too and comes back from the others. *)
Inductive cluster_step : cluster -> cluster -> Prop :=
| st_commit c d :
    cluster_step c {| cl_log := cl_log c ++ [d]; cl_nodes := cl_nodes c; cl_snaps := cl_snaps c |}
| st_apply c i r d :
    cl_nodes c !! i = Some r -> cl_log c !! rp_applied r = Some d ->
    cluster_step c (set_node c i {| rp_state := (fsm_apply (rp_state r) d).2; rp_applied := rp_applied r + 1 |})
| st_snapshot c i r :
    cl_nodes c !! i = Some r ->
    cluster_step c {| cl_log := cl_log c; cl_nodes := cl_nodes c;
                      cl_snaps := (rp_applied r, fsm_persist (rp_state r)) :: cl_snaps c |}
| st_restore c i r index b s :
    cl_nodes c !! i = Some r -> (index, b) ∈ cl_snaps c -> fsm_restore (rp_state r) b = Some s ->
    cluster_step c (set_node c i {| rp_state := s; rp_applied := index |})
| st_start c i :
    cluster_step c (set_node c i {| rp_state := fsm_init; rp_applied := 0 |}).

Definition no_cluster : cluster := {| cl_log := []; cl_nodes := ∅; cl_snaps := [] |}.

(** The state after a list of entries, from the initial one. *)
Definition replay (entries : list bytes) : S := foldl (fun s d => (fsm_apply s d).2) fsm_init entries.

Lemma replay_snoc entries d : replay (entries ++ [d]) = (fsm_apply (replay entries) d).2.
Proof. unfold replay. by rewrite foldl_app. Qed.

Lemma replay_fit entries : Forall entry_fit entries -> fsm_fit (replay entries).
Proof.
  induction entries as [|d l IH] using rev_ind; intros Hf.
  - apply fsm_init_fit.
  - apply Forall_app in Hf as [Hl Hd]. rewrite replay_snoc. apply fsm_apply_fit; [by apply IH|].
    by apply Forall_cons_iff in Hd as [? _].
Qed.

(** What holds in every reachable cluster: a node's state is the replay of the
    prefix of the log it reflects, and a snapshot is that of such a state. *)
Definition replicated (c : cluster) : Prop :=
  (forall i r, cl_nodes c !! i = Some r ->
     (rp_applied r <= length (cl_log c))%nat /\ rp_state r = replay (take (rp_applied r) (cl_log c))) /\
  (forall index b, (index, b) ∈ cl_snaps c ->
     (index <= length (cl_log c))%nat /\ b = fsm_persist (replay (take index (cl_log c)))).

Lemma replicated_node c i r :
  replicated c -> (rp_applied r <= length (cl_log c))%nat ->
  rp_state r = replay (take (rp_applied r) (cl_log c)) -> replicated (set_node c i r).
Proof.
  intros [Hn Hs] Hle Hr. split; [|exact Hs]. intros j r'. cbn. rewrite lookup_insert.
  case_decide; [intros [= <-]; auto|apply Hn].
Qed.

Lemma replicated_step c c' :
  cluster_step c c' -> Forall entry_fit (cl_log c') -> replicated c -> replicated c'.
Proof.
  destruct 1 as [c d|c i r d Hi Hd|c i r Hi|c i r index b s Hi Hin Hs|c i]; cbn; intros Hfit HR.
  - destruct HR as [Hn Hs]. split; cbn.
    + intros i r Hi. destruct (Hn i r Hi) as [Hle ->]. rewrite length_app, take_app_le by done. split; [lia|done].
    + intros index b Hin. destruct (Hs index b Hin) as [Hle ->]. rewrite length_app, take_app_le by done. split; [lia|done].
  - destruct HR as [Hn Hs]. destruct (Hn i r Hi) as [Hle Hr]. apply replicated_node; cbn; [by split| |].
    + apply lookup_lt_Some in Hd. lia.
    + rewrite Nat.add_1_r, (take_S_r _ _ d Hd), replay_snoc. by rewrite <- Hr.
  - destruct HR as [Hn Hs]. split; cbn; [exact Hn|]. intros index b [[= -> ->]|Hin]%elem_of_cons; [|by apply Hs].
    destruct (Hn i r Hi) as [Hle Hr]. split; [done|]. by rewrite <- Hr.
  - destruct (proj2 HR index b Hin) as [Hle ->]. rewrite fsm_persist_restore in Hs
      by (by apply replay_fit, Forall_take). injection Hs as <-. by apply replicated_node.
  - apply replicated_node; cbn; [done|lia|]. by rewrite take_0.
Qed.

Lemma log_grows c c' : cluster_step c c' -> cl_log c `prefix_of` cl_log c'.
Proof. destruct 1; cbn; try done. by apply prefix_app_r. Qed.

Lemma replicated_reachable c :
  rtc cluster_step no_cluster c -> Forall entry_fit (cl_log c) -> replicated c.
Proof.
  intros Hr. revert c Hr. apply (rtc_ind_r (fun c => Forall entry_fit (cl_log c) -> replicated c)).
  - intros _. split; cbn; [intros i r; by rewrite lookup_empty|]. intros ?? Hin. by apply elem_of_nil in Hin.
  - intros c c' _ Hstep IH Hfit. eapply replicated_step; [exact Hstep|done|]. apply IH.
    destruct (log_grows _ _ Hstep) as [k E']. rewrite E' in Hfit. by apply Forall_app in Hfit as [? _].
Qed.

(** Nodes that reflect the same number of entries are in the same state. *)
Lemma replicated_agree c i j ri rj :
  replicated c -> cl_nodes c !! i = Some ri -> cl_nodes c !! j = Some rj ->
  rp_applied ri = rp_applied rj -> rp_state ri = rp_state rj.
Proof. intros [Hn _] Hi Hj E'. rewrite (proj2 (Hn _ _ Hi)), (proj2 (Hn _ _ Hj)). by rewrite E'. Qed.
End Cluster.
Arguments replica : clear implicits.
Arguments cluster : clear implicits.

(** ** package consensus *)

(** [CommandType] values and [Command]. *)
Definition CmdSyncBackends : bytes := bs "sync_backends".
Definition CmdUpdateConfig : bytes := bs "update_config".
Definition CmdSetPrimary : bytes := bs "set_primary".

Record Command := { Op : bytes; Data : bytes }.

(** [clusterState], over the generated type of a backend's configuration. *)
Record clusterState (B : Type) := { Backends : list B; Config : bytes; Primary : bytes }.
Arguments Backends {B}. Arguments Config {B}. Arguments Primary {B}.

(** [encoding/json] on the three types that are encoded, and [utf8.Valid].  The
    encoder replaces what is not UTF-8 in a string, so the round trips hold for
    strings that are; a [[]byte] is carried in base64 and always survives.  A list
    of backends that was decoded survives being encoded again. *)
Class JSON (B : Type) := {
  utf8_Valid : bytes -> bool;
  marshal_Command : Command -> bytes;
  unmarshal_Command : bytes -> option Command;
  marshal_Backends : list B -> bytes;
  unmarshal_Backends : bytes -> option (list B);
  marshal_State : clusterState B -> bytes;
  unmarshal_State : bytes -> option (clusterState B);
  utf8_ASCII : forall s, Forall (fun c => bval c < 128) s -> utf8_Valid s = true;
  json_Command : forall c, utf8_Valid (Op c) = true -> unmarshal_Command (marshal_Command c) = Some c;
  json_State : forall s, utf8_Valid (Primary s) = true ->
    (Backends s = [] \/ exists b, unmarshal_Backends b = Some (Backends s)) ->
    unmarshal_State (marshal_State s) = Some s
}.

(** The errors [Apply] and [propose] return. *)
Inductive apply_err := ApplyBadCommand | ApplyBadData | ApplyUnknown (op : bytes).
Inductive propose_err := ErrNotLeader | RaftRefused | ApplyFailed (op : bytes) (e : apply_err).

Section Node.
Context {B : Type} `{JSON B}.

(** [fsm.Apply]. *)
Definition Apply (f : clusterState B) (l_Data : bytes) : option apply_err * clusterState B :=
  match unmarshal_Command l_Data with
  | None => (Some ApplyBadCommand, f)
  | Some cmd =>
      if decide (Op cmd = CmdSyncBackends) then
        match unmarshal_Backends (Data cmd) with
        | None => (Some ApplyBadData, f)
        | Some backends => (None, {| Backends := backends; Config := Config f; Primary := Primary f |})
        end
      else if decide (Op cmd = CmdUpdateConfig) then
        (None, {| Backends := Backends f; Config := Data cmd; Primary := Primary f |})
      else if decide (Op cmd = CmdSetPrimary) then
        (None, {| Backends := Backends f; Config := Config f; Primary := Data cmd |})
      else (Some (ApplyUnknown (Op cmd)), f)
  end.

(** [fsm.Snapshot] copies the state and [Persist] encodes the copy; the state's
    slices are replaced by [Apply], never written to. *)
Definition Snapshot (f : clusterState B) : clusterState B := f.
Definition Persist (s : clusterState B) : bytes := marshal_State s.

(** [fsm.Restore]: decoded into a fresh value, which replaces the state. *)
Definition Restore (f : clusterState B) (r : bytes) : option apply_err * clusterState B :=
  match unmarshal_State r with
  | None => (Some ApplyBadData, f)
  | Some restored => (None, restored)
  end.

(** [GetPrimary] and [GetConfig] (a copy). *)
Definition GetPrimary (f : clusterState B) : bytes := Primary f.
Definition GetConfig (f : clusterState B) : bytes := Config f.

(** [propose]: the entry handed to raft, if any, and the error.  [raft_Apply] is
    what the future reports: [None] when the entry was not committed, otherwise
    the response of this node's state machine. *)
Definition propose (IsLeader : bool) (raft_Apply : bytes -> option (option apply_err)) (cmd : Command) :
  option bytes * option propose_err :=
  if negb IsLeader then (None, Some ErrNotLeader)
  else
    let b := marshal_Command cmd in
    match raft_Apply b with
    | None => (Some b, Some RaftRefused)
    | Some (Some applyErr) => (Some b, Some (ApplyFailed (Op cmd) applyErr))
    | Some None => (Some b, None)
    end.

Definition SetPrimary IsLeader raft_Apply (address : bytes) :=
  propose IsLeader raft_Apply {| Op := CmdSetPrimary; Data := address |}.
Definition SyncBackends IsLeader raft_Apply (backends : list B) :=
  propose IsLeader raft_Apply {| Op := CmdSyncBackends; Data := marshal_Backends backends |}.
Definition ProposeConfig IsLeader raft_Apply (config : bytes) :=
  propose IsLeader raft_Apply {| Op := CmdUpdateConfig; Data := config |}.

(** *** The state machine meets the interface *)

Definition zero_state : clusterState B := {| Backends := []; Config := []; Primary := [] |}.

Definition state_fit (s : clusterState B) : Prop :=
  utf8_Valid (Primary s) = true /\ (Backends s = [] \/ exists b, unmarshal_Backends b = Some (Backends s)).

(** An entry may set the primary only to an address a snapshot can carry. *)
Definition entry_valid (d : bytes) : Prop :=
  forall cmd, unmarshal_Command d = Some cmd -> Op cmd = CmdSetPrimary -> utf8_Valid (Data cmd) = true.

Lemma zero_fit : state_fit zero_state.
Proof. split; [by apply utf8_ASCII|by left]. Qed.

Lemma Apply_fit s d : state_fit s -> entry_valid d -> state_fit (Apply s d).2.
Proof.
  unfold Apply, entry_valid. intros [Hp Hb] Hd. destruct (unmarshal_Command d) as [cmd|]; [|done].
  case_decide; [destruct (unmarshal_Backends (Data cmd)) as [l|] eqn:E; cbn; [|done]; split; cbn; eauto|].
  case_decide; [done|]. case_decide; [|done]. split; cbn; eauto.
Qed.

Lemma Restore_Persist f s : state_fit s -> Restore f (Persist (Snapshot s)) = (None, s).
Proof. intros [Hp Hb]. unfold Restore, Persist, Snapshot. by rewrite json_State. Qed.

#[global] Instance node_fsm : FSM (clusterState B) apply_err.
Proof.
  refine {| fsm_init := zero_state; fsm_apply := Apply; fsm_persist s := Persist (Snapshot s);
            fsm_restore f b := match Restore f b with (None, s) => Some s | _ => None end;
            fsm_fit := state_fit; entry_fit := entry_valid; fsm_init_fit := zero_fit;
            fsm_apply_fit := Apply_fit |}.
  intros f s Hs. by rewrite Restore_Persist.
Defined.
End Node.

(** ** package orchestration

    [failoverFSM]: the state is the address and an entry is the new one. *)
Definition failover_Apply (primary l_Data : bytes) : option apply_err * bytes := (None, l_Data).
Definition failover_Persist (primary : bytes) : bytes := primary.
Definition failover_Restore (primary data : bytes) : bytes := data.

#[global] Instance failover_fsm : FSM bytes apply_err.
Proof.
  refine {| fsm_init := []; fsm_apply := failover_Apply; fsm_persist := failover_Persist;
            fsm_restore f b := Some (failover_Restore f b); fsm_fit _ := True; entry_fit _ := True |}; done.
Defined.

(** ** What the log says *)

(** The last thing the entries say in the sense of [f], [d] when they say nothing. *)
Definition latest {A : Type} (d : A) (f : bytes -> option A) (entries : list bytes) : A :=
  default d (list.last (omap f entries)).

Lemma latest_snoc {A} (d : A) f entries e :
  latest d f (entries ++ [e]) = match f e with Some x => x | None => latest d f entries end.
Proof.
  unfold latest. rewrite omap_app. cbn. destruct (f e); cbn; [|by rewrite app_nil_r].
  by rewrite last_snoc.
Qed.

Section Spec.
Context {B : Type} `{JSON B}.

(** The payload of an entry that carries command [op]. *)
Definition payload (op : bytes) (d : bytes) : option bytes :=
  cmd ← unmarshal_Command d; if decide (Op cmd = op) then Some (Data cmd) else None.

Lemma replay_says entries :
  replay entries =
  {| Backends := latest [] (fun d => payload CmdSyncBackends d ≫= unmarshal_Backends) entries;
     Config := latest [] (payload CmdUpdateConfig) entries;
     Primary := latest [] (payload CmdSetPrimary) entries |} :> clusterState B.
Proof.
  induction entries as [|d l IH] using rev_ind; [done|].
  rewrite replay_snoc, IH, !latest_snoc. unfold payload. cbn [fsm_apply node_fsm]. unfold Apply.
  destruct (unmarshal_Command d) as [[op data]|]; cbn [mbind option_bind Op Data]; [|done].
  repeat case_decide; subst; try by cbn. cbn. by destruct (unmarshal_Backends data).
Qed.

(** C35: However commits, applications, snapshots, restores and restarts
    interleave, every node's state is what the entries it reflects say last: its
    primary, configuration and backends are those of the last entry that set them
    (entries that do not decode or carry an unknown command count for nothing),
    and two nodes that reflect equally many entries hold the same state, whether
    they got there by applying or by restoring.  The same holds of the state
    machine of package orchestration.  Primaries are valid UTF-8.  The committed
    log is raft's and is assumed to outlive restarts: the code keeps a node's log and votes
    in memory (raft.NewInmemStore), so a restarted node relies on the others for them. *)
Theorem replicas_agree :
  (forall c : cluster (clusterState B), rtc cluster_step no_cluster c -> Forall entry_valid (cl_log c) ->
     (forall i r, cl_nodes c !! i = Some r ->
        let seen := take (rp_applied r) (cl_log c) in
        (rp_applied r <= length (cl_log c))%nat /\
        GetPrimary (rp_state r) = latest [] (payload CmdSetPrimary) seen /\
        GetConfig (rp_state r) = latest [] (payload CmdUpdateConfig) seen /\
        Backends (rp_state r) = latest [] (fun d => payload CmdSyncBackends d ≫= unmarshal_Backends) seen) /\
     (forall i j ri rj, cl_nodes c !! i = Some ri -> cl_nodes c !! j = Some rj ->
        rp_applied ri = rp_applied rj -> rp_state ri = rp_state rj)) /\
  (forall c : cluster bytes, rtc cluster_step no_cluster c ->
     forall i r, cl_nodes c !! i = Some r ->
       rp_state r = default [] (list.last (take (rp_applied r) (cl_log c)))).
Proof.
  split.
  - intros c Hr Hfit. pose proof (replicated_reachable c Hr Hfit) as HR. split.
    + intros i r Hi. destruct (proj1 HR i r Hi) as [Hle E]. split; [done|].
      rewrite E, replay_says. done.
    + intros i j ri rj. by apply (replicated_agree c).
  - intros c Hr i r Hi.
    assert (Forall entry_fit (cl_log c)) as Hfit by (apply Forall_true; done).
    rewrite (proj2 (proj1 (replicated_reachable c Hr Hfit) i r Hi)).
    induction (take (rp_applied r) (cl_log c)) as [|d l _] using rev_ind; [done|].
    by rewrite replay_snoc, last_snoc.
Qed.

(** A proposal is reported as accepted exactly when this node leads, the
    entry was committed and the state machine could apply it; then the state
    differs from the one before in what was proposed and in nothing else.  A
    proposal on a node that does not lead gives raft nothing, and one the state
    machine refuses leaves the state as it was and is reported with the reason. *)
Theorem proposal_reported (IsLeader committed : bool) (s : clusterState B) cmd (Hop : utf8_Valid (Op cmd) = true) :
  let answer b := if committed then Some (Apply s b).1 else None in
  let '(entry, err) := propose IsLeader answer cmd in
  let s' := match entry with Some b => if committed then (Apply s b).2 else s | None => s end in
  (err = None <->
     IsLeader = true /\ committed = true /\
     ((Op cmd = CmdSyncBackends /\ is_Some (unmarshal_Backends (Data cmd))) \/
      Op cmd = CmdUpdateConfig \/ Op cmd = CmdSetPrimary)) /\
  (err = None ->
     GetPrimary s' = (if decide (Op cmd = CmdSetPrimary) then Data cmd else GetPrimary s) /\
     GetConfig s' = (if decide (Op cmd = CmdUpdateConfig) then Data cmd else GetConfig s) /\
     Backends s' = (if decide (Op cmd = CmdSyncBackends) then default [] (unmarshal_Backends (Data cmd)) else Backends s)) /\
  (IsLeader = false -> entry = None /\ err = Some ErrNotLeader) /\
  (is_Some err -> s' = s).
Proof.
  unfold propose. destruct IsLeader; cbn [negb]; [|split_and!; naive_solver].
  destruct committed; [|split_and!; naive_solver].
  cbv zeta. pose proof (json_Command cmd Hop) as E. remember (marshal_Command cmd) as b eqn:Eb. clear Eb.
  unfold Apply. rewrite E. destruct cmd as [op data]. cbn [Op Data].
  repeat case_decide; subst; try discriminate; cbn [fst snd].
  1: destruct (unmarshal_Backends data) as [l|] eqn:El; cbn [fst snd].
  all: rewrite ?E; cbn [Op Data]; repeat case_decide; subst; try discriminate; try done.
  all: rewrite ?El; cbn; split_and!; naive_solver.
Qed.
End Spec.

(** ** Witnesses

    A codec that escapes every byte and ends each field with a zero byte; a
    backend's configuration is one byte and valid strings are the ASCII ones. *)
Module Escaped.

Fixpoint esc (s : bytes) : bytes :=
  match s with [] => [NUL] | b :: r => byte_of 1 :: b :: esc r end.

Fixpoint unesc (fuel : nat) (s : bytes) : option (bytes * bytes) :=
  match fuel, s with
  | S fuel, c :: r =>
      if decide (c = NUL) then Some ([], r)
      else match r with
           | b :: r => '(x, rest) ← unesc fuel r; Some (b :: x, rest)
           | [] => None
           end
  | _, _ => None
  end.

Definition field (s : bytes) : option (bytes * bytes) := unesc (length s) s.

Lemma unesc_esc s rest fuel : (length (esc s ++ rest) <= fuel)%nat -> unesc fuel (esc s ++ rest) = Some (s, rest).
Proof.
  revert fuel. induction s as [|b s IH]; intros [|fuel] Hf; cbn in *; try lia; [done|].
  rewrite IH by lia. done.
Qed.

Lemma field_esc s rest : field (esc s ++ rest) = Some (s, rest).
Proof. by apply unesc_esc. Qed.

Definition dec_Command (b : bytes) : option Command :=
  '(op, r) ← field b; '(data, _) ← field r; Some {| Op := op; Data := data |}.
Definition dec_State (b : bytes) : option (clusterState byte) :=
  '(l, r) ← field b; '(cfg, r) ← field r; '(p, _) ← field r; Some {| Backends := l; Config := cfg; Primary := p |}.

#[global] Instance escaped_json : JSON byte.
Proof.
  refine {| utf8_Valid s := forallb (fun c => bval c <? 128) s;
            marshal_Command c := esc (Op c) ++ esc (Data c) ++ []; unmarshal_Command := dec_Command;
            marshal_Backends l := l; unmarshal_Backends b := Some b;
            marshal_State s := esc (Backends s) ++ esc (Config s) ++ esc (Primary s) ++ [];
            unmarshal_State := dec_State |}.
  - intros s Hs. apply forallb_forall. intros c Hc%list_elem_of_In. rewrite list.Forall_forall in Hs.
    by apply Z.ltb_lt, Hs.
  - intros [op data] _. unfold dec_Command. cbn [Op Data]. rewrite field_esc. cbn. by rewrite field_esc.
  - intros [l cfg p] _ _. unfold dec_State. cbn [Backends Config Primary]. rewrite field_esc. cbn.
    rewrite field_esc. cbn. by rewrite field_esc.
Defined.

Definition promote (a : String.string) : bytes := marshal_Command {| Op := CmdSetPrimary; Data := bs a |}.

(** Node 1 applies the first entry and a snapshot of it is taken; node 2 starts,
    restores the snapshot and applies the second entry; node 1 applies it too. *)
Definition replicated_run : cluster (clusterState byte) :=
  let s1 := (Apply zero_state (promote "db1")).2 in
  let s2 := (Apply s1 (promote "db2")).2 in
  {| cl_log := [promote "db1"; promote "db2"];
     cl_nodes := <[1%nat := {| rp_state := s2; rp_applied := 2 |}]>
                 (<[2%nat := {| rp_state := s2; rp_applied := 2 |}]> ∅);
     cl_snaps := [(1%nat, Persist (Snapshot s1))] |}.

Lemma replicated_run_reachable : rtc cluster_step no_cluster replicated_run.
Proof.
  eapply rtc_l; [apply (st_start _ 1)|].
  eapply rtc_l; [apply (st_start _ 2)|].
  eapply rtc_l; [apply (st_commit _ (promote "db1"))|].
  eapply rtc_l; [apply (st_apply _ 1 {| rp_state := fsm_init; rp_applied := 0 |} (promote "db1")); reflexivity|].
  eapply rtc_l; [apply (st_snapshot _ 1 {| rp_state := (Apply zero_state (promote "db1")).2; rp_applied := 1 |}); reflexivity|].
  eapply rtc_l; [apply (st_commit _ (promote "db2"))|].
  eapply rtc_l; [apply (st_restore _ 2 {| rp_state := fsm_init; rp_applied := 0 |} 1
                          (Persist (Snapshot (Apply zero_state (promote "db1")).2))
                          (Apply zero_state (promote "db1")).2); [reflexivity|apply elem_of_cons; by left|vm_compute; reflexivity]|].
  eapply rtc_l; [apply (st_apply _ 2 {| rp_state := (Apply zero_state (promote "db1")).2; rp_applied := 1 |} (promote "db2")); reflexivity|].
  eapply rtc_l; [apply (st_apply _ 1 {| rp_state := (Apply zero_state (promote "db1")).2; rp_applied := 1 |} (promote "db2")); reflexivity|].
  match goal with |- rtc _ ?c _ => replace c with replicated_run; [apply rtc_refl|vm_compute; reflexivity] end.
Qed.

Lemma run_entries_valid : Forall entry_valid (cl_log replicated_run).
Proof. repeat constructor; intros cmd E _; vm_compute in E; injection E as <-; reflexivity. Qed.

Lemma replicas_agree_witness :
  (exists r, cl_nodes replicated_run !! 2%nat = Some r /\ GetPrimary (rp_state r) = bs "db2" /\
             rp_state r = rp_state {| rp_state := (Apply (Apply zero_state (promote "db1")).2 (promote "db2")).2; rp_applied := 2 |}) /\
  (forall c : cluster bytes, rtc cluster_step no_cluster c -> forall i r, cl_nodes c !! i = Some r ->
     rp_state r = default [] (list.last (take (rp_applied r) (cl_log c)))).
Proof.
  destruct (replicas_agree (B := byte)) as [HA HB]. split; [|exact HB].
  destruct (HA replicated_run replicated_run_reachable run_entries_valid) as [Hs Ha].
  eexists. split; [reflexivity|]. split.
  - refine (eq_trans (proj1 (proj2 (Hs 2%nat _ eq_refl))) _). vm_compute. reflexivity.
  - refine (Ha 2%nat 1%nat _ {| rp_state := (Apply (Apply zero_state (promote "db1")).2 (promote "db2")).2; rp_applied := 2 |} eq_refl eq_refl eq_refl).
Defined.

Lemma proposal_reported_witness :
  let cmd := {| Op := CmdSetPrimary; Data := bs "db3" |} in
  let answer b := Some (Apply zero_state b).1 in
  let '(entry, err) := propose true answer cmd in
  err = None /\ GetPrimary (match entry with Some b => (Apply zero_state b).2 | None => zero_state end) = bs "db3".
Proof.
  pose proof (proposal_reported (B := byte) true true zero_state {| Op := CmdSetPrimary; Data := bs "db3" |} eq_refl) as H.
  cbv zeta in *. destruct (propose _ _ _) as [entry err] eqn:E. destruct H as (Hok & Heff & _).
  assert (err = None) as He by (apply Hok; split_and!; [done..|by right; right]).
  split; [done|]. destruct (Heff He) as [Hp _]. refine (eq_trans Hp _). reflexivity.
Defined.
End Escaped.
