(* ===== verification/Streams.v ===== *)
(** * Replication streams

    [internal/replication/registry.go] and [proxy/replication.go]: the registry of
    live change-data consumers with its budget, and the life of one of them in
    [handleReplication]: it takes the shared context, acquires a connection of the
    primary, is registered or refused, and is deregistered when it ends; a
    failover cancels the shared context and with it every stream.

    [stream_step] interleaves any number of consumers with failovers and changes
    of the budget.  What a stream carries ([pipe]) is two byte copies and is not
    modelled; that a cancelled stream ends is a step it can make.  [TerminateStream] of
    the API, which forgets a stream without ending it, is not among the steps: it is in
    Status. *)
From Stdlib Require Import ZArith Lia Strings.String.
From stdpp Require Import base gmap list numbers option relations.
From S2P Require Import Prelude.
#[local] Open Scope Z_scope.

(** ** The registry *)

(** [Stream], without the figures the console fills in, and [Registry]. *)
Record Stream := { sm_ID : bytes; sm_ClientAddr : bytes; sm_BackendAddr : bytes; sm_Database : bytes; sm_User : bytes; sm_Kind : bytes }.
Record Registry := { streams : gmap bytes Stream; budget : Z }.

Definition NewRegistry (b : Z) : Registry := {| streams := ∅; budget := b |}.
Definition Budget (r : Registry) : Z := budget r.
Definition SetBudget (r : Registry) (n : Z) : Registry := {| streams := streams r; budget := n |}.
Definition Used (r : Registry) : Z := Z.of_nat (size (streams r)).

(** [Add]; a nil stream is [None]. *)
Definition Add (r : Registry) (s : option Stream) : bool * Registry :=
  match s with
  | None => (false, r)
  | Some s =>
      if decide (sm_ID s = []) then (false, r)
      else if decide (streams r !! sm_ID s = None /\ budget r <= Used r) then (false, r)
      else (true, {| streams := <[sm_ID s := s]> (streams r); budget := budget r |})
  end.

Definition Remove (r : Registry) (id : bytes) : Registry := {| streams := delete id (streams r); budget := budget r |}.

(** [List] ([stream_List]), in the order [order] in which the map is ranged over, and [CountFor]. *)
Definition stream_List (r : Registry) (order : list bytes) : list Stream := omap (fun id => streams r !! id) order.
Definition CountFor (r : Registry) (backendAddr : bytes) : Z :=
  Z.of_nat (size (filter (fun p : bytes * Stream => sm_BackendAddr (snd p) = backendAddr) (streams r))).

(** [replicationKind]. *)
Definition replicationKind (value : bytes) : bytes := if decide (value = bs "database") then bs "logical" else bs "physical".

(** ** The consumers *)

(** The shared context: none yet, or the one with this number; and the numbers of
    those that were cancelled. *)
Record StreamCtx := { sc_current : option nat; sc_next : nat; sc_cancelled : gset nat }.

(** [streamContext]: created on first use. *)
Definition streamContext (c : StreamCtx) : nat * StreamCtx :=
  match sc_current c with
  | Some g => (g, c)
  | None => (sc_next c, {| sc_current := Some (sc_next c); sc_next := S (sc_next c); sc_cancelled := sc_cancelled c |})
  end.

(** [terminateStreams]. *)
Definition terminateStreams (c : StreamCtx) : StreamCtx :=
  match sc_current c with
  | None => c
  | Some g => {| sc_current := None; sc_next := sc_next c; sc_cancelled := {[g]} ∪ sc_cancelled c |}
  end.

(** Where a consumer is in [handleReplication]: it has its context; it is
    registered and carries its stream; or it is gone, refused or ended. *)
Inductive consumer := Opening (ctx : nat) | Streaming (ctx : nat) (s : Stream) | Gone.

Definition ctx_of (c : consumer) : option nat :=
  match c with Opening g | Streaming g _ => Some g | Gone => None end.

Record StreamState := { ss_ctx : StreamCtx; ss_registry : Registry; ss_consumers : gmap nat consumer }.

Definition set_consumer (s : StreamState) (i : nat) (c : consumer) (ctx : StreamCtx) (r : Registry) : StreamState :=
  {| ss_ctx := ctx; ss_registry := r; ss_consumers := <[i := c]> (ss_consumers s) |}.

(** The steps of consumers, a failover, and the operator.  The name of a stream
    is made of the client's address and the clock, so it is not one in use. *)
Inductive stream_step : StreamState -> StreamState -> Prop :=
| ss_open s i :
    ss_consumers s !! i = None ->
    stream_step s (set_consumer s i (Opening (fst (streamContext (ss_ctx s)))) (snd (streamContext (ss_ctx s))) (ss_registry s))
| ss_unavailable s i g :
    ss_consumers s !! i = Some (Opening g) -> stream_step s (set_consumer s i Gone (ss_ctx s) (ss_registry s))
| ss_register s i g stream ok r :
    ss_consumers s !! i = Some (Opening g) -> sm_ID stream <> [] -> streams (ss_registry s) !! sm_ID stream = None ->
    Add (ss_registry s) (Some stream) = (ok, r) ->
    stream_step s (set_consumer s i (if ok : bool then Streaming g stream else Gone) (ss_ctx s) r)
| ss_end s i g stream :
    ss_consumers s !! i = Some (Streaming g stream) ->
    stream_step s (set_consumer s i Gone (ss_ctx s) (Remove (ss_registry s) (sm_ID stream)))
| ss_failover s :
    stream_step s {| ss_ctx := terminateStreams (ss_ctx s); ss_registry := ss_registry s; ss_consumers := ss_consumers s |}
| ss_budget s n :
    stream_step s {| ss_ctx := ss_ctx s; ss_registry := SetBudget (ss_registry s) n; ss_consumers := ss_consumers s |}.

Definition streams_initial (b : Z) : StreamState :=
  {| ss_ctx := {| sc_current := None; sc_next := 0; sc_cancelled := ∅ |}; ss_registry := NewRegistry b; ss_consumers := ∅ |}.

(** ** What holds throughout *)

(** The registry holds exactly the streams being carried, each once. *)
Definition registered (s : StreamState) : Prop :=
  (forall id stream, streams (ss_registry s) !! id = Some stream <->
     exists i g, ss_consumers s !! i = Some (Streaming g stream) /\ sm_ID stream = id) /\
  (forall i j gi gj si sj, ss_consumers s !! i = Some (Streaming gi si) -> ss_consumers s !! j = Some (Streaming gj sj) ->
     sm_ID si = sm_ID sj -> i = j).

(** Every consumer's context is the current one or cancelled. *)
Definition contexts_ok (s : StreamState) : Prop :=
  (forall i c g, ss_consumers s !! i = Some c -> ctx_of c = Some g -> sc_current (ss_ctx s) = Some g \/ g ∈ sc_cancelled (ss_ctx s)) /\
  (forall g, sc_current (ss_ctx s) = Some g -> (g < sc_next (ss_ctx s))%nat /\ g ∉ sc_cancelled (ss_ctx s)) /\
  (forall g, g ∈ sc_cancelled (ss_ctx s) -> (g < sc_next (ss_ctx s))%nat).

Lemma Add_new r s :
  sm_ID s <> [] -> streams r !! sm_ID s = None ->
  Add r (Some s) = if decide (budget r <= Used r) then (false, r)
                   else (true, {| streams := <[sm_ID s := s]> (streams r); budget := budget r |}).
Proof.
  intros Hid Hn. unfold Add. rewrite decide_False by done.
  destruct (decide (budget r <= Used r)); [by rewrite decide_True|by rewrite decide_False by naive_solver].
Qed.

(** A consumer that does not stream leaves the registry alone. *)
Lemma registered_idle s i c ctx :
  (forall g st, ss_consumers s !! i <> Some (Streaming g st)) -> (forall g st, c <> Streaming g st) ->
  registered s -> registered (set_consumer s i c ctx (ss_registry s)).
Proof.
  intros Hi Hc [H1 H2]. split; cbn.
  - intros id st. rewrite H1. split; intros (j & g & Hj & E); exists j, g; (split; [|done]).
    + rewrite lookup_insert_ne; [done|]. intros <-. by destruct (Hi g st).
    + revert Hj. rewrite lookup_insert. case_decide; [intros [= E']; by destruct (Hc g st)|done].
  - intros j k gj gk sj sk. rewrite !lookup_insert.
    case_decide; [intros [= E']; by destruct (Hc gj sj)|]. intros Hj.
    case_decide; [intros [= E']; by destruct (Hc gk sk)|]. intros Hk. by apply (H2 j k gj gk sj sk).
Qed.

Lemma registered_add s i g st ctx :
  ss_consumers s !! i = Some (Opening g) -> streams (ss_registry s) !! sm_ID st = None -> registered s ->
  registered (set_consumer s i (Streaming g st) ctx
                {| streams := <[sm_ID st := st]> (streams (ss_registry s)); budget := budget (ss_registry s) |}).
Proof.
  intros Hi Hn [H1 H2].
  assert (forall j gj sj, ss_consumers s !! j = Some (Streaming gj sj) -> sm_ID sj <> sm_ID st) as Hfresh.
  { intros j gj sj Hj E. assert (streams (ss_registry s) !! sm_ID sj = Some sj) by (apply H1; eauto). rewrite E in *. congruence. }
  split; cbn.
  - intros id st'. rewrite lookup_insert. case_decide as Eid.
    + split; [intros [= <-]; exists i, g; by rewrite lookup_insert_eq|]. intros (j & gj & Hj & E).
      revert Hj. rewrite lookup_insert. case_decide; [by intros [= _ <-]|]. intros Hj. destruct (Hfresh _ _ _ Hj). congruence.
    + rewrite H1. split; intros (j & gj & Hj & E); exists j, gj; (split; [|done]).
      * rewrite lookup_insert_ne; [done|]. congruence.
      * revert Hj. rewrite lookup_insert. case_decide; [intros [= _ <-]; congruence|done].
  - intros j k gj gk sj sk. rewrite !lookup_insert. repeat case_decide; subst; try done.
    + intros [= _ <-] Hk E. destruct (Hfresh _ _ _ Hk). congruence.
    + intros Hj [= _ <-] E. by destruct (Hfresh _ _ _ Hj).
    + intros Hj Hk. by apply (H2 j k gj gk sj sk).
Qed.

Lemma registered_remove s i g st ctx :
  ss_consumers s !! i = Some (Streaming g st) -> registered s ->
  registered (set_consumer s i Gone ctx (Remove (ss_registry s) (sm_ID st))).
Proof.
  intros Hi [H1 H2]. split; cbn.
  - intros id st'. rewrite lookup_delete_Some, H1. split.
    + intros [Hne (j & gj & Hj & E)]. exists j, gj. split; [|done]. rewrite lookup_insert_ne; [done|]. congruence.
    + intros (j & gj & Hj & E). revert Hj. rewrite lookup_insert. case_decide; [done|]. intros Hj.
      split; [|eauto]. intros E'. subst id. assert (i = j) by (eapply H2; eauto). done.
  - intros j k gj gk sj sk. rewrite !lookup_insert. repeat case_decide; try done. intros Hj Hk. by apply (H2 j k gj gk sj sk).
Qed.

Lemma contexts_same s i c r :
  (forall g, ctx_of c = Some g -> exists c0, ss_consumers s !! i = Some c0 /\ ctx_of c0 = Some g) ->
  contexts_ok s -> contexts_ok (set_consumer s i c (ss_ctx s) r).
Proof.
  intros Hc (H1 & H2 & H3). split_and!; cbn; [|done..]. intros j c' g. rewrite lookup_insert.
  case_decide; [|by apply H1]. intros [= <-] Hg. destruct (Hc g Hg) as (c0 & H0 & E0). subst j. by eapply H1.
Qed.

Lemma contexts_open s i r :
  ss_consumers s !! i = None -> contexts_ok s ->
  contexts_ok (set_consumer s i (Opening (fst (streamContext (ss_ctx s)))) (snd (streamContext (ss_ctx s))) r).
Proof.
  intros Hi (H1 & H2 & H3). unfold streamContext. destruct (sc_current (ss_ctx s)) as [g0|] eqn:Eg; cbn.
  - split_and!; cbn; [|intros g; rewrite Eg; by apply H2|done]. intros j c g. rewrite lookup_insert, Eg.
    case_decide; [intros [= <-] [= <-]; by left|]. intros Hj Hg. by eapply H1.
  - split_and!; cbn.
    + intros j c g. rewrite lookup_insert. case_decide; [intros [= <-] [= <-]; by left|]. intros Hj Hg.
      destruct (H1 j c g Hj Hg); [congruence|by right].
    + intros g [= <-]. split; [lia|]. intros Hg%H3. lia.
    + intros g Hg%H3. lia.
Qed.

Lemma contexts_terminate s : contexts_ok s ->
  contexts_ok {| ss_ctx := terminateStreams (ss_ctx s); ss_registry := ss_registry s; ss_consumers := ss_consumers s |}.
Proof.
  intros HC. unfold terminateStreams. destruct (sc_current (ss_ctx s)) as [g0|] eqn:Eg; [|exact HC].
  destruct HC as (H1 & H2 & H3). rewrite Eg in *.
  split_and!; cbn; [|done|].
  - intros i c g Hi Hc. right. destruct (H1 i c g Hi Hc) as [E|Hin]; [|set_solver]. injection E as ->. set_solver.
  - intros g [->%elem_of_singleton|Hg]%elem_of_union; [by apply H2|by apply H3].
Qed.

Lemma stream_step_inv s s' : stream_step s s' -> registered s /\ contexts_ok s -> registered s' /\ contexts_ok s'.
Proof.
  intros Hs [HR HC].
  destruct Hs as [s i Hi|s i g Hi|s i g st ok r Hi Hid Hn Ha|s i g st Hi|s|s n].
  - split; [apply registered_idle; [rewrite Hi; done|done|done]|by apply contexts_open].
  - split; [apply registered_idle; [rewrite Hi; done|done|done]|by apply contexts_same].
  - rewrite Add_new in Ha by done. case_decide; injection Ha as <- <-.
    + split; [apply registered_idle; [rewrite Hi; done|done|done]|by apply contexts_same].
    + split; [by apply registered_add|apply contexts_same; [|done]]. intros g' [= <-]. eauto.
  - split; [by eapply registered_remove|by apply contexts_same].
  - split; [exact HR|by apply contexts_terminate].
  - split; [exact HR|exact HC].
Qed.

Lemma streams_inv b s : rtc stream_step (streams_initial b) s -> registered s /\ contexts_ok s.
Proof.
  intros Hr. revert s Hr. apply (rtc_ind_r (fun s => registered s /\ contexts_ok s)).
  - split; [split; cbn|split; [|split]; cbn].
    + intros id st. rewrite lookup_empty. split; [done|]. intros (i & g & Hi & _). by rewrite lookup_empty in Hi.
    + intros i j gi gj si sj Hi. by rewrite lookup_empty in Hi.
    + intros i c g Hi. by rewrite lookup_empty in Hi.
    + done.
    + set_solver.
  - intros s1 s2 _ Hs H. by eapply stream_step_inv.
Qed.

(** Streams are accounted for.  In every reachable state the registry lists
    exactly the streams being carried, under their own names; what is listed for
    the console is those, in any order the map is ranged over, and a backend is
    counted as carrying one exactly when it does.  A consumer is refused exactly when the budget is
    used up, so lowering the budget ends no stream and only stops new ones.  When a
    failover begins, the context of every consumer that has one, streaming or about
    to, is cancelled, and one that arrives later gets a fresh context. *)
Theorem streams_accounted b s :
  rtc stream_step (streams_initial b) s ->
  (forall id stream, streams (ss_registry s) !! id = Some stream <->
     exists i g, ss_consumers s !! i = Some (Streaming g stream) /\ sm_ID stream = id) /\
  (forall order, (forall id, id ∈ order <-> is_Some (streams (ss_registry s) !! id)) -> forall stream,
     stream ∈ stream_List (ss_registry s) order <-> exists i g, ss_consumers s !! i = Some (Streaming g stream)) /\
  (forall addr, 0 < CountFor (ss_registry s) addr <->
     exists i g stream, ss_consumers s !! i = Some (Streaming g stream) /\ sm_BackendAddr stream = addr) /\
  (forall stream, sm_ID stream <> [] -> streams (ss_registry s) !! sm_ID stream = None ->
     fst (Add (ss_registry s) (Some stream)) = true <-> Used (ss_registry s) < Budget (ss_registry s)) /\
  (forall n, streams (SetBudget (ss_registry s) n) = streams (ss_registry s)) /\
  (forall i c g, ss_consumers s !! i = Some c -> ctx_of c = Some g ->
     g ∈ sc_cancelled (terminateStreams (ss_ctx s))) /\
  fst (streamContext (terminateStreams (ss_ctx s))) ∉ sc_cancelled (terminateStreams (ss_ctx s)).
Proof.
  intros Hr. destruct (streams_inv b s Hr) as [[H1 H2] HC].
  pose proof (contexts_terminate _ HC) as (T1 & T2 & T3). cbn in T1, T2, T3. split_and!; try done.
  - intros order Ho st. unfold stream_List. rewrite list_elem_of_omap. split.
    + intros (id & _ & (i & g & Hi & _)%H1). eauto.
    + intros (i & g & Hi). assert (streams (ss_registry s) !! sm_ID st = Some st) by (apply H1; eauto).
      exists (sm_ID st). split; [apply Ho; eauto|done].
  - intros addr. unfold CountFor. split.
    + intros Hpos. destruct (map_choose (filter (fun p : bytes * Stream => sm_BackendAddr (snd p) = addr) (streams (ss_registry s))))
        as (id & st & [Hl Ha]%map_lookup_filter_Some); [intros E; rewrite E, map_size_empty in Hpos; lia|].
      apply H1 in Hl as (i & g & Hi & _). eauto.
    + intros (i & g & st & Hi & Ha). assert (streams (ss_registry s) !! sm_ID st = Some st) as Hl by (apply H1; eauto).
      enough (size (filter (fun p : bytes * Stream => sm_BackendAddr (snd p) = addr) (streams (ss_registry s))) <> 0%nat) by lia.
      intros E%map_size_empty_inv. apply (f_equal (fun m : gmap bytes Stream => m !! sm_ID st)) in E.
      rewrite lookup_empty, (map_lookup_filter_Some_2 _ _ _ st) in E by done. done.
  - intros st Hid Hn. rewrite Add_new by done. unfold Budget. case_decide; cbn; split; intros; try done; lia.
  - intros i c g Hi Hc. destruct (T1 i c g Hi Hc) as [E|]; [|done]. revert E. unfold terminateStreams.
    destruct (sc_current (ss_ctx s)) eqn:Eg; cbn; congruence.
  - unfold terminateStreams in *. destruct (sc_current (ss_ctx s)) as [g|] eqn:Eg; cbn in *.
    + intros Hin%T3. lia.
    + unfold streamContext. rewrite Eg. cbn. intros Hin%T3. lia.
Qed.
