(* ===== verification/Upkeep.v ===== *)
(** * A backend's own upkeep

    pool/server.go: the loop of [Start], the agent's reports, the role check that is asked
    for, [Close], and the client of the agent [NewServer] makes; pool/admin.go: the
    administrative connection.

    Each turn of the loop is one event; what a check found is part of it. *)
From Stdlib Require Import ZArith Lia Strings.String.
From stdpp Require Import base gmap list numbers option.
From S2P Require Import Prelude Format Provisioner.
#[local] Open Scope Z_scope.

(** ** The administrative connection *)

Record AdminSession := { as_open : bool; as_lastErr : option bytes }.

(** [NewAdminSession]: none without a DSN; [opens] and [pings] are the driver's answers. *)
Definition NewAdminSession (dsn : bytes) (opens pings : option bytes) : result bytes (option AdminSession) :=
  if decide (dsn = []) then Ok None
  else match opens, pings with
       | Some e, _ => Err (bs "open admin session: " ++ e)
       | None, Some e => Err (bs "admin session unusable: " ++ e)
       | None, None => Ok (Some {| as_open := true; as_lastErr := None |})
       end.
Definition admin_Available (a : option AdminSession) : bool := from_option as_open false a.

(** [record], which [Query], [Exec] and [Ping] end with; [LastError]. *)
Definition admin_record (a : AdminSession) (e : option bytes) : AdminSession := {| as_open := as_open a; as_lastErr := e |}.
Definition admin_Exec (a : AdminSession) (answer : option bytes) : option bytes * AdminSession := (answer, admin_record a answer).
Definition admin_LastError (a : option AdminSession) : option bytes := a ≫= as_lastErr.
Definition admin_Close (a : option AdminSession) : option AdminSession := fmap (fun a => {| as_open := false; as_lastErr := as_lastErr a |}) a.

(** ** The client of the agent

    [NewServer] takes the TLS configuration of the database for it. *)
Definition server_agent_channel (backendTLS : bool) : channel := if backendTLS then Encrypted else Cleartext.

(** What a backend keeps for its upkeep. *)
Record Server := {
  up_admin : option AdminSession; up_agent : option channel; up_installed : option bytes; up_recommended : option bytes;
  up_available : option (list bytes); up_rtt : Z; up_roleCheck : bool; up_closed : bool;
  up_interval : Z; up_failures : nat; up_running : bool
}.

Definition second : Z := 1000000000.

(** [NewServer]: an administrative connection that cannot be made is done without. *)
Definition NewServer (adminDSN : bytes) (opens pings : option bytes) (backendTLS dials : bool) : Server :=
  {| up_admin := match NewAdminSession adminDSN opens pings with Ok a => a | Err _ => None end;
     up_agent := if dials then Some (server_agent_channel backendTLS) else None;
     up_installed := None; up_recommended := None; up_available := None; up_rtt := 0; up_roleCheck := false; up_closed := false;
     up_interval := 30 * second; up_failures := 0; up_running := false |}.

Definition set_loop (p : Server) (interval : Z) (failures : nat) (running : bool) : Server :=
  {| up_admin := up_admin p; up_agent := up_agent p; up_installed := up_installed p; up_recommended := up_recommended p; up_available := up_available p;
     up_rtt := up_rtt p; up_roleCheck := up_roleCheck p; up_closed := up_closed p; up_interval := interval; up_failures := failures; up_running := running |}.
Definition set_roleCheck (p : Server) (c : bool) : Server :=
  {| up_admin := up_admin p; up_agent := up_agent p; up_installed := up_installed p; up_recommended := up_recommended p; up_available := up_available p;
     up_rtt := up_rtt p; up_roleCheck := c; up_closed := up_closed p; up_interval := up_interval p; up_failures := up_failures p; up_running := up_running p |}.

(** [fetchAgentInfo]: what the agent answers, where there is one; empty values change nothing. *)
Record SystemInfo := { si_Detected : bytes; si_Recommended : bytes; si_Available : list bytes }.
Definition keep {A : Type} (old : option (list A)) (new : list A) : option (list A) := if decide (new = []) then old else Some new.
Definition fetchAgentInfo (p : Server) (answer : option SystemInfo) : Server :=
  match up_agent p, answer with
  | Some _, Some i =>
      {| up_admin := up_admin p; up_agent := up_agent p; up_installed := keep (up_installed p) (si_Detected i);
         up_recommended := keep (up_recommended p) (si_Recommended i); up_available := keep (up_available p) (si_Available i);
         up_rtt := up_rtt p; up_roleCheck := up_roleCheck p; up_closed := up_closed p; up_interval := up_interval p; up_failures := up_failures p;
         up_running := up_running p |}
  | _, _ => p
  end.

(** [ReportRTT]: a tenth of the new value, cut to whole nanoseconds; exact, where the code
    rounds in floating point. *)
Definition ReportRTT (old d : Z) : Z := if decide (old = 0) then d else Z.quot (9 * old + d) 10.

(** [ReevaluateRole]: one request at most is pending. *)
Definition ReevaluateRole (p : Server) : Server := set_roleCheck p true.

(** The turns of the loop of [Start]. *)
Inductive event := DeepTick (ok : bool) | RoleCheck | MetricsTick | InfoTick (answer : option SystemInfo) | CtxDone.

Definition Start (p : Server) (answer : option SystemInfo) : Server := set_loop (fetchAgentInfo p answer) (30 * second) 0 true.
Definition turn (p : Server) (e : event) : Server :=
  if negb (up_running p) then p
  else match e with
       | DeepTick false => set_loop p second (S (up_failures p)) true
       | DeepTick true => set_loop p (if decide (0 < up_failures p)%nat then 30 * second else up_interval p) 0 true
       | RoleCheck => if up_roleCheck p then set_roleCheck p false else p
       | MetricsTick => p
       | InfoTick answer => fetchAgentInfo p answer
       | CtxDone => set_loop p (up_interval p) (up_failures p) false
       end.

(** [Close]: the pools and the client of the agent; [up_closed] says so. *)
Definition Close (p : Server) : Server :=
  {| up_admin := up_admin p; up_agent := up_agent p; up_installed := up_installed p; up_recommended := up_recommended p; up_available := up_available p;
     up_rtt := up_rtt p; up_roleCheck := up_roleCheck p; up_closed := true; up_interval := up_interval p; up_failures := up_failures p;
     up_running := up_running p |}.

(** ** How often a backend is checked *)

(** The checks of the ticker that failed in a row, up to now. *)
Definition trailing (l : list event) : nat :=
  foldl (fun n e => match e with DeepTick false => S n | DeepTick true => 0%nat | _ => n end) 0%nat l.

Lemma turn_cadence p e : up_running p = true -> up_interval p = (if decide (up_failures p = 0)%nat then 30 * second else second) ->
  e <> CtxDone ->
  up_running (turn p e) = true /\ up_interval (turn p e) = (if decide (up_failures (turn p e) = 0)%nat then 30 * second else second) /\
  up_failures (turn p e) = match e with DeepTick false => S (up_failures p) | DeepTick true => 0%nat | _ => up_failures p end.
Proof.
  intros Hr Hi He. unfold turn. rewrite Hr. cbn [negb]. destruct e as [[|]| | |answer|]; cbn [up_running up_interval up_failures set_loop]; try done.
  - split_and!; try done. rewrite Hi. destruct (up_failures p); done.
  - by destruct (up_roleCheck p).
  - unfold fetchAgentInfo. by destruct (up_agent p), answer.
Qed.

(** A backend is checked every second while its checks fail, and every thirty seconds
    from the first that succeeds; what else happens in between does not matter. *)
Theorem check_cadence (p : Server) (answer : option SystemInfo) (l : list event) :
  CtxDone ∉ l ->
  let q := foldl turn (Start p answer) l in
  up_running q = true /\ up_interval q = (if decide (trailing l = 0)%nat then 30 * second else second).
Proof.
  intros Hl. cbn zeta. unfold trailing.
  assert (forall q n, up_running q = true -> up_failures q = n -> up_interval q = (if decide (up_failures q = 0)%nat then 30 * second else second) ->
    let q' := foldl turn q l in
    up_running q' = true /\ up_failures q' = foldl (fun n e => match e with DeepTick false => S n | DeepTick true => 0%nat | _ => n end) n l /\
    up_interval q' = (if decide (up_failures q' = 0)%nat then 30 * second else second)) as Hgo.
  { induction l as [|e l IH]; intros q n Hr Hn Hi; [done|]. cbn [foldl]. apply not_elem_of_cons in Hl as [He Hl].
    destruct (turn_cadence q e Hr Hi (not_eq_sym He)) as (Hr' & Hi' & Hf'). apply IH; [done|done| |done]. rewrite Hf', Hn. done. }
  destruct (Hgo (Start p answer) 0%nat) as (Hr & Hf & Hi); [done|done|done|]. split; [done|]. by rewrite Hi, Hf.
Qed.

(** ** What goes on, and what is not kept *)

(** Closing a backend does not end its loop, nor its administrative connection. *)
Lemma closed_backend_goes_on p answer l :
  CtxDone ∉ l -> up_running (foldl turn (Close (Start p answer)) l) = true /\ up_admin (Close p) = up_admin p.
Proof.
  intros Hl. split; [|done].
  assert (forall q, up_running q = true -> up_running (foldl turn q l) = true) as Hgo; [|by apply Hgo].
  induction l as [|e l IH]; intros q Hq; [done|]. apply not_elem_of_cons in Hl as [He Hl]. cbn. apply IH; [done|].
  unfold turn. rewrite Hq. destruct e as [[|]| | |a|]; cbn; try done; [by destruct (up_roleCheck q)|unfold fetchAgentInfo; by destruct (up_agent q), a].
Qed.

(** The token of an agent on another host goes out in the clear over the client of the
    backend, while the client of the provisioner refuses to be made. *)
Example agent_token_in_clear :
  let t := {| AgentTLS := false; cleartextAllowed := false |} in
  NewAgentClient t (bs "db1:9091") = Err (bs "agent connection would be unencrypted: db1:9091") /\
  up_agent (NewServer [] None None false true) = Some Cleartext.
Proof. vm_compute. split; reflexivity. Qed.

(** A backend that is down when the process starts has no administrative connection for
    as long as the process runs, whatever happens in its loop. *)
Lemma admin_session_not_retried dsn e tls dials answer l : dsn <> [] ->
  up_admin (foldl turn (Start (NewServer dsn None (Some e) tls dials) answer) l) = None.
Proof.
  intros Hd. assert (forall q, up_admin q = None -> up_admin (foldl turn q l) = None) as Hgo.
  { induction l as [|ev l IH]; intros q Hq; [done|]. cbn. apply IH. unfold turn. destruct (up_running q); [|done].
    destruct ev as [[|]| | |a|]; cbn; try done; [by destruct (up_roleCheck q)|unfold fetchAgentInfo; by destruct (up_agent q), a]. }
  apply Hgo. unfold Start, NewServer, NewAdminSession. rewrite decide_False by done. unfold set_loop, fetchAgentInfo. cbn. by destruct dials, answer.
Qed.

Lemma check_cadence_witness :
  CtxDone ∉ [DeepTick true; DeepTick false; MetricsTick; RoleCheck; DeepTick false] /\
  up_interval (foldl turn (Start (NewServer [] None None true true) None) [DeepTick true; DeepTick false; MetricsTick; RoleCheck; DeepTick false]) = second.
Proof.
  assert (CtxDone ∉ [DeepTick true; DeepTick false; MetricsTick; RoleCheck; DeepTick false]) as Hl by (intros H; repeat (apply elem_of_cons in H as [H|H]; [discriminate H|]); by apply not_elem_of_nil in H).
  split; [exact Hl|]. exact (proj2 (check_cadence (NewServer [] None None true true) None _ Hl)).
Defined.
