(* ===== verification/Operations.v ===== *)
(** * Operations on backends that an operator asks for

    manager/backend.go, what it hands on to the agents: installing, initialising,
    backing up, restoring, vacuuming and provisioning report progress over a channel;
    promoting, restarting and shutting down answer once.  handler/connect.go relays the
    progress to the caller: one goroutine runs the operation and sends, the handler
    receives and writes to the stream.  And handler/status_stream.go.

    A progress message is its stage, percentage and text, as in [Fleet].  What an agent
    answers is an argument; it may go on for ever, and it may fall silent.  The two goroutines of a relay meet at an unbuffered channel:
    a step relation. *)
From Stdlib Require Import ZArith Lia Strings.String.
From stdpp Require Import base gmap list numbers option sorting relations.
From S2P Require Import Prelude Format Config Fleet Calendar Stores.
#[local] Open Scope Z_scope.

Definition Progress : Type := bytes * Z * bytes.

(** What the agent's stream gives to each [Recv]: a message, the end, an error, or nothing
    at all, where [Recv] does not return.  A stream need not end. *)
Inductive stream_event := Received (m : Progress) | Finished | Broke (e : bytes) | Silent.
Definition agent_stream : Type := nat -> stream_event.

(** A call that streams: refused with an error, or what its stream gives. *)
Inductive stream_call := Rejected (e : bytes) | Streams (f : agent_stream).

(** ** What an operation sends, and what it returns

    [PRecv f k] waits for what the stream of the agent gives next, the [k]th time;
    [PSend] waits for the handler to take a message; [PDone] has returned, and the channel
    is closed. *)
Inductive producer :=
| PRecv (f : agent_stream) (k : nat)
| PSend (m : Progress) (next : producer)
| PDone (r : option err).

(** How the receiving loop goes on after an error of the agent's stream, per operation. *)
Definition failed (what : bytes) (e : bytes) (r : err) : producer := PSend (bs "Failed", 0, what ++ e) (PDone (Some r)).
Inductive operation := OpInitialize | OpInstall | OpBackup | OpRestore | OpVacuum.
Definition after_error (op : operation) (e : bytes) : producer :=
  match op with
  | OpInitialize => failed (bs "Initialization failed: ") e (CallFailed e)
  | OpInstall => failed (bs "Installation failed: ") e (CallFailed e)
  | OpBackup | OpRestore | OpVacuum => PDone (Some (CallFailed e))
  end.

Definition call (what : bytes -> producer) (c : stream_call) : producer :=
  match c with Rejected e => what e | Streams f => PRecv f 0 end.

(** [InitializeNode] and [InstallNode]; [dialled] is [NewAgentClient]. *)
Definition InitializeNode (dialled : option bytes) (c : stream_call) : producer :=
  match dialled with
  | Some e => failed (bs "Failed to connect to agent: ") e (CallFailed e)
  | None => call (fun e => failed (bs "Failed to start initialization: ") e (CallFailed e)) c
  end.
Definition InstallNode (dialled : option bytes) (c : stream_call) : producer :=
  match dialled with
  | Some e => failed (bs "Failed to connect to agent: ") e (CallFailed e)
  | None => call (fun e => failed (bs "Failed to start installation: ") e (CallFailed e)) c
  end.

(** The agent of a backend; the lookup of each operation is that of [findBackend]. *)
Definition agent_of (w : Fleet) (projectId proxyId address : bytes) : result err nat :=
  match findBackend w projectId proxyId address with
  | Err e => Err e
  | Ok n => if from_option n_agent false (nodes w !! n) then Ok n else Err AgentNotConnected
  end.
Definition on_agent (w : Fleet) (projectId proxyId address : bytes) (answer : nat -> stream_call) : producer :=
  match agent_of w projectId proxyId address with
  | Err e => PDone (Some e)
  | Ok n => call (fun e => PDone (Some (CallFailed e))) (answer n)
  end.

(** What is asked of the agent; the answers depend on it. *)
Inductive order :=
| BackupDatabase (path database : bytes)
| RestoreDatabase (path database : bytes)
| VacuumDatabase (database : bytes) (full analyze : bool)
| PromoteNode
| RestartService (name : bytes)
| ShutdownDatabase.

Section Agents.
Context (streams : nat -> order -> stream_call) (answers : nat -> order -> result bytes (bool * bytes)).

Definition BackupBackend (w : Fleet) (projectId proxyId address path : bytes) : producer :=
  on_agent w projectId proxyId address (fun n => streams n (BackupDatabase path (bs "postgres"))).
Definition RestoreBackend (w : Fleet) (projectId proxyId address path : bytes) : producer :=
  on_agent w projectId proxyId address (fun n => streams n (RestoreDatabase path (bs "postgres"))).
Definition VacuumBackend (w : Fleet) (projectId proxyId address database : bytes) (full : bool) : producer :=
  on_agent w projectId proxyId address (fun n => streams n (VacuumDatabase database full true)).

(** [ProvisionReplica]: [manager] is the proxy's failover manager and [provisioner] what
    its provisioner does, absent where the protocol has none. *)
Definition ProvisionReplica (w : Fleet) (projectId proxyId : bytes) (manager : bool) (provisioner : option producer) : producer :=
  match GetProjectState w projectId with
  | Err e => PDone (Some e)
  | Ok p =>
      match pj_proxies p !! proxyId with
      | None => PDone (Some ProxyNotFound)
      | Some _ => if manager then default (PDone (Some Panicked)) provisioner else PDone (Some NoFailover)
      end
  end.

(** The calls that answer once: success and the agent's message. *)
Definition answered (w : Fleet) (projectId proxyId address : bytes) (o : order) : result err (bool * bytes) :=
  match agent_of w projectId proxyId address with
  | Err e => Err e
  | Ok n => match answers n o with Ok a => Ok a | Err e => Err (CallFailed e) end
  end.
Definition PromoteBackend (w : Fleet) (projectId proxyId address : bytes) : result err (bool * bytes) :=
  answered w projectId proxyId address PromoteNode.
Definition RestartBackendService (w : Fleet) (projectId proxyId address : bytes) : result err (bool * bytes) :=
  answered w projectId proxyId address (RestartService (bs "postgresql")).
Definition ShutdownBackend (w : Fleet) (projectId proxyId address : bytes) : result err (bool * bytes) :=
  answered w projectId proxyId address ShutdownDatabase.
End Agents.

(** [ValidateBackend]: why the address could not be reached is not told. *)
Definition ValidateBackend (dialled : option bytes) (elapsed_ms : Z) : bool * bytes * Z :=
  match dialled with Some _ => (false, bs "could not connect", 0) | None => (true, bs "Connection successful", elapsed_ms) end.

(** [GetAgentInfo]: what the agent says of its host. *)
Definition GetAgentInfo {Info : Type} (dialled : option bytes) (info : result bytes Info) : result err Info :=
  match dialled with
  | Some e => Err (CallFailed e)
  | None => match info with Ok i => Ok i | Err e => Err (CallFailed e) end
  end.

(** [GetAvailableVersions]: [available] are the versions a backend's agent reported. *)
Definition text_sorted (l : list bytes) : list bytes := merge_sort text_le l.
Definition reported (w : Fleet) (available : nat -> list bytes) : list bytes :=
  concat (map (fun id => match projects w !! id with
                         | Some p => concat (map (fun kp => concat (map available (backends_of w (snd kp)))) (map_to_list (pj_proxies p)))
                         | None => []
                         end) (map fst (map_to_list (stored w)))).
Definition GetAvailableVersions (w : Fleet) (available : nat -> list bytes) : list bytes :=
  let all := remove_dups (reported w available) in
  if decide (all = []) then [bs "14"; bs "15"; bs "16"; bs "17"; bs "18"] else text_sorted all.

(** ** The relay of handler/connect.go *)

Inductive handler := Forwarding | Returned (r : option err).

(** [gone]: the caller has given up, and the context of its call is cancelled. *)
Record relay := { operation_at : producer; handler_at : handler; gone : bool; written : list Progress }.

Definition canceled : bytes := bs "context canceled".

Section Relay.
(** [send_ok n] is whether the [n]th [Send] to the caller succeeds; [recovers] is what the
    operation does after an error of its stream; [reports] is false for the handler of
    [VacuumBackend], which only logs the error. *)
Context (recovers : bytes -> producer) (send_ok : nat -> bool) (reports : bool).

Definition reported_as (q : option err) : option err := if reports then q else None.

Inductive rstep : relay -> relay -> Prop :=
| receives f k m h g out :
    f k = Received m ->
    rstep {| operation_at := PRecv f k; handler_at := h; gone := g; written := out |}
          {| operation_at := PSend m (PRecv f (S k)); handler_at := h; gone := g; written := out |}
| stream_ends f k h g out :
    f k = Finished ->
    rstep {| operation_at := PRecv f k; handler_at := h; gone := g; written := out |}
          {| operation_at := PDone None; handler_at := h; gone := g; written := out |}
| stream_fails f k e h g out :
    f k = Broke e ->
    rstep {| operation_at := PRecv f k; handler_at := h; gone := g; written := out |}
          {| operation_at := recovers e; handler_at := h; gone := g; written := out |}
| caller_leaves p out :
    rstep {| operation_at := p; handler_at := Forwarding; gone := false; written := out |}
          {| operation_at := p; handler_at := Forwarding; gone := true; written := out |}
(* the context of the call is cancelled when the caller gives up or the handler returns *)
| stream_cancelled f k h g out :
    g = true \/ h <> Forwarding ->
    rstep {| operation_at := PRecv f k; handler_at := h; gone := g; written := out |}
          {| operation_at := recovers canceled; handler_at := h; gone := g; written := out |}
| forwards m next g out :
    send_ok (length out) = true ->
    rstep {| operation_at := PSend m next; handler_at := Forwarding; gone := g; written := out |}
          {| operation_at := next; handler_at := Forwarding; gone := g; written := out ++ [m] |}
| send_fails m next g out :
    send_ok (length out) = false ->
    rstep {| operation_at := PSend m next; handler_at := Forwarding; gone := g; written := out |}
          {| operation_at := next; handler_at := Returned (Some (CallFailed (bs "send"))); gone := g; written := out |}
| returns r g out :
    rstep {| operation_at := PDone r; handler_at := Forwarding; gone := g; written := out |}
          {| operation_at := PDone r; handler_at := Returned (reported_as r); gone := g; written := out |}.

Definition start (p : producer) : relay := {| operation_at := p; handler_at := Forwarding; gone := false; written := [] |}.

(** ** The operation by itself

    [runs p l r]: left to itself the operation sends [l], no more and no less, and returns
    [r].  [sends p l]: it sends [l] to begin with. *)
Inductive runs : producer -> list Progress -> option err -> Prop :=
| runs_done r : runs (PDone r) [] r
| runs_send m next l r : runs next l r -> runs (PSend m next) (m :: l) r
| runs_receive f k m l r : f k = Received m -> runs (PRecv f (S k)) l r -> runs (PRecv f k) (m :: l) r
| runs_finish f k : f k = Finished -> runs (PRecv f k) [] None
| runs_break f k e l r : f k = Broke e -> runs (recovers e) l r -> runs (PRecv f k) l r.

Inductive sends : producer -> list Progress -> Prop :=
| sends_none p : sends p []
| sends_send m next l : sends next l -> sends (PSend m next) (m :: l)
| sends_receive f k m l : f k = Received m -> sends (PRecv f (S k)) l -> sends (PRecv f k) (m :: l)
| sends_break f k e l : f k = Broke e -> sends (recovers e) l -> sends (PRecv f k) l.

(** ** What a relay comes to *)

Fixpoint plain (p : producer) : Prop := match p with PRecv _ _ => False | PSend _ next => plain next | PDone _ => True end.
Context (recovers_plain : forall e, plain (recovers e)).

(** A relay of an operation that ends does not go on for ever. *)
Lemma done_acc r h g out : Acc (flip rstep) {| operation_at := PDone r; handler_at := h; gone := g; written := out |}.
Proof.
  assert (forall q g, Acc (flip rstep) {| operation_at := PDone r; handler_at := Returned q; gone := g; written := out |}) as Hr.
  { intros q g'. constructor. intros s Hs. inversion Hs. }
  assert (forall h, Acc (flip rstep) {| operation_at := PDone r; handler_at := h; gone := true; written := out |}) as Ht.
  { intros h'. constructor. intros s Hs. inversion Hs; subst; apply Hr. }
  constructor. intros s Hs. inversion Hs; subst; auto.
Qed.

Lemma send_acc m p : (forall h g out, Acc (flip rstep) {| operation_at := p; handler_at := h; gone := g; written := out |}) ->
  forall h g out, Acc (flip rstep) {| operation_at := PSend m p; handler_at := h; gone := g; written := out |}.
Proof.
  intros IH h g out.
  assert (Acc (flip rstep) {| operation_at := PSend m p; handler_at := h; gone := true; written := out |}) as Ht.
  { constructor. intros s Hs. inversion Hs; subst; apply IH. }
  constructor. intros s Hs. inversion Hs; subst; auto.
Qed.

Lemma plain_acc p : plain p -> forall h g out, Acc (flip rstep) {| operation_at := p; handler_at := h; gone := g; written := out |}.
Proof. induction p as [|m p IH|r]; cbn; [done| |intros; apply done_acc]. intros Hp. by apply send_acc, IH. Qed.

Lemma recv_acc f k : (forall m, f k = Received m ->
    forall h g out, Acc (flip rstep) {| operation_at := PRecv f (S k); handler_at := h; gone := g; written := out |}) ->
  forall h g out, Acc (flip rstep) {| operation_at := PRecv f k; handler_at := h; gone := g; written := out |}.
Proof.
  intros IH h g out.
  assert (forall g, g = true \/ (forall s, rstep {| operation_at := PRecv f k; handler_at := h; gone := g; written := out |} s -> gone s = g) ->
    Acc (flip rstep) {| operation_at := PRecv f k; handler_at := h; gone := g; written := out |}) as Ht.
  { intros g' Hg. constructor. intros s Hs. pose proof Hs as Hs'.
    inversion Hs; subst; first [apply done_acc | apply plain_acc, recovers_plain | eapply send_acc, IH; eassumption | idtac].
    destruct Hg as [[=]|Hg]. by specialize (Hg _ Hs'). }
  constructor. intros s Hs.
  inversion Hs; subst; first [apply done_acc | apply plain_acc, recovers_plain | eapply send_acc, IH; eassumption | apply Ht; by left].
Qed.

Lemma runs_acc p l r : runs p l r -> forall h g out, Acc (flip rstep) {| operation_at := p; handler_at := h; gone := g; written := out |}.
Proof.
  induction 1 as [r|m next l r _ IH|f k m l r E _ IH|f k E|f k e l r E _ IH]; [intros; apply done_acc|by apply send_acc|apply recv_acc..].
  - intros m' _. apply IH.
  - intros m' E'. by rewrite E in E'.
  - intros m' E'. by rewrite E in E'.
Qed.

(** [o] is where the operation [p] is when it has sent [out]. *)
Definition continues (p : producer) (out : list Progress) (o : producer) : Prop :=
  (forall l q, runs o l q -> runs p (out ++ l) q) /\ (forall l, sends o l -> sends p (out ++ l)).

Lemma continues_start p : continues p [] p.
Proof. done. Qed.
Lemma continues_sent p out o : continues p out o -> sends p out.
Proof. intros [_ H]. rewrite <- (app_nil_r out). apply H, sends_none. Qed.
Lemma continues_send p out m o : continues p out (PSend m o) -> continues p (out ++ [m]) o.
Proof. intros [H1 H2]. split; intros; rewrite <- app_assoc; [apply H1|apply H2]; by constructor. Qed.
Lemma continues_receive p out f k m : f k = Received m -> continues p out (PRecv f k) -> continues p out (PSend m (PRecv f (S k))).
Proof.
  intros E [H1 H2]. split.
  - intros l q Hr. inversion Hr; subst. apply H1. by apply runs_receive.
  - intros l Hs. inversion Hs; subst; apply H2; [apply sends_none|by apply sends_receive].
Qed.
Lemma continues_finish p out f k : f k = Finished -> continues p out (PRecv f k) -> continues p out (PDone None).
Proof.
  intros E [H1 H2]. split; intros l; [intros q Hr; inversion Hr; subst; apply H1; by constructor|].
  intros Hs. inversion Hs; subst. apply H2, sends_none.
Qed.
Lemma continues_break p out f k e : f k = Broke e -> continues p out (PRecv f k) -> continues p out (recovers e).
Proof. intros E [H1 H2]. split; intros; [apply H1; by eapply runs_break|apply H2; by eapply sends_break]. Qed.

(** Cut short: the operation had sent [l], then the context was cancelled, and [l'] came
    of that. *)
Definition cut_short (p : producer) (out l' : list Progress) : Prop := exists l, out = l ++ l' /\ sends p l.

(** What holds of every state a relay of [p] reaches. *)
Definition relayed (p : producer) (s : relay) : Prop :=
  match handler_at s with
  | Forwarding =>
      continues p (written s) (operation_at s) \/
      (gone s = true /\ exists l', cut_short p (written s) l' /\ plain (operation_at s) /\ continues (recovers canceled) l' (operation_at s))
  | Returned r =>
      (exists q, runs p (written s) q /\ r = reported_as q) \/
      (gone s = true /\ exists l' q, cut_short p (written s) l' /\ runs (recovers canceled) l' q /\ r = reported_as q) \/
      (send_ok (length (written s)) = false /\ r = Some (CallFailed (bs "send")) /\
       exists l', cut_short p (written s) l' /\ (l' = [] \/ gone s = true /\ sends (recovers canceled) l'))
  end.

Lemma cut_none p out : sends p out -> cut_short p out [].
Proof. intros H. exists out. by rewrite app_nil_r. Qed.
Lemma cut_more p out l' m : cut_short p out l' -> cut_short p (out ++ [m]) (l' ++ [m]).
Proof. intros (l & -> & H). exists l. by rewrite app_assoc. Qed.

Lemma rstep_relayed p s s' : relayed p s -> rstep s s' -> relayed p s'.
Proof.
  intros Hs Hstep.
  destruct Hstep as [f k m h g out E|f k h g out E|f k e h g out E|o out|f k h g out Hg|m next g out Hok|m next g out Hok|r g out];
    unfold relayed in *; cbn [handler_at written operation_at gone] in *.
  - destruct h; [|exact Hs]. destruct Hs as [Hs|(_ & l' & _ & [] & _)]. left. by eapply continues_receive.
  - destruct h; [|exact Hs]. destruct Hs as [Hs|(_ & l' & _ & [] & _)]. left. by eapply continues_finish.
  - destruct h; [|exact Hs]. destruct Hs as [Hs|(_ & l' & _ & [] & _)]. left. by eapply continues_break.
  - destruct Hs as [Hs|([=] & _)]. by left.
  - destruct h; [|exact Hs]. destruct Hg as [->|[]]; [|done]. destruct Hs as [Hs|(_ & l' & _ & [] & _)].
    right. split; [done|]. exists []. split_and!; [by eapply cut_none, continues_sent|apply recovers_plain|apply continues_start].
  - destruct Hs as [Hs|(Hg & l' & Hc & Hp & Hs)]; [left; by apply continues_send|].
    right. split; [done|]. exists (l' ++ [m]). split_and!; [by apply cut_more|done|by apply continues_send].
  - right. right. split_and!; [done|done|]. destruct Hs as [Hs|(Hg & l' & Hc & Hp & Hs)].
    + exists []. split; [by eapply cut_none, continues_sent|by left].
    + exists l'. split; [done|]. right. split; [done|by eapply continues_sent].
  - destruct Hs as [[Hs _]|(Hg & l' & Hc & _ & [Hs _])].
    + left. exists r. split; [|done]. rewrite <- (app_nil_r out). apply Hs. constructor.
    + right. left. split; [done|]. exists l', r. split_and!; [done| |done]. rewrite <- (app_nil_r l'). apply Hs. constructor.
Qed.

Lemma relay_relayed p s : rtc rstep (start p) s -> relayed p s.
Proof.
  intros Hs. assert (relayed p (start p)) as H0 by (left; apply continues_start).
  revert H0. induction Hs as [|a b c Hab _ IH]; [done|]. intros Ha. apply IH. by eapply rstep_relayed.
Qed.

(** An operation that ends still ends, wherever the relay is. *)
Lemma rstep_ends s s' : (exists l q, runs (operation_at s) l q) -> rstep s s' -> exists l q, runs (operation_at s') l q.
Proof.
  assert (forall p, plain p -> exists l q, runs p l q) as Hp.
  { induction p as [|m p IH|r]; cbn; [done| |by eexists [], r; constructor]. intros (l & q & H)%IH. exists (m :: l), q. by constructor. }
  intros (l & q & Hr) Hstep.
  destruct Hstep as [f k m h g out E|f k h g out E|f k e h g out E|o out|f k h g out Hg|m next g out Hok|m next g out Hok|r g out];
    cbn [operation_at] in *; try (by eauto using recovers_plain);
    inversion Hr; subst; simplify_eq; eauto using runs; try (by eauto using recovers_plain); congruence.
Qed.

Lemma relay_ends p l q s : runs p l q -> rtc rstep (start p) s -> Acc (flip rstep) s.
Proof.
  intros Hr Hs. assert (exists l q, runs (operation_at (start p)) l q) as H0 by (by exists l, q). clear Hr.
  revert H0. induction Hs as [s|a b c Hab _ IH]; intros H0.
  - destruct H0 as (l' & q' & Hr). destruct s. by eapply runs_acc.
  - apply IH. by eapply rstep_ends.
Qed.

(** The handler waits only for an agent that is silent, and that only while the caller does. *)
Definition waits_for_agent (s : relay) : Prop := gone s = false /\ exists f k, operation_at s = PRecv f k /\ f k = Silent.

Lemma forwarding_steps s : handler_at s = Forwarding -> waits_for_agent s \/ exists s', rstep s s' /\ gone s' = gone s.
Proof.
  destruct s as [[f k|m next|r] h g out]; cbn; intros ->.
  - destruct (f k) as [m| |e|] eqn:E.
    + right. eexists. split; [by apply receives|done].
    + right. eexists. split; [by apply stream_ends|done].
    + right. eexists. split; [by eapply stream_fails|done].
    + destruct g; [right|left; split; [done|by exists f, k]]. eexists. split; [apply stream_cancelled; by left|done].
  - right. destruct (send_ok (length out)) eqn:E; eexists; (split; [by constructor|done]).
  - right. eexists. split; [apply returns|done].
Qed.

(** Once the caller is gone, the handler can return, whatever the agent does. *)
Lemma plain_returns p : plain p -> forall g out,
  exists s, rtc rstep {| operation_at := p; handler_at := Forwarding; gone := g; written := out |} s /\ handler_at s <> Forwarding.
Proof.
  induction p as [|m p IH|r]; cbn; [done| |].
  - intros Hp g out. destruct (send_ok (length out)) eqn:E.
    + destruct (IH Hp g (out ++ [m])) as (s & Hs & Hr). exists s. split; [|done]. eapply rtc_l; [by apply forwards|done].
    + eexists. split; [eapply rtc_l; [by apply send_fails|apply rtc_refl]|done].
  - intros _ g out. eexists. split; [eapply rtc_l; [apply returns|apply rtc_refl]|done].
Qed.
Lemma gone_returns s : gone s = true -> exists s', rtc rstep s s' /\ handler_at s' <> Forwarding.
Proof.
  destruct s as [p [|r] g out]; cbn; intros ->; [|by eexists; split; [apply rtc_refl|]].
  revert out. induction p as [f k|m p IH|r]; intros out; [| |by apply plain_returns].
  - destruct (plain_returns _ (recovers_plain canceled) true out) as (s & Hs & Hr). exists s. split; [|done].
    eapply rtc_l; [apply stream_cancelled; by left|done].
  - destruct (send_ok (length out)) eqn:E.
    + destruct (IH (out ++ [m])) as (s & Hs & Hr). exists s. split; [|done]. eapply rtc_l; [by apply forwards|done].
    + eexists. split; [eapply rtc_l; [by apply send_fails|apply rtc_refl]|done].
Qed.
End Relay.

#[global] Arguments start p /.

Lemma after_error_plain op e : plain (after_error op e).
Proof. by destruct op. Qed.

(** C37: What a relay gives to the caller, for any stream of the agent, one without end
    and one that falls silent included.  When the handler has returned, the caller has got
    exactly what the operation sends, and its result, which is withheld by the handler of
    [VacuumBackend]; or the caller had given up, and got what was sent before and what the
    operation made of that; or a [Send] failed, and what had been sent before is there.
    The handler is never stuck but for a silent agent while the caller waits, it can
    return as soon as the caller gives up, and where the agent's stream ends the relay ends. *)
Theorem relay_correct (op : operation) (send_ok : nat -> bool) (p : producer) (s : relay) :
  let reports := match op with OpVacuum => false | _ => true end in
  let recovers := after_error op in
  let R := rstep recovers send_ok reports in
  rtc R (start p) s ->
  (forall r, handler_at s = Returned r ->
     (exists q, runs recovers p (written s) q /\ r = reported_as reports q) \/
     (gone s = true /\ exists l' q, cut_short recovers p (written s) l' /\ runs recovers (recovers canceled) l' q /\ r = reported_as reports q) \/
     (send_ok (length (written s)) = false /\ r = Some (CallFailed (bs "send")) /\
      exists l', cut_short recovers p (written s) l' /\ (l' = [] \/ gone s = true /\ sends recovers (recovers canceled) l'))) /\
  (handler_at s = Forwarding -> gone s = false -> sends recovers p (written s)) /\
  (handler_at s = Forwarding -> waits_for_agent s \/ exists s', R s s' /\ gone s' = gone s) /\
  (gone s = true -> exists s', rtc R s s' /\ handler_at s' <> Forwarding) /\
  ((exists l q, runs recovers p l q) -> Acc (flip R) s).
Proof.
  cbn zeta. intros Hs. pose proof (relay_relayed _ _ _ (after_error_plain op) p s Hs) as Hr. unfold relayed in Hr. split_and!.
  - intros r Er. by rewrite Er in Hr.
  - intros Ef Eg. rewrite Ef, Eg in Hr. destruct Hr as [Hr|([=] & _)]. by eapply continues_sent.
  - apply forwarding_steps.
  - apply gone_returns, after_error_plain.
  - intros (l & q & Hq). eapply relay_ends; [apply after_error_plain|done|done].
Qed.

(** Where the stream breaks, the operation may be left waiting for ever for somebody to
    take its next message: the goroutine, and what it would close, stay. *)
Definition two_messages : producer :=
  PRecv (fun k => match k with 0 => Received (bs "Dumping", 10%Z, []) | 1 => Received (bs "Dumping", 20%Z, []) | _ => Finished end)%nat 0.
Example broken_stream_strands_operation :
  let R := rstep (after_error OpBackup) (fun _ => false) true in
  exists s, rtc R (start two_messages) s /\ (exists m next, operation_at s = PSend m next) /\ (forall s', ~ R s s').
Proof.
  cbn zeta. eexists. split; [|split].
  - eapply rtc_l; [by apply receives|]. eapply rtc_l; [by apply send_fails|]. eapply rtc_l; [by apply receives|]. apply rtc_refl.
  - by eexists _, _.
  - intros s' Hs. inversion Hs.
Qed.

(** An agent that never answers, and one that never stops: the first keeps the caller for
    as long as it waits, the second for ever. *)
Example silent_agent_is_waited_for :
  let R := rstep (after_error OpBackup) (fun _ => true) true in
  forall s, R (start (PRecv (fun _ => Silent) 0)) s -> gone s = true.
Proof. cbn zeta. intros s Hs. inversion Hs as [| | | |? ? ? ? ? [Hg|Hg]| | |]; subst; done. Qed.
Example endless_agent_is_relayed (m : Progress) (n : nat) :
  let R := rstep (after_error OpBackup) (fun _ => true) true in
  rtc R (start (PRecv (fun _ => Received m) 0)) {| operation_at := PRecv (fun _ => Received m) n; handler_at := Forwarding; gone := false; written := replicate n m |}.
Proof.
  cbn zeta. induction n as [|n IH]; [apply rtc_refl|]. etrans; [exact IH|].
  eapply rtc_l; [by apply receives|]. eapply rtc_l; [by apply forwards|]. rewrite <- replicate_cons_app. apply rtc_refl.
Qed.

(** A caller is not told that vacuuming failed. *)
Example vacuum_error_not_reported :
  let R := rstep (after_error OpVacuum) (fun _ => true) false in
  exists s, rtc R (start (PDone (Some AgentNotConnected))) s /\ handler_at s = Returned None.
Proof. cbn zeta. eexists. split; [eapply rtc_l; [apply returns|apply rtc_refl]|done]. Qed.

(** The versions offered: those the agents of the running backends of the stored
    projects reported, each once and in the order of text; or a fixed choice. *)
Theorem available_versions (w : Fleet) (available : nat -> list bytes) :
  let l := GetAvailableVersions w available in
  StronglySorted text_le l /\ NoDup l /\ l <> [] /\
  ((exists v, v ∈ reported w available) -> forall v, v ∈ l <-> v ∈ reported w available).
Proof.
  cbn zeta. unfold GetAvailableVersions. case_decide as E.
  - split_and!; [|by apply (bool_decide_unpack _)|done|].
    + repeat (constructor; [|repeat constructor; intros ?; done]). constructor.
    + intros [v Hv]. apply elem_of_remove_dups in Hv. rewrite E in Hv. by apply not_elem_of_nil in Hv.
  - split_and!.
    + apply StronglySorted_merge_sort; apply _.
    + unfold text_sorted. rewrite (merge_sort_Permutation text_le). apply NoDup_remove_dups.
    + intros E'. apply E. unfold text_sorted in E'. apply Permutation_nil_r. by rewrite <- (merge_sort_Permutation text_le), E'.
    + intros _ v. unfold text_sorted. by rewrite (merge_sort_Permutation text_le), elem_of_remove_dups.
Qed.

(** ** The status stream *)

Definition statusStreamDefaultInterval : Z := 2 * 1000000000.
Definition statusStreamMinInterval : Z := 500 * 1000000.
Definition statusStreamMaxInterval : Z := 30 * 1000000000.
Definition statusStreamKeepalive : Z := 20 * 1000000000.

Definition clampStatusInterval (ms : Z) : Z :=
  if decide (ms <= 0) then statusStreamDefaultInterval
  else
    let interval := ms * 1000000 in
    if decide (interval < statusStreamMinInterval) then statusStreamMinInterval
    else if decide (statusStreamMaxInterval < interval) then statusStreamMaxInterval else interval.

Lemma clamp_bounds ms : statusStreamMinInterval <= clampStatusInterval ms <= statusStreamMaxInterval.
Proof.
  unfold clampStatusInterval, statusStreamMinInterval, statusStreamMaxInterval, statusStreamDefaultInterval. repeat case_decide; lia.
Qed.

Section StatusStream.
(** [digest] is SHA-256 of the payload as it is marshalled, where that succeeds. *)
Context {Status : Type} (digest : Status -> option bytes).

(** [lastDigest] and [lastSent]: all zero before the first message. *)
Record sender := { lastDigest : bytes; lastSent : option Z }.
Definition no_digest : bytes := replicate 32 Byte.x00.

(** One run of [send]: what [GetStatus] answers and whether the stream takes it. *)
Inductive sent := Quiet | Sent (s : Status) | Ended (e : err).
Definition send (st : sender) (now : Z) (resp : result err Status) (ok : bool) : sent * sender :=
  match resp with
  | Err e => (Ended e, st)
  | Ok s =>
      let d := default (lastDigest st) (digest s) in
      let same := bool_decide (is_Some (digest s)) && bool_decide (d = lastDigest st) &&
                  match lastSent st with Some t => bool_decide (now - t < statusStreamKeepalive) | None => false end in
      if same then (Quiet, st)
      else if ok then (Sent s, {| lastDigest := d; lastSent := Some now |})
      else (Ended (CallFailed (bs "send")), st)
  end.

(** [StreamStatus]: once at once, then at every tick until it ends. *)
Fixpoint StreamStatus (st : sender) (ticks : list (Z * result err Status * bool)) : list (Z * Status) * option err :=
  match ticks with
  | [] => ([], None)
  | (now, resp, ok) :: ticks =>
      match send st now resp ok with
      | (Ended e, _) => ([], Some e)
      | (Quiet, st) => StreamStatus st ticks
      | (Sent s, st) => let '(l, e) := StreamStatus st ticks in ((now, s) :: l, e)
      end
  end.

(** The last payload the caller has, and when it came. *)
Definition last_sent (l : list (Z * Status)) : option (Z * Status) := last l.

(** While the stream goes on, the caller is never shown a payload that is out of date:
    after each tick what it has last is the payload of that tick, or one of the same
    digest that came within the keepalive. *)
Lemma stream_fresh ticks : forall st have,
  (forall t s, have = Some (t, s) -> lastSent st = Some t /\ lastDigest st = default (lastDigest st) (digest s)) ->
  (have = None -> lastSent st = None) ->
  forall now s ok, snd (StreamStatus st (ticks ++ [(now, Ok s, ok)])) = None ->
  exists t s', last (option_list have ++ fst (StreamStatus st (ticks ++ [(now, Ok s, ok)]))) = Some (t, s') /\
    ((t, s') = (now, s) \/ now - t < statusStreamKeepalive /\ is_Some (digest s) /\ (is_Some (digest s') -> digest s' = digest s)).
Proof.
  induction ticks as [|[[now' resp] ok'] ticks IH]; intros st have Hh Hn now s ok.
  - cbn. unfold send. destruct (_ && _ && _) eqn:E.
    + intros _. cbn. rewrite app_nil_r. destruct (lastSent st) as [t|] eqn:Et; [|by rewrite andb_false_r in E].
      destruct have as [[t' s']|]; [|by specialize (Hn eq_refl)]. destruct (Hh t' s' eq_refl) as [[= ->] Hd]. exists t', s'. split; [done|]. right.
      apply andb_true_iff in E as [[E1 E2]%andb_true_iff E3]. apply bool_decide_eq_true in E1, E2, E3. split_and!; [done|done|].
      intros [d' Hd']. destruct E1 as [d Ed]. rewrite Hd' in Hd. rewrite Ed in E2. cbn in *. rewrite Hd', Ed. congruence.
    + destruct ok; cbn; [|by intros [=]]. intros _. exists now, s. split; [|by left]. by rewrite last_snoc.
  - cbn [app StreamStatus]. destruct (send st now' resp ok') as [[|s0|e] st'] eqn:E; cbn [fst snd]; [| |by intros [=]].
    + assert (st' = st) as ->. { unfold send in E. destruct resp; repeat case_match; by simplify_eq. }
      apply IH; done.
    + intros Hend. destruct (StreamStatus st' (ticks ++ [(now, Ok s, ok)])) as [l e] eqn:El. cbn in Hend. subst e.
      assert (lastSent st' = Some now' /\ lastDigest st' = default (lastDigest st') (digest s0)) as [Hs' Hd'].
      { unfold send in E. destruct resp; repeat case_match; simplify_eq; cbn; (split; [done|]); by destruct (digest s0). }
      destruct (IH st' (Some (now', s0)) ltac:(intros ? ? [= -> ->]; done) ltac:(done) now s ok) as (t & s' & Hl & Hor); [by rewrite El|].
      rewrite El in Hl. cbn [fst option_list] in *. exists t, s'. split; [|done]. rewrite <- Hl.
      destruct have as [h|]; [|done]. cbn. by destruct l.
Qed.
End StatusStream.
Arguments sent : clear implicits.

(** At every tick the stream survives, the caller has the status of that tick, or one
    of the same digest that came less than the keepalive ago. *)
Theorem status_stream_current {Status : Type} (digest : Status -> option bytes) (ticks : list (Z * result err Status * bool)) (now : Z) (s : Status) (ok : bool) :
  let out := StreamStatus digest {| lastDigest := no_digest; lastSent := None |} (ticks ++ [(now, Ok s, ok)]) in
  snd out = None ->
  exists t s', last (fst out) = Some (t, s') /\
    ((t, s') = (now, s) \/ now - t < statusStreamKeepalive /\ is_Some (digest s) /\ (is_Some (digest s') -> digest s' = digest s)).
Proof. cbn zeta. intros He. by apply (stream_fresh digest ticks _ None) with (ok := ok). Qed.

(** ** Concrete runs *)

Lemma relay_correct_witness :
  let R := rstep (after_error OpBackup) (fun _ => true) true in
  let l := [(bs "Dumping", 10, []); (bs "Dumping", 20, [])] in
  let final := {| operation_at := PDone None; handler_at := Returned None; gone := false; written := l |} in
  rtc R (start two_messages) final /\ runs (after_error OpBackup) two_messages l None /\ Acc (flip R) final.
Proof.
  cbn zeta.
  assert (rtc (rstep (after_error OpBackup) (fun _ => true) true) (start two_messages)
    {| operation_at := PDone None; handler_at := Returned None; gone := false; written := [(bs "Dumping", 10, []); (bs "Dumping", 20, [])] |}) as Hrun.
  { eapply rtc_l; [by apply receives|]. eapply rtc_l; [by apply forwards|]. eapply rtc_l; [by apply receives|]. eapply rtc_l; [by apply forwards|].
    eapply rtc_l; [by apply stream_ends|]. eapply rtc_l; [apply returns|]. apply rtc_refl. }
  split; [exact Hrun|].
  pose proof (relay_correct OpBackup (fun _ => true) two_messages _ Hrun) as (Hr & _ & _ & _ & Ha).
  destruct (Hr None eq_refl) as [(q & Hq & E)|[([=] & _)|([=] & _)]]. cbn in E. subst q. split; [exact Hq|]. apply Ha. eauto.
Defined.

Lemma status_stream_current_witness :
  let digest (s : bytes) := Some s in
  let out := StreamStatus digest {| lastDigest := no_digest; lastSent := None |} ([(0, Ok (bs "a"), true); (1, Ok (bs "a"), true)] ++ [(2, Ok (bs "b"), true)]) in
  snd out = None /\ fst out = [(0, bs "a"); (2, bs "b")] /\
  exists t s', last (fst out) = Some (t, s') /\
    ((t, s') = (2, bs "b") \/ 2 - t < statusStreamKeepalive /\ is_Some (digest (bs "b")) /\ (is_Some (digest s') -> digest s' = digest (bs "b"))).
Proof.
  cbn zeta. split; [vm_compute; reflexivity|]. split; [vm_compute; reflexivity|].
  apply (status_stream_current (fun s : bytes => Some s) [(0, Ok (bs "a"), true); (1, Ok (bs "a"), true)] 2 (bs "b") true). vm_compute. reflexivity.
Defined.
