(* ===== verification/Status.v ===== *)
(** * What an operator is shown, and what can be done from there

    manager/observability.go: [GetStatus], plans, tuning, insights and cache figures;
    manager/replication.go: the streams, ending one, creating a slot.

    What a backend reports of itself is its [Balancer.Backend], the same record the
    balancer chooses by, together with its pool's counters.  A map is ranged over in
    some order: [ranged] lists the proxies as the range meets them. *)
From Stdlib Require Import ZArith QArith_base Lia Strings.String.
From stdpp Require Import base gmap list numbers option.
From S2P Require Import Prelude Wire Scanner Relay Format Pool Balancer Startup Cache Config Streams Management Failover Fleet.
#[local] Close Scope Q_scope.
#[local] Open Scope Z_scope.

(** ** The proxy that is meant *)

Definition pick_proxy (p : Project) (ranged : list Proxy) (proxyId : bytes) : option Proxy :=
  if decide (proxyId <> []) then pj_proxies p !! proxyId else head ranged.

(** The lookup of the observability manager, and that of the replication manager. *)
Inductive api_err :=
| NotFound (what : bytes) | FailedPrecondition (what : bytes) | InvalidArgument (what : bytes) | Internal (what : bytes) | Unimplemented (what : bytes).

Definition observed_proxy (w : Fleet) (ranged : Project -> list Proxy) (projectId proxyId : bytes) : result api_err (Project * Proxy) :=
  match GetProjectState w projectId with
  | Err _ => Err (NotFound (bs "project not found"))
  | Ok p => match pick_proxy p (ranged p) proxyId with Some ps => Ok (p, ps) | None => Err (NotFound (bs "proxy not found")) end
  end.

(** ** [GetStatus] *)

(** The counters of [node.Stats()], and the agent's reports. *)
Record NodeReport := {
  nr_MaxConns : Z; nr_IdleConns : Z; nr_WaitQueueSize : Z; nr_TotalRequests : Z; nr_TotalErrors : Z;
  nr_Installed : bytes; nr_Recommended : bytes
}.

Record BackendStatus := {
  bs_Address : bytes; bs_Zone : bytes; bs_Healthy : bool; bs_ActiveConns : Z; bs_LastCheck : Z; bs_Role : bytes;
  bs_LatencyMs : Z; bs_ReplicationLagMs : Z; bs_IsDraining : bool; bs_Streaming : bool; bs_ReadEligible : bool;
  bs_Weight : Z; bs_Report : NodeReport; bs_StreamConns : Z; bs_MaxStreamConns : Z; bs_RttMs : Z;
  bs_ManagedByAgent : bool; bs_AgentAddress : bytes; bs_AgentConfig : option AgentDatabaseConfig
}.
Record TopologyNode := { tn_Id : bytes; tn_Label : bytes; tn_Type : bytes; tn_Status : bytes; tn_Address : bytes }.
Record TopologyEdge := { te_From : bytes; te_To : bytes; te_Type : bytes }.
Record Status := {
  st_Backends : list BackendStatus; st_TotalConns : Z; st_Protocol : bytes; st_InFailover : bool;
  st_Nodes : list TopologyNode; st_Edges : list TopologyEdge; st_CacheStats : option (Z * Z * Z * Q)
}.

Definition role_string (r : Pool.Role) : bytes := match r with RolePrimary => bs "primary" | RoleReplica => bs "replica" end.
Definition ms (ns : Z) : Z := Z.quot ns 1000000.

(** [streamsFor], [streamBudget] and [cacheStatsOf], of what the proxy may not have. *)
Definition streamsFor (streams : option Registry) (address : bytes) : Z := from_option (fun r => CountFor r address) 0 streams.
Definition streamBudget (streams : option Registry) : Z := from_option Budget 0 streams.
Definition cacheStatsOf (stats : option (Z * Z * Z)) : option (Z * Z * Z * Q) :=
  match stats with
  | None => None
  | Some (hits, misses, count) =>
      Some (hits, misses, count, if decide (0 < hits + misses) then Qmake hits (Z.to_pos (hits + misses)) else 0%Q)
  end.

(** The management information: that of the first configured backend with the address. *)
Definition managed_info (specs : list BackendSpec) (address : bytes) : bool * bytes * option AgentDatabaseConfig :=
  match spec_index specs address with
  | Some (_, b) => (b_ManagedByAgent b, b_AgentAddress b, b_AgentConfig b)
  | None => (false, [], None)
  end.

Definition backend_status (now : Z) (streams : option Registry) (specs : list BackendSpec) (n : Backend * NodeReport) : BackendStatus :=
  let '(b, r) := n in
  let '(managed, agent, cfg) := managed_info specs (b_address b) in
  {| bs_Address := b_address b; bs_Zone := b_zone b; bs_Healthy := b_healthy b; bs_ActiveConns := b_active b; bs_LastCheck := now;
     bs_Role := role_string (b_role b); bs_LatencyMs := ms (b_latency b); bs_ReplicationLagMs := ms (b_lag b); bs_IsDraining := b_draining b;
     bs_Streaming := b_replicating b || bool_decide (b_role b = RolePrimary);
     bs_ReadEligible := b_healthy b && negb (b_draining b) && b_replicating b;
     bs_Weight := i32 (b_weight b); bs_Report := r; bs_StreamConns := i32 (streamsFor streams (b_address b));
     bs_MaxStreamConns := i32 (streamBudget streams); bs_RttMs := ms (b_rtt b);
     bs_ManagedByAgent := managed; bs_AgentAddress := agent; bs_AgentConfig := cfg |}.

Definition node_id (address : bytes) : bytes := bs "backend-" ++ address.

(** [GetStatus] of a proxy: what its backends report, its configuration, its failover
    manager's state, its streams and its cache.  The figures of the process itself
    (uptime, rates, system metrics, adaptive status) are left out. *)
Definition status_of (now : Z) (protocol : bytes) (cfg : ProxyConfig) (streams : option Registry) (failover : option FailoverState)
    (cache : option (Z * Z * Z)) (nodes : list (Backend * NodeReport)) : Status :=
  let backends := map (backend_status now streams (p_Backends cfg)) nodes in
  {| st_Backends := backends; st_TotalConns := foldl (fun n x => n + b_active (fst x)) 0 nodes; st_Protocol := protocol;
     st_InFailover := match failover with Some StatePromoting | Some StateVerifying => true | _ => false end;
     st_Nodes := {| tn_Id := p_Id cfg; tn_Label := p_Name cfg; tn_Type := bs "proxy"; tn_Status := bs "healthy"; tn_Address := p_Address cfg |} ::
                 map (fun b => {| tn_Id := node_id (bs_Address b); tn_Label := bs_Address b; tn_Type := bs_Role b; tn_Status := bs "healthy";
                                  tn_Address := bs_Address b |}) backends;
     st_Edges := map (fun b => {| te_From := p_Id cfg; te_To := node_id (bs_Address b); te_Type := bs "traffic" |}) backends;
     st_CacheStats := cacheStatsOf cache |}.

(** What runs beside a proxy. *)
Record Beside := { bd_streams : option Registry; bd_failover : option FailoverState; bd_cache : option (Z * Z * Z) }.

Definition GetStatus (w : Fleet) (ranged : Project -> list Proxy) (look : nat -> Backend * NodeReport) (beside : Proxy -> Beside) (now : Z)
    (projectId proxyId : bytes) : result api_err Status :=
  match observed_proxy w ranged projectId proxyId with
  | Err e => Err e
  | Ok (p, ps) =>
      match configs w !! px_config ps with
      | None => Err (Internal (bs "nil pointer"))
      | Some cfg => let b := beside ps in
                    Ok (status_of now (pj_Protocol p) cfg (bd_streams b) (bd_failover b) (bd_cache b) (map look (backends_of w ps)))
      end
  end.

(** ** Plans and tuning *)

Definition analyzePlan (plan : bytes) : list (bytes * bytes) :=
  (if Contains plan (bs "Seq Scan") then [(bs "Index Suggestion", bs "High")] else []) ++
  (if Contains plan (bs "Parallel Seq Scan") then [(bs "Parallel Index Suggestion", bs "Medium")] else []) ++
  (if Contains plan (bs "Nested Loop") && Contains plan (bs "Join Filter") then [(bs "Join Optimization", bs "High")] else []).

(** [ExplainQuery], of the registry's explainer. *)
Definition ExplainQuery (query : bytes) : result api_err (bytes * list (bytes * bytes)) :=
  match registry_Explain query with
  | None => Err (Internal (bs "explain not implemented"))
  | Some plan => Ok (plan, analyzePlan plan)
  end.

(** [TuneDatabase]: [info n] is what the agent of a backend says of its host, where there
    is an agent that answers; [local] are the metrics of the proxy's own host. *)
Definition tuner_for (protocol : bytes) : option api_err :=
  if decide (protocol = bs "postgres") then None else Some (Unimplemented protocol).
Definition targets (w : Fleet) (ps : Proxy) (address : bytes) : list nat :=
  if decide (address <> []) then match node_index w ps address with Some (_, n) => [n] | None => [] end else backends_of w ps.
Definition TuneDatabase (w : Fleet) (ranged : Project -> list Proxy) (info : nat -> option SystemMetrics) (local : SystemMetrics)
    (projectId proxyId address : bytes) : result api_err (list (bytes * (list (bytes * bytes) * list bytes))) :=
  match observed_proxy w ranged projectId proxyId with
  | Err e => Err e
  | Ok (p, ps) =>
      match targets w ps address with
      | [] => Err (NotFound (bs "no backends found"))
      | ns => match tuner_for (pj_Protocol p) with
              | Some e => Err e
              | None => Ok (map (fun n => (address_of w n, Tune (Some (default local (info n))))) ns)
              end
      end
  end.

(** [ApplyTuning]: [acquires] is the connection to the backend, [runs] whether a statement
    succeeds on it.  The statements that were run are part of the result. *)
Fixpoint run_until_error (runs : bytes -> option bytes) (l : list bytes) : list bytes * option bytes :=
  match l with
  | [] => ([], None)
  | q :: l => match runs q with
              | Some e => ([q], Some e)
              | None => let '(done_, r) := run_until_error runs l in (q :: done_, r)
              end
  end.
Definition ApplyTuning (w : Fleet) (ranged : Project -> list Proxy) (acquires : nat -> option bytes) (runs : bytes -> option bytes)
    (projectId proxyId address : bytes) (suggestion : option (bytes * bytes)) : result api_err (bool * bytes) * list bytes :=
  match observed_proxy w ranged projectId proxyId with
  | Err e => (Err e, [])
  | Ok (p, ps) =>
      match head (targets w ps address), tuner_for (pj_Protocol p) with
      | None, _ => (Err (NotFound (bs "backend not found")), [])
      | Some _, Some e => (Err e, [])
      | Some n, None =>
          match acquires n, suggestion with
          | Some e, _ => (Err (Internal (bs "failed to acquire backend connection: " ++ e)), [])
          | None, None => (Err (Internal (bs "nil pointer")), [])
          | None, Some (parameter, value) =>
              match run_until_error runs (tuning_statements parameter value) with
              | (done_, Some e) => (Ok (false, e), done_)
              | (done_, None) => (Ok (true, bs "Tuning recommendation applied successfully."), done_)
              end
          end
      end
  end.

(** [GetPostgresInsights]: here a proxy must be named. *)
Definition GetPostgresInsights {Insights : Type} (w : Fleet) (ask : nat -> result bytes Insights) (projectId proxyId address : bytes) :
    result api_err Insights :=
  match GetProjectState w projectId with
  | Err _ => Err (NotFound (bs "project not found"))
  | Ok p =>
      match pj_proxies p !! proxyId with
      | None => Err (NotFound (bs "proxy not found"))
      | Some ps =>
          match node_index w ps address with
          | None => Err (NotFound (bs "backend not found"))
          | Some (_, n) =>
              if from_option n_agent false (nodes w !! n)
              then match ask n with Ok i => Ok i | Err e => Err (Internal (bs "failed to get insights from agent: " ++ e)) end
              else Err (FailedPrecondition (bs "agent not connected for this backend"))
          end
      end
  end.

(** ** Replication *)

(** [primaryOf]. *)
Definition primaryOf (nodes : list Backend) (address : bytes) : option Backend :=
  snd <$> list_find (fun b => b_role b = RolePrimary /\ b_healthy b = true /\ (address = [] \/ b_address b = address)) nodes.

(** [CreateLogicalSlot], once its proxy is found: [admin] is whether the backend has a
    connection of its own for this, [exec] what the server answers to the statement with
    its two parameters. *)
Definition CreateLogicalSlot (nodes : list Backend) (admin : bytes -> bool) (exec : bytes -> bytes -> bytes -> option bytes)
    (proxyAddress slot address plugin : bytes) : result api_err (bytes * bytes) :=
  if decide (slot = []) then Err (InvalidArgument (bs "slot name is required"))
  else
    match primaryOf nodes address with
    | None => Err (FailedPrecondition (bs "logical replication slots can only be created on a healthy primary"))
    | Some b =>
        let plugin := if decide (plugin = []) then bs "pgoutput" else plugin in
        if negb (admin (b_address b)) then Err (FailedPrecondition (b_address b ++ bs " has no admin_dsn configured"))
        else match ValidateSlotName slot, ValidateOutputPlugin plugin with
             | Err _, _ => Err (InvalidArgument slot)
             | Ok _, Err _ => Err (InvalidArgument plugin)
             | Ok _, Ok _ =>
                 match exec (b_address b) slot plugin with
                 | Some e => Err (FailedPrecondition (bs "create slot " ++ slot ++ bs " on " ++ b_address b ++ bs ": " ++ e))
                 | None => Ok (bs "slot " ++ slot ++ bs " created on " ++ b_address b ++ bs " with plugin " ++ plugin,
                               bs "postgres://<user>@" ++ proxyAddress ++ bs "/<database>?replication=database")
                 end
             end
    end.

(** [slots]: the inventory, as far as it can be read. *)
Definition slots {Slot : Type} (nodes : list Backend) (admin : bytes -> bool) (query : bytes -> option (list (option Slot))) : list Slot :=
  match primaryOf nodes [] with
  | None => []
  | Some b => if admin (b_address b)
              then match query (b_address b) ≫= mapM id with Some l => l | None => [] end
              else []
  end.

(** [ListStreams]. *)
Definition ListStreams {Slot : Type} (streams : option Registry) (ranged : list bytes) (inventory : list Slot) : list Stream * list Slot * Z * Z :=
  match streams with
  | None => ([], [], 0, 0)
  | Some r => let live := stream_List r ranged in (live, inventory, i32 (zlen live), i32 (Budget r))
  end.

(** [TerminateStream]: the registry forgets the stream. *)
Definition TerminateStream (s : StreamState) (id : bytes) : bytes * StreamState :=
  (bs "stream " ++ id ++ bs " terminated; the consumer must resync from its own checkpoint",
   {| ss_ctx := ss_ctx s; ss_registry := Streams.Remove (ss_registry s) id; ss_consumers := ss_consumers s |}).

(** ** What is shown and what is done *)

Definition shown (now : Z) (b : Backend) : BackendStatus :=
  backend_status now None [] (b, {| nr_MaxConns := 0; nr_IdleConns := 0; nr_WaitQueueSize := 0; nr_TotalRequests := 0; nr_TotalErrors := 0;
                                    nr_Installed := []; nr_Recommended := [] |}).

(** Where the balancer has a replica within the lag budget to send reads to, it sends them
    to the replicas the status shows as eligible and that are within the budget, and to
    no other. *)
Theorem read_eligible_is_routed (maxLag now : Z) (streams : option Registry) (specs : list BackendSpec) (report : Backend -> NodeReport)
    (nodes : list Backend) :
  (exists b, b ∈ nodes /\ fresh_replica maxLag b = true) ->
  forall b, b ∈ appendReplicas maxLag nodes <->
    b ∈ nodes /\ b_role b = RoleReplica /\ bs_ReadEligible (backend_status now streams specs (b, report b)) = true /\ b_lag b <= maxLag.
Proof.
  intros (b0 & Hin0 & Hf0) b.
  assert (forall b, fresh_replica maxLag b = true <->
    b_role b = RoleReplica /\ bs_ReadEligible (backend_status now streams specs (b, report b)) = true /\ b_lag b <= maxLag) as Hfresh.
  { clear. intros b. unfold fresh_replica, backend_status, serving, is_role. destruct (managed_info _ _) as [[? ?] ?]. cbn.
    rewrite !andb_true_iff, ?bool_decide_eq_true, ?negb_true_iff. tauto. }
  unfold appendReplicas. assert (forall b, b ∈ List.filter (fresh_replica maxLag) nodes <-> b ∈ nodes /\ fresh_replica maxLag b = true) as Hl.
  { intros b'. rewrite !list_elem_of_In. apply filter_In. }
  specialize (Hfresh b). pose proof (Hl b) as Hb. destruct (List.filter (fresh_replica maxLag) nodes) as [|x l'] eqn:El; [|tauto].
  exfalso. by eapply not_elem_of_nil, Hl.
Qed.

(** A replica that is healthy and not drained is shown as streaming exactly when it is
    shown as eligible, so the two never tell a replica apart that streams again but waits
    out its dwell. *)
Theorem streaming_is_eligible (now : Z) (streams : option Registry) (specs : list BackendSpec) (b : Backend) (r : NodeReport) :
  b_role b = RoleReplica -> b_healthy b = true -> b_draining b = false ->
  bs_Streaming (backend_status now streams specs (b, r)) = bs_ReadEligible (backend_status now streams specs (b, r)).
Proof.
  intros Hr Hh Hd. unfold backend_status. destruct (managed_info _ _) as [[? ?] ?]. cbn. rewrite Hr, Hh, Hd. cbn. apply orb_false_r.
Qed.

(** No two statuses of a proxy with backends are the same, each says when it was made. *)
Theorem status_never_repeats (protocol : bytes) (cfg : ProxyConfig) (streams : option Registry) (failover : option FailoverState)
    (cache : option (Z * Z * Z)) (nodes nodes' : list (Backend * NodeReport)) (now now' : Z) :
  nodes <> [] -> now <> now' ->
  status_of now protocol cfg streams failover cache nodes <> status_of now' protocol cfg streams failover cache nodes'.
Proof.
  intros Hn Hnow E. destruct nodes as [|n nodes]; [done|]. apply (f_equal st_Backends) in E. cbn in E.
  destruct nodes' as [|n' nodes']; [done|]. injection E as E _. apply (f_equal bs_LastCheck) in E.
  destruct n, n'. unfold backend_status in E. destruct (managed_info _ _) as [[? ?] ?], (managed_info _ _) as [[? ?] ?]. done.
Qed.

(** A slot is created on a healthy primary, under a name and with a plugin that are
    within their alphabets. *)
Theorem slot_created_safely (nodes : list Backend) (admin : bytes -> bool) (exec : bytes -> bytes -> bytes -> option bytes)
    (proxyAddress slot address plugin : bytes) (answer : bytes * bytes) :
  CreateLogicalSlot nodes admin exec proxyAddress slot address plugin = Ok answer ->
  exists b p, b ∈ nodes /\ b_role b = RolePrimary /\ b_healthy b = true /\ (address = [] \/ b_address b = address) /\
    p = (if decide (plugin = []) then bs "pgoutput" else plugin) /\ exec (b_address b) slot p = None /\
    slot <> [] /\ (length slot <= 63)%nat /\ forallb slot_byte slot = true /\ forallb plugin_byte p = true.
Proof.
  unfold CreateLogicalSlot. case_decide as Hs; [done|]. destruct (primaryOf nodes address) as [b|] eqn:Eb; [|done].
  apply fmap_Some in Eb as ([i b'] & Hf & ->). apply list_find_Some in Hf as (Hi & (Hr & Hh & Ha) & _). cbn.
  destruct (admin _); [|done]. set (p := if decide _ then _ else _). cbn.
  unfold ValidateSlotName. case_decide; [done|]. case_decide as Hlen; [done|]. destruct (forallb slot_byte slot) eqn:Hb; [|done].
  unfold ValidateOutputPlugin. case_decide; [done|]. case_decide; [done|]. destruct (forallb plugin_byte p) eqn:Hp; [|done].
  destruct (exec _ _ _) eqn:He; [done|]. intros _. exists b', p. split_and!; try done; [by eapply list_elem_of_lookup_2|unfold maxSlotNameLen in *; lia].
Qed.

(** ** Concrete cases *)

(** A replica that streams again and waits out its dwell is shown as not streaming. *)
Example dwelling_replica_shown_detached :
  let minute := 60 * 1000000000 in
  let r := foldl (fun r o => setReplicating r (fst o) (snd o)) newReattach [(0, true); (minute, false); (2 * minute, true)] in
  let streaming now := IsReplicating RoleReplica (true, minute) r now in
  let b now := {| b_ref := 1; b_role := RoleReplica; b_healthy := true; b_draining := false; b_replicating := streaming now; b_lag := 0; b_active := 0;
                  b_weight := 1; b_address := bs "b:5432"; b_zone := []; b_latency := 0; b_rtt := 0; b_errorRate := 0; b_lastHealthy := None |} in
  replicating r = true /\ bs_Streaming (shown 0 (b (2 * minute + 1))) = false /\ bs_Streaming (shown 0 (b (3 * minute))) = true.
Proof. vm_compute. split_and!; reflexivity. Qed.

(** A replica too far behind is shown as eligible, and gets no read. *)
Definition replica (address : bytes) (healthy : bool) (lag : Z) : Backend :=
  {| b_ref := 1; b_role := RoleReplica; b_healthy := healthy; b_draining := false; b_replicating := true; b_lag := lag; b_active := 3;
     b_weight := 1; b_address := address; b_zone := []; b_latency := 0; b_rtt := 0; b_errorRate := 0; b_lastHealthy := None |}.
Example lagging_replica_shown_eligible :
  let nodes := [replica (bs "a:5432") true 0; replica (bs "b:5432") true (60 * 1000000000)] in
  map (fun b => bs_ReadEligible (shown 0 b)) nodes = [true; true] /\
  map b_address (appendReplicas DefaultMaxReplicaLag nodes) = [bs "a:5432"].
Proof. vm_compute. split; reflexivity. Qed.

(** The topology calls every backend healthy. *)
Definition one_proxy (specs : list BackendSpec) : ProxyConfig :=
  {| p_Id := bs "p"; p_Name := bs "main"; p_Address := bs ":5432"; p_Backends := specs; p_Balancer := []; p_MaxConns := 10 |}.
Definition no_report : NodeReport :=
  {| nr_MaxConns := 0; nr_IdleConns := 0; nr_WaitQueueSize := 0; nr_TotalRequests := 0; nr_TotalErrors := 0; nr_Installed := []; nr_Recommended := [] |}.
Example topology_always_healthy :
  let s := status_of 0 (bs "postgres") (one_proxy []) None None None [(replica (bs "a:5432") false 0, no_report)] in
  map bs_Healthy (st_Backends s) = [false] /\ map tn_Status (st_Nodes s) = [bs "healthy"; bs "healthy"].
Proof. vm_compute. split; reflexivity. Qed.

(** A backend that is configured by its agent's address alone is shown as unmanaged: its
    own address is worked out from the agent's and matches no configured one. *)
Example agent_only_backend_shown_unmanaged :
  let spec := {| b_Address := []; b_Zone := []; b_Role := bs "replica"; b_Weight := 1; b_ManagedByAgent := true; b_AgentAddress := bs "db1:9091";
                 b_AgentToken := []; b_AdminDsn := []; b_PeerAddress := []; b_AgentConfig := None |} in
  let address := fst (backend_addresses (b_Address spec) (b_AgentAddress spec)) in
  let s := status_of 0 (bs "postgres") (one_proxy [spec]) None None None [(replica address true 0, no_report)] in
  address = bs "db1:5432" /\ map bs_ManagedByAgent (st_Backends s) = [false].
Proof. vm_compute. split; reflexivity. Qed.

(** Ending a stream makes the registry forget it: the consumer goes on, and another is
    admitted in its place, over the budget. *)
Definition a_stream (id : bytes) : Stream :=
  {| sm_ID := id; sm_ClientAddr := []; sm_BackendAddr := bs "a:5432"; sm_Database := []; sm_User := []; sm_Kind := bs "logical" |}.
Example terminated_stream_goes_on :
  let s0 := {| ss_ctx := {| sc_current := Some 0%nat; sc_next := 1; sc_cancelled := ∅ |};
               ss_registry := {| streams := {[bs "s1" := a_stream (bs "s1")]}; budget := 1 |};
               ss_consumers := {[0%nat := Streaming 0 (a_stream (bs "s1")); 1%nat := Opening 0]} |} in
  let s1 := snd (TerminateStream s0 (bs "s1")) in
  registered s0 /\
  ss_consumers s1 !! 0%nat = Some (Streaming 0 (a_stream (bs "s1"))) /\ sc_cancelled (ss_ctx s1) = ∅ /\ Used (ss_registry s1) = 0 /\
  fst (Add (ss_registry s0) (Some (a_stream (bs "s2")))) = false /\ fst (Add (ss_registry s1) (Some (a_stream (bs "s2")))) = true.
Proof.
  cbn zeta. split_and!; try (vm_compute; reflexivity). split.
  - intros id stream. cbn [Streams.streams ss_registry ss_consumers]. rewrite lookup_singleton_Some. split.
    + intros [<- <-]. by exists 0%nat, 0%nat.
    + intros (i & g & Hc & Hid). apply lookup_insert_Some in Hc as [[<- [= <- <-]]|[_ Hc]]; [done|]. apply lookup_singleton_Some in Hc as [_ [=]].
  - intros i j gi gj si sj Hi Hj _. cbn [ss_consumers] in Hi, Hj. apply lookup_insert_Some in Hi as [[<- _]|[_ Hi]]; [|by apply lookup_singleton_Some in Hi as [_ [=]]].
    apply lookup_insert_Some in Hj as [[<- _]|[_ Hj]]; [done|]. by apply lookup_singleton_Some in Hj as [_ [=]].
Qed.

Lemma read_eligible_is_routed_witness :
  let nodes := [replica (bs "a:5432") true 0; replica (bs "b:5432") true (60 * 1000000000)] in
  (exists b, b ∈ nodes /\ fresh_replica DefaultMaxReplicaLag b = true) /\
  (forall b, b ∈ appendReplicas DefaultMaxReplicaLag nodes <->
     b ∈ nodes /\ b_role b = RoleReplica /\ bs_ReadEligible (backend_status 0 None [] (b, no_report)) = true /\ b_lag b <= DefaultMaxReplicaLag).
Proof.
  cbn zeta.
  assert (exists b, b ∈ [replica (bs "a:5432") true 0; replica (bs "b:5432") true (60 * 1000000000)] /\ fresh_replica DefaultMaxReplicaLag b = true) as Hb
    by (exists (replica (bs "a:5432") true 0); split; [constructor|reflexivity]).
  split; [exact Hb|]. exact (read_eligible_is_routed DefaultMaxReplicaLag 0 None [] (fun _ => no_report) _ Hb).
Defined.
