(* ===== verification/Reload.v ===== *)
(** * A gateway's settings, at startup and when the configuration changes

    proxy/gateway.go: [NewGateway], [reconfigure] and [UpdateConfig], [CreateTLSConfig] of
    tls.go, the chain of middleware/chain.go; and what a change of the cache block does to what is cached.

    Loading certificates is the library's: whether a pair or a file can be read is an input.
    The rate limiters are theirs too, and known by their settings. *)
From Stdlib Require Import ZArith QArith_base Lia Strings.String.
From stdpp Require Import base gmap list numbers option.
From S2P Require Import Prelude Wire Scanner Session Tokenizer ResultSet Cache CacheMiddleware Pool Balancer Gateway Routing RateLimit Sizing Format Config.
#[local] Close Scope Q_scope.
#[local] Open Scope Z_scope.

Definition defaultMaxCaptureBytes : Z := Z.shiftl 8 20.
Definition defaultMaxMessageBytes : Z := Z.shiftl 64 20.
Definition defaultQueryTimeout : Z := 30 * 1000000000.

(** [runtimeConfig]: what the query path reads; the chain is its two members' settings. *)
Record runtimeConfig := {
  rc_limiter : option (Q * Z); rc_cache : option Config.Cache; rc_pooling : poolingMode; rc_slowQuery : Z; rc_localZone : bytes;
  rc_admin : option AdminConsole; rc_routes : Databases
}.

(** A shadow backend: what [NewServer] is given for it. *)
Record shadow := {
  sh_address : bytes; sh_zone : bytes; sh_agent : bytes; sh_token : bytes; sh_role : bytes; sh_weight : Z; sh_maxConns : Z; sh_minIdle : Z;
  sh_dial : Z; sh_dsn : bytes
}.

(** [Gateway], as far as the configuration decides it; [g_closed] are the shadow backends
    that were closed. *)
Record gateway := {
  g_maxMessageBytes : Z; g_maxCaptureBytes : Z; g_queryTimeout : Z; g_limiter : option (Q * Z); g_tenants : option (Q * Z * Z);
  g_cacheConfig : option Config.Cache; g_cacheManager : option Manager; g_shadow : list shadow; g_closed : list shadow;
  g_runtime : option runtimeConfig; g_config : GatewayOptions
}.

(** The settings of the process: [SetMaxReplicaLag], [SetAutoReattach], [SetWaitTimeout]
    and [SetClientTLS]. *)
Record tlsConfig := { tc_Certificate : option (bytes * bytes); tc_CAs : option bytes; tc_ServerName : bytes; tc_InsecureSkipVerify : bool }.
Record settings := { se_maxLag : Z; se_reattach : bool * Z; se_wait : Z; se_tls : option tlsConfig }.

Definition set_reattach (enabled : bool) (dwell : Z) : bool * Z := (enabled, if decide (dwell <= 0) then 60 * 1000000000 else dwell).

Section Reconfigure.
Context (LoadX509KeyPair : bytes -> bytes -> bool) (ReadFile : bytes -> bool).

(** [CreateTLSConfig]: [None] is an error; no block is no TLS. *)
Definition CreateTLSConfig (cfg : option TLS) : option (option tlsConfig) :=
  match cfg with
  | None => Some None
  | Some t =>
      let pair := bool_decide (CertFile t <> [] /\ KeyFile t <> []) in
      let ca := bool_decide (CAFile t <> []) in
      if pair && negb (LoadX509KeyPair (CertFile t) (KeyFile t)) then None
      else if ca && negb (ReadFile (CAFile t)) then None
      else Some (Some {| tc_Certificate := if pair then Some (CertFile t, KeyFile t) else None; tc_CAs := if ca then Some (CAFile t) else None;
                         tc_ServerName := ServerName t; tc_InsecureSkipVerify := InsecureSkipVerify t |})
  end.

(** The shadow backends that can be created; one without an agent is left out. *)
Definition create_shadow (cfg : GatewayOptions) (b : BackendConfig) : option shadow :=
  let '(addr, agent) := backend_addresses (bc_Addr b) (bc_AgentAddr b) in
  if decide (agent = []) then None
  else Some {| sh_address := addr; sh_zone := bc_Zone b; sh_agent := agent; sh_token := bc_AgentToken b; sh_role := bc_Role b;
               sh_weight := bc_Weight b; sh_maxConns := c_MaxConns cfg; sh_minIdle := c_MinIdle cfg; sh_dial := c_DialTimeout cfg;
               sh_dsn := bc_AdminDSN b |}.

Definition enabled_cache (cfg : GatewayOptions) : option Config.Cache := c ← c_Cache cfg; if ca_Enabled c then Some c else None.
Definition enabled_limit (cfg : GatewayOptions) : option (Q * Z) := r ← c_RateLimit cfg; if rl_Enabled r then Some (RPS r, Burst r) else None.
Definition enabled_console (cfg : GatewayOptions) : option AdminConsole := a ← c_AdminConsole cfg; if ac_Enabled a then Some a else None.

(** [reconfigure]. *)
Definition reconfigure (g : gateway) (s : settings) (cfg : GatewayOptions) : gateway * settings :=
  let maxMessage := over_positive (g_maxMessageBytes g) (c_MaxMessageBytes cfg) in
  let maxCapture := match c_Cache cfg with Some c => over_positive (g_maxCaptureBytes g) (ca_MaxEntrySize c) | None => g_maxCaptureBytes g end in
  let timeout := over_nonzero (g_queryTimeout g) (c_QueryTimeout cfg) in
  let tls := match CreateTLSConfig (c_TLS cfg) with Some t => t | None => se_tls s end in
  let fo := withDefaults (c_Failover cfg) in
  let limiter := enabled_limit cfg in
  let cache := enabled_cache cfg in
  let manager := match cache, g_cacheManager g with
                 | Some c, None => Some (NewManagerWithSize (ca_MaxSize c))
                 | _, m => m
                 end in
  ({| g_maxMessageBytes := maxMessage; g_maxCaptureBytes := maxCapture; g_queryTimeout := timeout; g_limiter := limiter;
      g_tenants := fmap (fun l => (l, DefaultMaxTenants)) limiter; g_cacheConfig := cache; g_cacheManager := manager;
      g_shadow := omap (create_shadow cfg) (c_ShadowBackends cfg); g_closed := g_closed g ++ g_shadow g;
      g_runtime := Some {| rc_limiter := limiter; rc_cache := cache; rc_pooling := parsePoolingMode (c_PoolingMode cfg);
                           rc_slowQuery := slowQueryThreshold (Some cfg); rc_localZone := c_LocalZone cfg; rc_admin := enabled_console cfg;
                           rc_routes := c_Databases cfg |};
      g_config := cfg |},
   {| se_maxLag := SetMaxReplicaLag (f_MaxReplicaLag fo); se_reattach := set_reattach (default false (f_AutoReattach fo)) (f_AutoReattachInterval fo);
      se_wait := SetWaitTimeout (c_PoolWaitTimeout cfg); se_tls := tls |}).

(** [NewGateway]. *)
Definition blank (cfg : GatewayOptions) : gateway :=
  {| g_maxMessageBytes := defaultMaxMessageBytes; g_maxCaptureBytes := defaultMaxCaptureBytes; g_queryTimeout := defaultQueryTimeout;
     g_limiter := None; g_tenants := None; g_cacheConfig := None; g_cacheManager := None; g_shadow := []; g_closed := []; g_runtime := None;
     g_config := cfg |}.
Definition NewGateway (s : settings) (cfg : GatewayOptions) : gateway * settings := reconfigure (blank cfg) s cfg.

(** [UpdateConfig]. *)
Definition UpdateConfig (g : gateway) (s : settings) (cfg : GatewayOptions) : gateway * settings := reconfigure g s (Merge (g_config g) cfg).

(** [current]; before the first [reconfigure] there is none, for which the code answers
    an empty one. *)
Definition current (g : gateway) : option runtimeConfig := g_runtime g.

(** [withQueryTimeout]: a negative value is no bound. *)
Definition withQueryTimeout (g : gateway) (now : Z) : option Z := if decide (0 < g_queryTimeout g) then Some (now + g_queryTimeout g) else None.

Lemma over_positive_given a b n : 0 < n -> over_positive a n = over_positive b n.
Proof. intros Hn. unfold over_positive. by rewrite !decide_True. Qed.
Lemma over_nonzero_given a b n : n <> 0 -> over_nonzero a n = over_nonzero b n.
Proof. intros Hn. unfold over_nonzero. by rewrite !decide_True. Qed.

(** ** Reloading is like restarting

    What the query path reads, the limiters, the shadow backends and the settings of the
    process are those a new gateway has with the same configuration, whatever the
    gateway had before.  What stays is the cache with what it holds; and a bound, a
    timeout or a certificate the new configuration does not give, or that does not
    load. *)
Theorem reload_like_restart (g : gateway) (s s0 : settings) (cfg : GatewayOptions) :
  let '(old, so) := UpdateConfig g s cfg in
  let '(new, sn) := NewGateway s0 (Merge (g_config g) cfg) in
  current old = current new /\ g_limiter old = g_limiter new /\ g_tenants old = g_tenants new /\ g_cacheConfig old = g_cacheConfig new /\
  g_shadow old = g_shadow new /\ g_config old = g_config new /\ g_closed old = g_closed g ++ g_shadow g /\
  se_maxLag so = se_maxLag sn /\ se_reattach so = se_reattach sn /\ se_wait so = se_wait sn /\
  (0 < c_MaxMessageBytes (g_config g) -> g_maxMessageBytes old = g_maxMessageBytes new) /\
  (c_QueryTimeout (g_config old) <> 0 -> g_queryTimeout old = g_queryTimeout new) /\
  (forall c, c_Cache (g_config old) = Some c -> 0 < ca_MaxEntrySize c -> g_maxCaptureBytes old = g_maxCaptureBytes new) /\
  (CreateTLSConfig (c_TLS (g_config old)) <> None -> se_tls so = se_tls sn) /\
  (forall m, g_cacheManager g = Some m -> g_cacheManager old = Some m) /\
  (g_cacheManager g = None -> g_cacheManager old = g_cacheManager new).
Proof.
  unfold UpdateConfig, NewGateway. set (c := Merge (g_config g) cfg).
  assert (c_MaxMessageBytes c = c_MaxMessageBytes (g_config g)) as Em by reflexivity. clearbody c. cbn -[CreateTLSConfig].
  split_and!; try done.
  - intros Hp. apply over_positive_given. lia.
  - intros Hq. by apply over_nonzero_given.
  - intros x -> Hx. by apply over_positive_given.
  - intros Ht. by destruct (CreateTLSConfig (c_TLS c)).
  - intros m ->. by destruct (enabled_cache c).
  - by intros ->.
Qed.

(** ** The chain *)

(** [Chain.Handle]: each middleware is given the session and the rest of the chain, which
    it may run or not. *)
Fixpoint chain_Handle {S R : Type} (c : list (S -> (S -> R) -> R)) (s : S) (final : S -> R) : R :=
  match c with
  | [] => final s
  | m :: c => m s (fun s => chain_Handle c s final)
  end.

(** A middleware that answers by itself ends the chain, and the request is not executed. *)
Lemma chain_stops {S R : Type} (before after : list (S -> (S -> R) -> R)) (m : S -> (S -> R) -> R) (r : R) (s : S) (final : S -> R) :
  (forall m, In m before -> forall s next, m s next = next s) -> (forall next, m s next = r) -> chain_Handle (before ++ m :: after) s final = r.
Proof.
  intros Hb Hm. induction before as [|b before IH]; cbn; [apply Hm|].
  rewrite Hb by by left. apply IH. intros m' Hm'. apply Hb. by right.
Qed.

(** ** The cache while it is switched off *)

(** The settings the cache middleware runs with: none is disabled. *)
Definition cache_settings (g : gateway) : CacheConfig :=
  match g_runtime g ≫= rc_cache with Some c => {| cc_Enabled := ca_Enabled c; cc_TTL := ca_TTL c |} | None => {| cc_Enabled := false; cc_TTL := 0 |} end.

Context (sum256 : bytes -> bytes).

(** [Cache.Handle] of a gateway's chain. *)
Definition gateway_Handle (g : gateway) (x : CacheSession) (a : Ambient) : Outcome * gateway :=
  match g_cacheManager g with
  | None => (Forwarded, g)
  | Some m =>
      let '(o, m) := Handle sum256 (cache_settings g) m x a in
      (o, {| g_maxMessageBytes := g_maxMessageBytes g; g_maxCaptureBytes := g_maxCaptureBytes g; g_queryTimeout := g_queryTimeout g;
             g_limiter := g_limiter g; g_tenants := g_tenants g; g_cacheConfig := g_cacheConfig g; g_cacheManager := Some m;
             g_shadow := g_shadow g; g_closed := g_closed g; g_runtime := g_runtime g; g_config := g_config g |})
  end.

Lemma disabled_keeps g x a : g_runtime g ≫= rc_cache = None -> g_cacheManager (snd (gateway_Handle g x a)) = g_cacheManager g /\ g_runtime (snd (gateway_Handle g x a)) = g_runtime g.
Proof. intros Hc. unfold gateway_Handle. destruct (g_cacheManager g) as [m|] eqn:E; [|done]. unfold cache_settings. rewrite Hc. done. Qed.

(** A cache that is switched off and on again by a reload answers as if nothing had been
    written in between: what is written while it is off invalidates nothing. *)
Theorem writes_while_disabled_unseen (g : gateway) (s : settings) (m : Manager) (off on : GatewayOptions) (writes : list (CacheSession * Ambient))
    (x : CacheSession) (a : Ambient) :
  g_cacheManager g = Some m ->
  enabled_cache (Merge (g_config g) off) = None ->
  let '(g1, s1) := UpdateConfig g s off in
  let g2 := foldl (fun g w => snd (gateway_Handle g (fst w) (snd w))) g1 writes in
  let '(g3, _) := UpdateConfig g2 s1 on in
  g_cacheManager g3 = Some m /\ fst (gateway_Handle g3 x a) = fst (Handle sum256 (cache_settings g3) m x a).
Proof.
  intros Hm Hoff. unfold UpdateConfig at 1. set (c1 := Merge (g_config g) off) in *. clearbody c1. destruct (reconfigure g s c1) as [g1 s1] eqn:E1.
  assert (g_cacheManager g1 = Some m /\ g_runtime g1 ≫= rc_cache = None) as [H1 H2].
  { unfold reconfigure in E1. rewrite Hm in E1. injection E1 as <- <-. cbn. by rewrite Hoff. }
  cbn zeta. assert (forall ws g, g_cacheManager g = Some m -> g_runtime g ≫= rc_cache = None ->
    g_cacheManager (foldl (fun g w => snd (gateway_Handle g (fst w) (snd w))) g ws) = Some m) as Hw.
  { induction ws as [|w ws IH]; intros g' Hg Hr; [done|]. cbn. destruct (disabled_keeps g' (fst w) (snd w) Hr) as [Ha Hb].
    apply IH; [by rewrite Ha|by rewrite Hb]. }
  specialize (Hw writes g1 H1 H2). set (g2 := foldl _ g1 writes) in *. unfold UpdateConfig.
  set (c3 := Merge (g_config g2) on). clearbody c3. destruct (reconfigure g2 s1 c3) as [g3 s3] eqn:E3.
  assert (g_cacheManager g3 = Some m) as H3.
  { unfold reconfigure in E3. rewrite Hw in E3. injection E3 as <- <-. cbn. by destruct (enabled_cache c3). }
  split; [done|]. unfold gateway_Handle. rewrite H3. by destruct (Handle _ _ _ _ _).
Qed.
End Reconfigure.

(** ** Concrete reloads *)

Definition readable_pair (cert key : bytes) : bool := true.

(** A certificate without its key is no error: TLS is offered, with nothing to present. *)
Example half_a_pair_is_no_certificate :
  CreateTLSConfig readable_pair (fun _ => true) (Some {| CertFile := bs "server.crt"; KeyFile := []; CAFile := []; ServerName := []; InsecureSkipVerify := false |})
  = Some (Some {| tc_Certificate := None; tc_CAs := None; tc_ServerName := []; tc_InsecureSkipVerify := false |}).
Proof. reflexivity. Qed.

Definition cache_block (enabled : bool) (size : Z) : Config.Cache := {| ca_Enabled := enabled; ca_TTL := 60 * 1000000000; ca_MaxSize := size; ca_MaxEntrySize := 0 |}.
Definition with_cache (c : Config.Cache) : GatewayOptions :=
  let o := no_options in
  {| c_ProxyAddr := c_ProxyAddr o; c_MgmtAddr := c_MgmtAddr o; c_LocalZone := c_LocalZone o; c_Balancer := c_Balancer o; c_Backends := c_Backends o;
     c_Protocol := c_Protocol o; c_DialTimeout := c_DialTimeout o; c_MaxConns := c_MaxConns o; c_MinIdle := c_MinIdle o;
     c_HealthInterval := c_HealthInterval o; c_TLS := c_TLS o; c_BackendTLS := c_BackendTLS o; c_AgentTLS := c_AgentTLS o;
     c_ReusePort := c_ReusePort o; c_AgentAllowCleartext := c_AgentAllowCleartext o; c_RateLimit := c_RateLimit o; c_Cache := Some c;
     c_Failover := c_Failover o; c_Auth := c_Auth o; c_QueryTimeout := c_QueryTimeout o; c_PoolWaitTimeout := c_PoolWaitTimeout o;
     c_ShutdownTimeout := c_ShutdownTimeout o; c_MaxMessageBytes := c_MaxMessageBytes o; c_SlowQueryThreshold := c_SlowQueryThreshold o;
     c_PoolingMode := c_PoolingMode o; c_ShadowBackends := c_ShadowBackends o; c_AdminToken := c_AdminToken o; c_JWTSecret := c_JWTSecret o;
     c_AuthKey := c_AuthKey o; c_AllowedOrigins := c_AllowedOrigins o; c_DataDir := c_DataDir o; c_AdminConsole := c_AdminConsole o;
     c_Databases := c_Databases o |}.
Definition unset : settings := {| se_maxLag := 0; se_reattach := (true, 0); se_wait := 0; se_tls := None |}.

(** A new size of the cache reaches nothing until the process is restarted. *)
Example cache_size_not_reloaded :
  let g := fst (NewGateway readable_pair (fun _ => true) unset (with_cache (cache_block true 100))) in
  let g := fst (UpdateConfig readable_pair (fun _ => true) g unset (with_cache (cache_block true 5))) in
  fmap maxSize (g_cacheManager g) = Some 100 /\ fmap ca_MaxSize (g_cacheConfig g) = Some 5.
Proof. vm_compute. split; reflexivity. Qed.

Lemma writes_while_disabled_unseen_witness :
  let g := fst (NewGateway readable_pair (fun _ => true) unset (with_cache (cache_block true 100))) in
  let m := NewManagerWithSize 100 in
  g_cacheManager g = Some m /\ enabled_cache (Merge (g_config g) (with_cache (cache_block false 0))) = None /\
  (let '(g1, s1) := UpdateConfig readable_pair (fun _ => true) g unset (with_cache (cache_block false 0)) in
   let '(g3, _) := UpdateConfig readable_pair (fun _ => true) g1 s1 (with_cache (cache_block true 100)) in
   g_cacheManager g3 = Some m /\ cc_Enabled (cache_settings g3) = true).
Proof.
  cbn zeta. split; [vm_compute; reflexivity|]. split; [vm_compute; reflexivity|].
  pose proof (writes_while_disabled_unseen readable_pair (fun _ => true) (fun b => b) (fst (NewGateway readable_pair (fun _ => true) unset (with_cache (cache_block true 100)))) unset
    (NewManagerWithSize 100) (with_cache (cache_block false 0)) (with_cache (cache_block true 100)) []
    {| cs_Backend := None; cs_State := None; cs_Data := []; cs_Normalized := []; cs_QueryInfo := {| ReadOnly := true; InTransaction := false; AffectedTables := [] |} |}
    {| am_now := 0; am_now1 := 0; am_now2 := 0; am_vars := []; am_order1 := []; am_order2 := []; am_sets := fun _ => []; am_client_ok := true;
       am_reply := {| rp_err := false; rp_capture := []; rp_failed := false |} |}
    ltac:(vm_compute; reflexivity) ltac:(vm_compute; reflexivity)) as H.
  split; [exact (proj1 H)|vm_compute; reflexivity].
Defined.
