(* ===== verification/Lifecycle.v ===== *)
(** * Starting and stopping

    internal/app: [Run] as far as it decides something (what is refused and when, the
    first administrator, the migrations of older files), [Drain], [Shutdown] and the
    service's [Stop]; proxy/gateway.go: [Serve], [Stop] and [drain]; the registry's
    [StopAll]; proxy/manager.go.

    The stores are maps and the files of older versions are what [json.Unmarshal] makes
    of them: absent where they cannot be read.  Whether a write to the store succeeds is
    an argument.  A list of accepted connections and accept errors stands for what the
    listener does. *)
From Stdlib Require Import ZArith Lia Strings.String.
From stdpp Require Import base gmap list numbers option.
From S2P Require Import Prelude Format Management Config Fleet.
#[local] Open Scope Z_scope.

(** ** What is on disk *)

(** A project of projects.json: as the current format reads it, and the fields of the
    format before, where they are there with the right type. *)
Record legacy := {
  lg_project : ProjectConfig; lg_proxy_addr : option bytes; lg_balancer : option bytes; lg_max_conns : option Z;
  lg_backends : option (list (option (bytes * bytes * Z)))
}.
Record disk := {
  d_projects : gmap bytes ProjectConfig; d_users : gmap bytes User;
  d_projects_json : option (gmap bytes legacy); d_users_json : option (gmap bytes User)
}.

Definition set_d_projects (d : disk) p : disk := {| d_projects := p; d_users := d_users d; d_projects_json := d_projects_json d; d_users_json := d_users_json d |}.
Definition set_d_users (d : disk) u : disk := {| d_projects := d_projects d; d_users := u; d_projects_json := d_projects_json d; d_users_json := d_users_json d |}.

Section Startup.
Context {P : PasswordHash} (writes : bytes -> bool).

(** [Upsert] of the project store and of the user store. *)
Definition store_project (m : gmap bytes ProjectConfig) (p : ProjectConfig) : gmap bytes ProjectConfig :=
  if writes (j_Id p) then project_Upsert m (j_Id p) p else m.
Definition store_user (m : gmap bytes User) (u : User) : gmap bytes User :=
  if writes (u_Username u) then default m (user_Upsert m (u_Username u) (u_Token u) (u_Role u)) else m.

(** [migrateFromJSON]: errors are ignored, and a file is renamed once it was read. *)
Definition migrate_projects_json (d : disk) : disk :=
  match d_projects_json d with
  | Some file =>
      if decide (file = ∅) then d
      else {| d_projects := foldl store_project (d_projects d) (map (fun kv => lg_project (snd kv)) (map_to_list file)); d_users := d_users d;
              d_projects_json := None; d_users_json := d_users_json d |}
  | None => d
  end.
Definition migrate_users_json (d : disk) : disk :=
  match d_users_json d with
  | Some file =>
      if decide (file = ∅) then d
      else {| d_projects := d_projects d; d_users := foldl store_user (d_users d) (map snd (map_to_list file));
              d_projects_json := d_projects_json d; d_users_json := None |}
  | None => d
  end.
Definition migrateFromJSON (d : disk) : disk :=
  if decide (d_projects d = ∅ /\ d_users d = ∅) then migrate_users_json (migrate_projects_json d) else d.

(** The first administrator; [password] is [generatePassword]. *)
Definition bootstrap_admin (password : option bytes) (d : disk) : option disk :=
  if decide (d_users d = ∅)
  then
    pw ← password;
    if writes (bs "admin") then users ← user_Upsert (d_users d) (bs "admin") pw (bs "admin"); Some (set_d_users d users) else None
  else Some d.

(** [migratePasswords]: each user has a row of its own. *)
Definition rehash (u : User) : User :=
  if decide (u_Token u <> [] /\ looks_hashed (u_Token u) = false)
  then match GenerateFromPassword (u_Token u) with
       | Some h => if writes (u_Username u) then {| u_Username := u_Username u; u_Role := u_Role u; u_Token := h |} else u
       | None => u
       end
  else u.
Definition migratePasswords (d : disk) : disk := set_d_users d (fmap rehash (d_users d)).

(** [MigrateProjects]: a project without proxies gets those of the format before; [uuid]
    is the identifier its proxy is given.  A weight or a number of connections is a
    JSON number, cut to 32 bits. *)
Definition legacy_backend (b : bytes * bytes * Z) : BackendSpec :=
  let '(addr, role, weight) := b in
  {| b_Address := addr; b_Zone := []; b_Role := role; b_Weight := i32 weight; b_ManagedByAgent := false; b_AgentAddress := []; b_AgentToken := [];
     b_AdminDsn := []; b_PeerAddress := []; b_AgentConfig := None |}.
Definition legacy_proxy (uuid : bytes) (p : ProjectConfig) (addr : bytes) (raw : legacy) : ProxyConfig :=
  {| p_Id := uuid; p_Name := bs "Default Proxy"; p_Address := addr; p_Backends := map legacy_backend (omap id (default [] (lg_backends raw)));
     p_Balancer := default (j_Protocol p) (lg_balancer raw); p_MaxConns := from_option i32 100 (lg_max_conns raw) |}.
Definition migrate_project (file : gmap bytes legacy) (uuid : bytes -> bytes) (p : ProjectConfig) : ProjectConfig :=
  match file !! j_Id p with
  | Some raw =>
      if decide (j_Proxies p = [])
      then match lg_proxy_addr raw with
           | Some addr =>
               if writes (j_Id p)
               then {| j_Id := j_Id p; j_Name := j_Name p; j_Protocol := j_Protocol p; j_Proxies := [legacy_proxy (uuid (j_Id p)) p addr raw];
                       j_CreatedAt := j_CreatedAt p |}
               else p
           | None => p
           end
      else p
  | None => p
  end.
Definition MigrateProjects (uuid : bytes -> bytes) (d : disk) : disk :=
  match d_projects_json d with
  | None => d
  | Some file => set_d_projects d (fmap (migrate_project file uuid) (d_projects d))
  end.

(** [bootstrapFromConfig]. *)
Definition spec_of (b : BackendConfig) : BackendSpec :=
  {| b_Address := bc_Addr b; b_Zone := bc_Zone b; b_Role := bc_Role b; b_Weight := i32 (bc_Weight b); b_ManagedByAgent := false;
     b_AgentAddress := bc_AgentAddr b; b_AgentToken := bc_AgentToken b; b_AdminDsn := bc_AdminDSN b; b_PeerAddress := bc_PeerAddr b;
     b_AgentConfig := Some {| a_DataDirectory := bc_DataDir b; a_Version := []; a_InitialDatabase := []; a_InitialUser := []; a_InitialPassword := [];
                              a_InstallIfMissing := false |} |}.
Definition default_project (cfg : GatewayOptions) (now : Z) : ProjectConfig :=
  {| j_Id := bs "default"; j_Name := bs "Default"; j_Protocol := c_Protocol cfg;
     j_Proxies := [{| p_Id := bs "default-proxy"; p_Name := bs "Default Proxy"; p_Address := c_ProxyAddr cfg; p_Backends := map spec_of (c_Backends cfg);
                      p_Balancer := c_Balancer cfg; p_MaxConns := c_MaxConns cfg |}]; j_CreatedAt := now |}.
Definition bootstrapFromConfig (cfg : GatewayOptions) (now : Z) (d : disk) : disk :=
  if decide (d_projects d = ∅) then set_d_projects d (store_project (d_projects d) (default_project cfg now)) else d.

(** The part of [Run] that brings the stores up to date. *)
Record ambient := { ab_password : option bytes; ab_uuid : bytes -> bytes; ab_now : Z }.
Definition boot (a : ambient) (cfg : GatewayOptions) (d : disk) : option disk :=
  d ← bootstrap_admin (ab_password a) (migrateFromJSON d);
  Some (bootstrapFromConfig cfg (ab_now a) (MigrateProjects (ab_uuid a) (migratePasswords d))).
End Startup.

(** ** The order of [Run]

    What it meets, and what it leaves behind when it returns with an error: proxies that
    serve, and an API that does not. *)
Record startup := {
  su_console : bool; su_databases : bool; su_management_db : bool; su_stores : bool; su_key : bool; su_listens : bool; su_origins : list bytes
}.
Inductive run_end := BadConsole | BadDatabases | NoManagementDB | NoBootstrap | NoAuthKey | NoListener | WildcardOrigin | Running.
Definition Run (s : startup) : run_end * bool * bool :=   (* with: proxies serve, API serves *)
  if negb (su_console s) then (BadConsole, false, false)
  else if negb (su_databases s) then (BadDatabases, false, false)
  else if negb (su_management_db s) then (NoManagementDB, false, false)
  else if negb (su_stores s) then (NoBootstrap, false, false)
  else if negb (su_key s) then (NoAuthKey, false, false)
  else if negb (su_listens s) then (NoListener, true, false)
  else if decide (bs "*" ∈ su_origins s) then (WildcardOrigin, true, false)
  else (Running, true, true).

(** ** Serving and stopping *)

(** What the listener does next, and whether the context is done by then. *)
Inductive accept := Accepted (done_ : bool) | AcceptError (done_ : bool).

(** [Serve]: the clients it handles and the errors it logs; [true] when it returned. *)
Fixpoint Serve (l : list accept) : nat * nat * bool :=
  match l with
  | [] => (0%nat, 0%nat, false)
  | Accepted _ :: l => let '(clients, errors, r) := Serve l in (S clients, errors, r)
  | AcceptError true :: _ => (0%nat, 0%nat, true)
  | AcceptError false :: l => let '(clients, errors, r) := Serve l in (clients, S errors, r)
  end.

(** [drain]: what it sees at each poll, the number of statements in flight and whether
    the deadline has passed; [true] is a drain that waited for all of them. *)
Fixpoint drain (polls : list (Z * bool)) : option bool :=
  match polls with
  | [] => None
  | (n, late) :: polls => if decide (n <= 0) then Some true else if late then Some false else drain polls
  end.

(** The steps of a shutdown: the lock is released, every listener is closed, the gateways
    drain side by side, the context is cancelled, the API is shut down. *)
Inductive stop_step := ReleaseLock | CloseListener (proxy : nat) | Drained (proxy : nat) (clean : bool) | CancelContext | ShutdownAPI.

(** [StopAll], where the gateways' drains end in this order. *)
Definition StopAll (proxies : list nat) (ends : list (nat * bool)) : list stop_step :=
  ReleaseLock :: map CloseListener proxies ++ map (fun e => Drained (fst e) (snd e)) ends.
(** [PontusService.Stop] with [Drain], and what [Run] does once it is cancelled. *)
Definition service_Stop (proxies : list nat) (ends : list (nat * bool)) : list stop_step := StopAll proxies ends ++ [CancelContext; ShutdownAPI].
Definition defaultShutdownTimeout : Z := 30 * 1000000000.
Definition shutdown_timeout (configured : Z) : Z := if decide (0 < configured) then configured else defaultShutdownTimeout.

(** ** Starting again changes nothing *)

(** The format of a hash: what [GenerateFromPassword] makes is known for one. *)
Class HashFormat (P : PasswordHash) : Prop := { generated_format pw h : GenerateFromPassword pw = Some h -> looks_hashed h = true }.

Section Again.
Context {P : PasswordHash} {HF : HashFormat P} (writes : bytes -> bool).

Lemma rehash_again u : rehash writes (rehash writes u) = rehash writes u.
Proof.
  unfold rehash at 2 3. case_decide as Hd; [|unfold rehash; by rewrite decide_False].
  destruct (GenerateFromPassword (u_Token u)) as [h|] eqn:Eg; [|unfold rehash; by rewrite decide_True, Eg].
  destruct (writes (u_Username u)) eqn:Ew; [|unfold rehash; by rewrite decide_True, Eg, Ew].
  unfold rehash. rewrite decide_False; [done|]. cbn. intros [_ Hf]. apply generated_format in Eg. congruence.
Qed.

Lemma migrate_again file uuid uuid' p : migrate_project writes file uuid' (migrate_project writes file uuid p) = migrate_project writes file uuid p.
Proof.
  unfold migrate_project at 2 3. destruct (file !! j_Id p) as [raw|] eqn:Ef; [|unfold migrate_project; by rewrite Ef].
  case_decide as Hp; [|unfold migrate_project; by rewrite Ef, decide_False].
  destruct (lg_proxy_addr raw) as [addr|] eqn:Ea; [|unfold migrate_project; by rewrite Ef, decide_True, Ea].
  destruct (writes (j_Id p)) eqn:Ew; [|unfold migrate_project; by rewrite Ef, decide_True, Ea, Ew].
  unfold migrate_project. cbn. rewrite Ef. done.
Qed.

Lemma migrate_default file uuid cfg now : migrate_project writes file uuid (default_project cfg now) = default_project cfg now.
Proof. unfold migrate_project. destruct (file !! _); done. Qed.

Lemma fmap_again {A : Type} (f g : A -> A) (m : gmap bytes A) : (forall x, g (f x) = f x) -> g <$> (f <$> m) = f <$> m.
Proof. intros Hfg. rewrite <- map_fmap_compose. apply map_fmap_ext. intros i x _. apply Hfg. Qed.

Lemma bootstrap_some pw d d' : bootstrap_admin writes pw d = Some d' -> d_users d' <> ∅ /\ (d_users d <> ∅ -> d' = d).
Proof.
  unfold bootstrap_admin. case_decide as Hu; [|by intros [= <-]]. destruct pw as [pw|]; [|done]. cbn. destruct (writes _); [|done].
  destruct (user_Upsert _ _ _ _) as [us|] eqn:E; [|done]. intros [= <-]. split; [|done].
  unfold user_Upsert in E. destruct (if looks_hashed pw then _ else _) as [h|]; [|done]. injection E as <-. apply insert_non_empty.
Qed.

(** C38: Once the stores were brought up to date, starting again leaves them as they are,
    whatever the configuration file says by then: nothing is migrated twice, no
    administrator is created beside the users there are, no password is hashed again,
    and the projects are those of the store. *)
Theorem boot_idempotent (a a' : ambient) (cfg cfg' : GatewayOptions) (d d' : disk) :
  boot writes a cfg d = Some d' -> d_projects d' <> ∅ -> boot writes a' cfg' d' = Some d'.
Proof.
  unfold boot. destruct (bootstrap_admin _ _ _) as [d1|] eqn:E1; [|done]. cbn. intros [= <-]. apply bootstrap_some in E1 as [Hu _].
  set (d2 := migratePasswords writes d1). set (d3 := MigrateProjects writes (ab_uuid a) d2). set (d4 := bootstrapFromConfig writes cfg (ab_now a) d3).
  intros Hp.
  assert (d_users d4 = rehash writes <$> d_users d1) as Hu4.
  { unfold d4, bootstrapFromConfig, d3, MigrateProjects. destruct (d_projects_json d2); case_decide; done. }
  assert (d_users d4 <> ∅) as Hne by (rewrite Hu4; intros E; by apply fmap_empty_inv in E).
  assert (d_projects_json d4 = d_projects_json d2) as Hj4.
  { unfold d4, bootstrapFromConfig, d3, MigrateProjects. destruct (d_projects_json d2) eqn:Ej; case_decide; cbn; by rewrite ?Ej. }
  assert (migrateFromJSON writes d4 = d4) as -> by (unfold migrateFromJSON; rewrite decide_False by tauto; done).
  unfold bootstrap_admin. rewrite decide_False by done. cbn. f_equal.
  assert (migratePasswords writes d4 = d4) as ->.
  { destruct d4 as [p u pj uj]. unfold migratePasswords, set_d_users. cbn in *. f_equal. rewrite Hu4. apply fmap_again, rehash_again. }
  assert (MigrateProjects writes (ab_uuid a') d4 = d4) as ->.
  { unfold MigrateProjects. destruct (d_projects_json d4) as [file|] eqn:Ef; [|done].
    assert (migrate_project writes file (ab_uuid a') <$> d_projects d4 = d_projects d4) as Hm.
    { unfold d4, bootstrapFromConfig, d3, MigrateProjects. rewrite <- Hj4. case_decide as He; cbn [d_projects set_d_projects].
      - unfold store_project. cbn [d_projects set_d_projects] in He. rewrite He. destruct (writes _); [|by rewrite fmap_empty]. unfold project_Upsert.
        rewrite fmap_insert, fmap_empty, migrate_default. done.
      - apply fmap_again. intros p. apply migrate_again. }
    destruct d4 as [p u pj uj]. unfold set_d_projects. cbn in *. by rewrite Hm. }
  unfold bootstrapFromConfig. by rewrite decide_False.
Qed.
End Again.

(** ** What is lost and what goes on *)

(** Projects of the older format are taken over without their proxies: the file their
    proxies are read from has been renamed by then. *)
Definition old_project : legacy :=
  {| lg_project := {| j_Id := bs "p1"; j_Name := bs "shop"; j_Protocol := bs "postgres"; j_Proxies := []; j_CreatedAt := 0 |};
     lg_proxy_addr := Some (bs ":5432"); lg_balancer := None; lg_max_conns := Some 50; lg_backends := Some [Some (bs "db:5432", bs "primary", 1)] |}.
#[local] Instance plain_hash : PasswordHash :=
  {| GenerateFromPassword pw := Some (bs "$2a$" ++ pw); CompareHashAndPassword h pw := bool_decide (h = bs "$2a$" ++ pw) |}.
#[local] Instance plain_format : HashFormat plain_hash.
Proof. split. intros pw h [= <-]. reflexivity. Qed.

Example older_projects_lose_their_proxies :
  let a := {| ab_password := Some (bs "secret"); ab_uuid := fun id => id; ab_now := 0 |} in
  let d := {| d_projects := ∅; d_users := ∅; d_projects_json := Some {[bs "p1" := old_project]}; d_users_json := None |} in
  fmap (fun d => (map_to_list (j_Proxies <$> d_projects d), from_option (fun _ => true) false (d_projects_json d))) (boot (fun _ => true) a no_options d) =
    Some ([(bs "p1", [])], false) /\
  length (j_Proxies (migrate_project (fun _ => true) {[bs "p1" := old_project]} (fun id => id) (lg_project old_project))) = 1%nat.
Proof. vm_compute. split; reflexivity. Qed.

(** A configuration that is refused late leaves proxies that serve and no API. *)
Example refused_origin_leaves_proxies :
  Run {| su_console := true; su_databases := true; su_management_db := true; su_stores := true; su_key := true; su_listens := true; su_origins := [bs "*"] |} =
    (WildcardOrigin, true, false).
Proof. vm_compute. reflexivity. Qed.

(** From the moment its listener is closed until the context is cancelled, which is after
    the drain, a gateway does nothing but fail to accept and log it. *)
Lemma closed_listener_spins clients n :
  Serve (replicate clients (Accepted false) ++ replicate n (AcceptError false) ++ [AcceptError true]) = (clients, n, true).
Proof.
  assert (Serve (replicate n (AcceptError false) ++ [AcceptError true]) = (0%nat, n, true)) as Hn.
  { induction n as [|n IH]; [done|]. change (Serve (replicate (S n) (AcceptError false) ++ [AcceptError true])) with
      (let '(c, e, r) := Serve (replicate n (AcceptError false) ++ [AcceptError true]) in (c, S e, r)). by rewrite IH. }
  induction clients as [|c IH]; [done|]. cbn. by rewrite IH.
Qed.

(** A drain ends, and it says truly whether there was nothing left to wait for. *)
Theorem drain_correct (polls : list (Z * bool)) :
  Exists (fun p => fst p <= 0 \/ snd p = true) polls ->
  exists k n late, polls !! k = Some (n, late) /\ (forall i p, (i < k)%nat -> polls !! i = Some p -> 0 < fst p /\ snd p = false) /\
    drain polls = Some (bool_decide (n <= 0)).
Proof.
  induction polls as [|[n late] polls IH]; intros He; [by apply Exists_nil in He|]. cbn [drain].
  destruct (decide (n <= 0)) as [Hn|Hn].
  - exists 0%nat, n, late. split_and!; [done|intros; lia|]. by rewrite bool_decide_true.
  - destruct late.
    + exists 0%nat, n, true. split_and!; [done|intros; lia|]. by rewrite bool_decide_false.
    + destruct IH as (k & n' & late' & Hk & Hb & Hd).
      { apply Exists_cons in He as [[?|?]|He]; cbn in *; [lia|done|done]. }
      exists (S k), n', late'. split_and!; [done| |done]. intros [|i] p Hi Hp; [injection Hp as <-; cbn; split; [lia|done]|].
      apply (Hb i); [lia|done].
Qed.

(** A start over a file of users. *)
Definition some_ambient : ambient := {| ab_password := Some (bs "secret"); ab_uuid := fun id => id; ab_now := 0 |}.
Definition users_file : disk :=
  {| d_projects := ∅; d_users := ∅; d_projects_json := None;
     d_users_json := Some {[bs "ann" := {| u_Username := bs "ann"; u_Role := bs "admin"; u_Token := bs "raw" |}]} |}.
Definition seen (o : option disk) : option (list bytes * list (bytes * bytes)) :=
  fmap (fun d => (map fst (map_to_list (d_projects d)), map_to_list (u_Token <$> d_users d))) o.

Lemma boot_idempotent_witness :
  seen (boot (fun _ => true) some_ambient no_options users_file) = Some ([bs "default"], [(bs "ann", bs "$2a$raw")]) /\
  exists d', boot (fun _ => true) some_ambient no_options users_file = Some d' /\ d_projects d' <> ∅ /\
    boot (fun _ => true) some_ambient no_options d' = Some d'.
Proof.
  assert (seen (boot (fun _ => true) some_ambient no_options users_file) = Some ([bs "default"], [(bs "ann", bs "$2a$raw")])) as Hs
    by (vm_compute; reflexivity).
  split; [exact Hs|]. destruct (boot (fun _ => true) some_ambient no_options users_file) as [d'|] eqn:E; [|discriminate Hs].
  assert (d_projects d' <> ∅) as Hp by (intros H; unfold seen in Hs; cbn in Hs; rewrite H, map_to_list_empty in Hs; discriminate Hs).
  exists d'. split; [reflexivity|]. split; [exact Hp|]. exact (boot_idempotent (fun _ => true) _ _ _ _ _ d' E Hp).
Defined.

Lemma drain_correct_witness :
  Exists (fun p => fst p <= 0 \/ snd p = true) [(2, false); (1, false); (0, false)] /\
  exists k n late, [(2, false); (1, false); (0, false)] !! k = Some (n, late) /\
    (forall i p, (i < k)%nat -> [(2, false); (1, false); (0, false)] !! i = Some p -> 0 < fst p /\ snd p = false) /\
    drain [(2, false); (1, false); (0, false)] = Some (bool_decide (n <= 0)).
Proof.
  assert (Exists (fun p => fst p <= 0 \/ snd p = true) [(2, false); (1, false); (0, false)]) as He by (apply Exists_cons_tl, Exists_cons_tl, Exists_cons_hd; left; cbn; lia).
  split; [exact He|]. exact (drain_correct _ He).
Defined.
