(* ===== verification/Api.v ===== *)
(** * The management API as a whole

    The forty procedures of the service (serviceconnect/management.connect.go), behind
    the interceptor of [middleware/auth.go]: handler/connect.go, handler/status_stream.go,
    handler/replication.go and endpoints.go hand a request to the service, service_impl.go
    to the manager that is in charge.  What a call does is the state it leaves, the effects
    it has outside, and its answer: orders to agents and questions to them, statements on
    databases, connections made to addresses of the caller's choice.

    The managers are those of [Fleet], [Operations], [Status], [Management], [Stores] and
    [Config]; what their calls meet (the store, the listeners, the agents) is one argument. *)
From Stdlib Require Import ZArith QArith_base Lia Strings.String.
From stdpp Require Import base gmap list numbers option.
From S2P Require Import Prelude Format Pool Balancer Failover Tracker Stores Broadcast Management Config Streams Fleet Operations Status.
#[local] Open Scope Z_scope.

(** ** The calls *)

Inductive Call :=
| CListProjects | CCreateProject (project : option ProjectConfig) | CDeleteProject (id : bytes)
| CAddProxy (projectId : bytes) (proxy : option ProxyConfig) | CRemoveProxy (projectId proxyId : bytes) | CUpdateProxy (projectId : bytes) (proxy : option ProxyConfig)
| CGetStatus (projectId proxyId : bytes) | CStreamStatus (projectId proxyId : bytes)
| CAddBackend (projectId proxyId : bytes) (config : option BackendSpec) | CRemoveBackend (projectId proxyId address : bytes)
| CUpdateBackend (projectId proxyId address : bytes) (config : option BackendSpec)
| CProvisionReplica (projectId proxyId : bytes) | CValidateBackend (address : bytes)
| CListReplicationStreams (projectId proxyId : bytes) | CTerminateReplicationStream (projectId proxyId id : bytes)
| CCreateLogicalSlot (projectId proxyId slot address plugin : bytes) | CStreamLogs
| CInitializeNode (host : bytes) | CInstallNode (host : bytes)
| CBackupBackend (projectId proxyId address path : bytes) | CRestoreBackend (projectId proxyId address path : bytes) | CPromoteBackend (projectId proxyId address : bytes)
| CGetMetricsHistory (start end_ : option Z) | CGetTopQueriesHistory (start end_ : option Z) (limit : Z) | CSetClusterConfig (params : gmap bytes bytes) | CGetClusterConfig
| CDiscoverCluster (projectId proxyId primary : bytes) | CVacuumBackend (projectId proxyId address database : bytes) (full : bool)
| CExplainQuery (query : bytes) | CGetLogs (f : LogFilter) | CTuneDatabase (projectId proxyId address : bytes)
| CApplyTuning (projectId proxyId address : bytes) (suggestion : option (bytes * bytes))
| CGetAgentInfo (address : bytes) | CGetAvailableVersions | CLogin (username password : bytes) | CCreateUser (username password role : bytes)
| CGetServerInfo | CGetPostgresInsights (projectId proxyId address : bytes) | CRestartBackendService (projectId proxyId address : bytes)
| CShutdownBackend (projectId proxyId address : bytes).

(** The names of the procedures. *)
Definition method (c : Call) : String.string :=
  match c with
  | CListProjects => "ListProjects" | CCreateProject _ => "CreateProject" | CDeleteProject _ => "DeleteProject"
  | CAddProxy _ _ => "AddProxy" | CRemoveProxy _ _ => "RemoveProxy" | CUpdateProxy _ _ => "UpdateProxy"
  | CGetStatus _ _ => "GetStatus" | CStreamStatus _ _ => "StreamStatus" | CAddBackend _ _ _ => "AddBackend"
  | CRemoveBackend _ _ _ => "RemoveBackend" | CUpdateBackend _ _ _ _ => "UpdateBackend" | CProvisionReplica _ _ => "ProvisionReplica"
  | CValidateBackend _ => "ValidateBackend" | CListReplicationStreams _ _ => "ListReplicationStreams"
  | CTerminateReplicationStream _ _ _ => "TerminateReplicationStream" | CCreateLogicalSlot _ _ _ _ _ => "CreateLogicalSlot" | CStreamLogs => "StreamLogs"
  | CInitializeNode _ => "InitializeNode" | CInstallNode _ => "InstallNode" | CBackupBackend _ _ _ _ => "BackupBackend"
  | CRestoreBackend _ _ _ _ => "RestoreBackend" | CPromoteBackend _ _ _ => "PromoteBackend" | CGetMetricsHistory _ _ => "GetMetricsHistory"
  | CGetTopQueriesHistory _ _ _ => "GetTopQueriesHistory" | CSetClusterConfig _ => "SetClusterConfig" | CGetClusterConfig => "GetClusterConfig"
  | CDiscoverCluster _ _ _ => "DiscoverCluster" | CVacuumBackend _ _ _ _ _ => "VacuumBackend" | CExplainQuery _ => "ExplainQuery" | CGetLogs _ => "GetLogs"
  | CTuneDatabase _ _ _ => "TuneDatabase" | CApplyTuning _ _ _ _ => "ApplyTuning" | CGetAgentInfo _ => "GetAgentInfo"
  | CGetAvailableVersions => "GetAvailableVersions" | CLogin _ _ => "Login" | CCreateUser _ _ _ => "CreateUser" | CGetServerInfo => "GetServerInfo"
  | CGetPostgresInsights _ _ _ => "GetPostgresInsights" | CRestartBackendService _ _ _ => "RestartBackendService" | CShutdownBackend _ _ _ => "ShutdownBackend"
  end%string.
Definition procedure (c : Call) : bytes := bs "/api.proto.service.ManagementService/" ++ bs (method c).

(** ** What a call does *)

(** [CollectSystemMetrics] keeps its sample of the host for half a second: the time of the
    sample after a call at [now]. *)
Definition lastSample_after (lastSample : option Z) (now : Z) : option Z :=
  match lastSample with
  | Some t => if decide (now - t < 500000000) then lastSample else Some now
  | None => Some now
  end.

(** [defaultStreamBudget] of state/proxy.go, and version.go as it is without the linker. *)
Definition defaultStreamBudget : Z := 4.
Definition GetServerInfo : bytes * bytes * bytes := (bs "dev", bs "none", bs "unknown").

(** [SetClusterConfig] stores the settings one by one, until one fails. *)
Fixpoint store_settings (sets : bytes -> bool) (l : list (bytes * bytes)) (settings : gmap bytes bytes) : bool * gmap bytes bytes :=
  match l with
  | [] => (true, settings)
  | (k, v) :: l => if sets k then store_settings sets l (<[k := v]> settings) else (false, settings)
  end.

(** [StreamLogs]: the lines that are logged while the stream lasts, and what it passes on. *)
Fixpoint follow_logs (b : LogBroadcaster) (ch : nat) (lines : list LogEntry) : list LogEntry * LogBroadcaster :=
  match lines with
  | [] => ([], b)
  | e :: lines =>
      let '(got, b) := receive (Broadcast b e) ch in
      let '(l, b) := follow_logs b ch lines in (option_list got ++ l, b)
  end.
Definition StreamLogs (b : LogBroadcaster) (lines : list LogEntry) : list LogEntry * LogBroadcaster :=
  let '(ch, b) := Subscribe b in
  let '(l, b) := follow_logs b ch lines in (l, Unsubscribe b ch).

Inductive question := GetSystemInfo | AskInsights (database : bytes).

Inductive effect :=
| Ordered (node : nat) (o : Operations.order)     (* an order to the agent of a backend *)
| Asked (node : nat) (q : question)                 (* a question to it *)
| HostOrdered (host : bytes) (install : bool)       (* to an agent by its address *)
| MayOrder (proxyId : bytes)                        (* possibly, to the agent of a backend that comes or goes *)
| Provisioned (proxyId : bytes)
| Stated (statement : bytes)                        (* a statement on a backend *)
| SlotCreated (address slot plugin : bytes)
| SlotsListed (address : bytes)                     (* the inventory of slots is selected *)
| Dialled (address : bytes)
| Reconfigured (cfg : GatewayOptions).

(** What the calls meet. *)
Class World := {
  w_defaults :: Defaults; w_hash :: PasswordHash; w_driver :: LogDriver; w_order :: LogOrder;
  w_listens : bytes -> bool; w_ok : bool; w_request : list nat; w_id : bytes; w_ids : list bytes; w_now : Z;
  w_spare : nat; w_install : agent_call; w_initialize : agent_call; w_oks : nat -> bool; w_spares : nat -> nat; w_topology : option (list bytes);
  w_ranged : Project -> list Proxy; w_look : nat -> Backend * NodeReport; w_failover : Proxy -> option FailoverState;
  w_cache : Proxy -> option (Z * Z * Z); w_admin : bytes -> bool; w_exec : bytes -> bytes -> bytes -> option bytes;
  w_inventory : bytes -> option (list (option bytes)); w_stream_order : Registry -> list bytes;
  w_acquires : nat -> option bytes; w_runs : bytes -> option bytes; w_parse : bytes -> option Z; w_manager : bool;
  w_provisions : option producer; w_dials : bytes -> option bytes; w_elapsed : Z; w_host_streams : bytes -> bool -> stream_call;
  w_streams : nat -> Operations.order -> stream_call; w_answers : nat -> Operations.order -> result bytes (bool * bytes);
  w_agent_info : bytes -> result bytes bytes; w_available : nat -> list bytes; w_info : nat -> option SystemMetrics; w_local : SystemMetrics;
  w_insights : nat -> result bytes bytes; w_settings_order : gmap bytes bytes -> list (bytes * bytes); w_sets : bytes -> bool;
  w_digest : Status -> option bytes; w_taken : bool; w_watch : list (Z * Fleet * bool); w_lines : list LogEntry
}.

(** The answers of the calls. *)
Inductive reply :=
| RProjects (l : list ProjectConfig)
| RFleet {A : Type} (r : result err A)
| RStatus (r : result api_err Status) | RStatuses (l : list (Z * Status)) (e : option err)
| RProgress (p : producer) | RAnswer (r : result err (bool * bytes)) | RValidated (r : bool * bytes * Z)
| RStreams (r : result api_err (list Stream * list bytes * Z * Z)) | RTerminated (r : result api_err bytes)
| RSlot (r : result api_err (bytes * bytes)) | RLines (l : list LogEntry)
| RLogs (r : result bytes (list LogEntry * Z)) | RHistory (r : result bytes (list MetricSnapshot)) | RTop (r : result bytes (list TopQuery))
| RStored (ok : bool) | RSettings (r : option (gmap bytes bytes))
| RPlan (r : result api_err (bytes * list (bytes * bytes)))
| RTuning (r : result api_err (list (bytes * (list (bytes * bytes) * list bytes)))) | RApplied (r : result api_err (bool * bytes))
| RInfo (r : result err bytes) | RVersions (l : list bytes) | RToken (r : result login_err (bytes * bytes)) | RUser (role : option bytes)
| RServer (version commit built : bytes) | RInsights (r : result api_err bytes).

Section Api.
Context `{W : World}.

(** The state the managers share: [ap_streams] are the registries of streams, by the
    context that a proxy was made with; [ap_sample] is when the host was last sampled. *)
Record api_state := {
  ap_fleet : Fleet; ap_users : gmap bytes User; ap_settings : gmap bytes bytes; ap_streams : gmap (list nat) StreamState;
  ap_logs : LogBroadcaster; ap_rows : option (list log_row); ap_metrics : option MetricStore; ap_sample : option Z
}.

Definition with_fleet (s : api_state) (f : Fleet) : api_state :=
  {| ap_fleet := f; ap_users := ap_users s; ap_settings := ap_settings s; ap_streams := ap_streams s; ap_logs := ap_logs s;
     ap_rows := ap_rows s; ap_metrics := ap_metrics s; ap_sample := ap_sample s |}.
Definition with_users (s : api_state) (u : gmap bytes User) : api_state :=
  {| ap_fleet := ap_fleet s; ap_users := u; ap_settings := ap_settings s; ap_streams := ap_streams s; ap_logs := ap_logs s;
     ap_rows := ap_rows s; ap_metrics := ap_metrics s; ap_sample := ap_sample s |}.
Definition with_settings (s : api_state) (m : gmap bytes bytes) : api_state :=
  {| ap_fleet := ap_fleet s; ap_users := ap_users s; ap_settings := m; ap_streams := ap_streams s; ap_logs := ap_logs s;
     ap_rows := ap_rows s; ap_metrics := ap_metrics s; ap_sample := ap_sample s |}.
Definition with_streams (s : api_state) (m : gmap (list nat) StreamState) : api_state :=
  {| ap_fleet := ap_fleet s; ap_users := ap_users s; ap_settings := ap_settings s; ap_streams := m; ap_logs := ap_logs s;
     ap_rows := ap_rows s; ap_metrics := ap_metrics s; ap_sample := ap_sample s |}.
Definition with_logs (s : api_state) (b : LogBroadcaster) : api_state :=
  {| ap_fleet := ap_fleet s; ap_users := ap_users s; ap_settings := ap_settings s; ap_streams := ap_streams s; ap_logs := b;
     ap_rows := ap_rows s; ap_metrics := ap_metrics s; ap_sample := ap_sample s |}.
Definition with_sample (s : api_state) (t : option Z) : api_state :=
  {| ap_fleet := ap_fleet s; ap_users := ap_users s; ap_settings := ap_settings s; ap_streams := ap_streams s; ap_logs := ap_logs s;
     ap_rows := ap_rows s; ap_metrics := ap_metrics s; ap_sample := t |}.

(** The order to the agent of a backend, where the operation gets that far. *)
Definition order_to (s : api_state) (projectId proxyId address : bytes) (o : Operations.order) : list effect :=
  match agent_of (ap_fleet s) projectId proxyId address with Ok n => [Ordered n o] | Err _ => [] end.

(** The replication manager's lookup: a named proxy, or the first of the range; what its
    backends report; and its registry of streams, which every proxy is made with. *)
Definition replication_proxy (s : api_state) (projectId proxyId : bytes) : result api_err Proxy :=
  match GetProjectState (ap_fleet s) projectId with
  | Ok p => match pick_proxy p (w_ranged p) proxyId with
            | Some ps => Ok ps
            | None => Err (NotFound (if decide (proxyId <> []) then bs "proxy " ++ proxyId ++ bs " not found" else bs "no proxy configured"))
            end
  | Err _ => Err (NotFound (bs "project not found"))
  end.
Definition nodes_of (f : Fleet) (ps : Proxy) : list Backend := map (fun n => fst (w_look n)) (backends_of f ps).
Definition streams_of (s : api_state) (ps : Proxy) : StreamState := default (streams_initial defaultStreamBudget) (ap_streams s !! px_ctx ps).

Definition beside (s : api_state) (ps : Proxy) : Beside :=
  {| bd_streams := Some (ss_registry (streams_of s ps)); bd_failover := w_failover ps; bd_cache := w_cache ps |}.

(** The status at an instant, and the sample of the host that is taken once the proxy is found. *)
Definition status_at (s : api_state) (f : Fleet) (now : Z) (projectId proxyId : bytes) : result api_err Status :=
  GetStatus f w_ranged w_look (beside s) now projectId proxyId.
Definition sample_at (f : Fleet) (now : Z) (projectId proxyId : bytes) (t : option Z) : option Z :=
  match observed_proxy f w_ranged projectId proxyId with Ok _ => lastSample_after t now | Err _ => t end.

Definition api_text (e : api_err) : bytes :=
  match e with NotFound w | FailedPrecondition w | InvalidArgument w | Internal w | Unimplemented w => w end.
Definition as_call {A : Type} (r : result api_err A) : result err A := match r with Ok x => Ok x | Err e => Err (CallFailed (api_text e)) end.

(** [StreamStatus]: a status at each tick, of the fleet as it is then. *)
Fixpoint watch (s : api_state) (projectId proxyId : bytes) (st : sender) (ticks : list (Z * Fleet * bool)) (t : option Z) :
    list (Z * Status) * option err * option Z :=
  match ticks with
  | [] => ([], None, t)
  | (now, f, ok) :: ticks =>
      let t := sample_at f now projectId proxyId t in
      match send w_digest st now (as_call (status_at s f now projectId proxyId)) ok with
      | (Ended e, _) => ([], Some e, t)
      | (Quiet, st) => watch s projectId proxyId st ticks t
      | (Sent x, st) => let '(l, e, t) := watch s projectId proxyId st ticks t in ((now, x) :: l, e, t)
      end
  end.

(** [ListStreams] and what it asks of the primary. *)
Definition list_streams (s : api_state) (projectId proxyId : bytes) : list effect * result api_err (list Stream * list bytes * Z * Z) :=
  match replication_proxy s projectId proxyId with
  | Err e => ([], Err e)
  | Ok ps =>
      let nodes := nodes_of (ap_fleet s) ps in
      let r := ss_registry (streams_of s ps) in
      (match primaryOf nodes [] with Some b => if w_admin (b_address b) then [SlotsListed (b_address b)] else [] | None => [] end,
       Ok (ListStreams (Some r) (w_stream_order r) (slots nodes w_admin w_inventory)))
  end.

(** [CreateLogicalSlot] and the slot that is there after it. *)
Definition create_slot (s : api_state) (projectId proxyId slot address plugin : bytes) : list effect * result api_err (bytes * bytes) :=
  if decide (slot = []) then ([], Err (InvalidArgument (bs "slot name is required"))) else
  match replication_proxy s projectId proxyId with
  | Err e => ([], Err e)
  | Ok ps =>
      let nodes := nodes_of (ap_fleet s) ps in
      let r := CreateLogicalSlot nodes w_admin w_exec (from_option p_Address [] (configs (ap_fleet s) !! px_config ps)) slot address plugin in
      (match r, primaryOf nodes address with
       | Ok _, Some b => [SlotCreated (b_address b) slot (if decide (plugin = []) then bs "pgoutput" else plugin)]
       | _, _ => []
       end, r)
  end.

(** The targets of [TuneDatabase] whose hosts are asked, and those for which the proxy's
    own host is sampled. *)
Definition tuned (s : api_state) (projectId proxyId address : bytes) : list nat :=
  match observed_proxy (ap_fleet s) w_ranged projectId proxyId with
  | Ok (p, ps) => if decide (tuner_for (pj_Protocol p) = None) then targets (ap_fleet s) ps address else []
  | Err _ => []
  end.
Definition has_agent (f : Fleet) (n : nat) : bool := from_option n_agent false (nodes f !! n).
Definition host_info (f : Fleet) (n : nat) : option SystemMetrics := if has_agent f n then w_info n else None.

Definition ended (e : option err) : result err unit := match e with None => Ok tt | Some e => Err e end.

(** The service: each call goes to its manager. *)
Definition perform `{TokenScheme} (key : option bytes) (c : Call) (s : api_state) : (api_state * list effect) * reply :=
  let f := ap_fleet s in
  match c with
  | CListProjects => ((s, []), RProjects (map snd (map_to_list (stored f))))
  | CCreateProject project =>
      let '(r, f) := CreateProject w_listens w_ok f w_request project w_id w_ids w_now in ((with_fleet s f, []), RFleet r)
  | CDeleteProject id => let '(r, f) := DeleteProject w_ok f id in ((with_fleet s f, []), RFleet r)
  | CAddProxy projectId proxy => let '(r, f) := AddProxy w_listens w_ok f projectId proxy w_id in ((with_fleet s f, []), RFleet r)
  | CRemoveProxy projectId proxyId => let '(r, f) := RemoveProxy w_ok f projectId proxyId in ((with_fleet s f, []), RFleet r)
  | CUpdateProxy projectId proxy => let '(r, f) := UpdateProxy w_listens w_ok f projectId proxy in ((with_fleet s f, []), RFleet r)
  | CGetStatus projectId proxyId =>
      ((with_sample s (sample_at f w_now projectId proxyId (ap_sample s)), []), RStatus (status_at s f w_now projectId proxyId))
  | CStreamStatus projectId proxyId =>
      let '(l, e, t) := watch s projectId proxyId {| lastDigest := no_digest; lastSent := None |} ((w_now, f, w_taken) :: w_watch) (ap_sample s) in
      ((with_sample s t, []), RStatuses l e)
  | CAddBackend projectId proxyId config =>
      let '(r, f) := AddBackend w_ok w_spare w_install w_initialize f projectId proxyId config in ((with_fleet s f, [MayOrder proxyId]), RFleet (ended r))
  | CRemoveBackend projectId proxyId address =>
      let '(r, f) := RemoveBackend w_ok f projectId proxyId address in
      ((with_fleet s f, [MayOrder proxyId]), RFleet (ended r))
  | CUpdateBackend projectId proxyId address config =>
      let '(r, f) := UpdateBackend w_ok f projectId proxyId address config in ((with_fleet s f, []), RFleet (ended r))
  | CDiscoverCluster projectId proxyId primary =>
      let '(r, f') := DiscoverCluster w_oks w_spares f projectId proxyId w_topology in
      ((with_fleet s f', match GetProjectState f projectId with Ok _ => [Dialled primary] | Err _ => [] end), RFleet r)
  | CProvisionReplica projectId proxyId =>
      ((s, match GetProjectState f projectId with
           | Ok p => if bool_decide (is_Some (pj_proxies p !! proxyId)) && w_manager then [Provisioned proxyId] else []
           | Err _ => []
           end), RProgress (ProvisionReplica f projectId proxyId w_manager w_provisions))
  | CValidateBackend address => ((s, [Dialled address]), RValidated (ValidateBackend (w_dials address) w_elapsed))
  | CGetAgentInfo address => ((s, [Dialled address]), RInfo (GetAgentInfo (w_dials address) (w_agent_info address)))
  | CInitializeNode host => ((s, [HostOrdered host false]), RProgress (InitializeNode (w_dials host) (w_host_streams host false)))
  | CInstallNode host => ((s, [HostOrdered host true]), RProgress (InstallNode (w_dials host) (w_host_streams host true)))
  | CBackupBackend projectId proxyId address path =>
      ((s, order_to s projectId proxyId address (BackupDatabase path (bs "postgres"))), RProgress (BackupBackend w_streams f projectId proxyId address path))
  | CRestoreBackend projectId proxyId address path =>
      ((s, order_to s projectId proxyId address (RestoreDatabase path (bs "postgres"))), RProgress (RestoreBackend w_streams f projectId proxyId address path))
  | CVacuumBackend projectId proxyId address database full =>
      ((s, order_to s projectId proxyId address (VacuumDatabase database full true)), RProgress (VacuumBackend w_streams f projectId proxyId address database full))
  | CPromoteBackend projectId proxyId address =>
      ((s, order_to s projectId proxyId address PromoteNode), RAnswer (PromoteBackend w_answers f projectId proxyId address))
  | CRestartBackendService projectId proxyId address =>
      ((s, order_to s projectId proxyId address (RestartService (bs "postgresql"))), RAnswer (RestartBackendService w_answers f projectId proxyId address))
  | CShutdownBackend projectId proxyId address =>
      ((s, order_to s projectId proxyId address ShutdownDatabase), RAnswer (ShutdownBackend w_answers f projectId proxyId address))
  | CListReplicationStreams projectId proxyId => let '(e, r) := list_streams s projectId proxyId in ((s, e), RStreams r)
  | CTerminateReplicationStream projectId proxyId id =>
      match replication_proxy s projectId proxyId with
      | Ok ps => let '(text, st) := TerminateStream (streams_of s ps) id in
                   ((with_streams s (<[px_ctx ps := st]> (ap_streams s)), []), RTerminated (Ok text))
      | Err e => ((s, []), RTerminated (Err e))
      end
  | CCreateLogicalSlot projectId proxyId slot address plugin => let '(e, r) := create_slot s projectId proxyId slot address plugin in ((s, e), RSlot r)
  | CStreamLogs => let '(l, b) := StreamLogs (ap_logs s) w_lines in ((with_logs s b, []), RLines l)
  | CGetMetricsHistory start end_ => ((s, []), RHistory (GetMetricsHistory (ap_metrics s) start end_ w_now))
  | CGetTopQueriesHistory start end_ limit => ((s, []), RTop (GetTopQueriesHistory (ap_metrics s) start end_ limit w_now))
  | CGetLogs filter => ((s, []), RLogs (GetLogs (ap_rows s) filter))
  | CSetClusterConfig params =>
      let '(ok, m) := store_settings w_sets (w_settings_order params) (ap_settings s) in
      ((with_settings s m, if ok then match cluster_update w_parse params with Some cfg => [Reconfigured cfg] | None => [] end else []), RStored ok)
  | CGetClusterConfig => ((s, []), RSettings (if w_ok then Some (ap_settings s) else None))
  | CExplainQuery query => ((s, []), RPlan (ExplainQuery query))
  | CTuneDatabase projectId proxyId address =>
      let l := tuned s projectId proxyId address in
      ((with_sample s (foldl (fun t n => match host_info f n with Some _ => t | None => lastSample_after t w_now end) (ap_sample s) l),
        map (fun n => Asked n GetSystemInfo) (filter (fun n => has_agent f n = true) l)),
       RTuning (TuneDatabase f w_ranged (host_info f) w_local projectId proxyId address))
  | CApplyTuning projectId proxyId address suggestion =>
      let '(r, done_) := ApplyTuning f w_ranged w_acquires w_runs projectId proxyId address suggestion in ((s, map Stated done_), RApplied r)
  | CGetPostgresInsights projectId proxyId address =>
      ((s, match agent_of f projectId proxyId address with Ok n => [Asked n (AskInsights (bs "postgres"))] | Err _ => [] end),
       RInsights (GetPostgresInsights f w_insights projectId proxyId address))
  | CGetAvailableVersions => ((s, []), RVersions (GetAvailableVersions f w_available))
  | CLogin username password => ((s, []), RToken (Login key (ap_users s) w_now username password))
  | CCreateUser username password role =>
      match CreateUser (ap_users s) username password role with
      | Some (users, role) => ((with_users s users, []), RUser (Some role))
      | None => ((s, []), RUser None)
      end
  | CGetServerInfo => ((s, []), let '(v, commit, built) := GetServerInfo in RServer v commit built)
  end.

(** A call as it arrives: the interceptor first. *)
Definition serve_call `{TokenScheme} (a : AuthInterceptor) (now : Z) (authorization : bytes) (c : Call) (s : api_state) :
    (api_state * list effect) * result refusal reply :=
  match intercept a now authorization (procedure c) with
  | Some r => ((s, []), Err r)
  | None => let '(done_, r) := perform (issuer a) c s in (done_, Ok r)
  end.

(** ** Who can change anything *)

(** A status stream sends what [Operations.StreamStatus] sends of the status at each tick. *)
Lemma watch_streams s projectId proxyId ticks : forall st t,
  fst (watch s projectId proxyId st ticks t) =
  StreamStatus w_digest st (map (fun '(now, f, ok) => (now, as_call (status_at s f now projectId proxyId), ok)) ticks).
Proof.
  induction ticks as [|[[now f] ok] ticks IH]; intros st t; [done|]. cbn [watch map StreamStatus].
  destruct (send _ _ _ _ _) as [[|x|e] st']; [apply IH| |done].
  rewrite <- (IH st' (sample_at f now projectId proxyId t)). by destruct (watch _ _ _ st' ticks _) as [[l e] t'].
Qed.

(** What a call that only reads may leave behind: the sample of the host, and a selection
    of the slots or a question to an agent outside. *)
Definition unchanged (s s' : api_state) : Prop := with_sample s' (ap_sample s) = s.
Definition asks_only (e : effect) : bool := match e with Asked _ _ | SlotsListed _ => true | _ => false end.

Lemma unchanged_sample s t : unchanged s (with_sample s t).
Proof. by destruct s. Qed.
Lemma unchanged_refl s : unchanged s s.
Proof. by destruct s. Qed.

Definition reads_only `{TokenScheme} (key : option bytes) (c : Call) (s : api_state) : Prop :=
  unchanged s (fst (fst (perform key c s))) /\ Forall (fun e => asks_only e = true) (snd (fst (perform key c s))).

Lemma list_streams_asks s projectId proxyId : Forall (fun e => asks_only e = true) (fst (list_streams s projectId proxyId)).
Proof. unfold list_streams. repeat case_match; cbn; repeat constructor. Qed.

(** What a reader may call only reads, and so does what anybody may call. *)
Lemma reader_reads `{TokenScheme} key c s : readable (procedure c) \/ isLogin (procedure c) = true -> reads_only key c s.
Proof.
  unfold reads_only. intros Hc.
  destruct c; try (exfalso; revert Hc; unfold readable; vm_compute; intros [|]; discriminate);
    try (split; [apply unchanged_refl|constructor]).
  - split; [apply unchanged_sample|constructor].
  - cbn [perform]. destruct (watch _ _ _ _ _ _) as [[l e] t]. split; [apply unchanged_sample|constructor].
  - cbn [perform]. pose proof (list_streams_asks s projectId proxyId) as Ha. destruct (list_streams _ _ _). split; [apply unchanged_refl|done].
Qed.
End Api.

#[global] Arguments api_state W : clear implicits.

(** C36: A call that changes anything, in the state of the management plane but for the
    sample of the host or outside but for asking, comes from an administrator: it presents
    the static token of the configuration, where one is configured, or a token that was
    sealed with this server's key, is valid now and is an administrator's. *)
Theorem only_administrators_change (W : World) (T : TokenScheme) (a : AuthInterceptor) (now : Z) (authorization : bytes) (c : Call)
    (s s' : api_state W) (r : result refusal reply) (effects : list effect) :
  TokenLaws T ->
  serve_call a now authorization c s = ((s', effects), r) -> ~ unchanged s s' \/ Exists (fun e => asks_only e = false) effects ->
  presents_static a authorization \/
  exists key t, issuer a = Some key /\ TrimPrefix authorization (bs "Bearer ") = seal key t /\
    now <= Expiration t /\ NotBefore t <= now /\ tk_role t = Some (bs "admin").
Proof.
  intros HT Hs Hch. unfold serve_call in Hs. destruct (intercept a now authorization (procedure c)) as [x|] eqn:Ei.
  { injection Hs as <- <- <-. destruct Hch as [[]|Hch]; [apply unchanged_refl|]. by apply Exists_nil in Hch. }
  assert (~ (readable (procedure c) \/ isLogin (procedure c) = true)) as Hn.
  { intros Hc. destruct (reader_reads (issuer a) c s Hc) as [Hu Hf]. destruct (perform (issuer a) c s) as [[s1 e1] q]. injection Hs as <- <- <-.
    destruct Hch as [[]|Hch]; [done|]. apply Exists_exists in Hch as (e & He & Hx). rewrite Forall_forall in Hf. by rewrite (Hf e He) in Hx. }
  destruct (admitted_by T a now authorization (procedure c) HT) as [Hst|(key & t & Hk & Ht & He & Hb & Hr)];
    [destruct (isLogin (procedure c)); tauto|done|by left|].
  right. exists key, t. split_and!; try done. tauto.
Qed.

(** ** Concrete calls *)

Definition quiet_world : World := {|
  w_defaults := {| limits := false; dials := fun _ => true |}; w_hash := marked_hash; w_driver := Sample.driver; w_order := Sample.order;
  w_listens := fun _ => true; w_ok := true; w_request := []; w_id := bs "p1"; w_ids := []; w_now := 0; w_spare := 0; w_install := Refused;
  w_initialize := Refused; w_oks := fun _ => true; w_spares := fun _ => 0%nat; w_topology := None; w_ranged := fun _ => [];
  w_look := fun _ => ({| b_ref := 1%positive; b_address := []; b_zone := []; b_role := RolePrimary; b_healthy := false; b_draining := false; b_replicating := false;
                         b_active := 0; b_weight := 1; b_latency := 0; b_rtt := 0; b_lag := 0; b_errorRate := Qmake 0 1; b_lastHealthy := None |},
                      {| nr_MaxConns := 0; nr_IdleConns := 0; nr_WaitQueueSize := 0; nr_TotalRequests := 0; nr_TotalErrors := 0;
                         nr_Installed := []; nr_Recommended := [] |});
  w_failover := fun _ => None; w_cache := fun _ => None; w_admin := fun _ => false; w_exec := fun _ _ _ => None;
  w_inventory := fun _ => None; w_stream_order := fun _ => []; w_acquires := fun _ => None; w_runs := fun _ => None; w_parse := fun _ => None;
  w_manager := false; w_provisions := None; w_dials := fun _ => None; w_elapsed := 0; w_host_streams := fun _ _ => Rejected [];
  w_streams := fun _ _ => Rejected []; w_answers := fun _ _ => Err []; w_agent_info := fun _ => Err []; w_available := fun _ => [];
  w_info := fun _ => None; w_local := {| MemoryTotalBytes := 0; CpuCores := 0; OpenFilesLimit := 0; MaxProcessesLimit := 0 |};
  w_insights := fun _ => Err []; w_settings_order := map_to_list; w_sets := fun _ => true; w_digest := fun _ => None; w_taken := true;
  w_watch := []; w_lines := [] |}.
Definition empty_state : api_state quiet_world :=
  {| ap_fleet := no_fleet ∅; ap_users := ∅; ap_settings := ∅; ap_streams := ∅; ap_logs := NewLogBroadcaster; ap_rows := None;
     ap_metrics := None; ap_sample := None |}.
Definition token_of (role : bytes) : SessionToken :=
  {| IssuedAt := 5; NotBefore := 5; Expiration := 5 + TokenTTL; Issuer := bs "pontus"; tk_username := Some (bs "ann"); tk_role := Some role |}.
Definition api_call (a : AuthInterceptor) (authorization : bytes) (c : Call) : (api_state quiet_world * list effect) * result refusal reply :=
  @serve_call quiet_world clear_tokens a 6 authorization c empty_state.
Definition keyed (static : bytes) : AuthInterceptor := {| adminToken := static; issuer := Some (bs "key") |}.
Definition bearer (role : bytes) : bytes := bs "Bearer " ++ clear_seal (bs "key") (token_of role).

(** A reader's token opens the status and not the creation of a user. *)
Example reader_reads_only :
  snd (api_call (keyed []) (bearer (bs "viewer")) (CGetStatus [] [])) = Ok (RStatus (Err (NotFound (bs "project not found")))) /\
  snd (api_call (keyed []) (bearer (bs "viewer")) (CCreateUser (bs "bob") (bs "pw") [])) = Err PermissionDenied.
Proof. split; vm_compute; reflexivity. Qed.

(** The static token opens everything, and is no sealed token. *)
Example static_token_changes :
  let out := api_call (keyed (bs "letmein")) (bs "Bearer letmein") (CCreateUser (bs "bob") (bs "pw") []) in
  snd out = Ok (RUser (Some (bs "viewer"))) /\ @open_ clear_tokens (bs "key") (bs "letmein") = None.
Proof. split; vm_compute; reflexivity. Qed.

Lemma creation_changes (static auth : bytes) :
  size (ap_users (fst (fst (api_call (keyed static) auth (CCreateUser (bs "bob") (bs "pw") []))))) = 1%nat ->
  ~ unchanged empty_state (fst (fst (api_call (keyed static) auth (CCreateUser (bs "bob") (bs "pw") [])))).
Proof. intros E Hu. unfold unchanged in Hu. apply (f_equal (fun s => size (ap_users s))) in Hu. cbn [with_sample ap_users] in Hu. by rewrite E in Hu. Qed.

Lemma only_administrators_change_witness :
  (exists key t, issuer (keyed []) = Some key /\ TrimPrefix (bearer (bs "admin")) (bs "Bearer ") = seal (TokenScheme := clear_tokens) key t /\
     6 <= Expiration t /\ NotBefore t <= 6 /\ tk_role t = Some (bs "admin")) /\
  (presents_static (keyed (bs "letmein")) (bs "Bearer letmein") \/ exists key t, issuer (keyed (bs "letmein")) = Some key /\
     TrimPrefix (bs "Bearer letmein") (bs "Bearer ") = seal (TokenScheme := clear_tokens) key t /\
     6 <= Expiration t /\ NotBefore t <= 6 /\ tk_role t = Some (bs "admin")).
Proof.
  split.
  - destruct (api_call (keyed []) (bearer (bs "admin")) (CCreateUser (bs "bob") (bs "pw") [])) as [[s' effects] r] eqn:E.
    destruct (only_administrators_change quiet_world clear_tokens (keyed []) 6 (bearer (bs "admin")) (CCreateUser (bs "bob") (bs "pw") [])
      empty_state s' r effects clear_laws E) as [[Hs _]|H]; [|by destruct Hs|exact H].
    left. pose proof (creation_changes [] (bearer (bs "admin"))) as Hc. rewrite E in Hc. apply Hc.
    apply (f_equal (fun o => size (ap_users (fst (fst o))))) in E. rewrite <- E. vm_compute. reflexivity.
  - destruct (api_call (keyed (bs "letmein")) (bs "Bearer letmein") (CCreateUser (bs "bob") (bs "pw") [])) as [[s' effects] r] eqn:E.
    apply (only_administrators_change quiet_world clear_tokens (keyed (bs "letmein")) 6 (bs "Bearer letmein") (CCreateUser (bs "bob") (bs "pw") [])
      empty_state s' r effects clear_laws E).
    left. pose proof (creation_changes (bs "letmein") (bs "Bearer letmein")) as Hc. rewrite E in Hc. apply Hc.
    apply (f_equal (fun o => size (ap_users (fst (fst o))))) in E. rewrite <- E. vm_compute. reflexivity.
Defined.
