(* ===== verification/Ui.v ===== *)
(** * The web interface

    management/handler/ui.go: where the pages come from, which file answers a path, which
    of its precompressed variants, and how long it may be kept.

    The file system is a function from names; net/http writes what [response] says.  A
    name is looked up as [path.Clean] leaves it, so it never climbs out of the root. *)
From Stdlib Require Import ZArith Lia Strings.String.
From stdpp Require Import base gmap list numbers option.
From S2P Require Import Prelude Credentials Format Host.
#[local] Open Scope Z_scope.

(** ** Negotiation *)

(** [encodings]: the token and the suffix, best first. *)
Definition encodings : list (bytes * bytes) := [(bs "br", bs ".br"); (bs "gzip", bs ".gz")].

(** [strings.EqualFold] with a token of ASCII letters none of which folds further. *)
Definition fold_is (s token : bytes) : bool := bool_decide (map ascii_lower_byte s = map ascii_lower_byte token).

(** The parameters of one part of the header: the first [q=] decides. *)
Fixpoint quality (params : list bytes) : bool :=
  match params with
  | [] => true
  | p :: params =>
      let p := TrimSpace p in
      if HasPrefix p (bs "q=") then bool_decide (drop 2 p ∉ [bs "0"; bs "0.0"; bs "0.00"]) else quality params
  end.

(** [acceptsEncoding]: the first part that names the token decides. *)
Fixpoint accepts_part (parts : list bytes) (token : bytes) : bool :=
  match parts with
  | [] => false
  | part :: parts =>
      match split_on (ch ";") (TrimSpace part) with
      | name :: params => if fold_is (TrimSpace name) token then quality params else accepts_part parts token
      | [] => accepts_part parts token
      end
  end.
Definition acceptsEncoding (header token : bytes) : bool := accepts_part (split_on (ch ",") header) token.

(** [cacheControlFor]. *)
Definition revalidated (name : bytes) : bool :=
  bool_decide (name ∈ [bs "index.html"; bs "sw.js"; bs "registerSW.js"]) || bool_decide (bs "manifest.webmanifest" `suffix_of` name).
Definition cacheControlFor (name : bytes) : bytes :=
  if revalidated name then bs "no-cache"
  else if HasPrefix name (bs "assets/") then bs "public, max-age=31536000, immutable"
  else bs "public, max-age=3600".

(** ** Answering *)

Inductive entry := Directory | Content (data : bytes).
Record request := { rq_Method : bytes; rq_Path : bytes; rq_Range : bytes; rq_AcceptEncoding : bytes }.

(** What is answered: the file that is sent (not for HEAD), how it is encoded, how long it
    may be kept. *)
Record response := { rs_status : Z; rs_file : bytes; rs_encoding : option bytes; rs_cache : option bytes; rs_body : bool }.

Section Serve.
Context (fsys : bytes -> option entry).

Definition exists_file (name : bytes) : bool := match fsys name with Some (Content _) => true | _ => false end.

(** [serveEncoded]: the first variant that is accepted and there. *)
Fixpoint variant (accept name : bytes) (l : list (bytes * bytes)) : option (bytes * bytes) :=
  match l with
  | [] => None
  | (token, suffix) :: l =>
      if acceptsEncoding accept token && bool_decide (is_Some (fsys (name ++ suffix))) then Some (token, name ++ suffix) else variant accept name l
  end.
Definition serveEncoded (r : request) (name : bytes) : option (bytes * bytes) :=
  if decide (rq_Range r <> []) then None else variant (rq_AcceptEncoding r) name encodings.

(** The name a path stands for: the file, or the entry point. *)
Definition index : bytes := bs "index.html".
Definition file_name (p : bytes) : bytes :=
  let name := drop 1 (Clean (slash :: p)) in
  if decide (name = []) then index else if exists_file name then name else index.

Definition ServeHTTP (r : request) : response :=
  if decide (rq_Method r = bs "GET" \/ rq_Method r = bs "HEAD")
  then
    let name := file_name (rq_Path r) in
    let cache := Some (cacheControlFor name) in
    let body := bool_decide (rq_Method r = bs "GET") in
    match serveEncoded r name with
    | Some (token, file) => {| rs_status := 200; rs_file := file; rs_encoding := Some token; rs_cache := cache; rs_body := body |}
    | None =>
        match fsys name with
        | None => {| rs_status := 404; rs_file := []; rs_encoding := None; rs_cache := cache; rs_body := body |}
        | Some _ => {| rs_status := 200; rs_file := name; rs_encoding := None; rs_cache := cache; rs_body := body |}
        end
    end
  else {| rs_status := 405; rs_file := []; rs_encoding := None; rs_cache := None; rs_body := true |}.
End Serve.

(** [NewUIHandler]: [dev] is the variable of the environment, [vite] whether something
    answers on port 5173 of this host, [dist] whether the working directory has the pages. *)
Inductive source := Proxied | WorkingDirectory | Embedded.
Definition NewUIHandler (dev vite dist : bool) : source := if dev || vite then Proxied else if dist then WorkingDirectory else Embedded.

(** ** Theorems *)

Lemma variant_spec fsys accept name l token file : variant fsys accept name l = Some (token, file) ->
  exists suffix, (token, suffix) ∈ l /\ file = name ++ suffix /\ acceptsEncoding accept token = true /\ is_Some (fsys file).
Proof.
  induction l as [|[t x] l IH]; cbn; [done|]. destruct (acceptsEncoding accept t && _) eqn:E.
  - intros [= <- <-]. apply andb_true_iff in E as [Ea Ef]. apply bool_decide_eq_true in Ef. exists x. split_and!; [constructor|done|done|done].
  - intros H. destruct (IH H) as (s & Hin & Hs). exists s. split; [by constructor|done].
Qed.

Lemma file_name_exists fsys p : exists_file fsys index = true -> exists_file fsys (file_name fsys p) = true.
Proof. intros Hi. unfold file_name. case_decide; [done|]. by destruct (exists_file fsys (drop 1 _)) eqn:E. Qed.

(** A path is answered with its file or, where there is none, with the entry point; in a
    variant only where the request accepts it and asks for no range; the entry point and
    the service worker are asked for anew each time, and only what is under assets is
    kept for good. *)
Theorem page_served (fsys : bytes -> option entry) (r : request) :
  exists_file fsys index = true -> rq_Method r = bs "GET" ->
  let s := ServeHTTP fsys r in
  let name := file_name fsys (rq_Path r) in
  rs_status s = 200 /\ is_Some (fsys (rs_file s)) /\
  (name = drop 1 (Clean (slash :: rq_Path r)) /\ exists_file fsys name = true \/ name = index) /\
  (rs_encoding s = None /\ rs_file s = name \/
   exists token suffix, (token, suffix) ∈ encodings /\ rs_encoding s = Some token /\ rs_file s = name ++ suffix /\
     acceptsEncoding (rq_AcceptEncoding r) token = true /\ rq_Range r = []) /\
  (revalidated name = true -> rs_cache s = Some (bs "no-cache")) /\
  (rs_cache s = Some (bs "public, max-age=31536000, immutable") -> HasPrefix name (bs "assets/") = true).
Proof.
  intros Hi Hm. cbn zeta. unfold ServeHTTP. rewrite decide_True by by left. pose proof (file_name_exists fsys (rq_Path r) Hi) as Hn.
  assert (file_name fsys (rq_Path r) = drop 1 (Clean (slash :: rq_Path r)) /\ exists_file fsys (file_name fsys (rq_Path r)) = true \/
          file_name fsys (rq_Path r) = index) as Hf.
  { unfold file_name in *. case_decide; [by right|]. destruct (exists_file fsys (drop 1 _)) eqn:E; [left|right]; done. }
  set (name := file_name fsys (rq_Path r)) in *. clearbody name.
  assert (is_Some (fsys name)) as Hs by (unfold exists_file in Hn; by destruct (fsys name) as [[]|]).
  assert ((revalidated name = true -> Some (cacheControlFor name) = Some (bs "no-cache")) /\
          (Some (cacheControlFor name) = Some (bs "public, max-age=31536000, immutable") -> HasPrefix name (bs "assets/") = true)) as [Hc1 Hc2].
  { unfold cacheControlFor. split; [by intros ->|]. destruct (revalidated name); [done|]. by destruct (HasPrefix name _). }
  destruct (serveEncoded fsys r name) as [[token file]|] eqn:E.
  - unfold serveEncoded in E. case_decide as Hr; [done|]. apply variant_spec in E as (x & Hin & -> & Ha & Hx). cbn.
    split_and!; [done|done|exact Hf| |done|done]. right. exists token, x. split_and!; [done..|by destruct (rq_Range r)].
  - destruct Hs as [e He]. rewrite He. cbn. split_and!; [done|by eexists|exact Hf|by left|done|done].
Qed.

(** ** Concrete requests *)

Definition built (name : bytes) : option entry :=
  if decide (name ∈ [bs "index.html"; bs "index.html.gz"; bs "assets/app-3f.js"; bs "assets/app-3f.js.br"]) then Some (Content name)
  else if decide (name = bs "assets") then Some Directory else None.
Definition get (p accept : bytes) : request := {| rq_Method := bs "GET"; rq_Path := p; rq_Range := []; rq_AcceptEncoding := accept |}.

(** A path that climbs, a directory and an unknown route all get the entry point. *)
Example routes_get_the_entry_point :
  map (fun p => rs_file (ServeHTTP built (get p []))) [bs "/../../etc/passwd"; bs "/assets"; bs "/projects/p1"; bs "/"] =
    replicate 4 (bs "index.html") /\
  rs_file (ServeHTTP built (get (bs "/x/../assets/app-3f.js") (bs "gzip;q=0.5, br"))) = bs "assets/app-3f.js.br".
Proof. vm_compute. split; reflexivity. Qed.

(** A quality of zero is known by three of its spellings: a client that writes it with
    three decimals, or the letter in upper case, is sent what it refuses. *)
Example zero_quality_accepted :
  acceptsEncoding (bs "gzip;q=0") (bs "gzip") = false /\ acceptsEncoding (bs "gzip;q=0.000") (bs "gzip") = true /\
  acceptsEncoding (bs "gzip;Q=0") (bs "gzip") = true.
Proof. vm_compute. split_and!; reflexivity. Qed.

Lemma page_served_witness :
  exists_file built index = true /\
  let s := ServeHTTP built (get (bs "/login") (bs "gzip, br")) in
  rs_status s = 200 /\ rs_encoding s = Some (bs "gzip") /\ rs_file s = bs "index.html.gz" /\ rs_cache s = Some (bs "no-cache").
Proof.
  assert (exists_file built index = true) as Hi by (vm_compute; reflexivity).
  destruct (page_served built (get (bs "/login") (bs "gzip, br")) Hi eq_refl) as (H1 & _ & _ & _ & H5 & _).
  split; [exact Hi|]. cbn zeta. split; [exact H1|]. split; [vm_compute; reflexivity|]. split; [vm_compute; reflexivity|].
  apply H5. vm_compute. reflexivity.
Defined.
